(* ===== verification/_CoqProject ===== *)
-Q . S2P
Prelude.v
Texts.v
Retransmit.v
SipClock.v
Rendezvous.v
EventGate.v
Readiness.v
Limiter.v
LimiterInv.v
LimiterSpec.v
LimiterProps.v
LimiterClient.v
LimiterClientProps.v
ReplFrame.v
ReplCodec.v
ReplCodecProofs.v
ReplTransport.v
Msgpack.v
ReplProps.v
Changelog.v
ChangelogInv.v
ChangelogSpec.v
ChangelogSync.v
ChangelogProps.v
ReplStore.v
ReplStoreInv.v
ReplStoreSteps.v
ReplStoreProps.v
Envelope.v
Puller.v
SplitBrain.v
PullerProps.v
PullerRun.v
PullerRunProps.v
TxnData.v
TxnOwner.v
TxnClient.v
TxnServer.v
TxnTurn.v
TxnInv.v
TxnInvOps.v
TxnInvClient.v
TxnInvServer.v
TxnInvTurn.v
TxnWalk.v
TxnEvents.v
TxnProps.v
TxnFinal.v
ProxyTypes.v
SipHops.v
SipText.v
SipUriText.v
SipFrame.v
SipFrameProps.v
BranchMemo.v
BranchMemoInv.v
BranchMemoSteps.v
BranchMemoProps.v
Topology.v
WorkerRegistry.v
WorkerRegistryProps.v
WorkerRegistryThms.v
LoadBalancer.v
LoadBalancerProps.v
LoadBalancerThms.v
HealthProbe.v
HealthProbeProps.v
ProxyMsg.v
ProxyRefusals.v
ProxyRefusalsProps.v
ProxyCore.v
ProxyRequest.v
ProxyResponse.v
ProxyRefine.v
ProxyHops.v
ProxyTurns.v
ProxyReplies.v
ProxyTxn.v
ProxyEx.v
SipViaText.v
