(* ===== verification/Prelude.v ===== *)
(** * Verification of the siprustserver call-control core

    siprustserver is a SIP back-to-back user agent (B2BUA) and a SIP front
    proxy.  Calls are served by a pool of workers; each call has a primary
    worker and a backup, the workers replicate call bodies to each other, a
    cluster-wide limiter counts the calls in progress, and the front proxy
    spreads calls over the workers and keeps each call on its own.  This library
    models the parts that keep and move that state, and the SIP text they read
    and write, and proves what makes them correct.  The paths below are relative
    to [src/crates/].

    ** The parts and how they interact

    - _Call limiter_ ([call-limiter/src/store.rs], [call-limiter-wire]): one
      store, shared by every worker, of the limiter entries each call holds,
      under a lease.  Workers admit, release and refresh; the store sweeps what
      lapsed.  On each worker ([b2bua/src/limiter/]), the lease learnt, a queue of
      releases, a batch of refreshes and a breaker's policy on both; on each
      call ([call/src/model/limiter.rs]), its admission state.
    - _Replication wire_ ([repl-net]): frames, their msgpack codec, the length
      framing, and the TCP connection that carries them.
    - _Changelog_ ([b2bua/src/repl/changelog.rs] and its submodules): on the
      serving side, per peer and per direction, the compacted log of the
      references written, what the peer has applied, and the backlog marks that
      stop giving new calls a backup.
    - _Replicating store_ ([b2bua/src/repl/store.rs], [store/write.rs],
      [store/admission.rs], [store/backing.rs], [store/refusals.rs],
      [resurrection.rs], [incarnation.rs], [b2bua/src/store/memory.rs]): bodies,
      routing index, metadata, tombstones and refusals; a write moves the
      changelog.
    - _Envelope_ ([b2bua/src/store/envelope.rs], [store/containment.rs], the
      bump of [CallState::update]): the version vector and state stamp a body
      carries, and what the meeting of two copies keeps.
    - _Puller_ ([b2bua/src/repl/puller.rs] and [puller/*]): on the receiving
      side, the state machine that connects, streams, applies each frame to the
      store through the apply gate, and hands commands to the router.
    - _Retransmission ladders_ ([sip-retransmit]) and _clock deadlines_
      ([sip-clock/src/deadline.rs], [delay_queue.rs]): when a SIP message is
      sent again, when its sender gives up, and when a timer is due.
    - _Transaction layer_ ([sip-txn/src/layer/*]): one owner task per worker
      keeps the client and server transactions of RFC 3261 17, their timers in
      one wheel, the index of each call's transactions, and the queue of events
      handed up to the B2BUA; the B2BUA drives it with commands.
    - _Readiness_ ([b2bua/src/repl/readiness.rs], [backend_gate.rs]) and the
      _event-queue gate_ ([b2bua/src/overload/event_queue_gate.rs]): what a
      worker answers to the proxy's OPTIONS probe, whether it serves and
      whether it takes new calls.
    - _Front proxy_ ([sip-proxy]): the membership the cluster reports, the
      worker registry that projects it with the probe's annotations, the health
      probe that sends OPTIONS and counts misses, the load balancer with its
      rendezvous ranking and its stickiness cookie, the branch memo that
      remembers where each transaction went, the request and response paths over
      two faces, and the refusals the proxy answers itself.
    - _SIP text_ ([sip-message]): character classes, parameters, URIs and Via
      hops, and the frame of a message: how a datagram is split into a start
      line, header lines and a body, and how a draft is written as one.

    A write on one worker goes [ReplStore.write_put] -> [Changelog.bump_put];
    the peer's puller asks from its position, [Changelog.drain_since] reads the
    store for the references due, the frames cross [ReplTransport], and
    [PullerRun.on_data] applies them with [Puller.apply_to_store].  On a
    worker, a datagram enters [TxnTurn.turn] as a packet: an inbound request
    opens a server transaction ([TxnServer.handle_inbound_request]) and goes up
    as an event; the answer comes back as a command
    ([TxnServer.do_send_response]); what the B2BUA sends opens client
    transactions ([TxnClient.do_send_request]) whose timers walk the ladders of
    [Retransmit] at the deadlines of [SipClock].  On the proxy, a request is
    classified by its face ([ProxyRequest]), routed by the branch memo
    ([BranchMemo]) or the cookie of its Route or a new placement
    ([LoadBalancer] over [WorkerRegistry]), stamped ([ProxyMsg]) and sent; its
    responses retrace it ([ProxyResponse]).

    ** Files

    - [Prelude]: machine integers with their wrap-around and saturation, Rust's
      [Result], big-endian bytes, the binary heap as the multiset it pops in
      order, ordered maps, tactics, shared list lemmas.  [Texts] (searching and cutting texts, decimal numbers).
    - [Retransmit] (classes, schedules and the ladder, C36), [SipClock]
      (deadlines and the wheel), [Rendezvous] (scores, selection and ranking),
      [EventGate] (the gate and its stored state), [Readiness] (the latches
      under interleaved calls, the OPTIONS report, C39).
    - [Limiter] (the store), [LimiterInv] (its invariant), [LimiterSpec] (the
      abstract store of sets, fences and markers, and the refinement),
      [LimiterProps] (C1, C2, C4, C7).  [LimiterClient] (the worker's and the
      call's side), [LimiterClientProps] (both beside the store and a network,
      C28).
    - [ReplFrame], [ReplCodec], [ReplTransport] (the code), [ReplCodecProofs],
      [Msgpack] (an instance of the [rmp] interface), [ReplProps] (C12, C13).
    - [Changelog] (the code), [ChangelogInv], [ChangelogSpec] (the record of
      every write, which it refines), [ChangelogSync] (the stream of one flow, from
      [serve_flow] of [repl/server.rs] to the puller's position, beside it),
      [ChangelogProps] (C18, C19).
    - [ReplStore] (the code), [ReplStoreInv], [ReplStoreSteps],
      [ReplStoreProps] (C24, C26).
    - [Envelope] (call references, and the envelope over the [CallModel]
      interface), [SplitBrain] (an instance of that interface, two owners of one
      call, C29, C30).
    - [Puller] (the apply gate and the meetings), [PullerProps] (C31),
      [PullerRun] (the state machine), [PullerRunProps] (C34).
    - [TxnData] (records, keys, lifetimes, and the interface [TxnEnv] of the
      layer), [TxnOwner] (maps, wheel, index, queue), [TxnClient], [TxnServer],
      [TxnTurn] (seeds, commands, timers, turns): the code.  [TxnInv] (the
      owner's invariant), [TxnInvOps], [TxnInvClient], [TxnInvServer],
      [TxnInvTurn] (every operation preserves it).  [TxnWalk] (handlers as walks
      of small steps), [TxnEvents] (events on their way up), [TxnProps] (an
      instance of [TxnEnv]; C5, C10, C14, C16, C17, C33), [TxnFinal] (C15).
    - [ProxyTypes] (addresses and cookies), [SipHops] (the escapes of a
      parameter value, parameters, Via and route hops), [SipText] (character classes, scanning, quoted strings,
      parameter lists), [SipUriText] (the URI reader and renderer, C9),
      [SipViaText] (the Via reader and renderer, the cookie over the wire, C8),
      [SipFrame] (the split of a datagram, drafts and the serializer),
      [SipFrameProps] (C25, C38).
    - [BranchMemo] (pools and the memo), [BranchMemoInv], [BranchMemoSteps],
      [BranchMemoProps] (C3).  [Topology] (the membership read from the
      cluster), [WorkerRegistry], [WorkerRegistryProps], [WorkerRegistryThms]
      (the projection, and the race of two recomposes).  [LoadBalancer],
      [LoadBalancerProps], [LoadBalancerThms] (C6, C27).  [HealthProbe],
      [HealthProbeProps] (C35, C37).
    - [ProxyMsg] (the entries the proxy writes), [ProxyRefusals] and
      [ProxyRefusalsProps] (what it refuses itself), [ProxyCore] (state, faces
      and seams), [ProxyRequest], [ProxyResponse] (the two paths), [ProxyRefine]
      (the core over the memo and over a plain map, C22), [ProxyHops] (the hops of
      a forwarded message, C40), [ProxyTurns] (sequences of turns),
      [ProxyReplies] (C32), [ProxyTxn] (C11, C20, C21, C23), [ProxyEx] (concrete
      runs and the witnesses of those).

    ** How code is modelled

    A struct behind one mutex is a record, and each method one function on it:
    the clock readings a method takes are its arguments.  A [HashMap] is a
    [gmap], a [BTreeMap<u64, _>] the list of its pairs in ascending order, a
    [BinaryHeap] the list it pops, sorted.  [i64] and [u64] are [Z] with
    wrapping arithmetic written out where the source adds or subtracts (the
    release profile has no overflow checks); theorems say which sums must not
    overflow.  A text is a Rocq string, one character per byte, as Rust's [str]
    is UTF-8; a scanner is the text it has left.  Code of other crates is an
    interface: [RmpLaws] for [rmp], [CallModel] with [CodecLaws] for the call
    record, its helpers and the two serializers, [TxnEnv] for what the
    transaction layer reads of a message, classes for the HMAC of the cookie,
    for IP addresses and for UTF-8; each has an instance the witnesses use.
    SHA-1 is an argument of the scores.  Locks are held for a whole method and
    not modelled; tasks interleave between methods, as sequences of operations,
    events of a step function, or a step relation.

    ** What is proved

    - Limiter: counts are exact in every reachable state (C1); admit refines the
      abstract store (C2); caps are never exceeded by what the store itself
      grants (C4); releases fence (C7); a worker's releases are each answered,
      waiting or given up, and answered only once the store executed them
      (C28); an ended call is not refreshed, an answering limiter drains the
      queue, and a call's state never goes back
      ([LimiterClientProps.ended_call_not_refreshed], [answered_queue_drains],
      [call_state_forward]).
    - Wire: any chunking of the bytes delivers exactly the frames that arrived
      whole (C12); codec round trip (C13).
    - Changelog: it refines the record of every write, from which nothing is
      removed (C18); the replica built by the frames of a resumed flow is in step
      with that record at the puller's position, whatever interleaves, and with
      all of it once caught up (C19).
    - Store: lockstep of its maps (C24), no resurrection (C26).
    - Split brain: containment by stamp and vector is exactly the inclusion of
      compared writes (C29); a read loses and invents none (C30); the store's
      apply gate implements it (C31).  Puller: bootstrap always ends (C34).
    - Retransmission: the walk of a ladder is the list of elapsed times below
      its give-up, and ends (C36).  Readiness: under every interleaving of
      atomic accesses the latches hold (C39).
    - Transactions, over every sequence of turns: a stored key names the live
      wheel entry armed for its transaction and purpose, and conversely (C10);
      the index of a call names exactly its transactions (C5); every transaction
      has a clean-up due at its deadline and leaves when it fires (C14); CANCELs
      held are those flushed, dropped or still held (C16); deferred events have
      a retry armed and go up in order, or are dropped with their consumer gone
      (C17); an event offered is taken, queued or deferred, and none is lost but a
      request whose transaction left unanswered (C33); a server's final is given
      once (C15).
    - Branch memo: it answers as a map of timed entries would (C3) and stays
      within its bounds; the core over it behaves as over that map while
      nothing is evicted (C22).
    - Placement: a cookie is believed only as it was signed, refused where it does
      not verify and read as unknown where a field is missing (C6), and routes its
      call to its worker or its backup for the call's life (C27); a worker read
      alive was heard at its address (C35), and a silent one is read as not
      alive once the configured number of rounds has gone unanswered (C37).
    - Proxy: a retransmission repeats its first route (C20), a CANCEL follows
      its INVITE (C21), responses retrace the request (C23) and reach no worker
      read Dead that their Via names (C32), the ACK of a failure goes where the
      failure came from (C11), all while the memo evicts nothing they need and
      up to the messages a draft cannot rewrite, which are dropped; the external
      face is not an open relay (C40).
    - SIP text: a URI rendered is read back and what is read was written so
      (C9); the Record-Route a proxy writes, rendered, echoed and read again,
      routes to the worker of the cookie (C8); a frozen message is read as it
      was stated, no text in it starting a line or moving the body (C25); an
      accepted message is within the limits, its lines are those of its header
      block, and its body is what follows the first blank line (C38).

    ** Bounds

    Fuel is taken only where the source loops on something that is not
    structural, and is shown enough: the sweep loops of [Limiter] take the
    length of the heap they pop, the halving loop of [SipClock.after] what
    [SipClock.after_exact] shows enough for every delay, expiry and eviction of
    the branch memo and of the refusals the length of the order they pop,
    trimming the length of the text, the parameter reader the length of its text
    and two more ([SipText.params_always_read], [SipUriText.sip_params_total]), the
    split of a datagram its length and one more ([SipFrameProps.parse_frame_total]).
    [ReplTransport.recv_loop] recurses on the reads left; [ReplStore.rf_evict]
    on the order it pops; the sequences of operations in the theorems are
    arbitrary lists, of length below the width of the counter they move where
    that matters.

    ** Steps coarser than the code

    Some steps are one where the source takes several.  [ReplStore.write_put] and
    the other writes of the store are one step each: the source clears the
    refusals and bumps the changelog after it drops the lock of the metadata.
    A turn of the transaction owner reads the clock once, where [lifetime.rs]
    reads it again and the [DelayQueue] rounds to the millisecond.  A turn of the
    proxy core is one step with one clock reading, where several receive shards
    share the memo: its methods are under one lock each, a turn is not.
    [WorkerRegistry.recompose] is one step: the source publishes with a plain
    store after an earlier read of the annotations, and what two of them may
    leave is [WorkerRegistryThms.stale_projection].  An event of the health probe
    is one step, its write to the registry with it.  A change of the changelog is
    under its one mutex, and the steps of a stream ([ChangelogSync]) are apart:
    the snapshot drained, each body read, each frame sent, each frame applied.

    ** Not modelled

    The dispatch and decision cores of the B2BUA, the call record's own rules
    ([CallModel] stands for them), media, HTTP, metrics, the runner binaries and
    the test tooling; the proxy's receive loop, resolver and load observer, and
    load shedding ([load-shed]), which compute in floating point or only move
    bytes.  Of the message layer, the fields read out of the header lines, the
    typed values of the other headers, the generators, SDP and multipart bodies:
    the transaction layer and the proxy take a message as what they read of one.
*)

From stdpp Require Export base gmap strings list fin_maps sorting.
From Stdlib Require Export ZArith Lia.

Open Scope Z_scope.

(** ** Machine integers

    An [i64] or [u64] of the source is a [Z]; the operations whose width the
    source relies on are written out here.  Rust's release profile (the
    workspace sets no [overflow-checks]) wraps. *)

Declare Scope rust_scope.
Delimit Scope rust_scope with rust.

Definition i64_MIN : Z := - 2 ^ 63.
Definition i64_MAX : Z := 2 ^ 63 - 1.
Definition u64_MAX : Z := 2 ^ 64 - 1.
Definition u32_MAX : Z := 2 ^ 32 - 1.
Definition u16_MAX : Z := 2 ^ 16 - 1.
Definition u8_MAX : Z := 2 ^ 8 - 1.

Definition in_i64 (z : Z) : Prop := i64_MIN <= z <= i64_MAX.
Definition in_u64 (z : Z) : Prop := 0 <= z <= u64_MAX.

(** Two's complement wrap-around of a signed 64-bit result. *)
Definition i64_wrap (z : Z) : Z := (z + 2 ^ 63) mod 2 ^ 64 - 2 ^ 63.
(** Wrap-around of an unsigned 64-bit result. *)
Definition u64_wrap (z : Z) : Z := z mod 2 ^ 64.

Definition i64_add (a b : Z) : Z := i64_wrap (a + b).
Definition i64_sub (a b : Z) : Z := i64_wrap (a - b).
Definition u64_add (a b : Z) : Z := u64_wrap (a + b).

(** [saturating_*]: the result clamped to the type's range. *)
Definition i64_clamp (z : Z) : Z := Z.max i64_MIN (Z.min i64_MAX z).
Definition i64_saturating_add (a b : Z) : Z := i64_clamp (a + b).
Definition i64_saturating_sub (a b : Z) : Z := i64_clamp (a - b).
Definition i64_saturating_mul (a b : Z) : Z := i64_clamp (a * b).

Notation "a '+i' b" := (i64_add a b) (at level 50, left associativity) : rust_scope.
Notation "a '-i' b" := (i64_sub a b) (at level 50, left associativity) : rust_scope.

Lemma i64_wrap_id z : in_i64 z -> i64_wrap z = z.
Proof.
  unfold in_i64, i64_MIN, i64_MAX, i64_wrap. intros H.
  rewrite Z.mod_small by lia. lia.
Qed.

Lemma i64_add_exact a b : in_i64 (a + b) -> i64_add a b = a + b.
Proof. apply i64_wrap_id. Qed.

Lemma i64_sub_exact a b : in_i64 (a - b) -> i64_sub a b = a - b.
Proof. apply i64_wrap_id. Qed.

Lemma i64_wrap_range z : in_i64 (i64_wrap z).
Proof.
  unfold in_i64, i64_MIN, i64_MAX, i64_wrap.
  pose proof (Z.mod_pos_bound (z + 2 ^ 63) (2 ^ 64)). lia.
Qed.

Lemma i64_clamp_range z : in_i64 (i64_clamp z).
Proof. unfold in_i64, i64_clamp, i64_MIN, i64_MAX. lia. Qed.

Lemma i64_clamp_id z : in_i64 z -> i64_clamp z = z.
Proof. unfold in_i64, i64_clamp. lia. Qed.

Lemma u64_wrap_add_l a b : u64_wrap (u64_wrap a + b) = u64_wrap (a + b).
Proof. apply Zplus_mod_idemp_l. Qed.

(** ** Results

    Rust's [Result<A, E>] and the [?] operator. *)

Inductive result (A E : Type) : Type :=
  | Ok (a : A)
  | Err (e : E).
Arguments Ok {A E} a.
Arguments Err {A E} e.

Definition res_bind {A B E : Type} (c : result A E) (k : A -> result B E) : result B E :=
  match c with Ok a => k a | Err e => Err e end.

Definition map_err {A E F : Type} (f : E -> F) (c : result A E) : result A F :=
  match c with Ok a => Ok a | Err e => Err (f e) end.

Notation "'let?' x ':=' c 'in' k" := (res_bind c (fun x => k))
  (at level 10, x pattern, c at level 100, k at level 200) : rust_scope.
Notation "c ';?' k" := (res_bind c (fun _ => k))
  (at level 100, right associativity) : rust_scope.

(** ** Field updates

    [r <| p := v |>] is the record [r] with its field [p] set, [r <| p ::= f |>]
    with [f] applied to it.  A record declares its eta expansion once, and one
    instance per field that changes. *)

Class Setter {R T : Type} (proj : R -> T) := modify : (T -> T) -> R -> R.
Arguments modify {R T} proj {_} f r.

Ltac setter eta :=
  match goal with
  | |- @Setter ?R ?T ?p =>
      let b := eval cbv beta delta [eta] in eta in
      let u := eval pattern p in b in
      match u with
      | ?F _ => let s := eval cbv beta in (fun (g : T -> T) => F (fun r => g (p r))) in exact s
      end
  end.

Notation "r <| p := v |>" := (modify p (fun _ => v) r)
  (at level 1, left associativity, p at level 0, format "r  <| p  :=  v |>").
Notation "r <| p ::= f |>" := (modify p f r)
  (at level 1, left associativity, p at level 0, format "r  <| p  ::=  f |>").

(** ** Tactics *)

(** Turn the boolean comparisons of [Z] and [nat] into propositions. *)
Ltac zbool :=
  repeat match goal with
  | H : (_ <? _) = true |- _ => apply Z.ltb_lt in H
  | H : (_ <? _) = false |- _ => apply Z.ltb_ge in H
  | H : (_ <=? _) = true |- _ => apply Z.leb_le in H
  | H : (_ <=? _) = false |- _ => apply Z.leb_gt in H
  | H : (_ =? _) = true |- _ => apply Z.eqb_eq in H
  | H : (_ =? _) = false |- _ => apply Z.eqb_neq in H
  | H : (_ >? _) = true |- _ => rewrite Z.gtb_ltb in H
  | H : (_ >? _) = false |- _ => rewrite Z.gtb_ltb in H
  | H : (_ >=? _) = true |- _ => rewrite Z.geb_leb in H
  | H : (_ >=? _) = false |- _ => rewrite Z.geb_leb in H
  | H : (_ && _)%bool = true |- _ => apply andb_true_iff in H; destruct H
  | H : (_ || _)%bool = false |- _ => apply orb_false_iff in H; destruct H
  | H : negb _ = true |- _ => apply negb_true_iff in H
  | H : negb _ = false |- _ => apply negb_false_iff in H
  end.

(** Split on the [Z] comparisons of the goal. *)
Ltac zcase :=
  repeat match goal with
  | |- context [?a <? ?b] => destruct (Z.ltb_spec a b)
  | |- context [?a <=? ?b] => destruct (Z.leb_spec a b)
  | |- context [?a =? ?b] => destruct (Z.eqb_spec a b)
  end.

(** Case analysis on a key equality, both lookups simplified. *)
Ltac by_key k k' :=
  destruct (decide (k = k')) as [->|?]; simplify_map_eq.

Create HintDb siprust.

(** ** Lists and maps *)

Lemma sorted_filter {A} (R : A -> A -> Prop) (P : A -> Prop) `{!forall x, Decision (P x)} l :
  StronglySorted R l -> StronglySorted R (filter P l).
Proof.
  induction 1 as [|x l Hs IH Hx]; [constructor|]. rewrite filter_cons.
  destruct (decide (P x)); [|done]. constructor; [done|].
  rewrite Forall_forall in *. intros y Hy. apply list_elem_of_filter in Hy as [_ Hy]. by apply Hx.
Qed.

Lemma filter_all {A} (P : A -> Prop) `{!forall x, Decision (P x)} (l : list A) :
  (forall x, x ∈ l -> P x) -> filter P l = l.
Proof.
  induction l as [|x l IH]; intros Hl; [done|].
  rewrite filter_cons_True by (apply Hl; by left). f_equal. apply IH. intros. apply Hl. by right.
Qed.

Lemma filter_none {A} (P : A -> Prop) `{!forall x, Decision (P x)} (l : list A) :
  (forall x, x ∈ l -> ~ P x) -> filter P l = [].
Proof.
  induction l as [|x l IH]; intros Hl; [done|].
  rewrite filter_cons_False by (apply Hl; by left). apply IH. intros. apply Hl. by right.
Qed.

Section heap.
(** [BinaryHeap<Reverse<(i64, String)>>]: a min-heap of deadlines, as the
    list of its elements in pop order. *)
Definition deadline : Type := Z * string.

Definition deadline_leb (a b : deadline) : bool :=
  (a.1 <? b.1) || ((a.1 =? b.1) && String.leb a.2 b.2).

(** [push]. *)
Fixpoint heap_push (x : deadline) (h : list deadline) : list deadline :=
  match h with
  | [] => [x]
  | y :: h' => if deadline_leb x y then x :: h else y :: heap_push x h'
  end.

(** Every element's deadline is at or after its predecessors'. *)
Definition heap_ok (h : list deadline) : Prop :=
  StronglySorted (fun a b => a.1 <= b.1) h.

Lemma heap_push_Permutation x h : heap_push x h ≡ₚ x :: h.
Proof.
  induction h as [|y h IH]; simpl; [done|].
  case_match; [done|]. rewrite IH. apply Permutation_swap.
Qed.

Lemma elem_of_heap_push z x h : z ∈ heap_push x h <-> z = x \/ z ∈ h.
Proof. rewrite heap_push_Permutation. apply elem_of_cons. Qed.

Lemma deadline_leb_false a b : deadline_leb a b = false -> b.1 <= a.1.
Proof. unfold deadline_leb. intros H. zbool. lia. Qed.

Lemma deadline_leb_true a b : deadline_leb a b = true -> a.1 <= b.1.
Proof.
  unfold deadline_leb. rewrite orb_true_iff, andb_true_iff.
  intros [H|[H _]]; zbool; lia.
Qed.

Lemma heap_push_ok x h : heap_ok h -> heap_ok (heap_push x h).
Proof.
  unfold heap_ok. induction h as [|y h IH]; intros Hs; simpl.
  { repeat constructor. }
  inversion Hs as [|?? Hs' Hall]; subst.
  destruct (deadline_leb x y) eqn:E.
  - constructor; [done|]. apply deadline_leb_true in E.
    constructor; [done|]. eapply Forall_impl; [done|]. simpl. lia.
  - constructor; [by apply IH|]. apply deadline_leb_false in E.
    rewrite heap_push_Permutation. by constructor.
Qed.

Lemma heap_ok_head x h : heap_ok (x :: h) -> forall z, z ∈ h -> x.1 <= z.1.
Proof.
  intros H z Hz. inversion H as [|?? _ Hall]; subst.
  rewrite Forall_forall in Hall. by apply Hall.
Qed.

Lemma heap_ok_tail x h : heap_ok (x :: h) -> heap_ok h.
Proof. inversion 1; done. Qed.

(** The elements due at [now]. *)
Definition due_count (now : Z) (h : list deadline) : nat :=
  length (filter (fun x => x.1 <= now) h).

Lemma due_count_le now h : (due_count now h <= length h)%nat.
Proof. apply length_filter. Qed.

Lemma due_count_push now x h :
  now < x.1 -> due_count now (heap_push x h) = due_count now h.
Proof.
  intros Hx. unfold due_count. rewrite heap_push_Permutation.
  rewrite filter_cons_False; [done|lia].
Qed.

Lemma due_count_pop now x h :
  x.1 <= now -> due_count now (x :: h) = S (due_count now h).
Proof. intros Hx. unfold due_count. by rewrite filter_cons_True. Qed.

(** A heap whose first deadline is not due has none due. *)
Lemma heap_none_due now h :
  heap_ok h -> match h with [] => True | x :: _ => now < x.1 end ->
  forall x, x ∈ h -> now < x.1.
Proof.
  destruct h as [|y h]; intros Hok Hy x Hx; [by apply elem_of_nil in Hx|].
  apply elem_of_cons in Hx as [->|Hx]; [done|].
  pose proof (heap_ok_head _ _ Hok _ Hx). lia.
Qed.
End heap.

#[export] Hint Resolve heap_push_ok heap_ok_tail : siprust.

(** ** Bytes

    A byte is a [Z] in [0, 256). *)

Definition is_byte (b : Z) : Prop := 0 <= b < 256.

(** [to_be_bytes] of a [k]-byte unsigned integer. *)
Fixpoint be_bytes (k : nat) (z : Z) : list Z :=
  match k with
  | O => []
  | S k => (z / 256 ^ Z.of_nat k) mod 256 :: be_bytes k z
  end.

(** [from_be_bytes]. *)
Definition be_value (l : list Z) : Z := foldl (fun acc b => acc * 256 + b) 0 l.

Lemma length_be_bytes k z : length (be_bytes k z) = k.
Proof. induction k; simpl; [done|by f_equal]. Qed.

Lemma be_bytes_is_byte k z : Forall is_byte (be_bytes k z).
Proof.
  induction k; simpl; constructor; [|done]. apply Z.mod_pos_bound. lia.
Qed.

(** What every step of a fold keeps, the fold keeps. *)
Lemma foldl_keeps {A B} (P : A -> Prop) (f : A -> B -> A) l a :
  (forall a b, P a -> P (f a b)) -> P a -> P (foldl f a l).
Proof. intros Hf. revert a. induction l as [|b l IH]; intros a Ha; simpl; [done|]. by apply IH, Hf. Qed.

Lemma foldl_be_bytes k z acc :
  foldl (fun acc b => acc * 256 + b) acc (be_bytes k z)
  = acc * 256 ^ Z.of_nat k + z mod 256 ^ Z.of_nat k.
Proof.
  revert acc. induction k as [|k IH]; intros acc; simpl.
  { rewrite Z.mod_1_r. lia. }
  rewrite IH, Nat2Z.inj_succ, Z.pow_succ_r by lia.
  assert (0 < 256 ^ Z.of_nat k) by (apply Z.pow_pos_nonneg; lia).
  rewrite (Z.mul_comm 256), Z.rem_mul_r by lia. nia.
Qed.

Lemma be_value_be_bytes k z : 0 <= z < 256 ^ Z.of_nat k -> be_value (be_bytes k z) = z.
Proof. intros H. unfold be_value. rewrite foldl_be_bytes, Z.mod_small; lia. Qed.

Lemma be_value_bound l : Forall is_byte l -> 0 <= be_value l < 256 ^ Z.of_nat (length l).
Proof.
  unfold be_value. induction l as [|b l IH] using rev_ind; intros Hl; [simpl; lia|].
  apply Forall_app in Hl as [Hl Hb]. specialize (IH Hl).
  rewrite Forall_singleton in Hb. unfold is_byte in Hb.
  rewrite foldl_app, length_app, Nat2Z.inj_add, Z.pow_add_r by lia. simpl foldl.
  change (256 ^ Z.of_nat (length [b])) with 256. lia.
Qed.

(** ** Ordered maps

    A [BTreeMap] keyed by numbers is the association list of its pairs in
    ascending key order. *)


(** [BTreeMap::insert]. *)
Fixpoint bt_insert {A} (c : Z) (r : A) (m : list (Z * A)) : list (Z * A) :=
  match m with
  | [] => [(c, r)]
  | (c', r') :: m' =>
      if c <? c' then (c, r) :: m
      else if c =? c' then (c, r) :: m'
      else (c', r') :: bt_insert c r m'
  end.

(** [BTreeMap::remove]. *)
Definition bt_remove {A} (c : Z) (m : list (Z * A)) : list (Z * A) :=
  filter (fun p => p.1 <> c) m.

(** [BTreeMap::get]. *)
Definition bt_get {A} (c : Z) (m : list (Z * A)) : option A := snd <$> List.find (fun p => p.1 =? c) m.

(** The pairs strictly above [c], and those at or below it. *)
Definition bt_above {A} (c : Z) (m : list (Z * A)) : list (Z * A) :=
  filter (fun p => c < p.1) m.
Definition bt_upto {A} (c : Z) (m : list (Z * A)) : list (Z * A) :=
  filter (fun p => p.1 <= c) m.

Definition keys_sorted {A} (m : list (Z * A)) : Prop := StronglySorted (fun a b => a.1 < b.1) m.

Lemma bt_insert_last {A} c (r : A) m :
  Forall (fun p => p.1 < c) m -> bt_insert c r m = m ++ [(c, r)].
Proof.
  induction m as [|[c' r'] m IH]; intros Hm; [done|].
  apply Forall_cons in Hm as [Hc Hm]. simpl in *.
  destruct (Z.ltb_spec c c'); [lia|]. destruct (Z.eqb_spec c c'); [lia|]. by rewrite IH.
Qed.

Lemma keys_sorted_snoc {A} m c (r : A) :
  keys_sorted m -> Forall (fun p => p.1 < c) m -> keys_sorted (m ++ [(c, r)]).
Proof.
  unfold keys_sorted. induction m as [|p m IH]; intros Hs Hm; simpl.
  { repeat constructor. }
  apply StronglySorted_inv in Hs as [Hs Hp]. apply Forall_cons in Hm as [Hc Hm].
  constructor; [by apply IH|]. apply Forall_app. split; [done|]. by constructor.
Qed.

Lemma keys_sorted_take {A} k (m : list (Z * A)) : keys_sorted m -> keys_sorted (firstn k m).
Proof. intros Hs. rewrite <-(take_drop k m) in Hs. by apply StronglySorted_app_1_l in Hs. Qed.

Lemma elem_of_bt_remove {A} c p (m : list (Z * A)) : p ∈ bt_remove c m <-> p ∈ m /\ p.1 <> c.
Proof. unfold bt_remove. rewrite list_elem_of_filter. tauto. Qed.
Lemma elem_of_bt_above {A} c p (m : list (Z * A)) : p ∈ bt_above c m <-> p ∈ m /\ c < p.1.
Proof. unfold bt_above. rewrite list_elem_of_filter. tauto. Qed.
Lemma elem_of_bt_upto {A} c p (m : list (Z * A)) : p ∈ bt_upto c m <-> p ∈ m /\ p.1 <= c.
Proof. unfold bt_upto. rewrite list_elem_of_filter. tauto. Qed.

Lemma keys_unique {A} m c (r r' : A) : keys_sorted m -> (c, r) ∈ m -> (c, r') ∈ m -> r = r'.
Proof.
  unfold keys_sorted. induction 1 as [|p m Hs IH Hp]; [by intros ?%elem_of_nil|].
  rewrite Forall_forall in Hp. rewrite !elem_of_cons.
  intros [Heq|Hr] [Heq'|Hr']; subst; simplify_eq; auto;
    [apply Hp in Hr'|apply Hp in Hr]; simpl in *; lia.
Qed.

Lemma keys_sorted_remove {A} (m : list (Z * A)) c : keys_sorted m -> keys_sorted (bt_remove c m).
Proof. apply sorted_filter. Qed.

#[export] Hint Resolve keys_sorted_remove : siprust.

Lemma length_bt_remove {A} m c (r : A) :
  keys_sorted m -> (c, r) ∈ m -> S (length (bt_remove c m)) = length m.
Proof.
  unfold keys_sorted, bt_remove. induction 1 as [|p m Hs IH Hp]; [by intros ?%elem_of_nil|].
  rewrite Forall_forall in Hp. intros [<-|Hin]%elem_of_cons; simpl.
  - rewrite filter_cons_False by (intros H; by apply H). rewrite filter_all; [done|].
    intros q Hq. apply Hp in Hq. simpl in Hq. lia.
  - rewrite filter_cons_True; [simpl; by rewrite IH|]. apply Hp in Hin. simpl in Hin. lia.
Qed.

Lemma filter_ext_in {A} (P Q : A -> Prop) `{!forall x, Decision (P x)} `{!forall x, Decision (Q x)} (l : list A) :
  (forall x, x ∈ l -> P x <-> Q x) -> filter P l = filter Q l.
Proof.
  induction l as [|x l IH]; intros Hl; [done|]. rewrite !filter_cons, IH by (intros; apply Hl; by right).
  specialize (Hl x (list_elem_of_here _ _)). destruct (decide (P x)), (decide (Q x)); tauto || done.
Qed.

Lemma bt_get_elem {A} c (r : A) m : keys_sorted m -> (c, r) ∈ m -> bt_get c m = Some r.
Proof.
  unfold keys_sorted, bt_get. induction 1 as [|p m Hs IH Hp]; [by intros ?%elem_of_nil|].
  rewrite Forall_forall in Hp. intros [<-|Hin]%elem_of_cons; simpl; [by rewrite Z.eqb_refl|].
  destruct (Z.eqb_spec p.1 c) as [He|He]; [|by apply IH]. apply Hp in Hin. simpl in Hin. lia.
Qed.
Lemma bt_get_Some {A} c (r : A) m : bt_get c m = Some r -> (c, r) ∈ m.
Proof.
  unfold bt_get. destruct (List.find _ m) as [[c' r']|] eqn:Hf; [|done]. intros [= ->].
  apply find_some in Hf as [Hin He]. simpl in He. apply Z.eqb_eq in He as <-. by apply list_elem_of_In.
Qed.

(** The first of a sorted index, removed. *)
Lemma bt_remove_head {A} c (r : A) m : keys_sorted ((c, r) :: m) -> bt_remove c ((c, r) :: m) = m.
Proof.
  intros Hs. apply StronglySorted_inv in Hs as [Hs Hp]. rewrite Forall_forall in Hp. unfold bt_remove.
  rewrite filter_cons_False by (intros H; by apply H). apply filter_all. intros q Hq. apply Hp in Hq. simpl in Hq. lia.
Qed.
