(* ===== verification/Texts.v ===== *)
(** * Texts

    What the proxy's keys, addresses and cookies are written in: texts with
    separators, and decimals.  A text is read up to its first separator or back
    to its last, and a decimal is read back to its number. *)

From S2P Require Import Prelude.
From stdpp Require Import pretty.
From Stdlib Require Import Ascii.

Open Scope Z_scope.

Fixpoint has_char (a : Ascii.ascii) (s : string) : bool :=
  match s with EmptyString => false | String b s => bool_decide (a = b) || has_char a s end.

(** ** Characters of a text *)

Lemma has_char_app a s t : has_char a (s +:+ t) = has_char a s || has_char a t.
Proof. induction s as [|b s IH]; simpl; [done|]. rewrite IH. by rewrite orb_assoc. Qed.

(** A decimal holds only digits, and perhaps a sign. *)
Lemma pretty_N_char_not c x : (forall d, (d < 10)%N -> c <> pretty_N_char d) -> c <> pretty_N_char x.
Proof.
  intros H. assert (pretty_N_char x = pretty_N_char (if decide (x < 10)%N then x else 9%N)) as ->.
  { destruct (decide (x < 10)%N); [done|]. destruct x as [|p]; [done|]. destruct p as [[[[]|[]|]|[[]|[]|]|]|[[[]|[]|]|[[]|[]|]|]|]; simpl; try done; lia. }
  apply H. destruct (decide (x < 10)%N); lia.
Qed.
Lemma pretty_N_go_no_char c x s :
  (forall d, (d < 10)%N -> c <> pretty_N_char d) -> has_char c s = false -> has_char c (pretty_N_go x s) = false.
Proof.
  intros Hc. revert s. induction (N.lt_wf_0 x) as [x _ IH]; intros s Hs.
  assert (x = 0 ∨ 0 < x)%N as [->|Hx] by lia; [by rewrite pretty_N_go_0|].
  rewrite pretty_N_go_step by done. apply IH; [by apply N.div_lt|]. simpl. rewrite Hs, orb_false_r.
  apply bool_decide_eq_false. by apply pretty_N_char_not.
Qed.
Lemma pretty_no_char c (z : Z) :
  (forall d, (d < 10)%N -> c <> pretty_N_char d) -> c <> "-"%char -> has_char c (pretty z) = false.
Proof.
  intros Hc Hm. assert (forall x : N, has_char c (pretty x) = false) as HN.
  { intros x. unfold pretty, pretty_N. destruct (decide _); [|by apply pretty_N_go_no_char].
    simpl. rewrite orb_false_r. apply bool_decide_eq_false. apply (Hc 0%N). lia. }
  destruct z as [|p|p]; [apply (HN 0%N)|apply (HN (N.pos p))|].
  change (pretty (Z.neg p)) with ("-" +:+ pretty (N.pos p)). rewrite has_char_app, HN, orb_false_r. simpl. by rewrite bool_decide_eq_false_2.
Qed.
Lemma digit_not c : (Ascii.nat_of_ascii c < 48 \/ 57 < Ascii.nat_of_ascii c)%nat -> forall d, (d < 10)%N -> c <> pretty_N_char d.
Proof.
  intros Hc d Hd ->. assert (d = 0 ∨ d = 1 ∨ d = 2 ∨ d = 3 ∨ d = 4 ∨ d = 5 ∨ d = 6 ∨ d = 7 ∨ d = 8 ∨ d = 9)%N as Hds by lia.
  destruct_or!; subst; vm_compute in Hc; lia.
Qed.
Lemma pretty_no_bar (z : Z) : has_char "|"%char (pretty z) = false.
Proof. apply pretty_no_char; [apply digit_not; vm_compute; lia|done]. Qed.
Lemma pretty_no_colon (z : Z) : has_char ":"%char (pretty z) = false.
Proof. apply pretty_no_char; [apply digit_not; vm_compute; lia|done]. Qed.
Lemma pretty_no_bracket (z : Z) : has_char "]"%char (pretty z) = false.
Proof. apply pretty_no_char; [apply digit_not; vm_compute; lia|done]. Qed.

(** A text is read back up to its first separator. *)
Lemma split_first c a b x y :
  has_char c a = false -> has_char c b = false -> a +:+ String c x = b +:+ String c y -> a = b /\ x = y.
Proof.
  revert b. induction a as [|d a IH]; intros [|d' b]; simpl; intros Ha Hb H; injection H.
  - by intros ->.
  - intros _ <-. by rewrite bool_decide_eq_true_2 in Hb.
  - intros _ ->. by rewrite bool_decide_eq_true_2 in Ha.
  - clear H. intros H ->. apply orb_false_iff in Ha as [_ Ha]. apply orb_false_iff in Hb as [_ Hb]. by destruct (IH b Ha Hb H) as [-> ->].
Qed.
(** And, read from the end, back to its last. *)
Lemma split_last c a b x y :
  has_char c x = false -> has_char c y = false -> a +:+ String c x = b +:+ String c y -> a = b /\ x = y.
Proof.
  intros Hx Hy. revert b. induction a as [|d a IH]; intros [|d' b]; simpl; intros H; injection H; clear H.
  - by intros ->.
  - intros -> _. rewrite has_char_app in Hx. simpl in Hx. by rewrite bool_decide_eq_true_2, orb_true_r in Hx.
  - intros <- _. rewrite has_char_app in Hy. simpl in Hy. by rewrite bool_decide_eq_true_2, orb_true_r in Hy.
  - intros H ->. by destruct (IH b H) as [-> ->].
Qed.

Lemma string_app_nil s : (s +:+ "")%string = s.
Proof. induction s as [|a s IH]; [done|]. change (String a (s +:+ "") = String a s). by rewrite IH. Qed.

(** ** Decimals *)

(** A digit, and [str::parse] of an unsigned integer of largest value [max]:
    one leading plus is allowed, at least one digit is needed, and a value above
    [max] is refused. *)
Definition digit_value (a : Ascii.ascii) : option Z :=
  let n := Z.of_N (Ascii.N_of_ascii a) in if (48 <=? n) && (n <=? 57) then Some (n - 48) else None.
Fixpoint read_digits (acc : Z) (s : string) : option Z :=
  match s with
  | EmptyString => Some acc
  | String a s => d ← digit_value a; read_digits (acc * 10 + d) s
  end.
Definition unsigned_part (s : string) : string := match s with String "+" s => s | s => s end.
Definition parse_uint (max : Z) (s : string) : option Z :=
  match unsigned_part s with
  | EmptyString => None
  | s => n ← read_digits 0 s; if n <=? max then Some n else None
  end.

Lemma digit_value_char d : (d < 10)%N -> digit_value (pretty_N_char d) = Some (Z.of_N d).
Proof.
  intros Hd. assert (d = 0 ∨ d = 1 ∨ d = 2 ∨ d = 3 ∨ d = 4 ∨ d = 5 ∨ d = 6 ∨ d = 7 ∨ d = 8 ∨ d = 9)%N as Hds by lia.
  destruct_or!; subst; done.
Qed.
Lemma read_digits_pretty x s : read_digits 0 (pretty_N_go x s) = read_digits (Z.of_N x) s.
Proof.
  revert s. induction (N.lt_wf_0 x) as [x _ IH]; intros s.
  assert (x = 0 ∨ 0 < x)%N as [->|Hx] by lia; [by rewrite pretty_N_go_0|].
  rewrite pretty_N_go_step by done. rewrite IH by (by apply N.div_lt). cbn [read_digits].
  rewrite digit_value_char by (by apply N.mod_lt). cbn. f_equal. pose proof (N.div_mod x 10 ltac:(done)) as Hm. lia.
Qed.
Lemma pretty_N_go_shape x s : (0 < x)%N -> exists a t, pretty_N_go x s = String a t /\ a <> "+"%char.
Proof.
  revert s. induction (N.lt_wf_0 x) as [x _ IH]; intros s Hx. rewrite pretty_N_go_step by done.
  destruct (N.eq_0_gt_0_cases (x `div` 10)%N) as [H0|Hp].
  - rewrite H0, pretty_N_go_0. eexists _, _. split; [done|]. intros H. symmetry in H. revert H. apply digit_not; [vm_compute; lia|by apply N.mod_lt].
  - by apply IH; [apply N.div_lt|].
Qed.
Lemma parse_uint_pretty max z : 0 <= z <= max -> parse_uint max (pretty z) = Some z.
Proof.
  intros Hz. destruct z as [|p|p]; [|..|lia].
  { change (parse_uint max (pretty 0)) with (if 0 <=? max then Some 0 else None). destruct (Z.leb_spec 0 max); [done|lia]. }
  change (pretty (Z.pos p)) with (pretty_N_go (N.pos p) "").
  pose proof (read_digits_pretty (N.pos p) "") as Hr. destruct (pretty_N_go_shape (N.pos p) "") as (a & t & E & Ha); [lia|].
  rewrite E in *. unfold parse_uint. assert (unsigned_part (String a t) = String a t) as ->.
  { destruct a as [[] [] [] [] [] [] [] []]; done. }
  rewrite Hr. cbn. destruct (Z.leb_spec (Z.pos p) max); [done|lia].
Qed.

(** ** Splitting *)

(** [str::split_once] and [str::rsplit_once]. *)
Fixpoint split_once (c : Ascii.ascii) (s : string) : option (string * string) :=
  match s with
  | EmptyString => None
  | String a t => if bool_decide (a = c) then Some (EmptyString, t) else
      match split_once c t with Some (x, y) => Some (String a x, y) | None => None end
  end.
Fixpoint rsplit_once (c : Ascii.ascii) (s : string) : option (string * string) :=
  match s with
  | EmptyString => None
  | String a t =>
      match rsplit_once c t with
      | Some (x, y) => Some (String a x, y)
      | None => if bool_decide (a = c) then Some (EmptyString, t) else None
      end
  end.
Lemma rsplit_once_none c s : has_char c s = false -> rsplit_once c s = None.
Proof.
  induction s as [|a s IH]; simpl; intros H; [done|]. apply orb_false_iff in H as [Ha H]. apply bool_decide_eq_false in Ha.
  rewrite IH by done. by rewrite bool_decide_eq_false_2.
Qed.
Lemma rsplit_once_app c x y : has_char c y = false -> rsplit_once c (x +:+ String c y) = Some (x, y).
Proof.
  intros Hy. induction x as [|a x IH].
  - change (EmptyString +:+ String c y) with (String c y). simpl. rewrite rsplit_once_none by done. by rewrite bool_decide_eq_true_2.
  - change (String a x +:+ String c y) with (String a (x +:+ String c y)). simpl. by rewrite IH.
Qed.
Lemma split_once_app c x y : has_char c x = false -> split_once c (x +:+ String c y) = Some (x, y).
Proof.
  intros Hx. induction x as [|a x IH].
  - change (EmptyString +:+ String c y) with (String c y). simpl. by rewrite bool_decide_eq_true_2.
  - change (String a x +:+ String c y) with (String a (x +:+ String c y)). simpl in *. apply orb_false_iff in Hx as [Ha Hx].
    apply bool_decide_eq_false in Ha. rewrite bool_decide_eq_false_2 by done. by rewrite IH.
Qed.

(** ** The order of texts *)

(** Texts are ordered as their bytes are, which is how [String.compare] orders
    them. *)
Lemma str_compare_refl s : String.compare s s = Eq.
Proof.
  pose proof (String.compare_antisym s s) as H. by destruct (String.compare s s).
Qed.
Lemma str_compare_lt_trans s t u : String.compare s t = Lt -> String.compare t u = Lt -> String.compare s u = Lt.
Proof.
  revert t u. induction s as [|a s IH]; intros [|b t] [|c u]; simpl; try done.
  unfold Ascii.compare. destruct (N.compare_spec (N_of_ascii a) (N_of_ascii b)) as [E|E|E]; intros H1; try done;
    destruct (N.compare_spec (N_of_ascii b) (N_of_ascii c)) as [F|F|F]; intros H2; try done.
  - rewrite E, F, N.compare_refl. eauto.
  - rewrite E. by apply N.compare_lt_iff in F as ->.
  - rewrite <- F. by apply N.compare_lt_iff in E as ->.
  - assert (N_of_ascii a < N_of_ascii c)%N as G by lia. by apply N.compare_lt_iff in G as ->.
Qed.
Definition str_le (s t : string) : Prop := String.leb s t = true.
#[global] Instance str_le_dec s t : Decision (str_le s t).
Proof. unfold str_le. apply _. Defined.
Lemma str_le_cases s t : str_le s t <-> s = t \/ String.compare s t = Lt.
Proof.
  unfold str_le, String.leb. split.
  - destruct (String.compare s t) eqn:E; [|by right|done]. apply String.compare_eq_iff in E. by left.
  - intros [->| ->]; [by rewrite str_compare_refl|done].
Qed.
#[global] Instance str_le_trans : Transitive str_le.
Proof.
  intros s t u. rewrite !str_le_cases. intros [->|H1] [->|H2]; auto. right. by eapply str_compare_lt_trans.
Qed.
#[global] Instance str_le_refl : Reflexive str_le.
Proof. intros s. rewrite str_le_cases. by left. Qed.
Lemma str_le_total s t : str_le s t \/ str_le t s.
Proof.
  unfold str_le, String.leb. rewrite (String.compare_antisym t s). destruct (String.compare s t); simpl; auto.
Qed.
#[global] Instance str_le_antisymm : AntiSymm eq str_le.
Proof.
  intros s t. rewrite !str_le_cases. intros [->|H1] [H|H2]; try done.
  rewrite String.compare_antisym, H2 in H1. done.
Qed.

(** ** Trimming and lists *)

(** [str::trim]: the encodings of the [White_Space] characters are taken off
    both ends. *)
Definition bytes_text (l : list nat) : string := foldr (fun n s => String (Ascii.ascii_of_nat n) s) EmptyString l.
Definition white_space : list string :=
  map bytes_text ([[9]; [10]; [11]; [12]; [13]; [32]; [194; 133]; [194; 160]; [225; 154; 128];
     [226; 128; 168]; [226; 128; 169]; [226; 128; 175]; [226; 129; 159]; [227; 128; 128]] ++
     map (fun n => [226; 128; n]) (seq 128 11))%nat.
Fixpoint strip_prefix (p s : string) : option string :=
  match p, s with
  | EmptyString, _ => Some s
  | String a p, String b s => if bool_decide (a = b) then strip_prefix p s else None
  | _, EmptyString => None
  end.
Fixpoint rev_text (s acc : string) : string := match s with EmptyString => acc | String a s => rev_text s (String a acc) end.
Definition first_some {A B} (f : A -> option B) (l : list A) : option B := foldr (fun a r => match f a with Some b => Some b | None => r end) None l.
Fixpoint strip_all (ws : list string) (fuel : nat) (s : string) : string :=
  match fuel with
  | O => s
  | S fuel => match first_some (fun w => strip_prefix w s) ws with Some t => strip_all ws fuel t | None => s end
  end.
Definition trim_start (s : string) : string := strip_all white_space (String.length s) s.
Definition trim_end (s : string) : string :=
  rev_text (strip_all (map (fun w => rev_text w EmptyString) white_space) (String.length s) (rev_text s EmptyString)) EmptyString.
Definition trim (s : string) : string := trim_end (trim_start s).
(** [str::split] at a character. *)
Fixpoint split_at_char (c : Ascii.ascii) (s : string) : list string :=
  match s with
  | EmptyString => [EmptyString]
  | String a s =>
      if bool_decide (a = c) then EmptyString :: split_at_char c s
      else match split_at_char c s with p :: ps => String a p :: ps | [] => [String a EmptyString] end
  end.
