(* ===== verification/Retransmit.v ===== *)
(** * Retransmission ladders

    [crates/sip-retransmit/src/lib.rs] and [timers.rs]: what a class of SIP
    message waits before each re-send, and the cursor that walks it.  A
    [Duration] is a number of milliseconds, a rung a [u32]. *)

From S2P Require Import Prelude.

Open Scope Z_scope.

(** ** Timers ([timers.rs]) *)

Definition T1 : Z := 500.
Definition T2 : Z := 4000.
Definition TIMER_B : Z := 64 * T1.
Definition TIMER_F : Z := 64 * T1.
Definition TIMER_H : Z := 64 * T1.
Definition T4 : Z := 5000.
Definition TIMER_D : Z := 64 * T1.
Definition TIMER_I : Z := T4.
Definition TIMER_J : Z := 64 * T1.
Definition TIMER_L : Z := 64 * T1.
Definition TIMER_M : Z := 64 * T1.
Definition TXN_SWEEP_INTERVAL : Z := 10000.
Definition TXN_MAX_AGE : Z := 35000.

Definition MAX_DOUBLINGS : Z := 20.

(** [u32] addition. *)
Definition u32_add (a b : Z) : Z := (a + b) mod 2 ^ 32.

(** ** Classes *)

Inductive Class :=
  | InviteClient | NonInviteClient | NonInviteProceeding | CancelClient | InviteServerFinal
  | Final2xx | ReliableProvisional.

#[global] Instance Class_eq_dec : EqDecision Class.
Proof. solve_decision. Defined.

(** [Class::as_str]. *)
Definition class_as_str (c : Class) : string :=
  match c with
  | InviteClient => "invite-client"
  | NonInviteClient => "non-invite-client"
  | NonInviteProceeding => "non-invite-proceeding"
  | CancelClient => "cancel-client"
  | InviteServerFinal => "invite-server-final"
  | Final2xx => "final-2xx"
  | ReliableProvisional => "reliable-provisional"
  end.

(** [cap]. *)
Definition class_cap (c : Class) : option Z :=
  match c with
  | InviteClient | ReliableProvisional => None
  | NonInviteClient | NonInviteProceeding | CancelClient | InviteServerFinal | Final2xx => Some T2
  end.

(** [Class::give_up]. *)
Definition class_give_up (c : Class) : Z :=
  match c with
  | InviteClient => TIMER_B
  | NonInviteClient | NonInviteProceeding => TIMER_F
  | CancelClient | Final2xx | ReliableProvisional => 64 * T1
  | InviteServerFinal => TIMER_H
  end.

(** [Class::interval]. *)
Definition class_interval (c : Class) (n : Z) : Z :=
  match c with
  | NonInviteProceeding => T2
  | _ =>
      let doubled := T1 * Z.min u32_MAX (2 ^ Z.min (Z.max 0 (n - 1)) MAX_DOUBLINGS) in
      match class_cap c with Some cap => Z.min doubled cap | None => doubled end
  end.

(** ** Schedules *)

(** [Pacing]; [Exact] and [Once] exist under the [authored] feature. *)
Inductive Pacing := Rfc (c : Class) | Exact (gaps : list Z) | Once.

(** [give_up] of the source is [give_up_ms] here. *)
Record Schedule := mkSchedule { pacing : Pacing; give_up_ms : Z }.

(** [rfc], [with_give_up], [tightened_to], [exact] and [once]. *)
Definition rfc (c : Class) : Schedule := mkSchedule (Rfc c) (class_give_up c).
Definition with_give_up (g : Z) (s : Schedule) : Schedule := mkSchedule (pacing s) g.
Definition tightened_to (deadline : Z) (s : Schedule) : Schedule :=
  mkSchedule (pacing s) (Z.min (give_up_ms s) deadline).
Definition exact_schedule (intervals : list Z) (g : option Z) : Schedule :=
  mkSchedule (Exact intervals) (default (foldr Z.add 0 intervals) g).
Definition once : Schedule := mkSchedule Once 0.

(** [Schedule::class]. *)
Definition schedule_class (s : Schedule) : option Class :=
  match pacing s with Rfc c => Some c | _ => None end.

(** [Schedule::interval]. *)
Definition interval (n : Z) (s : Schedule) : option Z :=
  if n =? 0 then None
  else match pacing s with
       | Rfc c => Some (class_interval c n)
       | Exact gaps => match gaps !! Z.to_nat (n - 1) with Some g => Some g | None => last gaps end
       | Once => None
       end.

(** [elapsed_at]: the waits up to rung [n]. *)
Definition elapsed_at (n : Z) (s : Schedule) : Z :=
  foldr Z.add 0 (omap (fun k => interval k s) (map Z.of_nat (seq 1 (Z.to_nat n)))).

(** ** Ladders *)

Record Ladder := mkLadder { schedule : Schedule; rung : Z; elapsed : Z }.

(** [armed], [armed_rfc] and [at_rung]. *)
Definition armed (s : Schedule) : option (Ladder * Z) :=
  first ← interval 1 s; Some (mkLadder s 1 first, first).
Definition armed_rfc (c : Class) : Ladder * Z :=
  let first := class_interval c 1 in (mkLadder (rfc c) 1 first, first).
Definition at_rung (s : Schedule) (n : Z) : Ladder := mkLadder s n (elapsed_at n s).

(** [advance]: the wait before the next rung, if there is one. *)
Definition advance (l : Ladder) : option Z * Ladder :=
  match interval (u32_add (rung l) 1) (schedule l) with
  | None => (None, l)
  | Some next =>
      let landing := elapsed l + next in
      if give_up_ms (schedule l) <=? landing then (None, l)
      else (Some next, mkLadder (schedule l) (u32_add (rung l) 1) landing)
  end.

(** [retarget]. *)
Definition retarget (c : Class) (l : Ladder) : Ladder :=
  mkLadder (with_give_up (give_up_ms (schedule l)) (rfc c)) (rung l) (elapsed l).

(** The instants of the re-sends from rung [rung l] on, as the owner's timer
    fires and steps the ladder, for at most [fuel] rungs; and the ladder left. *)
Fixpoint walk (fuel : nat) (l : Ladder) : list Z * Ladder :=
  match fuel with
  | O => ([elapsed l], l)
  | S fuel =>
      match advance l with
      | (None, l) => ([elapsed l], l)
      | (Some _, l') => let '(ts, l'') := walk fuel l' in (elapsed l :: ts, l'')
      end
  end.

(** ** Lemmas *)

Lemma class_interval_pos c n : T1 <= class_interval c n.
Proof.
  assert (1 <= Z.min u32_MAX (2 ^ Z.min (Z.max 0 (n - 1)) MAX_DOUBLINGS)).
  { apply Z.min_glb; [done|]. change 1 with (2 ^ 0) at 1.
    apply Z.pow_le_mono_r; [lia|]. unfold MAX_DOUBLINGS. lia. }
  unfold class_interval. set (x := Z.min u32_MAX _) in *. clearbody x.
  destruct c; unfold class_cap, T1, T2; lia.
Qed.

Lemma foldr_add_app l x : foldr Z.add 0 (l ++ [x]) = foldr Z.add 0 l + x.
Proof. induction l as [|y l IH]; simpl; lia. Qed.

Lemma elapsed_at_S c g n :
  0 <= n -> elapsed_at (n + 1) (mkSchedule (Rfc c) g)
            = elapsed_at n (mkSchedule (Rfc c) g) + class_interval c (n + 1).
Proof.
  intros Hn. unfold elapsed_at. rewrite Z2Nat.inj_add, seq_app, map_app, omap_app by lia.
  assert (map Z.of_nat (seq (1 + Z.to_nat n) (Z.to_nat 1)) = [n + 1]) as ->.
  { change (Z.to_nat 1) with 1%nat. cbn [seq map]. f_equal. lia. }
  assert (omap (fun k => interval k (mkSchedule (Rfc c) g)) [n + 1] = [class_interval c (n + 1)]) as ->.
  { cbn [omap list_omap]. unfold interval. by rewrite (proj2 (Z.eqb_neq (n + 1) 0)) by lia. }
  apply foldr_add_app.
Qed.

Lemma elapsed_at_1 c g : elapsed_at 1 (mkSchedule (Rfc c) g) = class_interval c 1.
Proof. change 1 with (0 + 1) at 1. rewrite elapsed_at_S by done. done. Qed.

Lemma elapsed_at_ge c g n : 0 <= n -> T1 * n <= elapsed_at n (mkSchedule (Rfc c) g).
Proof.
  intros Hn. pattern n. apply natlike_ind; [done| |done].
  intros x Hx IH. change (Z.succ x) with (x + 1). rewrite elapsed_at_S by done.
  pose proof (class_interval_pos c (x + 1)). unfold T1 in *. lia.
Qed.

(** A ladder on its schedule, as a replicated rung rebuilds it. *)
Definition on_schedule (l : Ladder) : Prop :=
  (exists c, pacing (schedule l) = Rfc c) /\ l = at_rung (schedule l) (rung l).

Lemma advance_spec c g n :
  1 <= n -> n + 1 < 2 ^ 32 ->
  let s := mkSchedule (Rfc c) g in
  advance (at_rung s n) =
    if g <=? elapsed_at (n + 1) s then (None, at_rung s n)
    else (Some (class_interval c (n + 1)), at_rung s (n + 1)).
Proof.
  intros Hn Hm s. subst s. unfold advance, at_rung. cbn [rung schedule elapsed give_up_ms].
  assert (u32_add n 1 = n + 1) as -> by (unfold u32_add; by rewrite Z.mod_small by lia).
  unfold interval. rewrite (proj2 (Z.eqb_neq (n + 1) 0)) by lia. cbn [pacing].
  rewrite <- elapsed_at_S by lia. by destruct (g <=? _).
Qed.

Lemma walk_spec c g fuel n :
  let s := mkSchedule (Rfc c) g in
  1 <= n -> n + Z.of_nat fuel < 2 ^ 32 -> g <= T1 * (n + Z.of_nat fuel) ->
  exists k, walk fuel (at_rung s n)
    = (map (fun j => elapsed_at (n + Z.of_nat j) s) (seq 0 (S k)), at_rung s (n + Z.of_nat k))
    /\ (forall j, (0 < j <= k)%nat -> elapsed_at (n + Z.of_nat j) s < g)
    /\ g <= elapsed_at (n + Z.of_nat k + 1) s.
Proof.
  intros s. revert n. induction fuel as [|fuel IH]; intros n Hn Hm Hg.
  - exists O. simpl. rewrite Z.add_0_r. split; [done|]. split; [lia|].
    pose proof (elapsed_at_ge c g (n + 1)). fold s in H. unfold T1 in *. lia.
  - cbn [walk]. unfold s at 1. rewrite advance_spec by lia. fold s.
    destruct (Z.leb_spec g (elapsed_at (n + 1) s)) as [Hge|Hlt].
    + exists O. simpl. rewrite Z.add_0_r. split; [done|]. split; [lia|done].
    + destruct (IH (n + 1)) as (k & Hw & Hlow & Hend); [lia..|]. rewrite Hw.
      exists (S k). split_and!.
      * cbn [elapsed at_rung]. f_equal; [|f_equal; lia].
        change (seq 0 (S (S k))) with (0%nat :: seq 1 (S k)). cbn [map].
        change (Z.of_nat 0) with 0. rewrite Z.add_0_r. f_equal.
        rewrite <- (seq_shift (S k) 0), map_map. apply map_ext. intros j. f_equal. lia.
      * intros j Hj. destruct j as [|[|j]]; [lia|by replace (n + Z.of_nat 1) with (n + 1) by lia|].
        replace (n + Z.of_nat (S (S j))) with (n + 1 + Z.of_nat (S j)) by lia. apply Hlow. lia.
      * by replace (n + Z.of_nat (S k) + 1) with (n + 1 + Z.of_nat k + 1) by lia.
Qed.

Lemma elapsed_at_lt c g n m :
  0 <= n < m -> elapsed_at n (mkSchedule (Rfc c) g) < elapsed_at m (mkSchedule (Rfc c) g).
Proof.
  intros [Hn Hm]. replace m with (n + 1 + Z.of_nat (Z.to_nat (m - n - 1))) by lia.
  induction (Z.to_nat (m - n - 1)) as [|d IH].
  - rewrite Z.add_0_r, elapsed_at_S by done. pose proof (class_interval_pos c (n + 1)).
    unfold T1 in *. lia.
  - replace (n + 1 + Z.of_nat (S d)) with ((n + 1 + Z.of_nat d) + 1) by lia.
    rewrite elapsed_at_S by lia. pose proof (class_interval_pos c (n + 1 + Z.of_nat d + 1)).
    unfold T1 in *. lia.
Qed.

Lemma sorted_elapsed c g a k :
  (0 < a)%nat ->
  StronglySorted Z.lt (map (fun j => elapsed_at (Z.of_nat j) (mkSchedule (Rfc c) g)) (seq a k)).
Proof.
  revert a. induction k as [|k IH]; intros a Ha; simpl; constructor; [by apply IH; lia|].
  apply Forall_forall. intros x (j & -> & Hj)%list_elem_of_fmap. apply elem_of_seq in Hj.
  apply elapsed_at_lt. lia.
Qed.

(** C36: a ladder sends at exactly the instants its class prescribes below its
    bound, and ends.  Armed on any class with any bound and stepped at each
    firing, it re-sends at the first rung and at every later rung that falls
    before the bound, in order and skipping none; after at most one step per
    T1 of the bound it steps no further; and at each rung it is the ladder its
    rung alone rebuilds. *)
Theorem ladder_walk c g :
  0 <= g -> g / T1 + 1 < 2 ^ 32 ->
  let s := with_give_up g (rfc c) in
  exists k, armed s = Some (at_rung s 1, class_interval c 1)
    /\ walk (Z.to_nat (g / T1)) (at_rung s 1)
       = (map (fun j => elapsed_at (Z.of_nat j) s) (seq 1 (S k)), at_rung s (Z.of_nat (S k)))
    /\ StronglySorted Z.lt (map (fun j => elapsed_at (Z.of_nat j) s) (seq 1 (S k)))
    /\ (forall j, (2 <= j <= S k)%nat -> elapsed_at (Z.of_nat j) s < g)
    /\ g <= elapsed_at (Z.of_nat (S (S k))) s
    /\ advance (at_rung s (Z.of_nat (S k))) = (None, at_rung s (Z.of_nat (S k))).
Proof.
  intros Hg Hb s. assert (0 <= g / T1) as Hq by (by apply Z.div_pos).
  assert (s = mkSchedule (Rfc c) g) as Hs by done.
  destruct (walk_spec c g (Z.to_nat (g / T1)) 1) as (k & Hw & Hlow & Hend); [lia|lia| |].
  { rewrite Z2Nat.id by done. pose proof (Z.mul_succ_div_gt g T1 ltac:(done)). lia. }
  exists k. rewrite Hs. split_and!.
  - unfold armed, at_rung. simpl. by rewrite elapsed_at_1.
  - rewrite Hw. f_equal; [|f_equal; lia]. rewrite <- (seq_shift (S k) 0), map_map.
    apply map_ext. intros j. f_equal. lia.
  - by apply sorted_elapsed; lia.
  - intros j Hj. replace (Z.of_nat j) with (1 + Z.of_nat (pred j)) by lia. apply Hlow. lia.
  - by replace (Z.of_nat (S (S k))) with (1 + Z.of_nat k + 1) by lia.
  - assert (Z.of_nat (S k) <= Z.max 1 (g / T1)) as Hk.
    { destruct k as [|k]; [lia|]. apply Z.max_le_iff. right. specialize (Hlow (S k) ltac:(lia)).
      pose proof (elapsed_at_ge c g (1 + Z.of_nat (S k))).
      apply Z.div_le_lower_bound; [done|]. unfold T1 in *. lia. }
    rewrite advance_spec by lia.
    replace (Z.of_nat (S k) + 1) with (1 + Z.of_nat k + 1) by lia.
    by rewrite (proj2 (Z.leb_le _ _) Hend).
Qed.

(** Timer A under Timer B: RFC 3261's six re-sends of an unanswered INVITE. *)
Lemma ladder_walk_witness :
  (walk 64 (at_rung (rfc InviteClient) 1)).1 = [500; 1500; 3500; 7500; 15500; 31500]
  /\ StronglySorted Z.lt (walk 64 (at_rung (rfc InviteClient) 1)).1.
Proof.
  destruct (ladder_walk InviteClient TIMER_B) as (k & _ & Hw & Hs & _);
    [vm_compute; discriminate|vm_compute; reflexivity|].
  change (Z.to_nat (TIMER_B / T1)) with 64%nat in Hw.
  change (with_give_up TIMER_B (rfc InviteClient)) with (rfc InviteClient) in *.
  split; [vm_compute; reflexivity|]. rewrite Hw. exact Hs.
Defined.

(** Timer E under Timer F: T1 doubling to T2, then flat. *)
Example non_invite_instants :
  (walk 64 (at_rung (rfc NonInviteClient) 1)).1
  = [500; 1500; 3500; 7500; 11500; 15500; 19500; 23500; 27500; 31500].
Proof. vm_compute. done. Qed.
