(* ===== verification/SipClock.v ===== *)
(** * Deadlines

    [crates/sip-clock/src/deadline.rs] and [delay_queue.rs]: a deadline is held
    at most one year out and at most at the last instant the platform
    represents, and so is an entry of the timer wheel.  Instants and durations
    are counted in one unit; the queue counts milliseconds. *)

From S2P Require Import Prelude.

Open Scope Z_scope.

(** [MAX_DELAY], a year of milliseconds. *)
Definition MAX_DELAY : Z := 365 * 24 * 3600 * 1000.

Section deadline.
(** The last instant the platform represents. *)
Context (instant_max : Z).

Definition checked_add_instant (at_ step : Z) : option Z :=
  if at_ + step <=? instant_max then Some (at_ + step) else None.

(** The loop of [after]: a step that does not fit is halved, one that fits is
    taken. *)
Fixpoint after_loop (fuel : nat) (at_ left step : Z) : Z :=
  match fuel with
  | O => at_
  | S fuel =>
      if (left =? 0) || (step =? 0) then at_
      else match checked_add_instant at_ step with
           | Some next => let left := Z.max 0 (left - step) in after_loop fuel next left (Z.min step left)
           | None => after_loop fuel at_ left (step / 2)
           end
  end.

(** The turns the loop may take: a few at each halving. *)
Definition after_fuel (left : Z) : nat := Z.to_nat (5 * (Z.log2 left + 2)).

(** [after]. *)
Definition after (from delay : Z) : Z :=
  let left := Z.min delay MAX_DELAY in after_loop (after_fuel left) from left left.

(** [delay_queue::insert]: when an entry inserted at [now] is due; and
    [insert_at]. *)
Definition due_after (now delay : Z) : Z := now + Z.min delay MAX_DELAY.
Definition due_at (now deadline : Z) : Z := due_after now (Z.max 0 (deadline - now)).

(** ** The loop *)

(** Steps that still fit before the next halving: none once the room is below
    the step. *)
Definition fits (room step : Z) : Z := if room <? step then 0 else if room <? 2 * step then 1 else 2.

(** Turns left, at most. *)
Definition turns (room left step : Z) : Z :=
  5 * Z.log2 step + (if step <? left then 2 else 0) + fits room step + 1.

Lemma fits_range room step : 0 <= fits room step <= 2.
Proof. unfold fits. zcase; lia. Qed.

Lemma log2_half s : 2 <= s -> Z.log2 (s / 2) = Z.log2 s - 1.
Proof.
  intros Hs. pose proof (Z.log2_spec s ltac:(lia)) as [H1 H2].
  assert (0 < Z.log2 s) by (apply Z.log2_pos; lia).
  apply Z.log2_unique; [lia|]. replace (Z.succ (Z.log2 s - 1)) with (Z.log2 s) by lia.
  replace (Z.log2 s) with (Z.succ (Z.log2 s - 1)) in H1, H2 by lia. rewrite Z.pow_succ_r in H1, H2 by lia.
  replace (Z.succ (Z.log2 s - 1)) with (Z.log2 s) in H2 by lia.
  split; [apply Z.div_le_lower_bound; lia|apply Z.div_lt_upper_bound; lia].
Qed.

(** Past the first halving, the room is at most two steps. *)
Lemma after_loop_spec fuel at_ left step :
  0 <= step <= left -> at_ <= instant_max ->
  (step = left \/ instant_max - at_ <= 2 * step) ->
  (step = 0 \/ turns (instant_max - at_) left step < Z.of_nat fuel) ->
  (step = 0 -> left = 0 \/ at_ = instant_max) ->
  after_loop fuel at_ left step = Z.min instant_max (at_ + left).
Proof.
  revert at_ left step. induction fuel as [|fuel IH]; intros at_ left step Hs Ha Hr Hf Hz.
  - destruct Hf as [->|Hf]; [simpl; destruct (Hz eq_refl); lia|]. unfold turns in Hf.
    pose proof (Z.log2_nonneg step). pose proof (fits_range (instant_max - at_) step). destruct (_ <? _); lia.
  - cbn [after_loop]. destruct (Z.eqb_spec left 0) as [->|Hl]; [cbn; lia|].
    destruct (Z.eqb_spec step 0) as [->|Hs0]; [cbn; destruct (Hz eq_refl); lia|].
    destruct Hf as [?|Hf]; [lia|]. cbn [orb]. unfold checked_add_instant. unfold turns in Hf.
    pose proof (Z.div_mod step 2 ltac:(lia)). pose proof (Z.mod_pos_bound step 2 ltac:(lia)).
    destruct (Z.leb_spec (at_ + step) instant_max) as [Hfit|Hfit].
    + rewrite Z.max_r by lia. rewrite IH; [lia|lia|lia|lia| |lia].
      destruct (Z.eq_dec (left - step) 0); [left; lia|right]. unfold turns.
      assert (Z.log2 (Z.min step (left - step)) <= Z.log2 step) by (apply Z.log2_le_mono; lia).
      revert Hf. unfold fits. zcase; lia.
    + rewrite IH; [lia|lia|lia|lia| |lia].
      destruct (Z.eq_dec step 1) as [->|]; [by left|right]. unfold turns. rewrite log2_half by lia.
      pose proof (fits_range (instant_max - at_) (step / 2)). revert Hf. unfold fits at 1. zcase; lia.
Qed.

Lemma after_exact from delay :
  0 <= delay -> from <= instant_max ->
  after from delay = Z.min instant_max (from + Z.min delay MAX_DELAY).
Proof.
  intros Hd Hf. unfold after. assert (0 <= Z.min delay MAX_DELAY) by (unfold MAX_DELAY; lia).
  apply after_loop_spec; [lia|lia|lia| |lia].
  destruct (Z.eq_dec (Z.min delay MAX_DELAY) 0) as [->|]; [by left|right]. unfold after_fuel.
  pose proof (Z.log2_nonneg (Z.min delay MAX_DELAY)). rewrite Z2Nat.id by lia.
  unfold turns. rewrite Z.ltb_irrefl. pose proof (fits_range (instant_max - from) (Z.min delay MAX_DELAY)). lia.
Qed.

(** Wherever it starts, a deadline is at or after its instant and no later
    than its delay. *)
Lemma after_loop_range fuel at_ left step :
  0 <= step <= left -> at_ <= after_loop fuel at_ left step <= at_ + left.
Proof.
  revert at_ left step. induction fuel as [|fuel IH]; intros at_ left step Hs; cbn [after_loop]; [lia|].
  destruct (_ || _); [lia|]. unfold checked_add_instant. destruct (_ <=? _).
  - specialize (IH (at_ + step) (Z.max 0 (left - step)) (Z.min step (Z.max 0 (left - step)))). lia.
  - pose proof (Z.div_mod step 2 ltac:(lia)). pose proof (Z.mod_pos_bound step 2 ltac:(lia)). apply IH. lia.
Qed.

Lemma after_range from delay : 0 <= delay -> from <= after from delay <= from + Z.min delay MAX_DELAY.
Proof. intros Hd. apply after_loop_range. unfold MAX_DELAY. lia. Qed.

End deadline.
