(* ===== verification/Rendezvous.v ===== *)
(** * Rendezvous hashing

    [crates/sip-proxy/src/strategies/rendezvous.rs]: the worker a routing key
    lands on, and the order the others stand in behind it.  SHA-1 is a
    parameter of the model: a digest is a list of bytes. *)

From S2P Require Import Prelude.

Open Scope Z_scope.

(** [RendezvousCandidate]. *)
Record Candidate := mkCandidate { cd_id : string; cd_weight : option Z }.

Section rendezvous.
Variable sha1 : list Z -> list Z.

(** The bytes of a string. *)
Definition bytes_of (s : string) : list Z :=
  map (fun a => Z.of_N (Ascii.N_of_ascii a)) (String.list_ascii_of_string s).

(** [score64]: the first eight bytes of the digest, as a [u64]. *)
Definition score64 (key id : string) : Z :=
  let digest := sha1 (bytes_of key ++ [58] ++ bytes_of id) in
  foldl (fun acc b => Z.lor (u64_wrap (Z.shiftl acc 8)) b) 0 (take 8 digest).

(** [weighted_score], a [u128]. *)
Definition weighted_score (key : string) (c : Candidate) : Z :=
  let w := Z.max (default 1 (cd_weight c)) 1 in
  (score64 key (cd_id c) * w) mod 2 ^ 128.

(** [rendezvous_select]: the loop's [best] and [best_score]. *)
Definition rendezvous_select (key : string) (candidates : list Candidate) : option Candidate :=
  (foldl (fun '(best, best_score) c =>
            let s := weighted_score key c in
            if negb (bool_decide (is_Some best)) || (best_score <? s) then (Some c, s)
            else (best, best_score))
     (None, 0) candidates).1.

(** [rendezvous_rank]: a stable sort by descending score. *)
Fixpoint rank_insert (key : string) (c : Candidate) (l : list Candidate) : list Candidate :=
  match l with
  | [] => [c]
  | d :: l' => if weighted_score key d <=? weighted_score key c then c :: l
               else d :: rank_insert key c l'
  end.
Definition rendezvous_rank (key : string) (candidates : list Candidate) : list Candidate :=
  foldr (rank_insert key) [] candidates.

(** ** Lemmas *)

Lemma rank_insert_perm key c l : rank_insert key c l ≡ₚ c :: l.
Proof.
  induction l as [|d l IH]; simpl; [done|]. destruct (_ <=? _); [done|].
  rewrite IH. apply Permutation_swap.
Qed.

Lemma rank_perm key cs : rendezvous_rank key cs ≡ₚ cs.
Proof. induction cs as [|c cs IH]; simpl; [done|]. by rewrite rank_insert_perm, IH. Qed.

(** Higher scores stand first. *)
Definition ranked (key : string) (l : list Candidate) : Prop :=
  StronglySorted (fun c d => weighted_score key d <= weighted_score key c) l.

Lemma rank_insert_ranked key c l : ranked key l -> ranked key (rank_insert key c l).
Proof.
  induction 1 as [|d l Hl IH Hd]; simpl; [repeat constructor|].
  destruct (Z.leb_spec (weighted_score key d) (weighted_score key c)) as [Hle|Hlt].
  - constructor; [by constructor|]. constructor; [done|].
    apply Forall_forall. intros x Hx. eapply Forall_forall in Hx; [|exact Hd]. simpl in Hx. lia.
  - constructor; [done|]. apply Forall_forall. intros x Hx.
    rewrite rank_insert_perm in Hx. apply elem_of_cons in Hx as [->|Hx]; [lia|].
    eapply Forall_forall in Hx; [|exact Hd]. done.
Qed.

Lemma rank_ranked key cs : ranked key (rendezvous_rank key cs).
Proof. induction cs as [|c cs IH]; [constructor|]. by apply rank_insert_ranked. Qed.

(** Inserting a candidate above every one left puts it first. *)
Lemma rank_insert_first key c l :
  Forall (fun d => weighted_score key d <= weighted_score key c) l -> rank_insert key c l = c :: l.
Proof.
  destruct l as [|d l]; [done|]. intros [Hd _]%Forall_cons. simpl. by rewrite (proj2 (Z.leb_le _ _) Hd).
Qed.

Lemma rank_insert_filter key P `{!forall c, Decision (P c)} c l :
  ranked key l ->
  filter P (rank_insert key c l) = if decide (P c) then rank_insert key c (filter P l) else filter P l.
Proof.
  induction 1 as [|d l Hl IH Hd]; simpl; [by rewrite filter_cons, filter_nil|].
  destruct (Z.leb_spec (weighted_score key d) (weighted_score key c)) as [Hle|Hlt].
  - rewrite filter_cons. destruct (decide (P c)); [|done]. rewrite rank_insert_first; [done|].
    apply Forall_forall. intros x [_ [->|Hx]%elem_of_cons]%list_elem_of_filter; [done|].
    eapply Forall_forall in Hx; [|done]. simpl in Hx. lia.
  - rewrite !filter_cons, IH. destruct (decide (P d)), (decide (P c)); [|done..].
    simpl. by rewrite (proj2 (Z.leb_gt _ _) Hlt).
Qed.

(** The ranking of a part is the part of the ranking. *)
Lemma rank_filter key P `{!forall c, Decision (P c)} cs :
  rendezvous_rank key (filter P cs) = filter P (rendezvous_rank key cs).
Proof.
  induction cs as [|c cs IH]; [done|]. simpl. rewrite rank_insert_filter by apply rank_ranked.
  rewrite filter_cons, <- IH. by destruct (decide (P c)).
Qed.

Lemma head_rank_insert key c l :
  head (rank_insert key c l) =
    match head l with
    | Some d => if weighted_score key d <=? weighted_score key c then Some c else Some d
    | None => Some c
    end.
Proof. destruct l as [|d l]; [done|]. simpl. by destruct (_ <=? _). Qed.

(** The loop keeps the first of the highest scores. *)
Lemma select_loop key b cs :
  (foldl (fun '(best, best_score) c =>
            let s := weighted_score key c in
            if negb (bool_decide (is_Some best)) || (best_score <? s) then (Some c, s)
            else (best, best_score))
     (Some b, weighted_score key b) cs).1 = head (rendezvous_rank key (b :: cs)).
Proof.
  revert b. induction cs as [|c cs IH]; intros b; [done|]. cbn [foldl].
  rewrite (bool_decide_eq_true_2 (is_Some (Some b))) by done. cbn [negb orb].
  change (rendezvous_rank key (b :: c :: cs)) with (rank_insert key b (rendezvous_rank key (c :: cs))).
  rewrite head_rank_insert.
  destruct (Z.ltb_spec (weighted_score key b) (weighted_score key c)) as [Hlt|Hle]; rewrite IH;
    change (rendezvous_rank key (?x :: cs)) with (rank_insert key x (rendezvous_rank key cs));
    rewrite !head_rank_insert; destruct (head (rendezvous_rank key cs)) as [d|]; zcase; try done; lia.
Qed.

Lemma select_head key cs : rendezvous_select key cs = head (rendezvous_rank key cs).
Proof. destruct cs as [|c cs]; [done|]. unfold rendezvous_select. simpl. apply (select_loop key c cs). Qed.

(** Losing workers moves only their keys.  The ranking holds every
    candidate once, by descending score; the winner among any part of the
    candidates is the first of the whole ranking that is in that part: a key
    whose worker stays keeps it, whoever leaves, and a key whose workers left
    goes to the next in its ranking. *)
Theorem rendezvous_consistent key cs (P : Candidate -> Prop) `{!forall c, Decision (P c)} :
  rendezvous_rank key cs ≡ₚ cs
  /\ ranked key (rendezvous_rank key cs)
  /\ rendezvous_select key (filter P cs) = head (filter P (rendezvous_rank key cs)).
Proof.
  split; [apply rank_perm|]. split; [apply rank_ranked|]. by rewrite select_head, rank_filter.
Qed.

End rendezvous.
