(* ===== verification/EventGate.v ===== *)
(** * The event-queue gate

    [crates/b2bua/src/overload/event_queue_gate.rs]: whether a worker whose
    transaction event queue is backed up refuses new calls.  A reading is the
    depth and the delay of the queue at an instant; instants and durations are
    counted in nanoseconds. *)

From S2P Require Import Prelude.

Open Scope Z_scope.

(** ** Instants and durations *)

Definition NANOS_PER_MS : Z := 1000000.
Definition from_millis (ms : Z) : Z := ms * NANOS_PER_MS.

(** [Duration::MAX]; the earliest [Instant], whose seconds are an [i64]. *)
Definition DURATION_MAX : Z := u64_MAX * 1000000000 + 999999999.
Definition INSTANT_MIN : Z := i64_MIN * 1000000000.

Definition checked_sub_instant (now d : Z) : option Z :=
  if INSTANT_MIN <=? now - d then Some (now - d) else None.
Definition saturating_duration_since (now since : Z) : Z := Z.max 0 (now - since).

(** ** The gate's state *)

Record EventQueueGateConfig := mkBounds {
  refuse_depth : Z;
  accept_depth : Z;
  refuse_delay_ms : Z;
  refuse_interval_ms : Z;
  accept_delay_ms : Z;
  accept_hold_ms : Z;
}.

Record GateState := mkGateState {
  refusing : bool;
  delayed_since : option Z;
  last_hot : option Z;
}.

Inductive Transition := Refuse | Accept.

(** [GateState::observe]. *)
Definition observe (bounds : EventQueueGateConfig) (depth delay now : Z) (s : GateState)
    : option Transition * GateState :=
  let refuse_delay := from_millis (refuse_delay_ms bounds) in
  let ds :=
    if refuse_delay <=? delay then
      let since := default now (checked_sub_instant now (delay - refuse_delay)) in
      Some (match delayed_since s with Some earlier => Z.min earlier since | None => since end)
    else None in
  let persisted :=
    match ds with
    | Some since => from_millis (refuse_interval_ms bounds) <=? saturating_duration_since now since
    | None => false
    end in
  if (refuse_depth bounds <=? depth) || persisted then
    (if refusing s then None else Some Refuse, mkGateState true ds (Some now))
  else if negb (refusing s) then (None, mkGateState (refusing s) ds (last_hot s))
  else if (accept_depth bounds <? depth) || (from_millis (accept_delay_ms bounds) <? delay) then
    (None, mkGateState (refusing s) ds (Some now))
  else
    let calm_for :=
      match last_hot s with Some at_ => saturating_duration_since now at_ | None => DURATION_MAX end in
    if from_millis (accept_hold_ms bounds) <=? calm_for then
      (Some Accept, mkGateState false ds (last_hot s))
    else (None, mkGateState (refusing s) ds (last_hot s)).

(** [Stored]: the state in atomics, an instant as the nanoseconds past [base]
    plus one. *)
Record Stored := mkStored {
  base : Z;
  st_refusing : bool;
  st_delayed_since : Z;
  st_last_hot : Z;
}.

(** [Stored::instant] and [Stored::encoded]. *)
Definition instant (base encoded : Z) : option Z :=
  if 1 <=? encoded then Some (base + (encoded - 1)) else None.
Definition encoded (base : Z) (at_ : option Z) : Z :=
  match at_ with
  | None => 0
  | Some a =>
      let ns := saturating_duration_since a base in
      u64_add (if ns <=? u64_MAX then ns else u64_MAX - 1) 1
  end.

(** [Stored::load] and [Stored::store]. *)
Definition load (st : Stored) : GateState :=
  mkGateState (st_refusing st) (instant (base st) (st_delayed_since st)) (instant (base st) (st_last_hot st)).
Definition store (s : GateState) (st : Stored) : Stored :=
  mkStored (base st) (refusing s) (encoded (base st) (delayed_since s)) (encoded (base st) (last_hot s)).

(** [Inner]; the queue it reads is what each reading is given. *)
Record EventQueueGate := mkGate {
  g_bounds : EventQueueGateConfig;
  g_state : Stored;
  refusals : Z;
}.

(** [EventQueueGate::new], at [now]; [switch] is the shared flag as it reads. *)
Definition gate_new (bounds : EventQueueGateConfig) (switch : bool) (now : Z) : EventQueueGate :=
  mkGate bounds (mkStored now switch 0 0) 0.

(** [line]: the counter it moves. *)
Definition gate_line (t : option Transition) (n : Z) : Z :=
  match t with Some Refuse => u64_add n 1 | _ => n end.

(** [EventQueueGate::read], of a queue of [depth] and [delay] at [now]. *)
Definition gate_read (depth delay now : Z) (g : EventQueueGate) : bool * EventQueueGate :=
  let '(t, s) := observe (g_bounds g) depth delay now (load (g_state g)) in
  (refusing s, mkGate (g_bounds g) (store s (g_state g)) (gate_line t (refusals g))).

(** [refusing_now]. *)
Definition refusing_now (g : EventQueueGate) : bool := st_refusing (g_state g).

(** ** What the gate promises

    A reading of the queue, and a history of readings, the newest first. *)

Record Reading := mkReading { rd_depth : Z; rd_delay : Z; rd_now : Z }.

Section gate.
Context (bounds : EventQueueGateConfig) (base0 : Z).

(** The gate after a history. *)
Definition gate_after (h : list Reading) : EventQueueGate :=
  foldr (fun r g => (gate_read (rd_depth r) (rd_delay r) (rd_now r) g).2) (gate_new bounds false base0) h.

Definition delayed (r : Reading) : Prop := from_millis (refuse_delay_ms bounds) <= rd_delay r.
(** Since when the oldest event has waited past the refusal delay. *)
Definition past_delay_at (r : Reading) : Z :=
  rd_now r - (rd_delay r - from_millis (refuse_delay_ms bounds)).
(** Above an accept bound. *)
Definition hot (r : Reading) : Prop :=
  accept_depth bounds < rd_depth r \/ from_millis (accept_delay_ms bounds) < rd_delay r.

(** [j] readings back the delay was past its bound, and at every one since. *)
Definition delayed_back (h : list Reading) (j : nat) (r : Reading) : Prop :=
  h !! j = Some r /\ Forall delayed (take (S j) h).

(** The newest reading trips the gate: on the depth at once, on the delay once
    it has persisted for the interval. *)
Definition trips (h : list Reading) : Prop :=
  exists r, head h = Some r
    /\ (refuse_depth bounds <= rd_depth r
        \/ exists j r', delayed_back h j r'
             /\ from_millis (refuse_interval_ms bounds) <= rd_now r - past_delay_at r').

(** The newest reading is not a calm one. *)
Definition loud (h : list Reading) : Prop := trips h \/ exists r, head h = Some r /\ hot r.

(** The gate refuses: it trips now; or it refused, and is above an accept bound
    now or was loud within the hold. *)
Fixpoint refuses (h : list Reading) : Prop :=
  match h with
  | [] => False
  | r :: h' =>
      trips h
      \/ (refuses h'
          /\ (hot r \/ exists j r', h' !! j = Some r' /\ loud (drop j h')
                         /\ rd_now r - rd_now r' < from_millis (accept_hold_ms bounds)))
  end.

(** The times the gate turned to refusing. *)
Fixpoint rises (h : list Reading) : Z :=
  match h with
  | [] => 0
  | _ :: h' => rises h' + if negb (refusing_now (gate_after h')) && refusing_now (gate_after h) then 1 else 0
  end.

(** Readings of a monotone clock, of events queued since the gate was built,
    less than the width of the stored instants after it. *)
Definition reading_ok (r : Reading) : Prop :=
  0 <= rd_delay r /\ base0 <= rd_now r - rd_delay r /\ rd_now r - base0 < u64_MAX.
Definition history_ok (h : list Reading) : Prop :=
  Forall reading_ok h /\ StronglySorted (fun r r' => rd_now r' <= rd_now r) h.

(** ** Lemmas *)

Lemma instant_encoded a : base0 <= a -> a - base0 < u64_MAX -> instant base0 (encoded base0 (Some a)) = Some a.
Proof.
  intros Hb Hw. unfold encoded, saturating_duration_since, instant, u64_add, u64_wrap, u64_MAX in *.
  rewrite Z.max_r, (proj2 (Z.leb_le (a - base0) _)) by lia.
  rewrite Z.mod_small, (proj2 (Z.leb_le 1 _)) by lia. f_equal. lia.
Qed.

Lemma delayed_back_0 r h j r' :
  delayed_back (r :: h) j r' <->
  delayed r /\ match j with O => r' = r | S j' => delayed_back h j' r' end.
Proof.
  unfold delayed_back. destruct j as [|j]; simpl.
  - rewrite Forall_cons, take_0. split; [intros [[=] [??]]; done|]. intros [? ->]. by repeat constructor.
  - rewrite Forall_cons. naive_solver.
Qed.

(** [since] is the earliest instant of the delayed readings that end [h]. *)
Definition since_of (h : list Reading) (since : option Z) : Prop :=
  match since with
  | Some t => (exists j r, delayed_back h j r /\ past_delay_at r = t)
              /\ forall j r, delayed_back h j r -> t <= past_delay_at r
  | None => forall j r, ~ delayed_back h j r
  end.

Lemma since_of_cons r h o :
  since_of h o ->
  since_of (r :: h)
    (if from_millis (refuse_delay_ms bounds) <=? rd_delay r then
       Some (match o with Some e => Z.min e (past_delay_at r) | None => past_delay_at r end)
     else None).
Proof.
  intros Ho. destruct (Z.leb_spec (from_millis (refuse_delay_ms bounds)) (rd_delay r)) as [Hd|Hd]; simpl.
  2: { intros j r' [Hd' _]%delayed_back_0. unfold delayed in Hd'. lia. }
  assert (H0 : delayed_back (r :: h) 0 r) by (apply delayed_back_0; done).
  destruct o as [e|]; simpl in Ho.
  - destruct Ho as [(j & r' & Hj & He) Hmin]. split.
    + destruct (Z.le_gt_cases e (past_delay_at r)).
      * exists (S j), r'. rewrite delayed_back_0. split; [done|]. lia.
      * exists O, r. split; [done|]. lia.
    + intros [|i] x [_ Hx]%delayed_back_0; [subst; lia|]. apply Hmin in Hx. lia.
  - split; [by exists O, r|]. intros [|i] x [_ Hx]%delayed_back_0; [subst; lia|]. by destruct (Ho i x).
Qed.

Lemma trips_since r h o :
  since_of (r :: h) o ->
  trips (r :: h) <->
    refuse_depth bounds <= rd_depth r
    \/ exists t, o = Some t /\ from_millis (refuse_interval_ms bounds) <= rd_now r - t.
Proof.
  intros Ho. unfold trips. split.
  - intros (x & [= <-] & [Hd|(j & r' & Hj & Hi)]); [by left|right].
    destruct o as [t|]; [|by destruct (Ho j r')]. destruct Ho as [_ Hmin]. apply Hmin in Hj. exists t. split; [done|lia].
  - intros Ht. exists r. split; [done|]. destruct Ht as [Hd|(t & -> & Hi)]; [by left|right].
    destruct Ho as [(j & r' & Hj & <-) _]. by exists j, r'.
Qed.

(** The hot mark: the latest loud reading. *)
Definition hot_of (h : list Reading) (t : Z) : Prop :=
  (exists j r, h !! j = Some r /\ loud (drop j h) /\ rd_now r = t)
  /\ forall j r, h !! j = Some r -> loud (drop j h) -> rd_now r <= t.

Record state_inv (h : list Reading) (s : GateState) : Prop := {
  si_refusing : refusing s = true <-> refuses h;
  si_since : since_of h (delayed_since s);
  si_hot : refuses h -> exists t, last_hot s = Some t /\ hot_of h t;
  si_range : forall t, last_hot s = Some t -> base0 <= t /\ t - base0 < u64_MAX;
}.

Lemma history_cons r h : history_ok (r :: h) -> history_ok h /\ reading_ok r /\ Forall (fun r' => rd_now r' <= rd_now r) h.
Proof. intros [[Hr Hh]%Forall_cons [Hs Hl]%StronglySorted_inv]. done. Qed.

Lemma hot_of_now r h : history_ok (r :: h) -> loud (r :: h) -> hot_of (r :: h) (rd_now r).
Proof.
  intros (_ & _ & Hl)%history_cons Hloud. split; [by exists O, r|].
  intros [|j] x Hx _; simpl in Hx; [simplify_eq; lia|]. exact (Forall_lookup_1 _ _ _ _ Hl Hx).
Qed.

Lemma hot_of_skip r h t : ~ loud (r :: h) -> hot_of h t -> hot_of (r :: h) t.
Proof.
  intros Hn [(j & x & Hx & Hloud & Ht) Hmax]. split; [by exists (S j), x|].
  intros [|i] y Hy Hl; [done|]. by apply (Hmax i).
Qed.

Lemma hold_hot r h t :
  hot_of h t ->
  (exists j r', h !! j = Some r' /\ loud (drop j h) /\ rd_now r - rd_now r' < from_millis (accept_hold_ms bounds))
  <-> rd_now r - t < from_millis (accept_hold_ms bounds).
Proof.
  intros [(j & x & Hx & Hloud & Ht) Hmax]. split.
  - intros (i & y & Hy & Hl & Hd). specialize (Hmax i y Hy Hl). lia.
  - intros Hd. exists j, x. repeat split; try done. lia.
Qed.

(** The stored instant of the delay lies between the gate's base and now. *)
Lemma since_range r h t :
  0 <= refuse_delay_ms bounds -> history_ok (r :: h) -> since_of (r :: h) (Some t) ->
  base0 <= t <= rd_now r.
Proof.
  intros Hb Hh [(j & x & [Hx Hd] & <-) _].
  pose proof (Forall_lookup_1 _ _ _ _ (proj1 Hh) Hx) as (? & ? & ?).
  assert (rd_now x <= rd_now r).
  { apply history_cons in Hh as (_ & _ & Hl). destruct j as [|j]; [by simplify_eq/=|]. exact (Forall_lookup_1 _ _ _ _ Hl Hx). }
  assert (delayed x).
  { eapply Forall_forall in Hd; [exact Hd|]. apply (list_elem_of_lookup_2 _ j). rewrite lookup_take_lt by lia. done. }
  unfold past_delay_at, delayed, from_millis, NANOS_PER_MS in *. lia.
Qed.

Lemma state_inv_intro r h s' :
  history_ok (r :: h) ->
  (refusing s' = true <-> refuses (r :: h)) ->
  since_of (r :: h) (delayed_since s') ->
  (last_hot s' = Some (rd_now r) /\ loud (r :: h)
   \/ (refuses (r :: h) -> exists t, last_hot s' = Some t /\ hot_of (r :: h) t)
      /\ forall t, last_hot s' = Some t -> base0 <= t /\ t - base0 < u64_MAX) ->
  state_inv (r :: h) s'.
Proof.
  intros Hh Hr Hs [[Hl Hloud]|[Hl Hw]]; constructor; try done.
  - intros _. exists (rd_now r). split; [done|]. by apply hot_of_now.
  - rewrite Hl. intros t [= <-]. apply history_cons in Hh as (_ & (? & ? & ?) & _). lia.
Qed.

Lemma refuses_cons r h :
  refuses (r :: h) <->
  trips (r :: h)
  \/ (refuses h /\ (hot r \/ exists j r', h !! j = Some r' /\ loud (drop j h)
                       /\ rd_now r - rd_now r' < from_millis (accept_hold_ms bounds))).
Proof. done. Qed.

Lemma loud_cons r h : loud (r :: h) <-> trips (r :: h) \/ hot r.
Proof. unfold loud. naive_solver. Qed.

(** One reading: what trips it, and the delay's instant it leaves. *)
Lemma observe_branches r h s :
  0 <= refuse_delay_ms bounds -> INSTANT_MIN <= base0 -> history_ok (r :: h) ->
  since_of h (delayed_since s) ->
  exists o (b : bool), since_of (r :: h) o /\ (b = true <-> trips (r :: h))
    /\ observe bounds (rd_depth r) (rd_delay r) (rd_now r) s =
         if b then (if refusing s then None else Some Refuse, mkGateState true o (Some (rd_now r)))
         else if negb (refusing s) then (None, mkGateState (refusing s) o (last_hot s))
         else if (accept_depth bounds <? rd_depth r) || (from_millis (accept_delay_ms bounds) <? rd_delay r) then
           (None, mkGateState (refusing s) o (Some (rd_now r)))
         else if from_millis (accept_hold_ms bounds) <=?
                   match last_hot s with Some t => saturating_duration_since (rd_now r) t | None => DURATION_MAX end then
           (Some Accept, mkGateState false o (last_hot s))
         else (None, mkGateState (refusing s) o (last_hot s)).
Proof.
  intros Hb Hm Hh Hs. pose proof (since_of_cons r h _ Hs) as Hs'.
  pose proof (history_cons _ _ Hh) as (_ & (? & ? & ?) & _).
  unfold observe. cbv zeta.
  assert (Hc : forall d, d <= rd_delay r -> checked_sub_instant (rd_now r) d = Some (rd_now r - d)).
  { intros d Hd. unfold checked_sub_instant. by rewrite (proj2 (Z.leb_le _ _)) by lia. }
  rewrite Hc by (unfold from_millis, NANOS_PER_MS; lia). cbn [default from_option id].
  fold (past_delay_at r).
  remember (if _ <=? _ then Some _ else None) as o eqn:Ho in Hs' |- *. clear Ho Hc.
  eexists o, _. split; [done|]. split; [|reflexivity].
  rewrite (trips_since _ _ _ Hs'), orb_true_iff, Z.leb_le. destruct o as [t|]; [|naive_solver lia].
  pose proof (since_range _ _ _ Hb Hh Hs'). rewrite Z.leb_le. unfold saturating_duration_since.
  rewrite Z.max_r by lia. naive_solver.
Qed.

Lemma observe_inv r h s :
  0 <= refuse_delay_ms bounds -> INSTANT_MIN <= base0 -> history_ok (r :: h) -> state_inv h s ->
  let p := observe bounds (rd_depth r) (rd_delay r) (rd_now r) s in
  state_inv (r :: h) p.2 /\ (p.1 = Some Refuse <-> refusing s = false /\ refusing p.2 = true).
Proof.
  intros Hb Hm Hh [Hr Hs Hl Hw].
  destruct (observe_branches r h s Hb Hm Hh Hs) as (o & b & Hs' & Htb & ->). cbv zeta.
  destruct b; cbn [fst snd].
  { assert (Htr : trips (r :: h)) by (by apply Htb). split; [|by destruct (refusing s); naive_solver].
    apply state_inv_intro; [done|rewrite refuses_cons; naive_solver|done|left].
    split; [done|]. rewrite loud_cons. by left. }
  assert (Hnt : ~ trips (r :: h)) by (intros Htr; by apply Htb in Htr). clear Htb.
  destruct (refusing s) eqn:Es; cbn [negb].
  2: { split; [|cbn; naive_solver]. apply state_inv_intro; [done|..|done|right]; rewrite refuses_cons; cbn; naive_solver. }
  pose proof (proj1 Hr eq_refl) as Href. destruct (Hl Href) as (t & Hlt & Hot).
  assert (Hhb : (accept_depth bounds <? rd_depth r) || (from_millis (accept_delay_ms bounds) <? rd_delay r) = true
                <-> hot r) by (rewrite orb_true_iff, !Z.ltb_lt; done).
  destruct (_ || _) in Hhb |- *; cbn [fst snd].
  { assert (hot r) by (by apply Hhb). split; [|cbn; naive_solver].
    apply state_inv_intro; [done|rewrite refuses_cons; cbn; naive_solver|done|left].
    split; [done|]. rewrite loud_cons. by right. }
  assert (Hnh : ~ hot r) by (intros Hh'; by apply Hhb in Hh'). clear Hhb.
  assert (Hnl : ~ loud (r :: h)) by (rewrite loud_cons; naive_solver).
  assert (Hle : t <= rd_now r).
  { destruct Hot as [(j & x & Hx & _ & <-) _]. apply history_cons in Hh as (_ & _ & Hlt').
    exact (Forall_lookup_1 _ _ _ _ Hlt' Hx). }
  pose proof (hold_hot r h t Hot) as Hhold. rewrite Hlt. unfold saturating_duration_since. rewrite Z.max_r by lia.
  destruct (Z.leb_spec (from_millis (accept_hold_ms bounds)) (rd_now r - t)) as [Hc|Hc]; cbn [fst snd].
  - assert (~ refuses (r :: h)).
    { rewrite refuses_cons. intros [?|[_ [?|Hx]]]; [done..|]. apply Hhold in Hx. lia. }
    split; [|cbn; naive_solver]. apply state_inv_intro; [done|cbn; naive_solver|done|right]. split; [done|].
    cbn. rewrite <- Hlt. exact Hw.
  - assert (refuses (r :: h)) by (rewrite refuses_cons; right; split; [done|right; by apply Hhold]).
    split; [|cbn; naive_solver]. apply state_inv_intro; [done|cbn; naive_solver|done|right].
    cbn. rewrite Hlt in *. split; [intros _; exists t; split; [done|by apply hot_of_skip]|exact Hw].
Qed.

Lemma store_load h s st :
  0 <= refuse_delay_ms bounds -> history_ok h -> base st = base0 -> state_inv h s -> load (store s st) = s.
Proof.
  intros Hb Hh Hbase [_ Hs _ Hw]. destruct s as [f o l]. unfold load, store. cbn in *. rewrite Hbase. f_equal.
  - destruct o as [t|]; [|done]. destruct h as [|r h].
    { destruct Hs as [(j & x & [Hx _] & _) _]. done. }
    pose proof (since_range _ _ _ Hb Hh Hs). apply history_cons in Hh as (_ & (? & ? & ?) & _).
    apply instant_encoded; lia.
  - destruct l as [t|]; [|done]. destruct (Hw t eq_refl). by apply instant_encoded.
Qed.

Lemma gate_after_inv h :
  0 <= refuse_delay_ms bounds -> INSTANT_MIN <= base0 -> history_ok h ->
  let g := gate_after h in
  g_bounds g = bounds /\ base (g_state g) = base0 /\ state_inv h (load (g_state g)) /\ refusals g = rises h mod 2 ^ 64.
Proof.
  intros Hb Hm. induction h as [|r h IH]; intros Hh; cbv zeta.
  { repeat split; cbn; try done. by intros j r [Hj _]. }
  destruct (IH (proj1 (history_cons _ _ Hh))) as (Hg & Hbase & Hi & Hn). clear IH.
  pose proof (observe_inv r h _ Hb Hm Hh Hi) as [Hi' Ht].
  change (rises (r :: h)) with
    (rises h + if negb (refusing_now (gate_after h)) && refusing_now (gate_after (r :: h)) then 1 else 0).
  cbn [gate_after foldr]. fold (gate_after h). unfold gate_read, refusing_now. rewrite Hg.
  change (st_refusing (g_state (gate_after h))) with (refusing (load (g_state (gate_after h)))).
  destruct (observe _ _ _ _ _) as [t s']. cbn [fst snd g_bounds g_state refusals base store st_refusing] in *.
  split; [done|]. split; [done|]. split; [by rewrite (store_load _ _ _ Hb Hh Hbase Hi')|].
  unfold gate_line, u64_add, u64_wrap. rewrite Hn.
  destruct (refusing (load _)), (refusing s'), t as [[]|]; cbn [negb andb];
    rewrite ?Z.add_0_r, ?Zplus_mod_idemp_l; try done; naive_solver.
Qed.

(** The event-queue gate's verdict is the one its history earns.  After
    any readings of a queue the gate refuses exactly when the newest trips it
    (the depth bound at once, or a delay that stayed past its bound for the
    interval), or it refused before and the newest is above an accept bound or
    some reading within the hold was loud; its state survives the atomics it
    is stored in, and its counter is the number of turns to refusing. *)
Theorem gate_verdict h :
  0 <= refuse_delay_ms bounds -> INSTANT_MIN <= base0 -> history_ok h ->
  (refusing_now (gate_after h) = true <-> refuses h) /\ refusals (gate_after h) = rises h mod 2 ^ 64.
Proof.
  intros Hb Hm Hh. destruct (gate_after_inv h Hb Hm Hh) as (_ & _ & [Hr _ _ _] & Hn). done.
Qed.

End gate.

(** [EventQueueGateConfig::default]. *)
Definition default_bounds : EventQueueGateConfig := mkBounds 512 64 300 150 50 3000.

(** A delay of 460 ms trips the gate; a calm reading one second later finds it
    refusing, one 3.5 s later accepting. *)
Definition ex_readings : list Reading :=
  [ mkReading 0 0 (from_millis 4500); mkReading 0 0 (from_millis 2000); mkReading 10 (from_millis 460) (from_millis 1000) ].

Lemma gate_verdict_witness :
  refuses default_bounds (drop 1 ex_readings) /\ ~ refuses default_bounds ex_readings
  /\ refusals (gate_after default_bounds 0 ex_readings) = 1.
Proof.
  assert (H1 : history_ok 0 (drop 1 ex_readings)) by (split; repeat constructor; by vm_compute).
  assert (H0 : history_ok 0 ex_readings) by (split; repeat constructor; by vm_compute).
  split; [|split].
  - apply (gate_verdict default_bounds 0 (drop 1 ex_readings)); [done..|exact H1|vm_compute; reflexivity].
  - intros Hr. apply (gate_verdict default_bounds 0 ex_readings) in Hr; [|done..|exact H0].
    vm_compute in Hr. discriminate.
  - destruct (gate_verdict default_bounds 0 ex_readings) as [_ ->]; [done..|exact H0|]. vm_compute. reflexivity.
Defined.
