(* ===== verification/Readiness.v ===== *)
(** * Readiness

    [crates/b2bua/src/repl/readiness.rs] and [backend_gate.rs]: the latches a
    worker's health answers read, and the calls that move them.  The calls run
    on any thread: [state] takes no lock, and a cordon decision and the drain
    latch take one.  A call is the sequence of its atomic accesses, and the
    threads interleave between any two. *)

From S2P Require Import Prelude EventGate.

Open Scope Z_scope.

(** ** Data *)

Inductive ReadinessState := NotReady | Ready | Cordoned | Draining.
Global Instance ReadinessState_eq_dec : EqDecision ReadinessState.
Proof. solve_decision. Defined.

Inductive Refusal := RfBackend | RfCordoned | RfOverload | RfDraining.
Inductive CordonRefused := CrNotReady | CrDraining.
Inductive OptionsReport := ReportNotReady | Serving (r : option Refusal).

(** [ReadinessInner]: its atomics. *)
Record Latches := mkLatches {
  draining : bool;
  ready_latched : bool;
  cordoned : bool;
  not_ready_logged : bool;
}.
Definition latches_new : Latches := mkLatches false false false false.

Definition set_draining (l : Latches) : Latches := mkLatches true (ready_latched l) (cordoned l) (not_ready_logged l).
Definition set_latched (l : Latches) : Latches := mkLatches (draining l) true (cordoned l) (not_ready_logged l).
Definition set_cordoned (b : bool) (l : Latches) : Latches := mkLatches (draining l) (ready_latched l) b (not_ready_logged l).
Definition set_logged (l : Latches) : Latches := mkLatches (draining l) (ready_latched l) (cordoned l) true.

(** ** [Readiness::state], access by access

    What it is about to read or swap; the three readings of the source come
    one by one. *)
Inductive StatePc :=
  | LoadDraining | LoadLatched | LoadCordoned
  | ReadSettled | ReadBootstrapped (settled : bool) | ReadCurrent (settled bootstrapped : bool)
  | SwapLatched | SwapLogged
  | Return (st : ReadinessState).

(** One access; [env] is what the source answers when it is asked. *)
Definition state_access (env : bool) (l : Latches) (pc : StatePc) : Latches * StatePc :=
  match pc with
  | LoadDraining => (l, if draining l then Return Draining else LoadLatched)
  | LoadLatched => (l, if ready_latched l then LoadCordoned else ReadSettled)
  | LoadCordoned => (l, Return (if cordoned l then Cordoned else Ready))
  | ReadSettled => (l, ReadBootstrapped env)
  | ReadBootstrapped settled => (l, ReadCurrent settled env)
  | ReadCurrent settled bootstrapped =>
      (l, if settled && bootstrapped && env then SwapLatched else SwapLogged)
  | SwapLatched => (set_latched l, Return Ready)
  | SwapLogged => (set_logged l, Return NotReady)
  | Return st => (l, Return st)
  end.

(** ** The calls *)

(** [state], [cordon], [uncordon], and [latch_draining], which both
    [set_draining] and [set_withdrawn] are. *)
Inductive Call := CallState | CallCordon | CallUncordon | CallDrain.

Inductive Answer := AnsState (st : ReadinessState) | AnsCordon (r : result unit CordonRefused).

(** Where a call is: at the lock, in its reading of [state], at its swap, at
    the release of the lock, or back. *)
Inductive Pc :=
  | AtLock | InState (s : StatePc) | AtSwap | AtUnlock (r : result unit CordonRefused) | Back (a : Answer).

Definition call_start (c : Call) : Pc :=
  match c with CallState => InState LoadDraining | _ => AtLock end.

(** [cordon] and [uncordon] past the state they read. *)
Definition after_state (c : Call) (st : ReadinessState) : Pc :=
  match c, st with
  | CallCordon, NotReady => AtUnlock (Err CrNotReady)
  | (CallCordon | CallUncordon), Draining => AtUnlock (Err CrDraining)
  | (CallCordon | CallUncordon), _ => AtSwap
  | (CallState | CallDrain), _ => Back (AnsState st)
  end.

(** The swap a call makes. *)
Definition swap_latch (c : Call) (l : Latches) : Latches :=
  match c with
  | CallState => l
  | CallCordon => set_cordoned true l
  | CallUncordon => set_cordoned false l
  | CallDrain => set_draining l
  end.

Record Sys := mkSys {
  latches : Latches;
  transitions : option nat;
  tasks : gmap nat (Call * Pc);
}.

Definition sys_new : Sys := mkSys latches_new None ∅.

(** One step of task [t]; [None] when it waits for the lock or is back. *)
Definition task_step (t : nat) (env : bool) (c : Call) (pc : Pc) (s : Sys) : option (Latches * option nat * Pc) :=
  let l := latches s in
  let m := transitions s in
  match pc with
  | AtLock =>
      match m with
      | None => Some (l, Some t, match c with CallDrain => AtSwap | _ => InState LoadDraining end)
      | Some _ => None
      end
  | InState (Return st) => Some (l, m, after_state c st)
  | InState pc => let '(l', pc') := state_access env l pc in Some (l', m, InState pc')
  | AtSwap => Some (swap_latch c l, m, AtUnlock (Ok tt))
  | AtUnlock r => Some (l, None, Back (AnsCordon r))
  | Back _ => None
  end.

Inductive Event := ECall (t : nat) (c : Call) | ERun (t : nat) (env : bool).

Definition sys_step (s : Sys) (e : Event) : Sys :=
  match e with
  | ECall t c =>
      match tasks s !! t with
      | None => mkSys (latches s) (transitions s) (<[t := (c, call_start c)]> (tasks s))
      | Some _ => s
      end
  | ERun t env =>
      match tasks s !! t with
      | Some (c, pc) =>
          match task_step t env c pc s with
          | Some (l, m, pc') => mkSys l m (<[t := (c, pc')]> (tasks s))
          | None => s
          end
      | None => s
      end
  end.

Definition sys_run : Sys -> list Event -> Sys := foldl sys_step.

(** ** The OPTIONS answer *)

(** [gate_options_on], through [BackendGate::add]: what the breakers read. *)
Definition gate_options_on (breaker : bool) (breakers : list bool) : list bool := breakers ++ [breaker].

(** [gate_options_on_queue]: a second gate is ignored. *)
Definition gate_options_on_queue (bounds : EventQueueGateConfig) (switch : bool) (now : Z)
    (queue : option EventQueueGate) : option EventQueueGate :=
  match queue with Some g => Some g | None => Some (gate_new bounds switch now) end.

(** [BackendGate::any_open]. *)
Definition any_open (breakers : list bool) : bool := existsb id breakers.

(** [Readiness::options_report], from the state read and the gates: the
    event-queue gate is read, and moves, only when nothing before it refuses. *)
Definition options_report (st : ReadinessState) (breakers : list bool) (queue : option EventQueueGate)
    (depth delay now : Z) : OptionsReport * option EventQueueGate :=
  match st with
  | NotReady => (ReportNotReady, queue)
  | Draining => (Serving (Some RfDraining), queue)
  | Cordoned => (Serving (Some RfCordoned), queue)
  | Ready =>
      if any_open breakers then (Serving (Some RfBackend), queue)
      else match queue with
           | Some g =>
               let '(refusing, g') := gate_read depth delay now g in
               (Serving (if refusing then Some RfOverload else None), Some g')
           | None => (Serving None, None)
           end
  end.

(** ** The invariant *)

(** What an answer says of the latches, once it was read. *)
Definition answer_ok (l : Latches) (st : ReadinessState) : Prop :=
  match st with
  | Draining => draining l = true
  | Ready | Cordoned => ready_latched l = true
  | NotReady => True
  end.

Definition state_ok (c : Call) (l : Latches) (p : StatePc) : Prop :=
  (c <> CallState -> p = LoadDraining \/ p = Return Draining \/ draining l = false)
  /\ match p with
     | LoadCordoned => ready_latched l = true
     | Return st => answer_ok l st
     | _ => True
     end.

(** A call inside the lock holds it, and one that goes on to a cordon's swap
    read a node that does not drain. *)
Definition task_ok (l : Latches) (m : option nat) (t : nat) (c : Call) (pc : Pc) : Prop :=
  match pc with
  | AtLock => c <> CallState
  | InState p => c <> CallDrain /\ (c <> CallState -> m = Some t) /\ state_ok c l p
  | AtSwap => c <> CallState /\ m = Some t
              /\ (c <> CallDrain -> draining l = false) /\ (c = CallCordon -> ready_latched l = true)
  | AtUnlock _ => c <> CallState /\ m = Some t
  | Back (AnsState st) => answer_ok l st
  | Back (AnsCordon _) => True
  end.

Record sys_ok (s : Sys) : Prop := {
  ok_cordon : cordoned (latches s) = true -> ready_latched (latches s) = true;
  ok_tasks : forall t c pc, tasks s !! t = Some (c, pc) -> task_ok (latches s) (transitions s) t c pc;
}.

(** What a step of task [t] may do to the latches and the lock. *)
Record frame (t : nat) (l : Latches) (m : option nat) (l' : Latches) (m' : option nat) : Prop := {
  fr_draining : draining l = true -> draining l' = true;
  fr_latched : ready_latched l = true -> ready_latched l' = true;
  fr_drain : draining l' <> draining l -> m = Some t;
  fr_cordon : cordoned l' <> cordoned l -> draining l = false /\ ready_latched l = true;
  fr_lock : m' = m \/ (m = None /\ m' = Some t) \/ (m = Some t /\ m' = None);
}.

Lemma answer_stable l l' st :
  (draining l = true -> draining l' = true) -> (ready_latched l = true -> ready_latched l' = true) ->
  answer_ok l st -> answer_ok l' st.
Proof. destruct st; simpl; auto. Qed.

(** A step of one task leaves what the others know. *)
Lemma task_ok_frame t t' l m l' m' c pc :
  t <> t' -> frame t l m l' m' -> task_ok l m t' c pc -> task_ok l' m' t' c pc.
Proof.
  intros Hne [Hd Hl Hdr _ Hm]. pose proof (fun st => answer_stable l l' st Hd Hl) as Ha.
  assert (Hmm : m = Some t' -> m' = Some t' /\ draining l' = draining l).
  { intros ->. split; [by destruct Hm as [->|[[? _]|[[=] _]]]|].
    destruct (bool_eq_dec (draining l') (draining l)) as [?|Hn]; [done|]. by apply Hdr in Hn as [= ->]. }
  clear Hdr Hm. destruct pc as [|p| |r|[st|r]]; simpl; auto.
  - intros (Hc & Hlk & [Hp1 Hp2]). split; [done|]. split; [intros Hcs; by apply Hmm, Hlk|]. split.
    + intros Hcs. destruct (Hmm (Hlk Hcs)) as [_ ->]. by apply Hp1.
    + destruct p; auto.
  - intros (? & [? ->]%Hmm & ? & ?). repeat split; auto.
  - intros [? [? _]%Hmm]. done.
Qed.

(** Close a goal on latches by cases on the booleans it tests. *)
Ltac latch_cases := repeat split; intros; simpl in *; repeat case_match; simplify_eq/=; auto; try congruence.

Lemma state_access_ok env c l p :
  (cordoned l = true -> ready_latched l = true) -> state_ok c l p ->
  let '(l', p') := state_access env l p in
  (draining l' = draining l /\ cordoned l' = cordoned l
   /\ (ready_latched l = true -> ready_latched l' = true)) /\ state_ok c l' p'.
Proof.
  intros Hc [Hp1 Hp2].
  destruct p; simpl; (split; [done|]); split;
    try (intros Hcs; destruct (Hp1 Hcs) as [?|[?|?]]; clear Hp1); latch_cases.
Qed.

Lemma after_state_ok l m t c st :
  c <> CallDrain -> (c <> CallState -> m = Some t) -> state_ok c l (Return st) -> task_ok l m t c (after_state c st).
Proof.
  intros Hcd Hm [H1 H2]. destruct c; try done; specialize (Hm ltac:(done)); specialize (H1 ltac:(done));
    destruct H1 as [?|[?|?]]; destruct st; simplify_eq/=; latch_cases.
Qed.

Lemma frame_same t l m l' :
  (ready_latched l = true -> ready_latched l' = true) -> draining l' = draining l -> cordoned l' = cordoned l ->
  frame t l m l' m.
Proof. intros ? Hd Hc. constructor; rewrite ?Hd, ?Hc; auto; done. Qed.

Lemma task_step_ok s t env c pc l' m' pc' :
  sys_ok s -> tasks s !! t = Some (c, pc) -> task_step t env c pc s = Some (l', m', pc') ->
  frame t (latches s) (transitions s) l' m' /\ task_ok l' m' t c pc'
  /\ (cordoned l' = true -> ready_latched l' = true).
Proof.
  intros [Hc Hts] Ht. specialize (Hts _ _ _ Ht). destruct s as [l m ts]. simpl in *.
  destruct pc as [|p| |r|a]; simpl in *.
  - destruct m; [done|]. intros [= <- <- <-]. split; [constructor; auto; done|]. split; [|done].
    destruct c; [done|..]; simpl; unfold state_ok; repeat split; auto; done.
  - destruct Hts as (Hcd & Hm & Hp).
    assert (Hstep : task_step t env c (InState p) (mkSys l m ts) = Some (l', m', pc') ->
              (exists st, p = Return st /\ l' = l /\ m' = m /\ pc' = after_state c st)
              \/ (exists p', state_access env l p = (l', p') /\ m' = m /\ pc' = InState p')).
    { destruct p; simpl; intros [= <- <- <-]; eauto 10. }
    intros [(st & -> & -> & -> & ->)|(p' & Hs & -> & ->)]%Hstep.
    + split; [by apply frame_same|]. split; [by apply after_state_ok|done].
    + pose proof (state_access_ok env c l p Hc Hp) as Hok. rewrite Hs in Hok.
      destruct Hok as ((Hd & Hcc & Hl) & Hp'). split; [by apply frame_same|]. split; [done|].
      rewrite Hcc. auto.
  - intros [= <- <- <-]. destruct Hts as (? & -> & Hd & Hl).
    destruct c; [done|..]; (split; [constructor|split]); latch_cases.
    apply Hc. by destruct (cordoned l).
  - intros [= <- <- <-]. destruct Hts as [? ->]. split; [constructor; auto; done|done].
  - done.
Qed.

Lemma sys_step_ok s e : sys_ok s -> sys_ok (sys_step s e).
Proof.
  intros Hs. destruct e as [t c|t env]; simpl.
  - destruct (tasks s !! t) eqn:Ht; [done|]. destruct Hs as [Hc Hts]. constructor; [done|]. simpl.
    intros t' c' pc'. destruct (decide (t = t')) as [<-|Hne]; [|rewrite lookup_insert_ne by done; apply Hts].
    rewrite lookup_insert_eq. intros [= <- <-]. destruct c; simpl; unfold state_ok; latch_cases.
  - destruct (tasks s !! t) as [[c pc]|] eqn:Ht; [|done].
    destruct (task_step t env c pc s) as [[[l' m'] pc']|] eqn:Hst; [|done].
    destruct (task_step_ok _ _ _ _ _ _ _ _ Hs Ht Hst) as (Hf & Hok & Hc). destruct Hs as [_ Hts].
    constructor; [done|]. simpl. intros t' c'' pc''. destruct (decide (t = t')) as [<-|Hne].
    + rewrite lookup_insert_eq. by intros [= <- <-].
    + rewrite lookup_insert_ne by done. intros Ht'. eapply task_ok_frame; [done..|]. by apply Hts.
Qed.

Lemma sys_run_ok s evs : sys_ok s -> sys_ok (sys_run s evs).
Proof. revert s. induction evs as [|e evs IH]; intros s Hs; simpl; [done|]. by apply IH, sys_step_ok. Qed.

Lemma sys_new_ok : sys_ok sys_new.
Proof. constructor; simpl; [done|]. intros t c pc. by rewrite lookup_empty. Qed.

Lemma sys_step_frame s e :
  sys_ok s -> exists t, frame t (latches s) (transitions s) (latches (sys_step s e)) (transitions (sys_step s e)).
Proof.
  intros Hs. destruct e as [t c|t env]; simpl; exists t.
  - destruct (tasks s !! t); by apply frame_same.
  - destruct (tasks s !! t) as [[c pc]|] eqn:Ht; [|by apply frame_same].
    destruct (task_step t env c pc s) as [[[l' m'] pc']|] eqn:Hst; [|by apply frame_same].
    by destruct (task_step_ok _ _ _ _ _ _ _ _ Hs Ht Hst).
Qed.

(** A call inside the lock. *)
Definition in_section (s : Sys) (t : nat) : Prop :=
  exists c pc, tasks s !! t = Some (c, pc) /\ c <> CallState
    /\ match pc with InState _ | AtSwap | AtUnlock _ => True | _ => False end.

(** C39: the latches hold under every interleaving.  Whatever calls run and
    however their atomic accesses interleave: at most one call is inside the
    lock; a cordon lies only over a latched node; from there any step keeps
    the drain and the ready latch, and changes the cordon only on a node that
    is latched and does not drain. *)
Theorem readiness_latches evs e :
  let s := sys_run sys_new evs in
  let l := latches s in
  let l' := latches (sys_step s e) in
  (forall t t', in_section s t -> in_section s t' -> t = t')
  /\ (cordoned l = true -> ready_latched l = true)
  /\ (draining l = true -> draining l' = true)
  /\ (ready_latched l = true -> ready_latched l' = true)
  /\ (cordoned l' <> cordoned l -> ready_latched l = true /\ draining l = false).
Proof.
  cbv zeta. set (s := sys_run sys_new evs). pose proof (sys_run_ok _ evs sys_new_ok : sys_ok s) as Hs.
  destruct (sys_step_frame s e Hs) as [t [Hd Hl _ Hc _]]. split; [|split; [apply Hs|]].
  - assert (Hin : forall t, in_section s t -> transitions s = Some t).
    { intros u (c & pc & Hu & Hn & Hpc). apply (ok_tasks _ Hs) in Hu.
      destruct pc; simpl in Hu; try done; naive_solver. }
    intros u u' Hu%Hin Hu'%Hin. congruence.
  - split; [done|]. split; [done|]. intros Hne. by destruct (Hc Hne).
Qed.

(** ** A reading of the state *)

(** Steps a call of [state] has left, at most. *)
Definition steps_left (pc : Pc) : nat :=
  match pc with
  | InState LoadDraining => 7
  | InState LoadLatched => 6
  | InState ReadSettled => 5
  | InState (ReadBootstrapped _) => 4
  | InState (ReadCurrent _ _) => 3
  | InState (SwapLatched | SwapLogged | LoadCordoned) => 2
  | InState (Return _) => 1
  | Back (AnsState _) => 0
  | _ => 8
  end.

(** Where a call may be that began on a draining node, and on a latched one. *)
Definition sees_drain (pc : Pc) : Prop :=
  match pc with
  | InState (LoadDraining | Return Draining) | Back (AnsState Draining) => True
  | _ => False
  end.
Definition sees_latch (pc : Pc) : Prop :=
  match pc with
  | InState (LoadDraining | LoadLatched | LoadCordoned) => True
  | InState (Return st) | Back (AnsState st) => st <> NotReady
  | _ => False
  end.

Definition run_of (t : nat) (e : Event) : bool :=
  match e with ERun t' _ => bool_decide (t' = t) | _ => false end.
Definition runs_of (t : nat) (evs : list Event) : nat := length (filter (fun e => run_of t e = true) evs).

(** A call of [state] by [t] that has at most [n] steps left, begun on a node
    that drained if [d] and was latched if [r]. *)
Record reading (d r : bool) (n : nat) (s : Sys) (t : nat) : Prop := {
  rg_pc : exists pc, tasks s !! t = Some (CallState, pc) /\ (steps_left pc <= n <= 7)%nat
            /\ (d = true -> sees_drain pc) /\ (r = true -> sees_latch pc);
  rg_draining : d = true -> draining (latches s) = true;
  rg_latched : r = true -> ready_latched (latches s) = true;
}.

(** One step of the call itself. *)
Lemma reading_access d r n env s t pc :
  (steps_left pc <= n <= 7)%nat -> (d = true -> sees_drain pc) -> (r = true -> sees_latch pc) ->
  (d = true -> draining (latches s) = true) -> (r = true -> ready_latched (latches s) = true) ->
  match task_step t env CallState pc s with
  | Some (_, _, pc') => (steps_left pc' <= n - 1)%nat /\ (d = true -> sees_drain pc') /\ (r = true -> sees_latch pc')
  | None => steps_left pc = 0%nat
  end.
Proof.
  intros Hn Hd Hr Hsd Hsr. destruct pc as [|p| |x|[st|x]]; simpl in *; try lia.
  destruct p; simpl in *; split_and?; intros; repeat case_match; simplify_eq/=;
    repeat match goal with H : ?b = true -> _, H' : ?b = true |- _ => specialize (H H') end;
    try done; try congruence; try lia; auto.
Qed.

Lemma reading_step d r n s t e :
  sys_ok s -> reading d r n s t -> reading d r (n - (if run_of t e then 1 else 0)) (sys_step s e) t.
Proof.
  intros Hs [(pc & Ht & Hn & Hd & Hr) Hsd Hsr].
  destruct (sys_step_frame s e Hs) as [u [Hfd Hfl _ _ _]].
  constructor; [|auto..]. clear Hfd Hfl.
  destruct e as [t' c|t' env]; simpl.
  - exists pc. rewrite Nat.sub_0_r. split; [|done]. destruct (tasks s !! t') eqn:Ht'; [done|]. simpl.
    rewrite lookup_insert_ne; [done|]. congruence.
  - destruct (decide (t' = t)) as [->|Hne].
    + rewrite bool_decide_eq_true_2 by done. rewrite Ht.
      pose proof (reading_access d r n env s t pc Hn Hd Hr Hsd Hsr) as Ha.
      destruct (task_step t env CallState pc s) as [[[l' m'] pc']|]; simpl.
      * exists pc'. rewrite lookup_insert_eq. split; [done|]. split; [lia|apply Ha].
      * exists pc. split; [done|]. split; [lia|done].
    + rewrite bool_decide_eq_false_2 by done. rewrite Nat.sub_0_r. exists pc. split; [|done].
      destruct (tasks s !! t') as [[c' pc']|]; [|done]. destruct (task_step _ _ _ _ _) as [[[l' m'] pc'']|]; [|done].
      simpl. by rewrite lookup_insert_ne.
Qed.

Lemma reading_run d r n s t evs :
  sys_ok s -> reading d r n s t -> reading d r (n - runs_of t evs) (sys_run s evs) t.
Proof.
  unfold runs_of. revert n s. induction evs as [|e evs IH]; intros n s Hs Hr; simpl; [by rewrite Nat.sub_0_r|].
  pose proof (IH _ _ (sys_step_ok s e Hs) (reading_step _ _ _ _ _ e Hs Hr)) as H.
  rewrite filter_cons. replace (n - length _)%nat with
    (n - (if run_of t e then 1 else 0) - length (filter (fun e => run_of t e = true) evs))%nat; [done|].
  destruct (run_of t e); simpl; lia.
Qed.

(** [state] waits for nobody and answers for the node.  A call that
    begins on any reachable node, after seven accesses of its own among any
    others, is back.  Its answer, and the OPTIONS report made of it whatever
    the gates read: draining if the node drained when the call began; serving
    if it was latched then; and if it says that the node serves, the node is
    latched, or drains. *)
Theorem readiness_answers evs t evs' breakers queue depth delay now :
  let s := sys_run sys_new evs in
  let s' := sys_run (sys_step s (ECall t CallState)) evs' in
  tasks s !! t = None -> (7 <= runs_of t evs')%nat ->
  exists st, tasks s' !! t = Some (CallState, Back (AnsState st))
    /\ let report := (options_report st breakers queue depth delay now).1 in
       (draining (latches s) = true -> report = Serving (Some RfDraining))
       /\ (ready_latched (latches s) = true -> report <> ReportNotReady)
       /\ (report <> ReportNotReady ->
           ready_latched (latches s') = true \/ (draining (latches s') = true /\ report = Serving (Some RfDraining))).
Proof.
  cbv zeta. intros Ht Hn. set (s := sys_run sys_new evs) in *.
  pose proof (sys_run_ok _ evs sys_new_ok : sys_ok s) as Hs.
  set (s1 := sys_step s (ECall t CallState)). pose proof (sys_step_ok s (ECall t CallState) Hs : sys_ok s1) as Hs1.
  assert (Hr : reading (draining (latches s)) (ready_latched (latches s)) 7 s1 t).
  { subst s1. simpl. rewrite Ht. constructor; [|done..]. exists (InState LoadDraining).
    simpl. rewrite lookup_insert_eq. repeat split; auto. }
  apply (reading_run _ _ _ _ _ evs' Hs1) in Hr. pose proof (sys_run_ok _ evs' Hs1) as Hs2.
  destruct Hr as [(pc & Hpc & Hle & Hd & Hl) _ _]. pose proof (ok_tasks _ Hs2 _ _ _ Hpc) as Hok.
  assert (exists st, pc = Back (AnsState st)) as [st ->].
  { destruct pc as [|[]| | |[]]; simpl in Hle; try lia. eauto. }
  exists st. split; [done|]. simpl in *. clear Hle.
  destruct st; simpl in *; repeat split; intros; try done; auto;
    repeat case_match; simpl in *; try done; auto; naive_solver.
Qed.

(** A node that latches, is cordoned, and drains; then a probe reads it while
    an uncordon waits behind it. *)
Definition ex_calls : list Event :=
  ECall 0 CallState :: replicate 7 (ERun 0 true)
  ++ ECall 1 CallCordon :: replicate 7 (ERun 1 false)
  ++ ECall 2 CallDrain :: replicate 3 (ERun 2 false) ++ [ECall 3 CallUncordon; ERun 3 false].
Definition ex_probe : list Event := concat (replicate 7 [ERun 4 false; ERun 3 false]).

Lemma readiness_answers_witness :
  exists st, tasks (sys_run (sys_step (sys_run sys_new ex_calls) (ECall 4 CallState)) ex_probe) !! 4%nat
               = Some (CallState, Back (AnsState st))
    /\ (options_report st [true] None 0 0 0).1 = Serving (Some RfDraining).
Proof.
  destruct (readiness_answers ex_calls 4 ex_probe [true] None 0 0 0) as (st & Ht & Hd & _);
    [vm_compute; reflexivity|vm_compute; lia|].
  exists st. split; [exact Ht|]. apply Hd. vm_compute. reflexivity.
Defined.
