(* ===== verification/Limiter.v ===== *)
(** * The call limiter's store

    [crates/call-limiter/src/store.rs]: admission holds keyed by the call.
    The store keeps per key the call's set of limiter entries under a lease,
    per limiter id the live count over every set, the fences and the change
    markers, and three deadline heaps swept lazily on every access.  The
    clock is injected: every operation takes [now], the reading of
    [Clock::now_ms] it starts with.

    The file holds the data, the operations as the code composes them, and the
    well-formedness invariant with the lemmas of the helper functions;
    [LimiterSpec] states what the store promises and proves it. *)

From S2P Require Import Prelude.

Open Scope Z_scope.

(** ** Wire types ([crates/call-limiter-wire/src/lib.rs]) *)

Record AdmitEntry := mkEntry { ae_id : string; ae_limit : Z }.

Record HeldSet := mkHeld { hs_change : Z; hs_entries : list AdmitEntry }.

Definition HeldSet_default : HeldSet := mkHeld 0 [].

(** ** The store's types *)

Record LimiterConfig := mkCfg { lease_sec : Z }.

Inductive RefreshResult := Extended | Reregistered | RReleased | RDropped.

Inductive Fence := FReleased | FDropped (change : Z).

Inductive AdmitResult :=
  | AAdmitted
  | Rejected (limiter_id : string) (held : HeldSet)
  | Superseded (held : HeldSet)
  | AReleased.

Record Refreshed := mkRefreshed { rf_result : RefreshResult; rf_held : option HeldSet }.

Record CallSet := mkSet {
  entries : list AdmitEntry;
  change : Z;
  lease_expires_at_ms : Z;
  pending_deadline_ms : Z }.

(** The cumulative counters of [Inner]. *)
Record Counters := mkCounters {
  lease_expired_calls : Z;
  lease_expired_holds : Z;
  reregistered_calls : Z;
  admit_reregistered_calls : Z;
  releases_total : Z;
  admits_refused_released : Z }.

Record Inner := mkInner {
  calls : gmap string CallSet;
  counts : gmap string Z;
  fences : gmap string (Fence * Z);
  set_deadlines : list deadline;
  markers : gmap string (Z * Z);
  marker_deadlines : list deadline;
  fence_deadlines : list deadline;
  counters : Counters }.

#[global] Instance AdmitEntry_eq_dec : EqDecision AdmitEntry.
Proof. solve_decision. Defined.
#[global] Instance Fence_eq_dec : EqDecision Fence.
Proof. solve_decision. Defined.

Definition set_calls (x : gmap string CallSet) (i : Inner) : Inner :=
  mkInner x (counts i) (fences i) (set_deadlines i) (markers i) (marker_deadlines i)
    (fence_deadlines i) (counters i).
Definition set_counts (x : gmap string Z) (i : Inner) : Inner :=
  mkInner (calls i) x (fences i) (set_deadlines i) (markers i) (marker_deadlines i)
    (fence_deadlines i) (counters i).
Definition set_fences (x : gmap string (Fence * Z)) (i : Inner) : Inner :=
  mkInner (calls i) (counts i) x (set_deadlines i) (markers i) (marker_deadlines i)
    (fence_deadlines i) (counters i).
Definition set_set_deadlines (x : list deadline) (i : Inner) : Inner :=
  mkInner (calls i) (counts i) (fences i) x (markers i) (marker_deadlines i)
    (fence_deadlines i) (counters i).
Definition set_markers (x : gmap string (Z * Z)) (i : Inner) : Inner :=
  mkInner (calls i) (counts i) (fences i) (set_deadlines i) x (marker_deadlines i)
    (fence_deadlines i) (counters i).
Definition set_marker_deadlines (x : list deadline) (i : Inner) : Inner :=
  mkInner (calls i) (counts i) (fences i) (set_deadlines i) (markers i) x
    (fence_deadlines i) (counters i).
Definition set_fence_deadlines (x : list deadline) (i : Inner) : Inner :=
  mkInner (calls i) (counts i) (fences i) (set_deadlines i) (markers i)
    (marker_deadlines i) x (counters i).
Definition upd_counters (f : Counters -> Counters) (i : Inner) : Inner :=
  mkInner (calls i) (counts i) (fences i) (set_deadlines i) (markers i)
    (marker_deadlines i) (fence_deadlines i) (f (counters i)).

Definition count_expired (holds : Z) (c : Counters) : Counters :=
  mkCounters (u64_add (lease_expired_calls c) 1) (u64_add (lease_expired_holds c) holds)
    (reregistered_calls c) (admit_reregistered_calls c) (releases_total c)
    (admits_refused_released c).
Definition count_reregistered (c : Counters) : Counters :=
  mkCounters (lease_expired_calls c) (lease_expired_holds c)
    (u64_add (reregistered_calls c) 1) (admit_reregistered_calls c) (releases_total c)
    (admits_refused_released c).
Definition count_admit_reregistered (c : Counters) : Counters :=
  mkCounters (lease_expired_calls c) (lease_expired_holds c) (reregistered_calls c)
    (u64_add (admit_reregistered_calls c) 1) (releases_total c)
    (admits_refused_released c).
Definition count_release (c : Counters) : Counters :=
  mkCounters (lease_expired_calls c) (lease_expired_holds c) (reregistered_calls c)
    (admit_reregistered_calls c) (u64_add (releases_total c) 1)
    (admits_refused_released c).
Definition count_refused_released (c : Counters) : Counters :=
  mkCounters (lease_expired_calls c) (lease_expired_holds c) (reregistered_calls c)
    (admit_reregistered_calls c) (releases_total c)
    (u64_add (admits_refused_released c) 1).

(** [CallStore::new]. *)
Definition new : Inner := mkInner ∅ ∅ ∅ [] ∅ [] [] (mkCounters 0 0 0 0 0 0).

(** [CallStore::lease_ms]. *)
Definition lease_ms (cfg : LimiterConfig) : Z := i64_saturating_mul (lease_sec cfg) 1000.

(** ** The helper functions *)

(** [reregisters]. *)
Definition reregisters (i : Inner) (key : string) (es : list AdmitEntry) : bool :=
  negb (bool_decide (es = [])) &&
  negb (bool_decide (is_Some (calls i !! key))) &&
  negb (bool_decide (is_Some (fences i !! key))).

(** The counting loop of [insert_set]. *)
Definition counts_add (es : list AdmitEntry) (m : gmap string Z) : gmap string Z :=
  foldl (fun m e => <[ae_id e := default 0 (m !! ae_id e) + 1]> m) m es.

(** [insert_set]. *)
Definition insert_set (i : Inner) (key : string) (es : list AdmitEntry) (ch until : Z)
    : Inner :=
  let i := set_counts (counts_add es (counts i)) i in
  let i := set_calls (<[key := mkSet es ch until until]> (calls i)) i in
  set_set_deadlines (heap_push (until, key) (set_deadlines i)) i.

(** The uncounting loop of [drop_set]: an id whose count falls to zero leaves
    the map. *)
Definition counts_sub (es : list AdmitEntry) (m : gmap string Z) : gmap string Z :=
  foldl (fun m e =>
    match m !! ae_id e with
    | Some count => if count - 1 <=? 0 then delete (ae_id e) m
                    else <[ae_id e := count - 1]> m
    | None => m
    end) m es.

(** [drop_set]: the number of entries dropped, and the store without them. *)
Definition drop_set (i : Inner) (key : string) : Z * Inner :=
  match calls i !! key with
  | None => (0, i)
  | Some s =>
      let i := set_calls (delete key (calls i)) i in
      (Z.of_nat (length (entries s)), set_counts (counts_sub (entries s) (counts i)) i)
  end.

(** [fence]. *)
Definition fence (i : Inner) (key : string) (why : Fence) (lapses_at_ms : Z) : Inner :=
  let i := set_fences (<[key := (why, lapses_at_ms)]> (fences i)) i in
  set_fence_deadlines (heap_push (lapses_at_ms, key) (fence_deadlines i)) i.

(** [reregister]: a marker's number is the key's latest and stays with the
    re-created set. *)
Definition reregister (i : Inner) (key : string) (ch : Z) (es : list AdmitEntry)
    (until : Z) : Inner :=
  let ch := match markers i !! key with Some (known, _) => Z.max known ch | None => ch end in
  let i := set_markers (delete key (markers i)) i in
  insert_set i key es ch until.

(** [known_change]. *)
Definition known_change (i : Inner) (key : string) : option Z :=
  match calls i !! key with
  | Some s => Some (change s)
  | None =>
      match fences i !! key with
      | Some (FDropped c, _) => Some c
      | _ => fst <$> markers i !! key
      end
  end.

(** [record_change]. *)
Definition record_change (i : Inner) (key : string) (ch lapses_at_ms : Z) : Inner :=
  match calls i !! key with
  | Some s =>
      set_calls (<[key := mkSet (entries s) ch (lease_expires_at_ms s)
                            (pending_deadline_ms s)]> (calls i)) i
  | None =>
      match fences i !! key with
      | Some (FDropped _, at_ms) => set_fences (<[key := (FDropped ch, at_ms)]> (fences i)) i
      | _ =>
          let i := set_markers (<[key := (ch, lapses_at_ms)]> (markers i)) i in
          set_marker_deadlines (heap_push (lapses_at_ms, key) (marker_deadlines i)) i
      end
  end.

(** The free function [held_set]. *)
Definition held_set (i : Inner) (key : string) : HeldSet :=
  mkHeld (default 0 (known_change i key))
    (match calls i !! key with Some s => entries s | None => [] end).

(** ** [sweep] *)

(** The first loop: the set deadlines.  A popped deadline that is not its
    set's pending one is stale; a lease moved past it is pushed again; a
    lapsed set is dropped and counted.  [fuel] bounds the number of pops:
    every pop removes a due deadline and every push adds one that is not due,
    so the length of the heap is enough ([limiter_sweep_exact]). *)
Fixpoint sweep_sets (fuel : nat) (now : Z) (i : Inner) : Inner :=
  match fuel with
  | O => i
  | S fuel =>
      match set_deadlines i with
      | [] => i
      | (dl, key) :: rest =>
          if now <? dl then i
          else
            let i := set_set_deadlines rest i in
            match calls i !! key with
            | None => sweep_sets fuel now i
            | Some s =>
                if pending_deadline_ms s =? dl then
                  if now <? lease_expires_at_ms s then
                    let lease := lease_expires_at_ms s in
                    let i := set_calls (<[key := mkSet (entries s) (change s) lease lease]>
                                          (calls i)) i in
                    sweep_sets fuel now
                      (set_set_deadlines (heap_push (lease, key) (set_deadlines i)) i)
                  else
                    let '(holds, i) := drop_set i key in
                    sweep_sets fuel now (upd_counters (count_expired holds) i)
                else sweep_sets fuel now i
            end
      end
  end.

(** The shape of the second and third loops: a popped deadline removes its
    key when it is the one the key lapses at. *)
Fixpoint sweep_lapsed {A : Type} (fuel : nat) (now : Z) (h : list deadline)
    (m : gmap string (A * Z)) : list deadline * gmap string (A * Z) :=
  match fuel with
  | O => (h, m)
  | S fuel =>
      match h with
      | [] => (h, m)
      | (dl, key) :: rest =>
          if now <? dl then (h, m)
          else
            match m !! key with
            | Some (_, at_ms) =>
                sweep_lapsed fuel now rest (if at_ms =? dl then delete key m else m)
            | None => sweep_lapsed fuel now rest m
            end
      end
  end.

(** [sweep]. *)
Definition sweep (now : Z) (i : Inner) : Inner :=
  let i := sweep_sets (length (set_deadlines i)) now i in
  let '(h, m) := sweep_lapsed (length (fence_deadlines i)) now (fence_deadlines i) (fences i) in
  let i := set_fence_deadlines h (set_fences m i) in
  let '(h, m) :=
    sweep_lapsed (length (marker_deadlines i)) now (marker_deadlines i) (markers i) in
  set_marker_deadlines h (set_markers m i).

(** ** The operations of [CallStore] *)

(** The [HashMap<&str, i64>] tallies of [admit_carrying]. *)
Definition tally (es : list AdmitEntry) : gmap string Z :=
  foldl (fun m e => <[ae_id e := default 0 (m !! ae_id e) + 1]> m) ∅ es.

(** Whether entry [e] of the new list refuses: only an id the call adds slots
    to, checked with the whole list's effect. *)
Definition entry_refuses (own_old own_new live : gmap string Z) (e : AdmitEntry) : bool :=
  let old := default 0 (own_old !! ae_id e) in
  let new := default 0 (own_new !! ae_id e) in
  (old <? new) && (ae_limit e <? default 0 (live !! ae_id e) - old + new).

Definition is_released (i : Inner) (key : string) : bool :=
  match fences i !! key with Some (FReleased, _) => true | _ => false end.

(** [CallStore::admit_carrying]. *)
Definition admit_carrying (cfg : LimiterConfig) (now : Z) (key : string) (ch : Z)
    (held : HeldSet) (es : list AdmitEntry) (release_on_refusal : bool) (i : Inner)
    : AdmitResult * Inner :=
  let i := sweep now i in
  let until := i64_add now (lease_ms cfg) in
  if is_released i key then (AReleased, upd_counters count_refused_released i)
  else if (match known_change i key with Some known => ch <=? known | None => false end)
  then (Superseded (held_set i key), i)
  else
    let i := if reregisters i key (hs_entries held) then
               upd_counters count_admit_reregistered
                 (reregister i key (hs_change held) (hs_entries held) until)
             else i in
    let own_old := match calls i !! key with Some s => tally (entries s) | None => ∅ end in
    let own_new := tally es in
    match List.find (entry_refuses own_old own_new (counts i)) es with
    | Some e =>
        let i := if release_on_refusal then
                   let i := (drop_set i key).2 in
                   let i := set_markers (delete key (markers i)) i in
                   fence i key (FDropped ch) until
                 else record_change i key ch until in
        (Rejected (ae_id e) (held_set i key), i)
    | None =>
        let i := (drop_set i key).2 in
        let i := set_fences (delete key (fences i)) i in
        let i := set_markers (delete key (markers i)) i in
        (AAdmitted,
         if decide (es = []) then fence i key (FDropped ch) until
         else insert_set i key es ch until)
    end.

(** [CallStore::admit]. *)
Definition store_admit (cfg : LimiterConfig) (now : Z) (key : string) (ch : Z)
    (es : list AdmitEntry) (release_on_refusal : bool) (i : Inner) : AdmitResult * Inner :=
  admit_carrying cfg now key ch HeldSet_default es release_on_refusal i.

(** One key of [CallStore::release]'s loop. *)
Definition release_one (fenced_until_ms : Z) (i : Inner) (key : string) : Inner :=
  let i := upd_counters count_release i in
  if is_released i key then i
  else
    let i := (drop_set i key).2 in
    let i := set_markers (delete key (markers i)) i in
    fence i key FReleased fenced_until_ms.

(** [CallStore::release]. *)
Definition release (cfg : LimiterConfig) (now : Z) (keys : list string) (i : Inner) : Inner :=
  foldl (release_one (i64_add now (lease_ms cfg))) (sweep now i) keys.

(** The free function [refresh]. *)
Definition refresh_call (i : Inner) (key : string) (ch : Z) (es : list AdmitEntry)
    (until : Z) : Refreshed * Inner :=
  let answered i result := (mkRefreshed result (Some (held_set i key)), i) in
  match calls i !! key with
  | Some s =>
      answered (set_calls (<[key := mkSet (entries s) (change s) until
                                      (pending_deadline_ms s)]> (calls i)) i) Extended
  | None =>
      if reregisters i key es then
        answered (upd_counters count_reregistered (reregister i key ch es until)) Reregistered
      else
        match fences i !! key with
        | Some (FDropped _, _) => answered i RDropped
        | _ => (mkRefreshed RReleased None, i)
        end
  end.

(** The [map] of [CallStore::refresh_all], the store threaded through. *)
Fixpoint refresh_each (until : Z) (cs : list (string * Z * list AdmitEntry)) (i : Inner)
    : list Refreshed * Inner :=
  match cs with
  | [] => ([], i)
  | (key, ch, es) :: cs =>
      let '(r, i) := refresh_call i key ch es until in
      let '(rs, i) := refresh_each until cs i in
      (r :: rs, i)
  end.

(** [CallStore::refresh_all]. *)
Definition refresh_all (cfg : LimiterConfig) (now : Z)
    (cs : list (string * Z * list AdmitEntry)) (i : Inner) : list Refreshed * Inner :=
  refresh_each (i64_add now (lease_ms cfg)) cs (sweep now i).

(** [CallStore::refresh]; the [expect] of the source never fires, since one
    call gives one outcome ([refresh_all_length]). *)
Definition refresh (cfg : LimiterConfig) (now : Z) (key : string) (ch : Z)
    (es : list AdmitEntry) (i : Inner) : option Refreshed * Inner :=
  let '(rs, i) := refresh_all cfg now [(key, ch, es)] i in (last rs, i).

(** [CallStore::held_set]. *)
Definition held_set_of (now : Z) (key : string) (i : Inner) : option HeldSet * Inner :=
  let i := sweep now i in
  (if is_released i key then None else Some (held_set i key), i).

(** [CallStore::sweep_now]. *)
Definition sweep_now (now : Z) (i : Inner) : Z * Inner :=
  let before := lease_expired_calls (counters i) in
  let i := sweep now i in
  (u64_wrap (lease_expired_calls (counters i) - before), i).

(** [CallStore::held]. *)
Definition held (now : Z) (id : string) (i : Inner) : Z * Inner :=
  let i := sweep now i in (default 0 (counts i !! id), i).

(** [CallStore::calls]. *)
Definition calls_len (now : Z) (i : Inner) : nat * Inner :=
  let i := sweep now i in (size (calls i), i).

(** [StoreStats] ([store/stats.rs]). *)
Record StoreStats := mkStats {
  st_calls : Z;
  st_current_total : Z;
  st_admission_max : Z;
  st_fences : Z;
  st_change_markers : Z;
  st_counters : Counters }.

(** [Iterator::max] over the values, [None] when there is none. *)
Definition max_of (l : list Z) : option Z :=
  match l with [] => None | x :: l => Some (foldl Z.max x l) end.

(** [CallStore::stats]. *)
Definition stats (now : Z) (i : Inner) : StoreStats * Inner :=
  let i := sweep now i in
  let values := (map_to_list (counts i)).*2 in
  (mkStats (Z.of_nat (size (calls i))) (foldr Z.add 0 values) (default 0 (max_of values))
     (Z.of_nat (size (fences i))) (Z.of_nat (size (markers i))) (counters i), i).
