(* ===== verification/LimiterInv.v ===== *)
(** * The limiter store's invariant

    The representation invariant of [Limiter.Inner] and the lemmas that say
    what each helper function does to it: the per-id counts are the exact
    totals over the sets, every set, fence and marker has its deadline in its
    heap, and no key is in two of the three maps. *)

From S2P Require Import Prelude Limiter.

Open Scope Z_scope.

(** ** Counting *)

(** The slots [es] takes of [id]. *)
Definition occ (id : string) (es : list AdmitEntry) : Z :=
  Z.of_nat (length (filter (fun e => ae_id e = id) es)).

Definition cnt (m : gmap string Z) (id : string) : Z := default 0 (m !! id).

Definition counts_pos (m : gmap string Z) : Prop := map_Forall (fun _ n => 0 < n) m.

(** The slots of [id] over every value of [m]. *)
Definition total_by {A} (f : A -> list AdmitEntry) (m : gmap string A) (id : string) : Z :=
  map_fold (fun _ s acc => occ id (f s) + acc) 0 m.

Lemma occ_nil id : occ id [] = 0.
Proof. done. Qed.

Lemma occ_cons id e es : occ id (e :: es) = (if decide (ae_id e = id) then 1 else 0) + occ id es.
Proof. unfold occ. rewrite filter_cons. case_decide; simpl; lia. Qed.

Lemma occ_nonneg id es : 0 <= occ id es.
Proof. unfold occ. lia. Qed.

Lemma cnt_insert m k v id : cnt (<[k := v]> m) id = if decide (k = id) then v else cnt m id.
Proof. unfold cnt. case_decide; simplify_map_eq; done. Qed.

Lemma cnt_delete m k id : cnt (delete k m) id = if decide (k = id) then 0 else cnt m id.
Proof. unfold cnt. case_decide; simplify_map_eq; done. Qed.

Lemma counts_pos_insert m k v : counts_pos m -> 0 < v -> counts_pos (<[k := v]> m).
Proof. intros. by apply map_Forall_insert_2. Qed.

Lemma counts_pos_nonneg m id : counts_pos m -> 0 <= cnt m id.
Proof.
  intros H. unfold cnt. destruct (m !! id) eqn:E; simpl; [|lia].
  apply H in E. lia.
Qed.

Lemma counts_add_spec es m :
  counts_pos m ->
  counts_pos (counts_add es m) /\ forall id, cnt (counts_add es m) id = cnt m id + occ id es.
Proof.
  unfold counts_add. revert m. induction es as [|e es IH]; intros m Hm; simpl.
  { split; [done|]. intros id. rewrite occ_nil. lia. }
  fold (cnt m (ae_id e)).
  assert (counts_pos (<[ae_id e:=cnt m (ae_id e) + 1]> m)) as Hm'.
  { apply counts_pos_insert; [done|]. pose proof (counts_pos_nonneg m (ae_id e) Hm). lia. }
  destruct (IH _ Hm') as [Hp Hc]. split; [done|].
  intros id. rewrite Hc, cnt_insert, occ_cons. case_decide; subst; lia.
Qed.

Lemma counts_sub_spec es m :
  counts_pos m -> (forall id, occ id es <= cnt m id) ->
  counts_pos (counts_sub es m) /\ forall id, cnt (counts_sub es m) id = cnt m id - occ id es.
Proof.
  unfold counts_sub. revert m. induction es as [|e es IH]; intros m Hm Hle; simpl.
  { split; [done|]. intros id. rewrite occ_nil. lia. }
  assert (1 <= cnt m (ae_id e)) as H1.
  { specialize (Hle (ae_id e)). rewrite occ_cons, decide_True in Hle by done.
    pose proof (occ_nonneg (ae_id e) es). lia. }
  unfold cnt in H1. destruct (m !! ae_id e) as [n|] eqn:E; simpl in H1; [|lia].
  assert (forall id, cnt (if n - 1 <=? 0 then delete (ae_id e) m else <[ae_id e:=n - 1]> m) id
                     = cnt m id - (if decide (ae_id e = id) then 1 else 0)) as Hstep.
  { intros id. zcase; rewrite ?cnt_delete, ?cnt_insert; case_decide; subst;
      unfold cnt; rewrite ?E; simpl; lia. }
  destruct (IH (if n - 1 <=? 0 then delete (ae_id e) m else <[ae_id e:=n - 1]> m))
    as [Hp Hc].
  - zcase; [by apply map_Forall_delete|]. apply counts_pos_insert; [done|lia].
  - intros id. rewrite Hstep. specialize (Hle id). rewrite occ_cons in Hle. lia.
  - split; [done|]. intros id. rewrite Hc, Hstep, occ_cons. lia.
Qed.

Lemma tally_lookup es id : default 0 (tally es !! id) = occ id es.
Proof.
  destruct (counts_add_spec es ∅) as [_ H]; [apply map_Forall_empty|].
  specialize (H id). unfold cnt in H at 2. rewrite lookup_empty in H. simpl in H.
  fold (cnt (tally es) id). change (tally es) with (counts_add es ∅). lia.
Qed.

Section total.
Context {A : Type} (f : A -> list AdmitEntry).

Lemma total_empty id : total_by f ∅ id = 0.
Proof. apply map_fold_empty. Qed.

Lemma total_insert m k s id :
  m !! k = None -> total_by f (<[k := s]> m) id = occ id (f s) + total_by f m id.
Proof.
  intros Hk. unfold total_by. rewrite map_fold_insert_L; [done| |done].
  intros. lia.
Qed.

Lemma total_delete m k s id :
  m !! k = Some s -> total_by f m id = occ id (f s) + total_by f (delete k m) id.
Proof.
  intros Hk. rewrite <-(insert_delete_id m k s Hk) at 1.
  apply total_insert, lookup_delete_eq.
Qed.

Lemma total_nonneg m id : 0 <= total_by f m id.
Proof.
  induction m as [|k s m Hk IH] using map_ind; [by rewrite total_empty|].
  rewrite total_insert by done. pose proof (occ_nonneg id (f s)). lia.
Qed.

Lemma total_lookup_le m k s id : m !! k = Some s -> occ id (f s) <= total_by f m id.
Proof.
  intros Hk. rewrite (total_delete m k s id Hk).
  pose proof (total_nonneg (delete k m) id). lia.
Qed.

Lemma total_replace m k s s' id :
  m !! k = Some s -> f s' = f s -> total_by f (<[k := s']> m) id = total_by f m id.
Proof.
  intros Hk Hf. rewrite <-insert_delete_eq, total_insert by apply lookup_delete_eq.
  rewrite (total_delete m k s id Hk), Hf. done.
Qed.
End total.

Lemma total_fmap {A B} (f : B -> list AdmitEntry) (g : A -> B) (m : gmap string A) id :
  total_by f (g <$> m) id = total_by (fun x => f (g x)) m id.
Proof.
  induction m as [|k s m Hk IH] using map_ind.
  { by rewrite fmap_empty, !total_empty. }
  rewrite fmap_insert, !total_insert; [by rewrite IH|done|].
  by rewrite lookup_fmap, Hk.
Qed.

(** ** Deadlines *)

(** A map of lapsing keys and its heap. *)
Definition lapse_ok {A} (h : list deadline) (m : gmap string (A * Z)) : Prop :=
  heap_ok h /\ forall k x, m !! k = Some x -> (x.2, k) ∈ h.

(** The sets and their heap: every set's pending deadline is in the heap, at
    or before its lease, which lies at or before [b]. *)
Definition sets_ok (b : Z) (h : list deadline) (m : gmap string CallSet) : Prop :=
  heap_ok h /\
  forall k s, m !! k = Some s ->
    (pending_deadline_ms s, k) ∈ h /\
    pending_deadline_ms s <= lease_expires_at_ms s <= b /\ entries s <> [].

Section lapse.
Context {A : Type}.
Implicit Types (h : list deadline) (m : gmap string (A * Z)).

Lemma lapse_ok_insert h m k w a :
  lapse_ok h m -> lapse_ok (heap_push (a, k) h) (<[k := (w, a)]> m).
Proof.
  intros [Hh Hm]. split; [auto with siprust|]. intros k' x Hx.
  rewrite elem_of_heap_push. by_key k k'; [by left|]. right. by apply Hm.
Qed.

Lemma lapse_ok_delete h m k : lapse_ok h m -> lapse_ok h (delete k m).
Proof.
  intros [Hh Hm]. split; [done|]. intros k' x Hx.
  apply lookup_delete_Some in Hx as [_ Hx]. by apply Hm.
Qed.

Lemma lapse_ok_update h m k w w' a :
  lapse_ok h m -> m !! k = Some (w, a) -> lapse_ok h (<[k := (w', a)]> m).
Proof.
  intros [Hh Hm] Hk. split; [done|]. intros k' x Hx.
  by_key k k'; [by apply Hm in Hk|by apply Hm].
Qed.

Lemma filter_alive m now :
  map_Forall (fun _ x => now < x.2) m -> filter (fun kx : string * (A * Z) => now < kx.2.2) m = m.
Proof. intros H. apply map_filter_id. intros k x Hx. exact (H k x Hx). Qed.

Lemma lapse_none_due now h m :
  lapse_ok h m -> match h with [] => True | x :: _ => now < x.1 end ->
  m = filter (fun kx => now < kx.2.2) m.
Proof.
  intros [Hh Hm] Hd. symmetry. apply filter_alive. intros k x Hx.
  exact (heap_none_due now h Hh Hd _ (Hm _ _ Hx)).
Qed.

Lemma sweep_lapsed_spec fuel now h m :
  lapse_ok h m -> (due_count now h <= fuel)%nat ->
  let r := sweep_lapsed fuel now h m in
  lapse_ok r.1 r.2 /\ r.2 = filter (fun kx => now < kx.2.2) m /\
  match r.1 with [] => True | x :: _ => now < x.1 end.
Proof.
  revert h m. induction fuel as [|fuel IH]; intros h m Hok Hf.
  { assert (match h with [] => True | x :: _ => now < x.1 end) as Hd.
    { destruct h as [|x h]; [done|]. destruct (Z_lt_le_dec now x.1); [done|].
      rewrite due_count_pop in Hf by done. lia. }
    split_and!; [done|by apply (lapse_none_due now h)|done]. }
  destruct h as [|[dl k] rest]; simpl; [by split_and!; [|apply (lapse_none_due now [])|]|].
  destruct (Z.ltb_spec now dl).
  { split_and!; [done|by apply (lapse_none_due now ((dl, k) :: rest))|done]. }
  rewrite due_count_pop in Hf by done. destruct Hok as [Hh Hm].
  assert (forall m', (forall k' x, m' !! k' = Some x -> m !! k' = Some x /\ (x.2, k') <> (dl, k)) ->
            lapse_ok rest m') as Hrest.
  { intros m' H'. split; [by eauto with siprust|]. intros k' x Hx. apply H' in Hx as [Hx Hne].
    apply Hm, elem_of_cons in Hx as [Heq|]; [congruence|done]. }
  destruct (m !! k) as [[w a]|] eqn:E; [destruct (Z.eqb_spec a dl) as [->|Hne]|].
  - destruct (IH rest (delete k m)) as (H1 & H2 & H3); [|lia|].
    { apply Hrest. intros k' x [Hn Hx]%lookup_delete_Some. split; [done|congruence]. }
    split_and!; [done| |done]. rewrite H2, map_filter_delete. apply delete_id.
    apply map_lookup_filter_None. right. intros x Hx. rewrite E in Hx.
    simplify_eq/=. lia.
  - apply IH; [|lia]. apply Hrest. intros k' x Hx. split; [done|].
    intros [= ? ?]; simplify_eq/=.
  - apply IH; [|lia]. apply Hrest. intros k' x Hx. split; [done|]. congruence.
Qed.
End lapse.

(** ** Sets and counts *)

(** A set without the heap's bookkeeping. *)
Record ASet := mkASet { a_entries : list AdmitEntry; a_change : Z; a_lease : Z }.

Definition abs_set (s : CallSet) : ASet := mkASet (entries s) (change s) (lease_expires_at_ms s).

Definition counts_ok (m : gmap string CallSet) (c : gmap string Z) : Prop :=
  counts_pos c /\ forall id, cnt c id = total_by entries m id.

(** The sets alive past [now]. *)
Definition alive_sets (now : Z) (m : gmap string ASet) : gmap string ASet :=
  filter (fun ks => now < a_lease ks.2) m.

Lemma counts_ok_drop m c k :
  counts_ok m c ->
  counts_ok (delete k m) (match m !! k with Some s => counts_sub (entries s) c | None => c end).
Proof.
  intros [Hp Hc]. destruct (m !! k) as [s|] eqn:E.
  - destruct (counts_sub_spec (entries s) c Hp) as [Hp' Hc'].
    { intros id. rewrite Hc. by eapply total_lookup_le. }
    split; [done|]. intros id. rewrite Hc', Hc, (total_delete entries m k s id E). lia.
  - by rewrite delete_id.
Qed.

Lemma counts_ok_insert m c k s :
  m !! k = None -> counts_ok m c -> counts_ok (<[k := s]> m) (counts_add (entries s) c).
Proof.
  intros Hk [Hp Hc]. destruct (counts_add_spec (entries s) c Hp) as [Hp' Hc'].
  split; [done|]. intros id. rewrite Hc', Hc, total_insert by done. lia.
Qed.

Lemma counts_ok_replace m c k s s' :
  m !! k = Some s -> entries s' = entries s -> counts_ok m c -> counts_ok (<[k := s']> m) c.
Proof.
  intros Hk He [Hp Hc]. split; [done|]. intros id. by rewrite (total_replace _ _ _ s).
Qed.

Lemma drop_set_eq i key :
  counts_ok (calls i) (counts i) ->
  exists c, (drop_set i key).2 =
      mkInner (delete key (calls i)) c (fences i) (set_deadlines i) (markers i)
        (marker_deadlines i) (fence_deadlines i) (counters i) /\
    counts_ok (delete key (calls i)) c.
Proof.
  intros Hc. apply (counts_ok_drop _ _ key) in Hc. unfold drop_set.
  destruct (calls i !! key) as [s|] eqn:E; [by eexists|].
  exists (counts i). rewrite delete_id by done. split; [by destruct i|].
  by rewrite delete_id in Hc.
Qed.

Lemma sets_ok_delete b h m k : sets_ok b h m -> sets_ok b h (delete k m).
Proof.
  intros [Hh Hm]. split; [done|]. intros k' s [_ Hs]%lookup_delete_Some. by apply Hm.
Qed.

Lemma sets_ok_insert b h m k s :
  sets_ok b h m -> pending_deadline_ms s <= lease_expires_at_ms s <= b -> entries s <> [] ->
  sets_ok b (heap_push (pending_deadline_ms s, k) h) (<[k := s]> m).
Proof.
  intros [Hh Hm] Hp He. split; [auto with siprust|]. intros k' s' Hs'.
  rewrite elem_of_heap_push. by_key k k'; [auto|]. apply Hm in Hs'. tauto.
Qed.

Lemma sets_ok_mono b b' h m : b <= b' -> sets_ok b h m -> sets_ok b' h m.
Proof.
  intros Hb [Hh Hm]. split; [done|]. intros k s Hs. apply Hm in Hs as (? & [? ?] & ?).
  split_and!; [done..|lia|done].
Qed.

Lemma sets_none_due b now h m :
  sets_ok b h m -> match h with [] => True | x :: _ => now < x.1 end ->
  alive_sets now (abs_set <$> m) = abs_set <$> m.
Proof.
  intros [Hh Hm] Hd. apply map_filter_id. intros k a.
  rewrite lookup_fmap, fmap_Some. intros (s & Hs & ->). simpl.
  apply Hm in Hs as (Hin & Hle & _).
  pose proof (heap_none_due now h Hh Hd _ Hin). simpl in *. lia.
Qed.

(** What the first loop leaves of [i]: the sets alive past [now], counted
    exactly, no deadline due, every other field as it was. *)
Definition swept (b now : Z) (i r : Inner) : Prop :=
  exists m c h ctr,
    r = mkInner m c (fences i) h (markers i) (marker_deadlines i) (fence_deadlines i) ctr /\
    sets_ok b h m /\ counts_ok m c /\
    match h with [] => True | x :: _ => now < x.1 end /\
    abs_set <$> m = alive_sets now (abs_set <$> calls i).

Lemma swept_stop b now i :
  sets_ok b (set_deadlines i) (calls i) -> counts_ok (calls i) (counts i) ->
  match set_deadlines i with [] => True | x :: _ => now < x.1 end -> swept b now i i.
Proof.
  intros Hs Hc Hd. exists (calls i), (counts i), (set_deadlines i), (counters i).
  split_and!; [by destruct i|done..|]. by erewrite sets_none_due.
Qed.

(** A loop step that keeps the other fields and the alive sets. *)
Lemma swept_step b now i i' r :
  fences i' = fences i -> markers i' = markers i -> marker_deadlines i' = marker_deadlines i ->
  fence_deadlines i' = fence_deadlines i ->
  alive_sets now (abs_set <$> calls i') = alive_sets now (abs_set <$> calls i) ->
  swept b now i' r -> swept b now i r.
Proof.
  intros E1 E2 E3 E4 E5 (m & c & h & ctr & -> & ? & ? & ? & ?).
  exists m, c, h, ctr. rewrite <-E1, <-E2, <-E3, <-E4, <-E5. done.
Qed.

(** Popping a deadline keeps the heap's promise for the sets whose pending
    deadline it is not. *)
Lemma sets_ok_pop b dl k rest m m' :
  sets_ok b ((dl, k) :: rest) m ->
  (forall k' s, m' !! k' = Some s -> m !! k' = Some s /\ (k' = k -> pending_deadline_ms s <> dl)) ->
  sets_ok b rest m'.
Proof.
  intros [Hh Hm] H'. split; [by eauto with siprust|]. intros k' s [Hk' Hne]%H'.
  apply Hm in Hk' as (Hin & ? & ?). split_and!; [|tauto..].
  apply elem_of_cons in Hin as [Heq|Hin]; [|done].
  exfalso. apply Hne; congruence.
Qed.

(** The lapsed branch: dropping [k]'s set keeps what is alive. *)
Lemma alive_sets_drop now m k s :
  m !! k = Some s -> lease_expires_at_ms s <= now ->
  alive_sets now (abs_set <$> delete k m) = alive_sets now (abs_set <$> m).
Proof.
  intros Hk Hl. unfold alive_sets. rewrite fmap_delete, map_filter_delete.
  apply delete_id, map_lookup_filter_None. right. intros a.
  rewrite lookup_fmap, Hk. simpl. intros [= <-]. simpl. lia.
Qed.

Lemma sweep_sets_spec fuel now b i :
  sets_ok b (set_deadlines i) (calls i) -> counts_ok (calls i) (counts i) ->
  (due_count now (set_deadlines i) <= fuel)%nat -> swept b now i (sweep_sets fuel now i).
Proof.
  revert i. induction fuel as [|fuel IH]; intros i Hs Hc Hf.
  { simpl. apply swept_stop; [done..|].
    destruct (set_deadlines i) as [|x h]; [done|]. destruct (Z_lt_le_dec now x.1); [done|].
    rewrite due_count_pop in Hf by done. lia. }
  simpl. destruct (set_deadlines i) as [|[dl k] rest] eqn:Eh.
  { apply swept_stop; rewrite ?Eh; done. }
  destruct (Z.ltb_spec now dl) as [Hdl|Hdl]; [apply swept_stop; rewrite ?Eh; done|].
  rewrite due_count_pop in Hf by done.
  assert (forall m', (forall k' s, m' !! k' = Some s -> calls i !! k' = Some s /\
            (k' = k -> pending_deadline_ms s <> dl)) -> sets_ok b rest m') as Hrest.
  { intros m'. by apply sets_ok_pop. }
  assert (sets_ok b rest (delete k (calls i))) as Hdel.
  { apply Hrest. intros k' s [? ?]%lookup_delete_Some. split; [done|congruence]. }
  destruct (calls i !! k) as [s|] eqn:Ek; [destruct (Z.eqb_spec (pending_deadline_ms s) dl)|].
  2,3: eapply swept_step; [..|apply IH]; simpl; try done; try lia;
       apply Hrest; intros k' s0 Hs0; split; [done|intros ->; congruence].
  destruct (proj2 Hs k s Ek) as (_ & Hle & Hne).
  destruct (Z.ltb_spec now (lease_expires_at_ms s)) as [Hl|Hl].
  - (* the lease moved past the deadline: pushed again *)
    set (s' := mkSet (entries s) (change s) (lease_expires_at_ms s) (lease_expires_at_ms s)).
    eapply swept_step; [..|apply IH]; simpl; try done.
    + rewrite fmap_insert, insert_id; [done|]. by rewrite lookup_fmap, Ek.
    + rewrite <-insert_delete_eq. apply (sets_ok_insert _ _ _ _ s'); [done|simpl; lia|done].
    + by apply (counts_ok_replace _ _ _ s).
    + rewrite due_count_push by done. lia.
  - (* lapsed: dropped and counted *)
    destruct (drop_set_eq (set_set_deadlines rest i) k Hc) as (c0 & Hdr & Hc0).
    destruct (drop_set (set_set_deadlines rest i) k) as [holds i0]. simpl in Hdr. subst i0.
    eapply swept_step; [..|apply IH]; simpl; try done; [|lia].
    by eapply alive_sets_drop.
Qed.

(** ** The store's invariant *)

(** [store_wf b i]: the store's representation invariant, every lease at or
    before [b]. *)
Record store_wf (b : Z) (i : Inner) : Prop := mkWf {
  wf_sets : sets_ok b (set_deadlines i) (calls i);
  wf_counts : counts_ok (calls i) (counts i);
  wf_fences : lapse_ok (fence_deadlines i) (fences i);
  wf_markers : lapse_ok (marker_deadlines i) (markers i);
  wf_set_alone : forall k, is_Some (calls i !! k) -> fences i !! k = None /\ markers i !! k = None;
  wf_fence_alone : forall k, is_Some (fences i !! k) -> markers i !! k = None }.

Lemma store_wf_new b : store_wf b new.
Proof.
  unfold new. split; simpl.
  - split; [constructor|]. intros k s Hk. by rewrite lookup_empty in Hk.
  - split; [apply map_Forall_empty|]. intros id. by rewrite total_empty.
  - split; [constructor|]. intros k s Hk. by rewrite lookup_empty in Hk.
  - split; [constructor|]. intros k s Hk. by rewrite lookup_empty in Hk.
  - intros k [? Hk]. by rewrite lookup_empty in Hk.
  - intros k [? Hk]. by rewrite lookup_empty in Hk.
Qed.

Lemma store_wf_mono b b' i : b <= b' -> store_wf b i -> store_wf b' i.
Proof. intros ? []. split; [by eapply sets_ok_mono|done..]. Qed.

Lemma store_wf_counters b f i : store_wf b i -> store_wf b (upd_counters f i).
Proof. intros []. by split. Qed.

(** Lookups of a filtered or mapped table, for the disjointness clauses. *)
Lemma alive_is_Some now (m : gmap string CallSet) m' k :
  abs_set <$> m' = alive_sets now (abs_set <$> m) -> is_Some (m' !! k) -> is_Some (m !! k).
Proof.
  intros Heq [s Hs]. apply (f_equal (lookup k)) in Heq.
  rewrite lookup_fmap, Hs in Heq. simpl in Heq. symmetry in Heq.
  apply map_lookup_filter_Some in Heq as [Heq _]. rewrite lookup_fmap in Heq.
  destruct (m !! k); [by eexists|done].
Qed.

Lemma filter_is_Some {A} (P : string * A -> Prop) `{!forall x, Decision (P x)} (m : gmap string A) k :
  is_Some (filter P m !! k) -> is_Some (m !! k).
Proof. intros [x Hx]. apply map_lookup_filter_Some in Hx as [Hx _]. by eexists. Qed.

Lemma filter_None {A} (P : string * A -> Prop) `{!forall x, Decision (P x)} (m : gmap string A) k :
  m !! k = None -> filter P m !! k = None.
Proof. intros Hk. apply map_lookup_filter_None. by left. Qed.

(** No deadline of the three heaps is due. *)
Definition none_due (now : Z) (i : Inner) : Prop :=
  forall x, x ∈ set_deadlines i \/ x ∈ fence_deadlines i \/ x ∈ marker_deadlines i -> now < x.1.

Lemma sweep_lapsed_none_due {A} fuel now h (m : gmap string (A * Z)) :
  (forall x, x ∈ h -> now < x.1) -> sweep_lapsed fuel now h m = (h, m).
Proof.
  intros H. destruct fuel as [|fuel]; [done|]. destruct h as [|[dl k] h]; [done|]. simpl.
  assert (now < (dl, k).1) as Hd by (apply H; constructor). simpl in Hd.
  apply Z.ltb_lt in Hd. by rewrite Hd.
Qed.

Lemma sweep_none_due now i : none_due now i -> sweep now i = i.
Proof.
  intros H. unfold sweep.
  assert (sweep_sets (length (set_deadlines i)) now i = i) as ->.
  { destruct (set_deadlines i) as [|[dl k] h] eqn:E; simpl; [done|]. rewrite E.
    assert (now < (dl, k).1) as Hd by (apply H; rewrite E; left; constructor). simpl in Hd.
    apply Z.ltb_lt in Hd. by rewrite Hd. }
  rewrite sweep_lapsed_none_due by auto. simpl.
  rewrite sweep_lapsed_none_due by auto. by destruct i.
Qed.

Lemma sweep_wf b now i :
  store_wf b i ->
  store_wf b (sweep now i) /\
  abs_set <$> calls (sweep now i) = alive_sets now (abs_set <$> calls i) /\
  fences (sweep now i) = filter (fun kx => now < kx.2.2) (fences i) /\
  markers (sweep now i) = filter (fun kx => now < kx.2.2) (markers i) /\
  none_due now (sweep now i).
Proof.
  intros [Hs Hc Hf Hm Hd1 Hd2]. unfold sweep.
  destruct (sweep_sets_spec (length (set_deadlines i)) now b i)
    as (m & c & h & ctr & -> & Hs' & Hc' & Hn & Ha); [done..|apply due_count_le|]. simpl.
  destruct (sweep_lapsed_spec (length (fence_deadlines i)) now (fence_deadlines i) (fences i))
    as (Hf' & Ef & Hnf); [done|apply due_count_le|].
  destruct (sweep_lapsed_spec (length (marker_deadlines i)) now (marker_deadlines i) (markers i))
    as (Hm' & Em & Hnm); [done|apply due_count_le|].
  destruct (sweep_lapsed _ _ _ (fences i)) as [hf mf].
  destruct (sweep_lapsed _ _ _ (markers i)) as [hm mm]. simpl in *. subst mf mm.
  split_and!; [|done..|].
  2: { intros x [Hx|[Hx|Hx]]; simpl in Hx.
       - exact (heap_none_due now h (proj1 Hs') Hn x Hx).
       - exact (heap_none_due now hf (proj1 Hf') Hnf x Hx).
       - exact (heap_none_due now hm (proj1 Hm') Hnm x Hx). }
  split; simpl; try done.
  - intros k Hk%(alive_is_Some _ _ _ _ Ha). destruct (Hd1 k Hk).
    split; by apply filter_None.
  - intros k Hk%filter_is_Some. by apply filter_None, Hd2.
Qed.
