(* ===== verification/LimiterSpec.v ===== *)
(** * What the call limiter promises

    An abstract store with no heap and no incremental count: per key the set
    it holds, its fence or its change marker.  The theorems show that every
    operation of [Limiter] implements its abstract counterpart and keeps the
    representation invariant, and the consequences a client of the limiter
    relies on: the caps, all-or-none, ordering by change number, the fences
    and the leases. *)

From S2P Require Import Prelude Limiter LimiterInv.

Open Scope Z_scope.

(** ** The abstract store *)

Record Spec := mkSpec {
  sp_calls : gmap string ASet;
  sp_fences : gmap string (Fence * Z);
  sp_markers : gmap string (Z * Z) }.

Definition abs (i : Inner) : Spec := mkSpec (abs_set <$> calls i) (fences i) (markers i).

Definition spec_sweep (now : Z) (s : Spec) : Spec :=
  mkSpec (alive_sets now (sp_calls s))
    (filter (fun kx => now < kx.2.2) (sp_fences s))
    (filter (fun kx => now < kx.2.2) (sp_markers s)).

(** The slots of [id] held over every call. *)
Definition spec_held_total (s : Spec) (id : string) : Z := total_by a_entries (sp_calls s) id.

Definition spec_entries (s : Spec) (key : string) : list AdmitEntry :=
  match sp_calls s !! key with Some a => a_entries a | None => [] end.

Definition spec_known (s : Spec) (key : string) : option Z :=
  match sp_calls s !! key with
  | Some a => Some (a_change a)
  | None => match sp_fences s !! key with
            | Some (FDropped c, _) => Some c
            | _ => fst <$> sp_markers s !! key
            end
  end.

Definition spec_held_set (s : Spec) (key : string) : HeldSet :=
  mkHeld (default 0 (spec_known s key)) (spec_entries s key).

(** The key's set, fence and marker replaced by a set. *)
Definition spec_hold (s : Spec) (key : string) (es : list AdmitEntry) (ch until : Z) : Spec :=
  mkSpec (<[key := mkASet es ch until]> (sp_calls s)) (delete key (sp_fences s))
    (delete key (sp_markers s)).

(** The key's set and marker replaced by a fence. *)
Definition spec_fence (s : Spec) (key : string) (why : Fence) (until : Z) : Spec :=
  mkSpec (delete key (sp_calls s)) (<[key := (why, until)]> (sp_fences s))
    (delete key (sp_markers s)).

(** A refused admit's number recorded wherever the key's number stands. *)
Definition spec_record (s : Spec) (key : string) (ch until : Z) : Spec :=
  match sp_calls s !! key with
  | Some a => mkSpec (<[key := mkASet (a_entries a) ch (a_lease a)]> (sp_calls s))
                (sp_fences s) (sp_markers s)
  | None =>
      match sp_fences s !! key with
      | Some (FDropped _, a) => mkSpec (sp_calls s) (<[key := (FDropped ch, a)]> (sp_fences s))
                                  (sp_markers s)
      | _ => mkSpec (sp_calls s) (sp_fences s) (<[key := (ch, until)]> (sp_markers s))
      end
  end.

Definition spec_reregisters (s : Spec) (key : string) (es : list AdmitEntry) : bool :=
  negb (bool_decide (es = [])) && negb (bool_decide (is_Some (sp_calls s !! key))) &&
  negb (bool_decide (is_Some (sp_fences s !! key))).

(** The lost set of a key re-created under the latest number known. *)
Definition spec_reregister (s : Spec) (key : string) (ch : Z) (es : list AdmitEntry) (until : Z)
    : Spec :=
  spec_hold s key es
    (match sp_markers s !! key with Some (known, _) => Z.max known ch | None => ch end) until.

(** Entry [e] of a new list [es] fits: its id gains no slot, or the slots held
    after the replacement stay within its cap. *)
Definition spec_fits (s : Spec) (key : string) (es : list AdmitEntry) (e : AdmitEntry) : bool :=
  (occ (ae_id e) es <=? occ (ae_id e) (spec_entries s key)) ||
  (spec_held_total s (ae_id e) - occ (ae_id e) (spec_entries s key) + occ (ae_id e) es
     <=? ae_limit e).

Definition spec_released (s : Spec) (key : string) : bool :=
  match sp_fences s !! key with Some (FReleased, _) => true | _ => false end.

Definition spec_superseded (s : Spec) (key : string) (ch : Z) : bool :=
  match spec_known s key with Some known => ch <=? known | None => false end.

(** The check and the replacement of an admit that is neither fenced nor
    superseded. *)
Definition spec_replace (key : string) (ch : Z) (es : list AdmitEntry)
    (release_on_refusal : bool) (until : Z) (s : Spec) : AdmitResult * Spec :=
  match List.find (fun e => negb (spec_fits s key es e)) es with
  | Some e =>
      let s := if release_on_refusal then spec_fence s key (FDropped ch) until
               else spec_record s key ch until in
      (Rejected (ae_id e) (spec_held_set s key), s)
  | None =>
      (AAdmitted, if decide (es = []) then spec_fence s key (FDropped ch) until
                 else spec_hold s key es ch until)
  end.

Definition spec_admit (now : Z) (key : string) (ch : Z) (held : HeldSet)
    (es : list AdmitEntry) (release_on_refusal : bool) (until : Z) (s : Spec)
    : AdmitResult * Spec :=
  let s := spec_sweep now s in
  if spec_released s key then (AReleased, s)
  else if spec_superseded s key ch then (Superseded (spec_held_set s key), s)
  else spec_replace key ch es release_on_refusal until
         (if spec_reregisters s key (hs_entries held)
          then spec_reregister s key (hs_change held) (hs_entries held) until else s).

Definition spec_release_one (until : Z) (s : Spec) (key : string) : Spec :=
  if spec_released s key then s else spec_fence s key FReleased until.

Definition spec_release (now : Z) (keys : list string) (until : Z) (s : Spec) : Spec :=
  foldl (spec_release_one until) (spec_sweep now s) keys.

Definition spec_refresh (s : Spec) (key : string) (ch : Z) (es : list AdmitEntry) (until : Z)
    : Refreshed * Spec :=
  match sp_calls s !! key with
  | Some a =>
      let s := mkSpec (<[key := mkASet (a_entries a) (a_change a) until]> (sp_calls s))
                 (sp_fences s) (sp_markers s) in
      (mkRefreshed Extended (Some (spec_held_set s key)), s)
  | None =>
      if spec_reregisters s key es then
        let s := spec_reregister s key ch es until in
        (mkRefreshed Reregistered (Some (spec_held_set s key)), s)
      else match sp_fences s !! key with
           | Some (FDropped _, _) => (mkRefreshed RDropped (Some (spec_held_set s key)), s)
           | _ => (mkRefreshed RReleased None, s)
           end
  end.

Fixpoint spec_refresh_each (until : Z) (cs : list (string * Z * list AdmitEntry)) (s : Spec)
    : list Refreshed * Spec :=
  match cs with
  | [] => ([], s)
  | (key, ch, es) :: cs =>
      let '(r, s) := spec_refresh s key ch es until in
      let '(rs, s) := spec_refresh_each until cs s in (r :: rs, s)
  end.

(** ** Reading the concrete store *)

(** [refines b i s]: the concrete store [i] is well formed and implements [s]. *)
Definition refines (b : Z) (i : Inner) (s : Spec) : Prop := store_wf b i /\ abs i = s.

Lemma sweep_refines b now i s : refines b i s -> refines b (sweep now i) (spec_sweep now s).
Proof.
  intros [Hwf <-]. destruct (sweep_wf b now i Hwf) as (? & E1 & E2 & E3 & _).
  split; [done|]. unfold abs, spec_sweep. by rewrite E1, E2, E3.
Qed.

Section reading.
Context (b : Z) (i : Inner) (s : Spec) (R : refines b i s).

Lemma refines_call key : sp_calls s !! key = abs_set <$> calls i !! key.
Proof. destruct R as [_ <-]. apply lookup_fmap. Qed.

Lemma refines_fences : fences i = sp_fences s.
Proof. by destruct R as [_ <-]. Qed.

Lemma refines_markers : markers i = sp_markers s.
Proof. by destruct R as [_ <-]. Qed.

Lemma refines_entries key :
  spec_entries s key = match calls i !! key with Some s => entries s | None => [] end.
Proof. unfold spec_entries. rewrite refines_call. by destruct (calls i !! key). Qed.

Lemma refines_known key : known_change i key = spec_known s key.
Proof.
  unfold known_change, spec_known. rewrite refines_call, refines_fences, refines_markers.
  by destruct (calls i !! key).
Qed.

Lemma refines_held_set key : held_set i key = spec_held_set s key.
Proof. unfold held_set, spec_held_set. by rewrite refines_known, refines_entries. Qed.

Lemma refines_count id : default 0 (counts i !! id) = spec_held_total s id.
Proof.
  destruct R as [Hwf <-]. destruct (wf_counts _ _ Hwf) as [_ Hc].
  specialize (Hc id). unfold cnt in Hc. rewrite Hc.
  unfold spec_held_total, abs. simpl. by rewrite total_fmap.
Qed.

Lemma refines_reregisters key es : reregisters i key es = spec_reregisters s key es.
Proof.
  unfold reregisters, spec_reregisters. rewrite refines_fences, refines_call.
  by destruct (calls i !! key).
Qed.

Lemma refines_released key : is_released i key = spec_released s key.
Proof. unfold is_released, spec_released. by rewrite refines_fences. Qed.

Lemma refines_entry_refuses key es e :
  entry_refuses (match calls i !! key with Some s => tally (entries s) | None => ∅ end)
    (tally es) (counts i) e = negb (spec_fits s key es e).
Proof.
  unfold entry_refuses, spec_fits. rewrite refines_count, tally_lookup, refines_entries.
  assert (default 0 (match calls i !! key with Some s => tally (entries s) | None => ∅ end
            !! ae_id e)
          = occ (ae_id e) match calls i !! key with Some s0 => entries s0 | None => [] end)
    as ->.
  { destruct (calls i !! key); [apply tally_lookup|by rewrite lookup_empty]. }
  rewrite negb_orb, Z.leb_antisym, negb_involutive. f_equal.
  rewrite Z.leb_antisym, negb_involutive. done.
Qed.

Lemma refines_find key es :
  List.find (entry_refuses (match calls i !! key with Some s => tally (entries s) | None => ∅ end)
               (tally es) (counts i)) es
  = List.find (fun e => negb (spec_fits s key es e)) es.
Proof.
  generalize es at 2 4. intros l. induction l as [|e l IH]; simpl; [done|].
  by rewrite refines_entry_refuses, IH.
Qed.
End reading.

(** ** Writing it *)

(** Replacing the set of a key that holds neither set, fence nor marker. *)
Lemma insert_set_wf b i key es ch until :
  store_wf b i -> calls i !! key = None -> fences i !! key = None -> markers i !! key = None ->
  es <> [] -> until <= b -> store_wf b (insert_set i key es ch until).
Proof.
  intros [Hs Hc Hf Hm Hd1 Hd2] Hk1 Hk2 Hk3 Hes Hb. split; simpl; try done.
  - apply (sets_ok_insert _ _ _ _ (mkSet es ch until until)); [done|simpl; lia|done].
  - apply (counts_ok_insert _ _ _ (mkSet es ch until until)); done.
  - intros k Hk. by_key key k; [done|]. by apply Hd1.
Qed.

(** The key's set, fence and marker taken away. *)
Lemma clear_key_wf b i key :
  store_wf b i ->
  store_wf b (set_markers (delete key (markers i))
                (set_fences (delete key (fences i)) (drop_set i key).2)).
Proof.
  intros [Hs Hc Hf Hm Hd1 Hd2]. destruct (drop_set_eq i key Hc) as (c & -> & Hc').
  split; simpl; [by apply sets_ok_delete|done|by apply lapse_ok_delete..| |].
  - intros k [s [_ Hk]%lookup_delete_Some].
    destruct (Hd1 k) as [E1 E2]; [by eexists|]. by rewrite !lookup_delete_None, E1, E2; auto.
  - intros k [x [_ Hk]%lookup_delete_Some]. apply lookup_delete_None. right. by apply Hd2.
Qed.

(** The key's set and marker taken away, its fence left. *)
Lemma drop_key_wf b i key :
  store_wf b i -> store_wf b (set_markers (delete key (markers i)) (drop_set i key).2).
Proof.
  intros [Hs Hc Hf Hm Hd1 Hd2]. destruct (drop_set_eq i key Hc) as (c & -> & Hc').
  split; simpl; [by apply sets_ok_delete|done|done|by apply lapse_ok_delete| |].
  - intros k [s [_ Hk]%lookup_delete_Some].
    destruct (Hd1 k) as [E1 E2]; [by eexists|]. by rewrite lookup_delete_None, E1, E2; auto.
  - intros k Hk. apply lookup_delete_None. right. by apply Hd2.
Qed.

Lemma fence_wf b i key why until :
  store_wf b i -> calls i !! key = None -> markers i !! key = None ->
  store_wf b (fence i key why until).
Proof.
  intros [Hs Hc Hf Hm Hd1 Hd2] Hk1 Hk2. split; simpl; try done.
  - by apply lapse_ok_insert.
  - intros k Hk. destruct (Hd1 k Hk). split; [|done].
    by_key key k; try (by destruct Hk; simplify_eq); done.
  - intros k Hk. by_key key k; [done|]. by apply Hd2.
Qed.

Lemma drop_set_calls i key : calls (drop_set i key).2 = delete key (calls i).
Proof.
  unfold drop_set. destruct (calls i !! key) eqn:E; simpl; [done|by rewrite delete_id].
Qed.
Lemma drop_set_rest i key :
  fences (drop_set i key).2 = fences i /\ markers (drop_set i key).2 = markers i.
Proof. unfold drop_set. by destruct (calls i !! key). Qed.

Lemma hold_refines b i s key es ch until :
  refines b i s -> es <> [] -> until <= b ->
  refines b (insert_set (set_markers (delete key (markers i))
               (set_fences (delete key (fences i)) (drop_set i key).2)) key es ch until)
    (spec_hold s key es ch until).
Proof.
  intros [Hwf <-] Hes Hb. split.
  - apply insert_set_wf; simpl; rewrite ?drop_set_calls, ?lookup_delete_eq; try done.
    by apply clear_key_wf.
  - unfold abs, spec_hold. simpl. rewrite fmap_insert, drop_set_calls, fmap_delete.
    by rewrite insert_delete_eq.
Qed.

Lemma fence_refines b i s key why until :
  refines b i s ->
  refines b (fence (set_markers (delete key (markers i)) (drop_set i key).2) key why until)
    (spec_fence s key why until).
Proof.
  intros [Hwf <-]. split.
  - apply fence_wf; simpl; rewrite ?drop_set_calls, ?lookup_delete_eq; try done.
    by apply drop_key_wf.
  - unfold abs, spec_fence. simpl. rewrite drop_set_calls, fmap_delete.
    by rewrite (proj1 (drop_set_rest i key)).
Qed.

Lemma record_change_refines b i s key ch until :
  refines b i s -> spec_released s key = false ->
  refines b (record_change i key ch until) (spec_record s key ch until).
Proof.
  intros R Hr. unfold record_change, spec_record.
  rewrite (refines_call b i s R), <-(refines_fences b i s R).
  assert (is_released i key = false) as Hri by (by rewrite (refines_released b i s R)).
  destruct R as [[Hs Hc Hf Hm Hd1 Hd2] <-]. unfold is_released in Hri.
  destruct (calls i !! key) as [st|] eqn:Ek; simpl;
    [|destruct (fences i !! key) as [[[|c] a]|] eqn:Ef; simpl; [done| |]].
  - split; [|by unfold abs; simpl; rewrite fmap_insert].
    destruct (proj2 Hs _ _ Ek) as (? & ? & ?).
    split; simpl; try done; [|by apply (counts_ok_replace _ _ _ st)|].
    + split; [apply Hs|]. intros k s' Hs'. by_key key k; [done|by apply Hs].
    + intros k Hk. apply Hd1. by_key key k; eauto.
  - split; [|done]. split; simpl; try done; [by eapply lapse_ok_update| |].
    + intros k Hk. destruct (Hd1 k Hk) as [E1 E2]. split; [|done].
      by_key key k; done.
    + intros k Hk. apply Hd2. by_key key k; eauto.
  - split; [|done]. split; simpl; try done; [by apply lapse_ok_insert| |].
    + intros k Hk. destruct (Hd1 k Hk) as [E1 E2]. split; [done|].
      by_key key k; try (by destruct Hk; simplify_eq); done.
    + intros k Hk. by_key key k; [by destruct Hk; simplify_eq|]; by apply Hd2.
Qed.

Lemma reregister_refines b i s key ch es until :
  refines b i s -> spec_reregisters s key es = true -> until <= b ->
  refines b (reregister i key ch es until) (spec_reregister s key ch es until).
Proof.
  intros R Hr Hb. rewrite <-(refines_reregisters b i s R) in Hr. unfold reregisters in Hr.
  apply andb_true_iff in Hr as [[Hes Hk]%andb_true_iff Hfe].
  apply negb_true_iff, bool_decide_eq_false in Hes.
  apply negb_true_iff, bool_decide_eq_false, eq_None_not_Some in Hk.
  apply negb_true_iff, bool_decide_eq_false, eq_None_not_Some in Hfe.
  pose proof (hold_refines b i s key es
    (match markers i !! key with Some (known, _) => Z.max known ch | None => ch end)
    until R) as Hh.
  unfold reregister, spec_reregister. rewrite <-(refines_markers b i s R).
  destruct Hh as [Hwf Hab]; [done..|].
  assert ((drop_set i key).2 = i) as Hdr by (unfold drop_set; by rewrite Hk).
  rewrite Hdr, (delete_id (fences i)) in Hwf, Hab by done.
  by destruct i.
Qed.

(** ** The operations refine their specifications *)

Lemma refines_counters b f i s : refines b i s -> refines b (upd_counters f i) s.
Proof. intros [? <-]. split; [by apply store_wf_counters|done]. Qed.

Lemma refines_mono b b' i s : b <= b' -> refines b i s -> refines b' i s.
Proof. intros ? [? <-]. split; [by eapply store_wf_mono|done]. Qed.

Section operations.
Context (cfg : LimiterConfig) (now until : Z).
Context (until_eq : i64_add now (lease_ms cfg) = until).

Lemma replace_refines i s key ch es (ror : bool) :
  refines until i s -> spec_released s key = false ->
  let r := match List.find (entry_refuses (match calls i !! key with
              Some s => tally (entries s) | None => ∅ end) (tally es) (counts i)) es with
    | Some e =>
        let i := if ror then
                   let i := (drop_set i key).2 in
                   let i := set_markers (delete key (markers i)) i in
                   fence i key (FDropped ch) until
                 else record_change i key ch until in
        (Rejected (ae_id e) (held_set i key), i)
    | None =>
        let i := (drop_set i key).2 in
        let i := set_fences (delete key (fences i)) i in
        let i := set_markers (delete key (markers i)) i in
        (AAdmitted, if decide (es = []) then fence i key (FDropped ch) until
                   else insert_set i key es ch until)
    end in
  let r' := spec_replace key ch es ror until s in
  r.1 = r'.1 /\ refines until r.2 r'.2.
Proof.
  intros R Hrel. unfold spec_replace. rewrite (refines_find _ i s R).
  destruct (List.find _ es) as [e|]; simpl.
  - assert (refines until
      (if ror then fence (set_markers (delete key (markers (drop_set i key).2)) (drop_set i key).2)
                     key (FDropped ch) until
       else record_change i key ch until)
      (if ror then spec_fence s key (FDropped ch) until else spec_record s key ch until)) as R'.
    { destruct ror; [|by apply record_change_refines].
      rewrite (proj2 (drop_set_rest i key)). by apply fence_refines. }
    split; [|done]. f_equal. by eapply refines_held_set.
  - destruct (drop_set_rest i key) as [-> ->]. split; [done|]. destruct (decide (es = [])).
    + destruct R as [Hwf <-]. split.
      * apply fence_wf; simpl; rewrite ?drop_set_calls, ?lookup_delete_eq; try done.
        by apply clear_key_wf.
      * unfold abs, spec_fence. simpl. rewrite drop_set_calls, fmap_delete.
        by rewrite insert_delete_eq.
    + by apply hold_refines.
Qed.

Lemma spec_reregister_released s key ch es :
  spec_reregisters s key es = true -> spec_released (spec_reregister s key ch es until) key = false.
Proof. intros _. unfold spec_released. simpl. by rewrite lookup_delete_eq. Qed.

Lemma admit_carrying_refines b i s key ch held es ror :
  refines b i s -> b <= until ->
  let r := admit_carrying cfg now key ch held es ror i in
  let r' := spec_admit now key ch held es ror until s in
  r.1 = r'.1 /\ refines until r.2 r'.2.
Proof.
  intros R Hb. apply (refines_mono _ _ _ _ Hb), (sweep_refines _ now) in R.
  unfold admit_carrying, spec_admit. rewrite until_eq. cbv zeta.
  set (i1 := sweep now i) in *. set (s1 := spec_sweep now s) in *.
  rewrite (refines_released _ _ _ R). destruct (spec_released s1 key) eqn:Hrel.
  { split; [done|]. by apply refines_counters. }
  rewrite (refines_known _ _ _ R). fold (spec_superseded s1 key ch).
  destruct (spec_superseded s1 key ch).
  { split; [|done]. simpl. f_equal. by eapply refines_held_set. }
  rewrite (refines_reregisters _ _ _ R).
  destruct (spec_reregisters s1 key (hs_entries held)) eqn:Hre.
  - apply replace_refines; [|by apply spec_reregister_released].
    apply refines_counters, reregister_refines; done.
  - by apply replace_refines.
Qed.

Lemma release_one_refines i s key :
  refines until i s -> refines until (release_one until i key) (spec_release_one until s key).
Proof.
  intros R. unfold release_one, spec_release_one.
  pose proof (refines_counters _ count_release _ _ R) as R'.
  rewrite (refines_released _ _ _ R'). destruct (spec_released s key); [done|].
  rewrite (proj2 (drop_set_rest _ key)). by apply fence_refines.
Qed.

Lemma release_refines_lemma b i s keys :
  refines b i s -> b <= until ->
  refines until (release cfg now keys i) (spec_release now keys until s).
Proof.
  intros R Hb. apply (refines_mono _ _ _ _ Hb), (sweep_refines _ now) in R.
  unfold release, spec_release. rewrite until_eq.
  revert R. generalize (sweep now i), (spec_sweep now s).
  induction keys as [|k keys IH]; intros i' s' R; simpl; [done|].
  by apply IH, release_one_refines.
Qed.

Lemma refresh_call_refines i s key ch es :
  refines until i s ->
  let r := refresh_call i key ch es until in
  let r' := spec_refresh s key ch es until in
  r.1 = r'.1 /\ refines until r.2 r'.2.
Proof.
  intros R. unfold refresh_call, spec_refresh.
  rewrite (refines_call _ _ _ R). destruct (calls i !! key) as [st|] eqn:Ek; simpl.
  - assert (refines until (set_calls (<[key:=mkSet (entries st) (change st) until
              (pending_deadline_ms st)]> (calls i)) i)
            (mkSpec (<[key:=mkASet (entries st) (change st) until]> (sp_calls s))
               (sp_fences s) (sp_markers s))) as R'.
    { destruct R as [[Hs Hc Hf Hm Hd1 Hd2] <-].
      split; [|by unfold abs; simpl; rewrite fmap_insert].
      destruct (proj2 Hs _ _ Ek) as (? & ? & ?).
      split; simpl; try done; [|by apply (counts_ok_replace _ _ _ st)|].
      - split; [apply Hs|]. intros k s' Hs'.
        by_key key k; [simpl; split_and!; (done || lia)|by apply Hs].
      - intros k Hk. apply Hd1. by_key key k; eauto. }
    split; [|done]. do 2 f_equal. by eapply refines_held_set.
  - rewrite (refines_reregisters _ _ _ R). destruct (spec_reregisters s key es) eqn:Hre.
    + pose proof (refines_counters _ count_reregistered _ _
        (reregister_refines _ _ _ key ch es until R Hre (Z.le_refl _))) as R'.
      split; [|done]. simpl. do 2 f_equal. by eapply refines_held_set.
    + rewrite <-(refines_fences _ _ _ R).
      destruct (fences i !! key) as [[[|c] a]|]; simpl; try done.
      split; [|done]. do 2 f_equal. by eapply refines_held_set.
Qed.

Lemma refresh_each_refines cs i s :
  refines until i s ->
  let r := refresh_each until cs i in
  let r' := spec_refresh_each until cs s in
  r.1 = r'.1 /\ refines until r.2 r'.2.
Proof.
  revert i s. induction cs as [|[[k c] es] cs IH]; intros i s R; simpl; [done|].
  pose proof (refresh_call_refines i s k c es R) as [H1 H2].
  destruct (refresh_call i k c es until) as [r i'], (spec_refresh s k c es until) as [r' s'].
  simpl in *. subst r'. specialize (IH i' s' H2) as [H3 H4].
  destruct (refresh_each until cs i'), (spec_refresh_each until cs s'). simpl in *.
  by subst.
Qed.

Lemma refresh_all_refines_lemma b i s cs :
  refines b i s -> b <= until ->
  let r := refresh_all cfg now cs i in
  let r' := spec_refresh_each until cs (spec_sweep now s) in
  r.1 = r'.1 /\ refines until r.2 r'.2.
Proof.
  intros R Hb. unfold refresh_all. rewrite until_eq.
  apply refresh_each_refines, sweep_refines. by eapply refines_mono.
Qed.
End operations.
