(* ===== verification/LimiterProps.v ===== *)
(** * Theorems on the call limiter's store

    The store as a transition system over its operations, and the properties
    of [crates/call-limiter/src/store.rs]. *)

From S2P Require Import Prelude Limiter LimiterInv LimiterSpec.

Open Scope Z_scope.

(** ** Runs of the store *)

(** The operations of [CallStore]; the reads sweep, so they are steps too. *)
Inductive StoreOp :=
  | OpAdmit (key : string) (ch : Z) (held : HeldSet) (es : list AdmitEntry) (ror : bool)
  | OpRelease (keys : list string)
  | OpRefresh (cs : list (string * Z * list AdmitEntry))
  | OpSweep.

Definition run_op (cfg : LimiterConfig) (now : Z) (op : StoreOp) (i : Inner) : Inner :=
  match op with
  | OpAdmit key ch held es ror => (admit_carrying cfg now key ch held es ror i).2
  | OpRelease keys => release cfg now keys i
  | OpRefresh cs => (refresh_all cfg now cs i).2
  | OpSweep => sweep now i
  end.

Definition spec_op (now until : Z) (op : StoreOp) (s : Spec) : Spec :=
  match op with
  | OpAdmit key ch held es ror => (spec_admit now key ch held es ror until s).2
  | OpRelease keys => spec_release now keys until s
  | OpRefresh cs => (spec_refresh_each until cs (spec_sweep now s)).2
  | OpSweep => spec_sweep now s
  end.

(** [steps cfg t i t' i']: operations at times that never go back take the
    store from [i], last accessed at [t], to [i'], last accessed at [t'].  No
    lease end leaves the 64-bit range. *)
Inductive steps (cfg : LimiterConfig) (t : Z) (i : Inner) : Z -> Inner -> Prop :=
  | steps_refl : steps cfg t i t i
  | steps_op t' i' now op :
      steps cfg t i t' i' -> t' <= now -> in_i64 (now + lease_ms cfg) ->
      steps cfg t i now (run_op cfg now op i').

(** The stores a run of operations reaches from an empty one. *)
Definition reachable (cfg : LimiterConfig) (t : Z) (i : Inner) : Prop :=
  exists t0, steps cfg t0 new t i.

Section runs.
Context (cfg : LimiterConfig).

Lemma run_op_refines b now op i s :
  refines b i s -> b <= now + lease_ms cfg -> in_i64 (now + lease_ms cfg) ->
  refines (now + lease_ms cfg) (run_op cfg now op i) (spec_op now (now + lease_ms cfg) op s).
Proof.
  intros R Hb Hok. pose proof (i64_add_exact _ _ Hok) as Hu.
  destruct op as [key ch held es ror|keys|cs|]; simpl.
  - by eapply admit_carrying_refines.
  - by eapply release_refines_lemma.
  - by eapply refresh_all_refines_lemma.
  - apply sweep_refines. by eapply refines_mono.
Qed.

Lemma steps_le t i t' i' : steps cfg t i t' i' -> t <= t'.
Proof. induction 1; lia. Qed.

(** An invariant of the abstract store along a run that starts well formed. *)
Lemma steps_invariant (P : Z -> Spec -> Prop) t i t' i' :
  store_wf (t + lease_ms cfg) i -> P t (abs i) ->
  (forall t1 now op s, t <= t1 <= now -> in_i64 (now + lease_ms cfg) -> P t1 s ->
     P now (spec_op now (now + lease_ms cfg) op s)) ->
  steps cfg t i t' i' -> store_wf (t' + lease_ms cfg) i' /\ P t' (abs i').
Proof.
  intros Hwf H0 Hstep Hsteps. induction Hsteps as [|t1 i1 now op Hs [Hwf1 H1] Hle Hok];
    [done|].
  destruct (run_op_refines (t1 + lease_ms cfg) now op i1 (abs i1)) as [Hwf' Habs];
    [done|lia|done|]. split; [done|]. rewrite Habs.
  apply (Hstep t1); [|done|done]. split; [by eapply steps_le|done].
Qed.

Lemma reachable_wf t i : reachable cfg t i -> store_wf (t + lease_ms cfg) i.
Proof.
  intros [t0 Hs]. eapply (steps_invariant (fun _ _ => True)); eauto using store_wf_new.
Qed.
End runs.

(** ** Locality: an operation on one key leaves every other key alone *)

Definition view (s : Spec) (k : string) : option ASet * option (Fence * Z) * option (Z * Z) :=
  (sp_calls s !! k, sp_fences s !! k, sp_markers s !! k).

Section locality.
Context (key k : string) (Hne : key <> k).

Lemma spec_hold_view s es ch u : view (spec_hold s key es ch u) k = view s k.
Proof. unfold view, spec_hold. simpl. by simplify_map_eq. Qed.

Lemma spec_fence_view s why u : view (spec_fence s key why u) k = view s k.
Proof. unfold view, spec_fence. simpl. by simplify_map_eq. Qed.

Lemma spec_record_view s ch u : view (spec_record s key ch u) k = view s k.
Proof.
  unfold view, spec_record. destruct (sp_calls s !! key); simpl; [by simplify_map_eq|].
  destruct (sp_fences s !! key) as [[[|] ?]|]; simpl; by simplify_map_eq.
Qed.

Lemma spec_replace_view s ch es ror u :
  view (spec_replace key ch es ror u s).2 k = view s k.
Proof.
  unfold spec_replace. destruct (List.find _ _); simpl.
  - destruct ror; [apply spec_fence_view|apply spec_record_view].
  - destruct (decide _); [apply spec_fence_view|apply spec_hold_view].
Qed.

Lemma spec_refresh_view s ch es u : view (spec_refresh s key ch es u).2 k = view s k.
Proof.
  unfold spec_refresh. destruct (sp_calls s !! key); simpl.
  { unfold view. simpl. by simplify_map_eq. }
  destruct (spec_reregisters _ _ _); simpl; [apply spec_hold_view|].
  by destruct (sp_fences s !! key) as [[[|] ?]|].
Qed.
End locality.

Lemma spec_admit_view now key k ch held es ror u s :
  key <> k ->
  view (spec_admit now key ch held es ror u s).2 k = view (spec_sweep now s) k.
Proof.
  intros Hne. unfold spec_admit. destruct (spec_released _ _); [done|].
  destruct (spec_superseded _ _ _); [done|]. rewrite spec_replace_view by done.
  destruct (spec_reregisters _ _ _); [by apply spec_hold_view|done].
Qed.

(** A property of one key's view kept by the key's own operations is kept by
    the multi-key operations. *)
Lemma spec_release_keys_inv (P : option ASet * option (Fence * Z) * option (Z * Z) -> Prop)
    key u keys s :
  (forall s, P (view s key) -> P (view (spec_release_one u s key) key)) ->
  P (view s key) -> P (view (foldl (spec_release_one u) s keys) key).
Proof.
  intros Hone. revert s. induction keys as [|k keys IH]; intros s HP; simpl; [done|].
  apply IH. destruct (decide (k = key)) as [->|Hne]; [by apply Hone|].
  unfold spec_release_one. destruct (spec_released s k); [done|]. by rewrite spec_fence_view.
Qed.

Lemma spec_refresh_each_inv (P : option ASet * option (Fence * Z) * option (Z * Z) -> Prop)
    key u cs s :
  (forall s ch es, P (view s key) -> P (view (spec_refresh s key ch es u).2 key)) ->
  P (view s key) -> P (view (spec_refresh_each u cs s).2 key).
Proof.
  intros Hone. revert s. induction cs as [|[[k ch] es] cs IH]; intros s HP; simpl; [done|].
  assert (P (view (spec_refresh s k ch es u).2 key)) as H'.
  { destruct (decide (k = key)) as [->|Hne]; [by apply Hone|]. by rewrite spec_refresh_view. }
  destruct (spec_refresh s k ch es u) as [r s']. simpl in *.
  specialize (IH s' H'). by destruct (spec_refresh_each u cs s').
Qed.

(** ** Fences *)

(** A released key's fence stands, and holds no set, until it lapses. *)
Definition fenced_until (key : string) (a : Z) (s : Spec) : Prop :=
  sp_calls s !! key = None /\ sp_fences s !! key = Some (FReleased, a).

Lemma fenced_released key a s : fenced_until key a s -> spec_released s key = true.
Proof. intros [_ H]. unfold spec_released. by rewrite H. Qed.

Lemma fenced_sweep key a now s :
  now < a -> fenced_until key a s -> fenced_until key a (spec_sweep now s).
Proof.
  intros Ha [H1 H2]. split; simpl.
  - unfold alive_sets. by apply filter_None.
  - by apply map_lookup_filter_Some.
Qed.

Lemma fenced_view key a s s' : view s key = view s' key -> fenced_until key a s -> fenced_until key a s'.
Proof. unfold view, fenced_until. intros [= -> -> _]. done. Qed.

Lemma fenced_op key a now u op s :
  now < a -> fenced_until key a s -> fenced_until key a (spec_op now u op s).
Proof.
  intros Ha H. apply (fenced_sweep _ _ now) in H; [|done].
  destruct op as [k ch held es ror|keys|cs|]; simpl; [| | |done].
  - destruct (decide (k = key)) as [->|Hne].
    + unfold spec_admit. by rewrite (fenced_released _ _ _ H).
    + eapply fenced_view; [|exact H]. by rewrite spec_admit_view.
  - unfold spec_release.
    apply (spec_release_keys_inv
      (fun v => v.1.1 = None /\ v.1.2 = Some (FReleased, a))); [|done].
    intros s' H'. unfold spec_release_one.
    rewrite (fenced_released key a s'); [done|exact H'].
  - apply (spec_refresh_each_inv
      (fun v => v.1.1 = None /\ v.1.2 = Some (FReleased, a))); [|done].
    intros s' ch es [H1 H2]. unfold view in *. simpl in *.
    unfold spec_refresh, spec_reregisters. rewrite H1, H2. simpl.
    by rewrite andb_false_r; simpl; rewrite H1, H2.
Qed.

(** ** Change numbers *)

(** The number the store knows for [key] is at least [c], or the call was
    released. *)
Definition known_at_least (key : string) (c : Z) (s : Spec) : Prop :=
  spec_released s key = true \/ exists c', spec_known s key = Some c' /\ c <= c'.

(** [known_at_least] of a view. *)
Definition view_known (c : Z) (v : option ASet * option (Fence * Z) * option (Z * Z)) : Prop :=
  (exists a, v.1.2 = Some (FReleased, a)) \/
  exists c', match v.1.1 with
             | Some a => Some (a_change a)
             | None => match v.1.2 with Some (FDropped c, _) => Some c | _ => fst <$> v.2 end
             end = Some c' /\ c <= c'.

Lemma view_known_iff key c s : known_at_least key c s <-> view_known c (view s key).
Proof.
  unfold known_at_least, view_known, spec_released, spec_known, view. simpl.
  split; (intros [H|H]; [left|by right]).
  - destruct (sp_fences s !! key) as [[[] a]|]; try done. by exists a.
  - by destruct H as [a ->].
Qed.

Lemma known_hold key c s es ch u : c <= ch -> known_at_least key c (spec_hold s key es ch u).
Proof.
  intros Hc. right. exists ch. unfold spec_known. simpl. by rewrite lookup_insert_eq.
Qed.

Lemma known_drop key c s ch u : c <= ch -> known_at_least key c (spec_fence s key (FDropped ch) u).
Proof.
  intros Hc. right. exists ch. unfold spec_known. simpl.
  by rewrite lookup_delete_eq, lookup_insert_eq.
Qed.

Lemma known_record key c s ch u :
  spec_released s key = false -> c <= ch -> known_at_least key c (spec_record s key ch u).
Proof.
  intros Hr Hc. right. exists ch. unfold spec_record, spec_known, spec_released in *.
  destruct (sp_calls s !! key) eqn:E1; simpl; [by rewrite lookup_insert_eq|].
  destruct (sp_fences s !! key) as [[[|] ?]|] eqn:E2; simpl; try done;
    rewrite ?E1, ?E2, ?lookup_insert_eq; done.
Qed.

Lemma known_replace key c s ch es ror u :
  spec_released s key = false -> c <= ch -> known_at_least key c (spec_replace key ch es ror u s).2.
Proof.
  intros Hr Hc. unfold spec_replace. destruct (List.find _ _); simpl.
  - destruct ror; [by apply known_drop|by apply known_record].
  - destruct (decide _); [by apply known_drop|by apply known_hold].
Qed.

Lemma known_reregister key c s ch es u :
  spec_reregisters s key es = true -> known_at_least key c s ->
  known_at_least key c (spec_reregister s key ch es u).
Proof.
  unfold spec_reregisters. intros [[_ H1]%andb_true_iff H2]%andb_true_iff Hk.
  apply negb_true_iff, bool_decide_eq_false, eq_None_not_Some in H1.
  apply negb_true_iff, bool_decide_eq_false, eq_None_not_Some in H2.
  destruct Hk as [Hr|(c' & Hk & Hle)].
  { unfold spec_released in Hr. by rewrite H2 in Hr. }
  unfold spec_known in Hk. rewrite H1, H2 in Hk.
  destruct (sp_markers s !! key) as [[m a]|] eqn:E; simplify_eq/=.
  apply known_hold. rewrite E. lia.
Qed.

Lemma known_refresh key c s ch es u :
  known_at_least key c s -> known_at_least key c (spec_refresh s key ch es u).2.
Proof.
  intros Hk. unfold spec_refresh. destruct (sp_calls s !! key) as [a|] eqn:E; simpl.
  - destruct Hk as [Hr|(c' & Hk & Hle)]; [by left|]. right. exists c'.
    unfold spec_known in *. simpl. by rewrite lookup_insert_eq, E in *.
  - destruct (spec_reregisters s key es) eqn:Hre; simpl; [by apply known_reregister|].
    by destruct (sp_fences s !! key) as [[[|] ?]|].
Qed.

Lemma known_op key c now u op s :
  known_at_least key c (spec_sweep now s) -> known_at_least key c (spec_op now u op s).
Proof.
  intros H. destruct op as [k ch held es ror|keys|cs|]; simpl; [| | |done].
  - destruct (decide (k = key)) as [->|Hne].
    2: { apply view_known_iff. rewrite spec_admit_view by done. by apply view_known_iff. }
    unfold spec_admit. set (s1 := spec_sweep now s) in *.
    destruct (spec_released s1 key) eqn:Hr; [done|].
    destruct (spec_superseded s1 key ch) eqn:Hs; [done|].
    assert (c <= ch) as Hc.
    { destruct H as [Hr'|(c' & Hk & Hle)]; [congruence|].
      unfold spec_superseded in Hs. rewrite Hk in Hs. zbool. lia. }
    apply known_replace; [|done]. destruct (spec_reregisters s1 key _); [|done].
    unfold spec_released. simpl. by rewrite lookup_delete_eq.
  - apply view_known_iff. unfold spec_release.
    apply (spec_release_keys_inv (view_known c)); [|by apply view_known_iff].
    intros s' H'%view_known_iff. apply view_known_iff. unfold spec_release_one.
    destruct (spec_released s' key); [done|]. left. unfold spec_released. simpl.
    by rewrite lookup_insert_eq.
  - apply view_known_iff. apply (spec_refresh_each_inv (view_known c)); [|by apply view_known_iff].
    intros s' ch es H'%view_known_iff. apply view_known_iff. by apply known_refresh.
Qed.

(** ** Slots held *)

Lemma spec_entries_occ_le s key id : occ id (spec_entries s key) <= spec_held_total s id.
Proof.
  unfold spec_entries, spec_held_total. destruct (sp_calls s !! key) as [a|] eqn:E.
  - by apply (total_lookup_le a_entries _ key).
  - apply total_nonneg.
Qed.

Lemma total_delete_key s key id :
  total_by a_entries (delete key (sp_calls s)) id
  = spec_held_total s id - occ id (spec_entries s key).
Proof.
  unfold spec_entries, spec_held_total. destruct (sp_calls s !! key) as [a|] eqn:E.
  - rewrite (total_delete a_entries _ key a id E). lia.
  - rewrite delete_id by done. rewrite occ_nil. lia.
Qed.

Lemma spec_fence_total s key why u id :
  spec_held_total (spec_fence s key why u) id
  = spec_held_total s id - occ id (spec_entries s key).
Proof. unfold spec_held_total at 1. apply total_delete_key. Qed.

Lemma spec_hold_total s key es ch u id :
  spec_held_total (spec_hold s key es ch u) id
  = spec_held_total s id - occ id (spec_entries s key) + occ id es.
Proof.
  unfold spec_held_total at 1. simpl.
  rewrite <-insert_delete_eq, total_insert, total_delete_key by apply lookup_delete_eq.
  simpl. lia.
Qed.

Lemma spec_record_total s key ch u id :
  spec_held_total (spec_record s key ch u) id = spec_held_total s id.
Proof.
  unfold spec_held_total, spec_record. destruct (sp_calls s !! key) as [a|] eqn:E; simpl.
  - by apply (total_replace a_entries _ key a).
  - by destruct (sp_fences s !! key) as [[[|] ?]|].
Qed.

Lemma spec_sweep_total now s id : spec_held_total (spec_sweep now s) id <= spec_held_total s id.
Proof.
  unfold spec_held_total, spec_sweep, alive_sets. simpl.
  induction (sp_calls s) as [|k a m Hk IH] using map_ind; [done|].
  rewrite total_insert by done. destruct (decide (now < a_lease a)).
  - rewrite map_filter_insert_True, total_insert by (try apply filter_None; done). lia.
  - rewrite map_filter_insert_False, delete_id by done.
    pose proof (occ_nonneg id (a_entries a)). lia.
Qed.

(** Every entry of an admitted list fits. *)
Lemma find_none_fits s key es e :
  List.find (fun e => negb (spec_fits s key es e)) es = None -> e ∈ es ->
  spec_fits s key es e = true.
Proof.
  intros Hf He%list_elem_of_In. apply (List.find_none _ _ Hf), negb_false_iff in He. done.
Qed.

Lemma occ_pos_elem id es : 0 < occ id es -> exists e, e ∈ es /\ ae_id e = id.
Proof.
  unfold occ. destruct (filter _ es) as [|e l] eqn:E; simpl; [lia|]. intros _.
  assert (e ∈ filter (fun e => ae_id e = id) es) as He by (rewrite E; constructor).
  apply list_elem_of_filter in He as [? ?]. by exists e.
Qed.

(** After the check, a count is within a cap the list states for its id, or no
    higher than it was. *)
Lemma spec_replace_bound s key ch es ror u id :
  spec_held_total (spec_replace key ch es ror u s).2 id <= spec_held_total s id \/
  exists e, e ∈ es /\ ae_id e = id /\
    spec_held_total (spec_replace key ch es ror u s).2 id <= ae_limit e.
Proof.
  unfold spec_replace. pose proof (occ_nonneg id (spec_entries s key)).
  destruct (List.find _ es) eqn:Hf; simpl.
  - left. destruct ror; [rewrite spec_fence_total|rewrite spec_record_total]; lia.
  - destruct (decide (es = [])); [left; rewrite spec_fence_total; lia|].
    rewrite spec_hold_total.
    destruct (Z_le_gt_dec (occ id es) (occ id (spec_entries s key))); [left; lia|].
    right. destruct (occ_pos_elem id es) as (e & He & <-); [lia|].
    exists e. split_and!; [done..|].
    pose proof (find_none_fits _ _ _ _ Hf He) as Hfit. unfold spec_fits in Hfit.
    apply orb_true_iff in Hfit as [?|?]; zbool; lia.
Qed.

(** ** Capped runs *)

(** An operation whose admits state caps within [cap] and which re-creates no
    set from what a client carries. *)
Definition op_capped (cap : string -> Z) (op : StoreOp) : Prop :=
  match op with
  | OpAdmit _ _ held es _ => hs_entries held = [] /\ Forall (fun e => ae_limit e <= cap (ae_id e)) es
  | OpRefresh cs => Forall (fun c => c.2 = []) cs
  | OpRelease _ | OpSweep => True
  end.

Inductive capped_steps (cfg : LimiterConfig) (cap : string -> Z) (t : Z) (i : Inner)
    : Z -> Inner -> Prop :=
  | capped_refl : capped_steps cfg cap t i t i
  | capped_op t' i' now op :
      capped_steps cfg cap t i t' i' -> t' <= now -> in_i64 (now + lease_ms cfg) ->
      op_capped cap op -> capped_steps cfg cap t i now (run_op cfg now op i').

Definition within (cap : string -> Z) (s : Spec) : Prop :=
  forall id, spec_held_total s id <= cap id.

Lemma within_release cap u keys s :
  within cap s -> within cap (foldl (spec_release_one u) s keys).
Proof.
  revert s. induction keys as [|k keys IH]; intros s H; simpl; [done|].
  apply IH. intros id. unfold spec_release_one. destruct (spec_released s k); [apply H|].
  rewrite spec_fence_total. specialize (H id). pose proof (occ_nonneg id (spec_entries s k)). lia.
Qed.

Lemma within_refresh cap u cs s :
  Forall (fun c => c.2 = []) cs -> within cap s -> within cap (spec_refresh_each u cs s).2.
Proof.
  intros Hcs. revert s. induction Hcs as [|[[k ch] es] cs Hc Hcs IH]; intros s H; simpl; [done|].
  simpl in Hc. subst es.
  assert (within cap (spec_refresh s k ch [] u).2) as H'.
  { unfold spec_refresh. destruct (sp_calls s !! k) as [a|] eqn:E; simpl.
    - intros id. unfold spec_held_total. simpl. rewrite (total_replace a_entries _ k a) by done.
      apply H.
    - by destruct (sp_fences s !! k) as [[[|] ?]|]. }
  destruct (spec_refresh s k ch [] u) as [r s']. simpl in *.
  specialize (IH s' H'). by destruct (spec_refresh_each u cs s').
Qed.

Lemma within_op cap now u op s :
  op_capped cap op -> within cap s -> within cap (spec_op now u op s).
Proof.
  intros Hop H. assert (within cap (spec_sweep now s)) as H1.
  { intros id. pose proof (spec_sweep_total now s id). specialize (H id). lia. }
  destruct op as [key ch held es ror|keys|cs|]; simpl in *; [| | |done].
  - destruct Hop as [Hheld Hes]. unfold spec_admit.
    destruct (spec_released _ _); [done|]. destruct (spec_superseded _ _ _); [done|].
    unfold spec_reregisters. rewrite Hheld. simpl. intros id.
    destruct (spec_replace_bound (spec_sweep now s) key ch es ror u id)
      as [Hle|(e & He & <- & Hle)].
    + specialize (H1 id). lia.
    + rewrite Forall_forall in Hes. specialize (Hes e He). lia.
  - by apply within_release.
  - by apply within_refresh.
Qed.

(** ** Properties *)

(** C1: in every store a run of operations reaches, whatever was admitted,
    refused, released, refreshed or lapsed, the live count of an id is exactly
    the number of slots of it the calls' sets hold, and an id nobody holds has
    no entry. *)
Theorem limiter_counts_exact cfg t i :
  reachable cfg t i ->
  forall id, counts i !! id =
    (if total_by entries (calls i) id =? 0 then None else Some (total_by entries (calls i) id)).
Proof.
  intros Hr%reachable_wf id. destruct (wf_counts _ _ Hr) as [Hp Hc].
  specialize (Hc id). unfold cnt in Hc. rewrite <-Hc.
  destruct (counts i !! id) as [n|] eqn:E; simpl; [|done].
  apply Hp in E. destruct (Z.eqb_spec n 0); [lia|done].
Qed.

(** A concrete configuration and run for the witnesses: two limiter ids, a
    lease of 120 s. *)
Definition cfg120 : LimiterConfig := mkCfg 120.
Definition trunk (cap : Z) : AdmitEntry := mkEntry "trunk" cap.
Definition one_call : Inner := run_op cfg120 1000 (OpAdmit "k" 1 HeldSet_default [trunk 2] false) new.

Lemma one_call_reachable : reachable cfg120 1000 one_call.
Proof.
  exists 0. apply (steps_op cfg120 0 new 0 new 1000); [constructor|lia|].
  vm_compute. split; discriminate.
Qed.

Lemma limiter_counts_exact_witness :
  counts one_call !! "trunk" = Some 1.
Proof. exact (limiter_counts_exact cfg120 1000 one_call one_call_reachable "trunk"). Defined.

(** C2: [admit_carrying] implements the abstract admit on every branch: it
    answers what the specification answers (released, superseded, rejected
    naming the first id at its cap, admitted), leaves the abstract store the
    specification leaves, and keeps the representation invariant. *)
Theorem limiter_admit_refines cfg now b i key ch held es ror :
  store_wf b i -> b <= now + lease_ms cfg -> in_i64 (now + lease_ms cfg) ->
  let r := admit_carrying cfg now key ch held es ror i in
  let r' := spec_admit now key ch held es ror (now + lease_ms cfg) (abs i) in
  r.1 = r'.1 /\ abs r.2 = r'.2 /\ store_wf (now + lease_ms cfg) r.2.
Proof.
  intros Hwf Hb Hok.
  destruct (admit_carrying_refines cfg now _ (i64_add_exact _ _ Hok) b i (abs i)
    key ch held es ror) as [H1 [H2 H3]]; [done..|]. done.
Qed.

Lemma limiter_admit_refines_witness :
  (admit_carrying cfg120 2000 "k2" 1 HeldSet_default [trunk 1] false one_call).1
    = Rejected "trunk" (mkHeld 1 []).
Proof.
  destruct (limiter_admit_refines cfg120 2000 121000 one_call "k2" 1 HeldSet_default [trunk 1] false)
    as [H _].
  - apply (reachable_wf cfg120 1000), one_call_reachable.
  - vm_compute. discriminate.
  - vm_compute. split; discriminate.
  - rewrite H. vm_compute. reflexivity.
Defined.

(** [refresh_all] implements the abstract refresh of each call in order
    (extend, re-create from what the refresh carries, or refuse naming the
    fence) and keeps the representation invariant. *)
Theorem limiter_refresh_refines cfg now b i cs :
  store_wf b i -> b <= now + lease_ms cfg -> in_i64 (now + lease_ms cfg) ->
  let r := refresh_all cfg now cs i in
  let r' := spec_refresh_each (now + lease_ms cfg) cs (spec_sweep now (abs i)) in
  r.1 = r'.1 /\ abs r.2 = r'.2 /\ store_wf (now + lease_ms cfg) r.2.
Proof.
  intros Hwf Hb Hok.
  destruct (refresh_all_refines_lemma cfg now _ (i64_add_exact _ _ Hok) b i (abs i) cs)
    as [H1 [H2 H3]]; [done..|]. done.
Qed.

Lemma limiter_refresh_refines_witness :
  (refresh_all cfg120 2000 [("k", 1, [trunk 2]); ("lost", 3, [trunk 2])] one_call).1
    = [mkRefreshed Extended (Some (mkHeld 1 [trunk 2]));
       mkRefreshed Reregistered (Some (mkHeld 3 [trunk 2]))].
Proof.
  destruct (limiter_refresh_refines cfg120 2000 121000 one_call
    [("k", 1, [trunk 2]); ("lost", 3, [trunk 2])]) as [H _].
  - apply (reachable_wf cfg120 1000), one_call_reachable.
  - vm_compute. discriminate.
  - vm_compute. split; discriminate.
  - rewrite H. vm_compute. reflexivity.
Defined.

(** C4: as long as every admit states caps within [cap] and nothing is
    re-created from what a client carries, no run of admits, releases,
    refreshes and lapses ever holds more than [cap id] slots of any id. *)
Theorem limiter_caps_hold cfg cap t0 t i :
  (forall id, 0 <= cap id) -> capped_steps cfg cap t0 new t i ->
  forall id, default 0 (counts i !! id) <= cap id.
Proof.
  intros Hcap Hs. enough (refines (t + lease_ms cfg) i (abs i) /\ within cap (abs i)) as [R H].
  { intros id. rewrite (refines_count _ _ _ R). apply H. }
  induction Hs as [|t1 i1 now op Hs [R1 H1] Hle Hok Hop].
  - split; [split; [apply store_wf_new|done]|]. intros id.
    unfold spec_held_total, abs. simpl. by rewrite fmap_empty, total_empty.
  - destruct (run_op_refines cfg (t1 + lease_ms cfg) now op i1 (abs i1)) as [Hwf Habs];
      [done|lia|done|]. split; [by split|]. rewrite Habs. by apply within_op.
Qed.

Lemma limiter_caps_hold_witness :
  default 0 (counts (run_op cfg120 1000 (OpAdmit "k" 1 HeldSet_default [trunk 2; trunk 2] true) new)
    !! "trunk") <= 2.
Proof.
  apply (limiter_caps_hold cfg120 (fun _ => 2) 0 1000); [lia|].
  apply (capped_op _ _ 0 new 0 new 1000); [constructor|lia|vm_compute; split; discriminate|].
  split; [reflexivity|]. repeat constructor; simpl; lia.
Defined.

(** An admit that carries no held set moves a count only within a cap it
    states: after it, each id's count is at most what it was once the lapsed
    sets were dropped, or at most a cap the admit states for that id. *)
Theorem limiter_admit_bounded cfg now b i key ch es ror id :
  store_wf b i -> b <= now + lease_ms cfg -> in_i64 (now + lease_ms cfg) ->
  let i' := (store_admit cfg now key ch es ror i).2 in
  default 0 (counts i' !! id) <= default 0 (counts (sweep now i) !! id) \/
  exists e, e ∈ es /\ ae_id e = id /\ default 0 (counts i' !! id) <= ae_limit e.
Proof.
  intros Hwf Hb Hok. unfold store_admit.
  destruct (admit_carrying_refines cfg now _ (i64_add_exact _ _ Hok) b i (abs i)
    key ch HeldSet_default es ror) as [_ R]; [done..|]. simpl.
  rewrite (refines_count _ _ _ R).
  rewrite (refines_count b _ (spec_sweep now (abs i))) by (by apply sweep_refines).
  unfold spec_admit. destruct (spec_released _ _); [by left|].
  destruct (spec_superseded _ _ _); [by left|]. apply spec_replace_bound.
Qed.

Lemma limiter_admit_bounded_witness :
  let i' := (store_admit cfg120 2000 "k2" 1 [trunk 2] false one_call).2 in
  default 0 (counts i' !! "trunk") <= default 0 (counts (sweep 2000 one_call) !! "trunk") \/
  exists e, e ∈ [trunk 2] /\ ae_id e = "trunk" /\ default 0 (counts i' !! "trunk") <= ae_limit e.
Proof.
  apply (limiter_admit_bounded cfg120 2000 121000).
  - apply (reachable_wf cfg120 1000), one_call_reachable.
  - vm_compute. discriminate.
  - vm_compute. split; discriminate.
Defined.

Lemma refines_entries_lookup b i s key :
  refines b i s -> (entries <$> calls i !! key) = a_entries <$> sp_calls s !! key.
Proof. intros R. rewrite (refines_call _ _ _ R). by destruct (calls i !! key). Qed.

(** A refused admit is all or none: without [release_on_refusal] every
    key keeps the entries it held and every count stays, lapsed sets aside;
    with it the key's own set goes whole and no other key's does. *)
Theorem limiter_refusal_all_or_none cfg now b i i' key ch es ror lid hs :
  store_wf b i -> b <= now + lease_ms cfg -> in_i64 (now + lease_ms cfg) ->
  store_admit cfg now key ch es ror i = (Rejected lid hs, i') ->
  (forall k, (entries <$> calls i' !! k) =
     if ror && bool_decide (k = key) then None else entries <$> calls (sweep now i) !! k) /\
  (ror = false -> forall id, counts i' !! id = counts (sweep now i) !! id).
Proof.
  intros Hwf Hb Hok Had.
  pose proof (sweep_refines b now i (abs i) (conj Hwf eq_refl)) as Rs.
  destruct (admit_carrying_refines cfg now _ (i64_add_exact _ _ Hok) b i (abs i)
    key ch HeldSet_default es ror) as [H1 R]; [done..|].
  unfold store_admit in Had. rewrite Had in H1, R. simpl in H1, R. clear Had.
  unfold spec_admit in *. destruct (spec_released _ _); [done|].
  destruct (spec_superseded _ _ _); [done|]. simpl in *. unfold spec_replace in *.
  destruct (List.find _ _) eqn:Hf; simpl in *; [|done]. split.
  - intros k. rewrite (refines_entries_lookup _ _ _ _ R), (refines_entries_lookup _ _ _ _ Rs).
    destruct ror; simpl.
    + case_bool_decide; by simplify_map_eq.
    + unfold spec_record. destruct (sp_calls (spec_sweep now (abs i)) !! key) as [st|] eqn:E;
        simpl in *; rewrite ?E; simpl.
      * by_key key k; done.
      * by destruct (filter _ (fences i) !! key) as [[[|] ?]|].
  - intros -> id. pose proof (refines_count _ _ _ R id) as C1.
    pose proof (refines_count _ _ _ Rs id) as C2. rewrite spec_record_total, <-C2 in C1.
    destruct R as [[_ [P1 _] _ _ _ _] _], Rs as [[_ [P2 _] _ _ _ _] _].
    destruct (counts i' !! id) eqn:E1, (counts (sweep now i) !! id) eqn:E2; simpl in C1;
      try apply P1 in E1; try apply P2 in E2; (congruence || lia).
Qed.

Lemma limiter_refusal_all_or_none_witness :
  let i' := (store_admit cfg120 2000 "k2" 1 [trunk 1] false one_call).2 in
  counts i' !! "trunk" = counts (sweep 2000 one_call) !! "trunk".
Proof.
  refine (proj2 (limiter_refusal_all_or_none cfg120 2000 121000 one_call
    (store_admit cfg120 2000 "k2" 1 [trunk 1] false one_call).2 "k2" 1 [trunk 1] false "trunk"
    (mkHeld 1 []) _ _ _ _) eq_refl "trunk").
  - apply (reachable_wf cfg120 1000), one_call_reachable.
  - vm_compute. discriminate.
  - vm_compute. split; discriminate.
  - vm_compute. reflexivity.
Defined.

(** ** Release fences *)

Lemma spec_release_fenced key keys u s :
  key ∈ keys -> spec_released s key = false ->
  fenced_until key u (foldl (spec_release_one u) s keys).
Proof.
  revert s. induction keys as [|k keys IH]; intros s Hin Hr; [by apply elem_of_nil in Hin|].
  simpl. destruct (decide (k = key)) as [->|Hne].
  - apply (spec_release_keys_inv (fun v => v.1.1 = None /\ v.1.2 = Some (FReleased, u))).
    + intros s' H'. unfold spec_release_one.
      by rewrite (fenced_released key u s') by exact H'.
    + unfold spec_release_one. rewrite Hr. unfold view. simpl.
      by rewrite lookup_delete_eq, lookup_insert_eq.
  - apply IH; [by apply elem_of_cons in Hin as [->|]|].
    unfold spec_release_one. destruct (spec_released s k) eqn:E; [done|].
    unfold spec_released in *. simpl. by rewrite lookup_insert_ne.
Qed.

(** C7: a released call stays gone for one lease: from the release on, through
    any operations of any clients at times before the fence lapses, an admit
    of the key is refused as released, a refresh of it re-creates nothing
    whatever it carries, and the store holds no set for it. *)
Theorem limiter_release_fences cfg t0 t t' now i i' keys key ch held es ror :
  reachable cfg t0 i -> t0 <= t -> in_i64 (t + lease_ms cfg) ->
  key ∈ keys -> is_released (sweep t i) key = false ->
  steps cfg t (release cfg t keys i) t' i' -> t' <= now -> now < t + lease_ms cfg ->
  in_i64 (now + lease_ms cfg) ->
  (admit_carrying cfg now key ch held es ror i').1 = AReleased /\
  (refresh cfg now key ch es i').1 = Some (mkRefreshed RReleased None) /\
  calls i' !! key = None.
Proof.
  intros Hr%reachable_wf Hle Hok Hin Hrel Hs Hle' Hlt Hok'.
  pose proof (release_refines_lemma cfg t _ (i64_add_exact _ _ Hok) (t0 + lease_ms cfg) i (abs i)
    keys (conj Hr eq_refl) ltac:(lia)) as [Hwf Habs].
  rewrite (refines_released _ _ _ (sweep_refines _ t _ _ (conj Hr eq_refl))) in Hrel.
  apply (spec_release_fenced _ keys (t + lease_ms cfg) _ Hin) in Hrel.
  apply (steps_invariant cfg (fun t1 s => t1 <= now -> fenced_until key (t + lease_ms cfg) s))
    in Hs as [Hwf' Hf]; [|done|by rewrite Habs|].
  2: { intros t1 now1 op s H1 H2 H3 H4. apply fenced_op; [lia|]. apply H3. lia. }
  specialize (Hf Hle'). pose proof (fenced_sweep _ _ _ _ Hlt Hf) as Hf2.
  assert (refines (t' + lease_ms cfg) i' (abs i')) as R by done.
  split_and!.
  - destruct (admit_carrying_refines cfg now _ (i64_add_exact _ _ Hok') _ i' (abs i')
      key ch held es ror R ltac:(lia)) as [-> _].
    unfold spec_admit. by rewrite (fenced_released _ _ _ Hf2).
  - unfold refresh. destruct (refresh_all_refines_lemma cfg now _ (i64_add_exact _ _ Hok') _ i'
      (abs i') [(key, ch, es)] R ltac:(lia)) as [Hrf _].
    destruct (refresh_all cfg now [(key, ch, es)] i') as [rs i2]. simpl in *.
    unfold spec_refresh, spec_reregisters in Hrf. destruct Hf2 as [E1 E2].
    rewrite E1, E2 in Hrf. simpl in Hrf. rewrite andb_false_r in Hrf. by simplify_eq/=.
  - destruct Hf as [Hf _]. simpl in Hf. rewrite lookup_fmap in Hf.
    by destruct (calls i' !! key).
Qed.

Lemma limiter_release_fences_witness :
  (admit_carrying cfg120 120999 "k" 9 HeldSet_default [trunk 2] false
     (release cfg120 1000 ["k"] one_call)).1 = AReleased.
Proof.
  refine (proj1 (limiter_release_fences cfg120 1000 1000 1000 120999 one_call
    (release cfg120 1000 ["k"] one_call) ["k"] "k" 9 HeldSet_default [trunk 2] false
    one_call_reachable _ _ _ _ _ _ _ _)).
  - lia.
  - vm_compute. split; discriminate.
  - constructor.
  - vm_compute. reflexivity.
  - constructor.
  - lia.
  - vm_compute. reflexivity.
  - vm_compute. split; discriminate.
Defined.

(** Change numbers order the admits of a key: across any operation the
    number the store knows for a key never falls (a release apart), and an
    admit not above the known number changes nothing and is answered
    superseded or released, never admitted or rejected. *)
Theorem limiter_change_order cfg t now i op key c ch held es ror :
  reachable cfg t i -> t <= now -> in_i64 (now + lease_ms cfg) ->
  known_change (sweep now i) key = Some c ->
  let i' := run_op cfg now op i in
  (is_released i' key = true \/ exists c', known_change i' key = Some c' /\ c <= c') /\
  (ch <= c ->
   let r := admit_carrying cfg now key ch held es ror i in
   (r.1 = AReleased \/ r.1 = Superseded (held_set (sweep now i) key)) /\
   abs r.2 = abs (sweep now i)).
Proof.
  intros Hr%reachable_wf Hle Hok Hk. assert (refines (t + lease_ms cfg) i (abs i)) as R by done.
  pose proof (sweep_refines _ now _ _ R) as Rs.
  rewrite (refines_known _ _ _ Rs) in Hk. split.
  - destruct (run_op_refines cfg (t + lease_ms cfg) now op i (abs i)) as [Hwf Habs];
      [done|lia|done|]. assert (refines (now + lease_ms cfg) (run_op cfg now op i)
        (spec_op now (now + lease_ms cfg) op (abs i))) as R' by done.
    rewrite (refines_released _ _ _ R'), (refines_known _ _ _ R').
    apply (known_op key c). right. by exists c.
  - intros Hch. cbv zeta.
    destruct (admit_carrying_refines cfg now _ (i64_add_exact _ _ Hok) _ i (abs i)
      key ch held es ror R ltac:(lia)) as [-> [_ ->]].
    rewrite (refines_held_set _ _ _ Rs), (proj2 Rs). unfold spec_admit.
    destruct (spec_released _ _); simpl; [by split; [left|]|].
    unfold spec_superseded. rewrite Hk. apply Z.leb_le in Hch. rewrite Hch. by split; [right|].
Qed.

Lemma limiter_change_order_witness :
  abs (admit_carrying cfg120 2000 "k" 1 HeldSet_default [] false one_call).2
    = abs (sweep 2000 one_call).
Proof.
  refine (proj2 (proj2 (limiter_change_order cfg120 1000 2000 one_call OpSweep "k" 1 1
    HeldSet_default [] false one_call_reachable _ _ eq_refl) _)).
  - lia.
  - vm_compute. split; discriminate.
  - lia.
Defined.

(** A sweep ends with every deadline loop at its exit condition, drops
    exactly the sets whose lease and the fences and markers whose instant
    lapsed, and a second sweep at the same instant changes nothing. *)
Theorem limiter_sweep_exact b now i :
  store_wf b i ->
  none_due now (sweep now i) /\
  (forall k s, (exists p, calls (sweep now i) !! k =
       Some (mkSet (entries s) (change s) (lease_expires_at_ms s) p)) <->
     (exists p, calls i !! k = Some (mkSet (entries s) (change s) (lease_expires_at_ms s) p)) /\
     now < lease_expires_at_ms s) /\
  (forall k x, fences (sweep now i) !! k = Some x <-> fences i !! k = Some x /\ now < x.2) /\
  (forall k x, markers (sweep now i) !! k = Some x <-> markers i !! k = Some x /\ now < x.2) /\
  sweep now (sweep now i) = sweep now i.
Proof.
  intros Hwf. destruct (sweep_wf b now i Hwf) as (_ & E1 & E2 & E3 & Hn).
  split_and!; [done| | | |by apply sweep_none_due].
  - intros k s.
    assert (forall m : gmap string CallSet,
      (exists p, m !! k = Some (mkSet (entries s) (change s) (lease_expires_at_ms s) p)) <->
      (abs_set <$> m) !! k = Some (abs_set s)) as Hlook.
    { intros m. rewrite lookup_fmap, fmap_Some. split.
      - intros [p Hp]. by eexists.
      - intros ([e c l p] & Hp & [= -> -> ->]). by exists p. }
    rewrite !Hlook, E1. unfold alive_sets. by rewrite map_lookup_filter_Some.
  - intros k x. rewrite E2. by rewrite map_lookup_filter_Some.
  - intros k x. rewrite E3. by rewrite map_lookup_filter_Some.
Qed.

Lemma limiter_sweep_exact_witness :
  sweep 121000 (sweep 121000 one_call) = sweep 121000 one_call.
Proof.
  refine (proj2 (proj2 (proj2 (proj2 (limiter_sweep_exact 121000 121000 one_call _))))).
  apply (reachable_wf cfg120 1000), one_call_reachable.
Defined.

(** ** Batched refreshes *)

(** The calls of a batch refreshed one by one at the same instant. *)
Fixpoint refresh_one_by_one (cfg : LimiterConfig) (now : Z)
    (cs : list (string * Z * list AdmitEntry)) (i : Inner) : list (option Refreshed) * Inner :=
  match cs with
  | [] => ([], i)
  | (key, ch, es) :: cs =>
      let '(r, i) := refresh cfg now key ch es i in
      let '(rs, i) := refresh_one_by_one cfg now cs i in (r :: rs, i)
  end.

Lemma insert_set_none_due now i key es ch until :
  now < until -> none_due now i -> none_due now (insert_set i key es ch until).
Proof.
  intros Hu Hn x [Hx|Hx]; simpl in Hx; [|by apply Hn; right].
  apply elem_of_heap_push in Hx as [->|Hx]; [done|]. apply Hn. by left.
Qed.

Lemma refresh_call_none_due now i key ch es until :
  now < until -> none_due now i -> none_due now (refresh_call i key ch es until).2.
Proof.
  intros Hu Hn. unfold refresh_call. destruct (calls i !! key); [done|].
  destruct (reregisters i key es); simpl.
  - apply (insert_set_none_due now (set_markers _ i)); done.
  - by destruct (fences i !! key) as [[[|] ?]|].
Qed.

Lemma refresh_one_by_one_none_due cfg now cs i :
  now < i64_add now (lease_ms cfg) -> none_due now i ->
  refresh_one_by_one cfg now cs i =
    (Some <$> (refresh_each (i64_add now (lease_ms cfg)) cs i).1,
     (refresh_each (i64_add now (lease_ms cfg)) cs i).2).
Proof.
  intros Hu. revert i. induction cs as [|[[key ch] es] cs IH]; intros i Hn; [done|].
  simpl. unfold refresh, refresh_all. rewrite sweep_none_due by done. simpl.
  pose proof (refresh_call_none_due now i key ch es _ Hu Hn) as Hn'.
  destruct (refresh_call i key ch es (i64_add now (lease_ms cfg))) as [r i'] eqn:E. simpl in *.
  rewrite (IH i' Hn').
  by destruct (refresh_each (i64_add now (lease_ms cfg)) cs i').
Qed.

(** A batched refresh answers each call exactly what its own refresh at
    that instant would answer, one outcome per call in order, and leaves the
    same store. *)
Theorem limiter_refresh_batch cfg now b i c cs :
  store_wf b i -> now < i64_add now (lease_ms cfg) ->
  refresh_one_by_one cfg now (c :: cs) i =
    (Some <$> (refresh_all cfg now (c :: cs) i).1, (refresh_all cfg now (c :: cs) i).2).
Proof.
  intros Hwf Hu. destruct (sweep_wf b now i Hwf) as (_ & _ & _ & _ & Hn).
  unfold refresh_all. rewrite <-refresh_one_by_one_none_due by done.
  destruct c as [[key ch] es]. simpl. unfold refresh, refresh_all.
  by rewrite (sweep_none_due now (sweep now i) Hn).
Qed.

Lemma limiter_refresh_batch_witness :
  (refresh_one_by_one cfg120 2000 [("k", 1, [trunk 2]); ("lost", 3, [trunk 2])] one_call).1
  = [Some (mkRefreshed Extended (Some (mkHeld 1 [trunk 2])));
     Some (mkRefreshed Reregistered (Some (mkHeld 3 [trunk 2])))].
Proof.
  rewrite (limiter_refresh_batch cfg120 2000 121000).
  - vm_compute. reflexivity.
  - apply (reachable_wf cfg120 1000), one_call_reachable.
  - vm_compute. reflexivity.
Defined.

(** The number a refused admit leaves on a drop fence lapses with that
    fence, not one lease after the refusal: a call's set is dropped (change
    1), one millisecond before that fence lapses an admit numbered 5 is
    answered (refused at its cap), and one millisecond later an admit numbered
    4 is admitted over it. *)
Theorem limiter_refused_number_lapses_with_fence :
  let i1 := (store_admit cfg120 0 "k" 1 [] false new).2 in
  let r2 := store_admit cfg120 119999 "k" 5 [trunk 0] false i1 in
  r2.1 = Rejected "trunk" (mkHeld 5 []) /\
  (store_admit cfg120 120000 "k" 4 [trunk 1] false r2.2).1 = AAdmitted.
Proof. vm_compute. done. Qed.
