(* ===== verification/LimiterClient.v ===== *)
(** * The worker's side of the call limiter

    [crates/b2bua/src/limiter/]: the lease as the worker last learnt it
    ([lease.rs]), the queue of releases ([release_queue.rs]), the batch of
    refreshes ([refresh_batch.rs]) and the breaker's policy on both
    ([breaker.rs]); and a call's own admission state
    ([crates/call/src/model/limiter.rs], [limiter/admit.rs]).  Each method that
    takes a lock is one function; the sender of the queue and the one of the
    batch are the steps between their awaits.  Instants and durations are
    nanoseconds.  What a method counts as given up or answered, it returns with
    the key. *)

From S2P Require Import Prelude Limiter.

Open Scope Z_scope.

Definition MILLI : Z := 1000000.
Definition SECOND : Z := 1000 * MILLI.

(** ** The lease ([lease.rs]) *)

Definition DEFAULT_LEASE : Z := 120 * SECOND.
Definition MAX_LEASE : Z := 86400 * SECOND.
Definition PERIODS_PER_LEASE : Z := 3.
Definition TICKS_PER_LEASE : Z := 2 * PERIODS_PER_LEASE.
Definition MIN_TICK : Z := MILLI.
Record RefreshPace := mkPace { period : Z; tick : Z }.
Record LimiterLease := mkLease {
  current : Z; learnt : bool; pace : option RefreshPace; lease_too_short : Z; refresh_period_clamped : Z }.
Definition lease_of_config (refresh_sec batch_ms : Z) : LimiterLease :=
  mkLease (Z.min DEFAULT_LEASE MAX_LEASE) false (Some (mkPace (Z.max 1 refresh_sec * SECOND) (batch_ms * MILLI))) 0 0.
Definition refresh_period (pace : option RefreshPace) (lease : Z) : Z :=
  let third := lease / PERIODS_PER_LEASE in
  match pace with Some p => Z.min (period p) third | None => third end.
Definition refresh_tick (configured lease : Z) : Z := Z.max (Z.min configured (lease / TICKS_PER_LEASE)) MIN_TICK.
Definition check_lease (lease : Z) (l : LimiterLease) : LimiterLease :=
  match pace l with
  | None => l
  | Some p =>
      mkLease (current l) (learnt l) (pace l)
        (if lease <=? period p + tick p then u64_add (lease_too_short l) 1 else lease_too_short l)
        (if lease / PERIODS_PER_LEASE <? period p then u64_add (refresh_period_clamped l) 1 else refresh_period_clamped l)
  end.
Definition learn (lease : Z) (l : LimiterLease) : LimiterLease :=
  let lease := Z.min lease MAX_LEASE in
  let first := negb (learnt l) in
  let changed := negb (current l =? lease) in
  let l := mkLease lease true (pace l) (lease_too_short l) (refresh_period_clamped l) in
  if first || changed then check_lease lease l else l.

(** ** The release queue ([release_queue.rs]) *)

Definition MAX_BATCH : nat := 1000.
Definition BACKOFF_INITIAL : Z := 200 * MILLI.
Definition BACKOFF_MAX : Z := 5 * SECOND.
Inductive ReleaseAnswer := AnsReleased | AnsUnavailable.
Inductive ReleaseGiveUp := GuCap | GuLease | GuShutdown.
Record RelEntry := mkRel { rl_key : string; queued_at : Z }.
Record Waiting := mkWaiting {
  w_entries : list (Z * RelEntry); w_by_key : gmap string Z; w_next_seq : Z; w_failures : Z;
  w_retry_at : option Z; w_held : bool; w_stopped : bool; w_sending : bool }.
Definition Waiting_eta (w : Waiting) : Waiting :=
  mkWaiting (w_entries w) (w_by_key w) (w_next_seq w) (w_failures w) (w_retry_at w) (w_held w) (w_stopped w) (w_sending w).
#[global] Instance set_w_entries : Setter w_entries := ltac:(setter Waiting_eta).
#[global] Instance set_w_by_key : Setter w_by_key := ltac:(setter Waiting_eta).
#[global] Instance set_w_next_seq : Setter w_next_seq := ltac:(setter Waiting_eta).
#[global] Instance set_w_failures : Setter w_failures := ltac:(setter Waiting_eta).
#[global] Instance set_w_retry_at : Setter w_retry_at := ltac:(setter Waiting_eta).
#[global] Instance set_w_held : Setter w_held := ltac:(setter Waiting_eta).
#[global] Instance set_w_stopped : Setter w_stopped := ltac:(setter Waiting_eta).
#[global] Instance set_w_sending : Setter w_sending := ltac:(setter Waiting_eta).
Definition waiting_new : Waiting := mkWaiting [] ∅ 0 0 None false false false.

Definition backoff (failures : Z) : Z := Z.min (BACKOFF_INITIAL * 2 ^ Z.min (Z.max 0 (failures - 1)) 16) BACKOFF_MAX.
Definition rq_back_off (now : Z) (w : Waiting) : Waiting :=
  let f := Z.min u32_MAX (w_failures w + 1) in
  w <| w_failures := f |> <| w_retry_at := Some (now + backoff f) |>.
(** The loop of [expire]: the keys given up, the entries and the keys left. *)
Fixpoint expire_loop (lease now : Z) (es : list (Z * RelEntry)) (bk : gmap string Z) : list string * list (Z * RelEntry) * gmap string Z :=
  match es with
  | [] => ([], [], bk)
  | (_, e) :: rest =>
      if now <? queued_at e + lease then ([], es, bk)
      else let '(gone, es, bk) := expire_loop lease now rest (delete (rl_key e) bk) in (rl_key e :: gone, es, bk)
  end.
Definition rq_expire (lease now : Z) (w : Waiting) : list (ReleaseGiveUp * string) * Waiting :=
  let '(gone, es, bk) := expire_loop lease now (w_entries w) (w_by_key w) in
  (map (pair GuLease) gone, w <| w_entries := es |> <| w_by_key := bk |>).
(** The loop of [push] that makes room. *)
Fixpoint room_loop (cap : nat) (es : list (Z * RelEntry)) (bk : gmap string Z) : list string * list (Z * RelEntry) * gmap string Z :=
  match es with
  | [] => ([], [], bk)
  | (_, oldest) :: rest =>
      if (length es <? cap)%nat then ([], es, bk)
      else let '(gone, es, bk) := room_loop cap rest (delete (rl_key oldest) bk) in (rl_key oldest :: gone, es, bk)
  end.
(** [push], after its hook: what was given up, whether the key was queued. *)
Definition rq_push (lease : Z) (cap : nat) (key : string) (now : Z) (w : Waiting) : list (ReleaseGiveUp * string) * bool * Waiting :=
  let '(expired, w) := rq_expire lease now w in
  if bool_decide (is_Some (w_by_key w !! key)) then (expired, false, w)
  else
    let '(gone, es, bk) := room_loop cap (w_entries w) (w_by_key w) in
    let seq := w_next_seq w in
    (expired ++ map (pair GuCap) gone, true,
     w <| w_next_seq := u64_add seq 1 |> <| w_entries := bt_insert seq (mkRel key now) es |> <| w_by_key := <[key := seq]> bk |>).
Definition waiting_keys (w : Waiting) : list string := map (fun p => rl_key p.2) (w_entries w).
Definition unsent (w : Waiting) : nat := if w_stopped w then 0 else length (w_entries w).
Definition rq_hold (w : Waiting) : Waiting := w <| w_held := true |>.
Definition rq_resume (w : Waiting) : Waiting := w <| w_held := false |> <| w_failures := 0 |> <| w_retry_at := None |>.
Definition rq_stop (w : Waiting) : Waiting := w <| w_stopped := true |>.
Definition give_up_all (w : Waiting) : list (ReleaseGiveUp * string) * Waiting :=
  (map (pair GuShutdown) (waiting_keys w), w <| w_entries := [] |> <| w_by_key := ∅ |>).
(** [flush] up to its wait; [None]: the queue is stopped. *)
Definition flush_begin (w : Waiting) : option (nat * Waiting) :=
  if w_stopped w then None else Some (length (w_entries w), w <| w_failures := 0 |> <| w_retry_at := None |>).
Inductive FlushLook := FlushStopped | FlushHeld | FlushEmpty | FlushWaits.
Definition flush_look (w : Waiting) : FlushLook :=
  let empty := match w_entries w with [] => true | _ => false end in
  if w_stopped w then FlushStopped else if w_held w && negb empty then FlushHeld else if empty then FlushEmpty else FlushWaits.
Inductive Step := Send (seqs : list Z) (keys : list string) | Wait (until : option Z).
Definition rq_step (lease now : Z) (w : Waiting) : list (ReleaseGiveUp * string) * Step * Waiting :=
  let '(expired, w) := rq_expire lease now w in
  match w_entries w with
  | [] => (expired, Wait None, w)
  | (_, e) :: _ =>
      let oldest := queued_at e + lease in
      if w_held w then (expired, Wait (Some oldest), w)
      else match w_retry_at w with
           | Some at_ => if now <? at_ then (expired, Wait (Some (Z.min at_ oldest)), w)
                         else let batch := take MAX_BATCH (w_entries w) in
                              (expired, Send (map fst batch) (map (fun p => rl_key p.2) batch), w <| w_sending := true |>)
           | None => let batch := take MAX_BATCH (w_entries w) in
                     (expired, Send (map fst batch) (map (fun p => rl_key p.2) batch), w <| w_sending := true |>)
           end
  end.
(** One number of [settle]'s loop: the keys answered so far. *)
Definition settle_one (acc : list string * Waiting) (seq : Z) : list string * Waiting :=
  let '(answered, w) := acc in
  match bt_get seq (w_entries w) with
  | Some e => (answered ++ [rl_key e], w <| w_entries ::= bt_remove seq |> <| w_by_key ::= delete (rl_key e) |>)
  | None => (answered, w)
  end.
Definition rq_settle (seqs : list Z) (outcome : ReleaseAnswer) (now : Z) (w : Waiting) : list string * Waiting :=
  let w := w <| w_sending := false |> in
  match outcome with
  | AnsReleased =>
      let '(answered, w) := foldl settle_one ([], w) seqs in
      (answered, w <| w_failures := 0 |> <| w_retry_at := None |>)
  | AnsUnavailable => ([], rq_back_off now w)
  end.
(** The drainer panicked ([run]). *)
Definition rq_panicked (now : Z) (w : Waiting) : Waiting := rq_back_off now (w <| w_sending := false |>).

(** ** The refresh batch ([refresh_batch.rs]) *)

#[global] Instance HeldSet_eq_dec : EqDecision HeldSet.
Proof. solve_decision. Defined.
Inductive RefreshGiveUp := RgLease | RgCap | RgReleased.
Record RefreshCall := mkRefreshCall { rc_key : string; rc_held : HeldSet }.
Record RefreshAnswered := mkAnswered { an_call_ref : string; an_key : string; an_outcome : RefreshResult; an_held : option HeldSet }.
Record RefEntry := mkRef { re_call_ref : string; re_held : HeldSet; re_seq : Z; first_marked_at : Z }.
Definition place (e : RefEntry) : Z * Z := (first_marked_at e, re_seq e).
(** [Due::order], a [BTreeMap] by place. *)
Definition place_ltb (a b : Z * Z) : bool := (a.1 <? b.1) || ((a.1 =? b.1) && (a.2 <? b.2)).
Fixpoint order_insert (p : Z * Z) (k : string) (o : list (Z * Z * string)) : list (Z * Z * string) :=
  match o with
  | [] => [(p, k)]
  | (q, k') :: o' => if place_ltb p q then (p, k) :: o else if bool_decide (p = q) then (p, k) :: o' else (q, k') :: order_insert p k o'
  end.
Definition order_remove (p : Z * Z) (o : list (Z * Z * string)) : list (Z * Z * string) := filter (fun q => q.1 <> p) o.
Record Due := mkDue {
  d_by_key : gmap string RefEntry; d_order : list (Z * Z * string); d_next_seq : Z; d_in_flight : gmap string RefEntry;
  d_held : bool; d_send_now : bool; d_failures : Z; d_retry_at : option Z }.
Definition Due_eta (d : Due) : Due :=
  mkDue (d_by_key d) (d_order d) (d_next_seq d) (d_in_flight d) (d_held d) (d_send_now d) (d_failures d) (d_retry_at d).
#[global] Instance set_d_by_key : Setter d_by_key := ltac:(setter Due_eta).
#[global] Instance set_d_order : Setter d_order := ltac:(setter Due_eta).
#[global] Instance set_d_next_seq : Setter d_next_seq := ltac:(setter Due_eta).
#[global] Instance set_d_in_flight : Setter d_in_flight := ltac:(setter Due_eta).
#[global] Instance set_d_held : Setter d_held := ltac:(setter Due_eta).
#[global] Instance set_d_send_now : Setter d_send_now := ltac:(setter Due_eta).
#[global] Instance set_d_failures : Setter d_failures := ltac:(setter Due_eta).
#[global] Instance set_d_retry_at : Setter d_retry_at := ltac:(setter Due_eta).
Definition due_new : Due := mkDue ∅ [] 0 ∅ false false 0 None.
Definition due_len (d : Due) : nat := size (d_by_key d) + size (d_in_flight d).
Definition due_insert (key : string) (e : RefEntry) (d : Due) : Due :=
  d <| d_order ::= order_insert (place e) key |> <| d_by_key ::= <[key := e]> |>.

(** The loop of [expire]: the keys given up, the order and the keys left. *)
Fixpoint due_expire_loop (lease now : Z) (o : list (Z * Z * string)) (bk : gmap string RefEntry) : list string * list (Z * Z * string) * gmap string RefEntry :=
  match o with
  | [] => ([], [], bk)
  | ((at_, _), key) :: rest =>
      if now <? at_ + lease then ([], o, bk)
      else
        let '(gone, o, bk') := due_expire_loop lease now rest (delete key bk) in
        ((if bool_decide (is_Some (bk !! key)) then [key] else []) ++ gone, o, bk')
  end.
Definition rb_expire (lease now : Z) (d : Due) : list (RefreshGiveUp * string) * Due :=
  let '(gone, o, bk) := due_expire_loop lease now (d_order d) (d_by_key d) in
  (map (pair RgLease) gone, d <| d_order := o |> <| d_by_key := bk |>).
(** The loop of [mark] that makes room; [None] of the second: every entry is in
    flight. *)
Fixpoint due_room_loop (cap : nat) (in_flight : nat) (o : list (Z * Z * string)) (bk : gmap string RefEntry)
    : list string * option (list (Z * Z * string)) * gmap string RefEntry :=
  if (size bk + in_flight <? cap)%nat then ([], Some o, bk)
  else match o with
       | [] => ([], None, bk)
       | (_, oldest) :: rest => let '(gone, o, bk) := due_room_loop cap in_flight rest (delete oldest bk) in (oldest :: gone, o, bk)
       end.
Definition rb_mark (lease : Z) (cap : nat) (key call_ref : string) (held : HeldSet) (now : Z) (d : Due) : list (RefreshGiveUp * string) * Due :=
  let '(expired, d) := rb_expire lease now d in
  match d_by_key d !! key with
  | Some e => (expired, d <| d_by_key ::= <[key := mkRef call_ref held (re_seq e) (first_marked_at e)]> |>)
  | None =>
      let '(gone, room, bk) := due_room_loop cap (size (d_in_flight d)) (d_order d) (d_by_key d) in
      match room with
      | None => (expired ++ map (pair RgCap) (gone ++ [key]), d <| d_order := [] |> <| d_by_key := bk |>)
      | Some o =>
          let seq := d_next_seq d in
          let first := match d_in_flight d !! key with Some e => first_marked_at e | None => now end in
          (expired ++ map (pair RgCap) gone,
           due_insert key (mkRef call_ref held seq first)
             (d <| d_order := o |> <| d_by_key := bk |> <| d_next_seq := u64_add seq 1 |>))
      end
  end.
Definition rb_forget (key : string) (d : Due) : list (RefreshGiveUp * string) * Due :=
  let waiting := d_by_key d !! key in
  let o := match waiting with Some e => order_remove (place e) (d_order d) | None => d_order d end in
  ((if bool_decide (is_Some waiting) || bool_decide (is_Some (d_in_flight d !! key)) then [(RgReleased, key)] else []),
   d <| d_by_key ::= delete key |> <| d_order := o |> <| d_in_flight ::= delete key |>).
Definition rb_due (lease now : Z) (d : Due) : nat * Due := let '(_, d) := rb_expire lease now d in (due_len d, d).
Definition rb_hold (d : Due) : Due := d <| d_held := true |>.
Definition rb_resume (d : Due) : Due := d <| d_held := false |> <| d_send_now := true |> <| d_failures := 0 |> <| d_retry_at := None |>.
Definition rb_back_off (now tick : Z) (d : Due) : Due :=
  let f := Z.min u32_MAX (d_failures d + 1) in
  d <| d_failures := f |> <| d_retry_at := Some (now + Z.max (backoff f) tick) |>.
Definition first_deadline (lease : Z) (d : Due) : option Z :=
  match d_order d with ((at_, _), _) :: _ => Some (at_ + lease) | [] => None end.
Definition sendable (lease now : Z) (d : Due) : bool * Due :=
  let '(_, d) := rb_expire lease now d in (negb (d_held d) && negb (bool_decide (d_by_key d = ∅)), d).
(** When the round leaves, without a resume ([wait_round]). *)
Definition round_at (now tick : Z) (d : Due) : Z := default (now + tick) (d_retry_at d).
(** The loop of [take]. *)
Fixpoint take_loop (max : nat) (o : list (Z * Z * string)) (d : Due) : list RefreshCall * Due :=
  match max, o with
  | S n, (_, key) :: rest =>
      match d_by_key d !! key with
      | None => take_loop max rest d
      | Some e =>
          let '(calls, d) := take_loop n rest (d <| d_by_key ::= delete key |> <| d_in_flight ::= <[key := e]> |>) in
          (mkRefreshCall key (re_held e) :: calls, d)
      end
  | _, _ => ([], d <| d_order := o |>)
  end.
Definition rb_take (lease : Z) (max : nat) (now : Z) (d : Due) : option (list RefreshCall) * Due :=
  let '(_, d) := rb_expire lease now d in
  if d_held d || bool_decide (d_by_key d = ∅) then (None, d)
  else let '(calls, d) := take_loop max (d_order d) d in (Some calls, d).
(** The answers handed back, and the requests in flight left ([settle]). *)
Fixpoint settle_replies (calls : list RefreshCall) (replies : list Refreshed) (fl : gmap string RefEntry) : list RefreshAnswered :=
  match calls, replies with
  | c :: calls, r :: replies =>
      let rest := settle_replies calls replies (delete (rc_key c) fl) in
      if match rf_result r with Extended => true | _ => false end && bool_decide (rf_held r = Some (rc_held c)) then rest
      else match fl !! rc_key c with
           | Some e => mkAnswered (re_call_ref e) (rc_key c) (rf_result r) (rf_held r) :: rest
           | None => rest
           end
  | _, _ => []
  end.
Definition rb_settle (calls : list RefreshCall) (replies : list Refreshed) (d : Due) : list RefreshAnswered * Due :=
  (settle_replies calls replies (d_in_flight d), d <| d_failures := 0 |> <| d_retry_at := None |> <| d_in_flight := ∅ |>).
Definition put_back_one (d : Due) (p : string * RefEntry) : Due :=
  if bool_decide (is_Some (d_by_key d !! p.1)) then d else due_insert p.1 p.2 d.
Definition put_back (d : Due) : Due :=
  foldl put_back_one (d <| d_in_flight := ∅ |>) (map_to_list (d_in_flight d)).

(** ** The breaker's policy ([breaker.rs]) *)

(** [apply]: hold or resume the queue and the batch, once per transition. *)
Definition breaker_apply (open : bool) (s : bool * Waiting * Due) : bool * Waiting * Due :=
  let '(applied, w, d) := s in
  if Bool.eqb applied open then s
  else if open then (open, rq_hold w, rb_hold d) else (open, rq_resume w, rb_resume d).

(** ** A call's admission state ([model/limiter.rs], [limiter/admit.rs]) *)

Inductive AdmitOutcome :=
  | OAdmitted | ORejected (limiter_id : string) (held : HeldSet) | OSuperseded (held : HeldSet) | OReleased | OUnavailable | ONotSent.
Record AdmitReport := mkReport { rp_key : string; rp_change : Z; rp_entries : list AdmitEntry; rp_outcome : AdmitOutcome }.
Definition report_owed_release (r : AdmitReport) : option string := match rp_outcome r with ONotSent => None | _ => Some (rp_key r) end.
Definition report_held (r : AdmitReport) : option HeldSet :=
  match rp_outcome r with
  | OAdmitted => Some (mkHeld (rp_change r) (rp_entries r))
  | ORejected _ held | OSuperseded held => Some held
  | OReleased | OUnavailable | ONotSent => None
  end.
Definition CHANGE_EPOCH : Z := 2 ^ 32.
Record CallLimiterState := mkCallLimiter {
  cl_key : string; cl_release_owed : bool; cl_held : list AdmitEntry; cl_held_change : Z; cl_target : list AdmitEntry; cl_target_change : Z;
  cl_change : Z; cl_runs_on : option (list AdmitEntry); cl_admit_sent : bool; cl_consults_open : Z }.
Definition CallLimiter_eta (c : CallLimiterState) : CallLimiterState :=
  mkCallLimiter (cl_key c) (cl_release_owed c) (cl_held c) (cl_held_change c) (cl_target c) (cl_target_change c) (cl_change c) (cl_runs_on c)
    (cl_admit_sent c) (cl_consults_open c).
#[global] Instance set_cl_release_owed : Setter cl_release_owed := ltac:(setter CallLimiter_eta).
#[global] Instance set_cl_held : Setter cl_held := ltac:(setter CallLimiter_eta).
#[global] Instance set_cl_held_change : Setter cl_held_change := ltac:(setter CallLimiter_eta).
#[global] Instance set_cl_target : Setter cl_target := ltac:(setter CallLimiter_eta).
#[global] Instance set_cl_target_change : Setter cl_target_change := ltac:(setter CallLimiter_eta).
#[global] Instance set_cl_change : Setter cl_change := ltac:(setter CallLimiter_eta).
#[global] Instance set_cl_runs_on : Setter cl_runs_on := ltac:(setter CallLimiter_eta).
#[global] Instance set_cl_admit_sent : Setter cl_admit_sent := ltac:(setter CallLimiter_eta).
#[global] Instance set_cl_consults_open : Setter cl_consults_open := ltac:(setter CallLimiter_eta).
Inductive Replacement := RpSend (change : Z) (held : HeldSet) | RpNothingToSend (change : Z).
Record ConsultAdmits := mkConsult { first_change : Z; may_hold_before : bool }.
Inductive RefreshApplied := RaStale | RaUnchanged | RaChanged.

Definition uncounted (key : string) : CallLimiterState := mkCallLimiter key false [] 0 [] 0 0 None false 0.
Definition counted (c : CallLimiterState) : bool := match cl_held c with [] => false | _ => true end.
Definition call_owed_release (c : CallLimiterState) : option string := if cl_release_owed c then Some (cl_key c) else None.
Definition may_hold (c : CallLimiterState) : bool := cl_admit_sent c || (0 <? cl_consults_open c) || counted c.
Definition call_held_set (c : CallLimiterState) : HeldSet := mkHeld (cl_held_change c) (cl_held c).
(** The first of the ids left that is [id], taken out. *)
Fixpoint take_id (id : string) (ids : list string) : option (list string) :=
  match ids with [] => None | x :: ids => if String.eqb x id then Some ids else cons x <$> take_id id ids end.
Fixpoint lacks_any (ids : list string) (set : list AdmitEntry) : bool :=
  match set with [] => false | e :: set => match take_id (ae_id e) ids with Some ids => lacks_any ids set | None => true end end.
Definition fail_open (c : CallLimiterState) : bool := lacks_any (map ae_id (cl_held c)) (cl_target c).
Definition runs_uncounted (c : CallLimiterState) : bool :=
  fail_open c || match cl_runs_on c with Some set => lacks_any (map ae_id (cl_held c)) set | None => false end.
Definition reserve_changes (n : Z) (c : CallLimiterState) : Z * CallLimiterState :=
  (u64_add (cl_change c) 1, c <| cl_change := u64_add (cl_change c) (Z.max n 1) |>).
Definition ask (change : Z) (es : list AdmitEntry) (c : CallLimiterState) : CallLimiterState :=
  if change <? cl_target_change c then c else c <| cl_target := es |> <| cl_target_change := change |>.
Definition apply_held (h : HeldSet) (c : CallLimiterState) : CallLimiterState :=
  let c := c <| cl_change ::= Z.max (hs_change h) |> in
  if hs_change h <? cl_held_change c then c else c <| cl_held_change := hs_change h |> <| cl_held := hs_entries h |>.
Definition merge_change (other c : CallLimiterState) : CallLimiterState :=
  c <| cl_change ::= Z.max (cl_change other) |> <| cl_release_owed ::= orb (cl_release_owed other) |>.
Definition owe_consult (n : Z) (c : CallLimiterState) : ConsultAdmits * CallLimiterState :=
  let before := may_hold c in
  let c := c <| cl_release_owed := true |> <| cl_consults_open ::= fun k => Z.min u32_MAX (k + 1) |> in
  let '(first, c) := reserve_changes n c in (mkConsult first before, c).
Definition replace_set (es : list AdmitEntry) (moves_call : bool) (c : CallLimiterState) : Replacement * CallLimiterState :=
  let c := if moves_call then c <| cl_runs_on := Some es |> else c in
  let '(change, c) := reserve_changes 1 c in
  let c := ask change es c in
  if (match es with [] => true | _ => false end) && negb (may_hold c) then (RpNothingToSend change, c)
  else let c := c <| cl_release_owed := true |> <| cl_admit_sent := true |> in (RpSend change (call_held_set c), c).
Definition renumber_consult (n : Z) (c : CallLimiterState) : ConsultAdmits * CallLimiterState :=
  let '(first, c') := reserve_changes n c in (mkConsult first (may_hold c'), c').
Definition renumber_replacement (es : list AdmitEntry) (c : CallLimiterState) : Z * HeldSet * CallLimiterState :=
  let '(change, c) := reserve_changes 1 c in let c := ask change es c in (change, call_held_set c, c).
Definition number_admit (c : CallLimiterState) : Z * HeldSet * CallLimiterState :=
  let '(change, c) := reserve_changes 1 c in (change, call_held_set c, c).
Definition enter_epoch (c : CallLimiterState) : CallLimiterState := c <| cl_change ::= fun n => u64_wrap ((n / CHANGE_EPOCH + 1) * CHANGE_EPOCH) |>.
Definition apply_admit (r : AdmitReport) (c : CallLimiterState) : CallLimiterState :=
  let sent := bool_decide (is_Some (report_owed_release r)) in
  let c := c <| cl_release_owed ::= orb sent |> <| cl_admit_sent ::= orb sent |> <| cl_change ::= Z.max (rp_change r) |> in
  let c := match report_held r with Some h => apply_held h c | None => c end in
  let c := match rp_outcome r with OReleased => c <| cl_held := [] |> | _ => c end in
  if rp_change r <? cl_target_change c then c
  else
    let target := match rp_outcome r with ORejected _ _ | OSuperseded _ => cl_held c | _ => rp_entries r end in
    c <| cl_target := target |> <| cl_target_change := rp_change r |>.
Definition apply_unawaited_fold (r : AdmitReport) (c : CallLimiterState) : CallLimiterState :=
  apply_admit r (c <| cl_consults_open ::= fun k => Z.max 0 (k - 1) |>).
Definition apply_fold (r : AdmitReport) (runs_route : bool) (c : CallLimiterState) : CallLimiterState :=
  (apply_unawaited_fold r c) <| cl_runs_on := if runs_route then Some (rp_entries r) else None |>.
Definition apply_refresh (key : string) (h : option HeldSet) (c : CallLimiterState) : RefreshApplied * CallLimiterState :=
  if negb (String.eqb key (cl_key c)) || match h with Some h => hs_change h <? cl_held_change c | None => false end then (RaStale, c)
  else match h with
       | None => (RaUnchanged, c)
       | Some h =>
           let changed := (cl_change c <? hs_change h) || negb (cl_held_change c =? hs_change h) || negb (bool_decide (cl_held c = hs_entries h)) in
           ((if changed then RaChanged else RaUnchanged), apply_held h c)
       end.
Definition lost_admit (change : Z) (c : CallLimiterState) : AdmitReport :=
  mkReport (cl_key c) change (if cl_target_change c =? change then cl_target c else []) OUnavailable.
