(* ===== verification/LimiterClientProps.v ===== *)
(** * The worker and the limiter: releases, refreshes and the store

    The worker's release queue and refresh batch of [LimiterClient] beside the
    store of [Limiter] and a network that loses, delays and repeats requests:
    what becomes of a release, and what is never refreshed; and the invariant of
    a call's admission state. *)

From S2P Require Import Prelude Limiter LimiterInv LimiterSpec LimiterProps LimiterClient.

Open Scope Z_scope.

(** ** The worker beside the store *)

(** What happened, as a theorem reads it: a release queued, given up (under the
    clock and the lease of then), executed by the store (with the store after
    it), answered; a refresh sent, an answer handed to a call. *)
Inductive Note :=
  | NQueued (key : string) (at_ : Z)
  | NGivenUp (why : ReleaseGiveUp) (key : string) (now lease : Z)
  | NLanded (keys : list string) (i : Inner)
  | NAnswered (key : string)
  | NRefreshSent (calls : list RefreshCall)
  | NHanded (a : RefreshAnswered).

(** Every release and refresh request sent stays in its net: it may reach the
    store late, more than once, or never.  A sender awaits at most one request;
    [true]: the store executed it, so an answer can come. *)
Record Sys := mkSys {
  y_lease : LimiterLease; y_rel : Waiting; y_ref : Due; y_open : bool;
  y_net : list (list string); y_req : option (list Z * nat * bool);
  y_ref_net : list (list RefreshCall); y_ref_req : option (list RefreshCall * nat * option (list Refreshed));
  y_time : Z; y_store : Inner }.
Definition Sys_eta (s : Sys) : Sys :=
  mkSys (y_lease s) (y_rel s) (y_ref s) (y_open s) (y_net s) (y_req s) (y_ref_net s) (y_ref_req s) (y_time s) (y_store s).
#[global] Instance set_y_lease : Setter y_lease := ltac:(setter Sys_eta).
#[global] Instance set_y_rel : Setter y_rel := ltac:(setter Sys_eta).
#[global] Instance set_y_ref : Setter y_ref := ltac:(setter Sys_eta).
#[global] Instance set_y_open : Setter y_open := ltac:(setter Sys_eta).
#[global] Instance set_y_net : Setter y_net := ltac:(setter Sys_eta).
#[global] Instance set_y_req : Setter y_req := ltac:(setter Sys_eta).
#[global] Instance set_y_ref_net : Setter y_ref_net := ltac:(setter Sys_eta).
#[global] Instance set_y_ref_req : Setter y_ref_req := ltac:(setter Sys_eta).
#[global] Instance set_y_time : Setter y_time := ltac:(setter Sys_eta).
#[global] Instance set_y_store : Setter y_store := ltac:(setter Sys_eta).

Inductive Ev :=
  | EvLearn (lease : Z)
  | EvForget (key : string) | EvPush (key : string) (now : Z)
  | EvMark (key call_ref : string) (held : HeldSet) (now : Z)
  | EvDrain (now : Z) | EvReleaseAnswered (now : Z) | EvReleaseFailed (now : Z) | EvDrainerPanics (now : Z)
  | EvTake (now : Z) | EvRefreshAnswered | EvRefreshFailed (now : Z) | EvSenderPanics
  | EvBreaker (open : bool) | EvFlush | EvGiveUp (now : Z) | EvStop
  | EvReleaseLands (n : nat) (ts : Z) | EvRefreshLands (n : nat) (ts : Z) | EvStore (ts : Z) (op : StoreOp).

Section sys.
Context (cfg : LimiterConfig) (cap max : nat) (batch_tick : Z).

(** The store executes [op] at its clock's [ts], which does not go back. *)
Definition clock_ok (ts : Z) (s : Sys) : bool := (y_time s <=? ts) && bool_decide (in_i64 (ts + lease_ms cfg)).
Definition at_store (ts : Z) (op : StoreOp) (s : Sys) : Sys := s <| y_time := ts |> <| y_store ::= run_op cfg ts op |>.
Definition refresh_ops (calls : list RefreshCall) : list (string * Z * list AdmitEntry) :=
  map (fun c => (rc_key c, hs_change (rc_held c), hs_entries (rc_held c))) calls.
Definition gone_notes (now lease : Z) (l : list (ReleaseGiveUp * string)) : list Note := map (fun p => NGivenUp p.1 p.2 now lease) l.

Definition sys_step (s : Sys) (e : Ev) : list Note * Sys :=
  let lease := current (y_lease s) in
  match e with
  | EvLearn l => ([], s <| y_lease ::= learn l |>)
  | EvForget key => ([], s <| y_ref ::= fun d => (rb_forget key d).2 |>)
  | EvPush key now =>
      let '(gone, queued, w) := rq_push lease cap key now (y_rel s) in
      (gone_notes now lease gone ++ (if queued then [NQueued key now] else []), s <| y_rel := w |>)
  | EvMark key call_ref held now => ([], s <| y_ref ::= fun d => (rb_mark lease cap key call_ref held now d).2 |>)
  | EvDrain now =>
      match y_req s with
      | Some _ => ([], s)
      | None =>
          let '(gone, st, w) := rq_step lease now (y_rel s) in
          (gone_notes now lease gone,
           match st with
           | Send seqs keys => s <| y_rel := w |> <| y_net ::= fun n => n ++ [keys] |> <| y_req := Some (seqs, length (y_net s), false) |>
           | Wait _ => s <| y_rel := w |>
           end)
      end
  | EvReleaseAnswered now =>
      match y_req s with
      | Some (seqs, _, true) =>
          let '(answered, w) := rq_settle seqs AnsReleased now (y_rel s) in
          (map NAnswered answered, s <| y_rel := w |> <| y_req := None |>)
      | _ => ([], s)
      end
  | EvReleaseFailed now =>
      match y_req s with
      | Some (seqs, _, _) => ([], s <| y_rel := (rq_settle seqs AnsUnavailable now (y_rel s)).2 |> <| y_req := None |>)
      | None => ([], s)
      end
  | EvDrainerPanics now => ([], s <| y_rel ::= rq_panicked now |> <| y_req := None |>)
  | EvTake now =>
      match y_ref_req s with
      | Some _ => ([], s)
      | None =>
          match rb_take lease max now (y_ref s) with
          | (Some calls, d) =>
              ([NRefreshSent calls], s <| y_ref := d |> <| y_ref_net ::= fun n => n ++ [calls] |> <| y_ref_req := Some (calls, length (y_ref_net s), None) |>)
          | (None, d) => ([], s <| y_ref := d |>)
          end
      end
  | EvRefreshAnswered =>
      match y_ref_req s with
      | Some (calls, _, Some replies) =>
          let '(handed, d) := rb_settle calls replies (y_ref s) in (map NHanded handed, s <| y_ref := d |> <| y_ref_req := None |>)
      | _ => ([], s)
      end
  | EvRefreshFailed now =>
      match y_ref_req s with
      | Some _ => ([], s <| y_ref ::= fun d => rb_back_off now (refresh_tick batch_tick lease) (put_back d) |> <| y_ref_req := None |>)
      | None => ([], s)
      end
  | EvSenderPanics => ([], s <| y_ref ::= put_back |> <| y_ref_req := None |>)
  | EvBreaker open =>
      let '(applied, w, d) := breaker_apply open (y_open s, y_rel s, y_ref s) in ([], s <| y_open := applied |> <| y_rel := w |> <| y_ref := d |>)
  | EvFlush => ([], match flush_begin (y_rel s) with Some (_, w) => s <| y_rel := w |> | None => s end)
  | EvGiveUp now => let '(gone, w) := give_up_all (y_rel s) in (gone_notes now lease gone, s <| y_rel := w |>)
  | EvStop => ([], s <| y_rel ::= rq_stop |>)
  | EvReleaseLands n ts =>
      match y_net s !! n with
      | Some keys =>
          if clock_ok ts s then
            let s := at_store ts (OpRelease keys) s in
            ([NLanded keys (y_store s)],
             s <| y_req ::= fun r => match r with Some (seqs, m, done) => Some (seqs, m, done || (n =? m)%nat) | None => None end |>)
          else ([], s)
      | None => ([], s)
      end
  | EvRefreshLands n ts =>
      match y_ref_net s !! n with
      | Some calls =>
          if clock_ok ts s then
            let replies := (refresh_all cfg ts (refresh_ops calls) (y_store s)).1 in
            ([], (at_store ts (OpRefresh (refresh_ops calls)) s)
                   <| y_ref_req ::= fun r => match r with Some (c, m, done) => Some (c, m, if (n =? m)%nat then Some replies else done) | None => None end |>)
          else ([], s)
      | None => ([], s)
      end
  | EvStore ts op => ([], if clock_ok ts s then at_store ts op s else s)
  end.
Fixpoint sys_run (s : Sys) (evs : list Ev) : list Note * Sys :=
  match evs with
  | [] => ([], s)
  | e :: evs => let '(n, s) := sys_step s e in let '(m, s) := sys_run s evs in (n ++ m, s)
  end.
End sys.
Definition sys_start (l : LimiterLease) (t0 : Z) : Sys := mkSys l waiting_new due_new false [] None [] None t0 new.

(** ** The queue's invariant *)

(** The entries are in push order under numbers below the next, and the index
    names each waiting key's entry and nothing else. *)
Record queue_ok (es : list (Z * RelEntry)) (bk : gmap string Z) (next : Z) : Prop := mkQueueOk {
  qo_sorted : keys_sorted es;
  qo_below : Forall (fun p => p.1 < next) es;
  qo_index p : p ∈ es -> bk !! rl_key p.2 = Some p.1;
  qo_entry k q : bk !! k = Some q -> exists e, (q, e) ∈ es /\ rl_key e = k }.
Notation w_ok w := (queue_ok (w_entries w) (w_by_key w) (w_next_seq w)).
Notation keys_of es := (map (fun p => rl_key p.2) es).

Lemma in_keys p (es : list (Z * RelEntry)) : p ∈ es -> rl_key p.2 ∈ keys_of es.
Proof. intros Hp. apply list_elem_of_fmap. by exists p. Qed.
Lemma queue_ok_new : w_ok waiting_new.
Proof. split; simpl; [constructor|constructor|by intros ? ?%elem_of_nil|done]. Qed.
Lemma queue_keys_NoDup es bk n : queue_ok es bk n -> NoDup (keys_of es).
Proof.
  intros H. pose proof (qo_sorted _ _ _ H) as Hs. assert (forall p, p ∈ es -> bk !! rl_key p.2 = Some p.1) as Hi by apply H. clear H.
  induction Hs as [|p es _ IH Hp]; simpl; constructor; [|apply IH; intros; apply Hi; by right].
  intros (q & He & Hq)%list_elem_of_fmap. pose proof (Hi p (list_elem_of_here _ _)) as H1. rewrite He, (Hi q) in H1 by (by right). rewrite Forall_forall in Hp. apply Hp in Hq. injection H1 as H1. lia.
Qed.
Lemma queue_ok_tail p es bk n : queue_ok (p :: es) bk n -> queue_ok es (delete (rl_key p.2) bk) n.
Proof.
  intros H. pose proof (queue_keys_NoDup _ _ _ H) as Hnd. simpl in Hnd. apply NoDup_cons in Hnd as [Hnd _]. destruct H as [Hs Hb Hi He]. split.
  - by apply StronglySorted_inv in Hs as [? _].
  - by apply Forall_cons in Hb as [_ ?].
  - intros q Hq. rewrite lookup_delete_ne; [apply Hi; by right|]. intros Heq. apply Hnd. rewrite Heq. by apply in_keys.
  - intros k q Hk. apply lookup_delete_Some in Hk as [Hne Hk]. destruct (He k q Hk) as (e & [Hin|Hin]%elem_of_cons & <-); [by subst p|]. by exists e.
Qed.
(** Both loops give up a prefix, oldest first. *)
Lemma queue_expire_spec lease now es bk gone es' bk' n : queue_ok es bk n -> expire_loop lease now es bk = (gone, es', bk') ->
  queue_ok es' bk' n /\ exists pre, es = pre ++ es' /\ gone = keys_of pre /\ Forall (fun p => queued_at p.2 + lease <= now) pre.
Proof.
  revert bk gone es' bk'. induction es as [|p es IH]; intros bk gone es' bk' Hq; simpl.
  { intros [= <- <- <-]. split; [done|]. by exists []. }
  destruct p as [q e]. destruct (Z.ltb_spec now (queued_at e + lease)) as [|Hle].
  { intros [= <- <- <-]. split; [done|]. by exists []. }
  destruct (expire_loop lease now es (delete (rl_key e) bk)) as [[g es1] bk1] eqn:Hx. intros [= <- <- <-].
  apply IH in Hx as (Hok & pre & -> & -> & Hf); [|by apply (queue_ok_tail (q, e))]. split; [done|]. exists ((q, e) :: pre). split_and!; [done|done|]. by constructor.
Qed.
Lemma room_loop_spec cap es bk gone es' bk' n : queue_ok es bk n -> room_loop cap es bk = (gone, es', bk') ->
  queue_ok es' bk' n /\ (exists pre, es = pre ++ es' /\ gone = keys_of pre) /\ ((length es' < cap)%nat \/ es' = []).
Proof.
  revert bk gone es' bk'. induction es as [|p es IH]; intros bk gone es' bk' Hq; cbn [room_loop].
  { intros [= <- <- <-]. split; [done|]. split; [by exists []|by right]. }
  destruct p as [q e]. destruct (Nat.ltb_spec (length ((q, e) :: es)) cap) as [Hlt|Hle].
  { intros [= <- <- <-]. split; [done|]. split; [by exists []|by left]. }
  destruct (room_loop cap es (delete (rl_key e) bk)) as [[g es1] bk1] eqn:Hx. intros [= <- <- <-].
  apply IH in Hx as (Hok & (pre & -> & ->) & Hr); [|by apply (queue_ok_tail (q, e))]. split; [done|]. split; [by exists ((q, e) :: pre)|done].
Qed.
Lemma queue_ok_push es bk n key now : queue_ok es bk n -> bk !! key = None -> 0 <= n < u64_MAX ->
  queue_ok (bt_insert n (mkRel key now) es) (<[key := n]> bk) (u64_add n 1) /\ bt_insert n (mkRel key now) es = es ++ [(n, mkRel key now)] /\ u64_add n 1 = n + 1.
Proof.
  intros [Hs Hb Hi He] Hk Hn. assert (u64_add n 1 = n + 1) as -> by (unfold u64_add, u64_wrap, u64_MAX in *; apply Z.mod_small; lia).
  rewrite bt_insert_last by done. split; [|done]. split.
  - by apply keys_sorted_snoc.
  - apply Forall_app. split; [eapply Forall_impl; [exact Hb|]; simpl; lia|]. constructor; [simpl; lia|constructor].
  - intros p [Hp|Hp%list_elem_of_singleton]%elem_of_app; [|subst p; simpl; by rewrite lookup_insert_eq].
    rewrite lookup_insert_ne; [by apply Hi|]. intros Heq. apply Hi in Hp. rewrite <- Heq, Hk in Hp. done.
  - intros k q Hq. destruct (decide (k = key)) as [->|Hne].
    + rewrite lookup_insert_eq in Hq. injection Hq as <-. exists (mkRel key now). split; [|done]. apply elem_of_app. right. by apply list_elem_of_singleton.
    + rewrite lookup_insert_ne in Hq by done. destruct (He k q Hq) as (e & Hin & <-). exists e. split; [|done]. apply elem_of_app. by left.
Qed.
(** What [settle] takes out of the queue. *)
Lemma settle_one_spec w seq e : w_ok w -> bt_get seq (w_entries w) = Some e ->
  queue_ok (bt_remove seq (w_entries w)) (delete (rl_key e) (w_by_key w)) (w_next_seq w) /\
  keys_of (w_entries w) ≡ₚ rl_key e :: keys_of (bt_remove seq (w_entries w)).
Proof.
  intros [Hs Hb Hi He] Hg%bt_get_Some. pose proof (queue_keys_NoDup _ _ _ (mkQueueOk _ _ _ Hs Hb Hi He)) as Hnd.
  assert (w_entries w ≡ₚ (seq, e) :: bt_remove seq (w_entries w)) as Hp.
  { clear -Hs Hg. unfold keys_sorted in Hs. induction Hs as [|p es Hs IH Hp]; [by apply elem_of_nil in Hg|]. rewrite Forall_forall in Hp. apply elem_of_cons in Hg as [<-|Hg].
    - unfold bt_remove. rewrite filter_cons_False by (simpl; tauto). rewrite filter_all; [done|]. intros q Hq. apply Hp in Hq. simpl in Hq. lia.
    - unfold bt_remove in *. rewrite filter_cons_True by (apply Hp in Hg; simpl in Hg; lia). rewrite (IH Hg) at 1. by constructor. }
  pose proof (Permutation_map (fun p => rl_key p.2) Hp) as Hk. simpl in Hk. split; [|done]. rewrite Hk in Hnd. apply NoDup_cons in Hnd as [Hout _]. split.
  - by apply keys_sorted_remove.
  - apply Forall_forall. intros p [Hin _]%elem_of_bt_remove. rewrite Forall_forall in Hb. by apply Hb.
  - intros p Hin. pose proof Hin as [Hin' _]%elem_of_bt_remove. rewrite lookup_delete_ne; [by apply Hi|]. intros Heq. apply Hout. rewrite Heq. by apply in_keys.
  - intros k q [Hne Hq]%lookup_delete_Some. destruct (He k q Hq) as (e' & Hin & <-). exists e'. split; [|done]. apply elem_of_bt_remove. split; [done|]. simpl. intros ->.
    apply Hne. by rewrite (keys_unique _ _ _ _ Hs Hin Hg).
Qed.

(** ** What the notes say *)

Definition queued_keys (l : list Note) : list string := omap (fun x => match x with NQueued k _ => Some k | _ => None end) l.
Definition answered_keys (l : list Note) : list string := omap (fun x => match x with NAnswered k => Some k | _ => None end) l.
Definition given_up_keys (l : list Note) : list string := omap (fun x => match x with NGivenUp _ k _ _ => Some k | _ => None end) l.
(** [k] is not queued again in [l]. *)
Definition quiet (k : string) (l : list Note) : Prop := Forall (fun x => match x with NQueued k' _ => k' <> k | _ => True end) l.
(** The last time [k] was queued is [at_]. *)
Definition last_queued (l : list Note) (k : string) (at_ : Z) : Prop := exists a b, l = a ++ NQueued k at_ :: b /\ quiet k b.
(** Since [k] was last queued the store executed a release naming it, and then
    held nothing for it and refused it as released. *)
Definition freed_since (l : list Note) (k : string) : Prop :=
  exists a at_ b keys i c, l = a ++ NQueued k at_ :: b ++ NLanded keys i :: c /\ quiet k (b ++ c) /\
    k ∈ keys /\ calls i !! k = None /\ is_released i k = true.
Definition note_ok (before : list Note) (x : Note) : Prop :=
  match x with
  | NAnswered k => freed_since before k
  | NGivenUp GuLease k now lease => exists at_, last_queued before k at_ /\ at_ + lease <= now
  | _ => True
  end.
Definition notes_ok (l : list Note) : Prop := forall a x b, l = a ++ x :: b -> note_ok a x.

Lemma quiet_app k a b : quiet k a -> quiet k b -> quiet k (a ++ b).
Proof. intros. by apply Forall_app. Qed.
Lemma last_queued_app l k at_ n : last_queued l k at_ -> quiet k n -> last_queued (l ++ n) k at_.
Proof. intros (a & b & -> & Hb) Hn. exists a, (b ++ n). split; [by rewrite <- app_assoc|]. by apply quiet_app. Qed.
Lemma freed_since_app l k n : freed_since l k -> quiet k n -> freed_since (l ++ n) k.
Proof.
  intros (a & at_ & b & keys & i & c & -> & Hq & Hrest) Hn. exists a, at_, b, keys, i, (c ++ n). split; [|split; [|done]].
  - rewrite <- app_assoc, <- app_comm_cons, <- app_assoc. done.
  - rewrite app_assoc. by apply quiet_app.
Qed.
Lemma notes_ok_app l n : notes_ok l -> (forall a x b, n = a ++ x :: b -> note_ok (l ++ a) x) -> notes_ok (l ++ n).
Proof.
  intros Hl Hn a x b H. apply app_eq_app in H as (m & [[-> H]|[-> H]]).
  - destruct m as [|y m]; simpl in H; [|injection H as -> ->; by apply (Hl a y m)]. pose proof (Hn [] x b (eq_sym H)) as Hx. by rewrite !app_nil_r in *.
  - by apply (Hn m x b).
Qed.
Lemma notes_ok_plain l n : notes_ok l -> Forall (fun x => match x with NAnswered _ | NGivenUp GuLease _ _ _ => False | _ => True end) n -> notes_ok (l ++ n).
Proof.
  intros Hl Hn. apply notes_ok_app; [done|]. intros a x b ->. apply Forall_app in Hn as [_ [Hx _]%Forall_cons]. by destruct x as [|[]| | | |].
Qed.
Lemma gone_quiet k now lease l : quiet k (gone_notes now lease l).
Proof. apply Forall_map. by apply Forall_true. Qed.
Lemma gone_given now lease l : given_up_keys (gone_notes now lease l) = l.*2 /\ queued_keys (gone_notes now lease l) = [] /\ answered_keys (gone_notes now lease l) = [].
Proof. induction l as [|p l (IH1 & IH2 & IH3)]; [done|]. split_and!; [|done|done]. cbn. by f_equal. Qed.
Lemma answered_given l : given_up_keys (map NAnswered l) = [] /\ queued_keys (map NAnswered l) = [] /\ answered_keys (map NAnswered l) = l.
Proof. induction l as [|p l (IH1 & IH2 & IH3)]; [done|]. split_and!; [done|done|]. cbn. by f_equal. Qed.
Lemma answered_quiet k l : quiet k (map NAnswered l).
Proof. apply Forall_map. by apply Forall_true. Qed.

(** How often [k] is in a list. *)
Notation cnt k l := (count_occ String.string_dec l k).
Lemma cnt_app k l l' : cnt k (l ++ l') = (cnt k l + cnt k l')%nat.
Proof. apply count_occ_app. Qed.
Lemma keys_app (f : Note -> option string) l l' : omap f (l ++ l') = omap f l ++ omap f l'.
Proof. apply omap_app. Qed.
(** A step's account: what was waiting or queued is waiting, answered or given
    up. *)
Definition balanced (n : list Note) (before after : list (Z * RelEntry)) : Prop := forall k,
  (cnt k (queued_keys n) + cnt k (keys_of before) = cnt k (keys_of after) + cnt k (answered_keys n) + cnt k (given_up_keys n))%nat.
Lemma balanced_same es : balanced [] es es.
Proof. intros k. simpl. lia. Qed.
Lemma balanced_trans n m a b c : balanced n a b -> balanced m b c -> balanced (n ++ m) a c.
Proof. intros H1 H2 k. specialize (H1 k). specialize (H2 k). unfold queued_keys, answered_keys, given_up_keys in *. rewrite !keys_app, !cnt_app. lia. Qed.
Lemma balanced_prefix now lease why pre es : balanced (gone_notes now lease (map (pair why) (keys_of pre))) (pre ++ es) es.
Proof.
  intros k. destruct (gone_given now lease (map (pair why) (keys_of pre))) as (-> & -> & ->). rewrite map_app, cnt_app. simpl. rewrite <- list_fmap_compose. 
  replace ((snd ∘ pair why) <$> keys_of pre) with (keys_of pre) by (symmetry; apply list_fmap_id). lia.
Qed.

(** ** The invariant of a run *)

Section accounts.
Context (cfg : LimiterConfig) (cap max : nat) (batch_tick : Z) (Hcap : (1 <= cap)%nat).

Record sys_ok (l : list Note) (s : Sys) : Prop := mkSysOk {
  so_queue : w_ok (y_rel s);
  so_len : (length (w_entries (y_rel s)) <= cap)%nat;
  so_account : balanced l [] (w_entries (y_rel s));
  so_since p : p ∈ w_entries (y_rel s) -> last_queued l (rl_key p.2) (queued_at p.2);
  so_req seqs n done p : y_req s = Some (seqs, n, done) -> p ∈ w_entries (y_rel s) -> p.1 ∈ seqs ->
    (exists keys, y_net s !! n = Some keys /\ rl_key p.2 ∈ keys) /\ (done = true -> freed_since l (rl_key p.2));
  so_seqs seqs n done : y_req s = Some (seqs, n, done) -> Forall (fun q => q < w_next_seq (y_rel s)) seqs;
  so_store : reachable cfg (y_time s) (y_store s);
  so_notes : notes_ok l }.

Lemma sys_ok_start lease t0 : sys_ok [] (sys_start lease t0).
Proof.
  split; simpl; try done; [apply queue_ok_new|lia|by intros ? ?%elem_of_nil|exists t0; constructor|by intros [] ].
Qed.
(** A step that only takes entries out of the queue. *)
Lemma sys_ok_shrink l s n s' : sys_ok l s -> w_ok (y_rel s') -> w_next_seq (y_rel s') = w_next_seq (y_rel s) ->
  (forall p, p ∈ w_entries (y_rel s') -> p ∈ w_entries (y_rel s)) -> (length (w_entries (y_rel s')) <= length (w_entries (y_rel s)))%nat ->
  balanced n (w_entries (y_rel s)) (w_entries (y_rel s')) -> (forall k, quiet k n) -> notes_ok (l ++ n) ->
  y_req s' = y_req s \/ y_req s' = None -> y_net s' = y_net s -> reachable cfg (y_time s') (y_store s') -> sys_ok (l ++ n) s'.
Proof.
  intros H Hq Hseq Hsub Hlen Hb Hqn Hn Hreq Hnet Hst. split; try done.
  - pose proof (so_len _ _ H). lia.
  - eapply balanced_trans; [apply H|done].
  - intros p Hp. apply last_queued_app; [|done]. by apply (so_since _ _ H), Hsub.
  - intros seqs m done p Hr Hp Hin. destruct Hreq as [Hreq|Hreq]; rewrite Hreq in Hr; [|done].
    destruct (so_req _ _ H seqs m done p Hr (Hsub p Hp) Hin) as [Hk Hd]. rewrite Hnet. split; [done|]. intros Ht. apply freed_since_app; [by apply Hd|done].
  - intros seqs m done Hr. destruct Hreq as [Hreq|Hreq]; rewrite Hreq in Hr; [|done]. rewrite Hseq. by apply (so_seqs _ _ H) in Hr.
Qed.
(** One that changes nothing of the queue's entries. *)
Lemma sys_ok_same l s n s' : sys_ok l s -> w_entries (y_rel s') = w_entries (y_rel s) -> w_by_key (y_rel s') = w_by_key (y_rel s) ->
  w_next_seq (y_rel s') = w_next_seq (y_rel s) -> Forall (fun x => match x with NRefreshSent _ | NHanded _ | NLanded _ _ => True | _ => False end) n ->
  y_req s' = y_req s \/ y_req s' = None -> y_net s' = y_net s -> reachable cfg (y_time s') (y_store s') -> sys_ok (l ++ n) s'.
Proof.
  intros H He Hk Hs Hn Hreq Hnet Hst. assert (queued_keys n = [] /\ answered_keys n = [] /\ given_up_keys n = [] /\ (forall k, quiet k n)) as (H1 & H2 & H3 & H4).
  { clear -Hn. induction Hn as [|x n Hx _ (IH1 & IH2 & IH3 & IH4)]; [by repeat split; try constructor|].
    destruct x; try done; (split_and!; [exact IH1|exact IH2|exact IH3|intros k; constructor; [done|apply IH4]]). }
  apply sys_ok_shrink with (s := s); try done; rewrite ?He, ?Hk, ?Hs; try done; [apply H| |].
  - intros k. rewrite H1, H2, H3. simpl. lia.
  - apply notes_ok_plain; [apply H|]. eapply Forall_impl; [exact Hn|]. by intros [].
Qed.
(** Expiry, with what it counts. *)
Lemma expired_ok l s now gone w : sys_ok l s -> rq_expire (current (y_lease s)) now (y_rel s) = (gone, w) ->
  sys_ok (l ++ gone_notes now (current (y_lease s)) gone) (s <| y_rel := w |>) /\ w_next_seq w = w_next_seq (y_rel s) /\ w_held w = w_held (y_rel s) /\ w_retry_at w = w_retry_at (y_rel s).
Proof.
  intros H Hx. unfold rq_expire in Hx. destruct (expire_loop _ _ _ _) as [[g es] bk] eqn:He. injection Hx as <- <-. split; [|done].
  apply (queue_expire_spec _ _ _ _ _ _ _ _ (so_queue _ _ H)) in He as (Hok & pre & Hes & -> & Hf).
  assert (forall p, p ∈ pre -> p ∈ w_entries (y_rel s)) as Hsub by (intros p Hp; rewrite Hes; apply elem_of_app; by left).
  apply sys_ok_shrink with (s := s); try done; simpl; rewrite ?Hes; [|rewrite length_app; lia|apply balanced_prefix|intros; apply gone_quiet| |by left|apply H].
  - intros p Hp. apply elem_of_app. by right.
  - apply notes_ok_app; [apply H|]. intros a x b Hx. unfold gone_notes in Hx. rewrite !map_map in Hx. symmetry in Hx.
    assert (forall y, y ∈ a ++ x :: b -> exists p, p ∈ pre /\ y = NGivenUp GuLease (rl_key p.2) now (current (y_lease s))) as Hall.
    { rewrite Hx. intros y (p & -> & Hp)%list_elem_of_fmap. by exists p. }
    destruct (Hall x) as (p & Hp & ->); [apply elem_of_app; right; by left|]. simpl. exists (queued_at p.2). split; [|rewrite Forall_forall in Hf; by apply Hf].
    apply last_queued_app; [by apply (so_since _ _ H), Hsub|]. apply Forall_forall. intros y Hy. destruct (Hall y) as (q & _ & ->); [apply elem_of_app; by left|done].
Qed.

Lemma pushed_ok l s key now gone queued w : sys_ok l s -> 0 <= w_next_seq (y_rel s) < u64_MAX -> rq_push (current (y_lease s)) cap key now (y_rel s) = (gone, queued, w) ->
  sys_ok (l ++ gone_notes now (current (y_lease s)) gone ++ if queued then [NQueued key now] else []) (s <| y_rel := w |>) /\
  w_next_seq (y_rel s) <= w_next_seq w <= w_next_seq (y_rel s) + 1.
Proof.
  intros H Hn. unfold rq_push. destruct (rq_expire _ _ _) as [ex w1] eqn:Hx. apply expired_ok with (l := l) in Hx as (H1 & Hseq & _); [|done].
  case_bool_decide as Hk; [intros [= <- <- <-]; rewrite app_nil_r; split; [done|lia]|].
  destruct (room_loop _ _ _) as [[g es] bk] eqn:Hr. intros [= <- <- <-]. set (lease := current (y_lease s)) in *.
  pose proof (so_queue _ _ H1) as Hq1. simpl in Hq1. apply (room_loop_spec _ _ _ _ _ _ _ Hq1) in Hr as (Hok & (pre & Hes & ->) & Hlen).
  assert (sys_ok ((l ++ gone_notes now lease ex) ++ gone_notes now lease (map (pair GuCap) (keys_of pre))) (s <| y_rel := w1 <| w_entries := es |> <| w_by_key := bk |> |>)) as H2.
  { apply sys_ok_shrink with (s := s <| y_rel := w1 |>); try done; simpl; rewrite ?Hes; [|rewrite length_app; lia|apply balanced_prefix|intros; apply gone_quiet| |by left|apply H].
    - intros p Hp. apply elem_of_app. by right.
    - apply notes_ok_plain; [apply H1|]. unfold gone_notes. rewrite map_map. apply Forall_map, Forall_forall. done. }
  assert (bk !! key = None) as Hnone.
  { destruct (bk !! key) as [q|] eqn:Hb; [|done]. destruct (qo_entry _ _ _ Hok _ _ Hb) as (e & Hin & He). exfalso. apply Hk. exists q. rewrite <- He.
    apply (qo_index _ _ _ Hq1 (q, e)). rewrite Hes. apply elem_of_app. by right. }
  rewrite Hseq in *. destruct (queue_ok_push es bk (w_next_seq (y_rel s)) key now Hok Hnone Hn) as (Hok' & Hins & Hadd). simpl. rewrite Hadd. split; [|lia].
  assert (forall p, p ∈ es -> rl_key p.2 <> key) as Hother by (intros p Hp Heq; apply (qo_index _ _ _ Hok) in Hp; by rewrite Heq, Hnone in Hp).
  unfold gone_notes at 1. rewrite map_app, <- app_assoc. fold (gone_notes now lease ex). fold (gone_notes now lease (map (pair GuCap) (keys_of pre))). rewrite !app_assoc.
  set (l2 := (l ++ gone_notes now lease ex) ++ gone_notes now lease (map (pair GuCap) (keys_of pre))) in *.
  assert (forall p, p ∈ es -> quiet (rl_key p.2) [NQueued key now]) as Hquiet by (intros p Hp; constructor; [by apply not_eq_sym, Hother|constructor]).
  split; simpl.
  - by rewrite Hadd in Hok'.
  - rewrite Hins, length_app. simpl. destruct Hlen as [|Hlen]; [lia|]. rewrite Hlen. simpl. lia.
  - eapply balanced_trans; [apply H2|]. simpl. rewrite Hins. intros k. rewrite map_app, cnt_app. change (queued_keys [NQueued key now]) with [key]. change (answered_keys _) with (@nil string). change (given_up_keys _) with (@nil string). cbn [map rl_key snd count_occ]. lia.
  - rewrite Hins. intros p [Hp|Hp%list_elem_of_singleton]%elem_of_app.
    + apply last_queued_app; [by apply (so_since _ _ H2)|by apply Hquiet].
    + subst p. simpl. exists l2, []. split; [done|constructor].
  - intros seqs m done p Hreq Hp Hin. rewrite Hins in Hp. apply elem_of_app in Hp as [Hp|Hp%list_elem_of_singleton].
    + destruct (so_req _ _ H2 seqs m done p Hreq Hp Hin) as [Hkeys Hd]. split; [done|]. intros Ht. apply freed_since_app; [by apply Hd|by apply Hquiet].
    + subst p. pose proof (so_seqs _ _ H _ _ _ Hreq) as Hbelow. rewrite Forall_forall in Hbelow. apply Hbelow in Hin. simpl in Hin. lia.
  - intros seqs m done Hreq. pose proof (so_seqs _ _ H _ _ _ Hreq) as Hbelow. eapply Forall_impl; [exact Hbelow|]. simpl. lia.
  - apply H.
  - apply notes_ok_plain; [apply H2|]. by repeat constructor.
Qed.

Lemma step_shape lease now w gone st w' : rq_step lease now w = (gone, st, w') ->
  exists w1, rq_expire lease now w = (gone, w1) /\ w_entries w' = w_entries w1 /\ w_by_key w' = w_by_key w1 /\ w_next_seq w' = w_next_seq w1 /\
    (forall seqs keys, st = Send seqs keys -> seqs = map fst (take MAX_BATCH (w_entries w1)) /\ keys = keys_of (take MAX_BATCH (w_entries w1))).
Proof.
  unfold rq_step. destruct (rq_expire lease now w) as [g w1]. intros H. exists w1. destruct (w_entries w1) as [|[q e] es] eqn:He; [by injection H as <- <- <-|].
  destruct (w_held w1); [by injection H as <- <- <-|]. destruct (w_retry_at w1) as [at_|]; [destruct (now <? at_); [by injection H as <- <- <-|]|];
    injection H as <- <- <-; (split_and!; [done|done|done|done|]); intros seqs keys [= <- <-]; done.
Qed.
Lemma drained_ok l s now : sys_ok l s -> let '(n, s') := sys_step cfg cap max batch_tick s (EvDrain now) in sys_ok (l ++ n) s' /\ w_next_seq (y_rel s') = w_next_seq (y_rel s).
Proof.
  intros H. cbn [sys_step]. destruct (y_req s) as [r|] eqn:Hreq; [rewrite app_nil_r; done|]. destruct (rq_step _ _ _) as [[gone st] w] eqn:Hst.
  apply step_shape in Hst as (w1 & Hx & He & Hk & Hn & Hsend). apply expired_ok with (l := l) in Hx as (H1 & Hseq & _ & _); [|done].
  assert (sys_ok (l ++ gone_notes now (current (y_lease s)) gone) (s <| y_rel := w |>)) as H2.
  { rewrite <- (app_nil_r (gone_notes _ _ _)), app_assoc. apply sys_ok_same with (s := s <| y_rel := w1 |>); try done; [by left|apply H]. }
  destruct st as [seqs keys|until]; [|split; [done|simpl; congruence]]. destruct (Hsend _ _ eq_refl) as [-> ->]. split; [|simpl; congruence].
  pose proof (so_queue _ _ H2) as Hq. split; simpl; try apply H2.
  - intros seqs m done p [= <- <- <-] Hp Hin. split; [|done]. exists (keys_of (take MAX_BATCH (w_entries w1))). split; [by rewrite lookup_app_r, Nat.sub_diag by done|].
    apply list_elem_of_fmap in Hin as (q & Heq & Hin). apply list_elem_of_fmap. exists q. split; [|done]. assert (q ∈ w_entries w) as Hq' by (rewrite He; by apply elem_of_take in Hin as (? & ? & _); eapply list_elem_of_lookup_2).
    destruct p as [pq pe], q as [qq qe]. simpl in *. subst. by rewrite (keys_unique _ _ _ _ (qo_sorted _ _ _ Hq) Hp Hq').
  - intros seqs m done [= <- <- <-]. apply Forall_map, Forall_take. pose proof (qo_below _ _ _ Hq) as Hb. simpl in Hb. by rewrite He in Hb.
Qed.
Lemma settled_ok seqs w answered w' : w_ok w -> foldl settle_one ([], w) seqs = (answered, w') ->
  w_ok w' /\ w_next_seq w' = w_next_seq w /\ (forall p, p ∈ w_entries w' -> p ∈ w_entries w) /\ (length (w_entries w') <= length (w_entries w))%nat /\
  keys_of (w_entries w) ≡ₚ answered ++ keys_of (w_entries w') /\ (forall k, k ∈ answered -> exists p, p ∈ w_entries w /\ p.1 ∈ seqs /\ rl_key p.2 = k).
Proof.
  intros Hw. assert (forall acc seqs w w' answered, w_ok w -> foldl settle_one (acc, w) seqs = (answered, w') -> exists new, answered = acc ++ new /\
    w_ok w' /\ w_next_seq w' = w_next_seq w /\ (forall p, p ∈ w_entries w' -> p ∈ w_entries w) /\ (length (w_entries w') <= length (w_entries w))%nat /\
    keys_of (w_entries w) ≡ₚ new ++ keys_of (w_entries w') /\ (forall k, k ∈ new -> exists p, p ∈ w_entries w /\ p.1 ∈ seqs /\ rl_key p.2 = k)) as Hgen.
  { clear. intros acc seqs. revert acc. induction seqs as [|q seqs IH]; intros acc w w' answered Hw; cbn [foldl].
    { intros [= <- <-]. exists []. rewrite app_nil_r. split_and!; try done. by intros k ?%elem_of_nil. }
    unfold settle_one at 2. destruct (bt_get q (w_entries w)) as [e|] eqn:Hg.
    - destruct (settle_one_spec w q e Hw Hg) as [Hok Hp]. intros Hf. apply IH in Hf as (new & -> & Hw' & Hn & Hsub & Hlen & Hperm & Hkeys); [|exact Hok]. simpl in *.
      apply bt_get_Some in Hg. exists (rl_key e :: new). rewrite <- app_assoc. split_and!; try done.
      + intros p Hp'. by apply Hsub, elem_of_bt_remove in Hp' as [? _].
      + etrans; [exact Hlen|]. apply length_filter.
      + rewrite Hp, Hperm. done.
      + intros k [->|Hk]%elem_of_cons; [exists (q, e); split_and!; [done|by left|done]|]. destruct (Hkeys k Hk) as (p & [Hin _]%elem_of_bt_remove & Hs & He). exists p. split_and!; [done|by right|done].
    - intros Hf. apply IH in Hf as (new & -> & Hw' & Hn & Hsub & Hlen & Hperm & Hkeys); [|done]. exists new. split_and!; try done.
      intros k Hk. destruct (Hkeys k Hk) as (p & Hin & Hs & He). exists p. split_and!; [done|by right|done]. }
  intros Hf. apply Hgen in Hf as (new & -> & Hrest); [|done]. exact Hrest.
Qed.

Lemma answered_ok l s now : sys_ok l s -> let '(n, s') := sys_step cfg cap max batch_tick s (EvReleaseAnswered now) in sys_ok (l ++ n) s' /\ w_next_seq (y_rel s') = w_next_seq (y_rel s).
Proof.
  intros H. cbn [sys_step]. destruct (y_req s) as [[[seqs n] []]|] eqn:Hreq; [|by rewrite app_nil_r|by rewrite app_nil_r]. unfold rq_settle.
  destruct (foldl settle_one _ seqs) as [answered w] eqn:Hf. apply settled_ok in Hf as (Hw & Hn & Hsub & Hlen & Hp & Hans); [|apply H]. simpl in *. split; [|done].
  destruct (answered_given answered) as (Hg & Hq & Ha). apply sys_ok_shrink with (s := s); try done; simpl; [|intros; apply answered_quiet| |by right|apply H].
  - intros k. rewrite Hg, Hq, Ha. apply (Permutation_count_occ String.string_dec) with (x := k) in Hp. rewrite cnt_app in Hp. simpl. lia.
  - apply notes_ok_app; [apply H|]. intros a x b Hx. assert (forall y, y ∈ a ++ x :: b -> exists k, k ∈ answered /\ y = NAnswered k) as Hall.
    { rewrite <- Hx. intros y (k & -> & Hk)%list_elem_of_fmap. by exists k. }
    destruct (Hall x) as (k & Hk & ->); [apply elem_of_app; right; by left|]. simpl. destruct (Hans k Hk) as (p & Hin & Hs & <-).
    apply freed_since_app; [by apply (so_req _ _ H _ _ _ _ Hreq Hin Hs)|]. apply Forall_forall. intros y Hy. destruct (Hall y) as (q & _ & ->); [apply elem_of_app; by left|done].
Qed.
Lemma reachable_op t i ts op : reachable cfg t i -> t <= ts -> in_i64 (ts + lease_ms cfg) -> reachable cfg ts (run_op cfg ts op i).
Proof. intros [t0 Hs] Hle Hin. exists t0. by econstructor. Qed.
(** What a release leaves of a key it names. *)
Lemma release_frees t i ts keys k : reachable cfg t i -> t <= ts -> in_i64 (ts + lease_ms cfg) -> k ∈ keys ->
  calls (release cfg ts keys i) !! k = None /\ is_released (release cfg ts keys i) k = true.
Proof.
  intros Hr Hle Hin Hk. assert (is_released (release cfg ts keys i) k = true) as Hrel.
  { unfold release. generalize (sweep ts i) as j. clear -Hk. assert (forall u keys j, is_released j k = true -> is_released (foldl (release_one u) j keys) k = true) as Hkeep.
    { intros u keys0. induction keys0 as [|x keys0 IH]; intros j Hj; [done|]. apply IH. unfold release_one. change (is_released (upd_counters count_release j) x) with (is_released j x).
      destruct (is_released j x) eqn:Hx; [done|]. unfold is_released, fence. simpl. destruct (decide (x = k)) as [->|Hne]; [by rewrite lookup_insert_eq|]. rewrite lookup_insert_ne by done.
      unfold drop_set. by destruct (calls (upd_counters count_release j) !! x). }
    induction keys as [|x keys IH]; intros j; [by apply elem_of_nil in Hk|]. simpl. apply elem_of_cons in Hk as [<-|Hk]; [|by apply IH]. apply Hkeep. unfold release_one.
    change (is_released (upd_counters count_release j) k) with (is_released j k). destruct (is_released j k) eqn:Hx; [done|]. unfold is_released, fence. simpl. by rewrite lookup_insert_eq. }
  split; [|done]. apply (reachable_op _ _ ts (OpRelease keys)) in Hr; [|done|done]. apply reachable_wf in Hr. simpl in Hr. destruct (calls _ !! k) eqn:Hc; [|done].
  destruct (wf_set_alone _ _ Hr k) as [Hf _]; [by eexists|]. unfold is_released in Hrel. by rewrite Hf in Hrel.
Qed.
Lemma landed_ok l s n ts : sys_ok l s -> let '(m, s') := sys_step cfg cap max batch_tick s (EvReleaseLands n ts) in sys_ok (l ++ m) s' /\ w_next_seq (y_rel s') = w_next_seq (y_rel s).
Proof.
  intros H. cbn [sys_step]. destruct (y_net s !! n) as [keys|] eqn:Hnet; [|by rewrite app_nil_r]. unfold clock_ok. destruct (_ && _) eqn:Hc; [|by rewrite app_nil_r].
  apply andb_true_iff in Hc as [Ht Hin%bool_decide_eq_true]. apply Z.leb_le in Ht. set (i := y_store (at_store cfg ts (OpRelease keys) s)).
  assert (sys_ok (l ++ [NLanded keys i]) (at_store cfg ts (OpRelease keys) s)) as H1.
  { apply sys_ok_same with (s := s); try done; [by repeat constructor|by left|]. simpl. apply (reachable_op _ _ ts (OpRelease keys) (so_store _ _ H)); done. }
  split; [|done]. destruct H1 as [Hq Hl Hb Hs Hr Hsq Hst Hn]. split; try done; simpl in *.
  - destruct (y_req s) as [[[seqs m] dn]|] eqn:Hreq; [|done]. intros seqs' m' dn' p [= <- <- <-] Hp Hsq'. destruct (Hr seqs m dn p eq_refl Hp Hsq') as [Hk Hd]. split; [done|].
    intros [Hd'|Hnm%Nat.eqb_eq]%orb_true_iff; [by apply Hd|]. subst m. destruct Hk as (keys' & Hk1 & Hk2). rewrite Hnet in Hk1. injection Hk1 as <-.
    destruct (so_since _ _ H p Hp) as (a & b & -> & Hquiet). exists a, (queued_at p.2), b, keys, i, []. rewrite app_nil_r, <- app_assoc. split_and!; try done.
    + apply (release_frees (y_time s) (y_store s) ts keys _ (so_store _ _ H) Ht Hin Hk2).
    + apply (release_frees (y_time s) (y_store s) ts keys _ (so_store _ _ H) Ht Hin Hk2).
  - destruct (y_req s) as [[[seqs m] dn]|] eqn:Hreq; [|done]. intros seqs' m' dn' [= <- <- <-]. by eapply Hsq.
Qed.

Lemma store_ok l s ts op s' : sys_ok l s -> clock_ok cfg ts s = true -> y_rel s' = y_rel s -> y_req s' = y_req s -> y_net s' = y_net s ->
  y_time s' = ts -> y_store s' = run_op cfg ts op (y_store s) -> sys_ok l s'.
Proof.
  intros H Hc Hr Hq Hn Ht Hs. apply andb_true_iff in Hc as [Hc Hin%bool_decide_eq_true]. apply Z.leb_le in Hc. rewrite <- (app_nil_r l).
  apply sys_ok_same with (s := s); rewrite ?Hr, ?Hq, ?Hn, ?Ht, ?Hs; try done; [by left|]. apply (reachable_op (y_time s)); [apply H|done|done].
Qed.
Lemma sys_step_ok' l s e : sys_ok l s -> 0 <= w_next_seq (y_rel s) < u64_MAX ->
  let '(n, s') := sys_step cfg cap max batch_tick s e in sys_ok (l ++ n) s' /\ 0 <= w_next_seq (y_rel s') <= w_next_seq (y_rel s) + 1.
Proof.
  intros H Hn.
  assert (forall n s', sys_ok (l ++ n) s' -> w_next_seq (y_rel s') = w_next_seq (y_rel s) -> sys_ok (l ++ n) s' /\ 0 <= w_next_seq (y_rel s') <= w_next_seq (y_rel s) + 1) as Hsame by (intros n s' Hk Heq; split; [done|lia]).
  assert (forall n s', w_entries (y_rel s') = w_entries (y_rel s) -> w_by_key (y_rel s') = w_by_key (y_rel s) -> w_next_seq (y_rel s') = w_next_seq (y_rel s) ->
    Forall (fun x => match x with NRefreshSent _ | NHanded _ | NLanded _ _ => True | _ => False end) n -> y_req s' = y_req s \/ y_req s' = None -> y_net s' = y_net s ->
    y_time s' = y_time s -> y_store s' = y_store s -> sys_ok (l ++ n) s' /\ 0 <= w_next_seq (y_rel s') <= w_next_seq (y_rel s) + 1) as Hquiet.
  { intros n s' H1 H2 H3 H4 H5 H6 H7 H8. apply Hsame; [|done]. apply sys_ok_same with (s := s); try done. rewrite H7, H8. apply H. }
  destruct e as [lease|key|key now|key c h now|now|now|now|now|now| |now| |open| |now| |n ts|n ts|ts op]; cbn [sys_step].
  - apply Hquiet; try done; first [by left|by right].
  - apply Hquiet; try done; first [by left|by right].
  - destruct (rq_push _ _ _ _ _) as [[gone queued] w] eqn:Hp. apply pushed_ok with (l := l) in Hp as [Hp Hs]; [|done|done]. simpl. split; [done|lia].
  - apply Hquiet; try done; first [by left|by right].
  - pose proof (drained_ok l s now H) as Hd. cbn [sys_step] in Hd. destruct (match y_req s with Some _ => _ | None => _ end) as [n s']. destruct Hd. by apply Hsame.
  - pose proof (answered_ok l s now H) as Hd. cbn [sys_step] in Hd. destruct (match y_req s with Some _ => _ | None => _ end) as [n s']. destruct Hd. by apply Hsame.
  - destruct (y_req s) as [[[seqs n] dn]|] eqn:Hreq; [|apply Hquiet; try done; first [by left|by right]]. apply Hquiet; try done; by right.
  - apply Hquiet; try done; by right.
  - destruct (y_ref_req s); [apply Hquiet; try done; first [by left|by right]|]. destruct (rb_take _ _ _ _) as [[calls|] d]; (apply Hquiet; try done; [by repeat constructor|by left]) || (apply Hquiet; try done; by left).
  - destruct (y_ref_req s) as [[[calls n] [replies|]]|]; try (apply Hquiet; try done; first [by left|by right]). destruct (rb_settle _ _ _) as [handed d]. apply Hquiet; try done; [|by left]. apply Forall_map. by apply Forall_true.
  - destruct (y_ref_req s); apply Hquiet; try done; by left.
  - apply Hquiet; try done; by left.
  - unfold breaker_apply. destruct (Bool.eqb _ _); [apply Hquiet; try done; first [by left|by right]|]. destruct open; apply Hquiet; try done; by left.
  - unfold flush_begin. destruct (w_stopped _); apply Hquiet; try done; by left.
  - unfold give_up_all. apply Hsame; [|done]. apply sys_ok_shrink with (s := s); try done; simpl.
    + split; simpl; [constructor|constructor|by intros ? ?%elem_of_nil|done].
    + by intros p ?%elem_of_nil.
    + lia.
    + pose proof (balanced_prefix now (current (y_lease s)) GuShutdown (w_entries (y_rel s)) []) as Hb. by rewrite app_nil_r in Hb.
    + intros k. apply gone_quiet.
    + apply notes_ok_plain; [apply H|]. unfold gone_notes. rewrite map_map. apply Forall_map, Forall_forall. done.
    + by left.
    + apply H.
  - apply Hquiet; try done; by left.
  - pose proof (landed_ok l s n ts H) as Hd. cbn [sys_step] in Hd. destruct (match y_net s !! n with Some _ => _ | None => _ end) as [m s']. destruct Hd. by apply Hsame.
  - destruct (y_ref_net s !! n) as [calls|]; [|apply Hquiet; try done; first [by left|by right]]. destruct (clock_ok cfg ts s) eqn:Hc; [|apply Hquiet; try done; first [by left|by right]].
    apply Hsame; [|done]. rewrite app_nil_r. by eapply (store_ok l s ts (OpRefresh (refresh_ops calls))).
  - destruct (clock_ok cfg ts s) eqn:Hc; [|apply Hquiet; try done; first [by left|by right]]. apply Hsame; [|done]. rewrite app_nil_r. by eapply (store_ok l s ts op).
Qed.
Lemma sys_run_ok' evs l s : sys_ok l s -> 0 <= w_next_seq (y_rel s) -> w_next_seq (y_rel s) + Z.of_nat (length evs) <= u64_MAX ->
  let '(n, s') := sys_run cfg cap max batch_tick s evs in sys_ok (l ++ n) s'.
Proof.
  revert l s. induction evs as [|e evs IH]; intros l s H H0 Hle; cbn [sys_run]; [by rewrite app_nil_r|]. cbn [length] in Hle.
  pose proof (sys_step_ok' l s e H ltac:(lia)) as Hs. destruct (sys_step _ _ _ _ s e) as [n s1]. destruct Hs as [H1 Hn]. specialize (IH (l ++ n) s1 H1 ltac:(lia) ltac:(lia)).
  destruct (sys_run _ _ _ _ s1 evs) as [m s2]. by rewrite app_assoc.
Qed.

(** C28: no release is lost.  Over any interleaving of releases, refreshes, sends,
    answers, failures, panics, breaker turns, flushes and leases learnt, with
    requests that reach the store late, twice or never and any other client's
    operations on it: the releases queued are those waiting, those answered and
    those given up, each once; the queue holds a key once and within its cap; a
    release leaves as answered only after the store, since it was last queued,
    executed a release of its key, after which it held nothing for the call and
    fenced it; and one is given up as expired only a whole lease after it was
    queued. *)
Theorem releases_accounted lease t0 evs l s :
  sys_run cfg cap max batch_tick (sys_start lease t0) evs = (l, s) -> Z.of_nat (length evs) <= u64_MAX ->
  queued_keys l ≡ₚ waiting_keys (y_rel s) ++ answered_keys l ++ given_up_keys l /\
  NoDup (waiting_keys (y_rel s)) /\ (length (waiting_keys (y_rel s)) <= cap)%nat /\
  (forall a k b, l = a ++ NAnswered k :: b -> freed_since a k) /\
  (forall a k now le b, l = a ++ NGivenUp GuLease k now le :: b -> exists at_, last_queued a k at_ /\ at_ + le <= now).
Proof.
  intros Hr Hle. pose proof (sys_run_ok' evs [] (sys_start lease t0) (sys_ok_start lease t0) ltac:(done) Hle) as H. rewrite Hr in H. simpl in H. split_and!.
  - apply (Permutation_count_occ String.string_dec). intros k. pose proof (so_account _ _ H k) as Hb. simpl in Hb. rewrite !cnt_app. unfold waiting_keys. lia.
  - by eapply queue_keys_NoDup, H.
  - unfold waiting_keys. rewrite length_map. apply H.
  - intros a k b ->. by apply (so_notes _ _ H a (NAnswered k) b).
  - intros a k now le b ->. by apply (so_notes _ _ H a (NGivenUp GuLease k now le) b).
Qed.
End accounts.

(** ** A call that ended is not refreshed *)

(** The batch has nothing of [k], waiting or in flight. *)
Definition unmarked (k : string) (d : Due) : Prop := d_by_key d !! k = None /\ d_in_flight d !! k = None.
Lemma due_expire_none lease now k o bk gone o' bk' : due_expire_loop lease now o bk = (gone, o', bk') -> bk !! k = None -> bk' !! k = None.
Proof.
  revert bk gone o' bk'. induction o as [|[[at_ q] key] o IH]; intros bk gone o' bk'; cbn [due_expire_loop]; [by intros [= _ _ <-]|].
  destruct (now <? at_ + lease); [by intros [= _ _ <-]|]. destruct (due_expire_loop _ _ _ _) as [[g o1] bk1] eqn:Hx. intros [= _ _ <-] Hk. eapply IH; [exact Hx|]. rewrite lookup_delete_None. by right.
Qed.
Lemma unmarked_expire k lease now d : unmarked k d -> unmarked k (rb_expire lease now d).2.
Proof. intros [H1 H2]. unfold rb_expire. destruct (due_expire_loop _ _ _ _) as [[g o] bk] eqn:Hx. split; [|done]. simpl. by eapply due_expire_none. Qed.
Lemma due_room_none cap n k o bk gone o' bk' : due_room_loop cap n o bk = (gone, o', bk') -> bk !! k = None -> bk' !! k = None.
Proof.
  revert bk gone o' bk'. induction o as [|[p key] o IH]; intros bk gone o' bk'; cbn [due_room_loop]; destruct (_ <? _)%nat; try (by intros [= _ _ <-]).
  destruct (due_room_loop _ _ _ _) as [[g o1] bk1] eqn:Hx. intros [= _ _ <-] Hk. eapply IH; [exact Hx|]. rewrite lookup_delete_None. by right.
Qed.
Lemma unmarked_mark k lease cap key c h now d : key <> k -> unmarked k d -> unmarked k (rb_mark lease cap key c h now d).2.
Proof.
  intros Hne H. unfold rb_mark. pose proof (unmarked_expire k lease now d H) as He. destruct (rb_expire lease now d) as [ex d1]. simpl in He. destruct He as [H1 H2].
  destruct (d_by_key d1 !! key) as [e|]; [split; [simpl; by rewrite lookup_insert_ne|done]|]. destruct (due_room_loop _ _ _ _) as [[g [o|]] bk] eqn:Hx;
    (pose proof (due_room_none _ _ k _ _ _ _ _ Hx H1) as Hk); split; try done. simpl. by rewrite lookup_insert_ne.
Qed.
Lemma take_loop_none k o : forall max d calls d', unmarked k d -> take_loop max o d = (calls, d') -> unmarked k d' /\ k ∉ map rc_key calls.
Proof.
  induction o as [|[p key] o IH]; intros [|n] d calls d' Hu; cbn [take_loop]; try (by intros [= <- <-]; split; [done|apply not_elem_of_nil]).
  destruct (d_by_key d !! key) as [e|] eqn:He; [|by apply IH]. assert (key <> k) as Hne by (intros ->; destruct Hu as [Hu _]; congruence).
  destruct (take_loop n o _) as [cs d1] eqn:Hx. apply IH in Hx as [Hu' Hout].
  - intros [= <- <-]. split; [done|]. simpl. apply not_elem_of_cons. by split; [apply not_eq_sym|].
  - destruct Hu as [H1 H2]. split; simpl; [rewrite lookup_delete_None; by right|by rewrite lookup_insert_ne].
Qed.
Lemma unmarked_put_back k d : unmarked k d -> unmarked k (put_back d).
Proof.
  intros [H1 H2]. unfold put_back. assert (Forall (fun p => p.1 <> k) (map_to_list (d_in_flight d))) as Hf.
  { apply Forall_forall. intros [k' e] Hin Heq. simpl in Heq. subst k'. apply elem_of_map_to_list in Hin. congruence. }
  assert (unmarked k (d <| d_in_flight := ∅ |>)) as Hu by (split; [done|apply lookup_empty]). revert Hf Hu. generalize (map_to_list (d_in_flight d)) as l, (d <| d_in_flight := ∅ |>) as d0.
  induction l as [|[k' e] l IH]; intros d0 Hf Hu; [done|]. apply Forall_cons in Hf as [Hne Hf]. simpl in *. apply IH; [done|]. unfold put_back_one. case_bool_decide; [done|].
  destruct Hu as [Hu1 Hu2]. split; simpl; [by rewrite lookup_insert_ne|done].
Qed.
Lemma replies_none k calls : forall replies fl, fl !! k = None -> Forall (fun a => an_key a <> k) (settle_replies calls replies fl).
Proof.
  induction calls as [|c calls IH]; intros [|r replies] fl Hk; cbn [settle_replies]; try constructor. assert (delete (rc_key c) fl !! k = None) as Hd by (rewrite lookup_delete_None; by right).
  destruct (_ && _); [by apply IH|]. destruct (fl !! rc_key c) eqn:Hc; [|by apply IH]. constructor; [|by apply IH]. intros Heq. simpl in Heq. rewrite Heq in Hc. congruence.
Qed.
(** What a note says of a refresh of [k]: nothing sent, nothing handed. *)
Definition no_refresh (k : string) (x : Note) : Prop :=
  match x with NRefreshSent calls => k ∉ map rc_key calls | NHanded a => an_key a <> k | _ => True end.
Lemma unmarked_step cfg cap max tick k s e : unmarked k (y_ref s) -> (forall c h now, e <> EvMark k c h now) ->
  let '(n, s') := sys_step cfg cap max tick s e in unmarked k (y_ref s') /\ Forall (no_refresh k) n.
Proof.
  intros Hu He. assert (forall now lease l, Forall (no_refresh k) (gone_notes now lease l)) as Hgone by (intros; apply Forall_map, Forall_forall; done).
  destruct e as [lease|key|key now|key c h now|now|now|now|now|now| |now| |open| |now| |n ts|n ts|ts op]; cbn [sys_step]; try (by split).
  - split; [|done]. destruct Hu as [H1 H2]. split; simpl; rewrite lookup_delete_None; by right.
  - destruct (rq_push _ _ _ _ _) as [[gone queued] w]. split; [done|]. apply Forall_app. split; [done|]. by destruct queued; repeat constructor.
  - split; [|done]. simpl. apply unmarked_mark; [|done]. intros ->. by eapply He.
  - destruct (y_req s); [by split|]. destruct (rq_step _ _ _) as [[gone st] w]. split; [by destruct st|done].
  - destruct (y_req s) as [[[seqs n] []]|]; try (by split). destruct (rq_settle _ _ _ _) as [answered w]. split; [done|]. apply Forall_map. by apply Forall_true.
  - by destruct (y_req s) as [[[seqs n] dn]|].
  - destruct (y_ref_req s); [by split|]. unfold rb_take. pose proof (unmarked_expire k (current (y_lease s)) now _ Hu) as Hx. destruct (rb_expire _ _ _) as [ex d1]. simpl in Hx.
    destruct (_ || _); [by split|]. destruct (take_loop _ _ _) as [calls d] eqn:Ht. apply take_loop_none with (k := k) in Ht as [Ht1 Ht2]; [|done]. split; [done|]. by repeat constructor.
  - destruct (y_ref_req s) as [[[calls n] [replies|]]|]; try (by split). simpl. split; [split; [apply Hu|apply lookup_empty]|]. apply Forall_map. eapply Forall_impl; [by apply replies_none, Hu|done].
  - destruct (y_ref_req s); [|by split]. split; [|done]. simpl. pose proof (unmarked_put_back k _ Hu) as [Hp1 Hp2]. by split.
  - split; [|done]. simpl. by apply unmarked_put_back.
  - unfold breaker_apply. destruct (Bool.eqb _ _); [by split|]. by destruct open.
  - destruct (flush_begin _) as [[n w]|]; by split.
  - destruct (y_net s !! n); [|by split]. destruct (clock_ok _ _ _); [|by split]. split; [done|]. by repeat constructor.
  - destruct (y_ref_net s !! n); [|by split]. by destruct (clock_ok _ _ _).
  - by destruct (clock_ok _ _ _).
Qed.
(** A call whose release was handed to the queue is not refreshed: from the
    [forget] of its key on, and until its key is marked again, no refresh sent
    names it, whatever fails or is put back, and no answer is handed to it. *)
Theorem ended_call_not_refreshed cfg cap max tick s k evs l s' :
  sys_run cfg cap max tick (s <| y_ref := (rb_forget k (y_ref s)).2 |>) evs = (l, s') -> (forall c h now, EvMark k c h now ∉ evs) -> Forall (no_refresh k) l /\ unmarked k (y_ref s').
Proof.
  assert (unmarked k (y_ref (s <| y_ref := (rb_forget k (y_ref s)).2 |>))) as Hu by (split; simpl; apply lookup_delete_eq). revert Hu. generalize (s <| y_ref := (rb_forget k (y_ref s)).2 |>) as s0.
  revert l s'. induction evs as [|e evs IH]; intros l s' s0 Hu; cbn [sys_run]; [by intros [= <- <-] _|]. intros Hr Hm. pose proof (unmarked_step cfg cap max tick k s0 e Hu) as Hs.
  destruct (sys_step _ _ _ _ s0 e) as [n s1]. destruct Hs as [Hu1 Hn]; [intros c h now ->; apply (Hm c h now); by left|]. destruct (sys_run _ _ _ _ s1 evs) as [m s2] eqn:Hr2. injection Hr as <- <-.
  destruct (IH m s2 s1 Hu1 Hr2) as [Hf Hlast]; [intros c h now Hin; apply (Hm c h now); by right|]. split; [by apply Forall_app|done].
Qed.

(** ** Pace, drain and a call's own state *)

(** One refresh may be missed: under a lease of at least six milliseconds the
    second of two refreshes with one missed between them leaves, its tick
    included, at most five sixths of the lease after the first, whatever period
    and tick are configured. *)
Theorem missed_refresh_fits p configured lease : TICKS_PER_LEASE * MIN_TICK <= lease -> 6 * (2 * refresh_period p lease + refresh_tick configured lease) <= 5 * lease.
Proof.
  unfold TICKS_PER_LEASE, PERIODS_PER_LEASE, MIN_TICK, refresh_period, refresh_tick, PERIODS_PER_LEASE, TICKS_PER_LEASE, MIN_TICK, MILLI. intros Hl.
  pose proof (Z.mul_div_le lease 3 ltac:(lia)). pose proof (Z.mul_div_le lease (2 * 3) ltac:(lia)). pose proof (Z.div_le_lower_bound lease (2 * 3) 1000000 ltac:(lia) ltac:(lia)).
  destruct p as [p|]; cbn [period]; unfold PERIODS_PER_LEASE in *; lia.
Qed.

(** One send that the limiter answers. *)
Definition round (lease now : Z) (w : Waiting) : Waiting :=
  match rq_step lease now w with (_, Send seqs _, w) => (rq_settle seqs AnsReleased now w).2 | (_, Wait _, w) => w end.
Lemma settle_head n q e es bk next : queue_ok ((q, e) :: es) bk next -> forall w, w_entries w = (q, e) :: es -> w_by_key w = bk -> w_next_seq w = next ->
  w_entries (foldl settle_one ([], w) (map fst (take n ((q, e) :: es)))).2 = drop n ((q, e) :: es) /\
  w_held (foldl settle_one ([], w) (map fst (take n ((q, e) :: es)))).2 = w_held w /\ w_ok (foldl settle_one ([], w) (map fst (take n ((q, e) :: es)))).2.
Proof.
  assert (forall n es bk next acc w, queue_ok es bk next -> w_entries w = es -> w_by_key w = bk -> w_next_seq w = next ->
    let w' := (foldl settle_one (acc, w) (map fst (take n es))).2 in w_entries w' = drop n es /\ w_held w' = w_held w /\ w_ok w') as H.
  { clear. intros n es. revert n. induction es as [|[q e] es IH]; intros [|n] bk next acc w Hq He Hb Hn; cbn [take map fst foldl drop]; cbv zeta; try (cbn [snd]; split_and!; [done|done|by rewrite He, Hb, Hn]).
    set (w1 := w <| w_entries ::= bt_remove q |> <| w_by_key ::= delete (rl_key e) |>).
    assert (settle_one (acc, w) q = (acc ++ [rl_key e], w1)) as ->.
    { unfold settle_one. assert (bt_get q (w_entries w) = Some e) as -> by (rewrite He; apply bt_get_elem; [apply Hq|by left]). done. }
    assert (w_entries w1 = es) as H1 by (simpl; rewrite He; apply bt_remove_head, Hq). apply (IH n (delete (rl_key e) bk) next (acc ++ [rl_key e]) w1); [by apply (queue_ok_tail (q, e))|done|simpl; by rewrite Hb|done]. }
  intros Hq w He Hb Hn. by apply (H n ((q, e) :: es) bk next [] w).
Qed.
(** An answering limiter empties the queue: from a queue neither held nor backing
    off, with no entry past its lease, each send answered takes out the thousand
    oldest, so a send per thousand waiting leaves none. *)
Theorem answered_queue_drains lease now n : forall w, w_ok w -> w_held w = false -> w_retry_at w = None ->
  Forall (fun p => now < queued_at p.2 + lease) (w_entries w) -> (length (w_entries w) <= n * MAX_BATCH)%nat -> w_entries (Nat.iter n (round lease now) w) = [].
Proof.
  induction n as [|n IH]; intros w Hq Hh Hr Hf Hl; [simpl in *; apply nil_length_inv; lia|]. rewrite Nat.iter_succ_r. unfold round at 2, rq_step, rq_expire.
  assert (expire_loop lease now (w_entries w) (w_by_key w) = ([], w_entries w, w_by_key w)) as ->.
  { destruct (w_entries w) as [|[q e] es]; [done|]. cbn [expire_loop]. apply Forall_cons in Hf as [Hf _]. simpl in Hf. destruct (Z.ltb_spec now (queued_at e + lease)); [done|lia]. }
  set (w1 := w <| w_entries := w_entries w |> <| w_by_key := w_by_key w |>). destruct (w_entries w1) as [|[q e] es] eqn:He.
  { apply IH; try done. rewrite He. simpl. lia. }
  replace (w_held w1) with false by done. replace (w_retry_at w1) with (@None Z) by (simpl; done). unfold rq_settle.
  destruct (settle_head MAX_BATCH q e es (w_by_key w) (w_next_seq w)) with (w := w1 <| w_sending := true |> <| w_sending := false |>) as (H1 & H2 & H3); [by rewrite <- He|done|done|done|].
  destruct (foldl settle_one _ _) as [answered w2]. cbn [snd] in H1, H2, H3. apply IH; cbn [snd modify set_w_failures set_w_retry_at w_entries w_held w_retry_at].
  - exact H3.
  - by rewrite H2.
  - done.
  - rewrite H1. apply Forall_drop. by rewrite <- He.
  - rewrite H1, <- He, length_drop. change (w_entries w1) with (w_entries w). lia.
Qed.

(** The operations on a call's admission state. *)
Inductive CallOp :=
  | COweConsult (n : Z) | CReplace (es : list AdmitEntry) (moves : bool) | CRenumberConsult (n : Z) | CRenumberReplacement (es : list AdmitEntry)
  | CNumberAdmit | CEnterEpoch | CAdmit (r : AdmitReport) | CFold (r : AdmitReport) (runs_route : bool) | CUnawaitedFold (r : AdmitReport)
  | CRefresh (key : string) (h : option HeldSet) | CMerge (other : CallLimiterState).
Definition call_op (op : CallOp) (c : CallLimiterState) : CallLimiterState :=
  match op with
  | COweConsult n => (owe_consult n c).2
  | CReplace es moves => (replace_set es moves c).2
  | CRenumberConsult n => (renumber_consult n c).2
  | CRenumberReplacement es => (renumber_replacement es c).2
  | CNumberAdmit => (number_admit c).2
  | CEnterEpoch => enter_epoch c
  | CAdmit r => apply_admit r c
  | CFold r runs_route => apply_fold r runs_route c
  | CUnawaitedFold r => apply_unawaited_fold r c
  | CRefresh key h => (apply_refresh key h c).2
  | CMerge other => merge_change other c
  end.
(** A call refreshes only once counted, and change numbers stay in range. *)
Definition op_fits (c : CallLimiterState) (op : CallOp) : Prop :=
  match op with
  | COweConsult n | CRenumberConsult n => cl_change c + Z.max n 1 <= u64_MAX
  | CReplace _ _ | CRenumberReplacement _ | CNumberAdmit => cl_change c < u64_MAX
  | CEnterEpoch => (cl_change c / CHANGE_EPOCH + 1) * CHANGE_EPOCH <= u64_MAX
  | CRefresh _ _ => cl_admit_sent c = true /\ cl_release_owed c = true
  | _ => True
  end.
Record call_ok (c : CallLimiterState) : Prop := mkCallOk {
  ca_counted : counted c = true -> cl_release_owed c = true /\ cl_admit_sent c = true;
  ca_held : 0 <= cl_held_change c <= cl_change c;
  ca_target : cl_target_change c <= cl_change c }.
(** What an operation keeps: the invariant, and that nothing goes back. *)
Record call_forward (c c' : CallLimiterState) : Prop := mkForward {
  fw_ok : call_ok c';
  fw_held : cl_held_change c <= cl_held_change c';
  fw_change : cl_change c <= cl_change c';
  fw_owed : cl_release_owed c = true -> cl_release_owed c' = true }.
Lemma forward_trans a b c : call_forward a b -> call_forward b c -> call_forward a c.
Proof. intros [_ A1 A2 A3] [B0 B1 B2 B3]. split; [done|lia|lia|auto]. Qed.
Lemma reserved n c : 0 <= cl_change c -> cl_change c + Z.max n 1 <= u64_MAX -> reserve_changes n c = (cl_change c + 1, c <| cl_change := cl_change c + Z.max n 1 |>).
Proof. intros H0 Hn. unfold reserve_changes, u64_add, u64_wrap. unfold u64_MAX in Hn. by rewrite !Z.mod_small by lia. Qed.
Lemma apply_held_forward h c : call_ok c -> cl_release_owed c = true -> cl_admit_sent c = true -> 0 <= hs_change h -> call_forward c (apply_held h c).
Proof.
  intros [Hc Hh Ht] Ho Ha H0. unfold apply_held. cbn [cl_held_change modify set_cl_change]. destruct (Z.ltb_spec (hs_change h) (cl_held_change c)); (split; [split|..]); simpl; try done; try lia.
Qed.
Lemma apply_admit_forward r c : call_ok c -> 0 <= rp_change r -> (forall h, report_held r = Some h -> 0 <= hs_change h) -> call_forward c (apply_admit r c).
Proof.
  intros H H0 Hh. unfold apply_admit. set (sent := bool_decide _). set (c1 := c <| cl_release_owed ::= orb sent |> <| cl_admit_sent ::= orb sent |> <| cl_change ::= Z.max (rp_change r) |>).
  assert (call_forward c c1 /\ cl_change c1 >= rp_change r) as [F1 Hr1].
  { split; [|simpl; lia]. destruct H as [Hc Hd Ht]. split; [split|..]; simpl; try lia; [|intros ->; apply orb_true_r]. intros Hct. destruct (Hc Hct) as [-> ->]. by rewrite !orb_true_r. }
  set (c2 := match report_held r with Some h => apply_held h c1 | None => c1 end).
  assert (call_forward c1 c2) as F2.
  { unfold c2. destruct (report_held r) as [h|] eqn:Hrh; [|split; [apply F1|lia|lia|done]]. assert (sent = true) as Hs by (unfold sent, report_held, report_owed_release in *; by destruct (rp_outcome r)).
    apply apply_held_forward; [apply F1|simpl; by rewrite Hs|simpl; by rewrite Hs|by apply Hh]. }
  set (c3 := match rp_outcome r with OReleased => _ | _ => _ end).
  assert (call_forward c2 c3) as F3.
  { destruct F2 as [[F1' F2' F3'] _ _ _]. unfold c3. destruct (rp_outcome r); split; simpl; try lia; try done; split; simpl; done. }
  assert (cl_change c3 >= rp_change r) as Hr3 by (pose proof (fw_change _ _ F2); pose proof (fw_change _ _ F3); lia).
  assert (call_forward c3 (if rp_change r <? cl_target_change c3 then c3 else
    c3 <| cl_target := match rp_outcome r with ORejected _ _ | OSuperseded _ => cl_held c3 | _ => rp_entries r end |> <| cl_target_change := rp_change r |>)) as F4.
  { destruct F3 as [[G1 G2 G3] _ _ _]. destruct (_ <? _); split; simpl; try lia; try done; split; simpl; try done; lia. }
  exact (forward_trans _ _ _ F1 (forward_trans _ _ _ F2 (forward_trans _ _ _ F3 F4))).
Qed.
Lemma fold_forward r c : call_ok c -> 0 <= rp_change r -> (forall h, report_held r = Some h -> 0 <= hs_change h) -> call_forward c (apply_unawaited_fold r c).
Proof.
  intros [X1 X2 X3] N1 N2. assert (call_ok (c <| cl_consults_open ::= fun k => Z.max 0 (k - 1) |>)) as Hk by (split; [exact X1|exact X2|exact X3]).
  destruct (apply_admit_forward r _ Hk N1 N2) as [B0 B4 B5 B6]. split; [exact B0|exact B4|exact B5|exact B6].
Qed.
Definition op_numbers (op : CallOp) : Prop :=
  match op with
  | CAdmit r | CFold r _ | CUnawaitedFold r => 0 <= rp_change r /\ forall h, report_held r = Some h -> 0 <= hs_change h
  | CRefresh _ (Some h) => 0 <= hs_change h
  | _ => True
  end.
Lemma call_ok_same c c' : call_ok c -> cl_held c' = cl_held c -> cl_held_change c' = cl_held_change c -> cl_target_change c' <= cl_change c' -> cl_change c <= cl_change c' ->
  (cl_release_owed c = true -> cl_release_owed c' = true) -> (cl_admit_sent c = true -> cl_admit_sent c' = true) -> call_forward c c'.
Proof.
  intros [H1 H2 H3] Hh Hhc Ht Hc Ho Ha. split; [split|..]; rewrite ?Hhc; try lia; [|done]. unfold counted in *. rewrite Hh. intros Hct. destruct (H1 Hct). auto.
Qed.
Lemma asked_target ch es c : cl_target_change c <= cl_change c -> ch <= cl_change c ->
  let c' := ask ch es c in cl_target_change c' <= cl_change c' /\ cl_change c' = cl_change c /\ cl_held c' = cl_held c /\ cl_held_change c' = cl_held_change c /\
    cl_release_owed c' = cl_release_owed c /\ cl_admit_sent c' = cl_admit_sent c.
Proof. intros H1 H2. unfold ask. destruct (_ <? _); simpl; by repeat split. Qed.
(** A call owes the release of what it may hold, and no answer rolls it back:
    every operation keeps that a counted call owes its release and sent an admit,
    that its change counter is above every number it knows; and moves neither
    the number its held set is stated under nor the counter back, nor clears the
    release owed, in whatever order reports and refresh answers come. *)
Theorem call_state_forward op c : call_ok c -> op_fits c op -> op_numbers op -> call_forward c (call_op op c).
Proof.
  intros H Hf Hn. assert (0 <= cl_change c) as H0 by (pose proof (ca_held _ H); lia). pose proof (ca_target _ H) as Ht. destruct op; cbn [call_op op_fits op_numbers] in *.
  - unfold owe_consult. rewrite reserved by (simpl; done). cbn [snd]. apply call_ok_same; try done; simpl; lia.
  - unfold replace_set. set (c0 := if moves then _ else c). assert (cl_change c0 = cl_change c /\ cl_held c0 = cl_held c /\ cl_held_change c0 = cl_held_change c /\ cl_target_change c0 = cl_target_change c /\
      cl_release_owed c0 = cl_release_owed c /\ cl_admit_sent c0 = cl_admit_sent c) as (E1 & E2 & E3 & E4 & E5 & E6) by (by destruct moves).
    rewrite reserved by lia. destruct (asked_target (cl_change c0 + 1) es (c0 <| cl_change := cl_change c0 + Z.max 1 1 |>)) as (A1 & A2 & A3 & A4 & A5 & A6); [simpl; lia|simpl; lia|]. simpl in A2, A3, A4, A5, A6.
    destruct (_ && _); cbn [snd]; apply call_ok_same; try done; simpl; try congruence; try lia.
  - unfold renumber_consult. rewrite reserved by done. cbn [snd]. apply call_ok_same; try done; simpl; lia.
  - unfold renumber_replacement. rewrite reserved by lia. cbn [snd]. destruct (asked_target (cl_change c + 1) es (c <| cl_change := cl_change c + Z.max 1 1 |>)) as (A1 & A2 & A3 & A4 & A5 & A6); [simpl; lia|simpl; lia|].
    simpl in A2, A3, A4, A5, A6. apply call_ok_same; try done; simpl; try congruence; lia.
  - unfold number_admit. rewrite reserved by lia. cbn [snd]. apply call_ok_same; try done; simpl; lia.
  - unfold enter_epoch. assert (u64_wrap ((cl_change c / CHANGE_EPOCH + 1) * CHANGE_EPOCH) = (cl_change c / CHANGE_EPOCH + 1) * CHANGE_EPOCH) as Hw.
    { unfold u64_wrap. unfold u64_MAX in Hf. apply Z.mod_small. pose proof (Z.div_pos (cl_change c) CHANGE_EPOCH H0 ltac:(done)). unfold CHANGE_EPOCH in *. lia. }
    assert (cl_change c <= (cl_change c / CHANGE_EPOCH + 1) * CHANGE_EPOCH) as Hup by (unfold CHANGE_EPOCH; pose proof (Z.mod_pos_bound (cl_change c) (2 ^ 32) ltac:(lia)); pose proof (Z.div_mod (cl_change c) (2 ^ 32) ltac:(lia)); lia).
    apply call_ok_same; try done; cbn [cl_change cl_target_change modify set_cl_change]; rewrite Hw; lia.
  - destruct Hn. by apply apply_admit_forward.
  - destruct Hn as [N1 N2]. destruct (fold_forward r c H N1 N2) as [[B1 B2 B3] B4 B5 B6]. split; [split; [exact B1|exact B2|exact B3]|exact B4|exact B5|exact B6].
  - destruct Hn as [N1 N2]. exact (fold_forward r c H N1 N2).
  - destruct Hf as [Ha Ho]. assert (call_forward c c) as Hid by (split; [done|lia|lia|done]). unfold apply_refresh. destruct (_ || _); [exact Hid|]. destruct h as [h|]; [|exact Hid]. by apply apply_held_forward.
  - destruct H as [H1 H2 H3]. unfold merge_change. split; [split|..]; simpl; try lia; [|intros ->; apply orb_true_r]. intros Hc. destruct (H1 Hc) as [-> ->]. by rewrite orb_true_r.
Qed.
(** Two statements taken in either order leave the newer one's set. *)
Theorem statements_commute a b c : hs_change a <> hs_change b -> call_held_set (apply_held a (apply_held b c)) = call_held_set (apply_held b (apply_held a c)).
Proof.
  intros Hne. unfold call_held_set, apply_held. simpl. destruct (Z.ltb_spec (hs_change b) (cl_held_change c)), (Z.ltb_spec (hs_change a) (cl_held_change c)); simpl;
    repeat match goal with |- context [?x <? ?y] => destruct (Z.ltb_spec x y) end; simpl; try done; lia.
Qed.

(** A call admitted and released while another waits; the breaker holds a third. *)
Definition ex_releases : list Ev :=
  [EvStore 500 (OpAdmit "k" 1 HeldSet_default [trunk 2] false); EvPush "k" 0; EvPush "j" 1; EvDrain 2; EvReleaseLands 0 1000; EvReleaseAnswered 3;
   EvBreaker true; EvPush "m" 4; EvPush "n" 5; EvPush "o" 6; EvDrain 7].
Definition ex_released : list Note * Sys := sys_run cfg120 2 10 MILLI (sys_start (lease_of_config 40 1000) 0) ex_releases.
Lemma releases_accounted_witness :
  (answered_keys ex_released.1 = ["k"; "j"] /\ given_up_keys ex_released.1 = ["m"] /\ waiting_keys (y_rel ex_released.2) = ["n"; "o"]) /\
  queued_keys ex_released.1 ≡ₚ waiting_keys (y_rel ex_released.2) ++ answered_keys ex_released.1 ++ given_up_keys ex_released.1.
Proof.
  split; [vm_compute; done|]. refine (proj1 (releases_accounted cfg120 2 10 MILLI _ (lease_of_config 40 1000) 0 ex_releases _ _ _ _)).
  - lia.
  - apply surjective_pairing.
  - vm_compute. discriminate.
Defined.
