(* ===== verification/ReplFrame.v ===== *)
(** * Replication frames and their framing

    [crates/repl-net/src/frame.rs] (the frame set, its enum-coded bytes and
    the watermark order) and [crates/repl-net/src/framing.rs] (the 4-byte
    big-endian length prefix of the TCP stream). *)

From S2P Require Import Prelude.

Open Scope Z_scope.

(** ** Frame data ([frame.rs]) *)

Definition PROTO_VER : Z := 7.

Record UnknownDiscriminant := mkUnknown { ud_field : string; ud_value : Z }.

Inductive Op := Put | Delete.

#[global] Instance Op_eq_dec : EqDecision Op.
Proof. solve_decision. Defined.

(** [Op::as_u8] and [Op::from_u8]. *)
Definition op_as_u8 (o : Op) : Z := match o with Put => 0 | Delete => 1 end.
Definition op_from_u8 (v : Z) : result Op UnknownDiscriminant :=
  if v =? 0 then Ok Put else if v =? 1 then Ok Delete else Err (mkUnknown "Op" v).

Inductive Partition := Pri | Bak.

#[global] Instance Partition_eq_dec : EqDecision Partition.
Proof. solve_decision. Defined.

(** [Partition::as_u8] and [Partition::from_u8]. *)
Definition partition_as_u8 (p : Partition) : Z := match p with Pri => 0 | Bak => 1 end.
Definition partition_from_u8 (v : Z) : result Partition UnknownDiscriminant :=
  if v =? 0 then Ok Pri else if v =? 1 then Ok Bak else Err (mkUnknown "Partition" v).

(** [Watermark]: the position [(gen, counter)], ordered with [gen] as the high
    word. *)
Record Watermark := mkW { gen : Z; counter : Z }.

#[global] Instance Watermark_eq_dec : EqDecision Watermark.
Proof. solve_decision. Defined.

(** [Ord::cmp]. *)
Definition w_cmp (a b : Watermark) : comparison :=
  match gen a ?= gen b with Eq => counter a ?= counter b | c => c end.

Definition w_leb (a b : Watermark) : bool :=
  match w_cmp a b with Gt => false | _ => true end.
Definition w_ltb (a b : Watermark) : bool :=
  match w_cmp a b with Lt => true | _ => false end.

(** A body is the [Arc<[u8]>] of its bytes. *)
Definition body : Type := list Z.

Inductive Frame :=
  | FPullRequest (proto_ver : Z) (caller : string) (identity : option string)
      (partition : Partition) (since : Watermark)
  | FData (at_ : Watermark) (op : Op) (partition : Partition) (call_ref : string)
      (call_gen call_bgen body_ttl_ms origin_now_ms : Z) (indexes : list string)
      (bdy : option body) (answered : bool) (incarnation : option string)
  | FNoop (at_ : Watermark)
  | FResetToBootstrap (reason : string)
  | FPosition (at_ : Watermark)
  | FReplicaRefused (at_ : Watermark) (call_ref : string) (incarnation : option string)
  | FStreamRefused (proto_ver : Z) (reason : string).

(** [tag]. *)
Definition PULL_REQUEST : Z := 0.
Definition DATA : Z := 1.
Definition NOOP : Z := 2.
Definition RESET_TO_BOOTSTRAP : Z := 3.
Definition POSITION : Z := 4.
Definition REPLICA_REFUSED : Z := 5.
Definition STREAM_REFUSED : Z := 6.

(** ** Framing ([framing.rs]) *)

Definition MAX_FRAME_LEN : Z := 64 * 1024 * 1024.

Inductive ReplFramingError := Oversized (len : Z).

Definition blen (l : list Z) : Z := Z.of_nat (length l).

(** [frame_with_len_prefix]. *)
Definition frame_with_len_prefix (payload : list Z) : result (list Z) ReplFramingError :=
  let len := blen payload in
  if (len <=? u32_MAX) && (len <=? MAX_FRAME_LEN) then Ok (be_bytes 4 len ++ payload)
  else Err (Oversized len).

(** [try_read_framed]: the payload popped, if any, and the buffer left. *)
Definition try_read_framed (buf : list Z)
    : result (option (list Z)) ReplFramingError * list Z :=
  match buf with
  | b0 :: b1 :: b2 :: b3 :: rest =>
      let len := be_value [b0; b1; b2; b3] in
      if MAX_FRAME_LEN <? len then (Err (Oversized len), buf)
      else if blen rest <? len then (Ok None, buf)
      else (Ok (Some (take (Z.to_nat len) rest)), drop (Z.to_nat len) rest)
  | _ => (Ok None, buf)
  end.

(** ** The watermark is a total order *)

Lemma w_ltb_spec a b :
  w_ltb a b = true <-> gen a < gen b \/ (gen a = gen b /\ counter a < counter b).
Proof.
  unfold w_ltb, w_cmp. destruct (Z.compare_spec (gen a) (gen b));
    [destruct (Z.compare_spec (counter a) (counter b))|..]; split; (done || lia).
Qed.

Lemma w_leb_spec a b :
  w_leb a b = true <-> gen a < gen b \/ (gen a = gen b /\ counter a <= counter b).
Proof.
  unfold w_leb, w_cmp. destruct (Z.compare_spec (gen a) (gen b));
    [destruct (Z.compare_spec (counter a) (counter b))|..]; split; (done || lia).
Qed.

Lemma w_leb_refl a : w_leb a a = true.
Proof. apply w_leb_spec. lia. Qed.

Lemma w_leb_trans a b c : w_leb a b = true -> w_leb b c = true -> w_leb a c = true.
Proof. rewrite !w_leb_spec. lia. Qed.

Lemma w_leb_total a b : w_leb a b = negb (w_ltb b a).
Proof.
  destruct (w_ltb b a) eqn:E; simpl.
  - apply not_true_iff_false. rewrite w_leb_spec. apply w_ltb_spec in E. lia.
  - apply w_leb_spec. apply not_true_iff_false in E. rewrite w_ltb_spec in E. lia.
Qed.

#[export] Hint Resolve w_leb_refl w_leb_trans : siprust.

(** ** Framing lemmas *)

Lemma be_bytes_4 z : exists b0 b1 b2 b3, be_bytes 4 z = [b0; b1; b2; b3].
Proof. by repeat eexists. Qed.

Lemma frame_with_len_prefix_Ok payload wire :
  frame_with_len_prefix payload = Ok wire <->
  blen payload <= MAX_FRAME_LEN /\ wire = be_bytes 4 (blen payload) ++ payload.
Proof.
  unfold frame_with_len_prefix. split.
  - destruct ((blen payload <=? u32_MAX) && (blen payload <=? MAX_FRAME_LEN)) eqn:E; [|done].
    intros [= <-]. by zbool.
  - intros [Hle ->].
    destruct (Z.leb_spec (blen payload) u32_MAX); [|unfold u32_MAX, MAX_FRAME_LEN in *; lia].
    by destruct (Z.leb_spec (blen payload) MAX_FRAME_LEN); [|lia].
Qed.

Lemma prefix_value payload :
  blen payload <= MAX_FRAME_LEN -> be_value (be_bytes 4 (blen payload)) = blen payload.
Proof.
  intros H. apply be_value_be_bytes. unfold blen, MAX_FRAME_LEN in *.
  change (256 ^ Z.of_nat 4) with 4294967296. lia.
Qed.

(** A framed payload at the front of the buffer is popped whole and leaves
    what follows it. *)
Lemma try_read_framed_app payload wire rest :
  frame_with_len_prefix payload = Ok wire ->
  try_read_framed (wire ++ rest) = (Ok (Some payload), rest).
Proof.
  rewrite frame_with_len_prefix_Ok. intros [Hle ->]. rewrite <-app_assoc.
  pose proof (prefix_value _ Hle) as Hv. revert Hv.
  destruct (be_bytes_4 (blen payload)) as (b0 & b1 & b2 & b3 & ->). intros Hv.
  cbn [app try_read_framed]. rewrite Hv.
  destruct (Z.ltb_spec MAX_FRAME_LEN (blen payload)); [lia|].
  unfold blen. rewrite length_app, Nat2Z.inj_add.
  destruct (Z.ltb_spec (Z.of_nat (length payload) + Z.of_nat (length rest))
              (Z.of_nat (length payload))); [lia|].
  rewrite Nat2Z.id. by rewrite take_app_length, drop_app_length.
Qed.

(** A proper prefix of a framed payload pops nothing and is left intact. *)
Lemma try_read_framed_partial payload wire pre post :
  frame_with_len_prefix payload = Ok wire -> wire = pre ++ post -> post <> [] ->
  try_read_framed pre = (Ok None, pre).
Proof.
  rewrite frame_with_len_prefix_Ok. intros [Hle ->] Hw Hpost.
  pose proof (prefix_value _ Hle) as Hv. revert Hv Hw.
  destruct (be_bytes_4 (blen payload)) as (b0 & b1 & b2 & b3 & ->). intros Hv Hw.
  destruct pre as [|c0 [|c1 [|c2 [|c3 pre]]]]; [done..|]. simpl in Hw.
  injection Hw as <- <- <- <- Hw. unfold try_read_framed. rewrite Hv.
  destruct (Z.ltb_spec MAX_FRAME_LEN (blen payload)); [lia|].
  destruct (Z.ltb_spec (blen pre) (blen payload)) as [|Hge]; [done|].
  exfalso. apply Hpost. apply (f_equal length) in Hw. rewrite length_app in Hw.
  unfold blen in Hge. destruct post; [done|]. simpl in Hw. lia.
Qed.
