(* ===== verification/ReplCodec.v ===== *)
(** * The single-frame codec

    [crates/repl-net/src/codec.rs]: the positional-msgpack encoder and decoder
    of one replication frame.  The low-level [rmp] crate is not part of the
    repository: it is the parameter [Rmp], and what the codec relies on of it
    is the class [RmpLaws]. *)

From S2P Require Import Prelude ReplFrame.

Open Scope Z_scope.
Open Scope rust_scope.

(** ** Strings as bytes

    A Rust [String] is the Rocq string of its bytes, which are valid UTF-8. *)

Definition byte_of_ascii (a : Ascii.ascii) : Z := Z.of_N (Ascii.N_of_ascii a).
Definition ascii_of_byte (b : Z) : Ascii.ascii := Ascii.ascii_of_N (Z.to_N b).

Definition str_bytes (s : string) : list Z :=
  map byte_of_ascii (String.list_ascii_of_string s).
Definition bytes_str (l : list Z) : string :=
  String.string_of_list_ascii (map ascii_of_byte l).

Definition within (lo hi b : Z) : bool := (lo <=? b) && (b <=? hi).
Definition is_cont (b : Z) : bool := within 128 191 b.

(** The byte sequences [String::from_utf8] accepts. *)
Fixpoint utf8_valid (l : list Z) : bool :=
  match l with
  | [] => true
  | b0 :: l =>
      if within 0 127 b0 then utf8_valid l
      else if within 194 223 b0 then
        match l with b1 :: l => is_cont b1 && utf8_valid l | _ => false end
      else if within 224 239 b0 then
        match l with
        | b1 :: b2 :: l =>
            within (if b0 =? 224 then 160 else 128) (if b0 =? 237 then 159 else 191) b1
            && is_cont b2 && utf8_valid l
        | _ => false
        end
      else if within 240 244 b0 then
        match l with
        | b1 :: b2 :: b3 :: l =>
            within (if b0 =? 240 then 144 else 128) (if b0 =? 244 then 143 else 191) b1
            && is_cont b2 && is_cont b3 && utf8_valid l
        | _ => false
        end
      else false
  end.

(** ** The [rmp] crate *)

(** The [rmp::Marker]s this codec tells apart; any other one by its byte. *)
Inductive Marker := MNull | MBin8 | MBin16 | MBin32 | MOther (b : Z).

Inductive ValueReadError :=
  | InvalidMarkerRead
  | InvalidDataRead
  | TypeMismatch (m : Marker).

Inductive NumValueReadError :=
  | NInvalidMarkerRead
  | NInvalidDataRead
  | NTypeMismatch (m : Marker)
  | NOutOfRange.

(** The [rmp] functions the codec calls: a writer gives the bytes it appends, a
    reader the value and what is left of the cursor.  [rmp_read_int lo hi] is
    [read_int] at the integer type of range [lo, hi]. *)
Class Rmp := {
  write_array_len : Z -> list Z;
  write_uint : Z -> list Z;
  write_sint : Z -> list Z;
  write_str : list Z -> list Z;
  write_bin : list Z -> list Z;
  write_nil : list Z;
  write_bool : bool -> list Z;
  null_to_u8 : Z;
  rmp_read_array_len : list Z -> result (Z * list Z) ValueReadError;
  rmp_read_int : Z -> Z -> list Z -> result (Z * list Z) NumValueReadError;
  rmp_read_str_len : list Z -> result (Z * list Z) ValueReadError;
  rmp_read_bool : list Z -> result (bool * list Z) ValueReadError;
  rmp_read_marker : list Z -> option (Marker * list Z);
}.

(** What [rmp] and the MessagePack format document of these: a reader returns
    the value its writer wrote and stops right behind it, integers are read at
    any width that holds them, [nil] is one byte no string starts with, and a
    [bin] is its marker, its big-endian length of that marker's width, and the
    bytes. *)
Class RmpLaws `{Rmp} := {
  read_array_len_write n r :
    0 <= n <= u32_MAX -> rmp_read_array_len (write_array_len n ++ r) = Ok (n, r);
  read_int_write_uint lo hi v r :
    0 <= v <= u64_MAX -> lo <= v <= hi ->
    rmp_read_int lo hi (write_uint v ++ r) = Ok (v, r);
  read_int_write_uint_range lo hi v r :
    0 <= v <= u64_MAX -> ~ lo <= v <= hi ->
    rmp_read_int lo hi (write_uint v ++ r) = Err NOutOfRange;
  read_int_write_sint lo hi v r :
    in_i64 v -> lo <= v <= hi -> rmp_read_int lo hi (write_sint v ++ r) = Ok (v, r);
  read_str_len_write s r :
    blen s <= u32_MAX -> rmp_read_str_len (write_str s ++ r) = Ok (blen s, s ++ r);
  write_str_head s : exists b l, write_str s = b :: l /\ b <> null_to_u8;
  write_nil_byte : write_nil = [null_to_u8];
  read_bool_write b r : rmp_read_bool (write_bool b ++ r) = Ok (b, r);
  read_marker_nil r : rmp_read_marker (write_nil ++ r) = Some (MNull, r);
  read_marker_bin b r :
    blen b <= u32_MAX ->
    exists m k, (m, k) ∈ [(MBin8, 1%nat); (MBin16, 2%nat); (MBin32, 4%nat)]
      /\ blen b < 256 ^ Z.of_nat k
      /\ rmp_read_marker (write_bin b ++ r) = Some (m, be_bytes k (blen b) ++ b ++ r);
}.

(** ** Errors *)

Inductive ArrayFault :=
  | EmptyArray
  | ArityMismatch (frame : string) (want got : Z).

Inductive TypeFault :=
  | UnexpectedMarker (m : Marker)
  | IntegerOutOfRange
  | ExpectedBinOrNil (m : Marker).

Inductive TruncatedAt :=
  | At (at_ : string)
  | AtMarker (at_ : string)
  | NeedBytes (at_ : string) (need have : Z).

Inductive ReplCodecError :=
  | MalformedArray (f : ArrayFault)
  | UnknownTag (t : Z)
  | EUnknownDiscriminant (field : string) (value : Z)
  | EType (at_ : string) (detail : TypeFault)
  | Truncated (d : TruncatedAt)
  | Utf8 (at_ : string)
  | TooLong (at_ : string) (len : Z).

(** [From<UnknownDiscriminant>]. *)
Definition from_unknown (u : UnknownDiscriminant) : ReplCodecError :=
  EUnknownDiscriminant (ud_field u) (ud_value u).

Definition map_vre (e : ValueReadError) (at_ : string) : ReplCodecError :=
  match e with
  | InvalidMarkerRead | InvalidDataRead => Truncated (At at_)
  | TypeMismatch m => EType at_ (UnexpectedMarker m)
  end.

Definition map_nvre (e : NumValueReadError) (at_ : string) : ReplCodecError :=
  match e with
  | NInvalidMarkerRead | NInvalidDataRead => Truncated (At at_)
  | NTypeMismatch m => EType at_ (UnexpectedMarker m)
  | NOutOfRange => EType at_ IntegerOutOfRange
  end.

Section codec.
Context `{Rmp}.

(** ** Encoding *)

(** An encoder step takes the buffer to the buffer it leaves. *)
Definition enc : Type := list Z -> result (list Z) ReplCodecError.

Definition enc_then (a b : enc) : enc := fun buf => res_bind (a buf) b.
Notation "a ';;' b" := (enc_then a b) (at level 100, right associativity).

(** [length]. *)
Definition length_u32 (n : Z) (at_ : string) : result Z ReplCodecError :=
  if n <=? u32_MAX then Ok n else Err (TooLong at_ n).

Definition enc_array (len : Z) (at_ : string) : enc := fun buf =>
  let? n := length_u32 len at_ in Ok (buf ++ write_array_len n).

Definition enc_uint (v : Z) : enc := fun buf => Ok (buf ++ write_uint v).
Definition enc_sint (v : Z) : enc := fun buf => Ok (buf ++ write_sint v).

Definition enc_str (s : string) (at_ : string) : enc := fun buf =>
  length_u32 (blen (str_bytes s)) at_ ;? Ok (buf ++ write_str (str_bytes s)).

Definition enc_bin (b : list Z) (at_ : string) : enc := fun buf =>
  length_u32 (blen b) at_ ;? Ok (buf ++ write_bin b).

Definition enc_nil : enc := fun buf => Ok (buf ++ write_nil).

Definition enc_opt_str (v : option string) (at_ : string) : enc :=
  match v with Some v => enc_str v at_ | None => enc_nil end.

Definition enc_bool (v : bool) : enc := fun buf => Ok (buf ++ write_bool v).

(** The loop over [indexes]. *)
Fixpoint enc_indexes (l : list string) : enc :=
  match l with
  | [] => fun buf => Ok buf
  | idx :: l => enc_str idx "indexes[]" ;; enc_indexes l
  end.

Definition enc_body (b : option body) : enc :=
  match b with Some bytes => enc_bin bytes "body" | None => enc_nil end.

(** [Encoder::frame]. *)
Definition enc_frame (f : Frame) : enc :=
  match f with
  | FPullRequest proto_ver caller identity partition since =>
      enc_array 7 "PullRequest" ;;
      enc_uint PULL_REQUEST ;;
      enc_uint proto_ver ;;
      enc_str caller "caller" ;;
      enc_opt_str identity "identity" ;;
      enc_uint (partition_as_u8 partition) ;;
      enc_uint (gen since) ;;
      enc_uint (counter since)
  | FData at_ op partition call_ref call_gen call_bgen body_ttl_ms origin_now_ms
      indexes bdy answered incarnation =>
      enc_array 14 "Data" ;;
      enc_uint DATA ;;
      enc_uint (gen at_) ;;
      enc_uint (counter at_) ;;
      enc_uint (op_as_u8 op) ;;
      enc_uint (partition_as_u8 partition) ;;
      enc_str call_ref "call_ref" ;;
      enc_sint call_gen ;;
      enc_sint call_bgen ;;
      enc_sint body_ttl_ms ;;
      enc_sint origin_now_ms ;;
      enc_array (Z.of_nat (length indexes)) "indexes" ;;
      enc_indexes indexes ;;
      enc_body bdy ;;
      enc_bool answered ;;
      enc_opt_str incarnation "incarnation"
  | FNoop at_ =>
      enc_array 3 "Noop" ;;
      enc_uint NOOP ;;
      enc_uint (gen at_) ;;
      enc_uint (counter at_)
  | FResetToBootstrap reason =>
      enc_array 2 "ResetToBootstrap" ;;
      enc_uint RESET_TO_BOOTSTRAP ;;
      enc_str reason "reason"
  | FPosition at_ =>
      enc_array 3 "Position" ;;
      enc_uint POSITION ;;
      enc_uint (gen at_) ;;
      enc_uint (counter at_)
  | FReplicaRefused at_ call_ref incarnation =>
      enc_array 5 "ReplicaRefused" ;;
      enc_uint REPLICA_REFUSED ;;
      enc_uint (gen at_) ;;
      enc_uint (counter at_) ;;
      enc_str call_ref "call_ref" ;;
      enc_opt_str incarnation "incarnation"
  | FStreamRefused proto_ver reason =>
      enc_array 3 "StreamRefused" ;;
      enc_uint STREAM_REFUSED ;;
      enc_uint proto_ver ;;
      enc_str reason "reason"
  end.

(** [encode_frame]. *)
Definition encode_frame (f : Frame) : result (list Z) ReplCodecError := enc_frame f [].

(** ** Decoding *)

(** A reader over the cursor; an error ends the decoding, so it leaves none. *)
Definition dec (A : Type) : Type := list Z -> result (A * list Z) ReplCodecError.

Definition dec_ret {A} (a : A) : dec A := fun rd => Ok (a, rd).
Definition dec_fail {A} (e : ReplCodecError) : dec A := fun _ => Err e.
Definition dec_bind {A B} (c : dec A) (k : A -> dec B) : dec B := fun rd =>
  match c rd with Ok (a, rd) => k a rd | Err e => Err e end.
Definition dec_lift {A} (r : result A UnknownDiscriminant) : dec A :=
  match r with Ok a => dec_ret a | Err u => dec_fail (from_unknown u) end.

Notation "'let*' x ':=' c 'in' k" := (dec_bind c (fun x => k))
  (at level 10, x pattern, c at level 100, k at level 200).

(** [split_at_checked]. *)
Definition split_at_checked (n : Z) (rd : list Z) : option (list Z * list Z) :=
  if n <=? blen rd then Some (firstn (Z.to_nat n) rd, skipn (Z.to_nat n) rd) else None.

(** [take]. *)
Definition take_bytes (n : Z) (at_ : string) : dec (list Z) := fun rd =>
  match split_at_checked n rd with
  | None => Err (Truncated (NeedBytes at_ n (blen rd)))
  | Some p => Ok p
  end.

(** [take_array]. *)
Definition take_array (n : Z) (at_ : string) : dec (list Z) := fun rd =>
  match split_at_checked n rd with
  | None => Err (Truncated (NeedBytes at_ n (blen rd)))
  | Some p => Ok p
  end.

Definition read_array_len (at_ : string) : dec Z := fun rd =>
  map_err (fun e => map_vre e at_) (rmp_read_array_len rd).

Definition read_u64 (at_ : string) : dec Z := fun rd =>
  map_err (fun e => map_nvre e at_) (rmp_read_int 0 u64_MAX rd).
Definition read_u16 (at_ : string) : dec Z := fun rd =>
  map_err (fun e => map_nvre e at_) (rmp_read_int 0 u16_MAX rd).
Definition read_u8 (at_ : string) : dec Z := fun rd =>
  map_err (fun e => map_nvre e at_) (rmp_read_int 0 u8_MAX rd).
Definition read_i64 (at_ : string) : dec Z := fun rd =>
  map_err (fun e => map_nvre e at_) (rmp_read_int i64_MIN i64_MAX rd).

Definition read_bool (at_ : string) : dec bool := fun rd =>
  map_err (fun e => map_vre e at_) (rmp_read_bool rd).

(** [read_str]. *)
Definition read_str (at_ : string) : dec string :=
  let* n := (fun rd => map_err (fun e => map_vre e at_) (rmp_read_str_len rd)) in
  let* raw := take_bytes n at_ in
  if utf8_valid raw then dec_ret (bytes_str raw) else dec_fail (Utf8 at_).

(** [read_opt_str]. *)
Definition read_opt_str (at_ : string) : dec (option string) := fun rd =>
  if bool_decide (head rd = Some null_to_u8)
  then (let* _ := take_bytes 1 at_ in dec_ret None) rd
  else (let* s := read_str at_ in dec_ret (Some s)) rd.

Definition read_bin_body (n : Z) (at_ : string) : dec body := take_bytes n at_.

(** [read_opt_bin]. *)
Definition read_opt_bin (at_ : string) : dec (option body) :=
  let* marker := (fun rd => match rmp_read_marker rd with
                            | Some p => Ok p
                            | None => Err (Truncated (AtMarker at_))
                            end) in
  match marker with
  | MNull => dec_ret None
  | MBin8 => let* n := take_array 1 at_ in
             let* b := read_bin_body (be_value n) at_ in dec_ret (Some b)
  | MBin16 => let* n := take_array 2 at_ in
              let* b := read_bin_body (be_value n) at_ in dec_ret (Some b)
  | MBin32 => let* n := take_array 4 at_ in
              let* b := read_bin_body (be_value n) at_ in dec_ret (Some b)
  | other => dec_fail (EType at_ (ExpectedBinOrNil other))
  end.

(** [expect_len]. *)
Definition expect_len (got want : Z) (frame : string) : dec unit :=
  if got =? want then dec_ret tt
  else dec_fail (MalformedArray (ArityMismatch frame want got)).

(** [decode_pull_request]. *)
Definition decode_pull_request (len : Z) : dec Frame :=
  let* _ := (if len =? 6 then dec_ret tt else expect_len len 7 "PullRequest") in
  let* proto_ver := read_u16 "proto_ver" in
  let* caller := read_str "caller" in
  let* identity := (if len =? 7 then read_opt_str "identity" else dec_ret None) in
  let* pb := read_u8 "partition" in
  let* partition := dec_lift (partition_from_u8 pb) in
  let* since_gen := read_u64 "since_gen" in
  let* since_counter := read_u64 "since_counter" in
  dec_ret (FPullRequest proto_ver caller identity partition (mkW since_gen since_counter)).

(** The loop of [decode_data] over [indexes]. *)
Fixpoint read_indexes (n : nat) : dec (list string) :=
  match n with
  | O => dec_ret []
  | S n =>
      let* s := read_str "indexes[]" in
      let* l := read_indexes n in
      dec_ret (s :: l)
  end.

(** [decode_data]. *)
Definition decode_data (len : Z) : dec Frame :=
  let* _ := expect_len len 14 "Data" in
  let* g := read_u64 "gen" in
  let* c := read_u64 "counter" in
  let* ob := read_u8 "op" in
  let* op := dec_lift (op_from_u8 ob) in
  let* pb := read_u8 "partition" in
  let* partition := dec_lift (partition_from_u8 pb) in
  let* call_ref := read_str "call_ref" in
  let* call_gen := read_i64 "call_gen" in
  let* call_bgen := read_i64 "call_bgen" in
  let* body_ttl_ms := read_i64 "body_ttl_ms" in
  let* origin_now_ms := read_i64 "origin_now_ms" in
  let* idx_len := read_array_len "indexes" in
  let* indexes := read_indexes (Z.to_nat idx_len) in
  let* bdy := read_opt_bin "body" in
  let* answered := read_bool "answered" in
  let* incarnation := read_opt_str "incarnation" in
  dec_ret (FData (mkW g c) op partition call_ref call_gen call_bgen body_ttl_ms
             origin_now_ms indexes bdy answered incarnation).

(** [decode_noop]. *)
Definition decode_noop (len : Z) : dec Frame :=
  let* _ := expect_len len 3 "Noop" in
  let* g := read_u64 "gen" in
  let* c := read_u64 "counter" in
  dec_ret (FNoop (mkW g c)).

(** [decode_position]. *)
Definition decode_position (len : Z) : dec Frame :=
  let* _ := expect_len len 3 "Position" in
  let* g := read_u64 "gen" in
  let* c := read_u64 "counter" in
  dec_ret (FPosition (mkW g c)).

(** [decode_replica_refused]. *)
Definition decode_replica_refused (len : Z) : dec Frame :=
  let* _ := expect_len len 5 "ReplicaRefused" in
  let* g := read_u64 "gen" in
  let* c := read_u64 "counter" in
  let* call_ref := read_str "call_ref" in
  let* incarnation := read_opt_str "incarnation" in
  dec_ret (FReplicaRefused (mkW g c) call_ref incarnation).

(** [decode_stream_refused]. *)
Definition decode_stream_refused (len : Z) : dec Frame :=
  let* _ := expect_len len 3 "StreamRefused" in
  let* proto_ver := read_u16 "proto_ver" in
  let* reason := read_str "reason" in
  dec_ret (FStreamRefused proto_ver reason).

(** [decode_reset]. *)
Definition decode_reset (len : Z) : dec Frame :=
  let* _ := expect_len len 2 "ResetToBootstrap" in
  let* reason := read_str "reason" in
  dec_ret (FResetToBootstrap reason).

(** [decode_frame] up to the cursor left behind the frame. *)
Definition decode_frame_rest : dec Frame :=
  let* len := read_array_len "frame" in
  if len =? 0 then dec_fail (MalformedArray EmptyArray)
  else
    let* tag := read_u64 "tag" in
    if tag =? PULL_REQUEST then decode_pull_request len
    else if tag =? DATA then decode_data len
    else if tag =? NOOP then decode_noop len
    else if tag =? RESET_TO_BOOTSTRAP then decode_reset len
    else if tag =? POSITION then decode_position len
    else if tag =? REPLICA_REFUSED then decode_replica_refused len
    else if tag =? STREAM_REFUSED then decode_stream_refused len
    else dec_fail (UnknownTag tag).

(** [decode_frame]: what follows the frame is ignored. *)
Definition decode_frame (bytes : list Z) : result Frame ReplCodecError :=
  let? p := decode_frame_rest bytes in Ok p.1.

End codec.
