(* ===== verification/ReplCodecProofs.v ===== *)
(** * Lemmas on the frame codec

    A reader paired with the writer whose bytes it reads back ([RT]), and what
    makes a writer fail ([EncLen]); both compose along a frame's elements. *)

From S2P Require Import Prelude ReplFrame ReplCodec.

Open Scope Z_scope.

(** ** Strings and bytes *)

Lemma ascii_of_byte_of_ascii a : ascii_of_byte (byte_of_ascii a) = a.
Proof.
  unfold ascii_of_byte, byte_of_ascii. by rewrite N2Z.id, Ascii.ascii_N_embedding.
Qed.

Lemma bytes_str_bytes s : bytes_str (str_bytes s) = s.
Proof.
  unfold bytes_str, str_bytes. rewrite map_map.
  rewrite (map_ext _ id) by (intros; apply ascii_of_byte_of_ascii).
  by rewrite map_id, String.string_of_list_ascii_of_string.
Qed.

(** A string the source can hold. *)
Definition utf8 (s : string) : Prop := utf8_valid (str_bytes s) = true.

(** ** Well-formed frames: every field in the range of its Rust type *)

Create HintDb enclen.
Create HintDb rt.

Definition in_u16 (z : Z) : Prop := 0 <= z <= u16_MAX.
Definition w_wf (w : Watermark) : Prop := in_u64 (gen w) /\ in_u64 (counter w).

Definition frame_wf (f : Frame) : Prop :=
  match f with
  | FPullRequest v caller identity _ since =>
      in_u16 v /\ utf8 caller /\ from_option utf8 True identity /\ w_wf since
  | FData at_ _ _ call_ref cg cb ttl now indexes _ _ inc =>
      w_wf at_ /\ utf8 call_ref /\ in_i64 cg /\ in_i64 cb /\ in_i64 ttl /\ in_i64 now
      /\ Forall utf8 indexes /\ from_option utf8 True inc
  | FNoop at_ | FPosition at_ => w_wf at_
  | FResetToBootstrap reason => utf8 reason
  | FReplicaRefused at_ call_ref inc =>
      w_wf at_ /\ utf8 call_ref /\ from_option utf8 True inc
  | FStreamRefused v reason => in_u16 v /\ utf8 reason
  end.

(** The elements of a frame that carry a msgpack length, in encoding order. *)
Definition slen (s : string) : Z := blen (str_bytes s).
Definition opt_len (at_ : string) (o : option string) : list (string * Z) :=
  match o with Some s => [(at_, slen s)] | None => [] end.

Definition frame_lengths (f : Frame) : list (string * Z) :=
  match f with
  | FPullRequest _ caller identity _ _ =>
      ("caller", slen caller) :: opt_len "identity" identity
  | FData _ _ _ call_ref _ _ _ _ indexes bdy _ inc =>
      [("call_ref", slen call_ref); ("indexes", Z.of_nat (length indexes))]
      ++ map (fun s => ("indexes[]", slen s)) indexes
      ++ match bdy with Some b => [("body", blen b)] | None => [] end
      ++ opt_len "incarnation" inc
  | FNoop _ | FPosition _ => []
  | FResetToBootstrap reason | FStreamRefused _ reason => [("reason", slen reason)]
  | FReplicaRefused _ call_ref inc =>
      ("call_ref", slen call_ref) :: opt_len "incarnation" inc
  end.

(** The first element past msgpack's 32-bit length. *)
Definition first_too_long (l : list (string * Z)) : option (string * Z) :=
  List.find (fun p => u32_MAX <? p.2) l.

Lemma first_too_long_app l l' :
  first_too_long (l ++ l')
  = match first_too_long l with Some p => Some p | None => first_too_long l' end.
Proof.
  unfold first_too_long. induction l as [|p l IH]; simpl; [done|].
  by destruct (u32_MAX <? p.2).
Qed.

Section proofs.
Context `{Rmp}.

(** ** Which encodings fail *)

Definition EncLen (e : enc) (ls : list (string * Z)) : Prop :=
  forall buf, match first_too_long ls with
              | None => exists bs, e buf = Ok (buf ++ bs)
              | Some (a, n) => e buf = Err (TooLong a n)
              end.

Lemma EncLen_then e e' ls ls' :
  EncLen e ls -> EncLen e' ls' -> EncLen (enc_then e e') (ls ++ ls').
Proof.
  intros He He' buf. rewrite first_too_long_app. specialize (He buf). unfold enc_then.
  destruct (first_too_long ls) as [[a n]|]; [by rewrite He|].
  destruct He as [bs ->]. simpl. specialize (He' (buf ++ bs)).
  destruct (first_too_long ls') as [[a n]|]; [done|].
  destruct He' as [bs' ->]. exists (bs ++ bs'). by rewrite app_assoc.
Qed.

Lemma EncLen_skip e e' ls : EncLen e [] -> EncLen e' ls -> EncLen (enc_then e e') ls.
Proof. apply EncLen_then. Qed.

Lemma EncLen_one n a e bs :
  (forall buf, e buf = res_bind (length_u32 n a) (fun _ => Ok (buf ++ bs))) ->
  EncLen e [(a, n)].
Proof.
  intros He buf. rewrite He. unfold first_too_long, length_u32. simpl.
  destruct (Z.ltb_spec u32_MAX n), (Z.leb_spec n u32_MAX); try lia; [done|by eexists].
Qed.

Lemma EncLen_str s a : EncLen (enc_str s a) [(a, slen s)].
Proof. by eapply EncLen_one. Qed.
Lemma EncLen_bin b a : EncLen (enc_bin b a) [(a, blen b)].
Proof. by eapply EncLen_one. Qed.
Lemma EncLen_array n a : EncLen (enc_array n a) [(a, n)].
Proof.
  eapply (EncLen_one _ _ _ (write_array_len n)). intros buf. unfold enc_array, length_u32.
  by destruct (n <=? u32_MAX).
Qed.
Lemma EncLen_array_small n a : n <= 15 -> EncLen (enc_array n a) [].
Proof.
  intros Hn buf. simpl. unfold enc_array, length_u32.
  destruct (Z.leb_spec n u32_MAX); [by eexists|unfold u32_MAX in *; lia].
Qed.
Lemma EncLen_uint v : EncLen (enc_uint v) [].
Proof. intros buf. by eexists. Qed.
Lemma EncLen_sint v : EncLen (enc_sint v) [].
Proof. intros buf. by eexists. Qed.
Lemma EncLen_bool v : EncLen (enc_bool v) [].
Proof. intros buf. by eexists. Qed.
Lemma EncLen_nil : EncLen enc_nil [].
Proof. intros buf. by eexists. Qed.
Lemma EncLen_opt_str o a : EncLen (enc_opt_str o a) (opt_len a o).
Proof. destruct o; [apply EncLen_str|apply EncLen_nil]. Qed.
Lemma EncLen_body o :
  EncLen (enc_body o) (match o with Some b => [("body", blen b)] | None => [] end).
Proof. destruct o; [apply EncLen_bin|apply EncLen_nil]. Qed.
Lemma EncLen_indexes l :
  EncLen (enc_indexes l) (map (fun s => ("indexes[]", slen s)) l).
Proof.
  induction l as [|s l IH]; simpl.
  - intros buf. exists []. by rewrite app_nil_r.
  - apply (EncLen_then _ _ [_]); [apply EncLen_str|done].
Qed.

#[local] Hint Resolve EncLen_str EncLen_array_small EncLen_uint EncLen_sint EncLen_bool
  EncLen_opt_str EncLen_body EncLen_indexes : enclen.
#[local] Hint Extern 1 (_ <= 15) => lia : enclen.

Ltac enclen :=
  repeat (apply EncLen_skip; [solve [auto with enclen]|]);
  solve [auto with enclen].

Lemma EncLen_frame f : EncLen (enc_frame f) (frame_lengths f).
Proof.
  destruct f; unfold enc_frame, frame_lengths.
  - repeat (apply EncLen_skip; [solve [auto with enclen]|]).
    apply (EncLen_then _ _ [_]); [auto with enclen|].
    rewrite <-(app_nil_r (opt_len _ _)). apply EncLen_then; [auto with enclen|enclen].
  - repeat (apply EncLen_skip; [solve [auto with enclen]|]). simpl app at 1.
    apply (EncLen_then _ _ [_]); [auto with enclen|].
    repeat (apply EncLen_skip; [solve [auto with enclen]|]).
    apply (EncLen_then _ _ [_]); [apply EncLen_array|].
    apply EncLen_then; [auto with enclen|]. apply EncLen_then; [auto with enclen|].
    enclen.
  - enclen.
  - enclen.
  - enclen.
  - repeat (apply EncLen_skip; [solve [auto with enclen]|]).
    apply (EncLen_then _ _ [_]); auto with enclen.
  - enclen.
Qed.

(** ** Round trips *)

Context `{!RmpLaws}.

(** [e] appends the bytes [d] reads back as [a], whatever follows them. *)
Definition RT {A} (e : enc) (d : dec A) (a : A) : Prop :=
  forall buf out, e buf = Ok out ->
  exists bs, out = buf ++ bs /\ forall r, d (bs ++ r) = Ok (a, r).

Lemma RT_then {A B} e1 e2 (d1 : dec A) (d2 : A -> dec B) a b :
  RT e1 d1 a -> RT e2 (d2 a) b -> RT (enc_then e1 e2) (dec_bind d1 d2) b.
Proof.
  intros H1 H2 buf out. unfold enc_then.
  destruct (e1 buf) as [out1|] eqn:E1; [|done]. simpl. intros E2.
  apply H1 in E1 as (bs1 & -> & Hr1). apply H2 in E2 as (bs2 & -> & Hr2).
  exists (bs1 ++ bs2). split; [by rewrite app_assoc|]. intros r. unfold dec_bind.
  by rewrite <-app_assoc, Hr1.
Qed.

Lemma RT_pure {A B} e (d1 : dec A) (d2 : A -> dec B) a b :
  (forall rd, d1 rd = Ok (a, rd)) -> RT e (d2 a) b -> RT e (dec_bind d1 d2) b.
Proof.
  intros H1 H2 buf out Hout. destruct (H2 buf out Hout) as (bs & -> & Hr).
  exists bs. split; [done|]. intros r. unfold dec_bind. by rewrite H1.
Qed.

Lemma RT_last {A B} e (d : dec A) (g : A -> B) a :
  RT e d a -> RT e (dec_bind d (fun x => dec_ret (g x))) (g a).
Proof.
  intros H1 buf out Hout. destruct (H1 buf out Hout) as (bs & -> & Hr).
  exists bs. split; [done|]. intros r. unfold dec_bind. by rewrite Hr.
Qed.

Lemma RT_uint lo hi v a :
  0 <= v <= u64_MAX -> lo <= v <= hi ->
  RT (enc_uint v) (fun rd => map_err (fun e => map_nvre e a) (rmp_read_int lo hi rd)) v.
Proof.
  intros ?? buf out [= <-]. eexists. split; [done|]. intros r.
  by rewrite read_int_write_uint.
Qed.

Lemma RT_u64 v a : in_u64 v -> RT (enc_uint v) (read_u64 a) v.
Proof. unfold in_u64. intros. apply RT_uint; lia. Qed.
Lemma RT_u16 v a : in_u16 v -> RT (enc_uint v) (read_u16 a) v.
Proof. unfold in_u16, u16_MAX, u64_MAX. intros. apply RT_uint; unfold u64_MAX, u16_MAX; lia. Qed.
Lemma RT_u8 v a : 0 <= v < 256 -> RT (enc_uint v) (read_u8 a) v.
Proof. intros. apply RT_uint; unfold u64_MAX, u8_MAX; lia. Qed.

Lemma RT_i64 v a : in_i64 v -> RT (enc_sint v) (read_i64 a) v.
Proof.
  intros Hv buf out [= <-]. eexists. split; [done|]. intros r. unfold read_i64.
  by rewrite read_int_write_sint.
Qed.

Lemma RT_bool v a : RT (enc_bool v) (read_bool a) v.
Proof.
  intros buf out [= <-]. eexists. split; [done|]. intros r. unfold read_bool.
  by rewrite read_bool_write.
Qed.

Lemma length_u32_Ok n a m : length_u32 n a = Ok m -> n <= u32_MAX /\ m = n.
Proof. unfold length_u32. destruct (Z.leb_spec n u32_MAX); naive_solver. Qed.

Lemma RT_array n a a' : 0 <= n -> RT (enc_array n a) (read_array_len a') n.
Proof.
  intros Hn buf out. unfold enc_array.
  destruct (length_u32 n a) as [m|] eqn:E; [|done]. apply length_u32_Ok in E as [? ->].
  intros [= <-]. eexists. split; [done|]. intros r. unfold read_array_len.
  by rewrite read_array_len_write.
Qed.

Lemma split_at_app l r : split_at_checked (blen l) (l ++ r) = Some (l, r).
Proof.
  unfold split_at_checked, blen. rewrite length_app.
  destruct (Z.leb_spec (Z.of_nat (length l)) (Z.of_nat (length l + length r))); [|lia].
  rewrite Nat2Z.id. by rewrite take_app_length, drop_app_length.
Qed.

Lemma take_bytes_app l a r : take_bytes (blen l) a (l ++ r) = Ok (l, r).
Proof. unfold take_bytes. by rewrite split_at_app. Qed.

Lemma read_str_app s a r :
  utf8 s -> blen (str_bytes s) <= u32_MAX ->
  read_str a (write_str (str_bytes s) ++ r) = Ok (s, r).
Proof.
  intros Hs Hl. unfold read_str, dec_bind. rewrite read_str_len_write by done. simpl.
  rewrite take_bytes_app. unfold utf8 in Hs. rewrite Hs. unfold dec_ret.
  by rewrite bytes_str_bytes.
Qed.

Lemma RT_str s a a' : utf8 s -> RT (enc_str s a) (read_str a') s.
Proof.
  intros Hs buf out. unfold enc_str.
  destruct (length_u32 (blen (str_bytes s)) a) as [m|] eqn:E; [|done].
  apply length_u32_Ok in E as [? ->]. intros [= <-]. eexists. split; [done|].
  intros r. by apply read_str_app.
Qed.

Lemma RT_opt_str o a a' :
  from_option utf8 True o -> RT (enc_opt_str o a) (read_opt_str a') o.
Proof.
  destruct o as [s|]; intros Hs buf out; simpl.
  - intros Hout. destruct (RT_str s a a' Hs buf out Hout) as (bs & -> & Hr).
    unfold enc_str in Hout.
    destruct (length_u32 (blen (str_bytes s)) a) as [m|]; [|done]. simpl in Hout.
    injection Hout as Hout. apply app_inv_head in Hout as <-.
    eexists. split; [done|]. intros r. unfold read_opt_str.
    destruct (write_str_head (str_bytes s)) as (b & l & Hw & Hb).
    rewrite bool_decide_eq_false_2 by (rewrite Hw; simpl; congruence).
    unfold dec_bind. by rewrite Hr.
  - intros [= <-]. eexists. split; [done|]. intros r. unfold read_opt_str.
    rewrite write_nil_byte. simpl. rewrite bool_decide_eq_true_2 by done.
    unfold dec_bind. change (null_to_u8 :: r) with ([null_to_u8] ++ r).
    by rewrite (take_bytes_app [null_to_u8]).
Qed.

Lemma bin_body_app k b r :
  blen b < 256 ^ Z.of_nat k ->
  (dec_bind (take_array (Z.of_nat k) "body") (fun n =>
     dec_bind (read_bin_body (be_value n) "body") (fun b => dec_ret (Some b))))
    (be_bytes k (blen b) ++ b ++ r) = Ok (Some b, r).
Proof.
  intros Hb. unfold dec_bind, take_array, read_bin_body.
  replace (Z.of_nat k) with (blen (be_bytes k (blen b)))
    by (unfold blen; by rewrite length_be_bytes).
  rewrite split_at_app, be_value_be_bytes by (unfold blen in *; lia).
  by rewrite take_bytes_app.
Qed.

Lemma RT_body o : RT (enc_body o) (read_opt_bin "body") o.
Proof.
  destruct o as [b|]; intros buf out; simpl.
  - unfold enc_bin. destruct (length_u32 (blen b) "body") as [m|] eqn:E; [|done].
    apply length_u32_Ok in E as [Hb ->]. intros [= <-]. eexists. split; [done|].
    intros r. unfold read_opt_bin. unfold dec_bind at 1.
    destruct (read_marker_bin b r Hb) as (mk & k & Hin & Hlt & ->).
    rewrite !elem_of_cons in Hin.
    destruct Hin as [[= -> ->]|[[= -> ->]|[[= -> ->]|Hin]]];
      [by apply (bin_body_app 1)|by apply (bin_body_app 2)|by apply (bin_body_app 4)
      |by apply elem_of_nil in Hin].
  - intros [= <-]. eexists. split; [done|]. intros r. unfold read_opt_bin, dec_bind.
    by rewrite read_marker_nil.
Qed.

Lemma RT_indexes l : Forall utf8 l -> RT (enc_indexes l) (read_indexes (length l)) l.
Proof.
  induction l as [|s l IH]; intros Hl; simpl.
  { intros buf out [= <-]. exists []. by rewrite app_nil_r. }
  apply Forall_cons in Hl as [Hs Hl]. eapply RT_then; [by apply RT_str|].
  eapply (RT_last _ _ (fun l => s :: l)). by apply IH.
Qed.

Lemma RT_partition p a :
  RT (enc_uint (partition_as_u8 p)) (read_u8 a) (partition_as_u8 p).
Proof. apply RT_u8. destruct p; simpl; lia. Qed.
Lemma RT_op o a : RT (enc_uint (op_as_u8 o)) (read_u8 a) (op_as_u8 o).
Proof. apply RT_u8. destruct o; simpl; lia. Qed.

Lemma partition_lift p rd : dec_lift (partition_from_u8 (partition_as_u8 p)) rd = Ok (p, rd).
Proof. by destruct p. Qed.
Lemma op_lift o rd : dec_lift (op_from_u8 (op_as_u8 o)) rd = Ok (o, rd).
Proof. by destruct o. Qed.

#[local] Hint Resolve RT_u64 RT_u16 RT_i64 RT_bool RT_str RT_opt_str RT_body RT_indexes
  RT_partition RT_op : rt.
#[local] Hint Resolve partition_lift op_lift : rt.

(** Step through a frame's elements. *)
Ltac rt := repeat first
  [ solve [eauto with rt]
  | eapply RT_pure; [solve [eauto with rt | reflexivity]|]
  | eapply RT_then; [solve [eauto with rt]|] ].

(** The part of [decode_frame_rest] behind the array length and the tag. *)
Definition decode_tagged (tag len : Z) : dec Frame :=
  if tag =? PULL_REQUEST then decode_pull_request len
  else if tag =? DATA then decode_data len
  else if tag =? NOOP then decode_noop len
  else if tag =? RESET_TO_BOOTSTRAP then decode_reset len
  else if tag =? POSITION then decode_position len
  else if tag =? REPLICA_REFUSED then decode_replica_refused len
  else if tag =? STREAM_REFUSED then decode_stream_refused len
  else dec_fail (UnknownTag tag).

Lemma RT_head len a tag e f :
  0 < len -> 0 <= tag <= 6 -> RT e (decode_tagged tag len) f ->
  RT (enc_then (enc_array len a) (enc_then (enc_uint tag) e)) decode_frame_rest f.
Proof.
  intros Hl Ht He. eapply RT_then; [apply RT_array; lia|].
  cbv beta. destruct (Z.eqb_spec len 0); [lia|].
  eapply RT_then; [apply RT_u64; unfold in_u64, u64_MAX; lia|]. exact He.
Qed.

Lemma RT_frame f : frame_wf f -> RT (enc_frame f) decode_frame_rest f.
Proof.
  destruct f as [v caller identity p [sg sc]|[ag ac] op p call_ref cg cb ttl now indexes b an inc
                |[ag ac]|reason|[ag ac]|[ag ac] call_ref inc|v reason];
    simpl; unfold w_wf; simpl; intros Hwf; destruct_and?;
    (apply RT_head; [lia|unfold PULL_REQUEST, DATA, NOOP, RESET_TO_BOOTSTRAP, POSITION,
       REPLICA_REFUSED, STREAM_REFUSED; lia|]); unfold decode_tagged; simpl.
  - unfold decode_pull_request; simpl. rt.
    eapply (RT_last _ _ (fun c => FPullRequest v caller identity p (mkW sg c))). rt.
  - unfold decode_data; simpl. rt. eapply RT_then; [apply RT_array; lia|].
    rewrite Nat2Z.id. rt.
    eapply (RT_last _ _ (fun i => FData (mkW ag ac) op p call_ref cg cb ttl now indexes b an i)).
    rt.
  - unfold decode_noop; simpl. rt. eapply (RT_last _ _ (fun c => FNoop (mkW ag c))). rt.
  - unfold decode_reset; simpl. rt. eapply (RT_last _ _ FResetToBootstrap). rt.
  - unfold decode_position; simpl. rt. eapply (RT_last _ _ (fun c => FPosition (mkW ag c))). rt.
  - unfold decode_replica_refused; simpl. rt.
    eapply (RT_last _ _ (FReplicaRefused (mkW ag ac) call_ref)). rt.
  - unfold decode_stream_refused; simpl. rt. eapply (RT_last _ _ (FStreamRefused v)). rt.
Qed.

(** What an encoded frame decodes to, with anything behind it. *)
Lemma decode_encode f bytes r :
  frame_wf f -> encode_frame f = Ok bytes -> decode_frame_rest (bytes ++ r) = Ok (f, r).
Proof.
  intros Hwf He. destruct (RT_frame f Hwf [] bytes He) as (bs & -> & Hr). apply Hr.
Qed.

End proofs.
