(* ===== verification/ReplTransport.v ===== *)
(** * The real TCP transport

    [crates/repl-net/src/transport/mod.rs] ([payload], [wire_bytes], the default
    [send_batch]) and [transport/real.rs] (a connection's [send], [send_batch]
    and [recv]).  The socket is the sequence of results its reads give and the
    outcome of a write. *)

From S2P Require Import Prelude ReplFrame ReplCodec ReplCodecProofs.

Open Scope Z_scope.
Open Scope rust_scope.

(** Why a frame was not sent. *)
Inductive Unsendable :=
  | UCodec (e : ReplCodecError)
  | UPastCap (len : Z)
  | UFraming (e : ReplFramingError).

Inductive SendError := Closed | SendIo | Unencodable (why : Unsendable).

(** What a [write_all] and its flush do: everything is written, or some first
    bytes and then an error ([classify_write]). *)
Inductive WriteOutcome := WroteAll | WroteSome (n : nat) (e : SendError).

Definition write_all (o : WriteOutcome) (bytes out : list Z) : result unit SendError * list Z :=
  match o with
  | WroteAll => (Ok tt, out ++ bytes)
  | WroteSome n e => (Err e, out ++ firstn n bytes)
  end.

(** One [read] of the socket: bytes (none at end of file), or an error. *)
Definition read_result : Type := option (list Z).

(** [ReadState]. *)
Record ReadState := mkReadState {
  half : list read_result;
  rs_buf : list Z;
  rs_done : bool;
}.

Section transport.
Context `{Rmp}.

(** [payload]. *)
Definition payload (f : Frame) : result (list Z) SendError :=
  let? p := map_err (fun e => Unencodable (UCodec e)) (encode_frame f) in
  if (blen p <=? u32_MAX) && (blen p <=? MAX_FRAME_LEN) then Ok p
  else Err (Unencodable (UPastCap (blen p))).

(** [wire_bytes]. *)
Definition wire_bytes (f : Frame) : result (list Z) SendError :=
  let? p := payload f in
  map_err (fun e => Unencodable (UFraming e)) (frame_with_len_prefix p).

(** [RealConnection::send]: the result and what the peer's socket now holds. *)
Definition send (o : WriteOutcome) (f : Frame) (out : list Z) : result unit SendError * list Z :=
  match wire_bytes f with
  | Err e => (Err e, out)
  | Ok wire => write_all o wire out
  end.

(** The buffer [RealConnection::send_batch] coalesces. *)
Fixpoint batch_bytes (frames : list Frame) : result (list Z) SendError :=
  match frames with
  | [] => Ok []
  | f :: frames =>
      let? wire := wire_bytes f in
      let? rest := batch_bytes frames in Ok (wire ++ rest)
  end.

(** [RealConnection::send_batch]. *)
Definition send_batch (o : WriteOutcome) (frames : list Frame) (out : list Z)
    : result unit SendError * list Z :=
  match frames with
  | [] => (Ok tt, out)
  | _ => match batch_bytes frames with
         | Err e => (Err e, out)
         | Ok buf => write_all o buf out
         end
  end.

(** The trait's default [send_batch]: every frame checked, then sent one by
    one, each write with its own outcome. *)
Fixpoint check_all (frames : list Frame) : result unit SendError :=
  match frames with
  | [] => Ok tt
  | f :: frames => wire_bytes f ;? check_all frames
  end.

Fixpoint send_each (os : nat -> WriteOutcome) (frames : list Frame) (out : list Z)
    : result unit SendError * list Z :=
  match frames with
  | [] => (Ok tt, out)
  | f :: frames =>
      match send (os O) f out with
      | (Ok _, out) => send_each (fun n => os (S n)) frames out
      | r => r
      end
  end.

Definition default_send_batch (os : nat -> WriteOutcome) (frames : list Frame) (out : list Z)
    : result unit SendError * list Z :=
  match check_all frames with
  | Err e => (Err e, out)
  | Ok _ => send_each os frames out
  end.

(** [RealConnection::recv]: one turn of the loop per socket read. *)
Fixpoint recv_loop (half : list read_result) (buf : list Z) : option Frame * ReadState :=
  match try_read_framed buf with
  | (Ok (Some payload), buf) =>
      match decode_frame payload with
      | Ok frame => (Some frame, mkReadState half buf false)
      | Err _ => (None, mkReadState half buf true)
      end
  | (Ok None, buf) =>
      match half with
      | [] | Some [] :: _ => (None, mkReadState (tail half) buf true)
      | Some chunk :: half => recv_loop half (buf ++ chunk)
      | None :: half => (None, mkReadState half buf true)
      end
  | (Err _, buf) => (None, mkReadState half buf true)
  end.

Definition recv (rs : ReadState) : option Frame * ReadState :=
  if rs_done rs then (None, rs) else recv_loop (half rs) (rs_buf rs).

(** The results of [n] successive [recv]s. *)
Fixpoint recv_n (n : nat) (rs : ReadState) : list (option Frame) :=
  match n with
  | O => []
  | S n => let '(f, rs) := recv rs in f :: recv_n n rs
  end.

(** ** Lemmas *)

Lemma wire_bytes_Ok f wire :
  wire_bytes f = Ok wire <->
  exists p, encode_frame f = Ok p /\ frame_with_len_prefix p = Ok wire.
Proof.
  unfold wire_bytes, payload. destruct (encode_frame f) as [p|e]; simpl.
  2: { split; [done|]. intros (p & Hp & _). discriminate Hp. }
  split.
  - destruct ((blen p <=? u32_MAX) && (blen p <=? MAX_FRAME_LEN)); [|done]. simpl.
    destruct (frame_with_len_prefix p) eqn:E; simpl; [|done]. intros [= <-]. eauto.
  - intros (p' & [= <-] & Hf). unfold frame_with_len_prefix in Hf.
    destruct ((blen p <=? u32_MAX) && (blen p <=? MAX_FRAME_LEN)) eqn:E; [|done]. simpl.
    unfold frame_with_len_prefix. rewrite E. by rewrite Hf.
Qed.

Lemma check_all_batch frames :
  check_all frames = match batch_bytes frames with Ok _ => Ok tt | Err e => Err e end.
Proof.
  induction frames as [|f frames IH]; simpl; [done|].
  destruct (wire_bytes f); simpl; [|done]. rewrite IH. by destruct (batch_bytes frames).
Qed.

Lemma send_each_batch frames buf out :
  batch_bytes frames = Ok buf -> send_each (fun _ => WroteAll) frames out = (Ok tt, out ++ buf).
Proof.
  revert buf out. induction frames as [|f frames IH]; simpl; intros buf out.
  { intros [= <-]. by rewrite app_nil_r. }
  unfold send. destruct (wire_bytes f) as [w|]; simpl; [|done].
  destruct (batch_bytes frames) as [rest|]; simpl; [|done]. intros [= <-].
  by rewrite (IH rest), app_assoc.
Qed.

Context `{!RmpLaws}.

Lemma wire_bytes_pop f wire rest :
  frame_wf f -> wire_bytes f = Ok wire ->
  exists p, try_read_framed (wire ++ rest) = (Ok (Some p), rest) /\ decode_frame p = Ok f.
Proof.
  intros Hwf. rewrite wire_bytes_Ok. intros (p & He & Hp). exists p. split.
  - by apply try_read_framed_app.
  - unfold decode_frame. rewrite <-(app_nil_r p), (decode_encode f p []) by done. done.
Qed.

Lemma wire_bytes_partial f wire pre post :
  wire_bytes f = Ok wire -> wire = pre ++ post -> post <> [] ->
  try_read_framed pre = (Ok None, pre).
Proof. rewrite wire_bytes_Ok. intros (p & _ & Hp). by apply (try_read_framed_partial p). Qed.

(** A stream that ends: at end of file or on a read error. *)
Definition ended (tl : list read_result) : Prop :=
  match tl with [] | Some [] :: _ | None :: _ => True | _ => False end.

Definition chunks_ok (cs : list (list Z)) : Prop := Forall (fun c => c <> []) cs.

(** Two readings of one byte sequence: one prefix is inside the other. *)
Lemma app_split_cases (a b c d : list Z) :
  a ++ b = c ++ d ->
  (exists e, a = c ++ e /\ d = e ++ b) \/ (exists e, e <> [] /\ c = a ++ e /\ b = e ++ d).
Proof.
  revert c. induction a as [|x a IH]; intros c Heq.
  - destruct c as [|y c]; [left; by exists []|]. right. by exists (y :: c).
  - destruct c as [|y c]; [left; by exists (x :: a)|].
    injection Heq as <- Heq. destruct (IH _ Heq) as [(e & -> & ->)|(e & He & -> & ->)].
    + left. by exists e.
    + right. by exists e.
Qed.

(** A frame whose bytes lie in the stream is received, whatever the chunking. *)
Lemma recv_frame f wire cs tl buf rest :
  frame_wf f -> wire_bytes f = Ok wire -> chunks_ok cs ->
  buf ++ concat cs = wire ++ rest ->
  exists cs' buf', chunks_ok cs' /\ buf' ++ concat cs' = rest
    /\ recv_loop (map Some cs ++ tl) buf = (Some f, mkReadState (map Some cs' ++ tl) buf' false).
Proof.
  intros Hwf Hw. revert buf. induction cs as [|c cs IH]; intros buf Hcs Heq;
    destruct (app_split_cases _ _ _ _ Heq) as [(e & -> & ->)|(e & He & Hwe & Hb)].
  1, 3: destruct (wire_bytes_pop f wire e Hwf Hw) as (p & Hp & Hd);
    eexists _, e; split_and!; [done..|].
  - destruct tl; cbn [map app recv_loop]; by rewrite Hp, Hd.
  - cbn [map app recv_loop]. by rewrite Hp, Hd.
  - simpl in Hb. by destruct e.
  - apply Forall_cons in Hcs as [Hc Hcs]. cbn [map app recv_loop].
    rewrite (wire_bytes_partial f wire buf e Hw Hwe He).
    destruct c as [|x c]; [done|]. apply IH; [done|]. by rewrite <-app_assoc.
Qed.

(** A stream that ends inside a frame, or between frames, gives none. *)
Lemma recv_cut f wire cs tl buf post :
  (buf ++ concat cs = [] \/ (wire_bytes f = Ok wire /\ wire = (buf ++ concat cs) ++ post
    /\ post <> [])) ->
  chunks_ok cs -> ended tl ->
  exists rs, recv_loop (map Some cs ++ tl) buf = (None, rs) /\ rs_done rs = true.
Proof.
  revert buf. induction cs as [|c cs IH]; intros buf Hor Hcs Htl.
  - assert (try_read_framed buf = (Ok None, buf)) as Hr.
    { simpl in Hor. rewrite app_nil_r in Hor. destruct Hor as [->|(Hw & He & Hp)]; [done|].
      by eapply wire_bytes_partial. }
    destruct tl as [|[[|x r]|] tl]; [..|done|]; cbn [map app recv_loop]; rewrite Hr; by eexists.
  - apply Forall_cons in Hcs as [Hc Hcs]. cbn [map app recv_loop concat] in *.
    assert (try_read_framed buf = (Ok None, buf)) as ->.
    { destruct Hor as [Hnil|(Hw & He & Hp)].
      { apply app_nil in Hnil as [-> _]. done. }
      eapply (wire_bytes_partial f wire buf ((c ++ concat cs) ++ post) Hw).
      - by rewrite He, !app_assoc.
      - destruct post; [done|]. by destruct (c ++ concat cs). }
    destruct c as [|x c]; [done|]. apply IH; [|done..].
    by rewrite <-(app_assoc buf (x :: c) (concat cs)).
Qed.

(** The frames whose bytes lie whole in the first [n] bytes of their stream. *)
Fixpoint delivered (frames : list Frame) (n : Z) : list Frame :=
  match frames with
  | [] => []
  | f :: frames =>
      match wire_bytes f with
      | Ok wire => if blen wire <=? n then f :: delivered frames (n - blen wire) else []
      | Err _ => []
      end
  end.

Lemma recv_n_done n rs : rs_done rs = true -> recv_n n rs = replicate n None.
Proof.
  intros Hd. induction n as [|n IH]; simpl; [done|]. unfold recv. by rewrite Hd, IH.
Qed.

Lemma recv_n_none n rs rs' :
  recv rs = (None, rs') -> rs_done rs' = true -> recv_n n rs = replicate n None.
Proof.
  destruct n; [done|]. simpl. intros -> Hd. by rewrite recv_n_done.
Qed.

Lemma recv_n_stream frames m buf cs tl wire post :
  Forall frame_wf frames -> batch_bytes frames = Ok wire ->
  chunks_ok cs -> ended tl -> wire = (buf ++ concat cs) ++ post ->
  let d := delivered frames (blen (buf ++ concat cs)) in
  recv_n (length d + m) (mkReadState (map Some cs ++ tl) buf false)
  = map Some d ++ replicate m None.
Proof.
  revert buf cs wire. induction frames as [|f frames IH]; intros buf cs wire Hwf Hb Hcs Htl Heq.
  { simpl in *. injection Hb as <-. symmetry in Heq.
    apply app_nil in Heq as [Heq _].
    destruct (recv_cut (FNoop (mkW 0 0)) [] cs tl buf [] (or_introl Heq) Hcs Htl)
      as (rs & Hr & Hd). by eapply recv_n_none. }
  apply Forall_cons in Hwf as [Hwf Hwfs]. simpl in Hb.
  destruct (wire_bytes f) as [w|] eqn:Hw; [|done]. simpl in Hb.
  destruct (batch_bytes frames) as [rest|] eqn:Hrest; [|done]. injection Hb as <-.
  simpl. rewrite Hw.
  destruct (app_split_cases _ _ _ _ (eq_sym Heq)) as [(e & He & ->)|(e & Hne & -> & He)].
  - destruct (recv_frame f w cs tl buf e Hwf Hw Hcs He) as (cs' & buf' & Hcs' & He' & Hr).
    rewrite He. unfold blen. rewrite length_app, Nat2Z.inj_add.
    destruct (Z.leb_spec (Z.of_nat (length w)) (Z.of_nat (length w) + Z.of_nat (length e))); [|lia].
    replace (Z.of_nat (length w) + Z.of_nat (length e) - Z.of_nat (length w))
      with (blen (buf' ++ concat cs')) by (rewrite He'; unfold blen; lia).
    cbn [length Nat.add recv_n]. unfold recv. cbn [rs_done half rs_buf]. rewrite Hr.
    cbn [map app]. f_equal. eapply IH; try done. by rewrite He'.
  - destruct (Z.leb_spec (blen ((buf ++ concat cs) ++ e)) (blen (buf ++ concat cs))) as [Hle|_].
    { exfalso. unfold blen in Hle. rewrite (length_app (buf ++ concat cs)) in Hle.
      destruct e; [done|]. simpl in Hle. lia. }
    destruct (recv_cut f ((buf ++ concat cs) ++ e) cs tl buf e) as (rs & Hr & Hd); [by right|done..|].
    by eapply recv_n_none.
Qed.

End transport.
