(* ===== verification/Msgpack.v ===== *)
(** * A MessagePack instance of the [rmp] interface

    The MessagePack format of the values the codec writes, minimal marker
    first, as a concrete [Rmp] that satisfies [RmpLaws]: the hypotheses of the
    codec's theorems hold of a real encoding, and the theorems run on it. *)

From S2P Require Import Prelude ReplFrame ReplCodec.

Open Scope Z_scope.
Open Scope rust_scope.

(** ** Writers *)

Definition mp_array_len (n : Z) : list Z :=
  if n <? 16 then [144 + n]
  else if n <? 65536 then 220 :: be_bytes 2 n else 221 :: be_bytes 4 n.

Definition mp_uint (v : Z) : list Z :=
  if v <? 128 then [v]
  else if v <? 256 then 204 :: be_bytes 1 v
  else if v <? 65536 then 205 :: be_bytes 2 v
  else if v <? 4294967296 then 206 :: be_bytes 4 v
  else 207 :: be_bytes 8 v.

(** A negative [v] is written as the two's complement of its width. *)
Definition mp_sint (v : Z) : list Z :=
  if 0 <=? v then mp_uint v
  else if -32 <=? v then [256 + v]
  else if -128 <=? v then 208 :: be_bytes 1 (v + 256)
  else if -32768 <=? v then 209 :: be_bytes 2 (v + 65536)
  else if -2147483648 <=? v then 210 :: be_bytes 4 (v + 4294967296)
  else 211 :: be_bytes 8 (v + 2 ^ 64).

Definition mp_str_len (n : Z) : list Z :=
  if n <? 32 then [160 + n]
  else if n <? 256 then 217 :: be_bytes 1 n
  else if n <? 65536 then 218 :: be_bytes 2 n
  else 219 :: be_bytes 4 n.

Definition mp_bin_len (n : Z) : list Z :=
  if n <? 256 then 196 :: be_bytes 1 n
  else if n <? 65536 then 197 :: be_bytes 2 n
  else 198 :: be_bytes 4 n.

(** ** Readers *)

Definition mp_marker (b : Z) : Marker :=
  if b =? 192 then MNull else if b =? 196 then MBin8
  else if b =? 197 then MBin16 else if b =? 198 then MBin32 else MOther b.

(** [k] bytes of payload as a big-endian integer. *)
Definition mp_be (k : nat) (l : list Z) : option (Z * list Z) :=
  if (k <=? length l)%nat then Some (be_value (firstn k l), skipn k l) else None.

(** An unsigned [k]-byte value read as a signed one. *)
Definition mp_signed (k : nat) (v : Z) : Z :=
  if v <? 2 ^ (8 * Z.of_nat k - 1) then v else v - 2 ^ (8 * Z.of_nat k).

Definition mp_unsigned (k : nat) (v : Z) : Z := v.

(** The width and reading of an integer marker with a payload. *)
Definition mp_int_width (b : Z) : option (nat * (nat -> Z -> Z)) :=
  if b =? 204 then Some (1%nat, mp_unsigned) else if b =? 205 then Some (2%nat, mp_unsigned)
  else if b =? 206 then Some (4%nat, mp_unsigned) else if b =? 207 then Some (8%nat, mp_unsigned)
  else if b =? 208 then Some (1%nat, mp_signed) else if b =? 209 then Some (2%nat, mp_signed)
  else if b =? 210 then Some (4%nat, mp_signed) else if b =? 211 then Some (8%nat, mp_signed)
  else None.

Definition mp_read_any_int (l : list Z) : result (Z * list Z) NumValueReadError :=
  match l with
  | [] => Err NInvalidMarkerRead
  | b :: l =>
      if b <? 128 then Ok (b, l)
      else if 224 <=? b then Ok (b - 256, l)
      else match mp_int_width b with
           | None => Err (NTypeMismatch (mp_marker b))
           | Some (k, rd) =>
               match mp_be k l with
               | Some (v, l) => Ok (rd k v, l)
               | None => Err NInvalidDataRead
               end
           end
  end.

Definition mp_read_int (lo hi : Z) (l : list Z) : result (Z * list Z) NumValueReadError :=
  let? p := mp_read_any_int l in
  if (lo <=? p.1) && (p.1 <=? hi) then Ok p else Err NOutOfRange.

(** A length: fixed in the marker, or a payload of [width marker] bytes. *)
Definition mp_read_len (lo hi : Z) (width : Z -> option nat) (l : list Z)
    : result (Z * list Z) ValueReadError :=
  match l with
  | [] => Err InvalidMarkerRead
  | b :: l =>
      if (lo <=? b) && (b <? hi) then Ok (b - lo, l)
      else match width b with
           | None => Err (TypeMismatch (mp_marker b))
           | Some k => match mp_be k l with
                       | Some p => Ok p
                       | None => Err InvalidDataRead
                       end
           end
  end.

Definition mp_array_width (b : Z) : option nat :=
  if b =? 220 then Some 2%nat else if b =? 221 then Some 4%nat else None.
Definition mp_str_width (b : Z) : option nat :=
  if b =? 217 then Some 1%nat else if b =? 218 then Some 2%nat
  else if b =? 219 then Some 4%nat else None.

Definition mp_read_bool (l : list Z) : result (bool * list Z) ValueReadError :=
  match l with
  | [] => Err InvalidMarkerRead
  | b :: l => if b =? 194 then Ok (false, l) else if b =? 195 then Ok (true, l)
              else Err (TypeMismatch (mp_marker b))
  end.

Definition mp_read_marker (l : list Z) : option (Marker * list Z) :=
  match l with [] => None | b :: l => Some (mp_marker b, l) end.

#[export] Instance msgpack : Rmp := {
  write_array_len := mp_array_len;
  write_uint := mp_uint;
  write_sint := mp_sint;
  write_str s := mp_str_len (blen s) ++ s;
  write_bin b := mp_bin_len (blen b) ++ b;
  write_nil := [192];
  write_bool b := [if b then 195 else 194];
  null_to_u8 := 192;
  rmp_read_array_len := mp_read_len 144 160 mp_array_width;
  rmp_read_int := mp_read_int;
  rmp_read_str_len := mp_read_len 160 192 mp_str_width;
  rmp_read_bool := mp_read_bool;
  rmp_read_marker := mp_read_marker;
}.

(** ** The laws hold *)

Lemma mp_be_app k v r : 0 <= v < 256 ^ Z.of_nat k -> mp_be k (be_bytes k v ++ r) = Some (v, r).
Proof.
  intros Hv. unfold mp_be. pose proof (length_be_bytes k v) as Hl.
  destruct (Nat.leb_spec k (length (be_bytes k v ++ r))) as [|Hlt];
    [|rewrite length_app in Hlt; lia].
  rewrite take_app_length', drop_app_length' by done. by rewrite be_value_be_bytes.
Qed.

Lemma mp_signed_neg k v :
  (0 < k)%nat -> - 2 ^ (8 * Z.of_nat k - 1) <= v < 0 -> mp_signed k (v + 2 ^ (8 * Z.of_nat k)) = v.
Proof.
  intros Hk Hv. unfold mp_signed.
  assert (2 ^ (8 * Z.of_nat k) = 2 * 2 ^ (8 * Z.of_nat k - 1)) as ->.
  { rewrite <-Z.pow_succ_r by lia. f_equal. lia. }
  destruct (Z.ltb_spec (v + 2 * 2 ^ (8 * Z.of_nat k - 1)) (2 ^ (8 * Z.of_nat k - 1))); lia.
Qed.

Lemma mp_read_any_width b k f v r :
  (b <? 128) = false -> (224 <=? b) = false -> mp_int_width b = Some (k, f) ->
  0 <= v < 256 ^ Z.of_nat k ->
  mp_read_any_int ((b :: be_bytes k v) ++ r) = Ok (f k v, r).
Proof.
  intros H1 H2 H3 Hv. unfold mp_read_any_int. cbn [app]. rewrite H1, H2, H3.
  by rewrite mp_be_app.
Qed.

Lemma mp_read_uint v r : in_u64 v -> mp_read_any_int (mp_uint v ++ r) = Ok (v, r).
Proof.
  unfold in_u64, u64_MAX, mp_uint. intros Hv.
  destruct (Z.ltb_spec v 128) as [Hlt|].
  { unfold mp_read_any_int. simpl. by rewrite (proj2 (Z.ltb_lt v 128) Hlt). }
  repeat case_match; zbool;
    (erewrite mp_read_any_width; [|reflexivity..|cbn; lia]); reflexivity.
Qed.

Lemma mp_read_sint v r : in_i64 v -> mp_read_any_int (mp_sint v ++ r) = Ok (v, r).
Proof.
  unfold in_i64, i64_MIN, i64_MAX, mp_sint. intros Hv.
  destruct (Z.leb_spec 0 v); [apply mp_read_uint; unfold in_u64, u64_MAX; lia|].
  destruct (Z.leb_spec (-32) v).
  { unfold mp_read_any_int. simpl.
    destruct (Z.ltb_spec (256 + v) 128); [lia|].
    destruct (Z.leb_spec 224 (256 + v)); [|lia]. f_equal. f_equal. lia. }
  repeat case_match; zbool;
    (erewrite mp_read_any_width; [|reflexivity..|simpl; lia]); f_equal; f_equal;
    [apply (mp_signed_neg 1)|apply (mp_signed_neg 2)|apply (mp_signed_neg 4)
    |apply (mp_signed_neg 8)]; lia.
Qed.

Lemma mp_read_len_width lo hi width b k v r :
  (lo <=? b) && (b <? hi) = false -> width b = Some k -> 0 <= v < 256 ^ Z.of_nat k ->
  mp_read_len lo hi width ((b :: be_bytes k v) ++ r) = Ok (v, r).
Proof.
  intros H1 H2 Hv. unfold mp_read_len. cbn [app]. rewrite H1, H2. by rewrite mp_be_app.
Qed.

Lemma mp_read_len_fix lo hi width n r :
  0 <= n < hi - lo -> mp_read_len lo hi width ([lo + n] ++ r) = Ok (n, r).
Proof.
  intros Hn. unfold mp_read_len. simpl.
  destruct (Z.leb_spec lo (lo + n)); [|lia]. destruct (Z.ltb_spec (lo + n) hi); [|lia].
  simpl. f_equal. f_equal. lia.
Qed.

Lemma mp_read_array_len n r :
  0 <= n <= u32_MAX -> mp_read_len 144 160 mp_array_width (mp_array_len n ++ r) = Ok (n, r).
Proof.
  unfold u32_MAX, mp_array_len. intros Hn.
  repeat case_match; zbool; [apply (mp_read_len_fix 144); lia|..];
    (apply mp_read_len_width; [reflexivity..|simpl; lia]).
Qed.

Lemma mp_read_str_len n r :
  0 <= n <= u32_MAX -> mp_read_len 160 192 mp_str_width (mp_str_len n ++ r) = Ok (n, r).
Proof.
  unfold u32_MAX, mp_str_len. intros Hn.
  repeat case_match; zbool; [apply (mp_read_len_fix 160); lia|..];
    (apply mp_read_len_width; [reflexivity..|simpl; lia]).
Qed.

Lemma mp_str_len_head n : 0 <= n -> exists b l, mp_str_len n = b :: l /\ b <> 192.
Proof.
  unfold mp_str_len. intros Hn. repeat case_match; zbool; do 2 eexists; (split; [done|lia]).
Qed.

Lemma mp_bin_len_form n :
  0 <= n <= u32_MAX ->
  exists m k b, (m, k) ∈ [(MBin8, 1%nat); (MBin16, 2%nat); (MBin32, 4%nat)]
    /\ n < 256 ^ Z.of_nat k /\ mp_bin_len n = b :: be_bytes k n /\ mp_marker b = m.
Proof.
  unfold u32_MAX, mp_bin_len. intros Hn. repeat case_match; zbool.
  - exists MBin8, 1%nat, 196. rewrite !elem_of_cons. simpl. split_and!; [intuition|lia|done..].
  - exists MBin16, 2%nat, 197. rewrite !elem_of_cons. simpl. split_and!; [intuition|lia|done..].
  - exists MBin32, 4%nat, 198. rewrite !elem_of_cons. simpl. split_and!; [intuition|lia|done..].
Qed.

Lemma blen_nonneg l : 0 <= blen l.
Proof. unfold blen. lia. Qed.

#[export] Instance msgpack_laws : RmpLaws (H := msgpack).
Proof.
  constructor; cbn [msgpack write_array_len write_uint write_sint write_str write_bin write_nil
    write_bool null_to_u8 rmp_read_array_len rmp_read_int rmp_read_str_len rmp_read_bool
    rmp_read_marker].
  - apply mp_read_array_len.
  - intros lo hi v r Hv Hr. unfold mp_read_int. rewrite mp_read_uint by done. simpl.
    by rewrite (proj2 (Z.leb_le lo v)), (proj2 (Z.leb_le v hi)) by lia.
  - intros lo hi v r Hv Hr. unfold mp_read_int. rewrite mp_read_uint by done. simpl.
    destruct (Z.leb_spec lo v), (Z.leb_spec v hi); (done || lia).
  - intros lo hi v r Hv Hr. unfold mp_read_int. rewrite mp_read_sint by done. simpl.
    by rewrite (proj2 (Z.leb_le lo v)), (proj2 (Z.leb_le v hi)) by lia.
  - intros s r Hs. rewrite <-app_assoc, mp_read_str_len; [done|].
    pose proof (blen_nonneg s). lia.
  - intros s. destruct (mp_str_len_head (blen s) (blen_nonneg s)) as (b & l & -> & Hb).
    by exists b, (l ++ s).
  - done.
  - by intros [] r.
  - done.
  - intros b r Hb. pose proof (blen_nonneg b).
    destruct (mp_bin_len_form (blen b)) as (m & k & mb & Hin & Hlt & -> & Hm); [lia|].
    exists m, k. split_and!; [done..|]. simpl. by rewrite Hm, <-app_assoc.
Qed.
