(* ===== verification/ReplProps.v ===== *)
(** * What the replication wire promises

    The codec's round trip and its failures, and the delivery of a stream of
    frames over a TCP socket, with the witnesses run on the [Msgpack]
    instance. *)

From S2P Require Import Prelude ReplFrame ReplCodec ReplCodecProofs ReplTransport Msgpack.

Open Scope Z_scope.
Open Scope rust_scope.

(** Example frames: a request, a call's body and a catch-up marker. *)
Definition ex_pull : Frame := FPullRequest 7 "w1" (Some "w1-uid") Bak (mkW 3 0).
Definition ex_data : Frame :=
  FData (mkW 3 70000) Put Bak "w0|c1|t1" 4 (-2) (-1) 1700000000000 ["idx:a"; "idx:b"]
    (Some [1; 2; 255]) false (Some "inc").
Definition ex_noop : Frame := FNoop (mkW 3 70001).

Definition ex_wire : list Z :=
  match batch_bytes [ex_pull; ex_data; ex_noop] with Ok w => w | Err _ => [] end.

Section claims.
Context `{Rmp}.

(** C12: frames sent in one batch arrive, in order and unchanged, through any
    chunking of the bytes into socket reads: a connection that sees the first
    bytes of the batch and then ends, by end of file or by a read error,
    receives exactly the frames whose bytes arrived whole, then nothing
    forever; no frame is lost, duplicated, reordered or invented from a part
    of one. *)
Theorem repl_stream_delivery `{!RmpLaws} frames cs tl post wire m :
  Forall frame_wf frames ->
  send_batch WroteAll frames [] = (Ok tt, wire) ->
  wire = concat cs ++ post ->
  Forall (fun c => c <> []) cs -> ended tl ->
  let d := delivered frames (blen (concat cs)) in
  recv_n (length d + m) (mkReadState (map Some cs ++ tl) [] false)
  = map Some d ++ replicate m None.
Proof.
  intros Hwf Hs Heq Hcs Htl. destruct frames as [|f frames].
  { simpl in Hs. injection Hs as <-. by apply (recv_n_stream [] m [] cs tl [] post). }
  unfold send_batch in Hs. destruct (batch_bytes (f :: frames)) as [buf|] eqn:Hb; [|done].
  simpl in Hs. injection Hs as <-. by apply (recv_n_stream (f :: frames) m [] cs tl buf post).
Qed.

(** C13: decoding the encoding of a frame gives the frame back, with whatever
    follows it ignored, for every frame whose fields are in the range of their
    Rust types. *)
Theorem repl_codec_roundtrip `{!RmpLaws} f bytes trailing :
  frame_wf f -> encode_frame f = Ok bytes -> decode_frame (bytes ++ trailing) = Ok f.
Proof.
  intros Hwf He. unfold decode_frame. by rewrite (decode_encode f bytes trailing).
Qed.

(** Encoding fails exactly on a string, an index list or a body longer than
    msgpack's 32-bit length, with [TooLong] naming the first such element. *)
Theorem repl_encode_too_long f :
  match first_too_long (frame_lengths f) with
  | None => exists bytes, encode_frame f = Ok bytes
  | Some (at_, len) => encode_frame f = Err (TooLong at_ len)
  end.
Proof. apply (EncLen_frame f []). Qed.

(** The array lengths each tag accepts, with the name and the length its error
    states. *)
Definition arity (tag : Z) : option (list Z * string * Z) :=
  if tag =? PULL_REQUEST then Some ([6; 7], "PullRequest", 7)
  else if tag =? DATA then Some ([14], "Data", 14)
  else if tag =? NOOP then Some ([3], "Noop", 3)
  else if tag =? RESET_TO_BOOTSTRAP then Some ([2], "ResetToBootstrap", 2)
  else if tag =? POSITION then Some ([3], "Position", 3)
  else if tag =? REPLICA_REFUSED then Some ([5], "ReplicaRefused", 5)
  else if tag =? STREAM_REFUSED then Some ([3], "StreamRefused", 3)
  else None.

Lemma expect_len_bad len want name rd :
  len <> want -> expect_len len want name rd = Err (MalformedArray (ArityMismatch name want len)).
Proof. intros Hne. unfold expect_len. by destruct (Z.eqb_spec len want). Qed.

(** A frame array with no element, with an unknown tag or with a length
    that is not its tag's is refused with the error that says so, whatever
    bytes follow. *)
Theorem repl_decode_rejects `{!RmpLaws} len tag rest :
  0 <= len <= u32_MAX -> 0 <= tag <= u64_MAX ->
  let bytes := write_array_len len ++ write_uint tag ++ rest in
  (len = 0 -> decode_frame bytes = Err (MalformedArray EmptyArray))
  /\ (0 < len -> arity tag = None -> decode_frame bytes = Err (UnknownTag tag))
  /\ (0 < len -> forall lens name want, arity tag = Some (lens, name, want) -> len ∉ lens ->
      decode_frame bytes = Err (MalformedArray (ArityMismatch name want len))).
Proof.
  intros Hlen Htag bytes. unfold decode_frame, decode_frame_rest, dec_bind, bytes, read_array_len,
    read_u64.
  rewrite read_array_len_write by done. simpl. split_and!.
  - by intros ->.
  - intros Hpos Har. destruct (Z.eqb_spec len 0); [lia|].
    rewrite read_int_write_uint by done. simpl. unfold arity in Har. by repeat case_match.
  - intros Hpos lens name want Har Hnin. destruct (Z.eqb_spec len 0); [lia|].
    rewrite read_int_write_uint by done. simpl. unfold arity in Har.
    repeat case_match; simplify_eq; rewrite ?not_elem_of_cons in Hnin; destruct_and?;
      unfold decode_pull_request, decode_data, decode_noop, decode_reset, decode_position,
        decode_replica_refused, decode_stream_refused, dec_bind;
      try (destruct (Z.eqb_spec len 6); [done|]); by rewrite expect_len_bad.
Qed.

(** A server reads the six-element request of a version-4 peer, which has no
    identity, so that it can refuse it by its version; a partition byte that is
    neither 0 nor 1 is an unknown discriminant. *)
Theorem repl_v4_pull_request `{!RmpLaws} v caller p g c rest :
  in_u16 v -> utf8 caller -> slen caller <= u32_MAX -> 0 <= p < 256 -> in_u64 g -> in_u64 c ->
  decode_frame (write_array_len 6 ++ write_uint PULL_REQUEST ++ write_uint v
                ++ write_str (str_bytes caller) ++ write_uint p ++ write_uint g
                ++ write_uint c ++ rest)
  = match partition_from_u8 p with
    | Ok part => Ok (FPullRequest v caller None part (mkW g c))
    | Err u => Err (EUnknownDiscriminant "Partition" p)
    end.
Proof.
  unfold in_u16, in_u64, slen. intros Hv Hc Hl Hp Hg Hcn.
  unfold decode_frame, decode_frame_rest, dec_bind, read_array_len.
  rewrite read_array_len_write by (unfold u32_MAX; lia). simpl. unfold read_u64.
  rewrite read_int_write_uint by (unfold PULL_REQUEST, u64_MAX; lia). simpl.
  unfold decode_pull_request, dec_bind, read_u16, read_u8, read_u64. simpl.
  rewrite read_int_write_uint by (unfold u16_MAX, u64_MAX in *; lia). simpl.
  rewrite read_str_app by done. simpl.
  rewrite read_int_write_uint by (unfold u8_MAX, u64_MAX; lia). simpl. unfold partition_from_u8.
  destruct (Z.eqb_spec p 0) as [->|]; [|destruct (Z.eqb_spec p 1) as [->|]; [|done]]; simpl;
    do 2 (rewrite read_int_write_uint by lia; simpl); done.
Qed.

(** The coalesced batch puts the same bytes on the wire as the frames sent
    one by one; and a batch one of whose frames does not encode sends none of
    them, in both, whatever the socket would have done. *)
Theorem repl_send_batch_equiv frames out :
  match batch_bytes frames with
  | Ok buf => send_batch WroteAll frames out = (Ok tt, out ++ buf)
      /\ default_send_batch (fun _ => WroteAll) frames out = (Ok tt, out ++ buf)
  | Err e => forall o os,
      send_batch o frames out = (Err e, out) /\ default_send_batch os frames out = (Err e, out)
  end.
Proof.
  unfold default_send_batch. rewrite check_all_batch.
  destruct (batch_bytes frames) as [buf|e] eqn:Hb.
  - split; [|by apply send_each_batch].
    destruct frames; [injection Hb as <-; simpl; by rewrite app_nil_r|].
    unfold send_batch. by rewrite Hb.
  - intros o os. split; [|done]. destruct frames; [done|]. unfold send_batch. by rewrite Hb.
Qed.

End claims.

(** ** Witnesses *)

Lemma ex_wf : Forall frame_wf [ex_pull; ex_data; ex_noop].
Proof.
  repeat constructor; unfold utf8, in_u16, in_u64, in_i64, w_wf; simpl;
    try (vm_compute; reflexivity); try (vm_compute; congruence).
Qed.

(** The three frames read in chunks of 5, 45 and 35 bytes, the last one cut. *)
Definition ex_chunks : list (list Z) :=
  [firstn 5 ex_wire; firstn 45 (skipn 5 ex_wire); firstn 35 (skipn 50 ex_wire)].

Lemma repl_stream_delivery_witness :
  recv_n 4 (mkReadState (map Some ex_chunks ++ [None]) [] false)
  = [Some ex_pull; Some ex_data; None; None].
Proof.
  refine (repl_stream_delivery [ex_pull; ex_data; ex_noop] ex_chunks [None]
            (skipn 85 ex_wire) ex_wire 2 ex_wf _ _ _ I).
  - vm_compute. reflexivity.
  - vm_compute. reflexivity.
  - repeat constructor; vm_compute; discriminate.
Defined.

Lemma repl_codec_roundtrip_witness :
  exists bytes, encode_frame ex_data = Ok bytes /\ decode_frame (bytes ++ [0; 9]) = Ok ex_data.
Proof.
  eexists. split; [vm_compute; reflexivity|].
  apply repl_codec_roundtrip; [|vm_compute; reflexivity].
  apply (Forall_lookup_1 _ _ 1%nat _ ex_wf). reflexivity.
Defined.

Lemma repl_decode_rejects_witness :
  decode_frame [144; 1] = Err (MalformedArray EmptyArray)
  /\ decode_frame [147; 9; 5] = Err (UnknownTag 9)
  /\ decode_frame [147; 1; 5] = Err (MalformedArray (ArityMismatch "Data" 14 3)).
Proof.
  pose proof (repl_decode_rejects 0 1 []) as H0.
  pose proof (repl_decode_rejects 3 9 [5]) as H9.
  pose proof (repl_decode_rejects 3 1 [5]) as H1.
  split_and!.
  - apply H0; [vm_compute; intuition congruence..|reflexivity].
  - apply H9; [vm_compute; intuition congruence..|reflexivity|reflexivity].
  - eapply H1; [vm_compute; intuition congruence..|reflexivity|reflexivity|].
    rewrite list_elem_of_singleton. discriminate.
Defined.

Lemma repl_v4_pull_request_witness :
  decode_frame [150; 0; 4; 162; 119; 49; 1; 3; 7]
  = Ok (FPullRequest 4 "w1" None Bak (mkW 3 7)).
Proof.
  refine (repl_v4_pull_request 4 "w1" 1 3 7 [] _ _ _ _ _ _);
    unfold in_u16, in_u64, utf8; vm_compute; intuition congruence.
Defined.
