(* ===== verification/Changelog.v ===== *)
(** * The per-peer compacted changelog

    [crates/b2bua/src/repl/changelog.rs] and its submodules [backlog],
    [drain], [held], [progress], [serving] and [source].

    Every public operation runs under one mutex, so it is one step on the
    state.  A [BTreeMap<u64, String>] is the association list of its pairs in
    ascending key order; a [HashMap] is a [gmap]; a [watch::Sender] is the value
    it holds.  The wall clock ([now_ms]) and the monotonic one ([inst], in the
    unit of the [Duration]s) are arguments of the operations that read them. *)

From S2P Require Import Prelude ReplFrame.

Open Scope Z_scope.

(** ** State *)

Definition DEFAULT_DEAD_PEER_TTL_MS : Z := 60000.
Definition DEFAULT_BOOTSTRAP_HARD_TIMEOUT_MS : Z := 10000.
Definition DEFAULT_CLAIM_TTL : Z := 1000.

Record RefState := mkRefState {
  st_counter : Z;
  first_sent : option Z;
  st_op : Op;
  written_ms : Z;
  st_answered : bool;
  st_incarnation : option string;
}.

Record Due := mkDue {
  d_counter : Z;
  d_ref : string;
  d_op : Op;
  d_answered : bool;
  d_incarnation : option string;
}.

(** [progress::Claim]: the position a puller applied, and when it said so. *)
Record Claim := mkClaim { cm_at : Watermark; made : Z }.

Record SubLog := mkSubLog {
  entries : list (Z * string);
  by_ref : gmap string RefState;
  retained_floor : Z;
  opened : Z;
  sl_head : Z;
  applied : option Claim;
  streams : Z;
  acked : Watermark;
  unbound : option (string * Watermark);
  flow_started : option Z;
  written : Z;
}.

(** [SubLog::new]. *)
Definition sublog_new (floor : Z) : SubLog :=
  mkSubLog [] ∅ floor floor 0 None 0 (mkW 0 0) None None 0.

(** Field updates. *)
Definition set_log (es : list (Z * string)) (m : gmap string RefState) (s : SubLog) : SubLog :=
  mkSubLog es m (retained_floor s) (opened s) (sl_head s) (applied s) (streams s)
    (acked s) (unbound s) (flow_started s) (written s).
Definition set_floor (f : Z) (s : SubLog) : SubLog :=
  mkSubLog (entries s) (by_ref s) f (opened s) (sl_head s) (applied s) (streams s)
    (acked s) (unbound s) (flow_started s) (written s).
Definition set_head (h : Z) (s : SubLog) : SubLog :=
  mkSubLog (entries s) (by_ref s) (retained_floor s) (opened s) h (applied s) (streams s)
    (acked s) (unbound s) (flow_started s) h.
Definition set_flow (a : option Claim) (n : Z) (started : option Z) (s : SubLog) : SubLog :=
  mkSubLog (entries s) (by_ref s) (retained_floor s) (opened s) (sl_head s) a n
    (acked s) (unbound s) started (written s).
Definition set_acked (w : Watermark) (u : option (string * Watermark)) (s : SubLog) : SubLog :=
  mkSubLog (entries s) (by_ref s) (retained_floor s) (opened s) (sl_head s) (applied s)
    (streams s) w u (flow_started s) (written s).

(** [Stated]. *)
Record Stated := mkStated { s_answered : bool; s_incarnation : option string }.
Definition stated_default : Stated := mkStated false None.

Definition is_delete (o : Op) : bool := match o with Delete => true | Put => false end.
Definition is_put (o : Op) : bool := negb (is_delete o).

(** What a write takes over from the entry it replaces: the answer and the
    first send. *)
Definition carried_answer (op : Op) (prev : RefState) : bool :=
  is_delete op && is_delete (st_op prev) && st_answered prev.
Definition carried_sent (op : Op) (prev : RefState) (acked_counter : Z) : option Z :=
  if is_delete op || is_put (st_op prev) then
    match first_sent prev with
    | Some sent => if sent <=? acked_counter then Some sent else None
    | None => None
    end
  else None.

(** [SubLog::put]. *)
Definition sub_put (c : Z) (r : string) (op : Op) (now_ms : Z) (stated : Stated) (s : SubLog)
    : SubLog :=
  let '(es, answered, sent) :=
    match by_ref s !! r with
    | Some prev =>
        (bt_remove (st_counter prev) (entries s),
         s_answered stated || carried_answer op prev,
         carried_sent op prev (counter (acked s)))
    | None => (entries s, s_answered stated, None)
    end in
  let st := mkRefState c sent op now_ms answered (s_incarnation stated) in
  set_head (Z.max (sl_head s) c) (set_log (bt_insert c r es) (<[r := st]> (by_ref s)) s).

(** [SubLog::forget]. *)
Definition sub_forget (r : string) (s : SubLog) : SubLog :=
  match by_ref s !! r with
  | Some st => set_log (bt_remove (st_counter st) (entries s)) (delete r (by_ref s)) s
  | None => s
  end.

(** [first_sent.get_or_insert]. *)
Definition mark_sent (c : Z) (st : RefState) : RefState :=
  mkRefState (st_counter st)
    (match first_sent st with Some x => Some x | None => Some c end)
    (st_op st) (written_ms st) (st_answered st) (st_incarnation st).

(** The [filter_map] of [due], entry by entry: the due entries and the marked
    states. *)
Fixpoint due_collect (es : list (Z * string)) (m : gmap string RefState)
    : list Due * gmap string RefState :=
  match es with
  | [] => ([], m)
  | (c, r) :: es =>
      match m !! r with
      | None => due_collect es m
      | Some st =>
          let '(ds, m) := due_collect es (<[r := mark_sent c st]> m) in
          (mkDue c r (st_op st) (st_answered st) (st_incarnation st) :: ds, m)
      end
  end.

(** [SubLog::due]. *)
Definition sub_due (since_counter : Z) (cold : bool) (limit : nat) (s : SubLog)
    : list Due * SubLog :=
  let range := if cold then entries s else bt_above since_counter (entries s) in
  let '(ds, m) := due_collect (firstn limit range) (by_ref s) in
  (ds, set_log (entries s) m s).

(** [PeerLog]. *)
Record PeerLog := mkPeerLog {
  pl_pri : SubLog;
  pl_bak : SubLog;
  last_active_ms : Z;
  pl_serving : Z;
  over_high_water : bool;
}.

(** [PeerLog::new]. *)
Definition peer_new (now_ms c : Z) : PeerLog :=
  mkPeerLog (sublog_new c) (sublog_new c) now_ms 0 false.

(** [PeerLog::sub] and [sub_mut]. *)
Definition pl_sub (p : Partition) (l : PeerLog) : SubLog :=
  match p with Pri => pl_pri l | Bak => pl_bak l end.
Definition sub_mut (p : Partition) (f : SubLog -> SubLog) (l : PeerLog) : PeerLog :=
  match p with
  | Pri => mkPeerLog (f (pl_pri l)) (pl_bak l) (last_active_ms l) (pl_serving l) (over_high_water l)
  | Bak => mkPeerLog (pl_pri l) (f (pl_bak l)) (last_active_ms l) (pl_serving l) (over_high_water l)
  end.

(** [BacklogMarks]; an age is in the unit of the durations. *)
Record BacklogMarks := mkMarks {
  high_entries : Z;
  low_entries : Z;
  high_age : Z;
  low_age : Z;
}.

Definition marks_default : BacklogMarks := mkMarks 10000 1000 5000 1000.

Inductive MarksError := EntriesOutOfOrder (low high : Z) | AgesOutOfOrder (low high : Z).

(** [BacklogMarks::validate]. *)
Definition marks_validate (m : BacklogMarks) : result unit MarksError :=
  if high_entries m <=? low_entries m then Err (EntriesOutOfOrder (low_entries m) (high_entries m))
  else if high_age m <=? low_age m then Err (AgesOutOfOrder (low_age m) (high_age m))
  else Ok tt.

(** [Inner]. *)
Record Inner := mkInner {
  cl_counter : Z;
  peers : gmap string PeerLog;
  claim_ttl : Z;
  bound : gmap string string;
  marks : BacklogMarks;
}.

(** [Changelog]. *)
Record Changelog := mkChangelog {
  cl_gen : Z;
  dead_peer_ttl_ms : Z;
  bootstrap_hard_timeout : Z;
  inner : Inner;
}.

Definition set_inner (i : Inner) (cl : Changelog) : Changelog :=
  mkChangelog (cl_gen cl) (dead_peer_ttl_ms cl) (bootstrap_hard_timeout cl) i.
Definition set_peers (ps : gmap string PeerLog) (i : Inner) : Inner :=
  mkInner (cl_counter i) ps (claim_ttl i) (bound i) (marks i).

(** [inner.peers.get_mut(peer)]: nothing when the peer has no log. *)
Definition upd_peer (peer : string) (f : PeerLog -> PeerLog) (cl : Changelog) : Changelog :=
  set_inner (set_peers (alter f peer (peers (inner cl))) (inner cl)) cl.

Definition get_sub (peer : string) (p : Partition) (cl : Changelog) : option SubLog :=
  pl_sub p <$> peers (inner cl) !! peer.

(** [Changelog::new]. *)
Definition new (g : Z) : Changelog :=
  mkChangelog g DEFAULT_DEAD_PEER_TTL_MS DEFAULT_BOOTSTRAP_HARD_TIMEOUT_MS
    (mkInner 0 ∅ DEFAULT_CLAIM_TTL ∅ marks_default).

Definition with_dead_peer_ttl (ttl : Z) (cl : Changelog) : Changelog :=
  mkChangelog (cl_gen cl) ttl (bootstrap_hard_timeout cl) (inner cl).
Definition with_bootstrap_hard_timeout (t : Z) (cl : Changelog) : Changelog :=
  mkChangelog (cl_gen cl) (dead_peer_ttl_ms cl) t (inner cl).
Definition set_claim_ttl (ttl : Z) (cl : Changelog) : Changelog :=
  let i := inner cl in
  set_inner (mkInner (cl_counter i) (peers i) ttl (bound i) (marks i)) cl.
Definition set_backlog_marks (m : BacklogMarks) (cl : Changelog) : Changelog :=
  let i := inner cl in
  set_inner (mkInner (cl_counter i) (peers i) (claim_ttl i) (bound i) m) cl.

(** ** Writes *)

(** [head]. *)
Definition head_at (cl : Changelog) : Watermark := mkW (cl_gen cl) (cl_counter (inner cl)).

(** [needs_reset]. *)
Definition needs_reset (peer : string) (p : Partition) (since : Watermark) (cl : Changelog) : bool :=
  if cl_gen cl <? gen since then true
  else if gen since <? cl_gen cl then false
  else if cl_counter (inner cl) <? counter since then true
  else match peers (inner cl) !! peer with
       | Some log => counter since <? retained_floor (pl_sub p log)
       | None => false
       end.

(** [bump]. *)
Definition bump (peer r : string) (op : Op) (p : Partition) (stated : Stated) (now_ms : Z)
    (cl : Changelog) : Watermark * Changelog :=
  let i := inner cl in
  let c := u64_add (cl_counter i) 1 in
  let before := u64_wrap (c - 1) in
  let log := default (peer_new now_ms before) (peers i !! peer) in
  let log := sub_mut p (sub_put c r op now_ms stated) log in
  (mkW (cl_gen cl) c,
   set_inner (mkInner c (<[peer := log]> (peers i)) (claim_ttl i) (bound i) (marks i)) cl).

(** [bump_put] and [bump_delete]. *)
Definition bump_put (peer r : string) (p : Partition) (now_ms : Z) (cl : Changelog)
    : Watermark * Changelog := bump peer r Put p stated_default now_ms cl.
Definition bump_delete (peer r : string) (p : Partition) (answered : bool)
    (incarnation : option string) (now_ms : Z) (cl : Changelog) : Watermark * Changelog :=
  bump peer r Delete p (mkStated answered incarnation) now_ms cl.

(** [forget]. *)
Definition forget (peer : string) (p : Partition) (r : string) (cl : Changelog) : Changelog :=
  upd_peer peer (sub_mut p (sub_forget r)) cl.

(** [position_of]. *)
Definition position_of (peer : string) (p : Partition) (r : string) (cl : Changelog)
    : option Watermark :=
  sub ← get_sub peer p cl; st ← by_ref sub !! r; Some (mkW (cl_gen cl) (st_counter st)).

(** [depth]. *)
Definition depth (cl : Changelog) : Z * Z :=
  (map_fold (fun _ l n => n + Z.of_nat (length (entries (pl_pri l)) + length (entries (pl_bak l))))
     0 (peers (inner cl)),
   Z.of_nat (size (peers (inner cl)))).

(** ** Reaping *)

(** The removal loop of [reap_sublog]. *)
Definition reap_one (s : SubLog) (r : string) : SubLog :=
  match by_ref s !! r with
  | Some st =>
      set_floor (Z.max (retained_floor s) (st_counter st))
        (set_log (bt_remove (st_counter st) (entries s)) (delete r (by_ref s)) s)
  | None => s
  end.

Definition is_tombstone (m : gmap string RefState) (r : string) : bool :=
  match m !! r with Some st => is_delete (st_op st) | None => false end.

(** [reap_sublog]. *)
Definition reap_sublog (g : Z) (s : SubLog) : SubLog :=
  if gen (acked s) =? g then
    foldl reap_one s
      (filter (fun r => is_tombstone (by_ref s) r = true)
         (map snd (bt_upto (counter (acked s)) (entries s))))
  else s.

(** [reap]. *)
Definition reap (now_ms : Z) (cl : Changelog) : Changelog :=
  let live := filter (fun kv => 0 < pl_serving kv.2
                       \/ i64_sub now_ms (last_active_ms kv.2) < dead_peer_ttl_ms cl)
                (peers (inner cl)) in
  let f l := sub_mut Bak (reap_sublog (cl_gen cl)) (sub_mut Pri (reap_sublog (cl_gen cl)) l) in
  set_inner (set_peers (f <$> live) (inner cl)) cl.

(** ** The backlog ([backlog.rs]) *)

Record Backlog := mkBacklog { b_entries : Z; oldest_age : Z }.

(** [measure]. *)
Definition measure (s : SubLog) (g now_ms cap : Z) : Backlog :=
  let pending := if gen (acked s) =? g then bt_above (counter (acked s)) (entries s)
                 else entries s in
  let oldest := match pending with [] => None | (_, r) :: _ => by_ref s !! r end in
  let age := match oldest with
             | None => 0
             | Some st => Z.max 0 (i64_saturating_sub now_ms (written_ms st))
             end in
  let rest := firstn (Z.to_nat (Z.max 0 (cap - 1))) (tail pending) in
  mkBacklog ((match oldest with Some _ => 1 | None => 0 end) + Z.of_nat (length rest)) age.

(** [admits_backup]. *)
Definition admits_backup (peer : string) (now_ms inst : Z) (cl : Changelog) : bool * Changelog :=
  let i := inner cl in
  match peers i !! peer with
  | None => (true, cl)
  | Some log =>
      let sub := pl_sub Bak log in
      let bootstrapping :=
        match applied sub, flow_started sub with
        | None, Some t => inst - t <? bootstrap_hard_timeout cl
        | _, _ => false
        end in
      if (streams sub =? 0) || bootstrapping then (true, cl)
      else
        let b := measure sub (cl_gen cl) now_ms (high_entries (marks i)) in
        let over :=
          if over_high_water log then
            (low_entries (marks i) <=? b_entries b) || (low_age (marks i) <=? oldest_age b)
          else
            (high_entries (marks i) <=? b_entries b) || (high_age (marks i) <=? oldest_age b) in
        (negb over,
         upd_peer peer (fun l => mkPeerLog (pl_pri l) (pl_bak l) (last_active_ms l)
                                   (pl_serving l) over) cl)
  end.

(** ** Holding ([held.rs]) *)

(** [applied_any]. *)
Definition applied_any (peer : string) (p : Partition) (r : string) (cl : Changelog) : bool :=
  match get_sub peer p cl with
  | None => false
  | Some sub =>
      if gen (acked sub) =? cl_gen cl then
        match by_ref sub !! r with
        | Some st => match first_sent st with Some sent => sent <=? counter (acked sub) | None => false end
        | None => opened sub <=? counter (acked sub)
        end
      else false
  end.

(** Whether membership binds [peer] to another identity than [identity]. *)
Definition bound_to_other (peer : string) (identity : option string) (cl : Changelog) : bool :=
  match bound (inner cl) !! peer with
  | Some b => bool_decide (Some b <> identity)
  | None => false
  end.

(** [note_cold_pull]. *)
Definition note_cold_pull (peer : string) (identity : option string) (cl : Changelog) : Changelog :=
  if bound_to_other peer identity cl then cl
  else
    let f s := set_acked (mkW 0 0) (unbound s) s in
    upd_peer peer (fun l => sub_mut Bak f (sub_mut Pri f l)) cl.

(** [note_scanned]. *)
Definition note_scanned (peer : string) (p : Partition) (w : Watermark) (cl : Changelog)
    : Changelog :=
  let f s :=
    set_log (entries s)
      (foldl (fun m r => alter (mark_sent (counter w)) r m) (by_ref s)
         (map snd (bt_upto (counter w) (entries s)))) s in
  upd_peer peer (sub_mut p f) cl.

(** [opened_at]. *)
Definition opened_at (peer : string) (p : Partition) (cl : Changelog) : option Watermark :=
  (fun s => mkW (cl_gen cl) (opened s)) <$> get_sub peer p cl.

(** ** Serve tasks ([serving.rs]) *)

(** [serving]. *)
Definition serving (peer : string) (p : Partition) (now_ms inst : Z) (cl : Changelog) : Changelog :=
  let i := inner cl in
  let log := default (peer_new now_ms (cl_counter i)) (peers i !! peer) in
  let log := mkPeerLog (pl_pri log) (pl_bak log) (last_active_ms log) (pl_serving log + 1)
               (over_high_water log) in
  let f s := set_flow None (streams s + 1)
               (match flow_started s with Some t => Some t | None => Some inst end) s in
  set_inner (set_peers (<[peer := sub_mut p f log]> (peers i)) i) cl.

(** [Drop for ServeGuard]. *)
Definition serve_drop (peer : string) (p : Partition) (cl : Changelog) : Changelog :=
  let f s :=
    let n := Z.max 0 (streams s - 1) in
    set_flow (if n =? 0 then None else applied s) n (flow_started s) s in
  upd_peer peer (fun l =>
    sub_mut p f (mkPeerLog (pl_pri l) (pl_bak l) (last_active_ms l) (Z.max 0 (pl_serving l - 1))
                   (over_high_water l))) cl.

(** ** Progress ([progress.rs]) *)

Inductive FlowLiveness := Live | Stale | Down.

(** [note_applied]. *)
Definition note_applied (peer : string) (identity : option string) (p : Partition)
    (at_ : Watermark) (now_ms inst : Z) (cl : Changelog) : Changelog :=
  if bound_to_other peer identity cl then
    match identity with
    | None => cl
    | Some id =>
        let f s :=
          let higher := match unbound s with
                        | None => true
                        | Some (id', w) => bool_decide (id' <> id) || w_ltb w at_
                        end in
          if (gen at_ =? cl_gen cl) && higher
          then set_acked (acked s) (Some (id, at_)) s else s in
        upd_peer peer (sub_mut p f) cl
    end
  else
    let f s :=
      let s := set_flow (Some (mkClaim at_ inst)) (streams s) None s in
      if (gen at_ =? cl_gen cl) && w_ltb (acked s) at_ then set_acked at_ (unbound s) s else s in
    upd_peer peer (fun l =>
      sub_mut p f (mkPeerLog (pl_pri l) (pl_bak l) now_ms (pl_serving l) (over_high_water l))) cl.

(** [bind_identity]. *)
Definition bind_identity (peer : string) (identity : option string) (cl : Changelog) : Changelog :=
  let i := inner cl in
  let set_bound b := set_inner (mkInner (cl_counter i) (peers i) (claim_ttl i) b (marks i)) cl in
  match identity with
  | None => set_bound (delete peer (bound i))
  | Some id =>
      if bool_decide (bound i !! peer = Some id) then cl
      else
        let f s :=
          let reported := match unbound s with
                          | Some (id', w) => if bool_decide (id' = id) then w else mkW 0 0
                          | None => mkW 0 0
                          end in
          set_acked reported None s in
        upd_peer peer (fun l => sub_mut Bak f (sub_mut Pri f l)) (set_bound (<[peer := id]> (bound i)))
  end.

(** A claim inside the claim TTL. *)
Definition fresh (cl : Changelog) (inst : Z) (c : Claim) : bool := inst - made c <=? claim_ttl (inner cl).

(** [flow_live]. *)
Definition flow_live (peer : string) (p : Partition) (inst : Z) (cl : Changelog) : bool :=
  match get_sub peer p cl with
  | None => false
  | Some s => (0 <? streams s) && match applied s with Some c => fresh cl inst c | None => false end
  end.

(** The state of one flow, in [flow_liveness]. *)
Definition liveness (cl : Changelog) (inst : Z) (s : SubLog) : FlowLiveness :=
  if streams s =? 0 then Down
  else match applied s with
       | Some c => if fresh cl inst c then Live else Stale
       | None => Stale
       end.

(** [flow_liveness]: the counts of [Live], [Stale] and [Down]. *)
Definition count_state (st : FlowLiveness) (n : Z * Z * Z) : Z * Z * Z :=
  let '(l, s, d) := n in
  match st with Live => (l + 1, s, d) | Stale => (l, s + 1, d) | Down => (l, s, d + 1) end.
Definition flow_liveness (inst : Z) (cl : Changelog) : Z * Z * Z :=
  map_fold (fun _ l n => count_state (liveness cl inst (pl_bak l))
                           (count_state (liveness cl inst (pl_pri l)) n))
    (0, 0, 0) (peers (inner cl)).

(** [flow_open], and [flow_connected]. *)
Definition flow_open (peer : string) (p : Partition) (cl : Changelog) : bool :=
  match get_sub peer p cl with Some s => 0 <? streams s | None => false end.

(** [has_applied]. *)
Definition has_applied (peer : string) (p : Partition) (at_ : Watermark) (cl : Changelog) : bool :=
  match get_sub peer p cl with Some s => w_leb at_ (acked s) | None => false end.

Inductive Reach := Applied | Lost.

(** What one turn of [applied_reaches]'s loop sees: the position its receiver
    holds, whether a serve task streams the flow, and whether a change came
    before the log, and with it the sender, was dropped. *)
Record Wake := mkWake { wk_acked : Watermark; wk_connected : bool; wk_changed : bool }.

(** The loop; [None] while it still waits. *)
Fixpoint reach_loop (at_ : Watermark) (wakes : list Wake) : option Reach :=
  match wakes with
  | [] => None
  | w :: wakes =>
      if w_leb at_ (wk_acked w) then Some Applied
      else if negb (wk_connected w) || negb (wk_changed w) then Some Lost
      else reach_loop at_ wakes
  end.

(** [applied_reaches], from the state it subscribes in. *)
Definition applied_reaches (peer : string) (p : Partition) (at_ : Watermark) (cl : Changelog)
    (wakes : list Wake) : option Reach :=
  match get_sub peer p cl with
  | None => Some Lost
  | Some s => reach_loop at_ wakes
  end.

(** [flow_caught_up]. *)
Definition flow_caught_up (peer : string) (p : Partition) (inst : Z) (cl : Changelog) : bool :=
  match get_sub peer p cl with
  | None => false
  | Some s =>
      if streams s =? 0 then false
      else match applied s with
           | Some c => w_leb (mkW (cl_gen cl) (sl_head s)) (cm_at c) && fresh cl inst c
           | None => false
           end
  end.

(** ** The drain ([drain.rs], [source.rs]) *)

Record RefMeta := mkRefMeta {
  call_gen : Z;
  call_bgen : Z;
  body_ttl_ms : Z;
  indexes : list string;
  incarnation : option string;
  skew_offset_ms : option Z;
}.

(** [RefMeta::origin_now_ms]. *)
Definition origin_now_ms (m : RefMeta) (now_ms : Z) : Z :=
  i64_saturating_sub now_ms (default 0 (skew_offset_ms m)).

(** [delete_frame]. *)
Definition delete_frame (at_ : Watermark) (p : Partition) (r : string) (answered : bool)
    (inc : option string) : Frame :=
  FData at_ Delete p r 0 0 0 0 [] None answered inc.

(** [current]. *)
Definition current (peer : string) (p : Partition) (r : string) (cl : Changelog)
    : option (Op * bool) :=
  sub ← get_sub peer p cl; st ← by_ref sub !! r; Some (st_op st, st_answered st).

(** What one turn of the drain's loop sees, the lock dropped: the entry the
    source reads, the clock, and the changelog [current] locks again. *)
Record World := mkWorld {
  w_entry : string -> option (body * RefMeta);
  w_now : Z;
  w_log : Changelog;
}.

(** One turn of the loop of [drain_since]. *)
Definition drain_one (g : Z) (peer : string) (p : Partition) (w : World) (d : Due) : option Frame :=
  let at_ := mkW g (d_counter d) in
  if is_delete (d_op d)
  then Some (delete_frame at_ p (d_ref d) (d_answered d) (d_incarnation d))
  else
    match w_entry w (d_ref d) with
    | Some (bdy, m) =>
        Some (FData at_ Put p (d_ref d) (call_gen m) (call_bgen m) (body_ttl_ms m)
                (origin_now_ms m (w_now w)) (indexes m) (Some bdy) false (incarnation m))
    | None =>
        match current peer p (d_ref d) (w_log w) with
        | Some (Delete, _) => None
        | Some (_, answered) => Some (delete_frame at_ p (d_ref d) answered None)
        | None => Some (delete_frame at_ p (d_ref d) false None)
        end
    end.

Fixpoint drain_frames (g : Z) (peer : string) (p : Partition) (ws : nat -> World) (ds : list Due)
    : list Frame :=
  match ds with
  | [] => []
  | d :: ds =>
      match drain_one g peer p (ws O) d with
      | Some f => f :: drain_frames g peer p (fun n => ws (S n)) ds
      | None => drain_frames g peer p (fun n => ws (S n)) ds
      end
  end.

(** The snapshot of [drain_since], under the lock. *)
Definition drain_snapshot (peer : string) (p : Partition) (since : Watermark) (limit : nat)
    (cl : Changelog) : list Due * Changelog :=
  match peers (inner cl) !! peer with
  | None => ([], cl)
  | Some log =>
      let cold := gen since <? cl_gen cl in
      let '(ds, sub) := sub_due (counter since) cold limit (pl_sub p log) in
      (ds, upd_peer peer (sub_mut p (fun _ => sub)) cl)
  end.

(** [drain_since]: the [n]th due entry is read in the world [ws n]. *)
Definition drain_since (peer : string) (p : Partition) (since : Watermark) (limit : nat)
    (ws : nat -> World) (cl : Changelog) : list Frame * Changelog :=
  let '(ds, cl') := drain_snapshot peer p since limit cl in
  (drain_frames (cl_gen cl) peer p ws ds, cl').
