(* ===== verification/ChangelogInv.v ===== *)
(** * The changelog against its history of writes

    The abstract changelog of a peer's partition is a list of the writes made
    toward it, newest first ([ChangelogSpec] takes it from the record of all of
    them).  [sub_rel] relates it to the compacted sub-log: exactly one entry per reference, at its last write, the deletes
    the peer applied excepted. *)

From S2P Require Import Prelude ReplFrame Changelog.

Open Scope Z_scope.

(** ** The abstract changelog *)

Record Write := mkWrite {
  w_counter : Z;
  w_ref : string;
  w_op : Op;
  w_ans : bool;
  w_inc : option string;
}.

Notation history := (list Write).

Definition last_write (h : history) (r : string) : option Write :=
  List.find (fun w => bool_decide (w_ref w = r)) h.
Arguments last_write : simpl never.

(** A delete above [floor] stated an answer, with no put of the reference
    since. *)
Fixpoint answered_since_put (floor : Z) (h : history) (r : string) : bool :=
  match h with
  | [] => false
  | w :: h =>
      if bool_decide (w_ref w = r) then
        is_delete (w_op w) && (w_ans w && (floor <? w_counter w) || answered_since_put floor h r)
      else answered_since_put floor h r
  end.

(** ** The relation *)

Record sub_rel (n : Z) (h : history) (s : SubLog) : Prop := {
  sr_sorted : keys_sorted (entries s);
  sr_entry c r : (c, r) ∈ entries s <-> exists st, by_ref s !! r = Some st /\ st_counter st = c;
  sr_last r st : by_ref s !! r = Some st ->
    exists w, last_write h r = Some w /\ w_counter w = st_counter st /\ w_op w = st_op st
      /\ w_inc w = st_incarnation st;
  sr_reaped r w : last_write h r = Some w -> by_ref s !! r = None ->
    w_op w = Delete /\ w_counter w <= retained_floor s;
  sr_answer_sound r st : by_ref s !! r = Some st -> st_answered st = true ->
    answered_since_put (-1) h r = true;
  sr_answer_complete r st : by_ref s !! r = Some st ->
    answered_since_put (retained_floor s) h r = true -> st_answered st = true;
  sr_hist : StronglySorted (fun a b => w_counter b < w_counter a) h;
  sr_bounds w : w ∈ h -> opened s < w_counter w <= sl_head s;
  sr_floor : 0 <= opened s <= retained_floor s /\ retained_floor s <= n;
  sr_head : 0 <= sl_head s <= n /\ written s = sl_head s;
}.

Lemma last_write_elem h r w : last_write h r = Some w -> w ∈ h /\ w_ref w = r.
Proof.
  unfold last_write. intros Hf. apply find_some in Hf as [Hin Hr].
  apply bool_decide_eq_true in Hr. split; [by apply list_elem_of_In|done].
Qed.

Lemma last_write_cons w h r :
  last_write (w :: h) r = if bool_decide (w_ref w = r) then Some w else last_write h r.
Proof. done. Qed.

Lemma sub_rel_entry_bounds n h s c r :
  sub_rel n h s -> (c, r) ∈ entries s -> opened s < c <= sl_head s.
Proof.
  intros Hs Hin. apply Hs in Hin as (st & Hst & <-).
  destruct (sr_last _ _ _ Hs _ _ Hst) as (w & Hw & <- & _).
  apply last_write_elem in Hw as [Hw _]. by apply Hs.
Qed.

Lemma sub_rel_new n c : 0 <= c <= n -> sub_rel n [] (sublog_new c).
Proof.
  intros Hc. split; simpl; try (intros; by simplify_map_eq).
  - constructor.
  - intros c' r. split; [by intros ?%elem_of_nil|]. intros (st & Hst & _). by simplify_map_eq.
  - constructor.
  - by intros w ?%elem_of_nil.
  - lia.
  - lia.
Qed.

Lemma sub_rel_mono n n' h s : n <= n' -> sub_rel n h s -> sub_rel n' h s.
Proof.
  intros Hn Hs. destruct Hs as [? ? ? ? ? ? ? ? [? ?] [? ?]]. split; try done.
  - split; [done|lia].
  - split; [lia|done].
Qed.

(** A step that keeps a sub-log's references and bounds keeps the relation. *)
Lemma sub_rel_keep n h s s' :
  entries s' = entries s -> by_ref s' = by_ref s -> retained_floor s' = retained_floor s ->
  opened s' = opened s -> sl_head s' = sl_head s -> written s' = written s ->
  sub_rel n h s -> sub_rel n h s'.
Proof.
  intros He Hb Hf Ho Hh Hw Hs. destruct Hs. split; rewrite ?He, ?Hb, ?Hf, ?Ho, ?Hh, ?Hw; done.
Qed.

(** Two reference maps that differ in the sends they record only. *)
Definition same_refs (m m' : gmap string RefState) : Prop :=
  forall r, match m !! r, m' !! r with
            | Some st, Some st' =>
                st_counter st' = st_counter st /\ st_op st' = st_op st
                /\ st_answered st' = st_answered st /\ st_incarnation st' = st_incarnation st
            | None, None => True
            | _, _ => False
            end.

Lemma same_refs_refl m : same_refs m m.
Proof. intros r. by destruct (m !! r). Qed.

Lemma same_refs_trans m1 m2 m3 : same_refs m1 m2 -> same_refs m2 m3 -> same_refs m1 m3.
Proof.
  intros H1 H2 r. specialize (H1 r). specialize (H2 r).
  destruct (m1 !! r), (m2 !! r), (m3 !! r); try done. intuition congruence.
Qed.

Lemma same_refs_mark m c r st :
  m !! r = Some st -> same_refs m (<[r := mark_sent c st]> m).
Proof.
  intros Hst r'. by_key r r'; [done|]. by destruct (m !! r').
Qed.

Lemma same_refs_alter m c r : same_refs m (alter (mark_sent c) r m).
Proof.
  intros r'. by_key r r'; [destruct (m !! r')|]; simpl; try done. by destruct (m !! r').
Qed.

Lemma sub_rel_same_refs n h s m :
  same_refs (by_ref s) m -> sub_rel n h s -> sub_rel n h (set_log (entries s) m s).
Proof.
  intros Hm Hs. destruct Hs as [Hso He Hl Hr Has Hac Hhs Hb Hf Hh]. split; simpl; try done.
  - intros c r. rewrite He. specialize (Hm r).
    split; intros (st & Hst & Hc); rewrite Hst in Hm.
    + destruct (m !! r) as [st'|]; [|done]. exists st'. split; [done|]. by destruct Hm as [-> _].
    + destruct (by_ref s !! r) as [st'|]; [|done]. exists st'. split; [done|].
      by destruct Hm as [<- _].
  - intros r st Hst. specialize (Hm r). rewrite Hst in Hm.
    destruct (by_ref s !! r) as [st'|] eqn:E; [|done].
    destruct (Hl _ _ E) as (w & Hw & ? & ? & ?). exists w. intuition congruence.
  - intros r w Hw Hn. apply (Hr r w Hw). specialize (Hm r). rewrite Hn in Hm.
    by destruct (by_ref s !! r).
  - intros r st Hst Ha. specialize (Hm r). rewrite Hst in Hm.
    destruct (by_ref s !! r) as [st'|] eqn:E; [|done]. apply (Has r st' E). intuition congruence.
  - intros r st Hst Ha. specialize (Hm r). rewrite Hst in Hm.
    destruct (by_ref s !! r) as [st'|] eqn:E; [|done]. pose proof (Hac r st' E Ha).
    intuition congruence.
Qed.

(** ** Answers along a history *)

Lemma answered_since_put_cons fl w h r :
  answered_since_put fl (w :: h) r =
  if bool_decide (w_ref w = r) then
    is_delete (w_op w) && (w_ans w && (fl <? w_counter w) || answered_since_put fl h r)
  else answered_since_put fl h r.
Proof. done. Qed.

Lemma answered_since_put_last fl h r :
  answered_since_put fl h r = true -> exists w, last_write h r = Some w /\ w_op w = Delete.
Proof.
  induction h as [|w h IH]; [done|]. rewrite answered_since_put_cons, last_write_cons.
  case_bool_decide; [|done]. destruct (w_op w) eqn:E; [done|]. eauto.
Qed.

Lemma answered_since_put_floor fl h r w :
  StronglySorted (fun a b => w_counter b < w_counter a) h ->
  last_write h r = Some w -> w_counter w <= fl -> answered_since_put fl h r = false.
Proof.
  assert (forall h, Forall (fun w => w_counter w <= fl) h -> answered_since_put fl h r = false)
    as Hall.
  { clear. induction h as [|w h IH]; [done|]. intros [Hw Hh]%Forall_cons.
    rewrite answered_since_put_cons, IH by done.
    destruct (Z.ltb_spec fl (w_counter w)); [lia|]. rewrite andb_false_r. simpl.
    rewrite andb_false_r. by case_bool_decide. }
  induction 1 as [|w' h Hs IH Hw']; [done|]. rewrite last_write_cons.
  case_bool_decide as Hr.
  - intros [= ->] Hle. apply Hall. constructor; [done|].
    eapply Forall_impl; [done|]. simpl. lia.
  - rewrite answered_since_put_cons, bool_decide_eq_false_2 by done. done.
Qed.

Lemma answered_since_put_mono fl fl' h r :
  fl <= fl' -> answered_since_put fl' h r = true -> answered_since_put fl h r = true.
Proof.
  intros Hle. induction h as [|w h IH]; [done|]. rewrite !answered_since_put_cons.
  case_bool_decide; [|done]. rewrite !andb_true_iff, !orb_true_iff, !andb_true_iff, !Z.ltb_lt.
  intuition lia.
Qed.

(** ** Removing a reference *)

(** The slot of a reference removed, the others left. *)
Lemma elem_of_remove_slot n h s r st p :
  sub_rel n h s -> by_ref s !! r = Some st ->
  p ∈ bt_remove (st_counter st) (entries s) <-> p ∈ entries s /\ p.2 <> r.
Proof.
  intros Hs Hst. destruct p as [c r']. rewrite elem_of_bt_remove. simpl.
  split; intros [Hin Hne]; (split; [done|]); intros ->; apply Hne.
  - apply Hs in Hin as (st' & Hst' & <-). congruence.
  - eapply keys_unique; [apply Hs|done|]. apply Hs. eauto.
Qed.

(** ** The writes *)

(** The answer a written entry keeps is the one its history states. *)
Lemma sub_rel_put_answer n h s r op ans c fl :
  sub_rel n h s -> (op = Put -> ans = false) -> n < c -> (fl = -1 \/ fl = retained_floor s) ->
  let kept := ans || match by_ref s !! r with
                     | Some prev => carried_answer op prev | None => false end in
  let stated := is_delete op && (ans && (fl <? c) || answered_since_put fl h r) in
  (fl = -1 -> kept = true -> stated = true)
  /\ (fl = retained_floor s -> stated = true -> kept = true).
Proof.
  intros Hs Hput Hc Hfl kept stated. unfold kept, stated, carried_answer.
  destruct (sr_floor _ _ _ Hs). destruct (Z.ltb_spec fl c); [|lia].
  destruct op; simpl; [rewrite (Hput eq_refl); destruct (by_ref s !! r); done|].
  rewrite andb_true_r. destruct ans; [done|]. simpl. split; intros ->.
  - destruct (by_ref s !! r) as [prev|] eqn:E; [|done]. intros [_ Ha]%andb_true_iff.
    by apply (sr_answer_sound _ _ _ Hs r prev).
  - intros Ha. destruct (answered_since_put_last _ _ _ Ha) as (w & Hw & Hop).
    destruct (by_ref s !! r) as [prev|] eqn:E.
    + rewrite (sr_answer_complete _ _ _ Hs r prev E Ha), andb_true_r.
      destruct (sr_last _ _ _ Hs r prev E) as (w' & Hw' & _ & Hop' & _). simplify_eq.
      by rewrite <-Hop', Hop.
    + destruct (sr_reaped _ _ _ Hs r w Hw E) as [_ Hle].
      rewrite (answered_since_put_floor _ _ _ _ (sr_hist _ _ _ Hs) Hw Hle) in Ha. done.
Qed.

(** [sub_put], with the slot it frees and the answer it keeps. *)
Lemma sub_put_eq c r op now stated s :
  exists sent, sub_put c r op now stated s
  = set_head (Z.max (sl_head s) c)
      (set_log (bt_insert c r (match by_ref s !! r with
                               | Some prev => bt_remove (st_counter prev) (entries s)
                               | None => entries s end))
         (<[r := mkRefState c sent op now
               (s_answered stated || match by_ref s !! r with
                                     | Some prev => carried_answer op prev | None => false end)
               (s_incarnation stated)]> (by_ref s)) s).
Proof.
  unfold sub_put. destruct (by_ref s !! r); eexists; rewrite ?orb_false_r; reflexivity.
Qed.

Lemma elem_of_freed n h s r p :
  sub_rel n h s ->
  p ∈ match by_ref s !! r with
      | Some prev => bt_remove (st_counter prev) (entries s) | None => entries s end
  <-> p ∈ entries s /\ p.2 <> r.
Proof.
  intros Hs. destruct (by_ref s !! r) as [prev|] eqn:E; [by eapply elem_of_remove_slot|].
  split; [|tauto]. intros Hin. split; [done|]. intros <-. destruct p as [c r'].
  apply Hs in Hin as (st & Hst & _). simpl in *. congruence.
Qed.

Lemma sub_rel_put n h s r op now stated :
  sub_rel n h s -> (op = Put -> s_answered stated = false) ->
  sub_rel (n + 1) (mkWrite (n + 1) r op (s_answered stated) (s_incarnation stated) :: h)
    (sub_put (n + 1) r op now stated s).
Proof.
  intros Hs Hput. destruct (sub_put_eq (n + 1) r op now stated s) as [sent ->].
  pose proof (fun c r => sub_rel_entry_bounds n h s c r Hs) as Heb.
  destruct (sr_head _ _ _ Hs) as [Hhn Hwr]. destruct (sr_floor _ _ _ Hs) as [Hfl Hfn].
  pose proof (fun p => elem_of_freed n h s r p Hs) as Hes.
  pose proof (fun fl => sub_rel_put_answer n h s r op (s_answered stated) (n + 1) fl Hs Hput) as Ha.
  set (es := match by_ref s !! r with Some _ => _ | None => _ end) in *.
  assert (keys_sorted es) as Hss.
  { unfold es. destruct (by_ref s !! r); [apply keys_sorted_remove|]; apply Hs. }
  assert (Forall (fun p => p.1 < n + 1) es) as Hlt.
  { apply Forall_forall. intros [c' r'] Hin. apply Hes in Hin as [Hin _].
    apply Heb in Hin. simpl. lia. }
  rewrite (bt_insert_last _ _ _ Hlt). split; cbn [entries by_ref retained_floor opened sl_head
    written set_head set_log].
  - by apply keys_sorted_snoc.
  - intros c' r'. rewrite elem_of_app, list_elem_of_singleton, Hes. simpl. by_key r r'.
    + split; [intros [[_ []]|[= ->]]; eauto|]. intros (st & [= <-] & <-). by right.
    + rewrite (sr_entry _ _ _ Hs). split; [intros [[? _]|[= _ ->]]; done|]. by left.
  - intros r' st. rewrite last_write_cons. cbn [w_ref]. by_key r r'.
    + rewrite bool_decide_eq_true_2 by done. intros [= <-]. by eexists.
    + rewrite bool_decide_eq_false_2 by done. apply Hs.
  - intros r' w'. rewrite last_write_cons. cbn [w_ref]. by_key r r'; [done|].
    rewrite bool_decide_eq_false_2 by done. apply Hs.
  - intros r' st. rewrite answered_since_put_cons. cbn [w_ref w_op w_ans w_counter]. by_key r r'.
    + rewrite bool_decide_eq_true_2 by done. intros [= <-]. simpl. apply (Ha (-1)); [lia|auto|done].
    + rewrite bool_decide_eq_false_2 by done. apply Hs.
  - intros r' st. rewrite answered_since_put_cons. cbn [w_ref w_op w_ans w_counter]. by_key r r'.
    + rewrite bool_decide_eq_true_2 by done. intros [= <-]. simpl.
      apply (Ha (retained_floor s)); [lia|auto|done].
    + rewrite bool_decide_eq_false_2 by done. apply Hs.
  - constructor; [apply Hs|]. apply Forall_forall. intros w Hw. apply Hs in Hw. simpl. lia.
  - intros w' [->|Hw]%elem_of_cons; simpl; [lia|]. apply Hs in Hw. lia.
  - lia.
  - split; [lia|done].
Qed.

(** ** Forgetting and reaping *)

Definition hist_forget (r : string) (h : history) : history := filter (fun w => w_ref w <> r) h.

Lemma last_write_forget r h r' :
  last_write (hist_forget r h) r' = if bool_decide (r = r') then None else last_write h r'.
Proof.
  unfold hist_forget. induction h as [|w h IH]; [by case_bool_decide|]. rewrite filter_cons.
  destruct (decide (w_ref w <> r)) as [Hne|Heq%dec_stable]; rewrite ?last_write_cons, IH;
    repeat case_bool_decide; congruence.
Qed.

Lemma answered_forget fl r h r' :
  r <> r' -> answered_since_put fl (hist_forget r h) r' = answered_since_put fl h r'.
Proof.
  intros Hr. unfold hist_forget. induction h as [|w h IH]; [done|]. rewrite filter_cons.
  destruct (decide (w_ref w <> r)) as [Hne|Heq%dec_stable];
    rewrite ?answered_since_put_cons, IH; repeat case_bool_decide; congruence.
Qed.

Lemma sub_rel_forget n h s r :
  sub_rel n h s -> sub_rel n (hist_forget r h) (sub_forget r s).
Proof.
  intros Hs. unfold sub_forget. destruct (by_ref s !! r) as [st|] eqn:E.
  - split; cbn [entries by_ref retained_floor opened sl_head written set_log];
      try apply Hs.
    + apply keys_sorted_remove, Hs.
    + intros c r'. rewrite (elem_of_remove_slot n h s r st) by done. simpl. by_key r r'.
      * split; [by intros [_ []]|]. by intros (? & ? & _).
      * rewrite (sr_entry _ _ _ Hs). intuition.
    + intros r' st'. rewrite last_write_forget. by_key r r'; [done|].
      rewrite bool_decide_eq_false_2 by done. apply Hs.
    + intros r' w. rewrite last_write_forget. by_key r r'; case_bool_decide; try done. apply Hs.
    + intros r' st'. by_key r r'; [done|]. rewrite answered_forget by done. apply Hs.
    + intros r' st'. by_key r r'; [done|]. rewrite answered_forget by done. apply Hs.
    + apply sorted_filter, Hs.
    + intros w [_ Hw]%list_elem_of_filter. by apply Hs.
  - split; try apply Hs.
    + intros r' st'. rewrite last_write_forget. case_bool_decide; [congruence|]. apply Hs.
    + intros r' w. rewrite last_write_forget. case_bool_decide; [done|]. apply Hs.
    + intros r' st' Hst. rewrite answered_forget by congruence. by apply Hs.
    + intros r' st' Hst. rewrite answered_forget by congruence. by apply Hs.
    + apply sorted_filter, Hs.
    + intros w [_ Hw]%list_elem_of_filter. by apply Hs.
Qed.

Lemma sub_rel_reap_one n h s r :
  sub_rel n h s -> is_tombstone (by_ref s) r = true -> sub_rel n h (reap_one s r).
Proof.
  intros Hs. unfold is_tombstone, reap_one. destruct (by_ref s !! r) as [st|] eqn:E; [|done].
  intros Hd. destruct (sr_floor _ _ _ Hs) as [Hfl Hfn].
  assert (st_counter st <= n).
  { assert ((st_counter st, r) ∈ entries s) as Hin by (apply Hs; eauto).
    pose proof (sub_rel_entry_bounds _ _ _ _ _ Hs Hin). destruct (sr_head _ _ _ Hs). lia. }
  split; cbn [entries by_ref retained_floor opened sl_head written set_log set_floor];
    try apply Hs.
  - apply keys_sorted_remove, Hs.
  - intros c r'. rewrite (elem_of_remove_slot n h s r st) by done. simpl. by_key r r'.
    + split; [by intros [_ []]|]. by intros (? & ? & _).
    + rewrite (sr_entry _ _ _ Hs). intuition.
  - intros r' st'. by_key r r'; [done|]. apply Hs.
  - intros r' w Hw. by_key r r'.
    + intros _. destruct (sr_last _ _ _ Hs r' st E) as (w' & Hw' & Hc & Ho & _). simplify_eq.
      rewrite Hc, Ho. split; [by destruct (st_op st)|lia].
    + intros Hn. destruct (sr_reaped _ _ _ Hs r' w Hw Hn). split; [done|lia].
  - intros r' st'. by_key r r'; [done|]. apply Hs.
  - intros r' st'. by_key r r'; [done|]. intros Hst Ha.
    apply (sr_answer_complete _ _ _ Hs r' st' Hst).
    eapply answered_since_put_mono; [|done]. lia.
  - lia.
Qed.

Lemma reap_one_other s r r' :
  r <> r' -> by_ref (reap_one s r) !! r' = by_ref s !! r'.
Proof. intros Hr. unfold reap_one. destruct (by_ref s !! r); [|done]. simpl. by simplify_map_eq. Qed.

Lemma reap_one_same s r : by_ref (reap_one s r) !! r = None.
Proof. unfold reap_one. destruct (by_ref s !! r) eqn:E; [|done]. simpl. by simplify_map_eq. Qed.

Lemma sub_rel_reap_list n h s l :
  sub_rel n h s -> Forall (fun r => by_ref s !! r = None \/ is_tombstone (by_ref s) r = true) l ->
  sub_rel n h (foldl reap_one s l).
Proof.
  revert s. induction l as [|r l IH]; intros s Hs Hl; [done|]. simpl.
  apply Forall_cons in Hl as [Hr Hl]. apply IH.
  - destruct Hr as [Hr|Hr]; [|by apply sub_rel_reap_one]. unfold reap_one. by rewrite Hr.
  - eapply Forall_impl; [done|]. intros r'. unfold is_tombstone. simpl.
    destruct (decide (r = r')) as [->|Hne]; [rewrite reap_one_same; by left|].
    by rewrite reap_one_other.
Qed.

Lemma sub_rel_reap n h s g : sub_rel n h s -> sub_rel n h (reap_sublog g s).
Proof.
  intros Hs. unfold reap_sublog. destruct (gen (acked s) =? g); [|done].
  apply sub_rel_reap_list; [done|]. apply Forall_forall.
  intros r [Hr _]%list_elem_of_filter. by right.
Qed.

(** ** Marks of a send *)

Lemma due_collect_refs es m : same_refs m (due_collect es m).2.
Proof.
  revert m. induction es as [|[c r] es IH]; intros m; simpl; [apply same_refs_refl|].
  destruct (m !! r) as [st|] eqn:E; [|apply IH].
  specialize (IH (<[r := mark_sent c st]> m)).
  destruct (due_collect es (<[r := mark_sent c st]> m)) as [ds m'].
  eapply same_refs_trans; [by apply (same_refs_mark m c r st)|done].
Qed.

Lemma sub_rel_due n h s since cold limit :
  sub_rel n h s -> sub_rel n h (sub_due since cold limit s).2.
Proof.
  intros Hs. unfold sub_due.
  pose proof (due_collect_refs
    (firstn limit (if cold then entries s else bt_above since (entries s))) (by_ref s)) as Hm.
  destruct (due_collect _ _) as [ds m]. by apply sub_rel_same_refs.
Qed.

Lemma scan_marks_refs c l m :
  same_refs m (foldl (fun m r => alter (mark_sent c) r m) m l).
Proof.
  revert m. induction l as [|r l IH]; intros m; [apply same_refs_refl|]. simpl.
  eapply same_refs_trans; [apply (same_refs_alter m c r)|apply IH].
Qed.
