(* ===== verification/ChangelogSpec.v ===== *)
(** * The changelog's operations refine its history

    The operations as labelled steps, the record of every write they append
    to, and the relation between the record and the compacted sub-logs, which
    every sequence of operations keeps. *)

From S2P Require Import Prelude ReplFrame Changelog ChangelogInv.

Open Scope Z_scope.

(** ** Steps *)

Inductive cl_op :=
  | OBumpPut (peer r : string) (p : Partition) (now_ms : Z)
  | OBumpDelete (peer r : string) (p : Partition) (ans : bool) (inc : option string) (now_ms : Z)
  | OForget (peer : string) (p : Partition) (r : string)
  | OReap (now_ms : Z)
  | OAdmits (peer : string) (now_ms inst : Z)
  | OColdPull (peer : string) (identity : option string)
  | OScanned (peer : string) (p : Partition) (w : Watermark)
  | OServing (peer : string) (p : Partition) (now_ms inst : Z)
  | OServeDrop (peer : string) (p : Partition)
  | ONoteApplied (peer : string) (identity : option string) (p : Partition) (at_ : Watermark)
      (now_ms inst : Z)
  | OBind (peer : string) (identity : option string)
  | ODrain (peer : string) (p : Partition) (since : Watermark) (limit : nat)
  | OClaimTtl (ttl : Z)
  | OMarks (m : BacklogMarks).

Definition cl_exec (o : cl_op) (cl : Changelog) : Changelog :=
  match o with
  | OBumpPut peer r p now => (bump_put peer r p now cl).2
  | OBumpDelete peer r p ans inc now => (bump_delete peer r p ans inc now cl).2
  | OForget peer p r => forget peer p r cl
  | OReap now => reap now cl
  | OAdmits peer now inst => (admits_backup peer now inst cl).2
  | OColdPull peer identity => note_cold_pull peer identity cl
  | OScanned peer p w => note_scanned peer p w cl
  | OServing peer p now inst => serving peer p now inst cl
  | OServeDrop peer p => serve_drop peer p cl
  | ONoteApplied peer identity p at_ now inst => note_applied peer identity p at_ now inst cl
  | OBind peer identity => bind_identity peer identity cl
  | ODrain peer p since limit => (drain_snapshot peer p since limit cl).2
  | OClaimTtl ttl => set_claim_ttl ttl cl
  | OMarks m => set_backlog_marks m cl
  end.

(** ** Histories *)

(** What happened to a peer's partition, in a record nothing is removed from:
    a write, a reference dropped from the log ([forget]), and the whole log
    dropped with its peer read as dead ([reap]). *)
Inductive Event := Wrote (w : Write) | Forgot (r : string) | Dropped.

#[global] Instance Write_eq_dec : EqDecision Write.
Proof. solve_decision. Defined.
#[global] Instance Event_eq_dec : EqDecision Event.
Proof. solve_decision. Defined.

(** The record of every peer's partition, newest first. *)
Notation Records := (string -> Partition -> list Event).

Definition no_records : Records := fun _ _ => [].

(** Whether the operation writes, the counter moving with it. *)
Definition is_bump (o : cl_op) : bool :=
  match o with OBumpPut _ _ _ _ | OBumpDelete _ _ _ _ _ _ => true | _ => false end.

(** The write the operation makes toward [peer] on [p], at the counter [c]. *)
Definition write_of (peer : string) (p : Partition) (c : Z) (o : cl_op) : option Write :=
  match o with
  | OBumpPut peer' r p' _ =>
      if bool_decide (peer' = peer) && bool_decide (p' = p)
      then Some (mkWrite c r Put false None) else None
  | OBumpDelete peer' r p' ans inc _ =>
      if bool_decide (peer' = peer) && bool_decide (p' = p)
      then Some (mkWrite c r Delete ans inc) else None
  | _ => None
  end.

(** What the operation adds to the record. *)
Definition event_of (o : cl_op) (cl : Changelog) (peer : string) (p : Partition) : list Event :=
  match o with
  | OForget peer' p' r =>
      if bool_decide (peer' = peer) && bool_decide (p' = p) then [Forgot r] else []
  | OReap _ =>
      match peers (inner cl) !! peer, peers (inner (cl_exec o cl)) !! peer with
      | Some _, None => [Dropped]
      | _, _ => []
      end
  | _ => match write_of peer p (cl_counter (inner cl) + 1) o with
         | Some w => [Wrote w]
         | None => []
         end
  end.

Definition hist_exec (o : cl_op) (cl : Changelog) (H : Records) : Records :=
  fun peer p => event_of o cl peer p ++ H peer p.

(** The run of a sequence of operations, with its records. *)
Fixpoint cl_run (os : list cl_op) (s : Changelog * Records) : Changelog * Records :=
  match os with
  | [] => s
  | o :: os => cl_run os (cl_exec o s.1, hist_exec o s.1 s.2)
  end.

(** The writes a sequence of operations makes toward a peer's partition, newest
    first, read off the operations alone: the counter before them is [c]. *)
Fixpoint made (peer : string) (p : Partition) (c : Z) (os : list cl_op) : history :=
  match os with
  | [] => []
  | o :: os =>
      made peer p (if is_bump o then c + 1 else c) os
      ++ match write_of peer p (c + 1) o with Some w => [w] | None => [] end
  end.

(** Every write of a record; those of references not forgotten since; and, of
    these, those of the log that stands. *)
Fixpoint writes (t : list Event) : history :=
  match t with
  | [] => []
  | Wrote w :: t => w :: writes t
  | (Forgot _ | Dropped) :: t => writes t
  end.

Fixpoint standing (t : list Event) : history :=
  match t with
  | [] => []
  | Wrote w :: t => w :: standing t
  | Forgot r :: t => hist_forget r (standing t)
  | Dropped :: t => standing t
  end.

Fixpoint live (t : list Event) : history :=
  match t with
  | [] => []
  | Wrote w :: t => w :: live t
  | Forgot r :: t => hist_forget r (live t)
  | Dropped :: t => []
  end.

(** Whether [r] was forgotten, or the log dropped, after the last write of
    [r]. *)
Fixpoint gone_since (t : list Event) (r : string) : bool :=
  match t with
  | [] => false
  | Wrote w :: t => if bool_decide (w_ref w = r) then false else gone_since t r
  | Forgot r' :: t => if bool_decide (r' = r) then true else gone_since t r
  | Dropped :: _ => true
  end.

(** Whether [r] was forgotten after its last write. *)
Fixpoint forgotten_since (t : list Event) (r : string) : bool :=
  match t with
  | [] => false
  | Wrote w :: t => if bool_decide (w_ref w = r) then false else forgotten_since t r
  | Forgot r' :: t => if bool_decide (r' = r) then true else forgotten_since t r
  | Dropped :: t => forgotten_since t r
  end.

Lemma last_write_live t r :
  last_write (live t) r = if gone_since t r then None else last_write (writes t) r.
Proof.
  induction t as [|[w|r'|] t IH]; simpl; [done| | |done].
  - rewrite !last_write_cons. by case_bool_decide.
  - rewrite last_write_forget. by case_bool_decide.
Qed.

Lemma last_write_standing t r :
  last_write (standing t) r = if forgotten_since t r then None else last_write (writes t) r.
Proof.
  induction t as [|[w|r'|] t IH]; simpl; [done| | |done].
  - rewrite !last_write_cons. by case_bool_decide.
  - rewrite last_write_forget. by case_bool_decide.
Qed.

Lemma last_write_app h h' r :
  last_write (h ++ h') r = match last_write h r with Some w => Some w | None => last_write h' r end.
Proof.
  induction h as [|w h IH]; [done|]. simpl. rewrite !last_write_cons. by case_bool_decide.
Qed.

(** The record holds every write made. *)
Lemma cl_exec_bump_counter o cl :
  0 <= cl_counter (inner cl) < u64_MAX ->
  cl_counter (inner (cl_exec o cl))
  = if is_bump o then cl_counter (inner cl) + 1 else cl_counter (inner cl).
Proof.
  intros Hc.
  assert (u64_add (cl_counter (inner cl)) 1 = cl_counter (inner cl) + 1) as Hadd.
  { unfold u64_add, u64_wrap, u64_MAX in *. rewrite Z.mod_small; lia. }
  destruct o; simpl; unfold admits_backup, note_cold_pull, note_applied, bind_identity,
    drain_snapshot; repeat (case_match; simpl); rewrite ?Hadd; done.
Qed.

Lemma cl_exec_counter o cl :
  0 <= cl_counter (inner cl) < u64_MAX ->
  cl_counter (inner cl) <= cl_counter (inner (cl_exec o cl)) <= cl_counter (inner cl) + 1.
Proof. intros Hc. rewrite cl_exec_bump_counter by done. destruct (is_bump o); lia. Qed.

Lemma writes_app t t' : writes (t ++ t') = writes t ++ writes t'.
Proof. induction t as [|[w|r|] t IH]; simpl; [done|by rewrite IH|done..]. Qed.

Lemma writes_event o cl peer p :
  writes (event_of o cl peer p)
  = match write_of peer p (cl_counter (inner cl) + 1) o with Some w => [w] | None => [] end.
Proof. destruct o; simpl; repeat case_match; done. Qed.

Lemma cl_run_writes os cl H peer p :
  0 <= cl_counter (inner cl) -> cl_counter (inner cl) + Z.of_nat (length os) <= u64_MAX ->
  writes ((cl_run os (cl, H)).2 peer p)
  = made peer p (cl_counter (inner cl)) os ++ writes (H peer p).
Proof.
  revert cl H. induction os as [|o os IH]; intros cl H Hc Hl; [done|]. simpl in Hl |- *.
  pose proof (cl_exec_counter o cl ltac:(lia)). rewrite IH by lia. unfold hist_exec.
  rewrite writes_app, writes_event, (cl_exec_bump_counter o cl) by lia. by rewrite assoc_L by apply _.
Qed.

(** ** The relation *)

(** The writes of the log that stands are those its sub-log refines; the ones
    of logs dropped before are at or below the counter it opened at. *)
Record log_rel (n : Z) (t : list Event) (s : SubLog) : Prop := {
  lr_live : sub_rel n (live t) s;
  lr_old : exists old, standing t = live t ++ old /\ Forall (fun w => w_counter w <= opened s) old;
}.

Definition no_log_rel (n : Z) (t : list Event) : Prop :=
  live t = [] /\ Forall (fun w => w_counter w <= n) (standing t).

Definition peer_rel (n : Z) (h : Partition -> list Event) (l : PeerLog) : Prop :=
  forall p, log_rel n (h p) (pl_sub p l).

Definition opt_rel (n : Z) (h : Partition -> list Event) (l : option PeerLog) : Prop :=
  match l with Some l => peer_rel n h l | None => forall p, no_log_rel n (h p) end.

Definition cl_rel (H : Records) (cl : Changelog) : Prop :=
  0 <= cl_counter (inner cl) /\
  forall peer, opt_rel (cl_counter (inner cl)) (H peer) (peers (inner cl) !! peer).

Lemma cl_rel_get H cl peer p s :
  cl_rel H cl -> get_sub peer p cl = Some s -> log_rel (cl_counter (inner cl)) (H peer p) s.
Proof.
  unfold get_sub. intros [_ Hr] (l & Hl & ->)%fmap_Some. specialize (Hr peer). rewrite Hl in Hr.
  apply Hr.
Qed.

(** The last write of a reference not forgotten since, and its entry. *)
Lemma standing_entry n t s r w :
  log_rel n t s -> last_write (standing t) r = Some w ->
  match by_ref s !! r with
  | Some st => st_counter st = w_counter w /\ st_op st = w_op w
  | None => w_counter w <= retained_floor s
  end.
Proof.
  intros [Hs (old & -> & Hold)]. rewrite last_write_app.
  destruct (by_ref s !! r) as [st|] eqn:E.
  - destruct (sr_last _ _ _ Hs r st E) as (w' & -> & Hc & Ho & _). by intros [= <-].
  - destruct (last_write (live t) r) as [w'|] eqn:El; intros Hw.
    + simplify_eq. by apply (sr_reaped _ _ _ Hs r w).
    + apply last_write_elem in Hw as [Hw _]. rewrite Forall_forall in Hold. apply Hold in Hw.
      destruct (sr_floor _ _ _ Hs). lia.
Qed.

Lemma standing_bound n t s w : log_rel n t s -> w ∈ standing t -> w_counter w <= n.
Proof.
  intros [Hs (old & -> & Hold)] [Hw|Hw]%elem_of_app.
  - apply Hs in Hw. destruct (sr_head _ _ _ Hs). lia.
  - rewrite Forall_forall in Hold. apply Hold in Hw. destruct (sr_floor _ _ _ Hs). lia.
Qed.

Lemma log_rel_new n c t : 0 <= c <= n -> no_log_rel c t -> log_rel n t (sublog_new c).
Proof.
  intros Hc [Hl Ho]. split; rewrite Hl; [by apply sub_rel_new|]. by exists (standing t).
Qed.

Lemma peer_rel_new n now c h :
  0 <= c <= n -> (forall p, no_log_rel c (h p)) -> peer_rel n h (peer_new now c).
Proof. intros Hc Hh p. destruct p; by apply log_rel_new. Qed.

Lemma log_rel_mono n n' t s : n <= n' -> log_rel n t s -> log_rel n' t s.
Proof. intros Hn [Hs Ho]. split; [by eapply sub_rel_mono|done]. Qed.

Lemma no_log_rel_mono n n' t : n <= n' -> no_log_rel n t -> no_log_rel n' t.
Proof. intros Hn [Hl Ho]. split; [done|]. eapply Forall_impl; [done|]. simpl. lia. Qed.

Lemma opt_rel_mono n n' h l : n <= n' -> opt_rel n h l -> opt_rel n' h l.
Proof.
  intros Hn. destruct l; simpl; intros Hr q; [by eapply log_rel_mono|by eapply no_log_rel_mono].
Qed.

Lemma log_rel_put n t s r op now stated :
  log_rel n t s -> (op = Put -> s_answered stated = false) ->
  log_rel (n + 1) (Wrote (mkWrite (n + 1) r op (s_answered stated) (s_incarnation stated)) :: t)
    (sub_put (n + 1) r op now stated s).
Proof.
  intros [Hs (old & Ho & Hold)] Hput. split; [by apply sub_rel_put|]. exists old. simpl.
  rewrite Ho. split; [done|]. unfold sub_put. by destruct (by_ref s !! r).
Qed.

Lemma log_rel_forget n t s r : log_rel n t s -> log_rel n (Forgot r :: t) (sub_forget r s).
Proof.
  intros [Hs (old & Ho & Hold)]. split; [by apply sub_rel_forget|]. exists (hist_forget r old).
  simpl. rewrite Ho. unfold hist_forget. rewrite filter_app. split; [done|].
  replace (opened (sub_forget r s)) with (opened s) by (unfold sub_forget; by case_match).
  rewrite Forall_forall in *. intros w [_ Hw]%list_elem_of_filter. auto.
Qed.

Lemma no_log_rel_forget n t r : no_log_rel n t -> no_log_rel n (Forgot r :: t).
Proof.
  intros [Hl Ho]. split; simpl; [by rewrite Hl|]. rewrite Forall_forall in *.
  intros w [_ Hw]%list_elem_of_filter. auto.
Qed.

(** A step that keeps a sub-log's relation to its writes and its opening. *)
Definition keeps (n : Z) (f : SubLog -> SubLog) : Prop :=
  forall s, opened (f s) = opened s /\ forall h, sub_rel n h s -> sub_rel n h (f s).

Lemma log_rel_keep n t s f : keeps n f -> log_rel n t s -> log_rel n t (f s).
Proof. intros Hf [Hs Ho]. destruct (Hf s) as [Hop Hr]. split; [auto|]. by rewrite Hop. Qed.

Lemma reap_sublog_opened g s : opened (reap_sublog g s) = opened s.
Proof.
  unfold reap_sublog. destruct (gen (acked s) =? g); [|done]. set (l := filter _ _). clearbody l.
  revert s.
  induction l as [|r l IH]; intros s; [done|]. simpl. rewrite IH. unfold reap_one. by case_match.
Qed.

Lemma keeps_reap n g : keeps n (reap_sublog g).
Proof. intros s. split; [apply reap_sublog_opened|]. intros h. apply sub_rel_reap. Qed.

(** A sub-log whose references and bounds are kept. *)
Ltac sub_keep :=
  let s := fresh "s" in let k := fresh "k" in let Hs := fresh "Hs" in
  intros s; split; [by repeat case_match|]; intros k Hs; repeat case_match;
  by apply (sub_rel_keep _ _ s).

(** Updating one sub-log and its record. *)
Lemma peer_rel_upd n n' h l p f h' :
  n <= n' -> peer_rel n h l ->
  (forall p', p' <> p -> h' p' = h p') ->
  (log_rel n (h p) (pl_sub p l) -> log_rel n' (h' p) (f (pl_sub p l))) ->
  peer_rel n' h' (sub_mut p f l).
Proof.
  intros Hn Hr Hh Hf p'. destruct (decide (p' = p)) as [->|Hp].
  - specialize (Hf (Hr p)). by destruct p.
  - rewrite (Hh p') by done. apply (log_rel_mono n); [done|]. specialize (Hr p').
    by destruct p, p'.
Qed.

(** Updating a sub-log in place. *)
Lemma peer_rel_keep n h l p f : keeps n f -> peer_rel n h l -> peer_rel n h (sub_mut p f l).
Proof.
  intros Hf Hr. apply (peer_rel_upd n n h); [lia|done..|]. by apply log_rel_keep.
Qed.

(** What a peer log holds beside its sub-logs is free. *)
Lemma peer_rel_fields n h l a b c :
  peer_rel n h l -> peer_rel n h (mkPeerLog (pl_pri l) (pl_bak l) a b c).
Proof. intros Hr p. specialize (Hr p). by destruct p. Qed.

Lemma cl_rel_keep H cl peer f :
  cl_rel H cl ->
  (forall h l, peer_rel (cl_counter (inner cl)) h l -> peer_rel (cl_counter (inner cl)) h (f l)) ->
  cl_rel H (upd_peer peer f cl).
Proof.
  intros [Hn Hr] Hf. split; [done|]. intros peer'. simpl. specialize (Hr peer').
  by_key peer peer'; [|done]. destruct (peers (inner cl) !! peer'); simpl in *; auto.
Qed.

Lemma cl_rel_ext H H' cl : (forall peer p, H' peer p = H peer p) -> cl_rel H cl -> cl_rel H' cl.
Proof.
  intros HH [Hn Hr]. split; [done|]. intros peer. specialize (Hr peer).
  destruct (peers (inner cl) !! peer); intros q; rewrite HH; apply Hr.
Qed.

Lemma cl_rel_forget H cl peer p r :
  cl_rel H cl -> cl_rel (hist_exec (OForget peer p r) cl H) (forget peer p r cl).
Proof.
  intros [Hn Hr]. split; [done|]. intros peer'. specialize (Hr peer'). unfold hist_exec. simpl.
  by_key peer peer'.
  - rewrite bool_decide_eq_true_2 by done. simpl.
    destruct (peers (inner cl) !! peer') as [l|]; simpl in *.
    + eapply (peer_rel_upd (cl_counter (inner cl)) _ (H peer')); [lia|done|..].
      * intros p' Hp. by rewrite bool_decide_eq_false_2 by congruence.
      * rewrite bool_decide_eq_true_2 by done. apply log_rel_forget.
    + intros p'. case_bool_decide; [by apply no_log_rel_forget|apply Hr].
  - by rewrite bool_decide_eq_false_2.
Qed.

Lemma cl_rel_bump H cl peer r op p stated now :
  cl_rel H cl -> (op = Put -> s_answered stated = false) -> cl_counter (inner cl) < u64_MAX ->
  cl_rel (fun peer' p' =>
            (if bool_decide (peer = peer') && bool_decide (p = p') then
               [Wrote (mkWrite (cl_counter (inner cl) + 1) r op (s_answered stated)
                         (s_incarnation stated))] else []) ++ H peer' p')
    (bump peer r op p stated now cl).2.
Proof.
  intros [Hn Hr] Hput Hmax. unfold bump. simpl.
  assert (u64_add (cl_counter (inner cl)) 1 = cl_counter (inner cl) + 1) as ->.
  { unfold u64_add, u64_wrap, u64_MAX in *. rewrite Z.mod_small; lia. }
  assert (u64_wrap (cl_counter (inner cl) + 1 - 1) = cl_counter (inner cl)) as ->.
  { unfold u64_wrap, u64_MAX in *. rewrite Z.mod_small; lia. }
  split; simpl; [lia|]. intros peer'. specialize (Hr peer'). by_key peer peer'.
  - rewrite bool_decide_eq_true_2 by done. simpl.
    apply (peer_rel_upd (cl_counter (inner cl)) _ (H peer')); [lia|..].
    + destruct (peers (inner cl) !! peer'); simpl in *; [done|]. apply peer_rel_new; [lia|done].
    + intros p' Hp. by rewrite bool_decide_eq_false_2 by congruence.
    + rewrite bool_decide_eq_true_2 by done. intros Hs. by apply log_rel_put.
  - rewrite bool_decide_eq_false_2 by done. eapply opt_rel_mono; [|done]. lia.
Qed.

Lemma cl_rel_serving H cl peer p now inst :
  cl_rel H cl -> cl_rel H (serving peer p now inst cl).
Proof.
  intros [Hn Hr]. split; [done|]. intros peer'. simpl. specialize (Hr peer'). by_key peer peer'.
  - apply peer_rel_keep; [sub_keep|]. apply peer_rel_fields.
    destruct (peers (inner cl) !! peer'); simpl in *; [done|]. apply peer_rel_new; [lia|done].
  - done.
Qed.

Lemma reap_lookup now cl peer :
  peers (inner (reap now cl)) !! peer
  = (l ← peers (inner cl) !! peer;
     if bool_decide (0 < pl_serving l \/ i64_sub now (last_active_ms l) < dead_peer_ttl_ms cl)
     then Some (sub_mut Bak (reap_sublog (cl_gen cl)) (sub_mut Pri (reap_sublog (cl_gen cl)) l))
     else None).
Proof.
  unfold reap. simpl. rewrite lookup_fmap.
  destruct (peers (inner cl) !! peer) as [l|] eqn:E; simpl.
  - case_bool_decide as Hd.
    + by rewrite (map_lookup_filter_Some_2 _ _ _ l).
    + rewrite map_lookup_filter_None_2; [done|]. right. intros l' Hl'. by simplify_eq.
  - rewrite map_lookup_filter_None_2; [done|]. by left.
Qed.

Lemma cl_rel_reap H cl now : cl_rel H cl -> cl_rel (hist_exec (OReap now) cl H) (reap now cl).
Proof.
  intros [Hn Hr]. split; [done|]. intros peer. specialize (Hr peer). unfold hist_exec, event_of.
  cbn [cl_exec]. rewrite reap_lookup. change (cl_counter (inner (reap now cl))) with
    (cl_counter (inner cl)).
  destruct (peers (inner cl) !! peer) as [l|] eqn:E; simpl in *; [|done].
  case_bool_decide; simpl.
  - change (peer_rel (cl_counter (inner cl)) (H peer)
      (sub_mut Bak (reap_sublog (cl_gen cl)) (sub_mut Pri (reap_sublog (cl_gen cl)) l))).
    by repeat (apply peer_rel_keep; [apply keeps_reap|]).
  - intros p. split; [done|]. simpl. apply Forall_forall. intros w Hw.
    by apply (standing_bound _ _ _ w (Hr p)).
Qed.

Lemma keeps_scan n c (l : SubLog -> list (Z * string)) : keeps n (fun s =>
  set_log (entries s)
    (foldl (fun m r => alter (mark_sent c) r m) (by_ref s) (map snd (l s))) s).
Proof.
  intros s. split; [done|]. intros h Hs. apply sub_rel_same_refs; [apply scan_marks_refs|done].
Qed.

(** Every operation keeps the relation, below the last counter. *)
Lemma cl_rel_exec H cl o :
  cl_rel H cl -> cl_counter (inner cl) < u64_MAX -> cl_rel (hist_exec o cl H) (cl_exec o cl).
Proof.
  intros Hr Hmax. destruct o; try (apply (cl_rel_ext H); [done|]; simpl).
  - eapply cl_rel_ext; [|by apply (cl_rel_bump H cl peer r Put p stated_default now_ms)].
    intros peer' p'. unfold hist_exec. simpl. by destruct (_ && _).
  - eapply cl_rel_ext; [|by apply (cl_rel_bump H cl peer r Delete p (mkStated ans inc) now_ms)].
    intros peer' p'. unfold hist_exec. simpl. by destruct (_ && _).
  - by apply cl_rel_forget.
  - by apply cl_rel_reap.
  - unfold admits_backup. destruct (peers (inner cl) !! peer) as [l|]; [|done].
    destruct ((streams (pl_sub Bak l) =? 0) || _); [done|]. apply cl_rel_keep; [done|].
    intros h l'. apply peer_rel_fields.
  - unfold note_cold_pull. destruct (bound_to_other _ _ _); [done|].
    apply cl_rel_keep; [done|]. intros h l Hp.
    by repeat (apply peer_rel_keep; [sub_keep|]).
  - apply cl_rel_keep; [done|]. intros h l Hp. apply peer_rel_keep; [|done]. apply keeps_scan.
  - by apply cl_rel_serving.
  - apply cl_rel_keep; [done|]. intros h l Hp. apply peer_rel_keep; [sub_keep|].
    by apply peer_rel_fields.
  - unfold note_applied. destruct (bound_to_other _ _ _).
    + destruct identity as [id|]; [|done]. apply cl_rel_keep; [done|]. intros h l Hp.
      apply peer_rel_keep; [sub_keep|done].
    + apply cl_rel_keep; [done|]. intros h l Hp. apply peer_rel_keep; [sub_keep|].
      by apply peer_rel_fields.
  - unfold bind_identity. destruct identity as [id|]; [|done]. case_bool_decide; [done|].
    apply cl_rel_keep; [done|]. intros h l Hp.
    by repeat (apply peer_rel_keep; [sub_keep|]).
  - unfold drain_snapshot. destruct (peers (inner cl) !! peer) as [l|] eqn:E; [|done].
    destruct (sub_due _ _ _ _) as [ds s] eqn:Es. simpl. destruct Hr as [Hn Hr].
    split; [done|]. intros peer'. specialize (Hr peer'). simpl.
    by_key peer peer'; [|done]. rewrite E in *. simpl in *.
    eapply (peer_rel_upd (cl_counter (inner cl)) _ (H peer')); [done..|]. intros [Hs Ho].
    assert (opened s = opened (pl_sub p l)) as Hop.
    { unfold sub_due in Es. destruct (due_collect _ _). by simplify_eq. }
    apply (sub_rel_due _ _ _ (counter since) (gen since <? cl_gen cl) limit) in Hs.
    rewrite Es in Hs. split; [done|]. by rewrite Hop.
  - done.
  - done.
Qed.

Lemma cl_run_rel os cl H :
  cl_rel H cl -> cl_counter (inner cl) + Z.of_nat (length os) <= u64_MAX ->
  cl_rel (cl_run os (cl, H)).2 (cl_run os (cl, H)).1.
Proof.
  revert cl H. induction os as [|o os IH]; intros cl H Hr Hlen; [done|]. simpl in *.
  pose proof (cl_exec_counter o cl) as Hc. destruct Hr as [Hn Hr'].
  apply IH; [apply cl_rel_exec; [done|lia]|]. lia.
Qed.

Lemma cl_rel_new g : cl_rel no_records (new g).
Proof.
  split; [simpl; lia|]. intros peer. simpl. rewrite lookup_empty. intros p. split; [done|].
  constructor.
Qed.

Lemma cl_run_new os g :
  Z.of_nat (length os) <= u64_MAX ->
  cl_rel (cl_run os (new g, no_records)).2 (cl_run os (new g, no_records)).1.
Proof. intros Hl. apply cl_run_rel; [apply cl_rel_new|simpl; lia]. Qed.
