(* ===== verification/ChangelogSync.v ===== *)
(** * What a puller of the changelog holds

    The serve task of one flow ([crates/b2bua/src/repl/server.rs],
    [serve_flow] from its opening check to its tail) beside the changelog's
    other operations: entries are drained under the lock, their bodies read
    with it dropped, the frames sent in order, and the puller applies the
    frames that reach it and pulls again at its position when a stream ends.
    The invariant that keeps its replica in step with the record of writes. *)

From S2P Require Import Prelude ReplFrame Changelog ChangelogInv ChangelogSpec.

Open Scope Z_scope.

(** ** Frames and replicas *)

Definition frame_at (f : Frame) : Watermark :=
  match f with
  | FPullRequest _ _ _ _ w | FData w _ _ _ _ _ _ _ _ _ _ _ | FNoop w | FPosition w
  | FReplicaRefused w _ _ => w
  | _ => mkW 0 0
  end.

(** The replica a flow's frames build: each reference with the counter of the
    frame its body came in. *)
Definition apply_frame (m : gmap string Z) (f : Frame) : gmap string Z :=
  match f with
  | FData at_ op _ r _ _ _ _ _ _ _ _ =>
      if is_delete op then delete r m else <[r := counter at_]> m
  | _ => m
  end.

(** The puller's watermark behind a frame. *)
Definition watermark_after (since : Watermark) (f : Frame) : Watermark :=
  match f with
  | FData at_ _ _ _ _ _ _ _ _ _ _ _ => at_
  | FNoop at_ => if w_ltb since at_ then at_ else since
  | _ => since
  end.

(** ** A flow beside the changelog *)

(** A stream: the position of the last frame sent, the entries drained and not
    read yet, the frames read and not sent yet, the frames sent and not applied
    yet. *)
Record Flow := mkFlow {
  cursor : Z;
  unread : list Due;
  unsent : list Frame;
  wire : list Frame;
}.

(** [s_others] counts the peer's other serve tasks, [s_from] is the counter the
    puller joined this incarnation at, and [s_missed] lists the puts whose body
    the store did not hold when their frame was read. *)
Record System := mkSystem {
  s_log : Changelog;
  s_hist : Records;
  s_others : nat;
  s_flow : option Flow;
  s_since : Watermark;
  s_from : Z;
  s_replica : gmap string Z;
  s_missed : list (string * Z);
}.

(** A new incarnation, and a puller with what an earlier one left it. *)
Definition sys_init (g : Z) (since : Watermark) (m : gmap string Z) : System :=
  mkSystem (new g) no_records O None since 0 m [].

Definition logged (o : cl_op) (s : System) : System :=
  mkSystem (cl_exec o (s_log s)) (hist_exec o (s_log s) (s_hist s)) (s_others s) (s_flow s)
    (s_since s) (s_from s) (s_replica s) (s_missed s).
Definition set_stream (f : option Flow) (s : System) : System :=
  mkSystem (s_log s) (s_hist s) (s_others s) f (s_since s) (s_from s) (s_replica s) (s_missed s).
Definition set_others (n : nat) (s : System) : System :=
  mkSystem (s_log s) (s_hist s) n (s_flow s) (s_since s) (s_from s) (s_replica s) (s_missed s).
Definition set_puller (since : Watermark) (from : Z) (m : gmap string Z) (s : System) : System :=
  mkSystem (s_log s) (s_hist s) (s_others s) (s_flow s) since from m (s_missed s).
Definition set_missed (l : list (string * Z)) (s : System) : System :=
  mkSystem (s_log s) (s_hist s) (s_others s) (s_flow s) (s_since s) (s_from s) (s_replica s) l.

Section steps.
Context (peer : string) (p : Partition).

(** Any other operation of the changelog.  A serve task that ends had begun,
    and a position reported on the flow is one its puller had reached. *)
Definition other_op (o : cl_op) (s : System) : System :=
  match o with
  | OServing peer' _ _ _ =>
      if bool_decide (peer' = peer) then set_others (S (s_others s)) (logged o s) else logged o s
  | OServeDrop peer' _ =>
      if bool_decide (peer' = peer) then
        match s_others s with O => s | S n => set_others n (logged o s) end
      else logged o s
  | ONoteApplied peer' _ p' at_ _ _ =>
      if bool_decide (peer' = peer) && bool_decide (p' = p) && negb (w_leb at_ (s_since s)) then s
      else logged o s
  | _ => logged o s
  end.

(** The opening of [serve_flow] for a puller that resumes from its position:
    the one check for a reset, and the position the tail starts from.  A reset
    takes the puller's watermark to zero; at zero it is left to the bootstrap
    scan. *)
Definition open_flow (now_ms inst : Z) (s : System) : System :=
  match s_flow s with
  | Some _ => s
  | None =>
      let since := s_since s in
      if bool_decide (since = mkW 0 0) then s
      else
        let s := logged (OServing peer p now_ms inst) s in
        if needs_reset peer p since (s_log s) then
          set_puller (mkW 0 0) (s_from s) (s_replica s) (logged (OServeDrop peer p) s)
        else if gen since <? cl_gen (s_log s) then
          let w := counter (default since (opened_at peer p (s_log s))) in
          set_puller since w (s_replica s) (set_stream (Some (mkFlow w [] [] [])) s)
        else set_stream (Some (mkFlow (counter since) [] [] [])) s
  end.

(** The snapshot a turn of the tail's loop drains. *)
Definition drain_tail (limit : nat) (s : System) : System :=
  match s_flow s with
  | Some (mkFlow w [] [] fs) =>
      let at_ := mkW (cl_gen (s_log s)) w in
      let ds := (drain_snapshot peer p at_ limit (s_log s)).1 in
      set_stream (Some (mkFlow w ds [] fs)) (logged (ODrain peer p at_ limit) s)
  | _ => s
  end.

(** The next drained entry read, the store and the changelog as they are
    then. *)
Definition read_next (entry : string -> option (body * RefMeta)) (now_ms : Z) (s : System)
    : System :=
  match s_flow s with
  | Some (mkFlow w (d :: ds) us fs) =>
      match drain_one (cl_gen (s_log s)) peer p (mkWorld entry now_ms (s_log s)) d with
      | Some f =>
          let missed := if is_put (d_op d) then
                          match entry (d_ref d) with
                          | None => (d_ref d, d_counter d) :: s_missed s
                          | Some _ => s_missed s
                          end
                        else s_missed s in
          set_missed missed (set_stream (Some (mkFlow w ds (us ++ [f]) fs)) s)
      | None => set_stream (Some (mkFlow w ds us fs)) s
      end
  | _ => s
  end.

(** The next frame sent, and the cursor moved past it. *)
Definition send_next (s : System) : System :=
  match s_flow s with
  | Some (mkFlow w [] (f :: us) fs) =>
      set_stream (Some (mkFlow (counter (frame_at f)) [] us (fs ++ [f]))) s
  | _ => s
  end.

(** The next frame, a backup's put, refused unsent: the call is abandoned, which
    writes a delete of it, and the cursor moves past the frame all the same. *)
Definition skip_next (inc : option string) (now_ms : Z) (s : System) : System :=
  match s_flow s with
  | Some (mkFlow w [] (FData at_ Put Bak r _ _ _ _ _ _ _ _ :: us) fs) =>
      if bool_decide (p = Bak) then
        set_stream (Some (mkFlow (counter at_) [] us fs))
          (logged (OBumpDelete peer r Bak false inc now_ms) s)
      else s
  | _ => s
  end.

(** A [Noop] at the cursor, once all that was drained is sent. *)
Definition send_noop (s : System) : System :=
  match s_flow s with
  | Some (mkFlow w [] [] fs) =>
      set_stream (Some (mkFlow w [] [] (fs ++ [FNoop (mkW (cl_gen (s_log s)) w)]))) s
  | _ => s
  end.

(** The puller applies the next frame. *)
Definition apply_next (s : System) : System :=
  match s_flow s with
  | Some (mkFlow w ds us (f :: fs)) =>
      set_puller (watermark_after (s_since s) f) (s_from s) (apply_frame (s_replica s) f)
        (set_stream (Some (mkFlow w ds us fs)) s)
  | _ => s
  end.

(** The stream ends, at any point: what was not applied is lost. *)
Definition close_flow (s : System) : System :=
  match s_flow s with
  | Some _ => set_stream None (logged (OServeDrop peer p) s)
  | None => s
  end.

Inductive sys_op :=
  | SLog (o : cl_op)
  | SOpen (now_ms inst : Z)
  | SDrain (limit : nat)
  | SRead (entry : string -> option (body * RefMeta)) (now_ms : Z)
  | SSend
  | SSkip (inc : option string) (now_ms : Z)
  | SNoop
  | SApply
  | SClose.

Definition sys_step (s : System) (o : sys_op) : System :=
  match o with
  | SLog o => other_op o s
  | SOpen now_ms inst => open_flow now_ms inst s
  | SDrain limit => drain_tail limit s
  | SRead entry now_ms => read_next entry now_ms s
  | SSend => send_next s
  | SSkip inc now_ms => skip_next inc now_ms s
  | SNoop => send_noop s
  | SApply => apply_next s
  | SClose => close_flow s
  end.

Definition sys_run (os : list sys_op) (s : System) : System := foldl sys_step s os.

(** The record of the puller's flow. *)
Definition flow_record (s : System) : list Event := s_hist s peer p.

End steps.

(** ** Agreement *)

(** The replica holds what the last write [w] of [r] left: nothing after a
    delete, the body of that write after a put, or nothing when the store no
    longer held it. *)
Definition agrees (missed : list (string * Z)) (m : gmap string Z) (r : string) (w : Write) : Prop :=
  if is_delete (w_op w) then m !! r = None
  else m !! r = Some (w_counter w) \/ (m !! r = None /\ (r, w_counter w) ∈ missed).

(** The replica agrees with the history [h] on every reference last written
    above [from] and at or below [pos]. *)
Definition in_sync (from : Z) (missed : list (string * Z)) (h : history) (m : gmap string Z)
    (pos : Z) : Prop :=
  forall r w, last_write h r = Some w -> from < w_counter w <= pos -> agrees missed m r w.

(** ** The drained entries *)

Lemma due_collect_spec es m m' :
  same_refs m m' ->
  (due_collect es m').1
  = omap (fun '(c, r) => (fun st => mkDue c r (st_op st) (st_answered st) (st_incarnation st))
                         <$> m !! r) es.
Proof.
  revert m'. induction es as [|[c r] es IH]; intros m' Hm; [done|]. simpl.
  pose proof (Hm r) as Hr. destruct (m' !! r) as [st'|] eqn:E', (m !! r) as [st|] eqn:E; try done.
  - simpl. destruct Hr as (Hc & -> & -> & ->).
    assert (same_refs m (<[r := mark_sent c st']> m')) as Hm'.
    { eapply same_refs_trans; [done|by apply same_refs_mark]. }
    specialize (IH _ Hm'). destruct (due_collect es _) as [ds m'']. simpl in *. by rewrite IH.
  - simpl. by apply IH.
Qed.

Lemma elem_of_due s since cold limit d :
  d ∈ (sub_due since cold limit s).1 <->
  exists st, (d_counter d, d_ref d) ∈ firstn limit (if cold then entries s
                                                    else bt_above since (entries s))
    /\ by_ref s !! d_ref d = Some st
    /\ d = mkDue (d_counter d) (d_ref d) (st_op st) (st_answered st) (st_incarnation st).
Proof.
  unfold sub_due.
  pose proof (due_collect_spec (firstn limit (if cold then entries s else bt_above since (entries s)))
                (by_ref s) (by_ref s) (same_refs_refl _)) as Hd.
  destruct (due_collect _ _) as [ds m]. simpl in *. rewrite Hd, list_elem_of_omap. split.
  - intros ([c r] & Hin & (st & Hst & ->)%fmap_Some). simpl. eauto.
  - intros (st & Hin & Hst & ->). exists (d_counter d, d_ref d). simpl in *.
    by rewrite Hst.
Qed.

(** Under the relation the drained entries are the range's, one for one. *)
Lemma due_keys n h s since cold limit :
  sub_rel n h s ->
  map (fun d => (d_counter d, d_ref d)) (sub_due since cold limit s).1
  = firstn limit (if cold then entries s else bt_above since (entries s)).
Proof.
  intros Hs. unfold sub_due. set (l := firstn limit _).
  pose proof (due_collect_spec l (by_ref s) (by_ref s) (same_refs_refl _)) as Hd.
  destruct (due_collect l (by_ref s)) as [ds m]. simpl in *. subst ds.
  assert (Forall (fun p => is_Some (by_ref s !! p.2)) l) as Hall.
  { apply Forall_forall. intros [c r] Hin.
    assert ((c, r) ∈ entries s) as (st & Hst & _)%Hs; [|by eexists].
    unfold l in Hin. apply elem_of_take in Hin as (i & Hi & _).
    apply list_elem_of_lookup_2 in Hi. destruct cold; [done|].
    by apply elem_of_bt_above in Hi as [Hi _]. }
  clearbody l. induction l as [|[c r] l IH]; [done|].
  apply Forall_cons in Hall as [[st Hst] Hall]. simpl in *. rewrite Hst. simpl.
  f_equal. by apply IH.
Qed.

(** ** What the operations do to a flow's sub-log *)

(** Every position reported on the flow is at or below [since]. *)
Definition told (since : Watermark) (s : SubLog) : Prop :=
  w_leb (acked s) since = true
  /\ (forall i w, unbound s = Some (i, w) -> w_leb w since = true)
  /\ (forall c, applied s = Some c -> w_leb (cm_at c) since = true).

(** A sub-log before and after an operation: its opening stays, its floor rises
    to what the peer reported applying at most, and reports stay below
    [since]. *)
Definition moved1 (g : Z) (since : Watermark) (s s' : SubLog) : Prop :=
  opened s' = opened s
  /\ retained_floor s' <= (if gen (acked s) =? g then Z.max (retained_floor s) (counter (acked s))
                           else retained_floor s)
  /\ (told since s -> told since s').

Definition moved (g : Z) (since : Watermark) (x y : option SubLog) : Prop :=
  match y with
  | None => True
  | Some s' =>
      match x with
      | None => retained_floor s' = opened s' /\ told since s'
      | Some s => moved1 g since s s'
      end
  end.

Lemma moved1_refl g since s : moved1 g since s s.
Proof. split_and!; [done| |done]. case_match; lia. Qed.

Lemma flow_moved_refl g since x : moved g since x x.
Proof. destruct x; simpl; [apply moved1_refl|done]. Qed.

(** An operation that leaves the opening, the floor and the reports. *)
Lemma moved1_same g since s s' :
  opened s' = opened s -> retained_floor s' = retained_floor s ->
  (told since s -> told since s') -> moved1 g since s s'.
Proof. intros Ho Hf Ht. split_and!; [done| |done]. rewrite Hf. case_match; lia. Qed.

Lemma pl_sub_mut p p' f l :
  pl_sub p (sub_mut p' f l) = if bool_decide (p' = p) then f (pl_sub p l) else pl_sub p l.
Proof. by destruct p, p'. Qed.

Lemma moved_upd g since peer peer' p f cl :
  (forall l, moved1 g since (pl_sub p l) (pl_sub p (f l))) ->
  moved g since (get_sub peer p cl) (get_sub peer p (upd_peer peer' f cl)).
Proof.
  intros Hf. unfold get_sub. simpl. by_key peer' peer; [|apply flow_moved_refl].
  destruct (peers (inner cl) !! peer); simpl; [apply Hf|done].
Qed.

Lemma moved1_mut g since p p' f l l' :
  pl_sub p l' = pl_sub p l -> (p' = p -> moved1 g since (pl_sub p l) (f (pl_sub p l))) ->
  moved1 g since (pl_sub p l) (pl_sub p (sub_mut p' f l')).
Proof.
  intros Hl Hf. rewrite pl_sub_mut, Hl. case_bool_decide; [auto|apply moved1_refl].
Qed.

Lemma told_new since c : w_leb (mkW 0 0) since = true -> told since (sublog_new c).
Proof. by intros H0. Qed.

Lemma reap_fold_floor l a s :
  Forall (fun r => forall st, by_ref s !! r = Some st -> st_counter st <= a) l ->
  retained_floor (foldl reap_one s l) <= Z.max (retained_floor s) a.
Proof.
  revert s. induction l as [|r l IH]; intros s Hl; simpl; [lia|].
  apply Forall_cons in Hl as [Hr Hl]. etransitivity; [apply IH|].
  - eapply Forall_impl; [done|]. intros r' Hr' st. destruct (decide (r = r')) as [->|Hne].
    + by rewrite reap_one_same.
    + rewrite reap_one_other by done. apply Hr'.
  - unfold reap_one. destruct (by_ref s !! r) as [st|]; simpl; [|lia].
    specialize (Hr st eq_refl). lia.
Qed.

Lemma reap_fold_reports l s :
  acked (foldl reap_one s l) = acked s /\ unbound (foldl reap_one s l) = unbound s
  /\ applied (foldl reap_one s l) = applied s.
Proof.
  revert s. induction l as [|r l IH]; intros s; [done|]. simpl.
  destruct (IH (reap_one s r)) as (-> & -> & ->). unfold reap_one. by case_match.
Qed.

Lemma moved1_reap n h g since s : sub_rel n h s -> moved1 g since s (reap_sublog g s).
Proof.
  intros Hs. split_and!; [apply reap_sublog_opened| |]; unfold reap_sublog.
  - destruct (gen (acked s) =? g); [|done]. apply reap_fold_floor.
    apply Forall_forall. intros r [_ Hr]%list_elem_of_filter st Hst.
    apply list_elem_of_fmap in Hr as ([c r'] & -> & Hin). simpl in Hst.
    apply elem_of_bt_upto in Hin as [Hin Hle]. apply Hs in Hin as (st' & Hst' & <-).
    simpl in *. simplify_eq. done.
  - destruct (gen (acked s) =? g); [|done]. unfold told.
    by destruct (reap_fold_reports (filter (fun r => is_tombstone (by_ref s) r = true)
         (map snd (bt_upto (counter (acked s)) (entries s)))) s) as (-> & -> & ->).
Qed.

(** A report the flow's puller had reached. *)
Definition report_ok (peer : string) (p : Partition) (since : Watermark) (o : cl_op) : Prop :=
  match o with
  | ONoteApplied peer' _ p' at_ _ _ => peer' = peer -> p' = p -> w_leb at_ since = true
  | _ => True
  end.

Lemma told_note g since s at_ inst :
  w_leb at_ since = true -> told since s ->
  told since (let s := set_flow (Some (mkClaim at_ inst)) (streams s) None s in
              if (gen at_ =? g) && w_ltb (acked s) at_ then set_acked at_ (unbound s) s else s).
Proof.
  intros Ha (H1 & H2 & H3). simpl. case_match; split_and!; simpl; try done; by intros c [= <-].
Qed.

Lemma told_unbound since s id at_ :
  w_leb at_ since = true -> told since s -> told since (set_acked (acked s) (Some (id, at_)) s).
Proof. intros Ha (H1 & H2 & H3). split_and!; [done| |done]. by intros i w [= <- <-]. Qed.

Lemma exec_moved H peer p since o cl :
  cl_rel H cl -> w_leb (mkW 0 0) since = true -> report_ok peer p since o ->
  moved (cl_gen cl) since (get_sub peer p cl) (get_sub peer p (cl_exec o cl)).
Proof.
  intros Hr H0 Hok.
  assert (forall peer' r op p' st now,
    moved (cl_gen cl) since (get_sub peer p cl) (get_sub peer p (bump peer' r op p' st now cl).2))
    as Hbump.
  { intros peer' r op p' st now. unfold get_sub, bump. simpl. by_key peer' peer; [|apply flow_moved_refl].
    assert (forall s c, moved1 (cl_gen cl) since s (sub_put c r op now st s)) as Hput.
    { intros s c. unfold sub_put. destruct (by_ref s !! r); by apply moved1_same. }
    destruct (peers (inner cl) !! peer) as [l|]; simpl.
    - apply moved1_mut; [done|]. intros _. apply Hput.
    - rewrite pl_sub_mut. set (c := u64_add _ _). set (b := u64_wrap _).
      assert (pl_sub p (peer_new now b) = sublog_new b) as -> by (by destruct p).
      case_bool_decide; [|split; [done|by apply told_new]].
      unfold sub_put. simpl. rewrite lookup_empty. split; [done|]. by apply told_new. }
  destruct o; simpl in *.
  - apply Hbump.
  - apply Hbump.
  - apply moved_upd. intros l. apply moved1_mut; [done|]. intros _. unfold sub_forget.
    destruct (by_ref _ !! r); [by apply moved1_same|apply moved1_refl].
  - unfold get_sub. rewrite reap_lookup. destruct Hr as [_ Hr]. specialize (Hr peer).
    destruct (peers (inner cl) !! peer) as [l|]; simpl; [|done]. case_bool_decide; [|done].
    specialize (Hr p) as [Hs _]. destruct p; simpl in *; by eapply moved1_reap.
  - unfold admits_backup. destruct (peers (inner cl) !! peer0); [|apply flow_moved_refl].
    destruct ((streams _ =? 0) || _); [apply flow_moved_refl|]. apply moved_upd. intros l.
    destruct p; apply moved1_refl.
  - unfold note_cold_pull. destruct (bound_to_other _ _ _); [apply flow_moved_refl|]. apply moved_upd.
    intros l. rewrite !pl_sub_mut. destruct p; simpl; apply moved1_same; try done; by intros (? & ? & ?).
  - apply moved_upd. intros l. apply moved1_mut; [done|]. intros _. by apply moved1_same.
  - unfold get_sub, serving. simpl. by_key peer0 peer; [|apply flow_moved_refl].
    destruct (peers (inner cl) !! peer) as [l|]; simpl; rewrite pl_sub_mut.
    + case_bool_decide.
      * apply moved1_same; destruct p; try done; intros (? & ? & ?); by split_and!.
      * destruct p; apply moved1_refl.
    + case_bool_decide; destruct p; (split; [done|]); split_and!; by simpl.
  - apply moved_upd. intros l. apply moved1_mut; [by destruct p|]. intros _.
    apply moved1_same; [done..|]. intros (? & ? & ?). split_and!; simpl; [done..|].
    by case_match.
  - unfold note_applied. destruct (bound_to_other _ _ _).
    + destruct identity as [id|]; [|apply flow_moved_refl].
      destruct (decide (peer0 = peer)) as [->|Hne].
      * apply moved_upd. intros l. apply moved1_mut; [done|]. intros ->. specialize (Hok eq_refl eq_refl).
        case_match; [|apply moved1_refl]. apply moved1_same; [done..|]. by apply told_unbound.
      * unfold get_sub. simpl. rewrite lookup_alter_ne by done. apply flow_moved_refl.
    + destruct (decide (peer0 = peer)) as [->|Hne].
      * apply moved_upd. intros l. apply moved1_mut; [by destruct p|]. intros ->.
        specialize (Hok eq_refl eq_refl). apply moved1_same; [by case_match..|].
        by apply told_note.
      * unfold get_sub. simpl. rewrite lookup_alter_ne by done. apply flow_moved_refl.
  - unfold bind_identity. destruct identity as [id|]; [|apply flow_moved_refl].
    case_bool_decide; [apply flow_moved_refl|]. 
    change (get_sub peer p cl) with (get_sub peer p (set_inner (mkInner (cl_counter (inner cl))
      (peers (inner cl)) (claim_ttl (inner cl)) (<[peer0:=id]> (bound (inner cl))) (marks (inner cl))) cl)).
    apply moved_upd. intros l. rewrite !pl_sub_mut.
    assert (forall s, moved1 (cl_gen cl) since s (set_acked
      (match unbound s with Some (id', w) => if bool_decide (id' = id) then w else mkW 0 0
       | None => mkW 0 0 end) None s)) as Hb.
    { intros s. apply moved1_same; [done..|]. intros (? & Hu & ?). split_and!; simpl; [|done..].
      destruct (unbound s) as [[id' w]|]; [|done]. case_bool_decide; [by eapply Hu|done]. }
    destruct p; apply Hb.
  - unfold drain_snapshot. destruct (peers (inner cl) !! peer0) as [l|] eqn:E; [|apply flow_moved_refl].
    destruct (sub_due _ _ _ _) as [ds s] eqn:Es. simpl. unfold get_sub. simpl.
    by_key peer0 peer; [|apply flow_moved_refl]. rewrite ?E. simpl. apply moved1_mut; [done|].
    intros ->. unfold sub_due in Es. destruct (due_collect _ _). simplify_eq.
    by apply moved1_same.
  - apply flow_moved_refl.
  - apply flow_moved_refl.
Qed.

(** The peer's serve tasks, none without a log. *)
Definition tasks (peer : string) (cl : Changelog) : option Z :=
  pl_serving <$> peers (inner cl) !! peer.

Lemma tasks_upd peer peer' f cl :
  (forall l, pl_serving (f l) = pl_serving l) -> tasks peer (upd_peer peer' f cl) = tasks peer cl.
Proof.
  intros Hf. unfold tasks. simpl. by_key peer' peer; [|done].
  destruct (peers (inner cl) !! peer); simpl; [|done]. by rewrite Hf.
Qed.

Lemma pl_serving_mut p f l : pl_serving (sub_mut p f l) = pl_serving l.
Proof. by destruct p. Qed.

Lemma exec_tasks o peer cl :
  match o with
  | OReap _ => tasks peer (cl_exec o cl) = tasks peer cl
               \/ tasks peer (cl_exec o cl) = None /\ forall n, tasks peer cl = Some n -> n <= 0
  | OBumpPut peer' _ _ _ | OBumpDelete peer' _ _ _ _ _ =>
      tasks peer (cl_exec o cl)
      = if bool_decide (peer' = peer) then Some (default 0 (tasks peer cl)) else tasks peer cl
  | OServing peer' _ _ _ =>
      tasks peer (cl_exec o cl)
      = if bool_decide (peer' = peer) then Some (default 0 (tasks peer cl) + 1) else tasks peer cl
  | OServeDrop peer' _ =>
      tasks peer (cl_exec o cl)
      = if bool_decide (peer' = peer) then (fun n => Z.max 0 (n - 1)) <$> tasks peer cl
        else tasks peer cl
  | _ => tasks peer (cl_exec o cl) = tasks peer cl
  end.
Proof.
  assert (forall peer' r op p' st now,
    tasks peer (bump peer' r op p' st now cl).2
    = if bool_decide (peer' = peer) then Some (default 0 (tasks peer cl)) else tasks peer cl) as Hb.
  { intros. unfold tasks, bump. simpl. by_key peer' peer.
    - rewrite bool_decide_eq_true_2, pl_serving_mut by done.
      by destruct (peers (inner cl) !! peer).
    - by rewrite bool_decide_eq_false_2. }
  destruct o; cbn [cl_exec]; try apply Hb; try (apply tasks_upd; intros; by rewrite ?pl_serving_mut).
  - unfold tasks. rewrite reap_lookup. destruct (peers (inner cl) !! peer) as [l|]; simpl; [|by left].
    case_bool_decide; simpl; [by left|]. right. split; [done|]. intros n [= <-]. lia.
  - unfold admits_backup. case_match; [|done]. destruct ((streams _ =? 0) || _); [done|].
    by apply tasks_upd.
  - unfold note_cold_pull. case_match; [done|]. apply tasks_upd. intros. by rewrite !pl_serving_mut.
  - unfold tasks, serving. simpl. by_key peer0 peer.
    + rewrite bool_decide_eq_true_2, pl_serving_mut by done. simpl.
      by destruct (peers (inner cl) !! peer).
    + by rewrite bool_decide_eq_false_2.
  - unfold tasks, serve_drop. simpl. by_key peer0 peer.
    + rewrite bool_decide_eq_true_2 by done. destruct (peers (inner cl) !! peer); simpl; [|done].
      by rewrite pl_serving_mut.
    + by rewrite bool_decide_eq_false_2.
  - unfold note_applied. case_match; [destruct identity; [|done]|]; apply tasks_upd; intros;
      by rewrite pl_serving_mut.
  - unfold bind_identity. destruct identity; [|done]. case_bool_decide; [done|].
    etransitivity; [apply tasks_upd; intros; by rewrite !pl_serving_mut|done].
  - unfold drain_snapshot. case_match; [|done]. destruct (sub_due _ _ _ _). simpl.
    apply tasks_upd. intros. by rewrite pl_serving_mut.
  - done.
  - done.
Qed.

Lemma exec_gen o cl : cl_gen (cl_exec o cl) = cl_gen cl.
Proof.
  destruct o; simpl; try done; unfold admits_backup, note_cold_pull, note_applied, bind_identity,
    drain_snapshot; repeat (case_match; simpl); done.
Qed.

Lemma tasks_sub peer p cl : is_Some (tasks peer cl) <-> is_Some (get_sub peer p cl).
Proof. unfold tasks, get_sub. by rewrite !fmap_is_Some. Qed.

(** ** The record grows *)

(** The last writes after an operation: those before it, and new ones above
    the counter. *)
Definition grows (n : Z) (h h' : history) : Prop :=
  forall r w, last_write h' r = Some w -> last_write h r = Some w \/ n < w_counter w.

Lemma grows_refl n h : grows n h h.
Proof. intros r w Hw. by left. Qed.

Lemma exec_grows o cl H peer p :
  grows (cl_counter (inner cl)) (standing (H peer p)) (standing (hist_exec o cl H peer p)).
Proof.
  assert (forall c t w, w_counter w = c + 1 -> grows c (standing t) (standing (Wrote w :: t))) as Hw.
  { intros c t w Hc r w'. simpl. rewrite last_write_cons. case_bool_decide; [|by left].
    intros [= <-]. right. lia. }
  unfold hist_exec. destruct o; simpl; try apply grows_refl.
  - destruct (_ && _); [by apply Hw|apply grows_refl].
  - destruct (_ && _); [by apply Hw|apply grows_refl].
  - destruct (_ && _); [|apply grows_refl]. intros r' w. simpl. rewrite last_write_forget.
    case_bool_decide; [done|by left].
  - repeat case_match; apply grows_refl.
Qed.

Lemma in_sync_grows n from missed h h' m pos :
  grows n h h' -> pos <= n -> in_sync from missed h m pos -> in_sync from missed h' m pos.
Proof.
  intros Hg Hn Hm r w Hw Hp. destruct (Hg r w Hw) as [Hw'|Hgt]; [by apply Hm|lia].
Qed.

Lemma in_sync_missed from missed missed' h m pos :
  missed ⊆ missed' -> in_sync from missed h m pos -> in_sync from missed' h m pos.
Proof.
  intros Hs Hm r w Hw Hp. specialize (Hm r w Hw Hp). unfold agrees in *.
  case_match; [done|]. destruct Hm as [?|[? ?]]; auto.
Qed.

(** ** The frames on their way *)

(** The frames [fs], applied in order from [m] at [pos], keep the replica in
    step at the position of each, and at [hi] behind the last. *)
Fixpoint chain (g : Z) (S : gmap string Z -> Z -> Prop) (m : gmap string Z) (pos : Z)
    (fs : list Frame) (hi : Z) : Prop :=
  match fs with
  | [] => pos <= hi /\ S m hi
  | f :: fs =>
      match f with FData _ _ _ _ _ _ _ _ _ _ _ _ | FNoop _ => True | _ => False end
      /\ gen (frame_at f) = g /\ pos <= counter (frame_at f)
      /\ S (apply_frame m f) (counter (frame_at f))
      /\ chain g S (apply_frame m f) (counter (frame_at f)) fs hi
  end.

Lemma chain_le g S m pos fs hi : chain g S m pos fs hi -> pos <= hi.
Proof.
  revert m pos. induction fs as [|f fs IH]; intros m pos; simpl; [by intros [? _]|].
  intros (_ & _ & Hle & _ & Hc). apply IH in Hc. lia.
Qed.

Lemma chain_impl g (S S' : gmap string Z -> Z -> Prop) m pos fs hi :
  (forall m pos, pos <= hi -> S m pos -> S' m pos) -> chain g S m pos fs hi -> chain g S' m pos fs hi.
Proof.
  intros HS. revert m pos. induction fs as [|f fs IH]; intros m pos; simpl.
  - intros [? ?]. split; [done|]. apply HS; [lia|done].
  - intros (Hf & Hg & Hle & Hs & Hc). pose proof (chain_le _ _ _ _ _ _ Hc).
    split_and!; [done..| |by apply IH]. by apply HS.
Qed.

Lemma chain_end g S m pos fs hi : chain g S m pos fs hi -> S (foldl apply_frame m fs) hi.
Proof.
  revert m pos. induction fs as [|f fs IH]; intros m pos; simpl; [by intros [_ ?]|].
  intros (_ & _ & _ & _ & Hc). by apply IH in Hc.
Qed.

(** One more frame behind the last. *)
Lemma chain_snoc g S m pos fs hi f :
  chain g S m pos fs hi ->
  match f with FData _ _ _ _ _ _ _ _ _ _ _ _ | FNoop _ => True | _ => False end ->
  gen (frame_at f) = g -> hi <= counter (frame_at f) ->
  S (apply_frame (foldl apply_frame m fs) f) (counter (frame_at f)) ->
  chain g S m pos (fs ++ [f]) (counter (frame_at f)).
Proof.
  intros Hc Hf Hg Hle Hs. revert m pos Hc Hs. induction fs as [|f' fs IH]; intros m pos; simpl.
  - intros [? _] Hs. split_and!; [done..|lia|done|lia|done].
  - intros (? & ? & ? & ? & Hc) Hs. split_and!; [done..|]. by apply IH.
Qed.

(** A frame of a reference written again since may be left out. *)
Lemma chain_without g (S : gmap string Z -> Z -> Prop) r hi :
  (forall m m' pos, (forall r', r' <> r -> m !! r' = m' !! r') -> pos <= hi -> S m pos -> S m' pos) ->
  forall fs m m' pos pos', (forall r', r' <> r -> m !! r' = m' !! r') -> pos' <= pos ->
  chain g S m pos fs hi -> chain g S m' pos' fs hi.
Proof.
  intros HS fs. induction fs as [|f fs IH]; intros m m' pos pos' Hm Hp; simpl.
  - intros [? ?]. split; [lia|]. apply (HS m); [done|lia|done].
  - intros (Hf & Hg & Hle & Hs & Hc). pose proof (chain_le _ _ _ _ _ _ Hc).
    assert (forall r', r' <> r -> apply_frame m f !! r' = apply_frame m' f !! r') as Hm'.
    { intros r' Hr. specialize (Hm r' Hr). destruct f; simpl; try done.
      destruct (is_delete op); destruct (decide (call_ref = r')) as [->|]; by simplify_map_eq. }
    split_and!; [done..|lia| |].
    + apply (HS (apply_frame m f)); done.
    + apply (IH (apply_frame m f) _ (counter (frame_at f))); [done|lia|done].
Qed.

Lemma chain_drop g (S : gmap string Z -> Z -> Prop) r hi m pos fs f us :
  (forall m m' pos, (forall r', r' <> r -> m !! r' = m' !! r') -> pos <= hi -> S m pos -> S m' pos) ->
  (forall m r', r' <> r -> apply_frame m f !! r' = m !! r') ->
  chain g S m pos (fs ++ f :: us) hi -> chain g S m pos (fs ++ us) hi.
Proof.
  intros HS Hf. revert m pos. induction fs as [|f' fs IH]; intros m pos; simpl.
  - intros (_ & _ & Hle & _ & Hc).
    apply (chain_without g S r hi HS us (apply_frame m f) m (counter (frame_at f)) pos); auto.
  - intros (? & ? & ? & ? & Hc). split_and!; [done..|]. by apply IH.
Qed.

(** ** The entries drained *)

(** From the position [lo] the drained entries [ds] miss no last write, and
    each is at or below the last write of its reference. *)
Fixpoint drained (n : Z) (h : history) (lo : Z) (ds : list Due) : Prop :=
  match ds with
  | [] => True
  | d :: ds =>
      lo < d_counter d <= n
      /\ (forall r w, last_write h r = Some w -> lo < w_counter w <= d_counter d ->
            r = d_ref d /\ w_counter w = d_counter d /\ w_op w = d_op d)
      /\ (forall w, last_write h (d_ref d) = Some w -> d_counter d <= w_counter w)
      /\ drained n h (d_counter d) ds
  end.

Lemma drained_grows n n' h h' lo ds :
  n <= n' -> grows n h h' -> drained n h lo ds -> drained n' h' lo ds.
Proof.
  intros Hn Hg. revert lo. induction ds as [|d ds IH]; intros lo; simpl; [done|].
  intros (Hd & Hall & Hlast & Hr). split_and!; [lia|lia| | |by apply IH].
  - intros r w Hw Hc. destruct (Hg r w Hw) as [Hw'|]; [by apply Hall|lia].
  - intros w Hw. destruct (Hg _ w Hw) as [Hw'|]; [by apply Hlast|lia].
Qed.

(** An entry whose reference was deleted since its put may be left out. *)
Lemma drained_skip n h lo d ds :
  drained n h lo (d :: ds) ->
  (forall w, last_write h (d_ref d) = Some w -> w_op w <> d_op d) -> drained n h lo ds.
Proof.
  intros (Hd & Hall & _ & Hr) Hne. destruct ds as [|d' ds]; [done|]. simpl in *.
  destruct Hr as (Hd' & Hall' & ? & ?). split_and!; [lia|lia| |done..].
  intros r w Hw Hc. destruct (Z.le_gt_cases (w_counter w) (d_counter d)).
  - destruct (Hall r w Hw) as (-> & _ & Ho); [lia|]. by apply Hne in Hw.
  - apply Hall'; [done|lia].
Qed.

(** A snapshot above [lo] drains so, the floor at or below [lo]. *)
Lemma drained_snapshot n t s lo limit :
  log_rel n t s -> retained_floor s <= lo ->
  drained n (standing t) lo (sub_due lo false limit s).1.
Proof.
  intros Hl Hfl. pose proof (lr_live _ _ _ Hl) as Hs. unfold sub_due.
  pose proof (due_collect_spec (firstn limit (bt_above lo (entries s))) (by_ref s) (by_ref s)
                (same_refs_refl _)) as Hd.
  destruct (due_collect _ _) as [ds m]. simpl in *. subst ds.
  assert (keys_sorted (bt_above lo (entries s))) as Hk by (apply sorted_filter, Hs).
  assert (forall q q', q ∈ entries s -> lo < q.1 -> q' ∈ firstn limit (bt_above lo (entries s)) ->
    q.1 <= q'.1 -> q ∈ firstn limit (bt_above lo (entries s))) as Hcl.
  { intros q q' Hq Hlo Hq' Hle.
    assert (q ∈ bt_above lo (entries s)) as Hin by (by apply elem_of_bt_above).
    rewrite <-(take_drop limit (bt_above lo (entries s))) in Hin, Hk.
    apply elem_of_app in Hin as [?|Hin]; [done|].
    pose proof (StronglySorted_app_1_elem_of _ _ _ _ _ Hk Hq' Hin). simpl in *. lia. }
  assert (Forall (fun q => q ∈ entries s /\ lo < q.1) (firstn limit (bt_above lo (entries s)))) as Hall.
  { apply Forall_forall. intros q Hq. apply elem_of_take in Hq as (i & Hi & _).
    by apply list_elem_of_lookup_2, elem_of_bt_above in Hi. }
  apply (keys_sorted_take limit) in Hk.
  set (l := firstn limit _) in *. clearbody l.
  revert lo Hfl Hcl Hall. induction Hk as [|[c r] l Hk IH Hc]; intros lo Hfl Hcl Hall; [done|].
  apply Forall_cons in Hall as [[Hin Hlo] Hall]. simpl in Hlo.
  pose proof Hin as (st & Hst & Hsc)%(sr_entry _ _ _ Hs). simpl. rewrite Hst. simpl.
  assert (forall r' w, last_write (standing t) r' = Some w -> lo < w_counter w <= c ->
    r' = r /\ w_counter w = c /\ w_op w = st_op st) as Hone.
  { intros r' w Hw Hb. pose proof (standing_entry _ _ _ _ _ Hl Hw) as He.
    destruct (by_ref s !! r') as [st'|] eqn:E'; [|lia]. destruct He as [He Ho].
    assert ((w_counter w, r') ∈ (c, r) :: l) as Hel.
    { apply (Hcl _ (c, r)); [apply Hs; by exists st'|simpl; lia|by left|simpl; lia]. }
    apply elem_of_cons in Hel as [[= Hwc ->]|Hel].
    - assert (st' = st) as -> by congruence. split_and!; congruence.
    - rewrite Forall_forall in Hc. apply Hc in Hel. simpl in Hel. lia. }
  split_and!; [done| |done| |].
  - pose proof (sub_rel_entry_bounds _ _ _ _ _ Hs Hin). destruct (sr_head _ _ _ Hs). lia.
  - intros w Hw. pose proof (standing_entry _ _ _ _ _ Hl Hw) as He. rewrite Hst in He. lia.
  - apply IH; [lia| |].
    + intros q q' Hq Hcq Hq' Hle.
      assert (q ∈ (c, r) :: l) as [->|?]%elem_of_cons; [|simpl in Hcq; lia|done].
      apply (Hcl q q'); [done|lia|by right|done].
    + rewrite Forall_forall in Hc, Hall |- *. intros q Hq. split; [by apply Hall|by apply Hc].
Qed.

(** ** One entry read *)

Lemma drain_one_at g peer p w d f :
  drain_one g peer p w d = Some f -> frame_at f = mkW g (d_counter d).
Proof.
  unfold drain_one. destruct (is_delete (d_op d)); [by intros [= <-]|].
  destruct (w_entry w (d_ref d)) as [[b m]|]; [by intros [= <-]|].
  destruct (current _ _ _ _) as [[[] ?]|]; [by intros [= <-]|done|by intros [= <-]].
Qed.

(** An entry left out is a put whose body is gone, a delete of it recorded. *)
Lemma drain_one_skipped g peer p w d :
  drain_one g peer p w d = None ->
  d_op d = Put /\ exists a, current peer p (d_ref d) (w_log w) = Some (Delete, a).
Proof.
  unfold drain_one. destruct (d_op d) eqn:Ho; simpl; [|done].
  destruct (w_entry w (d_ref d)) as [[b m]|]; [done|].
  destruct (current _ _ _ _) as [[[] ?]|]; try done. eauto.
Qed.

(** Applying the frame of an entry. *)
Lemma apply_read g peer p w d f m :
  drain_one g peer p w d = Some f ->
  apply_frame m f = if is_put (d_op d) && bool_decide (is_Some (w_entry w (d_ref d)))
                    then <[d_ref d := d_counter d]> m else delete (d_ref d) m.
Proof.
  unfold drain_one, is_put. destruct (is_delete (d_op d)); [by intros [= <-]|]. simpl.
  destruct (w_entry w (d_ref d)) as [[b m']|].
  - rewrite bool_decide_eq_true_2 by eauto. by intros [= <-].
  - rewrite bool_decide_eq_false_2 by (by intros []).
    destruct (current _ _ _ _) as [[[] ?]|]; [by intros [= <-]|done|by intros [= <-]].
Qed.

(** The replica behind the frame of the first entry drained. *)
Lemma in_sync_read g peer p wd d f n from missed h m hi ds :
  drain_one g peer p wd d = Some f -> drained n h hi (d :: ds) ->
  (is_put (d_op d) = true -> w_entry wd (d_ref d) = None -> (d_ref d, d_counter d) ∈ missed) ->
  in_sync from missed h m hi -> in_sync from missed h (apply_frame m f) (d_counter d).
Proof.
  intros Hd (Hdc & Hone & Hlast & _) Hmi Hm r w Hw Hp. rewrite (apply_read _ _ _ _ _ _ _ Hd).
  destruct (Z.le_gt_cases (w_counter w) hi) as [Hle|Hgt].
  - assert (d_ref d <> r) as Hne.
    { intros <-. apply Hlast in Hw. lia. }
    specialize (Hm r w Hw ltac:(lia)). unfold agrees in *.
    by destruct (_ && _); simplify_map_eq.
  - destruct (Hone r w Hw) as (-> & Hc & Ho); [lia|]. unfold agrees. rewrite Hc, Ho. unfold is_put in *.
    destruct (is_delete (d_op d)); simpl in *; [by simplify_map_eq|].
    case_bool_decide as He; simplify_map_eq; [by left|]. right. split; [done|]. apply Hmi; [done|].
    by apply eq_None_not_Some.
Qed.

(** ** The invariant *)

(** The position of the last frame read. *)
Definition end_pos (w : Z) (us : list Frame) : Z :=
  match last us with Some f => counter (frame_at f) | None => w end.

Lemma end_pos_cons w f us : end_pos w (f :: us) = end_pos (counter (frame_at f)) us.
Proof. unfold end_pos. rewrite last_cons. by destruct (last us). Qed.

Lemma end_pos_snoc w us f : end_pos w (us ++ [f]) = counter (frame_at f).
Proof. unfold end_pos. by rewrite last_snoc. Qed.

Lemma told_mono since since' s : w_leb since since' = true -> told since s -> told since' s.
Proof. intros Hle (? & Hu & Ha). split_and!; eauto using w_leb_trans. Qed.

Section invariant.
Context (peer : string) (p : Partition) (g : Z) (Hg : 0 < g).

Notation count s := (cl_counter (inner (s_log s))).
Notation history_of s := (standing (flow_record peer p s)).
Notation the_sub s := (get_sub peer p (s_log s)).

Definition synced (s : System) : gmap string Z -> Z -> Prop :=
  in_sync (s_from s) (s_missed s) (history_of s).

(** Where the flow's frames start: the puller's position, or the counter it
    joins at. *)
Definition base (s : System) : Z :=
  if gen (s_since s) =? g then counter (s_since s) else s_from s.

Definition flow_inv (s : System) (fl : Flow) : Prop :=
  let hi := end_pos (cursor fl) (unsent fl) in
  s_since s <> mkW 0 0
  /\ (exists sub, the_sub s = Some sub /\ (gen (s_since s) < g -> s_from s = opened sub)
        /\ retained_floor sub <= base s)
  /\ hi <= count s
  /\ chain g (synced s) (s_replica s) (base s) (wire fl ++ unsent fl) hi
  /\ drained (count s) (history_of s) hi (unread fl).

Definition core_inv (s : System) : Prop :=
  cl_rel (s_hist s) (s_log s)
  /\ cl_gen (s_log s) = g
  /\ w_leb (mkW 0 0) (s_since s) = true
  /\ (gen (s_since s) < g \/ gen (s_since s) = g /\ counter (s_since s) <= count s)
  /\ (gen (s_since s) = g -> synced s (s_replica s) (counter (s_since s)))
  /\ (s_since s <> mkW 0 0 -> forall sub, the_sub s = Some sub ->
        told (s_since s) sub /\ (gen (s_since s) < g -> retained_floor sub <= opened sub))
  /\ (forall fl, s_flow s = Some fl -> flow_inv s fl).

(** The peer's log counts its serve tasks, so a stream keeps it. *)
Definition tasks_inv (s : System) : Prop :=
  match tasks peer (s_log s) with
  | Some k => k = Z.of_nat (s_others s) + (if s_flow s then 1 else 0)
  | None => s_others s = O /\ s_flow s = None
  end.

Definition sys_inv (s : System) : Prop := core_inv s /\ tasks_inv s.

Lemma core_logged o s :
  core_inv s -> count s < u64_MAX -> report_ok peer p (s_since s) o ->
  (s_flow s <> None -> is_Some (the_sub (logged o s))) -> core_inv (logged o s).
Proof.
  intros (Hr & Hge & Hz & Hsi & Hsy & Hsub & Hfl) Hmax Hok Hkeep.
  pose proof (exec_moved _ peer p _ o _ Hr Hz Hok) as Hmv. rewrite Hge in Hmv.
  pose proof (exec_grows o (s_log s) (s_hist s) peer p) as Hgr.
  assert (count s <= count (logged o s)) as Hc.
  { destruct Hr as [Hn _]. simpl. pose proof (cl_exec_counter o (s_log s)). lia. }
  assert (forall m pos, pos <= count s -> synced s m pos -> synced (logged o s) m pos) as Hsm.
  { intros m pos. by apply in_sync_grows. }
  unfold core_inv. split_and!.
  - by apply cl_rel_exec.
  - simpl. by rewrite exec_gen.
  - done.
  - destruct Hsi as [?|[? ?]]; [by left|right; split; [done|]]. etransitivity; [done|apply Hc].
  - intros Hgs. apply Hsm; [destruct Hsi as [?|[_ ?]]; [simpl in Hgs; lia|done]|by apply Hsy].
  - intros Hnz sub Hs'. simpl in Hs'. rewrite Hs' in Hmv.
    destruct (the_sub s) as [s0|] eqn:E; simpl in Hmv.
    + destruct Hmv as (Ho & Hf & Ht). destruct (Hsub Hnz s0 eq_refl) as [Htold Hlow].
      split; [by apply Ht|]. intros Hlt. specialize (Hlow Hlt). destruct Htold as [Hack _].
      apply w_leb_spec in Hack. simpl in Hlt. destruct (Z.eqb_spec (gen (acked s0)) g); lia.
    + destruct Hmv as [Hf Ht]. split; [done|]. intros _. lia.
  - intros fl Hf. destruct (Hfl fl Hf) as (Hnz & (sub & Hs0 & Hfrom & Hflo) & Hend & Hch & Hdr).
    destruct Hkeep as [sub' Hs']; [simpl in Hf; by rewrite Hf|]. simpl in Hs'.
    rewrite Hs0, Hs' in Hmv. destruct Hmv as (Ho & Hfl' & _).
    destruct (Hsub Hnz sub Hs0) as [[Hack _] _]. apply w_leb_spec in Hack.
    split_and!; [done| |lia| |].
    + exists sub'. rewrite Ho. split_and!; [done..|]. change (base (logged o s)) with (base s).
      unfold base in *. destruct (Z.eqb_spec (gen (acked sub)) g), (Z.eqb_spec (gen (s_since s)) g); lia.
    + apply (chain_impl g (synced s)); [|done]. intros m pos Hp. apply Hsm. lia.
    + by eapply drained_grows.
Qed.

(** A stream has its log. *)
Lemma tasks_flow s : tasks_inv s -> s_flow s <> None -> is_Some (the_sub s).
Proof.
  unfold tasks_inv. intros Ht Hf. apply tasks_sub. destruct (tasks peer (s_log s)); [by eexists|].
  by destruct Ht.
Qed.

Lemma tasks_logged o s :
  tasks_inv s ->
  match o with
  | OServing peer' _ _ _ | OServeDrop peer' _ => peer' <> peer
  | _ => True
  end -> tasks_inv (logged o s).
Proof.
  unfold tasks_inv. intros Ht Ho. simpl. pose proof (exec_tasks o peer (s_log s)) as He.
  destruct o; try (rewrite He; exact Ht).
  - rewrite He. case_bool_decide; [|done]. destruct (tasks peer (s_log s)); [done|].
    by destruct Ht as [-> ->].
  - rewrite He. case_bool_decide; [|done]. destruct (tasks peer (s_log s)); [done|].
    by destruct Ht as [-> ->].
  - destruct He as [->|[-> Hle]]; [done|]. destruct (tasks peer (s_log s)) as [k|]; [|done].
    specialize (Hle k eq_refl). destruct (s_flow s); [lia|]. split; [lia|done].
  - rewrite He, bool_decide_eq_false_2 by done. done.
  - rewrite He, bool_decide_eq_false_2 by done. done.
Qed.

Lemma tasks_serving p' now inst s :
  tasks_inv s ->
  tasks peer (cl_exec (OServing peer p' now inst) (s_log s))
  = Some (Z.of_nat (s_others s) + (if s_flow s then 1 else 0) + 1).
Proof.
  unfold tasks_inv. intros Ht.
  pose proof (exec_tasks (OServing peer p' now inst) peer (s_log s)) as ->.
  rewrite bool_decide_eq_true_2 by done.
  destruct (tasks peer (s_log s)); simpl; [by rewrite Ht|]. by destruct Ht as [-> ->].
Qed.

Lemma tasks_drop p' s k :
  tasks peer (s_log s) = Some k -> tasks peer (cl_exec (OServeDrop peer p') (s_log s)) = Some (Z.max 0 (k - 1)).
Proof.
  intros Ht. pose proof (exec_tasks (OServeDrop peer p') peer (s_log s)) as ->.
  rewrite bool_decide_eq_true_2 by done. by rewrite Ht.
Qed.

(** An operation that leaves the peer's serve tasks alone. *)
Lemma inv_logged o s :
  sys_inv s -> count s < u64_MAX -> report_ok peer p (s_since s) o ->
  match o with
  | OServing peer' _ _ _ | OServeDrop peer' _ => peer' <> peer
  | _ => True
  end -> sys_inv (logged o s).
Proof.
  intros [Hc Ht] Hmax Hok Ho. pose proof (tasks_logged o s Ht Ho) as Ht'. split; [|done].
  apply core_logged; [done..|]. intros Hf. by apply tasks_flow.
Qed.

Lemma inv_other o s : sys_inv s -> count s < u64_MAX -> sys_inv (other_op peer p o s).
Proof.
  intros Hi Hmax. pose proof Hi as [Hc Ht]. destruct o; try by apply inv_logged.
  - simpl. case_bool_decide as Hp; [subst peer0|by apply inv_logged].
    pose proof (tasks_serving p0 now_ms inst s Ht) as Ht'. split.
    + change (core_inv (logged (OServing peer p0 now_ms inst) s)). apply core_logged; [done..|].
      intros _. apply tasks_sub. by eexists.
    + unfold tasks_inv. cbn [logged set_others s_log s_others s_flow]. rewrite Ht'. lia.
  - simpl. case_bool_decide as Hp; [subst peer0|by apply inv_logged].
    destruct (s_others s) as [|k] eqn:Eo; [done|]. unfold tasks_inv in Ht.
    destruct (tasks peer (s_log s)) as [j|] eqn:Et; [|by destruct Ht; congruence].
    pose proof (tasks_drop p0 s j Et) as Ht'. split.
    + change (core_inv (logged (OServeDrop peer p0) s)). apply core_logged; [done..|].
      intros _. apply tasks_sub. by eexists.
    + unfold tasks_inv. cbn [logged set_others s_log s_others s_flow]. rewrite Ht'.
      destruct (s_flow s); lia.
  - simpl. destruct (_ && negb _) eqn:E; [done|]. apply inv_logged; [done..| |done].
    intros -> ->. rewrite !bool_decide_eq_true_2 in E by done. by destruct (w_leb at_ (s_since s)).
Qed.

(** ** The stream's steps *)

Lemma tasks_stream f f' s :
  tasks_inv s -> s_flow s = Some f -> tasks_inv (set_stream (Some f') s).
Proof.
  unfold tasks_inv. cbn [set_stream s_log s_others s_flow]. intros Ht Ef. rewrite Ef in Ht.
  destruct (tasks peer (s_log s)); [done|]. by destruct Ht.
Qed.

Lemma stream_open_inv now inst s : sys_inv s -> count s < u64_MAX -> sys_inv (open_flow peer p now inst s).
Proof.
  intros [Hc Ht] Hmax. unfold open_flow. destruct (s_flow s) eqn:Ef; [done|].
  case_bool_decide as Hz; [done|].
  pose proof (tasks_serving p now inst s Ht) as Ht1. rewrite Ef in Ht1.
  assert (core_inv (logged (OServing peer p now inst) s)) as Hc1.
  { apply core_logged; [done..|]. by rewrite Ef. }
  assert (exists sub, the_sub (logged (OServing peer p now inst) s) = Some sub) as [sub Hsub].
  { apply tasks_sub. by eexists. }
  pose proof Hc1 as (Hr & Hge & Hzs & Hsi & Hsy & Hall & _).
  destruct (needs_reset _ _ _ _) eqn:Hnr.
  - pose proof (tasks_drop p (logged (OServing peer p now inst) s) _ Ht1) as Ht2. split.
    + assert (core_inv (logged (OServeDrop peer p) (logged (OServing peer p now inst) s))) as Hc2.
      { apply core_logged; [done|exact Hmax|done|]. cbn [logged s_flow]. by rewrite Ef. }
      destruct Hc2 as (Hr2 & Hge2 & _). split_and!; try done; cbn; [lia|lia|by rewrite Ef].
    + unfold tasks_inv. cbn [set_puller logged s_log s_others s_flow] in *. rewrite Ht2, Ef. lia.
  - specialize (Hall Hz sub Hsub) as [Htold Hlow]. pose proof (cl_rel_get _ _ _ _ _ Hr Hsub) as [Hs _].
    destruct (sr_floor _ _ _ Hs) as [Hfl Hfn].
    destruct (Z.ltb_spec (gen (s_since s)) (cl_gen (s_log (logged (OServing peer p now inst) s))))
      as [Hlt|Hge'].
    + rewrite Hge in Hlt. unfold opened_at. rewrite Hsub.
      match goal with |- context [counter ?x] => change (counter x) with (opened sub) end.
      split; [|unfold tasks_inv; cbn [set_puller set_stream logged s_log s_others s_flow] in *;
               rewrite Ht1; lia].
      split_and!; try done.
      * intros Heq. cbn in Heq. lia.
      * intros _ sub' Hs'. cbn [set_puller set_stream s_log] in Hs'.
        assert (sub' = sub) as -> by congruence. done.
      * intros fl [= <-]. unfold flow_inv, base. cbn [set_puller set_stream s_since s_from cursor unsent unread wire].
        destruct (Z.eqb_spec (gen (s_since s)) g); [lia|].
        split_and!; [done| |exact (Z.le_trans _ _ _ (proj2 Hfl) Hfn)| |done].
        -- exists sub. split_and!; [done..|]. by apply Hlow.
        -- split; [exact (Z.le_refl _)|]. intros r w _ Hw. exfalso.
           change (opened sub < w_counter w <= opened sub) in Hw. lia.
    + rewrite Hge in Hge'. destruct Hsi as [Hsi|[Hsi Hle]]; [cbn in Hsi; lia|].
      cbn [logged s_since] in Hsi, Hle.
      split; [|unfold tasks_inv; cbn [set_stream logged s_log s_others s_flow] in *; rewrite Ht1; lia].
      assert (retained_floor sub <= counter (s_since s)) as Hf.
      { unfold needs_reset in Hnr. rewrite Hge, Hsi, Z.ltb_irrefl in Hnr. unfold get_sub in Hsub.
        apply fmap_Some in Hsub as (log & Hlog & ->). rewrite Hlog in Hnr.
        destruct (_ <? counter (s_since s)); [done|]. by zbool. }
      destruct Hc1 as (? & ? & ? & ? & ? & ? & _). split_and!; try done.
      intros fl [= <-]. unfold flow_inv, base. cbn [set_stream s_since s_from cursor unsent unread wire logged].
      rewrite Hsi, Z.eqb_refl. split_and!; [done| |done| |done].
      * exists sub. split_and!; [done|lia|done].
      * split; [exact (Z.le_refl _)|]. by apply Hsy.
Qed.

Lemma stream_drain_inv limit s : sys_inv s -> count s < u64_MAX -> sys_inv (drain_tail peer p limit s).
Proof.
  intros Hi Hmax. unfold drain_tail. destruct (s_flow s) as [[w [|] [|] fs]|] eqn:Ef; try done.
  set (at_ := mkW _ _).
  pose proof (inv_logged (ODrain peer p at_ limit) s Hi Hmax I I) as [Hc' Ht'].
  destruct Hi as [Hc Ht]. pose proof Hc as (Hr & Hge & _ & _ & _ & _ & Hfl).
  pose proof (Hfl _ Ef) as (_ & (sub & Hsub & _ & Hflo) & _ & Hch & _).
  pose proof (chain_le _ _ _ _ _ _ Hch) as Hle. cbn in Hle.
  destruct Hc' as (? & ? & ? & ? & ? & ? & Hfl').
  destruct (Hfl' _ Ef) as (? & ? & ? & ? & _).
  split; [|by eapply tasks_stream].
  split_and!; try done. intros fl [= <-]. split_and!; try done.
  cbn [unread cursor unsent]. apply (drained_grows (count s) _ (history_of s)).
  - cbn [set_stream s_log]. destruct Hr as [? _]. apply cl_exec_counter. lia.
  - apply grows_refl.
  - pose proof (drained_snapshot _ _ _ w limit (cl_rel_get _ _ _ _ _ Hr Hsub)) as Hd.
    unfold drain_snapshot. unfold get_sub in Hsub. apply fmap_Some in Hsub as (log & Hlog & ->).
    rewrite Hlog. cbn [counter gen at_]. rewrite Z.ltb_irrefl.
    destruct (sub_due w false limit (pl_sub p log)). simpl in *. apply Hd. lia.
Qed.

Lemma stream_read_inv entry now s : sys_inv s -> sys_inv (read_next peer p entry now s).
Proof.
  intros [Hc Ht]. unfold read_next.
  destruct (s_flow s) as [[w [|d ds] us fs]|] eqn:Ef; try done.
  pose proof Hc as (Hr & Hge & Hz & Hsi & Hsy & Hall & Hfl).
  destruct (Hfl _ Ef) as (Hnz & Hsub & Hend & Hch & Hdr).
  cbn [cursor unread unsent wire] in Hend, Hch, Hdr. set (hi := end_pos w us) in *.
  destruct (drain_one _ _ _ _ d) as [f|] eqn:Hd.
  - set (missed := if is_put (d_op d) then _ else _).
    assert (s_missed s ⊆ missed) as Hms.
    { unfold missed. repeat case_match; set_solver. }
    assert (forall m pos, synced s m pos -> synced (set_missed missed s) m pos) as Hsm.
    { intros m pos. by apply in_sync_missed. }
    split; [|by apply (tasks_stream _ (mkFlow w ds (us ++ [f]) fs) s Ht Ef)].
    split_and!; try done; [intros Heq; by apply Hsm, Hsy|].
    intros fl [= <-]. pose proof Hdr as (Hdc & _ & _ & Hrest).
    pose proof (drain_one_at _ _ _ _ _ _ Hd) as Hat.
    unfold flow_inv. cbn [cursor unread unsent wire]. rewrite end_pos_snoc, Hat. cbn [counter].
    split_and!; [done|done|exact (proj2 Hdc)| |done].
    rewrite (assoc_L (++)).
    replace (d_counter d) with (counter (frame_at f)) by (by rewrite Hat).
    apply (chain_snoc g _ _ _ _ hi).
    + apply (chain_impl g (synced s)); [|done]. intros m pos _. apply Hsm.
    + unfold drain_one in Hd. repeat case_match; by simplify_eq.
    + by rewrite Hat.
    + rewrite Hat. simpl. lia.
    + rewrite Hat. cbn [counter]. apply chain_end, Hsm in Hch.
      eapply in_sync_read; [done|done| |done]. unfold missed. cbn [w_entry].
      intros -> ->. by left.
  - split; [|by eapply tasks_stream]. split_and!; try done. intros fl [= <-].
    split_and!; try done. cbn [cursor unread unsent]. eapply drained_skip; [done|].
    intros w' Hw'. pose proof (drain_one_skipped _ _ _ _ _ Hd) as (Ho & a & Hcur).
    rewrite Ho. unfold current in Hcur. cbn [w_log] in Hcur.
    destruct (the_sub s) as [sub|] eqn:Es; [|done]. simpl in Hcur.
    destruct (by_ref sub !! d_ref d) as [st'|] eqn:Eb; [|done]. simpl in Hcur.
    pose proof (standing_entry _ _ _ _ _ (cl_rel_get _ _ _ _ _ Hr Es) Hw') as Hse.
    rewrite Eb in Hse. destruct Hse as [_ Hse]. congruence.
Qed.

Lemma stream_send_inv s : sys_inv s -> sys_inv (send_next s).
Proof.
  intros [Hc Ht]. unfold send_next.
  destruct (s_flow s) as [[w [|] [|f us] fs]|] eqn:Ef; try done.
  pose proof Hc as (? & ? & ? & ? & ? & ? & Hfl).
  destruct (Hfl _ Ef) as (Hnz & Hsub & Hend & Hch & Hdr).
  cbn [cursor unread unsent wire] in Hend, Hch. rewrite end_pos_cons in Hend, Hch.
  split; [|by eapply tasks_stream]. split_and!; try done. intros fl [= <-].
  unfold flow_inv. cbn [cursor unread unsent wire]. rewrite <-(assoc_L (++)). by split_and!.
Qed.

Lemma stream_noop_inv s : sys_inv s -> sys_inv (send_noop s).
Proof.
  intros [Hc Ht]. unfold send_noop.
  destruct (s_flow s) as [[w [|] [|] fs]|] eqn:Ef; try done.
  pose proof Hc as (? & Hge & ? & ? & ? & ? & Hfl).
  destruct (Hfl _ Ef) as (Hnz & Hsub & Hend & Hch & Hdr).
  cbn [cursor unread unsent wire] in Hend, Hch. rewrite app_nil_r in Hch.
  split; [|by eapply tasks_stream]. split_and!; try done. intros fl [= <-].
  split_and!; try done. cbn [cursor unread unsent wire]. rewrite app_nil_r, Hge.
  change (end_pos w []) with (counter (frame_at (FNoop (mkW g w)))).
  apply (chain_snoc g _ _ _ _ w); [done..|]. by apply chain_end in Hch.
Qed.

Lemma stream_apply_inv s : sys_inv s -> sys_inv (apply_next s).
Proof.
  intros [Hc Ht]. unfold apply_next.
  destruct (s_flow s) as [[w ds us [|f fs]]|] eqn:Ef; try done.
  pose proof Hc as (Hr & Hge & Hz & Hsi & Hsy & Hall & Hfl).
  destruct (Hfl _ Ef) as (Hnz & (sub & Hsub & Hfrom & Hflo) & Hend & Hch & Hdr).
  cbn [cursor unread unsent wire] in Hend, Hch. cbn [app chain] in Hch.
  destruct Hch as (Hk & Hfg & Hle & Hs & Hch). pose proof (chain_le _ _ _ _ _ _ Hch) as Hlast.
  assert (watermark_after (s_since s) f = frame_at f
    /\ w_leb (s_since s) (frame_at f) = true) as [Hwm Hmono].
  { assert (w_leb (s_since s) (frame_at f) = true) as Hm.
    { apply w_leb_spec. unfold base in Hle. destruct (Z.eqb_spec (gen (s_since s)) g); lia. }
    split; [|done]. destruct f; simpl in *; try done. destruct (w_ltb (s_since s) at_) eqn:E; [done|].
    rewrite w_leb_total in Hm. destruct (w_ltb at_ (s_since s)) eqn:E'; [done|].
    apply not_true_iff_false in E, E'. rewrite w_ltb_spec in E, E'.
    destruct (s_since s), at_; simpl in *. f_equal; lia. }
  rewrite Hwm. split; [|by apply (tasks_stream _ (mkFlow w ds us fs) s Ht Ef)].
  assert (frame_at f <> mkW 0 0) as Hnz'.
  { intros Heq. rewrite Heq in Hfg. simpl in Hfg. lia. }
  split_and!; try done.
  - cbn [set_puller s_since]. by eapply w_leb_trans.
  - right. cbn [set_puller s_since s_log set_stream]. split; [done|lia].
  - intros _ sub' Hs'. cbn [set_puller set_stream s_log s_since] in *.
    split; [|lia]. eapply told_mono; [done|]. by apply Hall.
  - intros fl [= <-]. split_and!; try done.
    + exists sub. unfold base. cbn [set_puller set_stream s_log s_since s_from].
      rewrite Hfg, Z.eqb_refl. split_and!; [done|lia|lia].
    + unfold base. cbn [set_puller set_stream s_log s_since s_from]. by rewrite Hfg, Z.eqb_refl.
Qed.

Lemma stream_close_inv s : sys_inv s -> count s < u64_MAX -> sys_inv (close_flow peer p s).
Proof.
  intros [Hc Ht] Hmax. unfold close_flow. destruct (s_flow s) eqn:Ef; [|done]. split.
  - change (core_inv (logged (OServeDrop peer p) (set_stream None s))).
    apply core_logged; [|done..]. destruct Hc as (? & ? & ? & ? & ? & ? & _). by split_and!.
  - unfold tasks_inv in *. rewrite Ef in Ht.
    destruct (tasks peer (s_log s)) as [k|] eqn:Et; [|by destruct Ht].
    cbn [set_stream logged s_log s_others s_flow]. rewrite (tasks_drop p s k Et). lia.
Qed.

Lemma stream_skip_inv inc now s :
  sys_inv s -> count s < u64_MAX -> sys_inv (skip_next peer p inc now s).
Proof.
  intros Hi Hmax. unfold skip_next.
  destruct (s_flow s) as [[w [|] us0 fs]|] eqn:Ef; try done.
  destruct us0 as [|[|at_ [] [] r cg cb ttl on ix b an ic| | | | |] us]; try done.
  case_bool_decide as Hp; [|done].
  set (o := OBumpDelete peer r Bak false inc now).
  pose proof (inv_logged o s Hi Hmax I I) as [Hc' Ht'].
  pose proof Hi as [(_ & _ & _ & _ & _ & _ & Hfl0) _].
  destruct (Hfl0 _ Ef) as (_ & _ & Hend0 & _).
  destruct Hc' as (? & ? & ? & ? & ? & ? & Hfl).
  destruct (Hfl _ Ef) as (Hnz & Hsub & Hend & Hch & _).
  cbn [cursor unread unsent wire] in Hend0, Hend, Hch. rewrite end_pos_cons in Hend0, Hend, Hch.
  split; [|by eapply tasks_stream]. split_and!; try done. intros fl [= <-]. split_and!; try done.
  cbn [cursor unread unsent wire]. eapply (chain_drop g _ r); [| |exact Hch].
  - intros m m' pos Hm Hle Hs r' w' Hw' Hb.
    assert (r' <> r) as Hne.
    { intros ->. unfold flow_record, o in Hw'. cbn [set_stream logged s_hist] in Hw'.
      unfold hist_exec in Hw'. simpl in Hw'. rewrite !bool_decide_eq_true_2 in Hw' by done.
      simpl in Hw'. rewrite last_write_cons in Hw'. cbn [w_ref] in Hw'.
      rewrite bool_decide_eq_true_2 in Hw' by done. simplify_eq. simpl in Hb.
      cbn [frame_at] in *. lia. }
    specialize (Hs r' w' Hw' Hb). unfold agrees in *. by rewrite <-(Hm r' Hne).
  - intros m r' Hne. simpl. by simplify_map_eq.
Qed.

Lemma inv_step o s : sys_inv s -> count s < u64_MAX -> sys_inv (sys_step peer p s o).
Proof.
  intros Hi Hmax. destruct o; simpl.
  - by apply inv_other.
  - by apply stream_open_inv.
  - by apply stream_drain_inv.
  - by apply stream_read_inv.
  - by apply stream_send_inv.
  - by apply stream_skip_inv.
  - by apply stream_noop_inv.
  - by apply stream_apply_inv.
  - by apply stream_close_inv.
Qed.

(** ** Joining *)

(** Where the puller joined: no write is at or below it, unless the peer's log
    was dropped. *)
Definition from_inv (s : System) : Prop :=
  s_from s <= count s
  /\ (Dropped ∉ flow_record peer p s -> forall w, w ∈ history_of s -> s_from s < w_counter w).

Lemma from_logged o s :
  cl_rel (s_hist s) (s_log s) -> count s < u64_MAX -> from_inv s -> from_inv (logged o s).
Proof.
  intros [Hn _] Hmax [Hle Hall]. split.
  - cbn [logged s_from s_log]. pose proof (cl_exec_counter o (s_log s)). lia.
  - unfold flow_record. cbn [logged s_hist s_from]. unfold hist_exec. rewrite not_elem_of_app.
    intros [_ Hd] w Hw. specialize (Hall Hd). unfold flow_record in Hall.
    assert (w ∈ standing (s_hist s peer p) \/ w_counter w = count s + 1) as [?|?]; [|auto|lia].
    destruct o; simpl in Hw; try (by left); try (destruct (_ && _); [|by left]).
    + by apply elem_of_cons in Hw as [->|?]; auto.
    + by apply elem_of_cons in Hw as [->|?]; auto.
    + left. by apply list_elem_of_filter in Hw as [_ ?].
    + left. by repeat case_match.
Qed.

Lemma live_standing t : Dropped ∉ t -> live t = standing t.
Proof.
  induction t as [|[w|r|] t IH]; [done|..]; rewrite not_elem_of_cons; intros [Hd Ht]; simpl;
    [by rewrite IH..|done].
Qed.

Lemma from_open now inst s :
  sys_inv s -> count s < u64_MAX -> from_inv s -> from_inv (open_flow peer p now inst s).
Proof.
  intros [Hc Ht] Hmax Hf. pose proof Hc as (Hr & Hge & _). unfold open_flow.
  destruct (s_flow s) eqn:Ef; [done|]. case_bool_decide; [done|].
  assert (from_inv (logged (OServing peer p now inst) s)) as Hf1 by (by apply from_logged).
  assert (cl_rel (s_hist (logged (OServing peer p now inst) s))
            (s_log (logged (OServing peer p now inst) s))) as Hr1 by (by apply cl_rel_exec).
  destruct (needs_reset _ _ _ _).
  - assert (from_inv (logged (OServeDrop peer p) (logged (OServing peer p now inst) s))) as Hf2
      by (by apply from_logged). done.
  - destruct (_ <? _); [|done].
    assert (is_Some (the_sub (logged (OServing peer p now inst) s))) as [sub Hsub].
    { apply tasks_sub. cbn [logged s_log]. rewrite (tasks_serving p now inst s Ht). by eexists. }
    unfold opened_at. rewrite Hsub.
    match goal with |- context [counter ?x] => change (counter x) with (opened sub) end.
    destruct (cl_rel_get _ _ _ _ _ Hr1 Hsub) as [Hs _]. destruct (sr_floor _ _ _ Hs) as [Hfl Hfn].
    split; [exact (Z.le_trans _ _ _ (proj2 Hfl) Hfn)|].
    intros Hd w Hw. cbn [set_puller set_stream s_from]. apply Hs. rewrite live_standing by done. done.
Qed.

Lemma from_step o s :
  sys_inv s -> count s < u64_MAX -> from_inv s -> from_inv (sys_step peer p s o).
Proof.
  intros Hi Hmax Hf. pose proof Hi as [(Hr & _) _].
  assert (forall o, from_inv (logged o s)) as Hl by (intros; by apply from_logged).
  destruct o; simpl; [|by apply from_open|..].
  - destruct o; simpl; repeat case_match; first [exact Hf|by apply Hl].
  - unfold drain_tail. repeat case_match; try done. apply Hl.
  - unfold read_next. repeat case_match; done.
  - unfold send_next. repeat case_match; done.
  - unfold skip_next. repeat case_match; try done. apply Hl.
  - unfold send_noop. repeat case_match; done.
  - unfold apply_next. repeat case_match; done.
  - unfold close_flow. case_match; [|done]. apply Hl.
Qed.

(** ** Runs *)

Lemma step_counter o s :
  0 <= count s < u64_MAX -> count (sys_step peer p s o) <= count s + 1.
Proof.
  intros Hc. assert (forall o, count (logged o s) <= count s + 1) as Hl.
  { intros o'. apply cl_exec_counter. lia. }
  destruct o; cbn [sys_step].
  - destruct o; cbn [other_op]; repeat case_match; first [exact (Hl _)|lia].
  - unfold open_flow. destruct (s_flow s); [lia|]. case_bool_decide; [lia|].
    destruct (needs_reset _ _ _ _); [simpl; lia|]. destruct (_ <? _); simpl; lia.
  - unfold drain_tail. repeat case_match; try lia. apply Hl.
  - unfold read_next. repeat case_match; simpl; lia.
  - unfold send_next. repeat case_match; simpl; lia.
  - unfold skip_next. repeat case_match; try lia. apply Hl.
  - unfold send_noop. repeat case_match; simpl; lia.
  - unfold apply_next. repeat case_match; simpl; lia.
  - unfold close_flow. case_match; [|lia]. apply Hl.
Qed.

Lemma inv_run os s :
  sys_inv s -> from_inv s -> count s + Z.of_nat (length os) <= u64_MAX ->
  sys_inv (sys_run peer p os s) /\ from_inv (sys_run peer p os s).
Proof.
  revert s. induction os as [|o os IH]; intros s Hi Hf Hl; [done|]. cbn [sys_run foldl length] in *.
  assert (0 <= count s) by (by destruct Hi as [([? _] & _) _]).
  apply IH; [apply inv_step; [done|lia]|apply from_step; [done|lia|done]|].
  pose proof (step_counter o s). lia.
Qed.

Lemma inv_init since m :
  w_leb (mkW 0 0) since = true -> gen since < g ->
  sys_inv (sys_init g since m) /\ from_inv (sys_init g since m).
Proof.
  intros Hz Hs. split; [split|].
  - split; [apply cl_rel_new|]. do 3 (split; [by auto|]). split; [simpl; lia|]. split; [|done].
    intros _ sub. unfold get_sub. simpl. by rewrite lookup_empty.
  - unfold tasks_inv, tasks. simpl. by rewrite lookup_empty.
  - split; [simpl; lia|]. intros _ w Hw. by apply elem_of_nil in Hw.
Qed.

(** ** What the invariant says of a replica *)

(** Nothing on its way and nothing to drain: in step with every write. *)
Lemma inv_idle s fl :
  sys_inv s -> s_flow s = Some fl -> unread fl = [] -> unsent fl = [] -> wire fl = [] ->
  (drain_snapshot peer p (mkW g (cursor fl)) 1 (s_log s)).1 = [] ->
  forall pos, synced s (s_replica s) pos.
Proof.
  intros [(Hr & Hge & _ & _ & _ & _ & Hfl) _] Ef Hu1 Hu2 Hw Hd pos r w Hlw Hb.
  destruct (Hfl _ Ef) as (_ & (sub & Hsub & _ & Hflo) & _ & Hch & _).
  rewrite Hu2, Hw in Hch. destruct Hch as [Hle Hs].
  apply (Hs r w Hlw). split; [lia|]. change (w_counter w <= cursor fl).
  destruct (Z.le_gt_cases (w_counter w) (cursor fl)) as [?|Hgt]; [done|exfalso].
  pose proof (cl_rel_get _ _ _ _ _ Hr Hsub) as Hl. pose proof (lr_live _ _ _ Hl) as Hsr.
  pose proof (standing_entry _ _ _ _ _ Hl Hlw) as He. unfold end_pos in Hle. simpl in Hle.
  destruct (by_ref sub !! r) as [st|] eqn:Eb; [|lia]. destruct He as [He _].
  assert ((w_counter w, r) ∈ bt_above (cursor fl) (entries sub)) as Hin.
  { apply elem_of_bt_above. split; [apply Hsr; eauto|simpl; lia]. }
  unfold drain_snapshot in Hd. unfold get_sub in Hsub. apply fmap_Some in Hsub as (log & Hlog & ->).
  rewrite Hlog in Hd. cbn [gen counter] in Hd. rewrite Hge, Z.ltb_irrefl in Hd.
  pose proof (due_keys _ _ _ (cursor fl) false 1 Hsr) as Hk.
  destruct (sub_due _ _ _ _) as [ds x]. simpl in Hd, Hk. subst ds. simpl in Hk.
  destruct (bt_above _ _); [by apply elem_of_nil in Hin|done].
Qed.

(** The drain check holds: in step with every write. *)
Lemma inv_caught_up s fl inst :
  sys_inv s -> s_flow s = Some fl -> flow_caught_up peer p inst (s_log s) = true ->
  gen (s_since s) = g /\ forall pos, synced s (s_replica s) pos.
Proof.
  intros [(Hr & Hge & _ & Hsi & Hsy & Hall & Hfl) _] Ef Hcu.
  destruct (Hfl _ Ef) as (Hnz & (sub & Hsub & _ & Hflo) & _).
  unfold flow_caught_up in Hcu. rewrite Hsub in Hcu.
  destruct (streams sub =? 0); [done|]. destruct (applied sub) as [c|] eqn:Hc; [|done].
  apply andb_true_iff in Hcu as [Hhead _]. destruct (Hall Hnz sub Hsub) as [(_ & _ & Hcl) _].
  pose proof (w_leb_trans _ _ _ Hhead (Hcl c Hc)) as Hle. apply w_leb_spec in Hle.
  simpl in Hle. rewrite Hge in Hle. assert (gen (s_since s) = g) as Hgs by lia.
  split; [done|]. intros pos r w Hlw Hb. apply (Hsy Hgs r w Hlw). split; [lia|].
  unfold base in Hflo. rewrite Hgs, Z.eqb_refl in Hflo.
  destruct (cl_rel_get _ _ _ _ _ Hr Hsub) as [Hs (old & Ho & Hold)].
  apply last_write_elem in Hlw as [Hw _]. unfold flow_record in Hw. rewrite Ho in Hw.
  apply elem_of_app in Hw as [Hw|Hw].
  - apply Hs in Hw. lia.
  - rewrite Forall_forall in Hold. apply Hold in Hw. destruct (sr_floor _ _ _ Hs). lia.
Qed.

End invariant.
