(* ===== verification/ChangelogProps.v ===== *)
(** * What the changelog promises

    The refinement of the record of writes, the puller's synchrony, the frames
    of a drain, the identity a report counts for, and
    the marks of the backlog, with their witnesses. *)

From S2P Require Import Prelude ReplFrame Changelog ChangelogInv ChangelogSpec ChangelogSync.

Open Scope Z_scope.

(** C18: the compacted sub-log refines the record of every write made toward
    the peer, from which nothing is ever removed: after any sequence of the
    changelog's operations it holds exactly the writes those operations made,
    and beside them when a reference was forgotten (the backup refused it) and
    when the whole log was dropped (the peer was read as dead).  Each reference
    of the sub-log has one entry, at the counter, op and incarnation of its last
    write, neither forgotten nor dropped since, drained in ascending order; a
    reference neither forgotten nor dropped since its last write has no entry
    only if that write is a delete at or below the retained floor; and an entry
    states an answer if a delete above the floor stated one since the last put
    (of the writes since the log opened and the reference was last forgotten),
    and only if some delete since then did. *)
Theorem changelog_refines_history os g peer p s :
  Z.of_nat (length os) <= u64_MAX ->
  get_sub peer p (cl_run os (new g, no_records)).1 = Some s ->
  let cl := (cl_run os (new g, no_records)).1 in
  let t := (cl_run os (new g, no_records)).2 peer p in
  writes t = made peer p 0 os
  /\ (forall r, last_write (live t) r = if gone_since t r then None else last_write (writes t) r)
  /\ sub_rel (cl_counter (inner cl)) (live t) s
  /\ (forall r st, by_ref s !! r = Some st ->
        gone_since t r = false
        /\ exists w, last_write (made peer p 0 os) r = Some w /\ w_counter w = st_counter st
           /\ w_op w = st_op st /\ w_inc w = st_incarnation st)
  /\ (forall r w, last_write (made peer p 0 os) r = Some w -> gone_since t r = false ->
        by_ref s !! r = None -> w_op w = Delete /\ w_counter w <= retained_floor s).
Proof.
  intros Hl Hs cl t. pose proof (cl_run_new os g Hl) as Hr.
  pose proof (lr_live _ _ _ (cl_rel_get _ _ _ _ _ Hr Hs)) as Hsr. fold t in Hsr.
  assert (writes t = made peer p 0 os) as Hw.
  { unfold t. rewrite cl_run_writes by (simpl; lia). simpl. by rewrite app_nil_r. }
  split_and!; [done|apply last_write_live|done|..]; rewrite <-Hw.
  - intros r st Hst. destruct (sr_last _ _ _ Hsr r st Hst) as (w & Hlw & Hrest).
    rewrite last_write_live in Hlw. destruct (gone_since t r); [done|]. split; [done|]. by exists w.
  - intros r w Hlw Hg. apply (sr_reaped _ _ _ Hsr). by rewrite last_write_live, Hg.
Qed.

(** C19: a puller that resumes its flow is always in sync with the record of
    writes.  It starts at a position of an earlier incarnation with any replica;
    streams are opened and end at any point, the frames under way lost; the
    serve task checks once, at the opening, whether to reset it, then drains in
    batches of any size from its cursor, reads each body with the changelog
    unlocked and sends the frames in order, a backup's put refused unsent being
    skipped and its call abandoned (no other frame is refused); writes, deletes, refusals, reaps and other
    serve tasks come in between in any order, and the positions reported on the
    flow are ones the puller had reached.  Then the replica the applied frames
    built agrees with every reference last written at or below its position and
    not forgotten since: nothing after a delete, the body sent for that write
    after a put, or nothing when the store no longer held it at the read.  It
    agrees on all of them, at whatever counter, once the drain check
    [flow_caught_up] holds on an open stream, or a stream has nothing under way
    and nothing left to drain.  If the peer's log was dropped under this
    incarnation, this is of the writes after the puller joined it.  A puller
    the server resets is no longer followed: it starts over with the bootstrap
    scan. *)
Theorem changelog_puller_sync os g since m peer p s :
  0 < g -> w_leb (mkW 0 0) since = true -> gen since < g -> Z.of_nat (length os) <= u64_MAX ->
  s = sys_run peer p os (sys_init g since m) ->
  let t := flow_record peer p s in
  let agree_to (pos : option Z) := forall r w,
    last_write (writes t) r = Some w -> forgotten_since t r = false ->
    (Dropped ∈ t -> s_from s < w_counter w) ->
    match pos with Some pos => w_counter w <= pos | None => True end ->
    agrees (s_missed s) (s_replica s) r w in
  (gen (s_since s) = g -> agree_to (Some (counter (s_since s))))
  /\ forall fl, s_flow s = Some fl ->
     (forall inst, flow_caught_up peer p inst (s_log s) = true -> agree_to None)
     /\ (unread fl = [] -> unsent fl = [] -> wire fl = [] ->
         (drain_snapshot peer p (mkW g (cursor fl)) 1 (s_log s)).1 = [] -> agree_to None).
Proof.
  intros Hg Hz Hlt Hl -> t agree_to. set (s := sys_run _ _ _ _) in *.
  destruct (inv_init peer p g since m Hz Hlt) as [Hi0 Hf0].
  destruct (inv_run peer p g Hg os _ Hi0 Hf0) as [Hi [_ Hfrom]]; [simpl; lia|]. fold s in Hi, Hfrom.
  assert (forall pos, synced peer p s (s_replica s) pos -> agree_to (Some pos)) as Hag.
  { intros pos Hs r w Hw Hfs Hd Hle.
    assert (last_write (standing t) r = Some w) as Hlw by (by rewrite last_write_standing, Hfs).
    apply (Hs r w Hlw). split; [|done]. destruct (decide (Dropped ∈ t)) as [Hin|Hni]; [by apply Hd|].
    apply Hfrom; [done|]. by apply last_write_elem in Hlw as [? _]. }
  assert ((forall pos, synced peer p s (s_replica s) pos) -> agree_to None) as Hnone.
  { intros Hs r w Hw Hfs Hd _. by apply (Hag (w_counter w) (Hs _) r w). }
  split; [|intros fl Hfl; split].
  - intros Hgs. apply Hag. destruct Hi as [(_ & _ & _ & _ & Hsy & _) _]. by apply Hsy.
  - intros inst Hcu. apply Hnone. by eapply (inv_caught_up peer p g).
  - intros H1 H2 H3 H4. apply Hnone. by eapply (inv_idle peer p g).
Qed.

(** ** Frames *)

(** What a drained frame says of the last write [w] of the reference [r], when
    its turn of the loop sees the world [wd]. *)
Definition frame_tells (g : Z) (p : Partition) (floor : Z) (h : history) (r : string) (w : Write)
    (wd : World) (f : Frame) : Prop :=
  match w_op w with
  | Delete => exists answered,
      f = delete_frame (mkW g (w_counter w)) p r answered (w_inc w)
      /\ (answered_since_put floor h r = true -> answered = true)
      /\ (answered = true -> answered_since_put (-1) h r = true)
  | Put =>
      match w_entry wd r with
      | Some (b, m) =>
          f = FData (mkW g (w_counter w)) Put p r (call_gen m) (call_bgen m) (body_ttl_ms m)
                (origin_now_ms m (w_now wd)) (indexes m) (Some b) false (incarnation m)
      | None => exists answered, f = delete_frame (mkW g (w_counter w)) p r answered None
      end
  end.

Lemma drain_frames_spec g peer p ws ds f :
  f ∈ drain_frames g peer p ws ds <-> exists i d, ds !! i = Some d /\ drain_one g peer p (ws i) d = Some f.
Proof.
  revert ws. induction ds as [|d ds IH]; intros ws; simpl.
  { split; [by intros ?%elem_of_nil|]. intros (i & d & Hi & _). done. }
  assert (f ∈ drain_frames g peer p (fun n => ws (S n)) ds <->
    exists i d', (d :: ds) !! S i = Some d' /\ drain_one g peer p (ws (S i)) d' = Some f) as IH'.
  { rewrite IH. done. }
  destruct (drain_one g peer p (ws O) d) as [f'|] eqn:E; rewrite ?elem_of_cons, IH'; split.
  - intros [->|(i & d' & ? & ?)]; [by exists O, d|by exists (S i), d'].
  - intros ([|i] & d' & Hi & Hd); [left; simpl in *; congruence|right; eauto].
  - intros (i & d' & ? & ?). by exists (S i), d'.
  - intros ([|i] & d' & Hi & Hd); [simpl in *; congruence|eauto].
Qed.

Lemma drain_frames_sorted g peer p ws ds :
  StronglySorted (fun a b => d_counter a < d_counter b) ds ->
  StronglySorted (fun a b => w_ltb a b = true) (map frame_at (drain_frames g peer p ws ds)).
Proof.
  intros Hs. revert ws. induction Hs as [|d ds Hs IH Hd]; intros ws; [constructor|]. simpl.
  destruct (drain_one g peer p (ws O) d) as [f|] eqn:E; [|apply IH]. simpl.
  constructor; [apply IH|]. apply Forall_forall. intros w (f' & -> & Hf')%list_elem_of_fmap.
  apply drain_frames_spec in Hf' as (i & d' & Hi & Hd').
  rewrite (drain_one_at _ _ _ _ _ _ E), (drain_one_at _ _ _ _ _ _ Hd').
  rewrite Forall_forall in Hd. apply list_elem_of_lookup_2, Hd in Hi.
  apply w_ltb_spec. simpl. lia.
Qed.

Lemma sorted_map {A B} (f : A -> B) (R : B -> B -> Prop) l :
  StronglySorted R (map f l) -> StronglySorted (fun a b => R (f a) (f b)) l.
Proof.
  induction l as [|x l IH]; simpl; intros Hs; [constructor|].
  apply StronglySorted_inv in Hs as [Hs Hx]. constructor; [by apply IH|]. 
  rewrite Forall_forall in Hx. apply Forall_forall. intros y Hy.
  apply Hx, list_elem_of_fmap. eauto.
Qed.

(** A drain sends at most [limit] frames, in strictly ascending position,
    each about the last write of its reference: a delete states the answer and
    the incarnation the history states, whatever the store holds; a put
    carries the body the store holds at that moment, with its metadata, or, the
    body gone and no delete recorded, goes out as a delete.  The store and the
    changelog may change in any way between two frames. *)
Theorem changelog_drain_frames os g peer p since limit ws :
  Z.of_nat (length os) <= u64_MAX ->
  let '(cl, H) := cl_run os (new g, no_records) in
  let frames := (drain_since peer p since limit ws cl).1 in
  (length frames <= limit)%nat
  /\ StronglySorted (fun a b => w_ltb a b = true) (map frame_at frames)
  /\ forall f, f ∈ frames ->
     exists sub r w i, get_sub peer p cl = Some sub
       /\ last_write (live (H peer p)) r = Some w
       /\ frame_tells (cl_gen cl) p (retained_floor sub) (live (H peer p)) r w (ws i) f.
Proof.
  intros Hl. pose proof (cl_run_new os g Hl) as Hr. destruct (cl_run os (new g, no_records)) as [cl H].
  simpl in Hr. unfold drain_since, drain_snapshot.
  destruct (peers (inner cl) !! peer) as [log|] eqn:El; simpl.
  2: { split_and!; [lia|constructor|]. by intros f ?%elem_of_nil. }
  assert (get_sub peer p cl = Some (pl_sub p log)) as Hsub by (unfold get_sub; by rewrite El).
  destruct (cl_rel_get _ _ _ _ _ Hr Hsub) as [Hs _].
  pose proof (due_keys _ _ _ (counter since) (gen since <? cl_gen cl) limit Hs) as Hk.
  pose proof (elem_of_due (pl_sub p log) (counter since) (gen since <? cl_gen cl) limit) as Hd.
  destruct (sub_due _ _ _ _) as [ds sub'] eqn:Ed. simpl in *. split_and!.
  - assert (length (drain_frames (cl_gen cl) peer p ws ds) <= length ds)%nat as Hlen.
    { clear. revert ws. induction ds as [|d ds IH]; intros ws; simpl; [lia|].
      specialize (IH (fun n => ws (S n))). case_match; simpl; lia. }
    apply (f_equal length) in Hk. rewrite length_map, length_take in Hk. lia.
  - apply drain_frames_sorted. apply (sorted_map (fun d => (d_counter d, d_ref d)) (fun a b => a.1 < b.1)).
    rewrite Hk. apply keys_sorted_take.
    destruct (gen since <? cl_gen cl); [apply Hs|apply sorted_filter, Hs].
  - intros f (i & d & Hi & Hf)%drain_frames_spec.
    apply list_elem_of_lookup_2, Hd in Hi as (st & Hin & Hst & Heq).
    destruct (sr_last _ _ _ Hs _ _ Hst) as (w & Hw & Hc & Ho & Hi).
    assert (d_counter d = st_counter st) as Hdc.
    { apply elem_of_take in Hin as (j & Hj & _). apply list_elem_of_lookup_2 in Hj.
      assert ((d_counter d, d_ref d) ∈ entries (pl_sub p log)) as (st' & Hst' & <-)%Hs;
        [destruct (gen since <? cl_gen cl); [done|by apply elem_of_bt_above in Hj as [Hj _]]|].
      congruence. }
    exists (pl_sub p log), (d_ref d), w, i. split_and!; [done..|]. unfold frame_tells.
    rewrite Hc, Ho, Hi, <-Hdc. unfold drain_one in Hf. rewrite Heq in Hf. simpl in Hf.
    destruct (st_op st); simpl in Hf.
    + destruct (w_entry (ws i) (d_ref d)) as [[b m]|]; [by simplify_eq|].
      destruct (current _ _ _ _) as [[[] ?]|]; simplify_eq; eauto.
    + simplify_eq. eexists. split_and!; [done|..].
      * by apply (sr_answer_complete _ _ _ Hs).
      * by apply (sr_answer_sound _ _ _ Hs).
Qed.

(** ** Reports of an identity *)

Definition report : Type := Partition * Watermark * Z * Z.

Definition report_all (peer id : string) (reports : list report) (cl : Changelog) : Changelog :=
  foldl (fun cl '(p, at_, now, inst) => note_applied peer (Some id) p at_ now inst cl) cl reports.

(** The highest position reported on [p] under incarnation [g]. *)
Definition best_step (g : Z) (p : Partition) (acc : option Watermark) (r : report)
    : option Watermark :=
  let '(p', w, _, _) := r in
  if bool_decide (p' = p) && (gen w =? g) then
    match acc with
    | Some a => Some (if w_ltb a w then w else a)
    | None => Some w
    end
  else acc.

Definition best (g : Z) (p : Partition) (reports : list report) : option Watermark :=
  foldl (best_step g p) None reports.

Lemma get_sub_upd_peer peer p p' f cl :
  get_sub peer p (upd_peer peer (sub_mut p' f) cl)
  = (fun s => if bool_decide (p' = p) then f s else s) <$> get_sub peer p cl.
Proof.
  unfold get_sub. simpl. simplify_map_eq. destruct (peers (inner cl) !! peer); [|done]. simpl.
  by destruct p, p'.
Qed.

(** What the reports of an identity membership does not bind change. *)
Lemma report_all_unbound peer id id' reports cl p s :
  bound (inner cl) !! peer = Some id -> id' <> id -> get_sub peer p cl = Some s ->
  match unbound s with Some (i, _) => i <> id' | None => True end ->
  let cl' := report_all peer id' reports cl in
  bound (inner cl') = bound (inner cl) /\ cl_gen cl' = cl_gen cl
  /\ exists s', get_sub peer p cl' = Some s' /\ acked s' = acked s /\ applied s' = applied s
     /\ match best (cl_gen cl) p reports with
        | Some w => unbound s' = Some (id', w)
        | None => unbound s' = unbound s
        end.
Proof.
  intros Hb Hid Hs Hu. unfold best.
  induction reports as [|[[[p' w] now] inst] reports IH] using rev_ind; simpl; [eauto 10|].
  unfold report_all in *. rewrite !foldl_app. fold (report_all peer id' reports cl) in *.
  simpl. destruct IH as (IHb & IHg & s' & Hs' & Ha & Hap & IHu).
  set (cl' := report_all peer id' reports cl) in *. unfold note_applied, bound_to_other.
  rewrite IHb, Hb, bool_decide_eq_true_2 by congruence. split_and!; [done..|].
  rewrite get_sub_upd_peer, Hs', IHg. simpl. eexists. split; [done|].
  case_bool_decide as Hp; [|done]. subst p'. simpl.
  destruct (gen w =? cl_gen cl); simpl; [|done].
  destruct (foldl _ None reports) as [a|].
  - rewrite IHu. rewrite bool_decide_eq_false_2 by tauto. simpl. by destruct (w_ltb a w).
  - rewrite IHu. destruct (unbound s) as [[i a]|]; simpl; [|done].
    by rewrite bool_decide_eq_true_2.
Qed.

(** A report from an identity other than the one membership binds to the
    ordinal vouches for nothing: however many positions a superseded worker
    reports, the position applied and the claim of every flow stay; once
    membership binds that identity, the flow's applied position is the highest
    it had reported under this incarnation, or none. *)
Theorem changelog_identity_reports peer id id' reports cl p s :
  bound (inner cl) !! peer = Some id -> id' <> id -> get_sub peer p cl = Some s ->
  match unbound s with Some (i, _) => i <> id' | None => True end ->
  let cl' := report_all peer id' reports cl in
  (exists s', get_sub peer p cl' = Some s' /\ acked s' = acked s /\ applied s' = applied s)
  /\ exists s'', get_sub peer p (bind_identity peer (Some id') cl') = Some s''
     /\ acked s'' = default (mkW 0 0) (best (cl_gen cl) p reports).
Proof.
  intros Hb Hid Hs Hu cl'.
  destruct (report_all_unbound peer id id' reports cl p s Hb Hid Hs Hu)
    as (IHb & IHg & s' & Hs' & Ha & Hap & IHu).
  fold cl' in IHb, IHg, Hs'. split; [by exists s'|].
  unfold bind_identity. rewrite IHb, Hb. rewrite bool_decide_eq_false_2 by congruence.
  unfold get_sub in *. simpl. simplify_map_eq.
  apply fmap_Some in Hs' as (log & Hlog & ->). rewrite Hlog. simpl. eexists.
  split; [done|]. destruct p; simpl in *.
  all: destruct (best _ _ _) as [w|]; rewrite IHu; simpl.
  all: rewrite ?bool_decide_eq_true_2 by done; try done.
  all: destruct (unbound _) as [[i w]|]; [by rewrite bool_decide_eq_false_2|done].
Qed.

(** ** The backlog *)

(** The entries the peer has not reported applying. *)
Definition pending (g : Z) (s : SubLog) : list (Z * string) :=
  if gen (acked s) =? g then bt_above (counter (acked s)) (entries s) else entries s.

Lemma measure_entries n h s g now cap :
  sub_rel n h s ->
  b_entries (measure s g now cap) = Z.min (Z.max 1 cap) (Z.of_nat (length (pending g s))).
Proof.
  intros Hs. unfold measure, pending.
  assert (forall c r, (c, r) ∈ (if gen (acked s) =? g then bt_above (counter (acked s)) (entries s)
                               else entries s) -> is_Some (by_ref s !! r)) as Hb.
  { intros c r Hin. assert ((c, r) ∈ entries s) as (st & Hst & _)%Hs; [|by eexists].
    destruct (gen (acked s) =? g); [by apply elem_of_bt_above in Hin as [Hin _]|done]. }
  destruct (if gen (acked s) =? g then _ else _) as [|[c r] l];
    [cbn; rewrite take_nil; simpl; lia|].
  destruct (Hb c r) as [st Hst]; [by left|]. cbn [tail b_entries]. rewrite Hst.
  rewrite length_take. cbn [length]. lia.
Qed.

(** The age of the oldest of them. *)
Definition pending_age (g now : Z) (s : SubLog) : Z := oldest_age (measure s g now 1).

Lemma measure_age s g now cap : oldest_age (measure s g now cap) = pending_age g now s.
Proof. done. Qed.

(** Toward a peer whose open flow is past its bootstrap, new calls get no
    backup from the moment the entries it has not applied, or the age of the
    oldest, reach a high-water mark until both are under their low-water marks,
    however many entries there are past the ones counted; a peer with no log,
    no flow or a bootstrap in flight always gets one. *)
Theorem changelog_backlog_marks os g peer now inst cl H log :
  Z.of_nat (length os) <= u64_MAX -> cl_run os (new g, no_records) = (cl, H) ->
  marks_validate (marks (inner cl)) = Ok tt -> 0 <= low_entries (marks (inner cl)) ->
  peers (inner cl) !! peer = Some log ->
  let m := marks (inner cl) in
  let sub := pl_bak log in
  let n := Z.of_nat (length (pending (cl_gen cl) sub)) in
  let age := pending_age (cl_gen cl) now sub in
  let bootstrapping := exists t, applied sub = None /\ flow_started sub = Some t
                                 /\ inst - t < bootstrap_hard_timeout cl in
  let '(admitted, cl') := admits_backup peer now inst cl in
  (streams sub = 0 \/ bootstrapping -> admitted = true /\ cl' = cl)
  /\ (streams sub <> 0 -> ~ bootstrapping ->
      (admitted = false <->
         if over_high_water log then low_entries m <= n \/ low_age m <= age
         else high_entries m <= n \/ high_age m <= age)
      /\ over_high_water <$> peers (inner cl') !! peer = Some (negb admitted)).
Proof.
  intros Hl Hrun Hv Hpos Hlog m sub n age bootstrapping.
  pose proof (cl_run_new os g Hl) as Hr. rewrite Hrun in Hr. simpl in Hr.
  destruct (cl_rel_get H cl peer Bak sub Hr) as [Hs _]; [unfold get_sub; by rewrite Hlog|].
  pose proof (measure_entries _ _ _ (cl_gen cl) now (high_entries m) Hs) as Hent. fold n in Hent.
  pose proof (measure_age sub (cl_gen cl) now (high_entries m)) as Hage. fold age in Hage.
  assert (low_entries m < high_entries m) as Hlow.
  { unfold marks_validate in Hv. fold m in Hv.
    destruct (Z.leb_spec (high_entries m) (low_entries m)); [done|lia]. }
  unfold admits_backup. rewrite Hlog. simpl. fold sub. fold m.
  set (boot := match applied sub with Some _ => _ | None => _ end).
  assert (boot = true <-> bootstrapping) as Hboot.
  { unfold boot, bootstrapping. destruct (applied sub), (flow_started sub) as [t|]; split;
      try done; try (by intros (? & ? & ? & ?)).
    - intros ?. zbool. eauto.
    - intros (t' & _ & [= <-] & ?). by apply Z.ltb_lt. }
  destruct (Z.eqb_spec (streams sub) 0) as [Hz|Hnz]; simpl; [by split|].
  destruct boot eqn:Eb; simpl.
  { split; [done|]. intros _ []. by apply Hboot. }
  split. { intros [?|Hbo]; [done|]. apply Hboot in Hbo. done. }
  intros _ _. simplify_map_eq. rewrite negb_involutive, negb_false_iff. split; [|done].
  rewrite Hent, Hage. fold m in Hpos.
  destruct (over_high_water log); rewrite orb_true_iff, !Z.leb_le; split; lia.
Qed.

(** ** Witnesses *)

(** A run toward the backup [w1]: a call put, another, the first one deleted
    with its answer, a flow served, a report, and a reap. *)
Definition ex_log_ops : list cl_op :=
  [OBumpPut "w1" "a" Bak 10; OBumpPut "w1" "b" Bak 11; OBumpDelete "w1" "a" Bak true (Some "i1") 12;
   OServing "w1" Bak 13 13; OBumpPut "w1" "c" Bak 14].

Lemma changelog_refines_history_witness :
  let os := ex_log_ops ++ [OForget "w1" Bak "c"; OBumpPut "w1" "d" Bak 15] in
  exists s, get_sub "w1" Bak (cl_run os (new 7, no_records)).1 = Some s
    /\ entries s = [(2, "b"); (3, "a"); (5, "d")]
    /\ writes ((cl_run os (new 7, no_records)).2 "w1" Bak) = made "w1" Bak 0 os
    /\ gone_since ((cl_run os (new 7, no_records)).2 "w1" Bak) "c" = true.
Proof.
  intros os.
  destruct (get_sub "w1" Bak (cl_run os (new 7, no_records)).1) as [s|] eqn:E;
    [|vm_compute in E; discriminate].
  destruct (changelog_refines_history os 7 "w1" Bak s) as (Hw & _);
    [vm_compute; discriminate|exact E|].
  exists s. split; [reflexivity|]. split; [|split; [exact Hw|vm_compute; reflexivity]].
  vm_compute in E. injection E as <-. reflexivity.
Defined.

Definition ex_meta : RefMeta := mkRefMeta 1 0 60000 [] (Some "i2") None.

(** A puller of an earlier incarnation: it joins, applies a put and a delete one
    frame at a time, loses the frame under way as its stream ends, opens
    another, and catches up. *)
Definition ex_store (r : string) : option (body * RefMeta) :=
  if bool_decide (r = "a") then None else Some ([1; 2], ex_meta).
Definition ex_sys_ops : list sys_op :=
  [SLog (OBumpPut "w1" "a" Bak 10); SLog (OBumpPut "w1" "b" Bak 11); SOpen 12 12; SDrain 1;
   SRead ex_store 13; SLog (OBumpDelete "w1" "a" Bak true None 14); SSend; SApply; SDrain 2;
   SRead ex_store 15; SRead ex_store 15; SSend; SClose; SLog (OBumpPut "w1" "c" Bak 16);
   SOpen 17 17; SDrain 5; SRead ex_store 18; SRead ex_store 18; SRead ex_store 18;
   SSend; SSend; SSend; SNoop; SApply; SApply; SApply; SApply;
   SLog (ONoteApplied "w1" None Bak (mkW 7 4) 19 19)].

Definition ex_sys : System :=
  sys_run "w1" Bak ex_sys_ops (sys_init 7 (mkW 6 9) {["old" := 3]}).

Lemma changelog_puller_sync_witness :
  flow_caught_up "w1" Bak 20 (s_log ex_sys) = true
  /\ s_since ex_sys = mkW 7 4 /\ s_replica ex_sys = {["old" := 3; "b" := 2; "c" := 4]}
  /\ agrees (s_missed ex_sys) (s_replica ex_sys) "c" (mkWrite 4 "c" Put false None).
Proof.
  split; [vm_compute; reflexivity|]. split; [vm_compute; reflexivity|].
  split; [vm_compute; reflexivity|].
  destruct (changelog_puller_sync ex_sys_ops 7 (mkW 6 9) {["old" := 3]} "w1" Bak ex_sys) as [Hc _].
  - lia.
  - reflexivity.
  - reflexivity.
  - vm_compute. discriminate.
  - reflexivity.
  - apply Hc.
    + vm_compute. reflexivity.
    + vm_compute. reflexivity.
    + vm_compute. reflexivity.
    + intros _. vm_compute. reflexivity.
    + vm_compute. discriminate.
Defined.

(** A peer away past the dead-peer TTL comes back with a position of an earlier
    incarnation: its log was dropped with the put of [a], the new one opens
    above it, and the puller is not reset: its stream has nothing to drain and
    it never learns of [a]. *)
Example returning_peer_not_reset :
  let s := sys_run "w1" Bak [SLog (OBumpPut "w1" "a" Bak 10); SLog (OReap 60010); SOpen 60020 0]
             (sys_init 7 (mkW 6 9) ∅) in
  flow_record "w1" Bak s = [Dropped; Wrote (mkWrite 1 "a" Put false None)]
  /\ s_flow s = Some (mkFlow 1 [] [] []) /\ s_from s = 1
  /\ (drain_snapshot "w1" Bak (mkW 7 1) 1 (s_log s)).1 = []
  /\ s_replica s !! "a" = None.
Proof. vm_compute. done. Qed.

Definition ex_world : World := mkWorld (fun r => if bool_decide (r = "b") then Some ([1; 2], ex_meta)
                                                 else None) 99 (new 7).

Lemma changelog_drain_frames_witness :
  let cl := (cl_run ex_log_ops (new 7, no_records)).1 in
  let frames := (drain_since "w1" Bak (mkW 7 1) 2 (fun _ => ex_world) cl).1 in
  frames = [FData (mkW 7 2) Put Bak "b" 1 0 60000 99 [] (Some [1; 2]) false (Some "i2");
            delete_frame (mkW 7 3) Bak "a" true (Some "i1")]
  /\ StronglySorted (fun a b => w_ltb a b = true) (map frame_at frames).
Proof.
  intros cl frames. split; [vm_compute; reflexivity|].
  pose proof (changelog_drain_frames ex_log_ops 7 "w1" Bak (mkW 7 1) 2 (fun _ => ex_world)) as Hd.
  unfold frames, cl. destruct (cl_run ex_log_ops (new 7, no_records)) as [cl' H].
  apply Hd. vm_compute. discriminate.
Defined.

Lemma changelog_identity_reports_witness :
  let cl := cl_exec (OBind "w1" (Some "old")) (cl_run ex_log_ops (new 7, no_records)).1 in
  let cl' := report_all "w1" "new" [(Bak, mkW 7 2, 20, 20); (Bak, mkW 7 4, 21, 21);
                                    (Bak, mkW 6 9, 22, 22)] cl in
  exists s, get_sub "w1" Bak (bind_identity "w1" (Some "new") cl') = Some s /\ acked s = mkW 7 4.
Proof.
  intros cl cl'. destruct (get_sub "w1" Bak cl) as [s|] eqn:E; [|vm_compute in E; discriminate].
  destruct (changelog_identity_reports "w1" "old" "new"
              [(Bak, mkW 7 2, 20, 20); (Bak, mkW 7 4, 21, 21); (Bak, mkW 6 9, 22, 22)] cl Bak s)
    as [_ (s'' & Hs & Ha)].
  - vm_compute. reflexivity.
  - discriminate.
  - exact E.
  - vm_compute in E. injection E as <-. exact I.
  - exists s''. split; [exact Hs|]. rewrite Ha. vm_compute. reflexivity.
Defined.

(** Marks of two and one entries: the run's three pending entries refuse. *)
Definition ex_backlog_ops : list cl_op :=
  ex_log_ops ++ [OMarks (mkMarks 2 1 5000 1000); ONoteApplied "w1" None Bak (mkW 7 0) 15 15].

Definition ex_backlog : Changelog * Records := cl_run ex_backlog_ops (new 7, no_records).
Definition ex_backlog_log : PeerLog :=
  default (peer_new 0 0) (peers (inner ex_backlog.1) !! "w1").

Lemma changelog_backlog_marks_witness :
  (admits_backup "w1" 20 20 ex_backlog.1).1 = false.
Proof.
  pose proof (changelog_backlog_marks ex_backlog_ops 7 "w1" 20 20 ex_backlog.1 ex_backlog.2
                ex_backlog_log) as Hb. cbv zeta in Hb.
  destruct (admits_backup "w1" 20 20 ex_backlog.1) as [a cl'].
  destruct Hb as [_ Hb].
  - vm_compute. discriminate.
  - vm_compute. reflexivity.
  - vm_compute. reflexivity.
  - vm_compute. discriminate.
  - vm_compute. reflexivity.
  - apply Hb.
    + vm_compute. discriminate.
    + intros (t & Ha & _). vm_compute in Ha. discriminate.
    + left. vm_compute. discriminate.
Defined.
