(* ===== verification/ReplStore.v ===== *)
(** * The replicating call store

    [crates/b2bua/src/store/memory.rs] (bodies and routing indexes),
    [repl/resurrection.rs], [repl/incarnation.rs], [repl/store/refusals.rs] and
    [repl/store.rs] with its submodules [write], [admission] and [backing]: the
    HA store that keeps a body, its metadata, the tombstones of deleted calls
    and the refusals in lockstep, and moves the changelog.

    Each operation runs under the metadata lock, so it is one step; the clock
    reading it takes is its argument [now]. *)

From S2P Require Import Prelude ReplFrame Changelog.

Open Scope Z_scope.

(** ** Partitions ([store/call_store.rs]) *)

Inductive PartitionRole := Primary | Backup.

#[global] Instance PartitionRole_eq_dec : EqDecision PartitionRole.
Proof. solve_decision. Defined.

Definition role_as_str (r : PartitionRole) : string :=
  match r with Primary => "pri" | Backup => "bak" end.

Inductive PropagateDirection := Forward | Reverse.

#[global] Instance PropagateDirection_eq_dec : EqDecision PropagateDirection.
Proof. solve_decision. Defined.

Record PutOpts := mkPutOpts {
  o_peer : option string;
  o_direction : option PropagateDirection;
  o_origin_now_ms : option Z;
  o_incarnation : option string;
}.

Definition opts_default : PutOpts := mkPutOpts None None None None.

(** ** The in-memory store ([memory.rs]) *)

Record MemInner := mkMem {
  bodies : gmap string body;
  idx : gmap string string;
  idx_by_ref : gmap string (list string);
}.

Definition mem_new : MemInner := mkMem ∅ ∅ ∅.

(** [body_key]. *)
Definition body_key (role : PartitionRole) (primary r : string) : string :=
  (role_as_str role +:+ ":" +:+ primary +:+ ":call:" +:+ r)%string.

Definition idx_key (k : string) : string := ("idx:" +:+ k)%string.

(** Drop the key if it still points at [r]. *)
Definition drop_key (r : string) (m : gmap string string) (k : string) : gmap string string :=
  if bool_decide (m !! k = Some r) then delete k m else m.

(** [store_body]. *)
Definition store_body (role : PartitionRole) (primary r : string) (b : body) (indexes : list string)
    (s : MemInner) : MemInner :=
  let bodies := <[body_key role primary r := b]> (bodies s) in
  match indexes with
  | [] => mkMem bodies (idx s) (idx_by_ref s)
  | _ =>
      let new_keys := map idx_key indexes in
      let cleared :=
        match idx_by_ref s !! r with
        | Some old => foldl (fun m k => if bool_decide (k ∈ new_keys) then m else drop_key r m k)
                        (idx s) old
        | None => idx s
        end in
      mkMem bodies (foldl (fun m k => <[k := r]> m) cleared new_keys)
        (<[r := new_keys]> (idx_by_ref s))
  end.

(** [body], and [get_call] of the in-memory store. *)
Definition mem_body (role : PartitionRole) (primary r : string) (s : MemInner) : option body :=
  bodies s !! body_key role primary r.

(** [remove_body]. *)
Definition remove_body (role : PartitionRole) (primary r : string) (indexes : list string)
    (s : MemInner) : option body * MemInner :=
  let key := body_key role primary r in
  let owned := default [] (idx_by_ref s !! r) in
  let m := foldl (drop_key r) (idx s) owned in
  let m := foldl (drop_key r) m (map idx_key indexes) in
  (bodies s !! key, mkMem (delete key (bodies s)) m (delete r (idx_by_ref s))).

(** [get_index]. *)
Definition mem_get_index (k : string) (s : MemInner) : option string := idx s !! idx_key k.

(** ** Incarnations ([incarnation.rs]) *)

Definition is_another_call (held incoming : option string) : bool :=
  match held, incoming with
  | Some h, Some i => bool_decide (h <> i)
  | _, _ => false
  end.

(** ** Resurrection tombstones ([resurrection.rs]) *)

Definition RESURRECTION_TOMBSTONE_MS : Z := 300000.

Inductive Burial := Deleted | Replaced.

Record Tombstone := mkTomb {
  buried_at_ms : Z;
  t_incarnation : option string;
  t_burial : Burial;
}.

(** [ResurrectionTombstones]. *)
Notation Tombstones := (gmap string (list Tombstone)).

(** [bury]. *)
Definition bury (r : string) (inc : option string) (b : Burial) (at_ms : Z) (ts : Tombstones)
    : Tombstones :=
  let buried := default [] (ts !! r) in
  <[r := filter (fun t => t_incarnation t <> inc) buried ++ [mkTomb at_ms inc b]]> ts.

(** A tombstone inside its window. *)
Definition standing (now : Z) (t : Tombstone) : bool :=
  i64_sub now (buried_at_ms t) <? RESURRECTION_TOMBSTONE_MS.

(** Whether [t] names the call of a put of [inc]. *)
Definition names (inc : option string) (t : Tombstone) : bool :=
  match inc with None => true | Some _ => bool_decide (t_incarnation t = inc) end.

(** [min_by_key]: [Deleted] before [Replaced], the first on a tie. *)
Fixpoint min_burial (l : list Burial) : option Burial :=
  match l with
  | [] => None
  | Deleted :: _ => Some Deleted
  | Replaced :: l => match min_burial l with Some Deleted => Some Deleted | _ => Some Replaced end
  end.

(** [burial]. *)
Definition burial (r : string) (inc : option string) (now : Z) (ts : Tombstones) : option Burial :=
  match ts !! r with
  | None => None
  | Some buried =>
      min_burial (map t_burial (filter (fun t => names inc t = true)
                                  (filter (fun t => standing now t = true) buried)))
  end.

(** [prune]. *)
Definition prune (now : Z) (ts : Tombstones) : Tombstones :=
  filter (fun kv => kv.2 <> []) (filter (fun t => standing now t = true) <$> ts).

(** ** Refusals ([refusals.rs]) *)

Definition REFUSAL_TTL_MS : Z := 10000.
Definition REFUSALS_MAX : nat := Z.to_nat 65536.

Record Refusal := mkRefusal {
  rf_incarnation : option string;
  rf_primary : string;
  rf_expiry_at_ms : Z;
  seq : Z;
}.

Record RefusedReplicas := mkRefused {
  rf_by_ref : gmap string Refusal;
  order : list (Z * string);
  next_seq : Z;
}.

Definition refused_new : RefusedReplicas := mkRefused ∅ [] 0.

(** [clear]. *)
Definition rf_clear (r : string) (s : RefusedReplicas) : RefusedReplicas :=
  match rf_by_ref s !! r with
  | Some f => mkRefused (delete r (rf_by_ref s)) (bt_remove (seq f) (order s)) (next_seq s)
  | None => s
  end.

(** The eviction loop of [refuse], [cap] the most refusals kept. *)
Fixpoint rf_evict (cap : nat) (order : list (Z * string)) (m : gmap string Refusal)
    : list (Z * string) * gmap string Refusal :=
  if (size m <? cap)%nat then (order, m)
  else match order with
       | [] => ([], m)
       | (_, oldest) :: order => rf_evict cap order (delete oldest m)
       end.

(** [refuse], at the cap [cap] ([REFUSALS_MAX] in the store). *)
Definition refuse (cap : nat) (r : string) (inc : option string) (primary : string) (now : Z)
    (s : RefusedReplicas) : RefusedReplicas :=
  let s := rf_clear r s in
  let '(ord, m) := rf_evict cap (order s) (rf_by_ref s) in
  let f := mkRefusal inc primary (i64_saturating_add now REFUSAL_TTL_MS) (next_seq s) in
  mkRefused (<[r := f]> m) (bt_insert (next_seq s) r ord) (u64_add (next_seq s) 1).

(** [refuses]. *)
Definition refuses (r : string) (inc : option string) (s : RefusedReplicas) : bool :=
  match rf_by_ref s !! r with
  | None => false
  | Some f =>
      match inc, rf_incarnation f with
      | Some i, Some j => bool_decide (j = i)
      | _, _ => true
      end
  end.

Definition rf_clear_where (P : Refusal -> bool) (s : RefusedReplicas) : RefusedReplicas :=
  foldl (fun s r => rf_clear r s) s
    (map fst (filter (fun kv => P kv.2 = true) (map_to_list (rf_by_ref s)))).

(** [clear_primary] and [reap]. *)
Definition clear_primary (primary : string) (s : RefusedReplicas) : RefusedReplicas :=
  rf_clear_where (fun f => bool_decide (rf_primary f = primary)) s.
Definition rf_reap (now : Z) (s : RefusedReplicas) : RefusedReplicas :=
  rf_clear_where (fun f => rf_expiry_at_ms f <=? now) s.

(** ** The store ([repl/store.rs]) *)

Definition DEFAULT_REPLICATED_TTL_MS : Z := 3600000.

Record CallMeta := mkMeta {
  m_ref : RefMeta;
  m_role : PartitionRole;
  m_primary : string;
  m_backup : option string;
  m_expiry_at_ms : option Z;
  m_authority_answered : bool;
}.

(** [ReplicatingCallStore]; [unbacked] is the [Unbacked] set. *)
Record ReplStore := mkStore {
  mem : MemInner;
  log : Changelog;
  meta : gmap string CallMeta;
  backups : Z;
  replicas : RefusedReplicas;
  unbacked : gset string;
  tombstones : Tombstones;
  displaced : gmap string body;
  default_ttl_ms : Z;
}.

(** [with_changelog]. *)
Definition store_new (cl : Changelog) : ReplStore :=
  mkStore mem_new cl ∅ 0 refused_new ∅ ∅ ∅ DEFAULT_REPLICATED_TTL_MS.

(** Field updates. *)
Definition set_log_of (cl : Changelog) (s : ReplStore) : ReplStore :=
  mkStore (mem s) cl (meta s) (backups s) (replicas s) (unbacked s) (tombstones s) (displaced s)
    (default_ttl_ms s).
Definition set_meta (m : gmap string CallMeta) (s : ReplStore) : ReplStore :=
  mkStore (mem s) (log s) m (backups s) (replicas s) (unbacked s) (tombstones s) (displaced s)
    (default_ttl_ms s).
Definition set_mem (m : MemInner) (s : ReplStore) : ReplStore :=
  mkStore m (log s) (meta s) (backups s) (replicas s) (unbacked s) (tombstones s) (displaced s)
    (default_ttl_ms s).
Definition set_backups (n : Z) (s : ReplStore) : ReplStore :=
  mkStore (mem s) (log s) (meta s) n (replicas s) (unbacked s) (tombstones s) (displaced s)
    (default_ttl_ms s).
Definition set_refusals (r : RefusedReplicas) (u : gset string) (s : ReplStore) : ReplStore :=
  mkStore (mem s) (log s) (meta s) (backups s) r u (tombstones s) (displaced s) (default_ttl_ms s).
Definition set_tombs (t : Tombstones) (s : ReplStore) : ReplStore :=
  mkStore (mem s) (log s) (meta s) (backups s) (replicas s) (unbacked s) t (displaced s)
    (default_ttl_ms s).
Definition set_displaced (d : gmap string body) (s : ReplStore) : ReplStore :=
  mkStore (mem s) (log s) (meta s) (backups s) (replicas s) (unbacked s) (tombstones s) d
    (default_ttl_ms s).

(** [expiry_for]. *)
Definition expiry_for (now ttl_ms : Z) (s : ReplStore) : option Z :=
  let effective := if 0 <? ttl_ms then ttl_ms else default_ttl_ms s in
  if 0 <? effective then Some (i64_add now effective) else None.

Definition expired_meta (now : Z) (m : CallMeta) : bool :=
  match m_expiry_at_ms m with Some e => e <=? now | None => false end.

(** [is_expired]. *)
Definition is_expired (now : Z) (r : string) (s : ReplStore) : bool :=
  match meta s !! r with Some m => expired_meta now m | None => false end.

(** [current_cv]. *)
Definition current_cv (now : Z) (r : string) (s : ReplStore) : option (Z * Z) :=
  if is_expired now r s then None
  else (fun m => (call_gen (m_ref m), call_bgen (m_ref m))) <$> meta s !! r.

(** [incarnation]. *)
Definition incarnation_of (now : Z) (r : string) (s : ReplStore) : option string :=
  if is_expired now r s then None else m ← meta s !! r; incarnation (m_ref m).

(** [skew_offset_ms], [held_origin_now_ms] and [skew_of]. *)
Definition skew_of_ref (r : string) (s : ReplStore) : option Z :=
  m ← meta s !! r; skew_offset_ms (m_ref m).
Definition held_origin_now_ms (now : Z) (r : string) (s : ReplStore) : option Z :=
  m ← meta s !! r; (fun _ => origin_now_ms (m_ref m) now) <$> skew_offset_ms (m_ref m).
Definition skew_of (now origin : Z) : Z := i64_saturating_sub now origin.

(** [scan_call_refs] and [scan_refs_backed_by]. *)
Definition scan_call_refs (now : Z) (role : PartitionRole) (primary : string) (s : ReplStore)
    : list string :=
  map fst (filter (fun kv => m_role kv.2 = role /\ m_primary kv.2 = primary
                             /\ expired_meta now kv.2 = false) (map_to_list (meta s))).
Definition scan_refs_backed_by (now : Z) (primary backup : string) (s : ReplStore) : list string :=
  map fst (filter (fun kv => m_role kv.2 = Primary /\ m_primary kv.2 = primary
                             /\ m_backup kv.2 = Some backup /\ expired_meta now kv.2 = false)
             (map_to_list (meta s))).

(** [buries]. *)
Definition buries (now : Z) (r : string) (inc : option string) (s : ReplStore) : bool :=
  match burial r inc now (tombstones s) with Some _ => true | None => false end.

(** [reestablish_backup] and [note_authority_answer]. *)
Definition reestablish_backup (r backup : string) (s : ReplStore) : ReplStore :=
  set_meta (alter (fun m => mkMeta (m_ref m) (m_role m) (m_primary m) (Some backup)
                              (m_expiry_at_ms m) (m_authority_answered m)) r (meta s)) s.
Definition note_authority_answer (r : string) (s : ReplStore) : ReplStore :=
  set_meta (alter (fun m => mkMeta (m_ref m) (m_role m) (m_primary m) (m_backup m)
                              (m_expiry_at_ms m) true) r (meta s)) s.

(** [authority_answered]. *)
Definition authority_answered (r : string) (s : ReplStore) : bool :=
  match meta s !! r with Some m => m_authority_answered m | None => false end.

(** [take_displaced]. *)
Definition take_displaced (s : ReplStore) : list body * ReplStore :=
  (map snd (map_to_list (displaced s)), set_displaced ∅ s).

(** [account_role]: the gauge is an [AtomicU64]. *)
Definition account_role (old new : option PartitionRole) (s : ReplStore) : ReplStore :=
  let was := bool_decide (old = Some Backup) in
  let now_is := bool_decide (new = Some Backup) in
  if now_is && negb was then set_backups (u64_add (backups s) 1) s
  else if was && negb now_is then set_backups (u64_wrap (backups s - 1)) s
  else s.

(** [partition_for]. *)
Definition partition_for (d : option PropagateDirection) : Partition :=
  match d with Some Reverse => Pri | _ => Bak end.

(** ** Admission ([store/admission.rs]) *)

Definition keep_for_reap (inc : option string) (b : body) (s : ReplStore) : ReplStore :=
  match inc with Some id => set_displaced (<[id := b]> (displaced s)) s | None => s end.

Definition keep_if (c : bool) (inc : option string) (b : body) (s : ReplStore) : ReplStore :=
  if c then keep_for_reap inc b s else s.

(** Replacing another call held on the ref. *)
Definition replace_held (r : string) (now : Z) (s : ReplStore) : ReplStore :=
  match meta s !! r with
  | None => s
  | Some gone =>
      let s := account_role (Some (m_role gone)) None (set_meta (delete r (meta s)) s) in
      let '(removed, m) := remove_body (m_role gone) (m_primary gone) r (indexes (m_ref gone)) (mem s) in
      let s := set_tombs (bury r (incarnation (m_ref gone)) Replaced now (tombstones s)) (set_mem m s) in
      match removed with
      | Some b => keep_if (bool_decide (m_role gone = Backup) && (0 <? call_bgen (m_ref gone)))
                    (incarnation (m_ref gone)) b s
      | None => s
      end
  end.

(** [admits]: whether the write is stored, and the store the rule leaves. *)
Definition admits (r : string) (inc : option string) (b : body) (role : PartitionRole)
    (direction : option PropagateDirection) (now : Z) (s : ReplStore) : bool * ReplStore :=
  let is_backup := bool_decide (role = Backup) in
  match burial r inc now (tombstones s) with
  | Some Deleted => (false, s)
  | Some Replaced =>
      let s := match inc with
               | Some _ => set_tombs (bury r inc Replaced now (tombstones s)) s
               | None => s
               end in
      (false, keep_if is_backup inc b s)
  | None =>
      let held := m ← meta s !! r; incarnation (m_ref m) in
      if negb (is_another_call held inc) then (true, s)
      else if bool_decide (direction = Some Reverse) then
        let s := set_tombs (bury r inc Replaced now (tombstones s)) s in
        (false, keep_if is_backup inc b s)
      else (true, replace_held r now s)
  end.

(** ** Writes ([store/write.rs]) *)

(** The metadata a stored write leaves. *)
Definition written_meta (old : option CallMeta) (rm : RefMeta) (role : PartitionRole)
    (primary : string) (flushed : option string) (expiry : option Z) : CallMeta :=
  match old with
  | Some m => mkMeta rm role primary (match flushed with Some b => Some b | None => m_backup m end)
                expiry (m_authority_answered m)
  | None => mkMeta rm role primary flushed expiry false
  end.

(** [write_put]. *)
Definition write_put (role : PartitionRole) (primary r : string) (b : body) (ixs : list string)
    (ttl_ms p_gen b_gen : Z) (opts : PutOpts) (now : Z) (s : ReplStore) : ReplStore :=
  let expiry := expiry_for now ttl_ms s in
  let skew := (fun o => i64_saturating_sub now o) <$> o_origin_now_ms opts in
  let flushed := match o_direction opts, o_peer opts with
                 | Some Forward, Some p => Some p
                 | _, _ => None
                 end in
  let inc := match o_incarnation opts with
             | Some i => Some i
             | None => m ← meta s !! r; incarnation (m_ref m)
             end in
  let rm := mkRefMeta p_gen b_gen ttl_ms ixs inc skew in
  let '(ok, s) := admits r inc b role (o_direction opts) now s in
  if negb ok then s
  else
    let s := set_mem (store_body role primary r b ixs (mem s)) s in
    let old := meta s !! r in
    let s := account_role (m_role <$> old) (Some role) s in
    let s := set_meta (<[r := written_meta old rm role primary flushed expiry]> (meta s)) s in
    let s := set_refusals (rf_clear r (replicas s)) (unbacked s) s in
    match o_peer opts with
    | Some peer => set_log_of (bump_put peer r (partition_for (o_direction opts)) now (log s)).2 s
    | None => s
    end.

(** [write_delete]. *)
Definition write_delete (role : PartitionRole) (primary r : string) (ixs : list string)
    (answered : bool) (opts : PutOpts) (now : Z) (s : ReplStore) : ReplStore :=
  let held := m ← meta s !! r; incarnation (m_ref m) in
  if bool_decide (is_Some (meta s !! r)) && is_another_call held (o_incarnation opts) then
    set_tombs (bury r (o_incarnation opts) Deleted now (tombstones s)) s
  else
    let s := set_mem (remove_body role primary r ixs (mem s)).2 s in
    let gone := meta s !! r in
    let s := set_meta (delete r (meta s)) s in
    let s := match gone with
             | Some g => account_role (Some (m_role g)) None s
             | None => s
             end in
    let inc := match o_incarnation opts with
               | Some i => Some i
               | None => g ← gone; incarnation (m_ref g)
               end in
    let s := set_tombs (bury r inc Deleted now (tombstones s)) s in
    let s := set_refusals (rf_clear r (replicas s)) (unbacked s ∖ {[ r ]}) s in
    match o_peer opts with
    | Some peer =>
        set_log_of (bump_delete peer r (partition_for (o_direction opts)) answered inc now (log s)).2 s
    | None => s
    end.

(** ** Backing ([store/backing.rs]) *)

Definition refuse_replica (r primary : string) (inc : option string) (now : Z) (s : ReplStore)
    : ReplStore :=
  set_refusals (refuse REFUSALS_MAX r inc primary now (replicas s)) (unbacked s) s.
Definition refused_replica (r : string) (inc : option string) (s : ReplStore) : bool :=
  refuses r inc (replicas s).
Definition clear_refusals_of (primary : string) (s : ReplStore) : ReplStore :=
  set_refusals (clear_primary primary (replicas s)) (unbacked s) s.
Definition leave_unbacked (r : string) (s : ReplStore) : ReplStore :=
  set_refusals (replicas s) ({[ r ]} ∪ unbacked s) s.
Definition admit_backed (r : string) (s : ReplStore) : ReplStore :=
  set_refusals (replicas s) (unbacked s ∖ {[ r ]}) s.

Definition no_backup (m : CallMeta) : CallMeta :=
  mkMeta (m_ref m) (m_role m) (m_primary m) None (m_expiry_at_ms m) (m_authority_answered m).

(** [backup_refused]. *)
Definition backup_refused (backup r : string) (inc : option string) (s : ReplStore) : ReplStore :=
  match meta s !! r with
  | None => s
  | Some m =>
      if negb (bool_decide (m_role m = Primary)) || negb (bool_decide (m_backup m = Some backup)) then s
      else if match inc with
              | Some i => bool_decide (incarnation (m_ref m) <> Some i)
              | None => false
              end then s
      else
        let s := set_meta (<[r := no_backup m]> (meta s)) s in
        let s := leave_unbacked r s in
        set_log_of (forget backup Bak r (log s)) s
  end.

(** [abandon_backup]. *)
Definition abandon_backup (backup r : string) (now : Z) (s : ReplStore) : ReplStore :=
  let s := leave_unbacked r s in
  let '(inc, s) :=
    match meta s !! r with
    | Some m => if bool_decide (m_role m = Primary)
                then (incarnation (m_ref m), set_meta (<[r := no_backup m]> (meta s)) s)
                else (None, s)
    | None => (None, s)
    end in
  set_log_of (bump_delete backup r Bak false inc now (log s)).2 s.

(** ** Reads and the reap *)

(** [get_call]. *)
Definition get_call (now : Z) (role : PartitionRole) (primary r : string) (s : ReplStore)
    : option body :=
  if is_expired now r s then None else mem_body role primary r (mem s).

(** [peek_body_raw]. *)
Definition peek_body_raw (role : PartitionRole) (primary r : string) (s : ReplStore) : option body :=
  mem_body role primary r (mem s).

(** [get_index]. *)
Definition get_index (now : Z) (k : string) (s : ReplStore) : option string :=
  r ← mem_get_index k (mem s); if is_expired now r s then None else Some r.

(** [read_entry]. *)
Definition read_entry (now : Z) (role : PartitionRole) (primary r : string) (s : ReplStore)
    : option (body * RefMeta) :=
  m ← meta s !! r;
  if expired_meta now m then None
  else b ← mem_body role primary r (mem s); Some (b, m_ref m).

(** [expired_snapshot]. *)
Definition expired_snapshot (now : Z) (s : ReplStore) : list string :=
  map fst (filter (fun kv => expired_meta now kv.2 = true) (map_to_list (meta s))).

(** One turn of [evict_snapshot]. *)
Definition evict_one (now : Z) (r : string) (s : ReplStore) : option body * ReplStore :=
  match meta s !! r with
  | None => (None, s)
  | Some gone =>
      if expired_meta now gone then
        let s := account_role (Some (m_role gone)) None (set_meta (delete r (meta s)) s) in
        let '(b, m) := remove_body (m_role gone) (m_primary gone) r (indexes (m_ref gone)) (mem s) in
        (b, set_mem m s)
      else (None, s)
  end.

(** [evict_snapshot]: each ref is one critical section; what runs between two of
    them is [between]. *)
Fixpoint evict_snapshot (now : Z) (refs : list string) (between : nat -> ReplStore -> ReplStore)
    (s : ReplStore) : list body * ReplStore :=
  match refs with
  | [] => ([], s)
  | r :: refs =>
      let '(b, s) := evict_one now r (between O s) in
      let '(bs, s) := evict_snapshot now refs (fun n => between (S n)) s in
      (match b with Some b => b :: bs | None => bs end, s)
  end.

(** The upkeep of [reap], before the eviction. *)
Definition reap_upkeep (now : Z) (s : ReplStore) : ReplStore :=
  let s := set_tombs (prune now (tombstones s)) s in
  let s := set_refusals (rf_reap now (replicas s)) (unbacked s) s in
  set_log_of (Changelog.reap now (log s)) s.

(** [reap]. *)
Definition store_reap (now : Z) (between : nat -> ReplStore -> ReplStore) (s : ReplStore)
    : list body * ReplStore :=
  let s := reap_upkeep now s in
  evict_snapshot now (expired_snapshot now s) between s.
