(* ===== verification/ReplStoreInv.v ===== *)
(** * The replicating store's invariants

    The routing index, the body keys, the backup gauge, the tombstones and the
    refusals: what each operation keeps of them. *)

From Stdlib Require Import Ascii.
From S2P Require Import Prelude ReplFrame Changelog ChangelogInv ReplStore.

Open Scope Z_scope.

(** ** Steps *)

Inductive store_op :=
  | SPut (role : PartitionRole) (primary r : string) (b : body) (ixs : list string)
      (ttl_ms p_gen b_gen : Z) (opts : PutOpts)
  | SDelete (role : PartitionRole) (primary r : string) (ixs : list string) (answered : bool)
      (opts : PutOpts)
  | SRefuse (r primary : string) (inc : option string)
  | SClearRefusals (primary : string)
  | SLeaveUnbacked (r : string)
  | SAdmitBacked (r : string)
  | SBackupRefused (backup r : string) (inc : option string)
  | SAbandon (backup r : string)
  | SReestablish (r backup : string)
  | SNoteAnswer (r : string)
  | STakeDisplaced
  | SUpkeep
  | SEvict (r : string).

(** One operation at the clock reading [now].  The reap is its upkeep and the
    turns of its eviction loop, so other operations run between them. *)
Definition store_exec (now : Z) (o : store_op) (s : ReplStore) : ReplStore :=
  match o with
  | SPut role primary r b ixs ttl pg bg opts => write_put role primary r b ixs ttl pg bg opts now s
  | SDelete role primary r ixs ans opts => write_delete role primary r ixs ans opts now s
  | SRefuse r primary inc => refuse_replica r primary inc now s
  | SClearRefusals primary => clear_refusals_of primary s
  | SLeaveUnbacked r => leave_unbacked r s
  | SAdmitBacked r => admit_backed r s
  | SBackupRefused backup r inc => backup_refused backup r inc s
  | SAbandon backup r => abandon_backup backup r now s
  | SReestablish r backup => reestablish_backup r backup s
  | SNoteAnswer r => note_authority_answer r s
  | STakeDisplaced => (take_displaced s).2
  | SUpkeep => reap_upkeep now s
  | SEvict r => (evict_one now r s).2
  end.

Definition store_run (os : list (Z * store_op)) (s : ReplStore) : ReplStore :=
  foldl (fun s p => store_exec p.1 p.2 s) s os.

(** ** The routing index *)

(** Every index entry is recorded with the call it points at. *)
Definition idx_owned (s : MemInner) : Prop :=
  forall k r, idx s !! k = Some r -> exists ks, idx_by_ref s !! r = Some ks /\ k ∈ ks.

Lemma drop_key_lookup r m k k' r' :
  drop_key r m k !! k' = Some r' <-> m !! k' = Some r' /\ ~ (k' = k /\ r' = r).
Proof.
  unfold drop_key. case_bool_decide as Hm.
  - by_key k k'; [|intuition congruence]. split; [done|]. intros [? Hn]. destruct Hn. split; congruence.
  - split; [|tauto]. intros ?. split; [done|]. intros [-> ->]. done.
Qed.

Lemma foldl_drop_key r m l k r' :
  foldl (drop_key r) m l !! k = Some r' <-> m !! k = Some r' /\ ~ (k ∈ l /\ r' = r).
Proof.
  revert m. induction l as [|k' l IH]; intros m; cbn [foldl].
  { rewrite elem_of_nil. tauto. }
  rewrite IH, drop_key_lookup, elem_of_cons. tauto.
Qed.

Lemma foldl_keep_new r (new : list string) m l k r' :
  foldl (fun m k => if bool_decide (k ∈ new) then m else drop_key r m k) m l !! k = Some r'
  <-> m !! k = Some r' /\ ~ (k ∈ l /\ (k ∉ new) /\ r' = r).
Proof.
  revert m. induction l as [|k' l IH]; intros m; cbn [foldl].
  { rewrite elem_of_nil. tauto. }
  rewrite IH, elem_of_cons. case_bool_decide as Hn.
  - split; [|tauto]. intros [? Hl]. split; [done|]. intros ([->|?] & ? & ?); tauto.
  - rewrite drop_key_lookup. split; [|intros [? Hl]; split; [split; [done|]|tauto]].
    + intros [[? Hk] Hl]. split; [done|]. intros ([->|?] & ? & ?); tauto.
    + intros [-> ->]. tauto.
Qed.

Lemma foldl_point r (m : gmap string string) l k r' :
  foldl (fun m k => <[k := r]> m) m l !! k = Some r'
  <-> (k ∈ l /\ r' = r) \/ ((k ∉ l) /\ m !! k = Some r').
Proof.
  revert m. induction l as [|k' l IH]; intros m; cbn [foldl].
  { rewrite elem_of_nil. tauto. }
  rewrite IH, elem_of_cons. by_key k' k; [|intuition congruence].
  destruct (decide (k ∈ l)); split; intuition congruence.
Qed.

(** What the index points at after a store. *)
Lemma store_body_idx role primary r b ixs s k r' :
  idx (store_body role primary r b ixs s) !! k = Some r' -> idx s !! k = Some r' \/ r' = r.
Proof.
  unfold store_body. destruct ixs as [|i ixs]; [by left|]. cbn [idx].
  rewrite foldl_point. intros [[_ ->]|[_ Hk]]; [by right|]. left.
  destruct (idx_by_ref s !! r); [|done]. by apply foldl_keep_new in Hk as [Hk _].
Qed.

Lemma store_body_owned role primary r b ixs s :
  idx_owned s -> idx_owned (store_body role primary r b ixs s).
Proof.
  intros Ho. unfold store_body. destruct ixs as [|i ixs]; [done|].
  set (new := map idx_key (i :: ixs)). intros k r'. cbn [idx idx_by_ref].
  rewrite foldl_point. intros [[Hk ->]|[Hk Hidx]]; [simplify_map_eq; eauto|].
  destruct (idx_by_ref s !! r) as [old|] eqn:Er.
  - apply foldl_keep_new in Hidx as [Hidx Hn]. destruct (Ho k r' Hidx) as (ks & Hks & Hin).
    by_key r r'; [tauto|eauto].
  - destruct (Ho k r' Hidx) as (ks & Hks & Hin). by_key r r'. eauto.
Qed.

(** Removing a call removes every index entry that points at it, whatever keys
    the caller names, and nothing else's. *)
Lemma remove_body_idx role primary r ixs s k r' :
  idx_owned s ->
  idx (remove_body role primary r ixs s).2 !! k = Some r' <-> idx s !! k = Some r' /\ r' <> r.
Proof.
  intros Ho. unfold remove_body. cbn [snd idx]. rewrite !foldl_drop_key. split.
  - intros [[Hs Hn] _]. split; [done|]. intros ->. destruct (Ho k r Hs) as (ks & Hks & Hin).
    apply Hn. by rewrite Hks.
  - tauto.
Qed.

Lemma remove_body_owned role primary r ixs s :
  idx_owned s -> idx_owned (remove_body role primary r ixs s).2.
Proof.
  intros Ho k r' Hk. apply remove_body_idx in Hk as [Hk Hne]; [|done].
  destruct (Ho k r' Hk) as (ks & Hks & Hin). exists ks. split; [|done].
  cbn. by rewrite lookup_delete_ne.
Qed.

(** ** Body keys *)

(** A primary's ordinal has no colon. *)
Definition plain (p : string) : Prop := (":"%char : Ascii.ascii) ∉ String.list_ascii_of_string p.

Lemma plain_app_inj p p' x x' :
  plain p -> plain p' -> (p +:+ String ":" x = p' +:+ String ":" x')%string -> p = p' /\ x = x'.
Proof.
  unfold plain. revert p'. induction p as [|c p IH]; intros [|c' p'] Hp Hp' Heq; simpl in *.
  - injection Heq as ->. done.
  - injection Heq as <- _. by apply not_elem_of_cons in Hp' as [? _].
  - injection Heq as -> _. by apply not_elem_of_cons in Hp as [? _].
  - injection Heq as -> Heq. apply not_elem_of_cons in Hp as [_ Hp], Hp' as [_ Hp'].
    by destruct (IH p') as [-> ->].
Qed.

Lemma body_key_inj role role' p p' r r' :
  plain p -> plain p' -> body_key role p r = body_key role' p' r' ->
  role = role' /\ p = p' /\ r = r'.
Proof.
  unfold body_key. intros Hp Hp' Heq.
  assert (role = role') as -> by (by destruct role, role'). split; [done|].
  assert ((p +:+ ":call:" +:+ r = p' +:+ ":call:" +:+ r')%string) as Heq'.
  { destruct role'; simpl in Heq; injection Heq; done. }
  destruct (plain_app_inj p p' ("call:" +:+ r) ("call:" +:+ r')) as [-> Hr]; [done..|].
  split; [done|]. simpl in Hr. by injection Hr.
Qed.

(** ** The backup gauge *)

Definition backup_count (M : gmap string CallMeta) : Z :=
  Z.of_nat (size (filter (fun kv => m_role kv.2 = Backup) M)).

Definition one_if_backup (o : option PartitionRole) : Z := if decide (o = Some Backup) then 1 else 0.

Lemma backup_count_delete M r :
  backup_count (delete r M) = backup_count M - one_if_backup (m_role <$> M !! r).
Proof.
  unfold backup_count, one_if_backup. rewrite map_filter_delete, map_size_delete.
  destruct (filter _ M !! r) as [m|] eqn:E.
  - apply map_lookup_filter_Some in E as E'. destruct E' as [-> Hm]. simpl in *.
    rewrite decide_True by congruence.
    assert (size (filter (fun kv => m_role kv.2 = Backup) M) <> 0%nat); [|lia].
    intros H0%map_size_empty_inv. rewrite H0 in E. done.
  - simpl. destruct (decide _) as [Hd|]; [|lia]. apply fmap_Some in Hd as (m & Hm & Hb).
    rewrite (map_lookup_filter_Some_2 _ _ _ m) in E; done.
Qed.

Lemma backup_count_insert M r m :
  backup_count (<[r := m]> M)
  = backup_count M - one_if_backup (m_role <$> M !! r) + one_if_backup (Some (m_role m)).
Proof.
  rewrite <-(backup_count_delete M r), <-insert_delete_eq.
  unfold backup_count at 1, one_if_backup. rewrite map_filter_insert. simpl.
  destruct (decide (m_role m = Backup)) as [Hm|Hm].
  - rewrite decide_True by congruence. rewrite map_size_insert_None; [unfold backup_count; lia|].
    apply map_lookup_filter_None. left. apply lookup_delete_eq.
  - rewrite decide_False by congruence. rewrite delete_id; [unfold backup_count; lia|].
    apply lookup_delete_eq.
Qed.

Lemma account_role_eq old new s :
  account_role old new s = set_backups (backups (account_role old new s)) s.
Proof. unfold account_role. destruct s. repeat case_bool_decide; done. Qed.

Lemma account_role_count old new s n :
  backups s = u64_wrap n ->
  backups (account_role old new s) = u64_wrap (n - one_if_backup old + one_if_backup new).
Proof.
  intros Hs. unfold account_role, one_if_backup, u64_add, u64_wrap in *.
  repeat case_bool_decide; repeat case_decide; try done; simpl; rewrite Hs.
  - f_equal. lia.
  - rewrite Zplus_mod_idemp_l. f_equal. lia.
  - rewrite Zminus_mod_idemp_l. f_equal. lia.
  - f_equal. lia.
Qed.

(** ** Bodies, metadata and the gauge in lockstep *)

Section lockstep.
(** Where a reference's body lives: its partition, the primary's ordinal with
    no colon. *)
Context (place : string -> PartitionRole * string).
Context (place_plain : forall r, plain (place r).2).

Definition key_of (r : string) : string := body_key (place r).1 (place r).2 r.

Lemma key_of_inj r r' : key_of r = key_of r' -> r = r'.
Proof. intros H. by apply body_key_inj in H as (_ & _ & ?). Qed.

Record lock_ok (m : MemInner) (M : gmap string CallMeta) (n : Z) : Prop := {
  lk_owned : idx_owned m;
  lk_idx k r : idx m !! k = Some r -> is_Some (M !! r);
  lk_place r e : M !! r = Some e -> place r = (m_role e, m_primary e);
  lk_bodies key : is_Some (bodies m !! key) <-> exists r, is_Some (M !! r) /\ key = key_of r;
  lk_count : n = u64_wrap (backup_count M);
}.

Definition store_ok (s : ReplStore) : Prop := lock_ok (mem s) (meta s) (backups s).

(** Removing a held call, or none, with its body and its index entries. *)
Lemma lock_ok_remove m M n r ixs n' :
  lock_ok m M n ->
  n' = u64_wrap (backup_count M - one_if_backup (m_role <$> M !! r)) ->
  lock_ok (remove_body (place r).1 (place r).2 r ixs m).2 (delete r M) n'.
Proof.
  intros [Ho Hi Hp Hb Hc] ->. split.
  - by apply remove_body_owned.
  - intros k r' Hk. apply remove_body_idx in Hk as [Hk Hne]; [|done].
    rewrite lookup_delete_ne by done. by eapply Hi.
  - intros r' e He. apply lookup_delete_Some in He as [_ He]. by apply Hp.
  - intros key. cbn [remove_body snd bodies]. fold (key_of r).
    destruct (decide (key_of r = key)) as [<-|Hne].
    + rewrite lookup_delete_eq. split; [by intros []|]. intros (r' & Hr' & Heq).
      apply key_of_inj in Heq as <-. rewrite lookup_delete_eq in Hr'. by destruct Hr'.
    + rewrite lookup_delete_ne by done. rewrite Hb. split; intros (r' & Hr' & ->);
        (exists r'; split; [|done]).
      * rewrite lookup_delete_ne; [done|]. by intros ->.
      * destruct Hr' as [e He]. apply lookup_delete_Some in He as [_ He]. by eexists.
  - by rewrite backup_count_delete.
Qed.

(** Storing a body with its metadata. *)
Lemma lock_ok_store m M n r b ixs e n' :
  lock_ok m M n -> place r = (m_role e, m_primary e) ->
  n' = u64_wrap (backup_count M - one_if_backup (m_role <$> M !! r) + one_if_backup (Some (m_role e))) ->
  lock_ok (store_body (m_role e) (m_primary e) r b ixs m) (<[r := e]> M) n'.
Proof.
  intros [Ho Hi Hp Hb Hc] Hpl ->. split.
  - by apply store_body_owned.
  - intros k r' Hk. by_key r r'; [by eexists|].
    apply store_body_idx in Hk as [Hk| ->]; [by eapply Hi|done].
  - intros r' e' He. by_key r r'; [by simplify_eq|by apply Hp].
  - intros key.
    assert (bodies (store_body (m_role e) (m_primary e) r b ixs m) = <[key_of r := b]> (bodies m)) as ->.
    { unfold key_of, store_body. rewrite Hpl. by destruct ixs. }
    destruct (decide (key_of r = key)) as [<-|Hne].
    + rewrite lookup_insert_eq. split; [intros _; exists r|by eexists].
      rewrite lookup_insert_eq. split; [by eexists|done].
    + rewrite lookup_insert_ne by done. rewrite Hb. split; intros (r' & Hr' & ->);
        (exists r'; split; [|done]).
      * rewrite lookup_insert_ne; [done|]. by intros ->.
      * rewrite lookup_insert_ne in Hr'; [done|]. by intros ->.
  - by rewrite backup_count_insert.
Qed.

(** Metadata rewritten in place, where its body stays. *)
Lemma lock_ok_alter m M n r f :
  (forall e, m_role (f e) = m_role e /\ m_primary (f e) = m_primary e) ->
  lock_ok m M n -> lock_ok m (alter f r M) n.
Proof.
  intros Hf [Ho Hi Hp Hb Hc].
  assert (forall r', is_Some (alter f r M !! r') <-> is_Some (M !! r')) as Hs.
  { intros r'. by_key r r'; [|done]. by rewrite fmap_is_Some. }
  split; [done|..].
  - intros k r' Hk. apply Hs. by eapply Hi.
  - intros r' e He. apply lookup_alter_Some in He as [(<- & e' & He & ->)|[_ He]]; [|by apply Hp].
    destruct (Hf e') as [-> ->]. by apply Hp.
  - intros key. rewrite Hb. by setoid_rewrite Hs.
  - rewrite Hc. f_equal. destruct (M !! r) as [e|] eqn:E.
    + assert (alter f r M = <[r := f e]> M) as ->.
      { apply map_eq. intros r'. by_key r r'; done. }
      rewrite backup_count_insert, E. simpl. destruct (Hf e) as [-> _]. lia.
    + rewrite alter_id; [done|]. intros x Hx. congruence.
Qed.
End lockstep.
