(* ===== verification/ReplStoreSteps.v ===== *)
(** * Every operation of the replicating store keeps its invariants

    Lockstep of bodies, metadata, index and gauge; the burial of a deleted
    call; the refusals' bound and order. *)

From S2P Require Import Prelude ReplFrame Changelog ChangelogInv ReplStore ReplStoreInv.

Open Scope Z_scope.

#[local] Arguments remove_body : simpl never.
#[local] Arguments store_body : simpl never.

Lemma account_role_fields old new s :
  mem (account_role old new s) = mem s /\ meta (account_role old new s) = meta s
  /\ tombstones (account_role old new s) = tombstones s
  /\ replicas (account_role old new s) = replicas s
  /\ log (account_role old new s) = log s /\ unbacked (account_role old new s) = unbacked s
  /\ displaced (account_role old new s) = displaced s.
Proof. rewrite account_role_eq. done. Qed.

Lemma keep_if_fields c inc b s :
  mem (keep_if c inc b s) = mem s /\ meta (keep_if c inc b s) = meta s
  /\ tombstones (keep_if c inc b s) = tombstones s /\ backups (keep_if c inc b s) = backups s
  /\ replicas (keep_if c inc b s) = replicas s
  /\ log (keep_if c inc b s) = log s /\ unbacked (keep_if c inc b s) = unbacked s.
Proof. unfold keep_if, keep_for_reap. by destruct c, inc. Qed.

(** ** Lockstep *)

Section lockstep.
Context (place : string -> PartitionRole * string).
Context (place_plain : forall r, plain (place r).2).

(** A write or delete names the partition its reference lives in. *)
Definition op_placed (o : store_op) : Prop :=
  match o with
  | SPut role primary r _ _ _ _ _ _ | SDelete role primary r _ _ _ => place r = (role, primary)
  | _ => True
  end.

Notation ok := (store_ok place).

Lemma ok_same s s' :
  mem s' = mem s -> meta s' = meta s -> backups s' = backups s -> ok s -> ok s'.
Proof. unfold store_ok. by intros -> -> ->. Qed.

(** Forgetting a held call: the step the replacement, the eviction and the
    delete share. *)
Lemma ok_remove s r g ixs s' :
  ok s -> meta s !! r = Some g ->
  mem s' = (remove_body (m_role g) (m_primary g) r ixs (mem s)).2 ->
  meta s' = delete r (meta s) ->
  backups s' = backups (account_role (Some (m_role g)) None s) -> ok s'.
Proof.
  intros Hok Hg Hm HM Hb. unfold store_ok. rewrite Hm, HM, Hb.
  pose proof (lk_place _ _ _ _ Hok r g Hg) as Hp.
  replace (m_role g) with (place r).1 at 1 by (by rewrite Hp).
  replace (m_primary g) with (place r).2 by (by rewrite Hp).
  eapply lock_ok_remove; [done|done|]. rewrite Hg.
  rewrite (account_role_count _ _ _ _ (lk_count _ _ _ _ Hok)). f_equal.
  simpl. unfold one_if_backup at 2. rewrite decide_False by done. lia.
Qed.

Lemma account_role_backups old new s s' :
  backups s' = backups s -> backups (account_role old new s') = backups (account_role old new s).
Proof. intros H. unfold account_role. repeat case_bool_decide; simpl; congruence. Qed.

Lemma ok_replace_held s r now : ok s -> ok (replace_held r now s) /\ meta (replace_held r now s) !! r = None.
Proof.
  intros Hok. unfold replace_held. destruct (meta s !! r) as [g|] eqn:Hg; [|done].
  set (s1 := account_role _ _ _).
  destruct (account_role_fields (Some (m_role g)) None (set_meta (delete r (meta s)) s))
    as (Hm & HM & _). fold s1 in Hm, HM. simpl in Hm, HM.
  destruct (remove_body (m_role g) (m_primary g) r (indexes (m_ref g)) (mem s1)) as [removed m] eqn:Er.
  set (s2 := set_tombs _ _).
  assert (ok s2 /\ meta s2 !! r = None) as [Hok2 Hn].
  { split; [|simpl; rewrite HM; apply lookup_delete_eq].
    eapply (ok_remove s r g (indexes (m_ref g))); [done|done|..]; simpl.
    - rewrite Hm in Er. unfold remove_body in Er. by injection Er as _ <-.
    - done.
    - by apply account_role_backups. }
  destruct removed as [b|]; [|done].
  destruct (keep_if_fields (bool_decide (m_role g = Backup) && (0 <? call_bgen (m_ref g)))
              (incarnation (m_ref g)) b s2) as (K1 & K2 & _ & K4 & _).
  split; [by eapply ok_same|by rewrite K2].
Qed.

Lemma ok_admits s r inc b role dir now :
  ok s -> ok (admits r inc b role dir now s).2.
Proof.
  intros Hok. unfold admits. destruct (burial r inc now (tombstones s)) as [[]|]; [done|..].
  - simpl. destruct (keep_if_fields (bool_decide (role = Backup)) inc b
      (match inc with Some _ => set_tombs (bury r inc Replaced now (tombstones s)) s | None => s end))
      as (K1 & K2 & _ & K4 & _).
    eapply ok_same; [exact K1|exact K2|exact K4|]. by destruct inc.
  - destruct (negb _); [done|]. case_bool_decide; simpl.
    + destruct (keep_if_fields (bool_decide (role = Backup)) inc b
        (set_tombs (bury r inc Replaced now (tombstones s)) s)) as (K1 & K2 & _ & K4 & _).
      by eapply ok_same; [exact K1|exact K2|exact K4|].
    + by apply ok_replace_held.
Qed.

Lemma ok_write_put s role primary r b ixs ttl pg bg opts now :
  ok s -> place r = (role, primary) -> ok (write_put role primary r b ixs ttl pg bg opts now s).
Proof.
  intros Hok Hp. unfold write_put.
  set (inc := match o_incarnation opts with Some _ => _ | None => _ end).
  pose proof (ok_admits s r inc b role (o_direction opts) now Hok) as Ha.
  destruct (admits r inc b role (o_direction opts) now s) as [ok1 s1]. simpl in Ha.
  destruct ok1; simpl; [|done].
  set (s2 := set_mem _ s1). set (e := written_meta _ _ _ _ _ _).
  assert (m_role e = role /\ m_primary e = primary) as [Hr Hpr].
  { unfold e, written_meta. by destruct (meta s1 !! r). }
  destruct (account_role_fields (m_role <$> meta s1 !! r) (Some role) s2) as (F1 & F2 & F3 & F4 & _).
  set (s3 := account_role _ _ s2) in *.
  assert (ok (set_refusals (rf_clear r (replicas s3)) (unbacked s3)
                (set_meta (<[r := e]> (meta s3)) s3))) as Hok3.
  { unfold store_ok. simpl. rewrite F1, F2. simpl. rewrite <-Hr, <-Hpr.
    eapply lock_ok_store; [exact Ha|by rewrite Hr, Hpr|].
    unfold s3. rewrite Hr. by rewrite (account_role_count _ _ s2 _ (lk_count _ _ _ _ Ha)). }
  destruct (o_peer opts); [|done]. by eapply ok_same; [..|exact Hok3].
Qed.

Lemma ok_write_delete s role primary r ixs ans opts now :
  ok s -> place r = (role, primary) -> ok (write_delete role primary r ixs ans opts now s).
Proof.
  intros Hok Hp. unfold write_delete. destruct (_ && _); [by eapply ok_same; [..|exact Hok]|].
  cbn [meta set_mem].
  set (s1 := match meta s !! r with Some _ => _ | None => _ end).
  assert (ok s1) as Hok1.
  { unfold s1. destruct (meta s !! r) as [g|] eqn:Hg.
    - pose proof (lk_place _ _ _ _ Hok r g Hg) as Hg'. rewrite Hp in Hg'. injection Hg' as -> ->.
      destruct (account_role_fields (Some (m_role g)) None (set_meta (delete r (meta s))
        (set_mem (remove_body (m_role g) (m_primary g) r ixs (mem s)).2 s))) as (F1 & F2 & _).
      eapply (ok_remove s r g ixs); [done|done|by rewrite F1|by rewrite F2|].
      by apply account_role_backups.
    - unfold store_ok. simpl. replace role with (place r).1 by (by rewrite Hp).
      replace primary with (place r).2 by (by rewrite Hp).
      eapply lock_ok_remove; [done|exact Hok|]. rewrite Hg. simpl.
      rewrite (lk_count _ _ _ _ Hok). f_equal. unfold one_if_backup.
      rewrite decide_False by done. lia. }
  destruct (o_peer opts); by eapply ok_same; [..|exact Hok1].
Qed.

Lemma ok_alter s r f s' :
  (forall e, m_role (f e) = m_role e /\ m_primary (f e) = m_primary e) ->
  mem s' = mem s -> meta s' = alter f r (meta s) -> backups s' = backups s -> ok s -> ok s'.
Proof.
  intros Hf Hm HM Hb Hok. unfold store_ok. rewrite Hm, HM, Hb. by apply lock_ok_alter.
Qed.

Lemma insert_no_backup (M : gmap string CallMeta) r m :
  M !! r = Some m -> <[r := no_backup m]> M = alter no_backup r M.
Proof. intros Hm. apply map_eq. intros r'. by_key r r'; done. Qed.

Lemma ok_exec now o s : ok s -> op_placed o -> ok (store_exec now o s).
Proof.
  intros Hok Hp. destruct o; simpl in *; try (by eapply ok_same; [..|exact Hok]).
  - by apply ok_write_put.
  - by apply ok_write_delete.
  - unfold backup_refused. destruct (meta s !! r) as [m|] eqn:Hm; [|done].
    destruct (negb _ || negb _); [done|]. destruct (match inc with Some _ => _ | None => _ end); [done|].
    eapply (ok_alter s r no_backup); [done|done| |done|exact Hok].
    simpl. by apply insert_no_backup.
  - unfold abandon_backup. cbn [meta leave_unbacked set_refusals].
    destruct (meta s !! r) as [m|] eqn:Hm; [|by eapply ok_same; [..|exact Hok]].
    case_bool_decide; [|by eapply ok_same; [..|exact Hok]].
    eapply (ok_alter s r no_backup); [done|done| |done|exact Hok].
    simpl. by apply insert_no_backup.
  - by eapply (ok_alter s r); [|done..|exact Hok].
  - by eapply (ok_alter s r); [|done..|exact Hok].
  - unfold evict_one. destruct (meta s !! r) as [g|] eqn:Hg; [|done].
    destruct (expired_meta now g); [|done].
    destruct (account_role_fields (Some (m_role g)) None (set_meta (delete r (meta s)) s))
      as (F1 & F2 & _).
    set (s1 := account_role _ _ _) in *.
    destruct (remove_body (m_role g) (m_primary g) r (indexes (m_ref g)) (mem s1)) as [b m] eqn:Er.
    eapply (ok_remove s r g (indexes (m_ref g))); [done|done|..]; simpl.
    + rewrite F1 in Er. unfold remove_body in Er. by injection Er as _ <-.
    + by rewrite F2.
    + by apply account_role_backups.
Qed.

Lemma ok_run os s : ok s -> Forall (fun p => op_placed p.2) os -> ok (store_run os s).
Proof.
  revert s. induction os as [|[now o] os IH]; intros s Hok Hos; [done|].
  apply Forall_cons in Hos as [Ho Hos]. apply IH; [by apply ok_exec|done].
Qed.

Lemma ok_new cl : ok (store_new cl).
Proof.
  split; simpl.
  - intros k r Hk. simpl in Hk. by apply lookup_empty_Some in Hk.
  - by intros k r Hk%lookup_empty_Some.
  - by intros r e He%lookup_empty_Some.
  - intros key. rewrite lookup_empty. split; [by intros []|].
    intros (r & Hr & _). rewrite lookup_empty in Hr. by destruct Hr.
  - done.
Qed.
End lockstep.

(** ** Burials *)

Section burials.
(** A call deleted at [t], within its window. *)
Context (r i : string) (t : Z).

Definition in_window (now : Z) : Prop := t <= now < t + RESURRECTION_TOMBSTONE_MS.

Definition buried (ts : Tombstones) : Prop :=
  exists l tb, ts !! r = Some l /\ tb ∈ l /\ t_incarnation tb = Some i /\ in_window (buried_at_ms tb).

(** The call stays buried, and is not the one held. *)
Definition gone (s : ReplStore) : Prop :=
  buried (tombstones s) /\ forall m, meta s !! r = Some m -> incarnation (m_ref m) <> Some i.

Lemma in_window_standing now tb :
  in_window now -> in_window (buried_at_ms tb) -> standing now tb = true.
Proof.
  unfold in_window, standing. intros Hn Hb. apply Z.ltb_lt. rewrite i64_sub_exact; [lia|].
  unfold in_i64, i64_MIN, i64_MAX, RESURRECTION_TOMBSTONE_MS in *. lia.
Qed.

Lemma buried_bury ts r' inc b now :
  in_window now -> buried ts -> buried (bury r' inc b now ts).
Proof.
  intros Hn (l & tb & Hl & Hin & Hi & Hw). unfold bury, buried.
  destruct (decide (r' = r)) as [->|Hr]; [|exists l, tb; by rewrite lookup_insert_ne].
  rewrite Hl. simpl.
  eexists. destruct (decide (inc = Some i)) as [->|Hne].
  - exists (mkTomb now (Some i) b). refine (conj (lookup_insert_eq _ _ _) (conj _ (conj eq_refl Hn))).
    apply elem_of_app. right. by apply list_elem_of_singleton.
  - exists tb. refine (conj (lookup_insert_eq _ _ _) (conj _ (conj Hi Hw))). apply elem_of_app. left.
    apply list_elem_of_filter. split; [congruence|done].
Qed.

Lemma bury_buries ts b now : in_window now -> buried (bury r (Some i) b now ts).
Proof.
  intros Hn. unfold bury, buried. eexists _, (mkTomb now (Some i) b).
  refine (conj (lookup_insert_eq _ _ _) (conj _ (conj eq_refl Hn))).
  apply elem_of_app. right. by apply list_elem_of_singleton.
Qed.

Lemma buried_prune ts now : in_window now -> buried ts -> buried (prune now ts).
Proof.
  intros Hn (l & tb & Hl & Hin & Hi & Hw). unfold prune, buried.
  exists (filter (fun t => standing now t = true) l), tb.
  assert (tb ∈ filter (fun t => standing now t = true) l) as Hf.
  { apply list_elem_of_filter. split; [by apply in_window_standing|done]. }
  refine (conj _ (conj Hf (conj Hi Hw))). apply map_lookup_filter_Some.
  rewrite lookup_fmap, Hl. split; [done|]. simpl. intros Hnil. rewrite Hnil in Hf. by apply elem_of_nil in Hf.
Qed.

Lemma min_burial_Some b l : b ∈ l -> is_Some (min_burial l).
Proof.
  destruct l as [|[] l]; [by intros ?%elem_of_nil|by eexists|]. simpl.
  destruct (min_burial l) as [[]|]; by eexists.
Qed.

Lemma buried_burial ts now inc :
  in_window now -> buried ts -> inc = Some i \/ inc = None -> is_Some (burial r inc now ts).
Proof.
  intros Hn (l & tb & Hl & Hin & Hi & Hw) Hinc. unfold burial. rewrite Hl.
  apply (min_burial_Some (t_burial tb)). apply list_elem_of_fmap. exists tb. split; [done|].
  apply list_elem_of_filter. split.
  - destruct Hinc as [->| ->]; simpl; [by apply bool_decide_eq_true_2|done].
  - apply list_elem_of_filter. split; [by apply in_window_standing|done].
Qed.

Lemma gone_same s s' :
  buried (tombstones s') -> meta s' !! r = meta s !! r -> gone s -> gone s'.
Proof. intros Hb Hm [_ Hg]. split; [done|]. by rewrite Hm. Qed.

(** What the incarnation rule changes. *)
Lemma admits_tombs r' inc b role dir now s :
  in_window now -> buried (tombstones s) -> buried (tombstones (admits r' inc b role dir now s).2).
Proof.
  intros Hn Hb. unfold admits. destruct (burial r' inc now (tombstones s)) as [[]|]; [done|..]; simpl.
  - destruct (keep_if_fields (bool_decide (role = Backup)) inc b
      (match inc with Some _ => set_tombs (bury r' inc Replaced now (tombstones s)) s | None => s end))
      as (_ & _ & -> & _). destruct inc; [by apply buried_bury|done].
  - destruct (negb _); [done|]. case_bool_decide; simpl.
    + destruct (keep_if_fields (bool_decide (role = Backup)) inc b
        (set_tombs (bury r' inc Replaced now (tombstones s)) s)) as (_ & _ & -> & _).
      by apply buried_bury.
    + unfold replace_held. destruct (meta s !! r') as [g|]; [|done].
      destruct (account_role_fields (Some (m_role g)) None (set_meta (delete r' (meta s)) s))
        as (_ & _ & F3 & _).
      destruct (remove_body _ _ _ _ _) as [removed m].
      assert (buried (tombstones (set_tombs (bury r' (incarnation (m_ref g)) Replaced now
        (tombstones (account_role (Some (m_role g)) None (set_meta (delete r' (meta s)) s))))
        (set_mem m (account_role (Some (m_role g)) None (set_meta (delete r' (meta s)) s)))))) as Hb'.
      { simpl. rewrite F3. by apply buried_bury. }
      destruct removed as [b'|]; [|done].
      match goal with |- buried (tombstones (keep_if ?c ?i ?b ?s)) =>
        destruct (keep_if_fields c i b s) as (_ & _ & -> & _) end. done.
Qed.

Lemma admits_meta r' inc b role dir now s :
  (forall m, meta (admits r' inc b role dir now s).2 !! r = Some m -> meta s !! r = Some m).
Proof.
  intros m'. unfold admits. destruct (burial r' inc now (tombstones s)) as [[]|]; [done|..]; simpl.
  - destruct (keep_if_fields (bool_decide (role = Backup)) inc b
      (match inc with Some _ => set_tombs (bury r' inc Replaced now (tombstones s)) s | None => s end))
      as (_ & -> & _). by destruct inc.
  - destruct (negb _); [done|]. case_bool_decide; simpl.
    + destruct (keep_if_fields (bool_decide (role = Backup)) inc b
        (set_tombs (bury r' inc Replaced now (tombstones s)) s)) as (_ & -> & _). done.
    + unfold replace_held. destruct (meta s !! r') as [g|]; [|done].
      destruct (account_role_fields (Some (m_role g)) None (set_meta (delete r' (meta s)) s))
        as (_ & F2 & _).
      destruct (remove_body _ _ _ _ _) as [removed m]. simpl in F2.
      assert (forall s', meta s' = delete r' (meta s) -> meta s' !! r = Some m' -> meta s !! r = Some m')
        as Hd.
      { intros s' -> Hl. by apply lookup_delete_Some in Hl as [_ Hl]. }
      destruct removed as [b'|]; [|by apply Hd].
      match goal with |- meta (keep_if ?c ?i ?b ?s) !! _ = _ -> _ =>
        destruct (keep_if_fields c i b s) as (_ & -> & _) end. by apply Hd.
Qed.

(** A write never brings the buried call back. *)
Lemma gone_write_put role primary r' b ixs ttl pg bg opts now s :
  in_window now -> gone s -> gone (write_put role primary r' b ixs ttl pg bg opts now s).
Proof.
  intros Hn [Hb Hg]. unfold write_put.
  set (inc := match o_incarnation opts with Some _ => _ | None => _ end).
  pose proof (admits_tombs r' inc b role (o_direction opts) now s Hn Hb) as Ht.
  pose proof (admits_meta r' inc b role (o_direction opts) now s) as Hm.
  assert (r' = r -> inc = Some i \/ inc = None ->
    (admits r' inc b role (o_direction opts) now s).1 = false) as Hrefused.
  { intros -> Hinc. unfold admits.
    destruct (buried_burial (tombstones s) now inc Hn Hb Hinc) as [[] ->]; done. }
  destruct (admits r' inc b role (o_direction opts) now s) as [ok1 s1]. simpl in *.
  destruct ok1; simpl; [|split; [done|]; intros m Hm'; by apply Hg, Hm].
  destruct (account_role_fields (m_role <$> meta s1 !! r') (Some role)
              (set_mem (store_body role primary r' b ixs (mem s1)) s1)) as (_ & F2 & F3 & _).
  set (s3 := account_role _ _ _) in *. simpl in F2, F3.
  match goal with |- gone (match o_peer opts with Some _ => _ | None => ?s4 end) =>
    assert (gone s4) as [Hg1 Hg2] end.
  { split; [simpl; by rewrite F3|]. intros m. simpl. rewrite F2. by_key r' r.
    - intros [= <-] Hi. assert (inc = Some i) as Hinc.
      { unfold written_meta in Hi. by destruct (meta s1 !! r). }
      by discriminate (Hrefused eq_refl (or_introl Hinc)).
    - intros Hl. by apply Hg, Hm. }
  destruct (o_peer opts); by split.
Qed.

Lemma gone_alter s s' r' f :
  (forall e, m_ref (f e) = m_ref e) -> tombstones s' = tombstones s ->
  meta s' = alter f r' (meta s) -> gone s -> gone s'.
Proof.
  intros Hf Ht Hm [Hb Hg]. split; [by rewrite Ht|]. intros m. rewrite Hm.
  intros Hl. apply lookup_alter_Some in Hl as [(-> & e & He & ->)|[_ Hl]]; [|by apply Hg].
  rewrite Hf. by apply Hg.
Qed.

Lemma gone_delete_meta s s' r' :
  buried (tombstones s') -> meta s' = delete r' (meta s) -> gone s -> gone s'.
Proof.
  intros Hb Hm [_ Hg]. split; [done|]. intros m. rewrite Hm. intros [_ Hl]%lookup_delete_Some.
  by apply Hg.
Qed.

Lemma gone_write_delete role primary r' ixs ans opts now s :
  in_window now -> gone s -> gone (write_delete role primary r' ixs ans opts now s).
Proof.
  intros Hn Hg. pose proof Hg as [Hb _]. unfold write_delete.
  destruct (_ && _); [eapply (gone_same s); [|done|exact Hg]; by apply buried_bury|].
  cbn [meta set_mem].
  set (s1 := match meta s !! r' with Some _ => _ | None => _ end).
  assert (tombstones s1 = tombstones s /\ meta s1 = delete r' (meta s)) as [H1 H2].
  { unfold s1. destruct (meta s !! r') as [g|]; [|done].
    destruct (account_role_fields (Some (m_role g)) None (set_meta (delete r' (meta s))
      (set_mem (remove_body role primary r' ixs (mem s)).2 s))) as (_ & F2 & F3 & _). done. }
  destruct (o_peer opts); (eapply gone_delete_meta; [|exact H2|exact Hg]); simpl; rewrite H1;
    by apply buried_bury.
Qed.

Lemma gone_exec now o s : in_window now -> gone s -> gone (store_exec now o s).
Proof.
  intros Hn Hg. pose proof Hg as [Hb _].
  destruct o; simpl; try (by eapply (gone_same s); [..|exact Hg]).
  - by apply gone_write_put.
  - by apply gone_write_delete.
  - unfold backup_refused. destruct (meta s !! r0) as [m|] eqn:Hm; [|done].
    destruct (negb _ || negb _); [done|]. destruct (match inc with Some _ => _ | None => _ end); [done|].
    eapply (gone_alter s _ r0 no_backup); [done|done| |exact Hg]. simpl. by apply insert_no_backup.
  - unfold abandon_backup. cbn [meta leave_unbacked set_refusals].
    destruct (meta s !! r0) as [m|] eqn:Hm; [|by eapply (gone_same s); [..|exact Hg]].
    case_bool_decide; [|by eapply (gone_same s); [..|exact Hg]].
    eapply (gone_alter s _ r0 no_backup); [done|done| |exact Hg]. simpl. by apply insert_no_backup.
  - by eapply (gone_alter s _ r0); [|done|done|exact Hg].
  - by eapply (gone_alter s _ r0); [|done|done|exact Hg].
  - eapply (gone_same s); [|done|exact Hg]. by apply buried_prune.
  - unfold evict_one. destruct (meta s !! r0) as [g|] eqn:Hm; [|done].
    destruct (expired_meta now g); [|done].
    destruct (account_role_fields (Some (m_role g)) None (set_meta (delete r0 (meta s)) s))
      as (_ & F2 & F3 & _).
    destruct (remove_body _ _ _ _ _) as [b m]. simpl.
    eapply gone_delete_meta; [|exact F2|exact Hg]. simpl. by rewrite F3.
Qed.

Lemma gone_run os s :
  Forall (fun p => in_window p.1) os -> gone s -> gone (store_run os s).
Proof.
  revert s. induction os as [|[now o] os IH]; intros s Hos Hg; [done|].
  apply Forall_cons in Hos as [Ho Hos]. apply IH; [done|by apply gone_exec].
Qed.
End burials.

(** ** Refusals *)

Record rf_ok (s : RefusedReplicas) : Prop := {
  rf_sorted : keys_sorted (order s);
  rf_entry c r : (c, r) ∈ order s <-> exists f, rf_by_ref s !! r = Some f /\ seq f = c;
  rf_size : size (rf_by_ref s) = length (order s);
  rf_next r f : rf_by_ref s !! r = Some f -> 0 <= seq f < next_seq s;
}.

(** The slot of one refusal removed. *)
Lemma rf_remove_slot s r f p :
  rf_ok s -> rf_by_ref s !! r = Some f ->
  p ∈ bt_remove (seq f) (order s) <-> p ∈ order s /\ p.2 <> r.
Proof.
  intros Hs Hf. destruct p as [c r']. rewrite elem_of_bt_remove. simpl.
  split; intros [Hin Hne]; (split; [done|]); intros ->; apply Hne.
  - apply Hs in Hin as (f' & Hf' & <-). congruence.
  - eapply keys_unique; [apply Hs|done|]. apply Hs. eauto.
Qed.

Lemma rf_clear_ok s r : rf_ok s -> rf_ok (rf_clear r s).
Proof.
  intros Hs. unfold rf_clear. destruct (rf_by_ref s !! r) as [f|] eqn:Hf; [|done].
  split; simpl.
  - apply keys_sorted_remove, Hs.
  - intros c r'. rewrite (rf_remove_slot s r f) by done. simpl. by_key r r'.
    + split; [by intros [_ []]|]. by intros (? & ? & _).
    + rewrite (rf_entry _ Hs). intuition.
  - rewrite map_size_delete_Some by (by eexists).
    rewrite (rf_size _ Hs), <-(length_bt_remove (order s) (seq f) r); [done|apply Hs|].
    apply Hs. eauto.
  - intros r' f' [_ Hf']%lookup_delete_Some. by eapply Hs.
Qed.

Lemma rf_clear_lookup s r r' :
  rf_by_ref (rf_clear r s) !! r' = if decide (r = r') then None else rf_by_ref s !! r'.
Proof.
  unfold rf_clear. destruct (rf_by_ref s !! r) as [f|] eqn:Hf; simpl; case_decide; subst;
    by simplify_map_eq.
Qed.

Lemma rf_clear_next s r : next_seq (rf_clear r s) = next_seq s.
Proof. unfold rf_clear. by destruct (rf_by_ref s !! r). Qed.

Lemma rf_clear_size s r : (size (rf_by_ref (rf_clear r s)) <= size (rf_by_ref s))%nat.
Proof.
  unfold rf_clear. destruct (rf_by_ref s !! r) as [f|] eqn:Hf; [|done]. simpl.
  rewrite map_size_delete_Some by (by eexists). lia.
Qed.

Lemma rf_clear_where_ok P s :
  rf_ok s -> rf_ok (rf_clear_where P s) /\ next_seq (rf_clear_where P s) = next_seq s
  /\ (size (rf_by_ref (rf_clear_where P s)) <= size (rf_by_ref s))%nat.
Proof.
  unfold rf_clear_where. generalize (map fst (filter (fun kv => P kv.2 = true)
    (map_to_list (rf_by_ref s)))). intros l.
  revert s. induction l as [|r l IH]; intros s Hs; [done|]. cbn [foldl].
  destruct (IH (rf_clear r s)) as (H1 & H2 & H3); [by apply rf_clear_ok|].
  rewrite H2, rf_clear_next. split_and!; [done..|]. pose proof (rf_clear_size s r). lia.
Qed.

(** The eviction leaves room, dropping the oldest first. *)
Lemma rf_evict_ok cap s ord m :
  rf_ok s -> (0 < cap)%nat -> rf_evict cap (order s) (rf_by_ref s) = (ord, m) ->
  rf_ok (mkRefused m ord (next_seq s)) /\ (size m < cap)%nat
  /\ (forall r f, m !! r = Some f -> rf_by_ref s !! r = Some f)
  /\ (forall r f, rf_by_ref s !! r = Some f -> m !! r = None ->
      (cap <= size (rf_by_ref s))%nat /\ forall r' f', m !! r' = Some f' -> seq f < seq f').
Proof.
  intros Hs Hcap. destruct s as [bm o n]. cbn [order rf_by_ref next_seq].
  revert bm Hs. induction o as [|[c oldest] o IH]; intros bm Hs; cbn [rf_evict].
  all: destruct (Nat.ltb_spec (size bm) cap) as [Hlt|Hge].
  1, 3: intros [= <- <-]; split_and!; [done..|]; intros; congruence.
  { pose proof (rf_size _ Hs) as Hz. simpl in Hz. lia. }
  intros Hev.
  assert ((c, oldest) ∈ (c, oldest) :: o) as Hin by (by left).
  apply (rf_entry _ Hs) in Hin as (fo & Hfo & Hseq). simpl in Hfo.
  pose proof (rf_clear_ok _ oldest Hs) as Hc. unfold rf_clear in Hc. simpl in Hc. rewrite Hfo in Hc.
  assert (bt_remove (seq fo) ((c, oldest) :: o) = o) as Hrm.
  { unfold bt_remove. rewrite filter_cons_False by (simpl; rewrite Hseq; tauto).
    apply filter_all. intros q Hq. pose proof (rf_sorted _ Hs) as Hso. simpl in Hso.
    apply StronglySorted_inv in Hso as [_ Hso]. rewrite Forall_forall in Hso.
    apply Hso in Hq. simpl in Hq. lia. }
  rewrite Hrm in Hc. destruct (IH _ Hc Hev) as (H1 & H2 & H3 & H4).
  split_and!; [done|done|..].
  - intros r f Hm. by apply H3, lookup_delete_Some in Hm as [_ Hm].
  - intros r f Hf Hm. split; [done|]. intros r' f' Hm'.
    destruct (decide (r = oldest)) as [->|Hne].
    + simplify_eq. assert ((seq f', r') ∈ o) as Hq.
      { apply (rf_entry _ Hc). exists f'. split; [by apply H3|done]. }
      pose proof (rf_sorted _ Hs) as Hso. simpl in Hso.
      apply StronglySorted_inv in Hso as [_ Hso]. rewrite Forall_forall in Hso.
      apply Hso in Hq. simpl in Hq. lia.
    + eapply H4; [by rewrite lookup_delete_ne|done|done].
Qed.

(** A refusal is recorded, the cap kept, only older ones dropped. *)
Lemma refuse_ok cap s r inc primary now :
  rf_ok s -> (0 < cap)%nat -> next_seq s < u64_MAX -> 0 <= next_seq s ->
  let s' := refuse cap r inc primary now s in
  rf_ok s' /\ (size (rf_by_ref s') <= cap)%nat /\ next_seq s' = next_seq s + 1
  /\ refuses r inc s' = true
  /\ (forall r' f, r' <> r -> rf_by_ref s !! r' = Some f -> rf_by_ref s' !! r' = None ->
      (cap <= size (rf_by_ref s))%nat
      /\ forall r'' f'', rf_by_ref s' !! r'' = Some f'' -> seq f < seq f'').
Proof.
  intros Hs Hcap Hmax Hn. pose proof (rf_clear_ok s r Hs) as Hc. unfold refuse.
  set (s1 := rf_clear r s) in *.
  assert (next_seq s1 = next_seq s) as Hns by apply rf_clear_next.
  destruct (rf_evict cap (order s1) (rf_by_ref s1)) as [ord m] eqn:Hev.
  destruct (rf_evict_ok cap s1 ord m Hc Hcap Hev) as (H1 & H2 & H3 & H4).
  assert (m !! r = None) as Hr.
  { destruct (m !! r) as [f|] eqn:E; [|done]. apply H3 in E. unfold s1 in E.
    rewrite rf_clear_lookup, decide_True in E by done. done. }
  assert (Forall (fun p => p.1 < next_seq s) ord) as Hlt.
  { apply Forall_forall. intros [c r'] Hin. apply (rf_entry _ H1) in Hin as (f & Hf & <-).
    simpl in *. apply H3, Hc in Hf. lia. }
  assert (u64_add (next_seq s1) 1 = next_seq s + 1) as Hadd.
  { unfold u64_add, u64_wrap, u64_MAX in *. rewrite Hns, Z.mod_small; lia. }
  cbn [rf_by_ref next_seq]. rewrite Hadd, Hns, (bt_insert_last _ _ _ Hlt). split_and!.
  - split; simpl.
    + apply keys_sorted_snoc; [apply (rf_sorted _ H1)|done].
    + intros c r'. rewrite elem_of_app, list_elem_of_singleton. rewrite (rf_entry _ H1). simpl.
      by_key r r'.
      * split; [intros [(f & ? & _)|[= ->]]; [congruence|eauto]|].
        intros (f & [= <-] & <-). by right.
      * split; [intros [?|[= _ ->]]; done|]. by left.
    + rewrite map_size_insert_None by done. rewrite length_app. simpl.
      pose proof (rf_size _ H1). simpl in *. lia.
    + intros r' f. by_key r r'; [intros [= <-]; simpl; lia|]. intros Hf.
      apply H3, Hc in Hf. lia.
  - rewrite map_size_insert_None by done. lia.
  - done.
  - unfold refuses. simpl. simplify_map_eq. destruct inc; [by apply bool_decide_eq_true_2|done].
  - intros r' f Hne Hf. rewrite lookup_insert_ne by done. intros Hm.
    destruct (H4 r' f) as [Hsz Hold]; [|done|].
    { unfold s1. by rewrite rf_clear_lookup, decide_False. }
    split; [unfold s1 in Hsz; pose proof (rf_clear_size s r); lia|].
    intros r'' f''. by_key r r''; [|by apply Hold].
    intros [= <-]. simpl. apply Hs in Hf. lia.
Qed.
