(* ===== verification/ReplStoreProps.v ===== *)
(** * What the replicating store promises

    Lockstep and the index, delete-wins, the rule of a write, and the refusals,
    with their witnesses. *)

From S2P Require Import Prelude ReplFrame Changelog ChangelogInv ReplStore ReplStoreInv ReplStoreSteps.

Open Scope Z_scope.

(** C24: bodies, metadata, routing index and backup gauge stay in lockstep.
    After any sequence of writes, deletes, refusals, reap turns and the rest,
    interleaved in any order, with each reference written in its own partition:
    the bodies held are exactly those of the references with metadata, each
    under its metadata's partition (so nothing leaks and nothing is read
    without its version), the gauge of backup replicas is the number of
    metadata entries in a backup partition, and an index key points only at a
    call that is held. *)
Theorem store_lockstep place os cl :
  (forall r, plain (place r).2) -> Forall (fun p => op_placed place p.2) os ->
  let s := store_run os (store_new cl) in
  (forall key, is_Some (bodies (mem s) !! key)
     <-> exists r m, meta s !! r = Some m /\ key = body_key (m_role m) (m_primary m) r)
  /\ backups s = u64_wrap (backup_count (meta s))
  /\ (forall k r, idx (mem s) !! k = Some r -> is_Some (meta s !! r)).
Proof.
  intros Hp Hos s. pose proof (ok_run place Hp os _ (ok_new place cl) Hos) as Hok. fold s in Hok.
  split_and!.
  - intros key. rewrite (lk_bodies _ _ _ _ Hok). split.
    + intros (r & [m Hm] & ->). exists r, m. split; [done|]. unfold key_of.
      by rewrite (lk_place _ _ _ _ Hok r m Hm).
    + intros (r & m & Hm & ->). exists r. split; [by eexists|]. unfold key_of.
      by rewrite (lk_place _ _ _ _ Hok r m Hm).
  - apply Hok.
  - apply Hok.
Qed.

(** Removing a call removes every routing index entry that points at it,
    and no other call's, whatever keys the delete names: a replicated delete,
    which carries no keys, strands none. *)
Theorem store_delete_index place os cl role primary r ixs ans opts now :
  (forall r, plain (place r).2) -> Forall (fun p => op_placed place p.2) os ->
  let s := store_run os (store_new cl) in
  is_another_call (m ← meta s !! r; incarnation (m_ref m)) (o_incarnation opts) = false ->
  let s' := write_delete role primary r ixs ans opts now s in
  forall k r', idx (mem s') !! k = Some r' <-> idx (mem s) !! k = Some r' /\ r' <> r.
Proof.
  intros Hp Hos s Hno s' k r'.
  pose proof (ok_run place Hp os _ (ok_new place cl) Hos) as Hok. fold s in Hok.
  assert (mem s' = (remove_body role primary r ixs (mem s)).2) as ->.
  { unfold s', write_delete. rewrite Hno, andb_false_r.
    assert (forall o n x, mem (account_role o n x) = mem x) as Ha
      by (intros; apply account_role_fields).
    destruct (o_peer opts), (meta s !! r) eqn:Em; simpl; rewrite Em, ?Ha; done. }
  apply remove_body_idx, Hok.
Qed.

(** C26: delete wins.  From the moment a call is deleted, or its deletion is
    learnt while another call holds the reference, and for the whole tombstone
    window, no sequence of writes, replicas, reaps or other operations makes
    the store hold that call again. *)
Theorem store_no_resurrection s role primary r ixs ans opts t i os :
  o_incarnation opts = Some i
    \/ (o_incarnation opts = None /\ (m ← meta s !! r; incarnation (m_ref m)) = Some i) ->
  Forall (fun p => t <= p.1 < t + RESURRECTION_TOMBSTONE_MS) os ->
  forall m, meta (store_run os (write_delete role primary r ixs ans opts t s)) !! r = Some m ->
    incarnation (m_ref m) <> Some i.
Proof.
  intros Hi Hos. apply (gone_run r i t os); [done|].
  assert (in_window t t) as Hw by (unfold in_window, RESURRECTION_TOMBSTONE_MS; lia).
  unfold write_delete. destruct (_ && _) eqn:E.
  - apply andb_true_iff in E as [Es Ea]. apply bool_decide_eq_true in Es as [m Hm].
    rewrite Hm in *. simpl in *. destruct Hi as [Hi|[Hi _]]; rewrite Hi in *.
    + split; [by apply bury_buries|]. simpl. rewrite Hm. intros m' [= <-] Heq.
      rewrite Heq in Ea. simpl in Ea. by apply bool_decide_eq_true in Ea.
    + by destruct (incarnation (m_ref m)).
  - cbn [meta set_mem].
    set (s1 := match meta s !! r with Some _ => _ | None => _ end).
    set (inc := match o_incarnation opts with Some _ => _ | None => _ end).
    assert (inc = Some i) as Hinc.
    { unfold inc. destruct Hi as [->|[-> Hh]]; [done|]. by destruct (meta s !! r). }
    assert (meta s1 = delete r (meta s)) as H2.
    { unfold s1. destruct (meta s !! r) as [g|]; [|done].
      apply (account_role_fields (Some (m_role g)) None). }
    destruct (o_peer opts); (split; [simpl; rewrite Hinc; by apply bury_buries|]);
      simpl; rewrite H2, lookup_delete_eq; done.
Qed.

Lemma burial_bury r i b now ts : burial r (Some i) now (bury r (Some i) b now ts) = Some b.
Proof.
  unfold burial, bury. rewrite lookup_insert_eq, !filter_app.
  rewrite (filter_none (fun t => names (Some i) t = true)).
  - rewrite filter_cons_True.
    + simpl. rewrite filter_cons_True; [by destruct b|]. simpl. by apply bool_decide_eq_true_2.
    + unfold standing. simpl. rewrite i64_sub_exact; [|unfold in_i64, i64_MIN, i64_MAX; lia].
      rewrite Z.sub_diag. done.
  - intros t [_ [Hne _]%list_elem_of_filter]%list_elem_of_filter Hn.
    by apply bool_decide_eq_true in Hn.
Qed.

(** What a refused write leaves alone. *)
Definition unmoved (s s' : ReplStore) : Prop :=
  meta s' = meta s /\ mem s' = mem s /\ log s' = log s /\ backups s' = backups s.

(** The metadata a stored write leaves. *)
Definition written (s s' : ReplStore) (role : PartitionRole) (primary r : string) (b : body)
    (pg bg : Z) (inc : option string) (backup : option string) (answered : bool) : Prop :=
  mem_body role primary r (mem s') = Some b
  /\ exists m, meta s' !! r = Some m
     /\ (call_gen (m_ref m), call_bgen (m_ref m)) = (pg, bg) /\ incarnation (m_ref m) = inc
     /\ m_role m = role /\ m_primary m = primary
     /\ m_backup m = backup /\ m_authority_answered m = answered.

Definition flushed_backup (opts : PutOpts) : option string :=
  match o_direction opts, o_peer opts with Some Forward, Some p => Some p | _, _ => None end.

(** The last part of a write, once the incarnation rule stored it. *)
Lemma write_put_stored role primary r b ixs ttl pg bg opts now s s1 :
  let inc := match o_incarnation opts with
             | Some i => Some i | None => m ← meta s !! r; incarnation (m_ref m) end in
  admits r inc b role (o_direction opts) now s = (true, s1) ->
  let s' := write_put role primary r b ixs ttl pg bg opts now s in
  tombstones s' = tombstones s1 /\ displaced s' = displaced s1
  /\ written s s' role primary r b pg bg inc
       (match flushed_backup opts with Some p => Some p | None => m ← meta s1 !! r; m_backup m end)
       (match meta s1 !! r with Some m => m_authority_answered m | None => false end).
Proof.
  intros inc Ha s'. unfold s', write_put. fold inc. rewrite Ha. cbn [negb].
  assert (forall o n x, let x' := account_role o n x in
    tombstones x' = tombstones x /\ displaced x' = displaced x /\ mem x' = mem x) as Hacc.
  { intros o n x. destruct (account_role_fields o n x) as (? & ? & ? & ? & ? & ? & ?). done. }
  set (s3 := account_role _ _ _).
  destruct (Hacc (m_role <$> meta (set_mem (store_body role primary r b ixs (mem s1)) s1) !! r)
              (Some role) (set_mem (store_body role primary r b ixs (mem s1)) s1)) as (A1 & A2 & A3).
  fold s3 in A1, A2, A3. simpl in A1, A2, A3.
  unfold written, flushed_backup. destruct (o_peer opts) as [p|]; simpl; rewrite A1, A2, A3.
  all: split_and!; [done..| |].
  1, 3: unfold mem_body, store_body; destruct ixs; apply lookup_insert_eq.
  all: eexists; split; [apply lookup_insert_eq|].
  all: unfold written_meta; destruct (meta s1 !! r), (o_direction opts) as [[]|]; simpl; done.
Qed.

(** Replacing the call held: its metadata goes, it is buried as replaced, and a
    body a backup authored is kept for the reap. *)
Lemma replace_held_spec r now s g :
  meta s !! r = Some g ->
  let s' := replace_held r now s in
  meta s' !! r = None
  /\ tombstones s' = bury r (incarnation (m_ref g)) Replaced now (tombstones s)
  /\ forall id b, incarnation (m_ref g) = Some id -> m_role g = Backup -> 0 < call_bgen (m_ref g) ->
       mem_body (m_role g) (m_primary g) r (mem s) = Some b -> displaced s' !! id = Some b.
Proof.
  intros Hg s'. unfold s', replace_held. rewrite Hg.
  destruct (account_role_fields (Some (m_role g)) None (set_meta (delete r (meta s)) s))
    as (F1 & F2 & F3 & _ & _ & _ & F7).
  set (s1 := account_role _ _ _) in *. simpl in F1, F2, F3, F7.
  destruct (remove_body _ _ _ _ (mem s1)) as [removed m] eqn:Er.
  assert (removed = mem_body (m_role g) (m_primary g) r (mem s)) as ->.
  { unfold remove_body in Er. rewrite F1 in Er. by injection Er as <- _. }
  destruct (mem_body _ _ _ (mem s)) as [b0|].
  - match goal with |- context [keep_if ?c ?i ?b ?x] =>
      destruct (keep_if_fields c i b x) as (_ & -> & -> & _) end.
    simpl. rewrite F2, F3. split; [apply lookup_delete_eq|]. split; [done|].
    intros id b Hid Hrole Hb [= <-]. unfold keep_if.
    rewrite bool_decide_eq_true_2, (proj2 (Z.ltb_lt _ _) Hb) by done. simpl.
    unfold keep_for_reap. rewrite Hid. simpl. apply lookup_insert_eq.
  - simpl. rewrite F2, F3. split; [apply lookup_delete_eq|done].
Qed.

(** The rule of a write.  A buried call's write, and an acting backup's
    write of a call other than the one held, change no body, no version and no
    changelog entry, and the latter is buried as replaced; a write of the call
    held keeps the backup and the authority's answer it does not itself state;
    a write of another call starts them afresh, buries the call it replaces,
    and keeps its body for the reap when a backup authored it. *)
Theorem store_put_rule role primary r b ixs ttl pg bg opts now s :
  let inc := match o_incarnation opts with
             | Some i => Some i | None => m ← meta s !! r; incarnation (m_ref m) end in
  let held := m ← meta s !! r; incarnation (m_ref m) in
  let s' := write_put role primary r b ixs ttl pg bg opts now s in
  match burial r inc now (tombstones s) with
  | Some _ => unmoved s s'
  | None =>
      if is_another_call held inc then
        if bool_decide (o_direction opts = Some Reverse) then
          unmoved s s' /\ burial r inc now (tombstones s') = Some Replaced
        else
          written s s' role primary r b pg bg inc (flushed_backup opts) false
          /\ burial r held now (tombstones s') = Some Replaced
          /\ forall g id b0, meta s !! r = Some g -> incarnation (m_ref g) = Some id ->
               m_role g = Backup -> 0 < call_bgen (m_ref g) ->
               mem_body (m_role g) (m_primary g) r (mem s) = Some b0 ->
               displaced s' !! id = Some b0
      else
        written s s' role primary r b pg bg inc
          (match flushed_backup opts with Some p => Some p | None => m ← meta s !! r; m_backup m end)
          (match meta s !! r with Some m => m_authority_answered m | None => false end)
  end.
Proof.
  intros inc held s'.
  pose proof (write_put_stored role primary r b ixs ttl pg bg opts now s) as Hst. fold inc in Hst.
  assert (forall s1, admits r inc b role (o_direction opts) now s = (false, s1) -> s' = s1) as Hno.
  { intros s1 Ha. unfold s', write_put. fold inc. by rewrite Ha. }
  cbv zeta in Hst. fold s' in Hst. unfold admits in Hst, Hno. fold held in Hst, Hno.
  destruct (burial r inc now (tombstones s)) as [[]|].
  - by rewrite (Hno s eq_refl).
  - rewrite (Hno _ eq_refl). unfold unmoved.
    match goal with |- context [keep_if ?c ?i ?b ?x] =>
      destruct (keep_if_fields c i b x) as (-> & -> & _ & -> & _ & -> & _) end.
    by destruct inc.
  - destruct (is_another_call held inc) eqn:Ea; simpl in *.
    + assert (exists i h, inc = Some i /\ held = Some h) as (i & h & Hi & Hh).
      { unfold is_another_call in Ea. destruct held, inc; try done. eauto. }
      case_bool_decide as Hd.
      * rewrite (Hno _ eq_refl). unfold unmoved.
        match goal with |- context [keep_if ?c ?i ?b ?x] =>
          destruct (keep_if_fields c i b x) as (-> & -> & -> & -> & _ & -> & _) end.
        split; [done|]. simpl. rewrite Hi. apply burial_bury.
      * destruct (Hst _ eq_refl) as (Ht & Hdis & Hw). clear Hst Hno. unfold held in *.
        destruct (meta s !! r) as [g|] eqn:Hg; [|done]. simpl in Hh |- *.
        destruct (replace_held_spec r now s g Hg) as (Hm & Htb & Hdp). rewrite Hm in Hw.
        rewrite Ht, Htb, Hdis, Hh. split_and!; [by destruct (flushed_backup opts)|apply burial_bury|].
        intros g' id b0 [= <-] Hid. apply Hdp. congruence.
    + by destruct (Hst _ eq_refl) as (_ & _ & Hw).
Qed.

(** ** Refusals *)

Inductive rf_op :=
  | RRefuse (r : string) (inc : option string) (primary : string) (now : Z)
  | RClear (r : string)
  | RClearPrimary (primary : string)
  | RReap (now : Z).

Definition rf_exec (cap : nat) (o : rf_op) (s : RefusedReplicas) : RefusedReplicas :=
  match o with
  | RRefuse r inc primary now => refuse cap r inc primary now s
  | RClear r => rf_clear r s
  | RClearPrimary primary => clear_primary primary s
  | RReap now => rf_reap now s
  end.

Definition rf_run (cap : nat) (os : list rf_op) (s : RefusedReplicas) : RefusedReplicas :=
  foldl (fun s o => rf_exec cap o s) s os.

Lemma rf_run_ok cap os s :
  (0 < cap)%nat -> rf_ok s -> (size (rf_by_ref s) <= cap)%nat -> 0 <= next_seq s ->
  next_seq s + Z.of_nat (length os) <= u64_MAX ->
  let s' := rf_run cap os s in
  rf_ok s' /\ (size (rf_by_ref s') <= cap)%nat
  /\ 0 <= next_seq s' <= next_seq s + Z.of_nat (length os).
Proof.
  intros Hcap. revert s. induction os as [|o os IH]; intros s Hs Hz Hn Hmax; [simpl; split_and!; (done || lia)|].
  cbn [length] in Hmax.
  assert (rf_ok (rf_exec cap o s) /\ (size (rf_by_ref (rf_exec cap o s)) <= cap)%nat
    /\ 0 <= next_seq (rf_exec cap o s) <= next_seq s + 1) as (H1 & H2 & H3).
  { destruct o; simpl.
    - destruct (refuse_ok cap s r inc primary now Hs Hcap) as (? & ? & ? & _); [lia|lia|].
      split_and!; [done|done|lia..].
    - pose proof (rf_clear_size s r). rewrite rf_clear_next.
      split_and!; [by apply rf_clear_ok|lia..].
    - destruct (rf_clear_where_ok (fun f => bool_decide (rf_primary f = primary)) s Hs) as (? & ? & ?).
      unfold clear_primary. split_and!; [done|lia..].
    - destruct (rf_clear_where_ok (fun f => rf_expiry_at_ms f <=? now) s Hs) as (? & ? & ?).
      unfold rf_reap. split_and!; [done|lia..]. }
  destruct (IH (rf_exec cap o s)) as (? & ? & ?); [done|done|lia|lia|].
  change (rf_run cap (o :: os) s) with (rf_run cap os (rf_exec cap o s)).
  cbn [length]. cbv zeta. split_and!; [done|done|lia..].
Qed.

(** A backup keeps at most [cap] refusals ([REFUSALS_MAX] in the store)
    through any sequence of refusals, clears and reaps, their order and their
    map agreeing; a new refusal stands at once, and one it displaces is older
    than every refusal left, displaced only at the cap. *)
Theorem refusals_bounded cap os r inc primary now :
  (0 < cap)%nat -> Z.of_nat (length os) < u64_MAX ->
  let s := rf_run cap os refused_new in
  let s' := refuse cap r inc primary now s in
  rf_ok s' /\ (size (rf_by_ref s') <= cap)%nat /\ refuses r inc s' = true
  /\ forall r' f, r' <> r -> rf_by_ref s !! r' = Some f -> rf_by_ref s' !! r' = None ->
     (cap <= size (rf_by_ref s))%nat
     /\ forall r'' f'', rf_by_ref s' !! r'' = Some f'' -> seq f < seq f''.
Proof.
  intros Hcap Hlen s s'.
  assert (rf_ok refused_new) as Hnew.
  { split; simpl; [constructor| |by rewrite map_size_empty|by intros r' f ?%lookup_empty_Some].
    intros c r'. split; [by intros ?%elem_of_nil|]. by intros (f & ?%lookup_empty_Some & _). }
  destruct (rf_run_ok cap os refused_new Hcap Hnew) as (H1 & H2 & H3);
    [cbn [rf_by_ref refused_new]; rewrite map_size_empty; lia|done|simpl; lia|].
  fold s in H1, H2, H3. simpl in H3.
  destruct (refuse_ok cap s r inc primary now H1 Hcap) as (? & ? & ? & ? & ?); [lia|lia|].
  done.
Qed.

(** ** Witnesses *)

(** A node [w1]: its own calls in [pri:w1], the rest it backs up for [w0]. *)
Definition ex_place (r : string) : PartitionRole * string :=
  if bool_decide (r = "w1|c1|t") then (Primary, "w1") else (Backup, "w0").

Lemma ex_place_plain r : plain (ex_place r).2.
Proof.
  unfold ex_place, plain. case_bool_decide; simpl;
    rewrite !not_elem_of_cons; (split_and!; try discriminate); apply not_elem_of_nil.
Qed.

Definition ex_put (inc : string) (bg : Z) : store_op :=
  SPut Backup "w0" "w0|c2|t" [7] ["a:x"; "b:y"] 60000 1 bg (mkPutOpts None None (Some 5) (Some inc)).

Definition ex_store_ops : list (Z * store_op) :=
  [(10, SPut Primary "w1" "w1|c1|t" [1; 2] ["a:c1"] 0 1 0
          (mkPutOpts (Some "w0") (Some Forward) None (Some "i1")));
   (11, ex_put "i2" 1); (12, SNoteAnswer "w0|c2|t")].

Lemma ex_store_placed : Forall (fun p => op_placed ex_place p.2) ex_store_ops.
Proof. repeat constructor. Qed.

Lemma store_lockstep_witness :
  let s := store_run ex_store_ops (store_new (new 7)) in
  backups s = 1 /\ is_Some (meta s !! "w0|c2|t").
Proof.
  destruct (store_lockstep ex_place ex_store_ops (new 7) ex_place_plain ex_store_placed)
    as (_ & Hb & Hi).
  split.
  - rewrite Hb. vm_compute. reflexivity.
  - apply (Hi "idx:a:x"). vm_compute. reflexivity.
Defined.

Lemma store_delete_index_witness :
  let s := store_run ex_store_ops (store_new (new 7)) in
  let s' := write_delete Backup "w0" "w0|c2|t" [] false opts_default 20 s in
  idx (mem s') !! "idx:a:c1" = Some "w1|c1|t" /\ idx (mem s') !! "idx:a:x" = None.
Proof.
  pose proof (store_delete_index ex_place ex_store_ops (new 7) Backup "w0" "w0|c2|t" [] false
                opts_default 20 ex_place_plain ex_store_placed) as Hd.
  cbv zeta in Hd. split.
  - apply Hd; [vm_compute; reflexivity|]. split; [vm_compute; reflexivity|discriminate].
  - destruct (idx (mem (write_delete Backup "w0" "w0|c2|t" [] false opts_default 20
                 (store_run ex_store_ops (store_new (new 7))))) !! "idx:a:x") as [r'|] eqn:E;
      [|reflexivity].
    apply Hd in E as [Hr Hne]; [|vm_compute; reflexivity].
    vm_compute in Hr. injection Hr as <-. exfalso. apply Hne. reflexivity.
Defined.

(** A late write of the deleted call, and one of a new call on the ref. *)
Lemma store_no_resurrection_witness :
  let s := store_run ex_store_ops (store_new (new 7)) in
  let s' := store_run [(21, ex_put "i2" 2); (22, SUpkeep); (23, ex_put "i3" 1); (24, ex_put "i2" 3)]
              (write_delete Backup "w0" "w0|c2|t" [] false opts_default 20 s) in
  exists m, meta s' !! "w0|c2|t" = Some m /\ incarnation (m_ref m) <> Some "i2".
Proof.
  intros s s'. destruct (meta s' !! "w0|c2|t") as [m|] eqn:E; [|vm_compute in E; discriminate].
  exists m. split; [reflexivity|]. revert E. apply store_no_resurrection.
  - right. split; [reflexivity|]. vm_compute. reflexivity.
  - unfold RESURRECTION_TOMBSTONE_MS. repeat constructor; simpl; lia.
Defined.

Lemma refusals_bounded_witness :
  let s' := refuse 2 "c" None "w0" 7 (rf_run 2 [RRefuse "a" None "w0" 5; RRefuse "b" None "w0" 6]
                                        refused_new) in
  (size (rf_by_ref s') <= 2)%nat /\ refuses "c" None s' = true /\ refuses "a" None s' = false.
Proof.
  destruct (refusals_bounded 2 [RRefuse "a" None "w0" 5; RRefuse "b" None "w0" 6] "c" None "w0" 7)
    as (_ & H2 & H3 & _); [lia|vm_compute; reflexivity|].
  split; [exact H2|]. split; [exact H3|]. vm_compute. reflexivity.
Defined.

(** A new call on the ref replaces the backup's own version of the former one. *)
Lemma store_put_rule_witness :
  let s := store_run ex_store_ops (store_new (new 7)) in
  displaced (write_put Backup "w0" "w0|c2|t" [8] [] 60000 1 0
               (mkPutOpts None None (Some 5) (Some "i3")) 30 s) !! "i2" = Some [7].
Proof.
  intros s. pose proof (store_put_rule Backup "w0" "w0|c2|t" [8] [] 60000 1 0
    (mkPutOpts None None (Some 5) (Some "i3")) 30 s) as Hr.
  destruct (meta s !! "w0|c2|t") as [g|] eqn:E; [|vm_compute in E; discriminate].
  assert (burial "w0|c2|t" (Some "i3") 30 (tombstones s) = None) as Hb by (vm_compute; reflexivity).
  vm_compute in E. injection E as <-.
  cbv zeta in Hr. cbn [o_incarnation] in Hr. rewrite Hb in Hr.
  apply Hr with (g := mkMeta (mkRefMeta 1 1 60000 ["a:x"; "b:y"] (Some "i2") (Some 6)) Backup "w0" None
                        (Some 60011) true); reflexivity.
Defined.
