(* ===== verification/Envelope.v ===== *)
(** * The store envelope and the meeting of two copies

    [crates/b2bua/src/store/envelope.rs] (the worker pair, the version vector,
    the state stamp and the replicated body that carries them),
    [crates/b2bua/src/store/containment.rs] (which of two copies contains the
    other, and what their meeting keeps) and the bump rule of [CallState::update]
    in [crates/b2bua/src/store/mod.rs].

    The call record itself and the two serializers are an interface: the
    envelope reads of a call only what [CallModel] lists. *)

From S2P Require Import Prelude ReplFrame Changelog ReplStore.
From Stdlib Require Import Ascii.

Open Scope Z_scope.

(** ** Call references and the partition they name

    [crates/call/src/callref.rs] and [partition_of]/[role_of] of
    [crates/b2bua/src/store/call_store.rs]. *)

Record ParsedCallRef := mkParsed {
  pr_primary : string;
  pr_call_id : string;
  pr_from_tag : string;
}.

(** [derive_call_ref]. *)
Definition derive_call_ref (primary_ordinal call_id from_tag : string) : string :=
  (primary_ordinal +:+ "|" +:+ call_id +:+ "|" +:+ from_tag)%string.

(** [str::split_once] on a character. *)
Fixpoint split_once (c : Ascii.ascii) (s : string) : option (string * string) :=
  match s with
  | EmptyString => None
  | String a s' =>
      if bool_decide (a = c) then Some (EmptyString, s')
      else match split_once c s' with
           | Some (x, y) => Some (String a x, y)
           | None => None
           end
  end.

Definition bar : Ascii.ascii := "|"%char.

(** [split_call_ref]. *)
Definition split_call_ref (reference : string) : option (string * string * string) :=
  '(primary, rest) ← split_once bar reference;
  '(call_id, from_tag) ← split_once bar rest;
  if bool_decide (primary = EmptyString) || bool_decide (call_id = EmptyString)
     || bool_decide (from_tag = EmptyString)
  then None else Some (primary, call_id, from_tag).

(** [parse_call_ref] and [call_ref_primary]. *)
Definition parse_call_ref (reference : string) : option ParsedCallRef :=
  '(primary, call_id, from_tag) ← split_call_ref reference;
  Some (mkParsed primary call_id from_tag).
Definition call_ref_primary (reference : string) : option string :=
  '(primary, _, _) ← split_call_ref reference; Some primary.

(** [partition_of] and [role_of]. *)
Definition partition_of (self_ordinal r : string) : PartitionRole * string :=
  match parse_call_ref r with
  | Some p => if bool_decide (pr_primary p = self_ordinal) then (Primary, pr_primary p)
              else (Backup, pr_primary p)
  | None => (Primary, self_ordinal)
  end.
Definition role_of (self_ordinal r : string) : PartitionRole :=
  match call_ref_primary r with
  | Some primary => if bool_decide (primary = self_ordinal) then Primary else Backup
  | None => Primary
  end.

(** ** Lemmas *)

(** A string without the separator. *)
Fixpoint no_bar (s : string) : bool :=
  match s with
  | EmptyString => true
  | String a s' => negb (bool_decide (a = bar)) && no_bar s'
  end.

Lemma callref_split_app x y : no_bar x = true -> split_once bar (x +:+ "|" +:+ y)%string = Some (x, y).
Proof.
  induction x as [|a x IH]; simpl; intros Hx; [done|].
  apply andb_true_iff in Hx as [Ha Hx]. apply negb_true_iff in Ha. rewrite Ha, IH by done. done.
Qed.

(** A derived reference parses back to its segments. *)
Lemma parse_derive p c t :
  no_bar p = true -> no_bar c = true -> p <> EmptyString -> c <> EmptyString -> t <> EmptyString ->
  parse_call_ref (derive_call_ref p c t) = Some (mkParsed p c t).
Proof.
  intros Hp Hc Np Nc Nt. unfold parse_call_ref, split_call_ref, derive_call_ref.
  rewrite callref_split_app by done. simpl. rewrite callref_split_app by done. simpl.
  rewrite !bool_decide_eq_false_2 by done. done.
Qed.

Lemma role_of_partition self r : role_of self r = (partition_of self r).1.
Proof.
  unfold role_of, partition_of, call_ref_primary, parse_call_ref.
  destruct (split_call_ref r) as [[[p c] t]|]; simpl; [|done]. by case_bool_decide.
Qed.

(** The node a derived reference names is its primary; every other holds a backup. *)
Lemma partition_derive self p c t :
  no_bar p = true -> no_bar c = true -> p <> EmptyString -> c <> EmptyString -> t <> EmptyString ->
  partition_of self (derive_call_ref p c t) = (if bool_decide (p = self) then Primary else Backup, p).
Proof.
  intros. unfold partition_of. rewrite parse_derive by done. simpl. by case_bool_decide.
Qed.

(** ** The envelope *)

(** [CallTopology]. *)
Record CallTopology := mkTopo {
  pri : string;
  bak : string;
  t_gen : Z;
  t_bak_gen : Z;
  stamp_gen : Z;
  stamp_bak_gen : Z;
}.

#[global] Instance CallTopology_eq_dec : EqDecision CallTopology.
Proof. solve_decision. Defined.

(** [CallTopology::new]. *)
Definition topo_new (pri bak : string) (gen bak_gen : Z) : CallTopology :=
  mkTopo pri bak gen bak_gen gen bak_gen.

(** [vector] and [stamp]. *)
Definition vector (t : CallTopology) : Z * Z := (t_gen t, t_bak_gen t).
Definition stamp (t : CallTopology) : Z * Z := (stamp_gen t, stamp_bak_gen t).

(** [stamp_vector]. *)
Definition stamp_vector (t : CallTopology) : CallTopology :=
  mkTopo (pri t) (bak t) (t_gen t) (t_bak_gen t) (t_gen t) (t_bak_gen t).

(** [raise_vector]. *)
Definition raise_vector (t other : CallTopology) : CallTopology :=
  mkTopo (pri t) (bak t) (Z.max (t_gen t) (t_gen other)) (Z.max (t_bak_gen t) (t_bak_gen other))
    (stamp_gen t) (stamp_bak_gen t).

(** [other_owner]. *)
Definition other_owner (node : string) (t : CallTopology) : option string :=
  let other := if bool_decide (node = bak t) then pri t else bak t in
  if negb (bool_decide (other = EmptyString)) && negb (bool_decide (other = node))
  then Some other else None.

(** [copy_served]. *)
Definition copy_served (node : string) (t : CallTopology) : bool :=
  bool_decide (bak t = node) || (0 <? t_bak_gen t).

(** [RelayOwner] and the core's [Owners]. *)
Record RelayOwner := mkOwner { ordinal : string; identity : string }.
Record Owners := mkOwners {
  ow_this : RelayOwner;
  ow_other : option string;
  ow_primary : option string;
  ow_backup : option string;
  ow_copy_served : bool;
}.

(** [owners]. *)
Definition owners (this : RelayOwner) (topology : option CallTopology) : Owners :=
  let other := t ← topology; other_owner (ordinal this) t in
  let placed f := t ← topology; match other with Some _ => Some (f t) | None => None end in
  mkOwners this other (placed pri) (placed bak)
    (match topology with Some t => copy_served (ordinal this) t | None => false end).

(** A write of the node playing [role] for the call: its own counter, and the
    stamp when it changed a compared field. *)
Definition bump_topology (role : PartitionRole) (changed : bool) (t : CallTopology) : CallTopology :=
  let t := match role with
           | Primary => mkTopo (pri t) (bak t) (i64_add (t_gen t) 1) (t_bak_gen t)
                          (stamp_gen t) (stamp_bak_gen t)
           | Backup => mkTopo (pri t) (bak t) (t_gen t) (i64_add (t_bak_gen t) 1)
                         (stamp_gen t) (stamp_bak_gen t)
           end in
  if changed then stamp_vector t else t.

(** The topology part of [CallState::update] on the node [self_ordinal]. *)
Definition update_topology (self_ordinal r : string) (changed : bool) (t : CallTopology)
    : CallTopology :=
  bump_topology (role_of self_ordinal r) changed t.

(** ** The call record, as the envelope and the puller read it *)

(** [CallModelState]. *)
Inductive CallModelState := Active | Terminating | Terminated.

#[global] Instance CallModelState_eq_dec : EqDecision CallModelState.
Proof. solve_decision. Defined.

(** [CallDecodeError] and [CallEncodeError]. *)
Inductive CallDecodeError := DEmpty | DDecode (msg : string).
Inductive CallEncodeError := EEncode (msg : string) | ETooDeep.

(** What the [call] crate and [rmp_serde] provide: the helpers on a record, its
    codec, and the serializer of the pair a replicated body is. *)
Class CallModel := {
  Call : Type;
  call_state : Call -> CallModelState;
  caller_answered : Call -> bool;
  call_merge_exempt : Call -> Call -> Call;
  shift_instants : Z -> Call -> Call;
  call_index_keys : Call -> list string;
  codec_encode : Call -> result body CallEncodeError;
  codec_decode : body -> result Call CallDecodeError;
  rmp_to_vec : option CallTopology * body -> result body string;
  rmp_from_slice : body -> result (option CallTopology * body) string;
}.

(** Their round trips; a msgpack array takes at least one byte. *)
Class CodecLaws `{!CallModel} := {
  codec_decode_encode : forall c b, codec_encode c = Ok b -> codec_decode b = Ok c;
  rmp_from_to : forall x b, rmp_to_vec x = Ok b -> rmp_from_slice b = Ok x;
  rmp_to_vec_nonempty : forall x b, rmp_to_vec x = Ok b -> b <> [];
}.

Section envelope.
Context `{!CallModel}.
Local Open Scope rust_scope.

(** [Enveloped]. *)
Record Enveloped := mkEnv { e_call : Call; e_topology : option CallTopology }.

(** [Enveloped::merge_exempt]. *)
Definition merge_exempt (self other : Enveloped) : Enveloped :=
  mkEnv (call_merge_exempt (e_call self) (e_call other))
    (match e_topology self, e_topology other with
     | Some m, Some o => Some (raise_vector m o)
     | t, _ => t
     end).

(** [encode]. *)
Definition encode (topology : option CallTopology) (call : Call) : result body CallEncodeError :=
  let? inner := codec_encode call in map_err EEncode (rmp_to_vec (topology, inner)).

(** [decode]. *)
Definition decode (b : body) : result Enveloped CallDecodeError :=
  if bool_decide (b = []) then Err DEmpty
  else
    let? (topology, inner) := map_err DDecode (rmp_from_slice b) in
    let? call := codec_decode inner in
    Ok (mkEnv call topology).

(** ** Containment ([containment.rs]) *)

Inductive Containment := CBoth | CHeld | CIncoming | CNeither.

(** [contains]. *)
Definition contains (r l : CallTopology) : bool :=
  let '((sp, sb), (vp, vb)) := (stamp l, vector r) in (sp <=? vp) && (sb <=? vb).

(** [containment]. *)
Definition containment (held incoming : CallTopology) : Containment :=
  match contains held incoming, contains incoming held with
  | true, true => CBoth
  | true, false => CHeld
  | false, true => CIncoming
  | false, false => CNeither
  end.

Inductive Met := MHeld (e : Enveloped) | MIncoming (e : Enveloped) | MDiverged.

(** [meet]. *)
Definition meet (held incoming : Enveloped) (incoming_is_primary : bool) : Met :=
  match e_topology held, e_topology incoming with
  | Some h, Some i =>
      match containment h i with
      | CHeld => MHeld (merge_exempt held incoming)
      | CIncoming => MIncoming (merge_exempt incoming held)
      | CBoth => if incoming_is_primary then MIncoming (merge_exempt incoming held)
                 else MHeld (merge_exempt held incoming)
      | CNeither => MDiverged
      end
  | _, _ => MHeld held
  end.

(** A replicated body reads back as the call in its envelope. *)
Lemma envelope_round_trip `{!CodecLaws} t c b : encode t c = Ok b -> decode b = Ok (mkEnv c t).
Proof.
  unfold encode, decode. destruct (codec_encode c) as [inner|e] eqn:Hc; simpl; [|done].
  destruct (rmp_to_vec (t, inner)) as [b'|e] eqn:Hr; simpl; intros [= <-].
  rewrite bool_decide_eq_false_2 by (by eapply rmp_to_vec_nonempty).
  rewrite (rmp_from_to _ _ Hr). simpl. by rewrite (codec_decode_encode _ _ Hc).
Qed.

End envelope.

(** ** Lemmas *)

Lemma contains_spec r l :
  contains r l = true <-> stamp_gen l <= t_gen r /\ stamp_bak_gen l <= t_bak_gen r.
Proof. unfold contains, stamp, vector. rewrite andb_true_iff, !Z.leb_le. done. Qed.

Lemma contains_false r l :
  contains r l = false -> t_gen r < stamp_gen l \/ t_bak_gen r < stamp_bak_gen l.
Proof.
  unfold contains, stamp, vector. rewrite andb_false_iff, !Z.leb_gt. done.
Qed.
