(* ===== verification/Puller.v ===== *)
(** * Applying a replicated write

    [crates/b2bua/src/repl/puller/apply.rs], [apply/store_meeting.rs],
    [held_meetings.rs], [bootstrap_complete.rs], the [refuse] of [wiring.rs],
    [repl/router_sink.rs] and [repl/peer_body.rs]: what a puller does with one
    [Data] frame, in the store and towards the router.

    The application of a frame is one step on the store: the clock is read
    once, and no other task writes the same reference between its reads.  The
    metrics it moves are left out. *)

From S2P Require Import Prelude ReplFrame Changelog ReplStore Envelope.

Open Scope Z_scope.

(** ** Router commands ([router/mod.rs]) *)

Inductive PrimaryWrite := WPut (b : body) | WDelete (incarnation : option string).

Inductive ReplCommand :=
  | ReclaimAll
  | ReclaimCall (r : string)
  | ReverseFlushRefused (r : string) (b : body) (origin_now_ms : Z)
  | ForwardFlushRefused (r : string) (b : body) (origin_now_ms : Z)
  | ForwardFlushApplied (r : string) (write : PrimaryWrite)
  | ReverseDeleteApplied (r : string) (incarnation : option string)
  | PeerDeparted (ordinal : string).

(** ** Clock frames ([call/src/helpers/instants.rs]) *)

Definition REANCHOR_DEADBAND_MS : Z := 1000.

(** [reanchor_offset]; [i64::abs] wraps. *)
Definition reanchor_offset (skew : Z) : Z :=
  if i64_wrap (Z.abs skew) <? REANCHOR_DEADBAND_MS then 0 else skew.

(** ** Modes and outcomes *)

Inductive ApplyMode := MBootstrap | MForward | MReverse.

#[global] Instance ApplyMode_eq_dec : EqDecision ApplyMode.
Proof. solve_decision. Defined.

Inductive ApplyOutcome := Applied | Dominated | Refused | Shed | SupersededCall.

#[global] Instance ApplyOutcome_eq_dec : EqDecision ApplyOutcome.
Proof. solve_decision. Defined.

(** What the version vectors alone decide of a [Put]: an outcome, or that the
    two copies must meet. *)
Inductive Decision := DOutcome (o : ApplyOutcome) | DMeet.

Definition dominated (stored incoming : Z * Z) : bool :=
  (incoming.1 <=? stored.1) && (incoming.2 <=? stored.2).
Definition descends (stored incoming : Z * Z) : bool :=
  (stored.1 <=? incoming.1) && (stored.2 <=? incoming.2).

(** The [match mode] of [apply_to_store]. *)
Definition decide_put (mode : ApplyMode) (stored : option (Z * Z)) (another_call : bool)
    (incoming : Z * Z) : Decision :=
  match mode with
  | MBootstrap =>
      match stored with
      | Some v => if negb another_call && dominated v incoming then DOutcome Dominated
                  else DOutcome Applied
      | None => DOutcome Applied
      end
  | MForward | MReverse =>
      if another_call then
        DOutcome (if bool_decide (mode = MForward) then Applied else SupersededCall)
      else
        match stored with
        | None => DOutcome Applied
        | Some v => if dominated v incoming then DOutcome Dominated
                    else if descends v incoming then DOutcome Applied
                    else DMeet
        end
  end.

(** The frame's fields a [Data] carries. *)
Record DataFrame := mkData {
  f_op : Op;
  f_partition : Partition;
  f_ref : string;
  f_gen : Z;
  f_bgen : Z;
  f_ttl : Z;
  f_origin : Z;
  f_indexes : list string;
  f_body : option body;
  f_answered : bool;
  f_incarnation : option string;
}.

Section apply.
Context `{!CallModel}.

(** [decode_counted]. *)
Definition decode_counted (b : body) : option Enveloped :=
  match decode b with Ok e => Some e | Err _ => None end.

(** ** The meeting in the store ([store_meeting.rs]) *)

Record Taken := mkTaken { tk_body : option body; tk_version : option (Z * Z) }.

(** [frame_gap]. *)
Definition frame_gap (now : Z) (r : string) (origin : Z) (s : ReplStore) : Z :=
  i64_sub (reanchor_offset (default 0 (skew_of_ref r s))) (reanchor_offset (skew_of now origin)).

(** [stored_copy]. *)
Definition stored_copy (role : PartitionRole) (primary r : string) (s : ReplStore)
    : option Enveloped :=
  raw ← peek_body_raw role primary r s; decode_counted raw.

(** [keep_merged]. *)
Definition keep_merged (now : Z) (role : PartitionRole) (primary r : string) (merged : Enveloped)
    (ttl : Z) (inc : option string) (s : ReplStore) : ReplStore :=
  match encode (e_topology merged) (e_call merged), e_topology merged with
  | Ok b, Some t =>
      let opts := mkPutOpts None None (held_origin_now_ms now r s) inc in
      write_put role primary r b (call_index_keys (e_call merged)) ttl (vector t).1 (vector t).2
        opts now s
  | _, _ => s
  end.

(** [meet_stored]. *)
Definition meet_stored (now : Z) (role : PartitionRole) (primary r : string)
    (incoming : option Enveloped) (primary_incoming : bool) (origin ttl : Z)
    (inc : option string) (s : ReplStore) : option Taken * ReplStore :=
  match stored_copy role primary r s with
  | None => (None, s)
  | Some held =>
      let gap := frame_gap now r origin s in
      let held := mkEnv (shift_instants gap (e_call held)) (e_topology held) in
      match incoming with
      | None => (None, s)
      | Some incoming =>
          match meet held incoming primary_incoming with
          | MIncoming merged =>
              (Some (mkTaken (match encode (e_topology merged) (e_call merged) with
                              | Ok b => Some b | Err _ => None end)
                             (vector <$> e_topology merged)), s)
          | MHeld merged =>
              let merged := mkEnv (shift_instants (i64_sub 0 gap) (e_call merged))
                              (e_topology merged) in
              (None, keep_merged now role primary r merged ttl inc s)
          | MDiverged => (None, s)
          end
      end
  end.

(** [element_outlives_the_delete]. *)
Definition element_outlives_the_delete (now : Z) (role : PartitionRole) (primary r : string)
    (stated_answered : bool) (s : ReplStore) : bool :=
  if stated_answered || negb (bool_decide (is_Some (current_cv now r s))) || authority_answered r s
  then false
  else match peek_body_raw role primary r s with
       | None => false
       | Some raw =>
           match decode_counted raw with
           | Some copy => bool_decide (call_state (e_call copy) = Active)
                          && caller_answered (e_call copy)
           | None => false
           end
       end.

(** [apply_to_store].  [refuses_backup] is the capacity gate's answer for the
    number of replicas held, [fun _ => false] with no gate. *)
Definition apply_put (now : Z) (self_ordinal : string) (refuses_backup : Z -> bool)
    (mode : ApplyMode) (f : DataFrame) (s : ReplStore) : ApplyOutcome * ReplStore :=
  let r := f_ref f in
  let primary := (partition_of self_ordinal r).2 in
  let role := match f_partition f with Bak => Backup | Pri => Primary end in
  let stored := current_cv now r s in
  let another_call := bool_decide (is_Some stored)
                      && is_another_call (incarnation_of now r s) (f_incarnation f) in
  let incoming := if bool_decide (mode = MBootstrap) then None
                  else b ← f_body f; decode_counted b in
  let version := (f_gen f, f_bgen f) in
  let '(outcome, version, bdy, s) :=
    match decide_put mode stored another_call version with
    | DOutcome o => (o, version, f_body f, s)
    | DMeet =>
        match meet_stored now role primary r incoming (bool_decide (mode = MForward))
                (f_origin f) (f_ttl f) (f_incarnation f) s with
        | (Some taken, s) =>
            (Applied, default version (tk_version taken),
             match tk_body taken with Some b => Some b | None => f_body f end, s)
        | (None, s) => (Refused, version, f_body f, s)
        end
    end in
  let outcome :=
    if bool_decide (outcome = Applied) && negb (bool_decide (is_Some stored))
       && bool_decide (role = Backup) && negb (buries now r (f_incarnation f) s)
       && (refused_replica r (f_incarnation f) s || refuses_backup (backups s))
    then Shed else outcome in
  let s := if bool_decide (outcome = Applied) then
             write_put role primary r (default [] bdy) (f_indexes f) (f_ttl f) version.1 version.2
               (mkPutOpts None None (Some (f_origin f)) (f_incarnation f)) now s
           else s in
  let s := match incoming with
           | Some copy => if caller_answered (e_call copy) then note_authority_answer r s else s
           | None => s
           end in
  (outcome, s).

Definition apply_delete (now : Z) (self_ordinal : string) (mode : ApplyMode) (f : DataFrame)
    (s : ReplStore) : ApplyOutcome * ReplStore :=
  let r := f_ref f in
  let primary := (partition_of self_ordinal r).2 in
  let role := match f_partition f with Bak => Backup | Pri => Primary end in
  let of_the_element := negb (is_another_call (incarnation_of now r s) (f_incarnation f)) in
  if bool_decide (mode = MForward) && of_the_element
     && element_outlives_the_delete now role primary r (f_answered f) s
  then (Refused, s)
  else (Applied, write_delete role primary r (f_indexes f) false
                   (mkPutOpts None None None (f_incarnation f)) now s).

Definition apply_to_store (now : Z) (self_ordinal : string) (refuses_backup : Z -> bool)
    (mode : ApplyMode) (f : DataFrame) (s : ReplStore) : ApplyOutcome * ReplStore :=
  match f_op f with
  | Put => apply_put now self_ordinal refuses_backup mode f s
  | Delete => apply_delete now self_ordinal mode f s
  end.

End apply.

(** ** What rides up to the router *)

(** [written]. *)
Definition written_of (f : DataFrame) : PrimaryWrite :=
  match f_op f with
  | Put => WPut (default [] (f_body f))
  | Delete => WDelete (f_incarnation f)
  end.

(** [command]; [serves_takeover] is the sink's probe. *)
Definition command (mode : ApplyMode) (outcome : ApplyOutcome) (bootstrapped : bool) (r : string)
    (write : PrimaryWrite) (origin : Z) (serves_takeover : string -> bool) : option ReplCommand :=
  match mode, outcome with
  | MForward, Applied =>
      if serves_takeover r then Some (ForwardFlushApplied r write) else None
  | _, _ =>
      match write with
      | WDelete inc =>
          if bool_decide (mode <> MForward) && bool_decide (outcome = Applied)
          then Some (ReverseDeleteApplied r inc) else None
      | WPut b =>
          if bool_decide (mode = MForward) && negb bootstrapped then None
          else match mode, outcome with
               | MReverse, Applied => Some (ReclaimCall r)
               | MReverse, Dominated | MReverse, Refused => Some (ReverseFlushRefused r b origin)
               | MForward, Refused => Some (ForwardFlushRefused r b origin)
               | _, _ => None
               end
      end
  end.

(** [HeldMeetings]: [hold], [take] and [take_all]. *)
Notation HeldMeetings := (list (string * ReplCommand)).

Definition hm_hold (r : string) (cmd : ReplCommand) (held : HeldMeetings) : HeldMeetings :=
  filter (fun p => p.1 <> r) held ++ [(r, cmd)].

Fixpoint hm_take (r : string) (held : HeldMeetings) : option ReplCommand * HeldMeetings :=
  match held with
  | [] => (None, [])
  | (r', cmd) :: held' =>
      if bool_decide (r' = r) then (Some cmd, held')
      else let '(c, h) := hm_take r held' in (c, (r', cmd) :: h)
  end.

Definition hm_take_all (held : HeldMeetings) : list ReplCommand * HeldMeetings :=
  (map snd held, []).

(** [signal]: the commands sent to the router, and the copies held. *)
Definition signal (sink : option (string -> bool)) (mode : ApplyMode) (outcome : ApplyOutcome)
    (bootstrapped : bool) (r : string) (write : PrimaryWrite) (origin : Z) (held : HeldMeetings)
    : list ReplCommand * HeldMeetings :=
  match sink with
  | None => ([], held)
  | Some serves =>
      match command mode outcome bootstrapped r write origin serves with
      | Some (ReverseFlushRefused _ _ _ as cmd) | Some (ForwardFlushRefused _ _ _ as cmd) =>
          ([], hm_hold r cmd held)
      | other =>
          let '(taken, held) := hm_take r held in
          (option_list taken ++ option_list other, held)
      end
  end.

(** [release_meetings]. *)
Definition release_meetings (sink : option (string -> bool)) (held : HeldMeetings)
    : list ReplCommand * HeldMeetings :=
  let '(cmds, held) := hm_take_all held in
  (match sink with Some _ => cmds | None => [] end, held).
