(* ===== verification/SplitBrain.v ===== *)
(** * Two owners of one call

    The primary and the backup of one call incarnation, each writing its own
    copy ([Envelope.bump_topology], the rule of [CallState::update]) and
    reading copies the other published, in any order and however late.  A read
    goes through the decision of [Puller.decide_put] and, where the version
    vectors do not decide, the meeting [Envelope.meet], as [apply_to_store]
    composes them.

    Beside its envelope a copy carries the set of compared writes whose effect
    its record holds: a copy taken whole brings its own, a merge of exempt
    fields brings none.  The sets are not part of the program; the theorems
    relate them to the vectors and stamps that are. *)

From S2P Require Import Prelude ReplFrame ReplCodec ReplCodecProofs Changelog ReplStore Envelope Puller.

Open Scope Z_scope.

(** ** An instance of the call-model interface

    A record of two numbers with its codec, at which the theorems stated against
    [CallModel] and [CodecLaws] are applied to concrete inputs. *)

(** A string as its length and its bytes. *)
Definition ex_str (s : string) : body := blen (str_bytes s) :: str_bytes s.
Definition ex_read_str (b : body) : option (string * body) :=
  match b with
  | n :: b => Some (bytes_str (take (Z.to_nat n) b), drop (Z.to_nat n) b)
  | [] => None
  end.

Lemma ex_read_str_app s b : ex_read_str (ex_str s ++ b) = Some (s, b).
Proof.
  unfold ex_str, ex_read_str, blen. simpl. rewrite Nat2Z.id, take_app_length, drop_app_length.
  by rewrite bytes_str_bytes.
Qed.

Definition ex_to_vec (x : option CallTopology * body) : result body string :=
  match x with
  | (None, b) => Ok (0 :: b)
  | (Some t, b) => Ok (1 :: ex_str (pri t) ++ ex_str (bak t)
                         ++ t_gen t :: t_bak_gen t :: stamp_gen t :: stamp_bak_gen t :: b)
  end.

Definition ex_from_slice (b : body) : result (option CallTopology * body) string :=
  match b with
  | 0 :: b => Ok (None, b)
  | 1 :: b =>
      match ex_read_str b with
      | Some (p, b) =>
          match ex_read_str b with
          | Some (k, g :: bg :: sg :: sb :: b) => Ok (Some (mkTopo p k g bg sg sb), b)
          | _ => Err "topology"%string
          end
      | None => Err "topology"%string
      end
  | _ => Err "array"%string
  end.

Lemma ex_from_to x b : ex_to_vec x = Ok b -> ex_from_slice b = Ok x.
Proof.
  destruct x as [[[p k g bg sg sb]|] inner]; unfold ex_to_vec; [|by intros [= <-]].
  cbn [pri bak t_gen t_bak_gen stamp_gen stamp_bak_gen].
  remember (ex_str p ++ _) as enc eqn:He. intros [= <-]. unfold ex_from_slice.
  by rewrite He, !ex_read_str_app.
Qed.

(** A call: its compared state, and whether its caller was answered. *)
Record ex_call := mkExCall { x_state : Z; x_answered : bool }.

#[export] Instance ex_model : CallModel := {|
  Call := ex_call;
  call_state := fun _ => Active;
  caller_answered := x_answered;
  call_merge_exempt := fun c o => c;
  shift_instants := fun _ c => c;
  call_index_keys := fun _ => [];
  codec_encode := fun c => Ok [x_state c; if x_answered c then 1 else 0];
  codec_decode := fun b => match b with
                           | [s; a] => Ok (mkExCall s (a =? 1))
                           | _ => Err DEmpty
                           end;
  rmp_to_vec := ex_to_vec;
  rmp_from_slice := ex_from_slice;
|}.

#[export] Instance ex_laws : CodecLaws.
Proof.
  constructor; simpl.
  - intros [s []] b [= <-]; done.
  - apply ex_from_to.
  - by intros [[[]|] b] b' [= <-].
Qed.

Section split_brain.
Context `{!CallModel}.

(** A copy, and the compared writes of the primary and of the backup it holds,
    each named by the counter of its write. *)
Record Copy := mkCopy { c_env : Enveloped; seen_p : gset Z; seen_b : gset Z }.

(** [l]'s compared writes are all in [r]. *)
Definition holds_all (r l : Copy) : Prop := seen_p l ⊆ seen_p r /\ seen_b l ⊆ seen_b r.

(** What a read of [incoming] over [held] leaves, and whether they diverged. *)
Definition reconcile (primary_incoming : bool) (held incoming : Copy) : Copy * bool :=
  match e_topology (c_env held), e_topology (c_env incoming) with
  | Some h, Some i =>
      match decide_put (if primary_incoming then MForward else MReverse) (Some (vector h)) false
              (vector i) with
      | DOutcome Applied => (incoming, false)
      | DOutcome _ => (held, false)
      | DMeet =>
          match meet (c_env held) (c_env incoming) primary_incoming with
          | MHeld m => (mkCopy m (seen_p held) (seen_b held), false)
          | MIncoming m => (mkCopy m (seen_p incoming) (seen_b incoming), false)
          | MDiverged => (held, true)
          end
      end
  | _, _ => (held, false)
  end.

(** Both copies, every copy either node ever had (what the other may read), and
    each compared write with the other owner's counter when it was made. *)
Record Sys := mkSys {
  s_pri : Copy;
  s_bak : option Copy;
  pub_pri : list Copy;
  pub_bak : list Copy;
  writes_p : gmap Z Z;
  writes_b : gmap Z Z;
}.

(** A write of [call], [changed] when it changed a compared field. *)
Definition copy_write (role : PartitionRole) (changed : bool) (call : Call) (c : Copy) : Copy :=
  match e_topology (c_env c) with
  | None => mkCopy (mkEnv call None) (seen_p c) (seen_b c)
  | Some t =>
      let t := bump_topology role changed t in
      match changed, role with
      | true, Primary => mkCopy (mkEnv call (Some t)) ({[ t_gen t ]} ∪ seen_p c) (seen_b c)
      | true, Backup => mkCopy (mkEnv call (Some t)) (seen_p c) ({[ t_bak_gen t ]} ∪ seen_b c)
      | false, _ => mkCopy (mkEnv call (Some t)) (seen_p c) (seen_b c)
      end
  end.

Inductive sys_op :=
  | OWrite (role : PartitionRole) (changed : bool) (call : Call)
  | ORead (role : PartitionRole) (k : nat).

Definition note_write (role changed : bool) (c : Copy) (w : gmap Z Z) : gmap Z Z :=
  match e_topology (c_env c) with
  | Some t => if changed then
                if role then <[t_gen t := t_bak_gen t]> w else <[t_bak_gen t := t_gen t]> w
              else w
  | None => w
  end.

Definition set_pri (c : Copy) (s : Sys) : Sys :=
  mkSys c (s_bak s) (c :: pub_pri s) (pub_bak s) (writes_p s) (writes_b s).
Definition set_bak (c : Copy) (s : Sys) : Sys :=
  mkSys (s_pri s) (Some c) (pub_pri s) (c :: pub_bak s) (writes_p s) (writes_b s).
Definition note_p (c : Copy) (changed : bool) (s : Sys) : Sys :=
  mkSys (s_pri s) (s_bak s) (pub_pri s) (pub_bak s) (note_write true changed c (writes_p s))
    (writes_b s).
Definition note_b (c : Copy) (changed : bool) (s : Sys) : Sys :=
  mkSys (s_pri s) (s_bak s) (pub_pri s) (pub_bak s) (writes_p s)
    (note_write false changed c (writes_b s)).

Definition sys_step (s : Sys) (o : sys_op) : Sys :=
  match o with
  | OWrite Primary changed call =>
      let c := copy_write Primary changed call (s_pri s) in
      note_p c changed (set_pri c s)
  | OWrite Backup changed call =>
      match s_bak s with
      | None => s
      | Some b => let c := copy_write Backup changed call b in note_b c changed (set_bak c s)
      end
  | ORead Primary k =>
      match pub_bak s !! k with
      | None => s
      | Some i => set_pri (reconcile false (s_pri s) i).1 s
      end
  | ORead Backup k =>
      match pub_pri s !! k with
      | None => s
      | Some i => match s_bak s with
                  | None => set_bak i s
                  | Some b => set_bak (reconcile true b i).1 s
                  end
      end
  end.

Definition sys_run (os : list sys_op) (s : Sys) : Sys := foldl sys_step s os.

(** The call placed on its primary at [(1, 0)]. *)
Definition sys_init (pri bak : string) (call : Call) : Sys :=
  let c := mkCopy (mkEnv call (Some (topo_new pri bak 1 0))) ∅ ∅ in
  mkSys c None [c] [] ∅ ∅.

(** A copy of the system: one either node has or had. *)
Definition a_copy (s : Sys) (c : Copy) : Prop := c ∈ pub_pri s \/ c ∈ pub_bak s.

(** ** The invariant *)

(** What a topology knows of the writes: the ones it counts, each with its
    vector below the copy's, and the ones the stamp covers. *)
Record topo_ok (wp wb : gmap Z Z) (t : CallTopology) : Prop := mkTopoOk {
  to_gen : 1 <= t_gen t;
  to_bak : 0 <= t_bak_gen t;
  to_stamp : stamp_gen t <= t_gen t /\ stamp_bak_gen t <= t_bak_gen t;
  to_made : (stamp_gen t = 1 /\ stamp_bak_gen t = 0)
            \/ wp !! stamp_gen t = Some (stamp_bak_gen t)
            \/ wb !! stamp_bak_gen t = Some (stamp_gen t);
  to_p : forall i b, wp !! i = Some b -> i <= t_gen t -> b <= t_bak_gen t /\ i <= stamp_gen t;
  to_b : forall j g, wb !! j = Some g -> j <= t_bak_gen t -> g <= t_gen t /\ j <= stamp_bak_gen t;
}.

Definition seen_ok (wp wb : gmap Z Z) (t : CallTopology) (c : Copy) : Prop :=
  (forall i, i ∈ seen_p c <-> is_Some (wp !! i) /\ i <= t_gen t)
  /\ (forall j, j ∈ seen_b c <-> is_Some (wb !! j) /\ j <= t_bak_gen t).

Definition copy_ok (wp wb : gmap Z Z) (gmax bmax : Z) (c : Copy) : Prop :=
  exists t, e_topology (c_env c) = Some t /\ topo_ok wp wb t /\ seen_ok wp wb t c
            /\ t_gen t <= gmax /\ t_bak_gen t <= bmax.

Definition gen_of (c : Copy) : Z := match e_topology (c_env c) with Some t => t_gen t | None => 0 end.
Definition bak_gen_of (c : Copy) : Z :=
  match e_topology (c_env c) with Some t => t_bak_gen t | None => 0 end.
Definition gmax (s : Sys) : Z := gen_of (s_pri s).
Definition bmax (s : Sys) : Z := match s_bak s with Some c => bak_gen_of c | None => 0 end.

Record sys_ok (n : Z) (s : Sys) : Prop := mkSysOk {
  so_copies : forall c, a_copy s c -> copy_ok (writes_p s) (writes_b s) (gmax s) (bmax s) c;
  so_pri : s_pri s ∈ pub_pri s;
  so_bak : forall b, s_bak s = Some b -> b ∈ pub_bak s;
  so_wp : forall i, is_Some (writes_p s !! i) -> i <= gmax s;
  so_wb : forall j, is_Some (writes_b s !! j) -> j <= bmax s;
  so_n : gmax s <= 1 + n /\ bmax s <= n;
}.

(** ** Containment is exact *)

Lemma copy_ok_contains wp wb gm bm r l tr tl :
  copy_ok wp wb gm bm r -> copy_ok wp wb gm bm l ->
  e_topology (c_env r) = Some tr -> e_topology (c_env l) = Some tl ->
  contains tr tl = true <-> holds_all r l.
Proof.
  intros (tr' & Er & [Gr Br Sr Mr Pr Br'] & [Sp Sb] & _) (tl' & El & [Gl Bl Sl Ml Pl Bl'] & [Lp Lb] & _)
    Er' El'.
  rewrite Er in Er'. rewrite El in El'. injection Er' as ->. injection El' as ->.
  rewrite contains_spec. unfold holds_all. split.
  - intros [Hg Hb]. split; intros i Hi.
    + apply Lp in Hi as [[b Hw] Hi]. destruct (Pl _ _ Hw Hi). apply Sp. split; [by eexists|lia].
    + apply Lb in Hi as [[b Hw] Hi]. destruct (Bl' _ _ Hw Hi). apply Sb. split; [by eexists|lia].
  - intros [Hp Hb]. destruct Ml as [[-> ->]|[Hw|Hw]]; [lia|..].
    + assert (stamp_gen tl ∈ seen_p r) as Hi by (apply Hp, Lp; split; [by eexists|lia]).
      apply Sp in Hi as [_ Hi]. destruct (Pr _ _ Hw Hi). lia.
    + assert (stamp_bak_gen tl ∈ seen_b r) as Hi by (apply Hb, Lb; split; [by eexists|lia]).
      apply Sb in Hi as [_ Hi]. destruct (Br' _ _ Hw Hi). lia.
Qed.

(** A copy whose vector is at or past another's holds its writes. *)
Lemma copy_ok_vector wp wb gm bm r l tr tl :
  copy_ok wp wb gm bm r -> copy_ok wp wb gm bm l ->
  e_topology (c_env r) = Some tr -> e_topology (c_env l) = Some tl ->
  t_gen tl <= t_gen tr -> t_bak_gen tl <= t_bak_gen tr -> holds_all r l.
Proof.
  intros Hr Hl Er El Hg Hb. apply (copy_ok_contains _ _ _ _ _ _ _ _ Hr Hl Er El).
  destruct Hl as (tl' & El' & T & _). rewrite El in El'. injection El' as <-.
  apply contains_spec. destruct (to_stamp _ _ _ T). lia.
Qed.

(** Merging another copy's exempt fields into the one that contains it. *)
Lemma copy_ok_merge wp wb gm bm h i th ti :
  copy_ok wp wb gm bm h -> copy_ok wp wb gm bm i ->
  e_topology (c_env h) = Some th -> e_topology (c_env i) = Some ti -> holds_all h i ->
  copy_ok wp wb gm bm (mkCopy (merge_exempt (c_env h) (c_env i)) (seen_p h) (seen_b h)).
Proof.
  intros (th' & Eh & [Gh Bh Sh Mh Ph Bh'] & [Hp Hb] & Lh & Lh') (ti' & Ei & [Gi Bi Si Mi Pi Bi'] & [Ip Ib] & Li & Li')
    Eh' Ei' [Cp Cb].
  rewrite Eh in Eh'. rewrite Ei in Ei'. injection Eh' as ->. injection Ei' as ->.
  assert (forall k, is_Some (wp !! k) -> k <= t_gen ti -> k <= t_gen th) as Up.
  { intros k Hk Hi. apply (Hp k), Cp, Ip. done. }
  assert (forall k, is_Some (wb !! k) -> k <= t_bak_gen ti -> k <= t_bak_gen th) as Ub.
  { intros k Hk Hi. apply (Hb k), Cb, Ib. done. }
  exists (raise_vector th ti). simpl. rewrite Eh, Ei.
  split_and!; [done|constructor; simpl; try lia; try done| |simpl; lia..].
  - intros k b Hw Hk. assert (k <= t_gen th) by (specialize (Up k (ex_intro _ b Hw)); lia).
    destruct (Ph k b Hw); lia.
  - intros k g Hw Hk. assert (k <= t_bak_gen th) by (specialize (Ub k (ex_intro _ g Hw)); lia).
    destruct (Bh' k g Hw); lia.
  - split; intros k; simpl; [rewrite Hp|rewrite Hb]; split; intros [Hw Hk]; (split; [done|]).
    + lia.
    + specialize (Up k Hw). lia.
    + lia.
    + specialize (Ub k Hw). lia.
Qed.

(** The vectors' decision within one call. *)
Lemma decide_put_same mode v w :
  mode <> MBootstrap ->
  decide_put mode (Some v) false w =
    if dominated v w then DOutcome Dominated else if descends v w then DOutcome Applied else DMeet.
Proof. by destruct mode. Qed.

(** A read keeps every compared write of both copies, or finds that each made
    one the other does not hold. *)
Lemma reconcile_spec wp wb gm bm pi h i :
  copy_ok wp wb gm bm h -> copy_ok wp wb gm bm i ->
  let '(c, diverged) := reconcile pi h i in
  copy_ok wp wb gm bm c
  /\ (if diverged then c = h /\ ~ holds_all h i /\ ~ holds_all i h
      else holds_all c h /\ holds_all c i /\ seen_p c ⊆ seen_p h ∪ seen_p i
           /\ seen_b c ⊆ seen_b h ∪ seen_b i)
  /\ gen_of h <= gen_of c /\ bak_gen_of h <= bak_gen_of c.
Proof.
  intros Hh Hi. pose proof Hh as (th & Eh & _). pose proof Hi as (ti & Ei & _).
  pose proof (copy_ok_contains _ _ _ _ _ _ _ _ Hh Hi Eh Ei) as Chi.
  pose proof (copy_ok_contains _ _ _ _ _ _ _ _ Hi Hh Ei Eh) as Cih.
  pose proof (copy_ok_vector _ _ _ _ _ _ _ _ Hh Hi Eh Ei) as Vhi.
  pose proof (copy_ok_vector _ _ _ _ _ _ _ _ Hi Hh Ei Eh) as Vih.
  assert (holds_all h h /\ holds_all i i) as [Rh Ri] by (split; split; set_solver).
  assert (holds_all h i -> copy_ok wp wb gm bm
            (mkCopy (merge_exempt (c_env h) (c_env i)) (seen_p h) (seen_b h))) as Mh
    by (intros; by eapply copy_ok_merge).
  assert (holds_all i h -> copy_ok wp wb gm bm
            (mkCopy (merge_exempt (c_env i) (c_env h)) (seen_p i) (seen_b i))) as Mi
    by (intros; by eapply copy_ok_merge).
  unfold reconcile. rewrite Eh, Ei.
  rewrite decide_put_same by (by destruct pi). unfold dominated, descends, vector; simpl.
  destruct ((t_gen ti <=? t_gen th) && (t_bak_gen ti <=? t_bak_gen th)) eqn:Ed.
  { clear Chi Cih. zbool. pose proof (Vhi ltac:(lia) ltac:(lia)).
    split_and!; [done|done|done|set_solver|set_solver|lia..]. }
  destruct ((t_gen th <=? t_gen ti) && (t_bak_gen th <=? t_bak_gen ti)) eqn:Es.
  { clear Chi Cih. zbool. pose proof (Vih ltac:(lia) ltac:(lia)). unfold gen_of, bak_gen_of. rewrite Eh, Ei.
    split_and!; [done|done|done|set_solver|set_solver|lia..]. }
  assert (if contains th ti then holds_all h i else ~ holds_all h i) as Dhi
    by (destruct (contains th ti); [by apply Chi|by rewrite <- Chi]).
  assert (if contains ti th then holds_all i h else ~ holds_all i h) as Dih
    by (destruct (contains ti th); [by apply Cih|by rewrite <- Cih]).
  clear Chi Cih Vhi Vih Ed Es. unfold meet. rewrite Eh, Ei. unfold containment.
  destruct (contains th ti), (contains ti th); [destruct pi|..];
    unfold gen_of, bak_gen_of; simpl; rewrite ?Eh, ?Ei; simpl;
    (split_and!; (by auto) || lia || set_solver).
Qed.

(** ** The invariant holds in every run *)

Lemma copy_ok_mono wp wb gm bm gm' bm' c :
  copy_ok wp wb gm bm c -> gm <= gm' -> bm <= bm' -> copy_ok wp wb gm' bm' c.
Proof. intros (t & E & T & S & H1 & H2) Hg Hb. exists t. split_and!; (done || lia). Qed.

(** A write numbered past every copy's counter changes nothing for them. *)
Lemma copy_ok_new_p wp wb gm bm c k b :
  copy_ok wp wb gm bm c -> gm < k -> copy_ok (<[k := b]> wp) wb gm bm c.
Proof.
  intros (t & E & [G B S M P Q] & [Hp Hb] & H1 & H2) Hk. exists t. split_and!; try done.
  - constructor; try done.
    + destruct M as [M|[M|M]]; [by left|right; left|by right; right].
      rewrite lookup_insert_ne; [done|lia].
    + intros i b' Hi Hle. rewrite lookup_insert_ne in Hi by lia. by apply P.
  - split; [|done]. intros i. rewrite Hp. split; intros [Hi Hle]; (split; [|done]);
      [by rewrite lookup_insert_ne by lia|by rewrite lookup_insert_ne in Hi by lia].
Qed.

Lemma copy_ok_new_b wp wb gm bm c k g :
  copy_ok wp wb gm bm c -> bm < k -> copy_ok wp (<[k := g]> wb) gm bm c.
Proof.
  intros (t & E & [G B S M P Q] & [Hp Hb] & H1 & H2) Hk. exists t. split_and!; try done.
  - constructor; try done.
    + destruct M as [M|[M|M]]; [by left|by right; left|right; right].
      rewrite lookup_insert_ne; [done|lia].
    + intros j g' Hj Hle. rewrite lookup_insert_ne in Hj by lia. by apply Q.
  - split; [done|]. intros j. rewrite Hb. split; intros [Hj Hle]; (split; [|done]);
      [by rewrite lookup_insert_ne by lia|by rewrite lookup_insert_ne in Hj by lia].
Qed.

(** Each write of the primary leaves a copy that is in order, past all others. *)
Lemma copy_write_p_ok wp wb gm bm changed call c n :
  copy_ok wp wb gm bm c -> gen_of c = gm -> gm <= 1 + n -> n < i64_MAX - 1 ->
  (forall i, is_Some (wp !! i) -> i <= gm) ->
  let c' := copy_write Primary changed call c in
  copy_ok (note_write true changed c' wp) wb (gm + 1) bm c' /\ gen_of c' = gm + 1
  /\ (note_write true changed c' wp = wp
      \/ exists b, note_write true changed c' wp = <[gm + 1 := b]> wp).
Proof.
  intros (t & E & [G B S M P Q] & [Hp Hb] & H1 & H2) Hg Hn Hmax Hw. cbv zeta.
  unfold gen_of in Hg. rewrite E in Hg.
  assert (i64_add (t_gen t) 1 = gm + 1) as Hadd.
  { rewrite i64_add_exact; [lia|]. unfold in_i64, i64_MIN. lia. }
  unfold copy_write, gen_of, note_write. rewrite E. unfold bump_topology. rewrite Hadd.
  destruct changed; simpl; (split_and!; [|done|eauto]); eexists;
    (split_and!; [done|constructor; simpl; try lia|split; simpl|simpl; lia..]).
  - right; left. apply lookup_insert_eq.
  - intros i b Hi Hle. destruct (decide (i = gm + 1)) as [->|Hne].
    + rewrite lookup_insert_eq in Hi. injection Hi as <-. lia.
    + rewrite lookup_insert_ne in Hi by done. destruct (P i b Hi); [|lia].
      specialize (Hw i (ex_intro _ b Hi)). lia.
  - intros j g Hj Hle. destruct (Q j g Hj Hle). lia.
  - intros i. rewrite elem_of_union, elem_of_singleton, Hp. destruct (decide (i = gm + 1)) as [->|Hne].
    + rewrite lookup_insert_eq. split; [intros _; split; [done|lia]|by left].
    + rewrite lookup_insert_ne by done. split; [intros [?|[Hi Hle]]; [done|split; [done|lia]]|].
      intros [Hi Hle]. right. split; [done|]. specialize (Hw i Hi). lia.
  - intros j. rewrite Hb. done.
  - done.
  - intros i b Hi Hle. destruct (P i b Hi); [|done]. specialize (Hw i (ex_intro _ b Hi)). lia.
  - intros j g Hj Hle. destruct (Q j g Hj Hle). lia.
  - intros i. rewrite Hp. split; intros [Hi Hle]; (split; [done|]); [lia|].
    specialize (Hw i Hi). lia.
  - intros j. rewrite Hb. done.
Qed.

Lemma copy_write_b_ok wp wb gm bm changed call c n :
  copy_ok wp wb gm bm c -> bak_gen_of c = bm -> bm <= n -> n < i64_MAX - 1 ->
  (forall j, is_Some (wb !! j) -> j <= bm) ->
  let c' := copy_write Backup changed call c in
  copy_ok wp (note_write false changed c' wb) gm (bm + 1) c' /\ bak_gen_of c' = bm + 1
  /\ (note_write false changed c' wb = wb
      \/ exists g, note_write false changed c' wb = <[bm + 1 := g]> wb).
Proof.
  intros (t & E & [G B S M P Q] & [Hp Hb] & H1 & H2) Hg Hn Hmax Hw. cbv zeta.
  unfold bak_gen_of in Hg. rewrite E in Hg.
  assert (i64_add (t_bak_gen t) 1 = bm + 1) as Hadd.
  { rewrite i64_add_exact; [lia|]. unfold in_i64, i64_MIN. lia. }
  unfold copy_write, bak_gen_of, note_write. rewrite E. unfold bump_topology. rewrite Hadd.
  destruct changed; simpl; (split_and!; [|done|eauto]); eexists;
    (split_and!; [done|constructor; simpl; try lia|split; simpl|simpl; lia..]).
  - right; right. apply lookup_insert_eq.
  - intros i b Hi Hle. destruct (P i b Hi Hle). lia.
  - intros j g Hj Hle. destruct (decide (j = bm + 1)) as [->|Hne].
    + rewrite lookup_insert_eq in Hj. injection Hj as <-. lia.
    + rewrite lookup_insert_ne in Hj by done. destruct (Q j g Hj); [|lia].
      specialize (Hw j (ex_intro _ g Hj)). lia.
  - intros i. rewrite Hp. done.
  - intros j. rewrite elem_of_union, elem_of_singleton, Hb. destruct (decide (j = bm + 1)) as [->|Hne].
    + rewrite lookup_insert_eq. split; [intros _; split; [done|lia]|by left].
    + rewrite lookup_insert_ne by done. split; [intros [?|[Hj Hle]]; [done|split; [done|lia]]|].
      intros [Hj Hle]. right. split; [done|]. specialize (Hw j Hj). lia.
  - done.
  - intros i b Hi Hle. destruct (P i b Hi Hle). lia.
  - intros j g Hj Hle. destruct (Q j g Hj); [|done]. specialize (Hw j (ex_intro _ g Hj)). lia.
  - intros i. rewrite Hp. done.
  - intros j. rewrite Hb. split; intros [Hj Hle]; (split; [done|]); [lia|].
    specialize (Hw j Hj). lia.
Qed.

(** The invariant after a new copy of either node. *)
Lemma sys_ok_pri n n' s c wp :
  sys_ok n s -> copy_ok wp (writes_b s) (gen_of c) (bmax s) c ->
  gmax s <= gen_of c <= 1 + n' -> n <= n' ->
  (wp = writes_p s \/ exists k b, gmax s < k <= gen_of c /\ wp = <[k := b]> (writes_p s)) ->
  sys_ok n' (mkSys c (s_bak s) (c :: pub_pri s) (pub_bak s) wp (writes_b s)).
Proof.
  intros [C Hp Hb Hwp Hwb Hn] Hc Hg Hle Hw.
  constructor; unfold gmax, bmax; simpl; fold (bmax s).
  - intros x Hx.
    assert (x = c \/ a_copy s x) as [->|Hx']
      by (unfold a_copy in *; simpl in Hx; rewrite elem_of_cons in Hx; tauto); [done|].
    apply copy_ok_mono with (gmax s) (bmax s); [|lia..].
    destruct Hw as [->|(k & b & Hk & ->)]; [by apply C|]. apply copy_ok_new_p; [by apply C|lia].
  - by left.
  - done.
  - intros i Hi. destruct Hw as [->|(k & b & Hk & ->)]; [specialize (Hwp i Hi); lia|].
    destruct (decide (i = k)) as [->|Hne]; [lia|].
    rewrite lookup_insert_ne in Hi by done. specialize (Hwp i Hi). lia.
  - done.
  - lia.
Qed.

Lemma sys_ok_bak n n' s c wb :
  sys_ok n s -> copy_ok (writes_p s) wb (gmax s) (bak_gen_of c) c ->
  bmax s <= bak_gen_of c <= n' -> n <= n' ->
  (wb = writes_b s \/ exists k g, bmax s < k <= bak_gen_of c /\ wb = <[k := g]> (writes_b s)) ->
  sys_ok n' (mkSys (s_pri s) (Some c) (pub_pri s) (c :: pub_bak s) (writes_p s) wb).
Proof.
  intros [C Hp Hb Hwp Hwb Hn] Hc Hg Hle Hw.
  constructor; unfold gmax, bmax; simpl; fold (gmax s).
  - intros x Hx.
    assert (x = c \/ a_copy s x) as [->|Hx']
      by (unfold a_copy in *; simpl in Hx; rewrite elem_of_cons in Hx; tauto); [done|].
    apply copy_ok_mono with (gmax s) (bmax s); [|lia..].
    destruct Hw as [->|(k & g & Hk & ->)]; [by apply C|]. apply copy_ok_new_b; [by apply C|lia].
  - done.
  - intros b [= <-]. by left.
  - done.
  - intros j Hj. destruct Hw as [->|(k & g & Hk & ->)]; [specialize (Hwb j Hj); lia|].
    destruct (decide (j = k)) as [->|Hne]; [lia|].
    rewrite lookup_insert_ne in Hj by done. specialize (Hwb j Hj). lia.
  - lia.
Qed.

Lemma copy_ok_gens wp wb gm bm c :
  copy_ok wp wb gm bm c ->
  copy_ok wp wb (gen_of c) (bak_gen_of c) c /\ 1 <= gen_of c <= gm /\ 0 <= bak_gen_of c <= bm.
Proof.
  intros (t & E & T & S & H1 & H2). unfold gen_of, bak_gen_of. rewrite E.
  destruct T. split_and!; try lia. exists t. split_and!; try done; lia.
Qed.

Lemma sys_ok_step n s o :
  sys_ok n s -> 0 <= n < i64_MAX - 1 -> sys_ok (n + 1) (sys_step s o).
Proof.
  intros Hok Hn. pose proof Hok as [C Hp Hb Hwp Hwb Hbd].
  pose proof (C (s_pri s) ltac:(by left)) as Cp.
  destruct o as [[] changed call|[] k]; simpl.
  - destruct (copy_write_p_ok _ _ _ _ changed call _ n Cp eq_refl ltac:(lia) ltac:(lia) Hwp)
      as (Hc & Hg & Hw).
    apply (sys_ok_pri n _ s (copy_write Primary changed call (s_pri s)));
      [done|by rewrite Hg|lia..|].
    destruct Hw as [Hw|[b Hw]]; [by left|right]. exists (gmax s + 1), b. split; [lia|done].
  - destruct (s_bak s) as [b|] eqn:Eb.
    2:{ constructor; [done|done|by rewrite Eb|done|done|lia]. }
    assert (bmax s = bak_gen_of b) as Hm by (unfold bmax; by rewrite Eb).
    destruct (copy_write_b_ok _ _ _ _ changed call b n (C b ltac:(right; by apply Hb)) (eq_sym Hm)
                ltac:(lia) ltac:(lia) Hwb) as (Hc & Hg & Hw).
    apply (sys_ok_bak n _ s (copy_write Backup changed call b)); [done|by rewrite Hg|lia..|].
    destruct Hw as [Hw|[g Hw]]; [by left|right]. exists (bmax s + 1), g. split; [lia|done].
  - destruct (pub_bak s !! k) as [i|] eqn:Ei.
    2:{ constructor; [done..|lia]. }
    apply list_elem_of_lookup_2 in Ei.
    pose proof (reconcile_spec _ _ _ _ false _ _ Cp (C i ltac:(by right))) as Hr.
    destruct (reconcile false (s_pri s) i) as [c d]. destruct Hr as (Hc & _ & Hg & _). simpl.
    destruct (copy_ok_gens _ _ _ _ _ Hc) as (Hc' & Hg' & Hb').
    apply (sys_ok_pri n _ s); [done| |unfold gmax in *; lia|lia|by left].
    eapply copy_ok_mono; [done|lia..].
  - destruct (pub_pri s !! k) as [i|] eqn:Ei.
    2:{ constructor; [done..|lia]. }
    apply list_elem_of_lookup_2 in Ei. pose proof (C i ltac:(by left)) as Ci.
    destruct (s_bak s) as [b|] eqn:Eb.
    + pose proof (reconcile_spec _ _ _ _ true _ _ (C b ltac:(right; by apply Hb)) Ci) as Hr.
      destruct (reconcile true b i) as [c d]. destruct Hr as (Hc & _ & _ & Hg). simpl.
      destruct (copy_ok_gens _ _ _ _ _ Hc) as (Hc' & Hg' & Hb').
      assert (bmax s = bak_gen_of b) as Hm by (unfold bmax; by rewrite Eb).
      apply (sys_ok_bak n _ s); [done| |lia|lia|by left].
      eapply copy_ok_mono; [done|lia..].
    + destruct (copy_ok_gens _ _ _ _ _ Ci) as (Hc' & Hg' & Hb').
      assert (bmax s = 0) as Hm by (unfold bmax; by rewrite Eb).
      apply (sys_ok_bak n _ s); [done| |lia|lia|by left].
      eapply copy_ok_mono; [done|lia..].
Qed.

Lemma sys_ok_run os n s :
  sys_ok n s -> 0 <= n -> n + Z.of_nat (length os) < i64_MAX - 1 ->
  sys_ok (n + Z.of_nat (length os)) (sys_run os s).
Proof.
  revert n s. induction os as [|o os IH]; intros n s Hok Hn Hb; simpl in *.
  - by rewrite Z.add_0_r.
  - replace (n + Z.of_nat (S (length os))) with ((n + 1) + Z.of_nat (length os)) by lia.
    apply IH; [apply sys_ok_step; [done|lia]|lia..].
Qed.

Lemma sys_ok_init p b call : sys_ok 0 (sys_init p b call).
Proof.
  constructor; unfold gmax, bmax, a_copy, gen_of; simpl.
  - intros c Hc. assert (c = mkCopy (mkEnv call (Some (topo_new p b 1 0))) ∅ ∅) as ->
      by (destruct Hc as [Hc|Hc]; [by apply list_elem_of_singleton in Hc|by apply elem_of_nil in Hc]).
    eexists. split_and!; [done|constructor; simpl; try lia| |simpl; lia..].
    + intros i x Hx. by rewrite lookup_empty in Hx.
    + intros i x Hx. by rewrite lookup_empty in Hx.
    + split; intros i; rewrite lookup_empty; split; [set_solver|intros [[] _]|set_solver|intros [[] _]];
        done.
  - by left.
  - done.
  - intros i []. by rewrite lookup_empty in *.
  - intros i []. by rewrite lookup_empty in *.
  - lia.
Qed.

(** ** Theorems *)

(** C29: the stamp and the vector tell exactly which compared writes a copy
    holds.  Through any interleaving of writes and reads by the two owners,
    with copies read in any order and however late, one copy contains another
    ([contains], the stamp at or below the vector) if and only if it holds
    every compared write the other holds. *)
Theorem containment_exact os p b call r l :
  Z.of_nat (length os) < i64_MAX - 1 ->
  let s := sys_run os (sys_init p b call) in
  a_copy s r -> a_copy s l ->
  exists tr tl, e_topology (c_env r) = Some tr /\ e_topology (c_env l) = Some tl
    /\ (contains tr tl = true <-> holds_all r l).
Proof.
  intros Hn s Hr Hl. destruct (sys_ok_run os 0 _ (sys_ok_init p b call)) as [C _ _ _ _ _]; [lia..|].
  pose proof (C r Hr) as Cr. pose proof (C l Hl) as Cl.
  pose proof Cr as (tr & Er & _). pose proof Cl as (tl & El & _).
  exists tr, tl. split_and!; [done..|]. by eapply copy_ok_contains.
Qed.

(** C30: a read loses no write and invents none.  Whatever copy of one owner
    the other reads over its own, the copy left holds exactly the compared
    writes of both; unless they diverged, and then each owner made a compared
    write the other does not hold, and the reader's copy stays as it was. *)
Theorem read_loses_no_write os p b call primary_incoming h i :
  Z.of_nat (length os) < i64_MAX - 1 ->
  let s := sys_run os (sys_init p b call) in
  a_copy s h -> a_copy s i ->
  let '(c, diverged) := reconcile primary_incoming h i in
  if diverged then c = h /\ ~ holds_all h i /\ ~ holds_all i h
  else seen_p c = seen_p h ∪ seen_p i /\ seen_b c = seen_b h ∪ seen_b i.
Proof.
  intros Hn s Hh Hi. destruct (sys_ok_run os 0 _ (sys_ok_init p b call)) as [C _ _ _ _ _]; [lia..|].
  pose proof (reconcile_spec _ _ _ _ primary_incoming h i (C h Hh) (C i Hi)) as Hr.
  destruct (reconcile primary_incoming h i) as [c []]; [tauto|].
  destruct Hr as (_ & ([Hp Hb] & [Hp' Hb'] & Hu & Hu') & _).
  split; apply leibniz_equiv, set_subseteq_antisymm; set_solver.
Qed.

End split_brain.

(** ** The theorems at a split

    The backup reads the first copy; then both owners write. *)

Definition ex_split : list sys_op :=
  [ORead Backup 0; OWrite Primary true (mkExCall 2 false); OWrite Backup true (mkExCall 3 true)].
Definition ex_split_sys : Sys := sys_run ex_split (sys_init "w0" "w1" (mkExCall 1 false)).
Definition ex_split_bak : Copy := default (s_pri ex_split_sys) (s_bak ex_split_sys).

Lemma ex_split_copies : a_copy ex_split_sys (s_pri ex_split_sys) /\ a_copy ex_split_sys ex_split_bak.
Proof. split; [left|right]; by left. Qed.

Lemma containment_exact_witness :
  exists tr tl, e_topology (c_env (s_pri ex_split_sys)) = Some tr
    /\ e_topology (c_env ex_split_bak) = Some tl /\ contains tr tl = false.
Proof.
  destruct (containment_exact ex_split "w0" "w1" (mkExCall 1 false) (s_pri ex_split_sys) ex_split_bak)
    as (tr & tl & Hr & Hl & Hc);
    [vm_compute; reflexivity|exact (proj1 ex_split_copies)|exact (proj2 ex_split_copies)|].
  exists tr, tl. split; [exact Hr|]. split; [exact Hl|].
  vm_compute in Hr. vm_compute in Hl. injection Hr as <-. injection Hl as <-. reflexivity.
Defined.

Lemma read_loses_no_write_witness :
  let '(c, diverged) := reconcile false (s_pri ex_split_sys) ex_split_bak in
  if diverged then c = s_pri ex_split_sys /\ ~ holds_all (s_pri ex_split_sys) ex_split_bak
                   /\ ~ holds_all ex_split_bak (s_pri ex_split_sys)
  else seen_p c = seen_p (s_pri ex_split_sys) ∪ seen_p ex_split_bak
       /\ seen_b c = seen_b (s_pri ex_split_sys) ∪ seen_b ex_split_bak.
Proof.
  apply (read_loses_no_write ex_split "w0" "w1" (mkExCall 1 false));
    [vm_compute; reflexivity|exact (proj1 ex_split_copies)|exact (proj2 ex_split_copies)].
Defined.
