(* ===== verification/PullerProps.v ===== *)
(** * Theorems of the puller's apply gate

    That applying a [Data] frame to the replicating store implements the
    reconciliation of [SplitBrain], what a delete may not end, and what the
    router hears of a batch. *)

From S2P Require Import Prelude ReplFrame Changelog ReplStore ReplStoreInv ReplStoreSteps ReplStoreProps Envelope Puller SplitBrain.

Open Scope Z_scope.

(** ** The store under a frame *)

Section apply_props.
Context `{!CallModel}.

Definition frame_role (f : DataFrame) : PartitionRole :=
  match f_partition f with Bak => Backup | Pri => Primary end.
Definition frame_primary (self : string) (f : DataFrame) : string :=
  (partition_of self (f_ref f)).2.












(** ** Deletes *)

Lemma put_latches now self rb f s c :
  f_op f = Put -> (b ← f_body f; decode_counted b) = Some c -> caller_answered (e_call c) = true ->
  authority_answered (f_ref f) (apply_to_store now self rb MForward f s).2 = true
  \/ meta (apply_to_store now self rb MForward f s).2 !! f_ref f = None.
Proof.
  intros Hop Hc Ha. unfold apply_to_store. rewrite Hop. unfold apply_put.
  rewrite (bool_decide_eq_false_2 (MForward = MBootstrap)) by done. rewrite Hc, Ha.
  match goal with |- context [decide_put ?a ?b ?c ?d] =>
    destruct (match decide_put a b c d with DOutcome o => _ | DMeet => _ end)
      as [[[o v] bd] s1] end.
  cbn [snd]. unfold authority_answered. simpl. rewrite lookup_alter_eq.
  destruct (meta _ !! f_ref f); simpl; [by left|by right].
Qed.

(** The delete guard keys on the answer.  A forward delete of the call held
    that states no answer, over an active element whose caller was answered
    and whose authority never showed an answer, changes nothing.  Once the
    authority flushed its answer, whether or not the store took that body, the
    next delete of the call lands: body and metadata are gone. *)
Theorem delete_guard now self rb f g s e c :
  f_op f = Delete -> f_answered f = false -> f_op g = Put -> f_ref g = f_ref f ->
  is_Some (current_cv now (f_ref f) s) ->
  is_another_call (incarnation_of now (f_ref f) s) (f_incarnation f) = false ->
  (raw ← peek_body_raw (frame_role f) (frame_primary self f) (f_ref f) s; decode_counted raw) = Some e ->
  call_state (e_call e) = Active -> caller_answered (e_call e) = true ->
  (b ← f_body g; decode_counted b) = Some c -> caller_answered (e_call c) = true ->
  let s' := (apply_to_store now self rb MForward g s).2 in
  (authority_answered (f_ref f) s = false -> apply_to_store now self rb MForward f s = (Refused, s))
  /\ (is_another_call (m ← meta s' !! f_ref f; incarnation (m_ref m)) (f_incarnation f) = false ->
      let r := apply_to_store now self rb MForward f s' in
      r.1 = Applied /\ meta r.2 !! f_ref f = None
      /\ mem_body (frame_role f) (frame_primary self f) (f_ref f) (mem r.2) = None).
Proof.
  intros Hf Hans Hg Hr Hcv Ha He Hact Hca Hc Hcc s'. split.
  - intros Hauth. unfold apply_to_store. rewrite Hf. unfold apply_delete.
    fold (frame_role f) (frame_primary self f). rewrite Ha. simpl.
    unfold element_outlives_the_delete. rewrite Hans, Hauth, (bool_decide_eq_true_2 _ Hcv). simpl.
    destruct (peek_body_raw _ _ _ s) as [raw|]; simpl in He; [|done]. rewrite He, Hact, Hca.
    rewrite bool_decide_eq_true_2 by done. done.
  - intros Ha'. pose proof (put_latches now self rb g s c Hg Hc Hcc) as Hl. fold s' in Hl.
    rewrite Hr in Hl. unfold apply_to_store. rewrite Hf. unfold apply_delete.
    fold (frame_role f) (frame_primary self f).
    assert (element_outlives_the_delete now (frame_role f) (frame_primary self f) (f_ref f)
              (f_answered f) s' = false) as ->.
    { unfold element_outlives_the_delete. destruct Hl as [->|Hn]; [by rewrite orb_true_r|].
      assert (current_cv now (f_ref f) s' = None) as ->
        by (unfold current_cv; rewrite Hn; by destruct (is_expired _ _ _)).
      rewrite (bool_decide_eq_false_2 (is_Some None)) by (by intros []). by rewrite orb_true_r. }
    rewrite andb_false_r. unfold write_delete. cbn [o_incarnation o_peer]. rewrite Ha', andb_false_r.
    destruct (meta (set_mem _ s') !! f_ref f) as [m|]; simpl.
    + match goal with |- context [account_role ?o ?n ?x] =>
        destruct (account_role_fields o n x) as (-> & -> & _) end.
      split_and!; [done|apply lookup_delete_eq|apply lookup_delete_eq].
    + split_and!; [done|apply lookup_delete_eq|apply lookup_delete_eq].
Qed.

End apply_props.

(** ** What the router hears *)

(** A copy the store did not take, met at the live one. *)
Definition is_refused (cmd : ReplCommand) : bool :=
  match cmd with ReverseFlushRefused _ _ _ | ForwardFlushRefused _ _ _ => true | _ => false end.

Definition cmd_ref (cmd : ReplCommand) : option string :=
  match cmd with
  | ReclaimAll | PeerDeparted _ => None
  | ReclaimCall r | ReverseFlushRefused r _ _ | ForwardFlushRefused r _ _
  | ForwardFlushApplied r _ | ReverseDeleteApplied r _ => Some r
  end.

(** One frame's hand-up. *)
Record Signal := mkSignal {
  sg_mode : ApplyMode; sg_outcome : ApplyOutcome; sg_boot : bool; sg_ref : string;
  sg_write : PrimaryWrite; sg_origin : Z }.

Definition sg_command (serves : string -> bool) (x : Signal) : option ReplCommand :=
  command (sg_mode x) (sg_outcome x) (sg_boot x) (sg_ref x) (sg_write x) (sg_origin x) serves.

Definition sg_signal (serves : string -> bool) (x : Signal) (held : HeldMeetings)
    : list ReplCommand * HeldMeetings :=
  signal (Some serves) (sg_mode x) (sg_outcome x) (sg_boot x) (sg_ref x) (sg_write x) (sg_origin x)
    held.
Arguments sg_signal : simpl never.

(** The signals of a batch, then its end. *)
Fixpoint run_batch (serves : string -> bool) (xs : list Signal) (held : HeldMeetings)
    : list ReplCommand :=
  match xs with
  | [] => (release_meetings (Some serves) held).1
  | x :: xs =>
      let '(out, held) := sg_signal serves x held in
      out ++ run_batch serves xs held
  end.

(** What one call's frames hand up: each run of refused copies by its last. *)
Fixpoint collapse (pending : option ReplCommand) (l : list (option ReplCommand))
    : list ReplCommand :=
  match l with
  | [] => option_list pending
  | Some c :: l => if is_refused c then collapse (Some c) l
                   else option_list pending ++ c :: collapse None l
  | None :: l => option_list pending ++ collapse None l
  end.

Definition of_call (r : string) (l : list ReplCommand) : list ReplCommand :=
  filter (fun c => cmd_ref c = Some r) l.

(** The copy held for a call. *)
Definition hm_get (r : string) (held : HeldMeetings) : option ReplCommand :=
  snd <$> List.find (fun p => bool_decide (p.1 = r)) held.

Definition held_ok (held : HeldMeetings) : Prop :=
  NoDup (map fst held) /\ forall p, p ∈ held -> cmd_ref p.2 = Some p.1.

Lemma command_ref mode o b r w origin serves c :
  command mode o b r w origin serves = Some c -> cmd_ref c = Some r.
Proof.
  unfold command. destruct mode, o, w; simpl;
    repeat (case_match || case_bool_decide); simpl in *; intros; by simplify_eq/=.
Qed.

Lemma hm_get_cons r p held :
  hm_get r (p :: held) = if bool_decide (p.1 = r) then Some p.2 else hm_get r held.
Proof. unfold hm_get. simpl. by case_bool_decide. Qed.

Lemma hm_get_filter r r' held :
  hm_get r (filter (fun p => p.1 <> r') held) = if bool_decide (r = r') then None else hm_get r held.
Proof.
  induction held as [|[k c] held IH]; [by case_bool_decide|].
  rewrite filter_cons. destruct (decide ((k, c).1 <> r')) as [Hk|Hk].
  - rewrite !hm_get_cons, IH. simpl in *. do 2 case_bool_decide; by simplify_eq.
  - apply dec_stable in Hk; simpl in Hk; subst k. rewrite IH, hm_get_cons. simpl.
    case_bool_decide as H1; [done|]. rewrite bool_decide_eq_false_2 by congruence. done.
Qed.

Lemma hm_get_app r held p :
  hm_get r (held ++ [p]) = match hm_get r held with
                           | Some c => Some c
                           | None => if bool_decide (p.1 = r) then Some p.2 else None end.
Proof.
  induction held as [|q held IH]; [simpl; rewrite hm_get_cons; by case_bool_decide|].
  rewrite <- app_comm_cons, !hm_get_cons, IH. by destruct (bool_decide (q.1 = r)).
Qed.

Lemma hm_get_hold r r' cmd held :
  hm_get r (hm_hold r' cmd held) = if bool_decide (r = r') then Some cmd else hm_get r held.
Proof.
  unfold hm_hold. rewrite hm_get_app, hm_get_filter. simpl.
  case_bool_decide as H1; [by rewrite bool_decide_eq_true_2|].
  rewrite bool_decide_eq_false_2 by done. by destruct (hm_get r held).
Qed.

Lemma held_ok_hold r cmd held :
  held_ok held -> cmd_ref cmd = Some r -> held_ok (hm_hold r cmd held).
Proof.
  intros [Hn Hr] Hc. split.
  - unfold hm_hold. rewrite map_app, NoDup_app. split_and!.
    + clear Hr. induction held as [|p held IH]; [constructor|]. simpl in Hn.
      apply NoDup_cons in Hn as [Hp Hn]. rewrite filter_cons. case_decide; [|by apply IH].
      simpl. apply NoDup_cons. split; [|by apply IH]. intros (x & Hx & Hin)%list_elem_of_fmap.
      apply list_elem_of_filter in Hin as [_ Hin]. apply Hp, list_elem_of_fmap. by exists x.
    + intros x (p & -> & [Hne _]%list_elem_of_filter)%list_elem_of_fmap.
      simpl. by rewrite list_elem_of_singleton.
    + apply NoDup_singleton.
  - intros p [Hp|Hp]%elem_of_app.
    + apply Hr. by apply list_elem_of_filter in Hp as [_ Hp].
    + apply list_elem_of_singleton in Hp as ->. done.
Qed.

Lemma hm_get_None r held : r ∉ map fst held -> hm_get r held = None.
Proof.
  induction held as [|p held IH]; [done|]. simpl. rewrite not_elem_of_cons, hm_get_cons.
  intros [Hne Hin]. rewrite bool_decide_eq_false_2 by congruence. by apply IH.
Qed.

(** [hm_take] takes out exactly the copy of its call. *)
Lemma hm_take_spec r held :
  held_ok held ->
  let '(c, held') := hm_take r held in
  c = hm_get r held /\ held_ok held'
  /\ (forall r', hm_get r' held' = if bool_decide (r' = r) then None else hm_get r' held)
  /\ (forall p, p ∈ held' -> p ∈ held).
Proof.
  induction held as [|[k c] held IH]; intros [Hn Hr]; simpl.
  { split_and!; [done|done|intros r'; by case_bool_decide|done]. }
  simpl in Hn. apply NoDup_cons in Hn as [Hk Hn].
  assert (held_ok held) as Hok by (split; [done|]; intros p Hp; apply Hr; by right).
  rewrite hm_get_cons. simpl. case_bool_decide as Hkr.
  - subst k. split_and!; [done|done| |intros p Hp; by right].
    intros r'. rewrite hm_get_cons. simpl. case_bool_decide as Hr'.
    + subst r'. by apply hm_get_None.
    + rewrite bool_decide_eq_false_2 by congruence. done.
  - specialize (IH Hok). destruct (hm_take r held) as [c' held'].
    destruct IH as (-> & [Hn' Hr'] & Hg & Hsub). split_and!; [done|split| |].
    + simpl. apply NoDup_cons. split; [|done]. intros (p & -> & Hp)%list_elem_of_fmap.
      apply Hk, list_elem_of_fmap. exists p. split; [done|]. by apply Hsub.
    + intros p [->|Hp]%elem_of_cons; [by apply (Hr (k, c)); left|by apply Hr'].
    + intros r'. rewrite !hm_get_cons, Hg. simpl. repeat case_bool_decide; by simplify_eq.
    + intros p [->|Hp]%elem_of_cons; [by left|right; by apply Hsub].
Qed.

(** The copies released for one call: the one held for it. *)
Lemma released_of_call r held : held_ok held -> of_call r (map snd held) = option_list (hm_get r held).
Proof.
  induction held as [|[k c] held IH]; intros [Hn Hr]; [done|].
  simpl in Hn. apply NoDup_cons in Hn as [Hk Hn].
  assert (held_ok held) as Hok by (split; [done|]; intros p Hp; apply Hr; by right).
  pose proof (Hr (k, c) ltac:(by left)) as Hc. simpl in Hc.
  unfold of_call in *. simpl. rewrite filter_cons, hm_get_cons. simpl. rewrite (IH Hok), Hc.
  case_bool_decide as Hkr.
  - rewrite decide_True by congruence. subst k. by rewrite (hm_get_None r held).
  - rewrite decide_False by congruence. done.
Qed.

Lemma of_call_app r l l' : of_call r (l ++ l') = of_call r l ++ of_call r l'.
Proof. apply filter_app. Qed.

Lemma of_call_one r c r' :
  (forall x, c = Some x -> cmd_ref x = Some r') ->
  of_call r (option_list c) = if bool_decide (r = r') then option_list c else [].
Proof.
  intros Hc. destruct c as [x|]; simpl; [|by case_bool_decide].
  unfold of_call. rewrite filter_cons, (Hc x eq_refl), filter_nil. case_bool_decide as Hr.
  - by rewrite decide_True by congruence.
  - by rewrite decide_False by congruence.
Qed.

(** A signal holds its copy, or sends the one held and its own. *)
Lemma sg_signal_cases serves x held :
  sg_signal serves x held
  = match sg_command serves x with
    | Some c as cmd => if is_refused c then ([], hm_hold (sg_ref x) c held)
                else let '(taken, held) := hm_take (sg_ref x) held in
                     (option_list taken ++ option_list cmd, held)
    | None => let '(taken, held) := hm_take (sg_ref x) held in
              (option_list taken ++ option_list None, held)
    end.
Proof. unfold sg_signal, signal, sg_command. by destruct (command _ _ _ _ _ _ _) as [[]|]. Qed.

Lemma collapse_other x l pending :
  match x with Some c => is_refused c = false | None => True end ->
  collapse pending (x :: l) = option_list pending ++ option_list x ++ collapse None l.
Proof. destruct x as [c|]; simpl; [intros ->|]; done. Qed.

(** A frame that holds nothing. *)
Lemma run_batch_sends serves r x xs held :
  held_ok held ->
  (forall held, held_ok held -> of_call r (run_batch serves xs held)
     = collapse (hm_get r held) (map (sg_command serves) (filter (fun x => sg_ref x = r) xs))) ->
  match sg_command serves x with Some c => is_refused c = false | None => True end ->
  (forall c, sg_command serves x = Some c -> cmd_ref c = Some (sg_ref x)) ->
  of_call r (let '(out, held) := sg_signal serves x held in out ++ run_batch serves xs held)
  = collapse (hm_get r held)
      (map (sg_command serves) (if decide (sg_ref x = r) then x :: filter (fun x => sg_ref x = r) xs
                                else filter (fun x => sg_ref x = r) xs)).
Proof.
  intros Hok IH Hnr Href.
  assert (sg_signal serves x held = let '(taken, held) := hm_take (sg_ref x) held in
    (option_list taken ++ option_list (sg_command serves x), held)) as ->.
  { rewrite sg_signal_cases. destruct (sg_command serves x); [by rewrite Hnr|done]. }
  pose proof (hm_take_spec (sg_ref x) held Hok) as Ht.
  assert (forall c, hm_get (sg_ref x) held = Some c -> cmd_ref c = Some (sg_ref x)) as Hg'.
  { intros c. unfold hm_get. destruct (List.find _ held) as [p|] eqn:Ef; [|done]. intros [= <-].
    apply List.find_some in Ef as [Hp Hb]. apply bool_decide_eq_true in Hb.
    rewrite <- Hb. apply Hok. by apply list_elem_of_In. }
  destruct (hm_take (sg_ref x) held) as [taken held']. destruct Ht as (-> & Hok' & Hg & _).
  rewrite !of_call_app, (of_call_one r _ _ Hg'), (of_call_one r _ _ Href), (IH _ Hok'), Hg.
  case_decide as Hx.
  - subst r. rewrite bool_decide_eq_true_2 by done. simpl map. rewrite collapse_other by done.
    by rewrite app_assoc.
  - by rewrite bool_decide_eq_false_2 by congruence.
Qed.

Lemma run_batch_of_call serves r xs held :
  held_ok held ->
  of_call r (run_batch serves xs held)
  = collapse (hm_get r held) (map (sg_command serves) (filter (fun x => sg_ref x = r) xs)).
Proof.
  revert held. induction xs as [|x xs IH]; intros held Hok; simpl; [by apply released_of_call|].
  rewrite filter_cons.
  assert (forall c, sg_command serves x = Some c -> cmd_ref c = Some (sg_ref x)) as Href
    by (intros c; apply command_ref).
  destruct (sg_command serves x) as [c|] eqn:Ec; [destruct (is_refused c) eqn:Er|].
  - rewrite sg_signal_cases, Ec, Er. cbn [app]. rewrite IH by (apply held_ok_hold; auto).
    rewrite hm_get_hold.
    case_decide; simpl; [|by rewrite bool_decide_eq_false_2 by congruence].
    by rewrite Ec, Er, bool_decide_eq_true_2.
  - apply run_batch_sends; [done|done|by rewrite Ec|by rewrite Ec].
  - apply run_batch_sends; [done|done|by rewrite Ec|by rewrite Ec].
Qed.

(** What the router hears of a batch of frames, call by call, is what the
    frames hand up, in order, with each run of consecutive refused copies of
    the call given by its last: no command is lost or reordered, and a refused
    copy is met before any later frame of its call. *)
Theorem batch_meets_latest serves r xs :
  of_call r (run_batch serves xs [])
  = collapse None (map (sg_command serves) (filter (fun x => sg_ref x = r) xs)).
Proof. by apply run_batch_of_call; split; [constructor|intros p Hp; apply elem_of_nil in Hp]. Qed.

(** ** The theorems at a split

    The backup of [w0] holds its own answered version of a call at [(1, 1)];
    the primary's next version is [(2, 0)]. *)

Definition ex_ref : string := "w0|c|t".
Definition ex_body (t : CallTopology) (c : ex_call) : body :=
  match encode (Some t) c with Ok b => b | Err _ => [] end.
Definition ex_held : CallTopology := mkTopo "w0" "w1" 1 1 1 1.
Definition ex_next : CallTopology := mkTopo "w0" "w1" 2 0 2 0.
Definition ex_store : ReplStore :=
  write_put Backup "w0" ex_ref (ex_body ex_held (mkExCall 1 true)) [] 60000 1 1
    (mkPutOpts None None (Some 10) (Some "i"%string)) 10 (store_new (new 7)).
Definition ex_frame (op : Op) : DataFrame :=
  mkData op Bak ex_ref 2 0 60000 20 [] (Some (ex_body ex_next (mkExCall 2 true))) false
    (Some "i"%string).



Lemma delete_guard_witness :
  apply_to_store 20 "w1" (fun _ => false) MForward (ex_frame Delete) ex_store = (Refused, ex_store)
  /\ (apply_to_store 21 "w1" (fun _ => false) MForward (ex_frame Delete)
        (apply_to_store 21 "w1" (fun _ => false) MForward (ex_frame Put) ex_store).2).1 = Applied.
Proof.
  split.
  - apply (delete_guard 20 "w1" (fun _ => false) (ex_frame Delete) (ex_frame Put) ex_store
      (@mkEnv ex_model (mkExCall 1 true) (Some ex_held)) (@mkEnv ex_model (mkExCall 2 true) (Some ex_next)));
      try reflexivity; [eexists; vm_compute; reflexivity|vm_compute; reflexivity..].
  - apply (delete_guard 21 "w1" (fun _ => false) (ex_frame Delete) (ex_frame Put) ex_store
      (@mkEnv ex_model (mkExCall 1 true) (Some ex_held)) (@mkEnv ex_model (mkExCall 2 true) (Some ex_next)));
      try reflexivity; [eexists; vm_compute; reflexivity|vm_compute; reflexivity..].
Defined.
