(* ===== verification/PullerRun.v ===== *)
(** * The puller's state machine

    [crates/b2bua/src/repl/puller.rs] with its submodules [status], [config],
    [connecting], [connect_now], [bootstrap_complete] and [wiring]: the client
    of one [(peer, flow)], connecting, streaming and backing off.

    Each arm a [select!] of the source can take is an event, enabled when what
    it waits for has come: a step is [None] where the arm cannot fire.  Other
    tasks write the store between two events ([EStore]).  The
    wall clock [now], the monotonic clock [inst] (milliseconds), the capacity
    gate's answer and the outcome of each send come with the event.  Logging
    and metrics are left out. *)

From S2P Require Import Prelude ReplFrame Changelog ReplStore Envelope Puller.

Open Scope Z_scope.

(** ** Configuration ([config.rs]) *)

Record PullerConfig := mkPullerConfig {
  backoff_init_ms : Z;
  backoff_max_ms : Z;
  bootstrap_hard_timeout_ms : Z;
  connect_timeout_ms : Z;
  idle_timeout_ms : Z;
  send_stall_ms : Z;
}.

(** [PullerConfig::default]. *)
Definition config_default : PullerConfig := mkPullerConfig 100 2000 10000 2000 2000 15000.

(** [backoff_ms]: [attempt] is a [u32]. *)
Definition backoff_ms (attempt : Z) (c : PullerConfig) : Z :=
  let shift := Z.min (Z.max 0 (attempt - 1)) 31 in
  let scaled := Z.min u64_MAX (backoff_init_ms c * Z.shiftl 1 shift) in
  Z.min scaled (backoff_max_ms c).

(** ** Status ([status.rs]) *)

Record PullerStatus := mkStatus {
  current_flag : bool;
  watermark : Watermark;
  bootstrap_complete : bool;
  reset_gen : Z;
  ever_connected : bool;
  connect_failed : bool;
  streaming : bool;
  last_frame_at : option Z;
  last_frame_gen : option Z;
}.

(** [heard]. *)
Definition heard (inst : Z) (f : Frame) (s : PullerStatus) : PullerStatus :=
  mkStatus (current_flag s) (watermark s) (bootstrap_complete s) (reset_gen s) (ever_connected s)
    (connect_failed s) (streaming s) (Some inst)
    (match f with
     | FData at_ _ _ _ _ _ _ _ _ _ _ _ | FNoop at_ => Some (gen at_)
     | _ => last_frame_gen s
     end).

Definition set_watermark (w : Watermark) (s : PullerStatus) : PullerStatus :=
  mkStatus (current_flag s) w (bootstrap_complete s) (reset_gen s) (ever_connected s)
    (connect_failed s) (streaming s) (last_frame_at s) (last_frame_gen s).
Definition set_current (s : PullerStatus) : PullerStatus :=
  mkStatus true (watermark s) (bootstrap_complete s) (reset_gen s) (ever_connected s)
    (connect_failed s) (streaming s) (last_frame_at s) (last_frame_gen s).
Definition set_complete (s : PullerStatus) : PullerStatus :=
  mkStatus (current_flag s) (watermark s) true (reset_gen s) (ever_connected s)
    (connect_failed s) (streaming s) (last_frame_at s) (last_frame_gen s).
Definition set_reset (s : PullerStatus) : PullerStatus :=
  mkStatus (current_flag s) (mkW 0 0) false (Z.min u64_MAX (reset_gen s + 1)) (ever_connected s)
    (connect_failed s) (streaming s) (last_frame_at s) (last_frame_gen s).
Definition set_connected (s : PullerStatus) : PullerStatus :=
  mkStatus (current_flag s) (watermark s) (bootstrap_complete s) (reset_gen s) true
    (connect_failed s) true (last_frame_at s) (last_frame_gen s).
Definition set_connect_failed (s : PullerStatus) : PullerStatus :=
  mkStatus (current_flag s) (watermark s) (bootstrap_complete s) (reset_gen s) (ever_connected s)
    true (streaming s) (last_frame_at s) (last_frame_gen s).
Definition set_not_streaming (s : PullerStatus) : PullerStatus :=
  mkStatus (current_flag s) (watermark s) (bootstrap_complete s) (reset_gen s) (ever_connected s)
    (connect_failed s) false (last_frame_at s) (last_frame_gen s).

(** ** Requests for a connect at once ([connect_now.rs]) *)

Inductive Attempt := Connected | Failed.

(** [Asks]: a request is a number, [queued] the channel; [closed] tells the
    requests withdrawn by now. *)
Record Asks := mkAsks { queued : list Z; waiting : list Z; failed : bool }.

(** [next]: the first request of the channel still asked for. *)
Fixpoint skip_closed (closed : Z -> bool) (l : list Z) : option (Z * list Z) :=
  match l with
  | [] => None
  | a :: l => if closed a then skip_closed closed l else Some (a, l)
  end.
Definition asks_next (closed : Z -> bool) (a : Asks) : option Asks :=
  '(x, rest) ← skip_closed closed (queued a); Some (mkAsks rest (waiting a ++ [x]) (failed a)).

(** [take_queued]. *)
Definition take_queued (a : Asks) : Asks := mkAsks [] (waiting a ++ queued a) (failed a).

(** [pending]. *)
Definition pending_asks (closed : Z -> bool) (a : Asks) : bool * Asks :=
  let a := take_queued a in
  let w := filter (fun x => closed x = false) (waiting a) in
  (bool_decide (w <> []), mkAsks (queued a) w (failed a)).

(** [take_failed]. *)
Definition take_failed (a : Asks) : bool * Asks := (failed a, mkAsks (queued a) (waiting a) false).

(** [answer]. *)
Definition answer_asks (attempt : Attempt) (a : Asks) : list (Z * Attempt) * Asks :=
  (map (fun x => (x, attempt)) (waiting a),
   mkAsks (queued a) []
     (match attempt with Failed => bool_decide (waiting a <> []) | Connected => false end)).

(** ** The machine *)

(** What a puller is built with. *)
Record Wiring := mkWiring {
  w_self : string;
  w_peer : string;
  w_identity : option string;
  w_partition : Partition;
  w_config : PullerConfig;
  w_sink : option (string -> bool);
}.

(** [is_reclaim]. *)
Definition is_reclaim (w : Wiring) : bool := bool_decide (w_partition w = Pri).

Inductive Phase :=
  | PConnecting
  | PStreaming (connected_at quiet_until : Z) (bootstrapped : bool) (applied_in_bootstrap : Z)
  | PBackoff (until : Z)
  | PStopped.

Record PullerState := mkPS {
  p_store : ReplStore;
  p_status : PullerStatus;
  p_held : HeldMeetings;
  p_asks : Asks;
  p_attempt : Z;
  p_deadline : option Z;
  p_phase : Phase;
}.

(** What a step sends: frames to the peer, commands to the router, answers. *)
Record Out := mkOut { o_frames : list Frame; o_cmds : list ReplCommand; o_answers : list (Z * Attempt) }.

Definition no_out : Out := mkOut [] [] [].

Record Moment := mkMoment {
  at_now : Z;
  at_inst : Z;
  refuses_backup : Z -> bool;
  send_ok : Frame -> bool;
  closed : Z -> bool;
}.

Inductive Event :=
  | ETryConnect (ok : bool)
  | EFrame (f : option Frame)
  | EIdle
  | EQuiet
  | EDeadline
  | ESleep
  | EAsk (a : Z)
  | ENext
  | EStore (s : ReplStore)
  | ECancel.

(** The outcome of [run_once]. *)
Inductive RunOutcome := ConnectFailed | Disconnected (lasted : bool).

Section machine.
Context `{!CallModel}.
Variable w : Wiring.

Definition with_phase (ph : Phase) (p : PullerState) : PullerState :=
  mkPS (p_store p) (p_status p) (p_held p) (p_asks p) (p_attempt p) (p_deadline p) ph.
Definition with_status (s : PullerStatus) (p : PullerState) : PullerState :=
  mkPS (p_store p) s (p_held p) (p_asks p) (p_attempt p) (p_deadline p) (p_phase p).
Definition with_deadline (d : option Z) (p : PullerState) : PullerState :=
  mkPS (p_store p) (p_status p) (p_held p) (p_asks p) (p_attempt p) d (p_phase p).
Definition with_asks (a : Asks) (p : PullerState) : PullerState :=
  mkPS (p_store p) (p_status p) (p_held p) a (p_attempt p) (p_deadline p) (p_phase p).
Definition with_attempt (n : Z) (p : PullerState) : PullerState :=
  mkPS (p_store p) (p_status p) (p_held p) (p_asks p) n (p_deadline p) (p_phase p).
Definition with_store (s : ReplStore) (p : PullerState) : PullerState :=
  mkPS s (p_status p) (p_held p) (p_asks p) (p_attempt p) (p_deadline p) (p_phase p).
Definition with_held (h : HeldMeetings) (p : PullerState) : PullerState :=
  mkPS (p_store p) (p_status p) h (p_asks p) (p_attempt p) (p_deadline p) (p_phase p).

(** [mark_bootstrap_complete]. *)
Definition mark_bootstrap_complete (p : PullerState) : PullerState :=
  with_status (set_complete (p_status p)) p.

(** [signal_reclaim_all], on the Reclaim flow. *)
Definition reclaim_all : list ReplCommand :=
  if is_reclaim w then match w_sink w with Some _ => [ReclaimAll] | None => [] end else [].

(** Entering [connect]: the requests queued are held. *)
Definition enter_connecting (p : PullerState) : PullerState :=
  with_phase PConnecting (with_asks (take_queued (p_asks p)) p).

(** The end of the loop's body in [run]. *)
Definition loop_end (p : PullerState) : PullerState :=
  let p := if bootstrap_complete (p_status p) then with_deadline None p else p in
  enter_connecting p.

(** The outcome of a run, up to the backoff's wait. *)
Definition after_run (m : Moment) (o : RunOutcome) (p : PullerState) : PullerState :=
  let p := with_status (set_not_streaming (p_status p)) p in
  let p := match o with Disconnected true => with_attempt 0 p | _ => p end in
  let '(was_failed, a) := take_failed (p_asks p) in
  let p := with_asks a p in
  let p := if was_failed then p else with_attempt (Z.min u32_MAX (p_attempt p + 1)) p in
  let '(is_pending, a) := pending_asks (closed m) (p_asks p) in
  let p := with_asks a p in
  if is_pending then enter_connecting p
  else with_phase (PBackoff (at_inst m + backoff_ms (p_attempt p) (w_config w))) p.

(** [ended]. *)
Definition ended (m : Moment) (connected_at : Z) (p : PullerState) : PullerState * list ReplCommand :=
  let '(cmds, h) := release_meetings (w_sink w) (p_held p) in
  let lasted := idle_timeout_ms (w_config w) <=? at_inst m - connected_at in
  (after_run m (Disconnected lasted) (with_held h p), cmds).

(** A connect that succeeded: the opening of [run_once]. *)
Definition opened_stream (m : Moment) (p : PullerState) : PullerState * Out :=
  let p := with_status (set_connected (p_status p)) p in
  let '(answers, a) := answer_asks Connected (take_queued (p_asks p)) in
  let p := with_asks a p in
  let since := watermark (p_status p) in
  let req := FPullRequest PROTO_VER (w_self w) (w_identity w) (w_partition w) since in
  if negb (send_ok m req) then
    let '(p, cmds) := ended m (at_inst m) p in (p, mkOut [req] cmds answers)
  else
    let bootstrapped := bool_decide (since <> mkW 0 0) in
    let p := if negb bootstrapped && negb (is_reclaim w)
             then with_store (clear_refusals_of (w_peer w) (p_store p)) p else p in
    (with_phase (PStreaming (at_inst m) (at_inst m + idle_timeout_ms (w_config w)) bootstrapped 0) p,
     mkOut [req] [] answers).

(** The mode of a frame on this flow. *)
Definition mode_of (bootstrapped : bool) : ApplyMode :=
  match is_reclaim w, bootstrapped with
  | true, true => MReverse
  | true, false => MBootstrap
  | false, _ => MForward
  end.

(** A [Data] frame. *)
Definition on_data (m : Moment) (connected_at quiet_until : Z) (bootstrapped : bool) (n : Z)
    (at_ : Watermark) (f : DataFrame) (p : PullerState) : PullerState * Out :=
  let mode := mode_of bootstrapped in
  let write := written_of f in
  let '(outcome, s) := apply_to_store (at_now m) (w_self w) (refuses_backup m) mode f (p_store p) in
  let p := with_store s p in
  let refusal := FReplicaRefused at_ (f_ref f) (f_incarnation f) in
  let shed := bool_decide (outcome = Shed) in
  let p := if shed then
             with_store (refuse_replica (f_ref f) (w_peer w) (f_incarnation f) (at_now m) (p_store p)) p
           else p in
  let sent := if shed then [refusal] else [] in
  if shed && negb (send_ok m refusal) then
    let '(p, cmds) := ended m connected_at p in (p, mkOut sent cmds [])
  else
    let n := if bootstrapped then n else u64_add n 1 in
    let '(cmds, h) := signal (w_sink w) mode outcome bootstrapped (f_ref f) write (f_origin f) (p_held p) in
    let p := with_held h p in
    if bootstrapped then
      let p := with_status (set_watermark at_ (p_status p)) p in
      if send_ok m (FPosition at_) then
        (with_phase (PStreaming connected_at quiet_until bootstrapped n) p,
         mkOut (sent ++ [FPosition at_]) cmds [])
      else
        let '(p, cmds') := ended m connected_at p in
        (p, mkOut (sent ++ [FPosition at_]) (cmds ++ cmds') [])
    else (with_phase (PStreaming connected_at quiet_until bootstrapped n) p, mkOut sent cmds []).

(** A [Noop]. *)
Definition on_noop (m : Moment) (connected_at quiet_until : Z) (bootstrapped : bool) (n : Z)
    (at_ : Watermark) (p : PullerState) : PullerState * Out :=
  let s := set_current (p_status p) in
  let s := if w_ltb (watermark s) at_ then set_watermark at_ s else s in
  let p := with_status s p in
  let '(p, cmds) :=
    if bootstrapped then (p, [])
    else (with_deadline None (mark_bootstrap_complete p), reclaim_all) in
  let '(cmds', h) := release_meetings (w_sink w) (p_held p) in
  let p := with_held h p in
  if send_ok m (FPosition at_) then
    (with_phase (PStreaming connected_at quiet_until true n) p, mkOut [FPosition at_] (cmds ++ cmds') [])
  else
    let '(p, cmds'') := ended m connected_at p in (p, mkOut [FPosition at_] (cmds ++ cmds' ++ cmds'') []).

(** A frame, or the end of the stream. *)
Definition on_frame (m : Moment) (connected_at quiet_until : Z) (bootstrapped : bool) (n : Z)
    (f : option Frame) (p : PullerState) : PullerState * Out :=
  let '(p, quiet_until) :=
    match f with
    | Some f => (with_status (heard (at_inst m) f (p_status p)) p,
                 at_inst m + idle_timeout_ms (w_config w))
    | None => (p, quiet_until)
    end in
  let stay := with_phase (PStreaming connected_at quiet_until bootstrapped n) p in
  match f with
  | Some (FData at_ op part r cg cb ttl origin ixs b ans inc) =>
      on_data m connected_at quiet_until bootstrapped n at_
        (mkData op part r cg cb ttl origin ixs b ans inc) p
  | Some (FNoop at_) => on_noop m connected_at quiet_until bootstrapped n at_ p
  | Some (FResetToBootstrap _) =>
      let p := with_status (set_reset (p_status p)) p in
      let p := with_deadline (Some (at_inst m + bootstrap_hard_timeout_ms (w_config w))) p in
      let '(p, cmds) := ended m connected_at p in (p, mkOut [] cmds [])
  | Some (FStreamRefused _ _) | None =>
      let '(p, cmds) := ended m connected_at p in (p, mkOut [] cmds [])
  | Some _ => (stay, no_out)
  end.

(** [Puller::new] and the start of [run]. *)
Definition p_init (inst : Z) (start_w : Watermark) (s : ReplStore) : PullerState :=
  let warm := bool_decide (start_w <> mkW 0 0) in
  let st := mkStatus false start_w warm 0 false false false None None in
  enter_connecting
    (mkPS s st [] (mkAsks [] [] false) 0
       (if warm then None else Some (inst + bootstrap_hard_timeout_ms (w_config w))) PConnecting).

(** Whether the hard deadline fires. *)
Definition deadline_due (m : Moment) (p : PullerState) : bool :=
  match p_deadline p with Some d => d <=? at_inst m | None => false end.

(** The arms of [connect]: the attempt ended, the hard deadline tripped mid-connect,
    or a connect asked for at once starts it afresh. *)
Definition connecting_step (m : Moment) (e : Event) (p : PullerState) : option (PullerState * Out) :=
  match e with
  | ETryConnect true => Some (opened_stream m p)
  | ETryConnect false =>
      let p := with_status (set_connect_failed (p_status p)) p in
      let '(answers, a) := answer_asks Failed (p_asks p) in
      Some (after_run m ConnectFailed (with_asks a p), mkOut [] [] answers)
  | EDeadline =>
      if deadline_due m p
      then Some (after_run m ConnectFailed (with_deadline None (mark_bootstrap_complete p)), no_out)
      else None
  | ENext => a ← asks_next (closed m) (p_asks p); Some (with_asks a p, no_out)
  | _ => None
  end.

(** The arms of [run_once]'s loop. *)
Definition streaming_step (m : Moment) (e : Event) (c q : Z) (b : bool) (n : Z) (p : PullerState)
    : option (PullerState * Out) :=
  match e with
  | EFrame f => Some (on_frame m c q b n f p)
  | EIdle =>
      if q <=? at_inst m then let '(p, cmds) := ended m c p in Some (p, mkOut [] cmds []) else None
  | EQuiet =>
      if bool_decide (p_held p <> []) then
        let '(cmds, h) := release_meetings (w_sink w) (p_held p) in
        Some (with_held h p, mkOut [] cmds [])
      else None
  | EDeadline =>
      if negb b && deadline_due m p
      then Some (with_deadline None (mark_bootstrap_complete p), mkOut [] reclaim_all [])
      else None
  | _ => None
  end.

(** The arms of the backoff's wait, then the end of the loop's body. *)
Definition backoff_step (m : Moment) (e : Event) (until : Z) (p : PullerState)
    : option (PullerState * Out) :=
  match e with
  | ESleep => if until <=? at_inst m then Some (loop_end p, no_out) else None
  | ENext => a ← asks_next (closed m) (p_asks p); Some (loop_end (with_asks a p), no_out)
  | EDeadline =>
      if deadline_due m p
      then Some (loop_end (with_deadline None (mark_bootstrap_complete p)), no_out) else None
  | _ => None
  end.

(** One event of [run]. *)
Definition p_step (m : Moment) (e : Event) (p : PullerState) : option (PullerState * Out) :=
  match p_phase p, e with
  | PStopped, _ => None
  | _, ECancel => Some (with_phase PStopped (with_status (set_not_streaming (p_status p)) p), no_out)
  | _, EAsk a =>
      Some (with_asks (mkAsks (queued (p_asks p) ++ [a]) (waiting (p_asks p)) (failed (p_asks p))) p, no_out)
  | _, EStore s => Some (with_store s p, no_out)
  | PConnecting, _ => connecting_step m e p
  | PStreaming c q b n, _ => streaming_step m e c q b n p
  | PBackoff u, _ => backoff_step m e u p
  end.

(** The states a run reaches. *)
Inductive p_reachable : PullerState -> Prop :=
  | pr_init inst start_w s : p_reachable (p_init inst start_w s)
  | pr_step m e p p' out : p_reachable p -> p_step m e p = Some (p', out) -> p_reachable p'.

End machine.

#[global] Arguments ended : simpl never.
#[global] Arguments after_run : simpl never.
#[global] Arguments on_data : simpl never.
#[global] Arguments on_noop : simpl never.
#[global] Arguments on_frame : simpl never.
#[global] Arguments opened_stream : simpl never.
