(* ===== verification/PullerRunProps.v ===== *)
(** * Theorems of the puller's state machine

    Bootstrap always ends: a puller that is not bootstrap-complete has its hard
    deadline armed and raced.  A puller resumes only from a position it has
    claimed, and claims none before the first [Noop] of a cold stream. *)

From S2P Require Import Prelude ReplFrame Changelog ReplStore Envelope Puller SplitBrain PullerRun.

Open Scope Z_scope.

Section run_props.
Context `{!CallModel}.
Variable w : Wiring.

(** ** The invariant *)

Definition boot (p : PullerState) : bool := bootstrap_complete (p_status p).
Definition wm (p : PullerState) : Watermark := watermark (p_status p).

(** The stream's phase agrees with the status. *)
Definition phase_ok (p : PullerState) : Prop :=
  match p_phase p with
  | PStreaming _ _ true _ => boot p = true
  | PStreaming _ _ false _ => wm p = mkW 0 0
  | _ => True
  end.

Record p_ok (p : PullerState) : Prop := mkPOk {
  po_deadline : boot p = false -> is_Some (p_deadline p);
  po_warm : boot p = false -> wm p = mkW 0 0;
  po_phase : phase_ok p;
}.

(** Fields the operations leave alone. *)
Lemma after_run_fields m o p :
  let p' := after_run w m o p in
  boot p' = boot p /\ wm p' = wm p /\ p_deadline p' = p_deadline p
  /\ match p_phase p' with PConnecting | PBackoff _ => True | _ => False end.
Proof.
  unfold after_run. destruct (take_failed _) as [f a]. destruct (pending_asks _ _) as [g a'].
  destruct g, f, o as [|[]]; done.
Qed.

Lemma ended_fields m c p :
  let p' := (ended w m c p).1 in
  boot p' = boot p /\ wm p' = wm p /\ p_deadline p' = p_deadline p
  /\ match p_phase p' with PConnecting | PBackoff _ => True | _ => False end.
Proof.
  unfold ended. destruct (release_meetings _ _) as [cmds h]. simpl.
  apply (after_run_fields m _ (with_held h p)).
Qed.

(** Out of a stream the phase asks nothing. *)
Lemma p_ok_left p p' :
  p_ok p -> boot p' = boot p -> wm p' = wm p -> p_deadline p' = p_deadline p ->
  match p_phase p' with PConnecting | PBackoff _ => True | _ => False end -> p_ok p'.
Proof.
  intros [Hd Hw Hp] Hb Hm Hdl Hph. constructor; rewrite ?Hb, ?Hm, ?Hdl; [done..|].
  unfold phase_ok. by destruct (p_phase p').
Qed.

Lemma p_ok_ended m c p : p_ok p -> p_ok (ended w m c p).1.
Proof. intros Hok. destruct (ended_fields m c p) as (? & ? & ? & ?). by eapply p_ok_left. Qed.

Lemma p_ok_after_run m o p : p_ok p -> p_ok (after_run w m o p).
Proof. intros Hok. destruct (after_run_fields m o p) as (? & ? & ? & ?). by eapply p_ok_left. Qed.

(** Ended streams do not look at the phase they leave. *)
Lemma p_ok_ended_phase m c p ph : p_ok (with_phase ph p) -> p_ok (ended w m c p).1.
Proof.
  intros [Hd Hw _]. destruct (ended_fields m c p) as (Hb & Hm & Hdl & Hph).
  constructor; rewrite ?Hb, ?Hm, ?Hdl; [done..|]. unfold phase_ok. by destruct (p_phase _).
Qed.

Lemma p_ok_loop_end p : p_ok (with_phase PConnecting p) -> p_ok (loop_end p).
Proof.
  intros [Hd Hw _]. unfold loop_end. unfold boot, wm in *. simpl in *.
  destruct (bootstrap_complete (p_status p)) eqn:E; constructor; unfold boot, wm; simpl; try done;
    rewrite E; [done|done|..]; by auto.
Qed.

Lemma p_ok_data m c q b n at_ f p :
  p_ok (with_phase (PStreaming c q b n) p) -> p_ok (on_data w m c q b n at_ f p).1.
Proof.
  intros Hok. unfold on_data.
  destruct (apply_to_store _ _ _ _ _ _) as [o s].
  set (p1 := if bool_decide (o = Shed) then _ else _).
  assert (forall ph, p_ok (with_phase ph p) -> p_ok (with_phase ph p1)) as H1
    by (intros ph []; unfold p1; case_bool_decide; by constructor).
  apply H1 in Hok. clearbody p1. clear H1.
  destruct (_ && _).
  { pose proof (p_ok_ended_phase m c _ _ Hok) as He. by destruct (ended w m c p1). }
  destruct (signal _ _ _ _ _ _ _ _) as [cmds h]. destruct b; [|destruct Hok; by constructor].
  assert (p_ok (with_phase (PStreaming c q true n)
    (with_status (set_watermark at_ (p_status (with_held h p1))) (with_held h p1)))) as H2.
  { destruct Hok as [Hd Hw Hp]. unfold phase_ok, boot, wm in *. simpl in *.
    constructor; unfold phase_ok, boot, wm; simpl; congruence. }
  destruct (send_ok _ _); [done|].
  apply (p_ok_ended_phase m c) in H2. by destruct (ended w m c _).
Qed.

Lemma p_ok_noop m c q b n at_ p :
  p_ok (with_phase (PStreaming c q b n) p) -> p_ok (on_noop w m c q b n at_ p).1.
Proof.
  intros [Hd Hw Hp]. unfold on_noop.
  set (s1 := if w_ltb _ _ then _ else _).
  assert (bootstrap_complete s1 = boot p) as Hs1 by (unfold s1; by destruct (w_ltb _ _)).
  clearbody s1.
  set (r := if b then _ else _).
  assert (forall h ph, match ph with PStreaming _ _ x _ => x = true | _ => True end ->
    p_ok (with_phase ph (with_held h r.1))) as Hr.
  { intros h ph Hph. unfold r. destruct b; simpl in *.
    - unfold phase_ok, boot, wm in *. simpl in *.
      constructor; unfold phase_ok, boot, wm; simpl; try congruence.
      destruct ph as [|? ? x ?| |]; [done| |done|done]. subst x. congruence.
    - constructor; unfold phase_ok, boot, wm; simpl; try done.
      destruct ph as [|? ? x ?| |]; [done| |done|done]. by subst x. }
  destruct r as [p1 cmds]. destruct (release_meetings _ _) as [cmds' h]. simpl in Hr.
  destruct (send_ok _ _); [by apply Hr|].
  specialize (Hr h (PStreaming c q true n) eq_refl). apply (p_ok_ended_phase m c) in Hr.
  by destruct (ended w m c _).
Qed.

Lemma p_ok_frame m c q b n f p :
  p_ok p -> p_phase p = PStreaming c q b n -> p_ok (on_frame w m c q b n f p).1.
Proof.
  intros Hok Hph.
  assert (forall q' s', bootstrap_complete s' = boot p -> watermark s' = wm p ->
    p_ok (with_phase (PStreaming c q' b n) (with_status s' p))) as Hst.
  { intros q' s' H1 H2. destruct Hok as [Hd Hw Hp]. unfold phase_ok in Hp. rewrite Hph in Hp.
    constructor; unfold phase_ok, boot, wm in *; simpl; rewrite ?H1, ?H2; done. }
  unfold on_frame. destruct f as [[]|]; cbv beta iota zeta.
  - by apply Hst.
  - apply p_ok_data. by apply Hst.
  - apply p_ok_noop. by apply Hst.
  - set (p1 := with_deadline _ _).
    assert (p_ok (with_phase PConnecting p1)) as H1
      by (constructor; [intros _; by eexists|done|done]).
    apply (p_ok_ended_phase m c) in H1. by destruct (ended w m c p1).
  - by apply Hst.
  - by apply Hst.
  - pose proof (p_ok_ended_phase m c _ _ (Hst q (heard (at_inst m) (FStreamRefused proto_ver reason)
      (p_status p)) eq_refl eq_refl)) as H1. by destruct (ended w m c _).
  - pose proof (p_ok_ended m c p Hok) as H1. by destruct (ended w m c p).
Qed.

Lemma p_ok_opened m p : p_ok p -> p_ok (opened_stream w m p).1.
Proof.
  intros [Hd Hw _]. unfold opened_stream.
  destruct (answer_asks _ _) as [ans a].
  set (p1 := with_asks a (with_status (set_connected (p_status p)) p)).
  assert (forall ph, match ph with PStreaming _ _ _ _ => False | _ => True end ->
    p_ok (with_phase ph p1)) as H1.
  { intros ph Hph. constructor; [done|done|]. unfold phase_ok. simpl. by destruct ph. }
  destruct (send_ok _ _); simpl.
  - destruct (negb _ && negb _); constructor; unfold phase_ok; simpl; try done;
      case_bool_decide as Hc; unfold boot, wm in *; simpl in *.
    + destruct (bootstrap_complete (p_status p)); [done|]. by specialize (Hw eq_refl).
    + done.
    + destruct (bootstrap_complete (p_status p)); [done|]. by specialize (Hw eq_refl).
    + done.
  - pose proof (p_ok_ended_phase m (at_inst m) _ _ (H1 PConnecting I)) as He. exact He.
Qed.

Lemma p_ok_complete p : p_ok p -> p_ok (with_deadline None (mark_bootstrap_complete p)).
Proof.
  intros [Hd Hw Hp]. constructor; [done|done|]. unfold phase_ok, wm, boot in *. simpl.
  by destruct (p_phase p) as [|? ? []| |].
Qed.

Lemma p_ok_step m e p p' out : p_ok p -> p_step w m e p = Some (p', out) -> p_ok p'.
Proof.
  intros Hok. unfold p_step, connecting_step, streaming_step, backoff_step. destruct (p_phase p) as [|c q b n|u|] eqn:Hph; [..|done];
    destruct e; try done; try (intros [= <- <-]; destruct Hok; by constructor).
  - destruct ok.
    + intros [= He]. pose proof (p_ok_opened m p Hok) as H1. by rewrite He in H1.
    + destruct (answer_asks _ _) as [ans a]. intros [= <- _]. apply p_ok_after_run.
      destruct Hok. by constructor.
  - destruct (deadline_due m p); [|done]. intros [= <- _]. by apply p_ok_after_run, p_ok_complete.
  - destruct (asks_next _ _) as [a|]; [|done]. intros [= <- _]. destruct Hok. by constructor.
  - intros [= He]. pose proof (p_ok_frame m c q b n f p Hok Hph) as H1. by rewrite He in H1.
  - destruct (q <=? at_inst m); [|done]. pose proof (p_ok_ended m c p Hok) as H1.
    destruct (ended w m c p) as [p1 cmds]. by intros [= <- _].
  - case_bool_decide; [|done]. destruct (release_meetings _ _) as [cmds h]. intros [= <- _].
    destruct Hok. by constructor.
  - destruct (_ && _); [|done]. intros [= <- _]. by apply p_ok_complete.
  - destruct (deadline_due m p); [|done]. intros [= <- _]. apply p_ok_loop_end.
    apply p_ok_complete in Hok as []. by constructor.
  - destruct (u <=? at_inst m); [|done]. intros [= <- _]. apply p_ok_loop_end.
    destruct Hok. by constructor.
  - destruct (asks_next _ _) as [a|]; [|done]. intros [= <- _]. apply p_ok_loop_end.
    destruct Hok. by constructor.
Qed.

Lemma p_ok_init inst start_w s : p_ok (p_init w inst start_w s).
Proof.
  unfold p_init. destruct (bool_decide (start_w <> mkW 0 0)) eqn:E;
    constructor; unfold boot, wm, phase_ok; simpl; try done; intros _.
  apply bool_decide_eq_false in E. by apply dec_stable in E.
Qed.

Lemma p_reachable_ok p : p_reachable w p -> p_ok p.
Proof. induction 1; [apply p_ok_init|by eapply p_ok_step]. Qed.

(** C34: the bootstrap always ends.  In every state a running puller reaches,
    through resets, cuts, failed connects and backoffs, one that is not
    bootstrap-complete has its hard deadline armed, and once that instant
    passes the deadline can fire, whatever the phase, and completes it: no
    unreachable or silent peer keeps the node from serving. *)
Theorem bootstrap_always_ends p :
  p_reachable w p -> p_phase p <> PStopped -> bootstrap_complete (p_status p) = false ->
  exists d, p_deadline p = Some d /\
    forall m, d <= at_inst m ->
      exists p' out, p_step w m EDeadline p = Some (p', out)
                     /\ bootstrap_complete (p_status p') = true.
Proof.
  intros Hr Hph Hb. destruct (p_reachable_ok p Hr) as [Hd _ Hp].
  destruct (Hd Hb) as [d Ed]. exists d. split; [done|]. intros m Hm.
  assert (deadline_due m p = true) as Hdue by (unfold deadline_due; rewrite Ed; by apply Z.leb_le).
  unfold p_step, connecting_step, streaming_step, backoff_step, phase_ok in *. destruct (p_phase p) as [|c q b n|u|]; [..|done].
  - rewrite Hdue. do 2 eexists. split; [done|].
    destruct (after_run_fields m ConnectFailed (with_deadline None (mark_bootstrap_complete p)))
      as (H1 & _). unfold boot in H1. by rewrite H1.
  - destruct b; [unfold boot in Hp; congruence|]. rewrite Hdue. by do 2 eexists.
  - rewrite Hdue. by do 2 eexists.
Qed.

(** ** Positions *)

(** The position of a [Data] frame. *)
Definition data_at (f : Frame) : option Watermark :=
  match f with FData at_ _ _ _ _ _ _ _ _ _ _ _ => Some at_ | _ => None end.

(** What a step claims, and where it opens a stream from. *)
Definition claims_ok (e : Event) (p p' : PullerState) (frames : list Frame) : Prop :=
  (wm p' = wm p \/ wm p' = mkW 0 0 \/ FPosition (wm p') ∈ frames)
  /\ (forall a, FPosition a ∈ frames -> exists f, e = EFrame (Some f)
        /\ (f = FNoop a
            \/ (data_at f = Some a /\ exists c q n, p_phase p = PStreaming c q true n)))
  /\ (forall v c i part since, FPullRequest v c i part since ∈ frames -> since = wm p).

Lemma claims_quiet e p p' : wm p' = wm p -> claims_ok e p p' [].
Proof. intros H1. split; [by left|]. split; intros *; by rewrite elem_of_nil. Qed.

Lemma claims_data m c q q0 b n at_ f fr p p0 :
  data_at fr = Some at_ -> p_phase p0 = PStreaming c q0 b n -> wm p = wm p0 ->
  let r := on_data w m c q b n at_ f p in claims_ok (EFrame (Some fr)) p0 r.1 (o_frames r.2).
Proof.
  intros Hfr Hph Hwm. unfold on_data. destruct (apply_to_store _ _ _ _ _ _) as [o s].
  set (sent := if bool_decide (o = Shed) then [_] else []).
  assert (forall x, x ∈ sent -> exists r i, x = FReplicaRefused at_ r i) as Hs.
  { unfold sent. intros x. case_bool_decide; [rewrite list_elem_of_singleton|by rewrite elem_of_nil].
    intros ->. by do 2 eexists. }
  set (p1 := if bool_decide (o = Shed) then _ else _).
  assert (wm p1 = wm p0) as H1 by (unfold p1; by case_bool_decide).
  clearbody p1 sent.
  assert (forall l, (forall a, FPosition a ∈ l -> a = at_) -> b = true ->
    (forall x, x ∈ l -> exists a, x = FPosition a) ->
    (forall a, FPosition a ∈ sent ++ l -> exists f, EFrame (Some fr) = EFrame (Some f)
        /\ (f = FNoop a \/ (data_at f = Some a /\ exists c q n, p_phase p0 = PStreaming c q true n)))
    /\ (forall v c i part since, FPullRequest v c i part since ∈ sent ++ l -> since = wm p0)) as Hl.
  { intros l Hl Hb Hl'. split; intros *; rewrite elem_of_app; intros [Hx|Hx].
    - by apply Hs in Hx as (? & ? & ?).
    - apply Hl in Hx as ->. exists fr. split; [done|]. right. split; [done|]. subst b.
      by do 3 eexists.
    - by apply Hs in Hx as (? & ? & ?).
    - by apply Hl' in Hx as (? & ?). }
  assert (claims_ok (EFrame (Some fr)) p0 p0 sent) as (_ & Hq1 & Hq2).
  { split; [by left|]. split; intros * Hx; by apply Hs in Hx as (? & ? & ?). }
  destruct (_ && _).
  { pose proof (ended_fields m c p1) as (_ & He & _). destruct (ended w m c p1) as [p' cmds].
    simpl in *. split; [left; congruence|done]. }
  destruct (signal _ _ _ _ _ _ _ _) as [cmds h]. destruct b.
  2:{ simpl. split; [by left|done]. }
  destruct (Hl [FPosition at_]) as [HA HB]; [|done| |].
  { intros a. rewrite list_elem_of_singleton. congruence. }
  { intros x. rewrite list_elem_of_singleton. intros ->. by eexists. }
  destruct (send_ok _ _).
  { simpl. split; [|done]. right; right. apply elem_of_app. right. by apply list_elem_of_singleton. }
  match goal with |- context [ended w m c ?x] =>
    pose proof (ended_fields m c x) as (_ & He & _); destruct (ended w m c x) as [p' cmds'] end.
  simpl in *. split; [|done]. right; right. rewrite He. apply elem_of_app. right.
  by apply list_elem_of_singleton.
Qed.

Lemma claims_noop m c q b n at_ p p0 :
  wm p = wm p0 ->
  let r := on_noop w m c q b n at_ p in
  claims_ok (EFrame (Some (FNoop at_))) p0 r.1 (o_frames r.2).
Proof.
  intros Hwm. unfold on_noop. set (s1 := if w_ltb _ _ then _ else _).
  assert (watermark s1 = wm p0 \/ watermark s1 = at_) as H1.
  { unfold s1. destruct (w_ltb _ _); [by right|by left]. }
  clearbody s1. set (r := if b then _ else _).
  assert (wm r.1 = watermark s1) as H2 by (unfold r; by destruct b).
  destruct r as [p1 cmds]. simpl in H2. destruct (release_meetings _ _) as [cmds' h].
  assert (forall p', wm p' = watermark s1 -> claims_ok (EFrame (Some (FNoop at_))) p0 p' [FPosition at_])
    as Hc.
  { intros p' Hp'. split_and!.
    - destruct H1 as [H1|H1]; [left; congruence|right; right]. rewrite Hp', H1.
      by apply list_elem_of_singleton.
    - intros a. rewrite list_elem_of_singleton. intros [= ->]. exists (FNoop at_). auto.
    - intros *. by rewrite list_elem_of_singleton. }
  destruct (send_ok _ _); [by apply Hc|].
  match goal with |- context [ended w m c ?x] =>
    pose proof (ended_fields m c x) as (_ & He & _); destruct (ended w m c x) as [p' cmds''] end.
  apply Hc. simpl in *. by rewrite He.
Qed.

Lemma claims_frame m c q b n f p :
  p_phase p = PStreaming c q b n ->
  let r := on_frame w m c q b n f p in claims_ok (EFrame f) p r.1 (o_frames r.2).
Proof.
  intros Hph. unfold on_frame. destruct f as [[]|]; cbv beta iota zeta.
  all: try (by apply claims_quiet).
  - by apply (claims_data m c _ q b n).
  - by apply claims_noop.
  - match goal with |- context [ended w m c ?x] =>
      pose proof (ended_fields m c x) as (_ & He & _); destruct (ended w m c x) as [p' cmds] end.
    split; [right; left; exact He|]. split; intros *; by rewrite elem_of_nil.
  - match goal with |- context [ended w m c ?x] =>
      pose proof (ended_fields m c x) as (_ & He & _); destruct (ended w m c x) as [p' cmds] end.
    by apply claims_quiet.
  - pose proof (ended_fields m c p) as (_ & He & _). destruct (ended w m c p) as [p' cmds].
    by apply claims_quiet.
Qed.

Lemma claims_opened m e p :
  let r := opened_stream w m p in claims_ok e p r.1 (o_frames r.2).
Proof.
  unfold opened_stream. destruct (answer_asks _ _) as [ans a].
  match goal with |- context [FPullRequest ?v ?c ?i ?p ?s] => set (req := FPullRequest v c i p s) end.
  assert (forall p', wm p' = wm p -> claims_ok e p p' [req]) as Hc.
  { intros p' Hp'. split; [by left|]. split; intros *; rewrite list_elem_of_singleton; [done|].
    unfold req. by intros [= -> -> -> -> ->]. }
  destruct (send_ok _ _); simpl negb; cbv beta iota zeta.
  - destruct (_ && _); by apply Hc.
  - match goal with |- context [ended w m ?c ?x] =>
      pose proof (ended_fields m c x) as (_ & He & _); destruct (ended w m c x) as [p' cmds] end.
    apply Hc. simpl in *. by rewrite He.
Qed.

Lemma claims_step m e p p' out : p_step w m e p = Some (p', out) -> claims_ok e p p' (o_frames out).
Proof.
  unfold p_step, connecting_step, streaming_step, backoff_step. destruct (p_phase p) as [|c q b n|u|] eqn:Hph; [..|done];
    destruct e; try done; try (intros [= <- <-]; by apply claims_quiet).
  - destruct ok.
    + intros [= He]. pose proof (claims_opened m (ETryConnect true) p) as H1. by rewrite He in H1.
    + destruct (answer_asks _ _) as [ans a]. intros [= <- <-]. apply claims_quiet.
      by destruct (after_run_fields m ConnectFailed
        (with_asks a (with_status (set_connect_failed (p_status p)) p))) as (_ & -> & _).
  - destruct (deadline_due m p); [|done]. intros [= <- <-]. apply claims_quiet.
    by destruct (after_run_fields m ConnectFailed (with_deadline None (mark_bootstrap_complete p)))
      as (_ & -> & _).
  - destruct (asks_next _ _) as [a|]; [|done]. intros [= <- <-]. by apply claims_quiet.
  - intros [= He]. pose proof (claims_frame m c q b n f p Hph) as H1. by rewrite He in H1.
  - destruct (q <=? at_inst m); [|done]. pose proof (ended_fields m c p) as (_ & H1 & _).
    destruct (ended w m c p) as [p1 cmds]. intros [= <- <-]. by apply claims_quiet.
  - case_bool_decide; [|done]. destruct (release_meetings _ _) as [cmds h]. intros [= <- <-].
    by apply claims_quiet.
  - destruct (_ && _); [|done]. intros [= <- <-]. by apply claims_quiet.
  - destruct (deadline_due m p); [|done]. intros [= <- <-]. apply claims_quiet.
    unfold loop_end. by destruct (bootstrap_complete _).
  - destruct (u <=? at_inst m); [|done]. intros [= <- <-]. apply claims_quiet.
    unfold loop_end. by destruct (bootstrap_complete _).
  - destruct (asks_next _ _) as [a|]; [|done]. intros [= <- <-]. apply claims_quiet.
    unfold loop_end. by destruct (bootstrap_complete _).
Qed.

(** The frames a puller built cold has sent, oldest first. *)
Inductive p_trace : PullerState -> list Frame -> Prop :=
  | pt_init inst s : p_trace (p_init w inst (mkW 0 0) s) []
  | pt_step m e p p' out sent :
      p_trace p sent -> p_step w m e p = Some (p', out) -> p_trace p' (sent ++ o_frames out).

Lemma trace_reachable p sent : p_trace p sent -> p_reachable w p.
Proof. induction 1; by econstructor. Qed.

(** A puller resumes only from a position it has claimed.  Over any run of
    a puller built cold, each stream is opened from the start, or from a
    position the puller stated in a [Position] it had sent before; a position
    is stated only in answer to a [Noop], or to a [Data] frame of a stream past
    its first [Noop] (or opened past the start); and through the scan of a cold
    stream the position stays at the start, so a cut there starts over. *)
Theorem puller_resumes_claimed p sent :
  p_trace p sent ->
  (forall l v c i part since l', sent = l ++ FPullRequest v c i part since :: l' ->
     since = mkW 0 0 \/ FPosition since ∈ l)
  /\ (forall c q n, p_phase p = PStreaming c q false n -> watermark (p_status p) = mkW 0 0)
  /\ (forall m e p' out a, p_step w m e p = Some (p', out) -> FPosition a ∈ o_frames out ->
      exists f, e = EFrame (Some f)
        /\ (f = FNoop a \/ (data_at f = Some a /\ exists c q n, p_phase p = PStreaming c q true n))).
Proof.
  intros Ht.
  assert ((wm p = mkW 0 0 \/ FPosition (wm p) ∈ sent)
    /\ forall l v c i part since l', sent = l ++ FPullRequest v c i part since :: l' ->
         since = mkW 0 0 \/ FPosition since ∈ l) as [Hw Hreq].
  { induction Ht as [inst s|m e p p' out sent Ht IH Hstep].
    - split; [by left|]. by intros [] *.
    - destruct IH as [Hw Hreq]. destruct (claims_step m e p p' out Hstep) as (Hwm & _ & Hpull).
      split.
      + rewrite elem_of_app. destruct Hwm as [->|[->|]]; tauto.
      + intros l v c i part since l' Hs. apply app_eq_app in Hs as (k & [[-> Hk]|[-> Hk]]).
        * destruct k as [|x k]; simpl in Hk.
          -- rewrite app_nil_r in Hw. assert (since = wm p) as ->; [|done].
             eapply Hpull. rewrite <- Hk. by left.
          -- injection Hk as <- ->. by eapply Hreq.
        * rewrite elem_of_app. assert (since = wm p) as ->.
          { eapply Hpull. rewrite Hk. apply elem_of_app. right. by left. }
          tauto. }
  split; [done|]. split.
  - intros c q n Hph. destruct (p_reachable_ok p (trace_reachable p sent Ht)) as [_ _ Hp].
    unfold phase_ok in Hp. by rewrite Hph in Hp.
  - intros m e p' out a Hstep. by apply (claims_step m e p p' out Hstep).
Qed.

End run_props.

(** ** The theorems along a run

    A backup flow connects cold, is cut, backs off and connects again. *)

Definition ex_wiring : Wiring := mkWiring "w1" "w0" None Bak config_default None.
Definition ex_moment (t : Z) : Moment :=
  mkMoment t t (fun _ => false) (fun _ => true) (fun _ => false).
Definition ex_cold : PullerState := p_init ex_wiring 0 (mkW 0 0) (store_new (new 7)).

(** The states of a list of events, the frames sent. *)
Fixpoint ex_run (es : list (Z * Event)) (p : PullerState) (sent : list Frame)
    : option (PullerState * list Frame) :=
  match es with
  | [] => Some (p, sent)
  | (t, e) :: es => '(p, out) ← p_step ex_wiring (ex_moment t) e p; ex_run es p (sent ++ o_frames out)
  end.

Lemma ex_run_trace es p sent p' sent' :
  p_trace ex_wiring p sent -> ex_run es p sent = Some (p', sent') -> p_trace ex_wiring p' sent'.
Proof.
  revert p sent. induction es as [|[t e] es IH]; intros p sent Ht; cbn [ex_run].
  - by intros [= <- <-].
  - destruct (p_step ex_wiring (ex_moment t) e p) as [[p1 out]|] eqn:E; [|done].
    apply IH. by econstructor.
Qed.

Definition ex_cut : list (Z * Event) :=
  [(1, ETryConnect true); (5, EFrame None); (200, ESleep); (201, ETryConnect true)].
Definition ex_noop : list (Z * Event) :=
  ex_cut ++ [(202, EFrame (Some (FNoop (mkW 3 9)))); (203, EFrame None); (500, ESleep);
             (501, ETryConnect true)].

Definition ex_end (es : list (Z * Event)) : PullerState * list Frame :=
  default (ex_cold, []) (ex_run es ex_cold []).

Lemma ex_end_trace es :
  ex_run es ex_cold [] = Some (ex_end es) -> p_trace ex_wiring (ex_end es).1 (ex_end es).2.
Proof.
  intros H. apply (ex_run_trace es ex_cold []); [constructor|].
  rewrite H. by rewrite <- surjective_pairing.
Qed.

Lemma bootstrap_always_ends_witness :
  exists p' out, p_step ex_wiring (ex_moment 10000) EDeadline (ex_end ex_cut).1 = Some (p', out)
                 /\ bootstrap_complete (p_status p') = true.
Proof.
  destruct (bootstrap_always_ends ex_wiring (ex_end ex_cut).1) as (d & Hd & Hm).
  - eapply trace_reachable, ex_end_trace. vm_compute. reflexivity.
  - vm_compute. discriminate.
  - vm_compute. reflexivity.
  - apply Hm. vm_compute in Hd. injection Hd as <-. vm_compute. discriminate.
Defined.

(** The last stream of the run resumes from the position claimed. *)
Lemma puller_resumes_claimed_witness :
  exists l, (ex_end ex_noop).2 = l ++ [FPullRequest PROTO_VER "w1" None Bak (mkW 3 9)]
            /\ (mkW 3 9 = mkW 0 0 \/ FPosition (mkW 3 9) ∈ l).
Proof.
  assert (p_trace ex_wiring (ex_end ex_noop).1 (ex_end ex_noop).2) as Ht
    by (apply ex_end_trace; vm_compute; reflexivity).
  exists (removelast (ex_end ex_noop).2). split; [vm_compute; reflexivity|].
  apply (puller_resumes_claimed ex_wiring _ _ Ht) with
    (v := PROTO_VER) (c := "w1"%string) (i := None) (part := Bak) (l' := []).
  vm_compute. reflexivity.
Defined.
