(* ===== verification/TxnData.v ===== *)
(** * Transactions: data

    [crates/sip-txn/src/layer/txn.rs], [key.rs], [lifetime.rs], [call_txns.rs],
    [refusals.rs], [owner.rs] and [crates/sip-txn/src/event.rs]: what the
    transaction layer reads of a SIP message, the records it keeps, and the
    state of its owner task.  Instants and durations are in milliseconds; a
    port and a CSeq number are [Z]. *)

From S2P Require Import Prelude Retransmit SipClock.

Open Scope Z_scope.

(** ** Messages

    What the layer reads of a message.  [Bytes] is a datagram's image. *)

Notation Bytes := string.
Notation SocketAddr := (string * Z)%type.

(** [Method]. *)
Inductive Method :=
  | MInvite | MAck | MBye | MCancel | MOptions | MRegister | MInfo | MUpdate | MPrack | MSubscribe
  | MNotify | MPublish | MMessage | MRefer | MOther (s : string).
#[global] Instance Method_eq_dec : EqDecision Method.
Proof. solve_decision. Defined.

Definition method_code (m : Method) : nat * string :=
  match m with
  | MInvite => (0, "") | MAck => (1, "") | MBye => (2, "") | MCancel => (3, "") | MOptions => (4, "")
  | MRegister => (5, "") | MInfo => (6, "") | MUpdate => (7, "") | MPrack => (8, "") | MSubscribe => (9, "")
  | MNotify => (10, "") | MPublish => (11, "") | MMessage => (12, "") | MRefer => (13, "") | MOther s => (14, s)
  end%nat.
Definition method_decode (c : nat * string) : Method :=
  match c with
  | (0, _) => MInvite | (1, _) => MAck | (2, _) => MBye | (3, _) => MCancel | (4, _) => MOptions
  | (5, _) => MRegister | (6, _) => MInfo | (7, _) => MUpdate | (8, _) => MPrack | (9, _) => MSubscribe
  | (10, _) => MNotify | (11, _) => MPublish | (12, _) => MMessage | (13, _) => MRefer | (_, s) => MOther s
  end%nat.
#[global] Instance Method_countable : Countable Method.
Proof. apply (inj_countable' method_code method_decode). by intros []. Defined.

(** A URI's host and port, and whether it is a loose route. *)
Record Uri := mkUri { uri_host : string; uri_port : option Z; uri_lr : bool }.

(** The top Via: its sent-by, its branch, and the call marks [cr], [lg] and
    [ci] this node writes, decoded. *)
Record Via := mkVia {
  via_host : string; via_port : option Z; via_branch : option string;
  via_cr : option string; via_lg : option string; via_ci : option string;
}.

Record SipRequest := mkRequest {
  rq_method : Method;
  rq_via : Via;
  rq_from_tag : option string;
  rq_to_tag : option string;
  rq_call_id : string;
  rq_cseq : Z;
  rq_uri : Uri;
  rq_call_ref : option string; (** the Request-URI's [callRef], decoded *)
  rq_routes : option (list Uri); (** [None] when a Route does not read *)
  rq_sdp : option Bytes;
  rq_headers : list (string * string);
  rq_image : Bytes;
}.

Record SipResponse := mkResponse {
  rs_status : Z;
  rs_via : Via;
  rs_method : Method; (** of its CSeq *)
  rs_cseq : Z;
  rs_from_tag : option string;
  rs_to_tag : option string;
  rs_call_id : string;
  rs_sdp : option Bytes;
  rs_rseq : bool;
  rs_image : Bytes;
}.

Inductive SipMessage := Request (r : SipRequest) | Response (r : SipResponse).

(** ** Keys ([key.rs]) *)

Definition lower_ascii (a : Ascii.ascii) : Ascii.ascii :=
  let n := Ascii.nat_of_ascii a in
  if (65 <=? n)%nat && (n <=? 90)%nat then Ascii.ascii_of_nat (n + 32) else a.
Fixpoint lower (s : string) : string :=
  match s with EmptyString => EmptyString | String a s => String (lower_ascii a) (lower s) end.

(** [filed_method]: an ACK is filed under its INVITE's method. *)
Definition filed_method (m : Method) : Method := match m with MAck => MInvite | m => m end.

(** [ServerTxnKey] and [ServerTxnId], its borrowed form: branch, sent-by (the
    host compared in lower case) and method. *)
Record ServerTxnKey := mkServerKey { sk_branch : string; sk_host : string; sk_port : option Z; sk_method : Method }.
#[global] Instance ServerTxnKey_eq_dec : EqDecision ServerTxnKey.
Proof. solve_decision. Defined.
#[global] Instance ServerTxnKey_countable : Countable ServerTxnKey.
Proof.
  apply (inj_countable' (fun k => (sk_branch k, sk_host k, sk_port k, sk_method k))
           (fun '(b, h, p, m) => mkServerKey b h p m)). by intros [].
Defined.

(** [ServerTxnId::new]: the branch where it is not empty. *)
Definition filled (o : option string) : option string :=
  match o with Some EmptyString => None | o => o end.
Definition server_id (via : Via) (m : Method) : option ServerTxnKey :=
  b ← filled (via_branch via); Some (mkServerKey b (lower (via_host via)) (via_port via) (filed_method m)).
Definition id_of_request (r : SipRequest) : option ServerTxnKey := server_id (rq_via r) (rq_method r).
Definition id_of_response (r : SipResponse) : option ServerTxnKey := server_id (rs_via r) (rs_method r).
Definition cancelled_invite_id (via : Via) : option ServerTxnKey := server_id via MInvite.

(** [TxnId], and [TxnRef], its borrowed form. *)
Inductive TxnId := Client (branch : string) | Server (key : ServerTxnKey).
#[global] Instance TxnId_eq_dec : EqDecision TxnId.
Proof. solve_decision. Defined.

(** ** Lifetimes ([lifetime.rs]) *)

Inductive Hold := HTimerD | HTimerH | HTimerL | HTimerJ | HTimerI | HTimerM | HGaveUp.
#[global] Instance Hold_eq_dec : EqDecision Hold.
Proof. solve_decision. Defined.

Definition hold_duration (h : Hold) : Z :=
  match h with
  | HTimerD => TIMER_D | HTimerH => TIMER_H | HTimerL => TIMER_L | HTimerJ => TIMER_J
  | HTimerI => TIMER_I | HTimerM => TIMER_M | HGaveUp => TIMER_B
  end.

Inductive Lifetime := Active (backstop : Z) | Held (why : Hold) (until : Z).

Definition lt_deadline (l : Lifetime) : Z := match l with Active b => b | Held _ u => u end.
Definition lt_gave_up (l : Lifetime) : bool := match l with Held HGaveUp _ => true | _ => false end.
(** [Lifetime::held]. *)
Definition lt_held (l : Lifetime) (why : Hold) (until : Z) : Lifetime :=
  Held why (match l with
            | Held running old => if decide (running = why) then Z.max until old else until
            | Active _ => until
            end).

(** ** Transactions ([txn.rs]) *)

Inductive TxnKind := KInvite | KNonInvite.
#[global] Instance TxnKind_eq_dec : EqDecision TxnKind.
Proof. solve_decision. Defined.
Inductive TxnTimeoutKind := TkResponse | TkTransaction.
#[global] Instance TxnTimeoutKind_eq_dec : EqDecision TxnTimeoutKind.
Proof. solve_decision. Defined.

Inductive TxnState := Trying | Proceeding | Completed | Confirmed | Accepted.
#[global] Instance TxnState_eq_dec : EqDecision TxnState.
Proof. solve_decision. Defined.
Definition is_active (s : TxnState) : bool := match s with Trying | Proceeding => true | _ => false end.

(** [Timer]: what an entry of the wheel is for. *)
Inductive Timer :=
  | ClientRetransmit (branch : string) | ServerRetransmit (key : ServerTxnKey) | ClientTimeout (branch : string)
  | FirstResponse (branch : string) | TTrying (key : ServerTxnKey) (opened : Z) | Cleanup (id : TxnId)
  | AckBound (branch : string) (opened : Z) | CancelBound (key : ServerTxnKey) (opened : Z)
  | CancelRetransmit (branch : string) | EventRetry.
#[global] Instance Timer_eq_dec : EqDecision Timer.
Proof. solve_decision. Defined.

Inductive CancelWire := WHeld | WSent.
#[global] Instance CancelWire_eq_dec : EqDecision CancelWire.
Proof. solve_decision. Defined.

Record UnsentCancel := mkUnsentCancel {
  uc_cancel_ok : option (Bytes * SocketAddr);
  uc_terminated : option (Bytes * SocketAddr);
  uc_held_as : string * string * Z;
}.

Record HeldCancel := mkHeldCancel {
  hc_buf : Bytes; hc_dest : SocketAddr; hc_wire : CancelWire; hc_ladder : option Ladder;
}.

Definition MAX_DIALOGS : nat := 16.

Record InviteDialog := mkDialog {
  dl_to_tag : option string; dl_cseq : Z; dl_byed : bool; dl_ack : option (Bytes * SocketAddr);
}.

(** [NewTransaction]. *)
Record NewTransaction := mkNewTxn {
  nt_id : TxnId; nt_kind : TxnKind; nt_method : Method; nt_cseq : Z; nt_call_id : string; nt_from_tag : string;
  nt_original_request : option SipRequest; nt_call_ref : option string; nt_leg_id : option string;
  nt_incarnation_mark : option string; nt_state : TxnState; nt_destination : option SocketAddr;
}.

(** [Transaction].  A key is that of an entry of the wheel. *)
Record Transaction := mkTxn {
  tx_id : TxnId; tx_kind : TxnKind; tx_method : Method; tx_cseq : Z; tx_call_id : string; tx_from_tag : string;
  tx_original_request : option SipRequest; tx_last_response : option Bytes; tx_last_response_status : option Z;
  tx_call_ref : option string; tx_leg_id : option string; tx_incarnation_mark : option string;
  tx_state : TxnState; tx_destination : option SocketAddr; tx_created_at : Z; tx_uas_to_tag : option string;
  tx_final_to_tag : option string; tx_retransmit_key : option nat; tx_timeout_key : option nat;
  tx_cleanup_key : option nat; tx_held_cancel : option HeldCancel; tx_cancel_retransmit_key : option nat;
  tx_retransmit_buf : option Bytes; tx_seed_resend : option Bytes; tx_unsent_ack : option (Bytes * SocketAddr);
  tx_unsent_cancel : option UnsentCancel; tx_ladder : option Ladder; tx_timeout_kind : TxnTimeoutKind;
  tx_dead_hop_reported : bool; tx_past_trying : bool; tx_dialogs : list InviteDialog;
  tx_reliable_offers : list string; tx_lifetime : Lifetime; tx_orphaned : bool; tx_held : bool;
  tx_seeded : bool;
}.

Definition eta_txn (t : Transaction) : Transaction :=
  mkTxn
    (tx_id t) (tx_kind t) (tx_method t) (tx_cseq t) (tx_call_id t) (tx_from_tag t) (tx_original_request t)
    (tx_last_response t) (tx_last_response_status t) (tx_call_ref t) (tx_leg_id t) (tx_incarnation_mark t)
    (tx_state t) (tx_destination t) (tx_created_at t) (tx_uas_to_tag t) (tx_final_to_tag t)
    (tx_retransmit_key t) (tx_timeout_key t) (tx_cleanup_key t) (tx_held_cancel t) (tx_cancel_retransmit_key t)
    (tx_retransmit_buf t) (tx_seed_resend t) (tx_unsent_ack t) (tx_unsent_cancel t) (tx_ladder t)
    (tx_timeout_kind t) (tx_dead_hop_reported t) (tx_past_trying t) (tx_dialogs t) (tx_reliable_offers t)
    (tx_lifetime t) (tx_orphaned t) (tx_held t) (tx_seeded t).

#[global] Instance : Setter tx_original_request := ltac:(setter eta_txn).
#[global] Instance : Setter tx_last_response := ltac:(setter eta_txn).
#[global] Instance : Setter tx_last_response_status := ltac:(setter eta_txn).
#[global] Instance : Setter tx_call_ref := ltac:(setter eta_txn).
#[global] Instance : Setter tx_state := ltac:(setter eta_txn).
#[global] Instance : Setter tx_destination := ltac:(setter eta_txn).
#[global] Instance : Setter tx_uas_to_tag := ltac:(setter eta_txn).
#[global] Instance : Setter tx_final_to_tag := ltac:(setter eta_txn).
#[global] Instance : Setter tx_retransmit_key := ltac:(setter eta_txn).
#[global] Instance : Setter tx_timeout_key := ltac:(setter eta_txn).
#[global] Instance : Setter tx_cleanup_key := ltac:(setter eta_txn).
#[global] Instance : Setter tx_held_cancel := ltac:(setter eta_txn).
#[global] Instance : Setter tx_cancel_retransmit_key := ltac:(setter eta_txn).
#[global] Instance : Setter tx_retransmit_buf := ltac:(setter eta_txn).
#[global] Instance : Setter tx_seed_resend := ltac:(setter eta_txn).
#[global] Instance : Setter tx_unsent_ack := ltac:(setter eta_txn).
#[global] Instance : Setter tx_unsent_cancel := ltac:(setter eta_txn).
#[global] Instance : Setter tx_ladder := ltac:(setter eta_txn).
#[global] Instance : Setter tx_timeout_kind := ltac:(setter eta_txn).
#[global] Instance : Setter tx_dead_hop_reported := ltac:(setter eta_txn).
#[global] Instance : Setter tx_past_trying := ltac:(setter eta_txn).
#[global] Instance : Setter tx_dialogs := ltac:(setter eta_txn).
#[global] Instance : Setter tx_reliable_offers := ltac:(setter eta_txn).
#[global] Instance : Setter tx_lifetime := ltac:(setter eta_txn).
#[global] Instance : Setter tx_orphaned := ltac:(setter eta_txn).
#[global] Instance : Setter tx_held := ltac:(setter eta_txn).
#[global] Instance : Setter tx_seeded := ltac:(setter eta_txn).

(** [Transaction::new], opened at [now]. *)
Definition txn_new (h : NewTransaction) (lifetime : Lifetime) (now : Z) : Transaction :=
  mkTxn (nt_id h) (nt_kind h) (nt_method h) (nt_cseq h) (nt_call_id h) (nt_from_tag h)
    (nt_original_request h) None None (nt_call_ref h) (nt_leg_id h) (nt_incarnation_mark h) (nt_state h)
    (nt_destination h) now None None None None None None None None None None None None TkResponse false false
    [] [] lifetime false false false.

(** [bound_to_tag]. *)
Definition bound_to_tag (t : Transaction) : option string :=
  match tx_final_to_tag t with Some tag => Some tag | None => tx_uas_to_tag t end.

(** [branch]. *)
Definition txn_branch (t : Transaction) : string :=
  match tx_id t with Client b => b | Server k => sk_branch k end.

(** [dialog]: the dialog under a To-tag and the dialogs with it, recorded now
    when new; none past [MAX_DIALOGS]. *)
Definition dialog_at (to_tag : option string) (ds : list InviteDialog) : option (nat * list InviteDialog) :=
  match list_find (fun d => dl_to_tag d = to_tag) ds with
  | Some (i, _) => Some (i, ds)
  | None =>
      if (MAX_DIALOGS <=? length ds)%nat then None
      else Some (length ds, ds ++ [mkDialog to_tag 0 false None])
  end.
(** The transaction once [dialog] was called and its answer changed by [f]. *)
Definition with_dialog (to_tag : option string) (f : InviteDialog -> InviteDialog) (t : Transaction) : Transaction :=
  match dialog_at to_tag (tx_dialogs t) with
  | Some (i, ds) => t <| tx_dialogs := alter f i ds |>
  | None => t
  end.
Definition the_dialog (to_tag : option string) (t : Transaction) : option InviteDialog :=
  '(i, ds) ← dialog_at to_tag (tx_dialogs t); ds !! i.

(** [CallTxns]. *)
Record CallTxns := mkCallTxns { ct_client : gset string; ct_server : gset ServerTxnKey; ct_accepted : gset string }.
Definition ct_empty : CallTxns := mkCallTxns ∅ ∅ ∅.
Definition on_books (c : CallTxns) : nat := (size (ct_client c) + size (ct_server c))%nat.
Definition holds_none (c : CallTxns) : bool :=
  bool_decide (ct_client c = ∅) && bool_decide (ct_server c = ∅) && bool_decide (ct_accepted c = ∅).
Definition every_client (c : CallTxns) : list string := elements (ct_client c) ++ elements (ct_accepted c).

(** ** Events ([event.rs]) *)

Inductive TransactionEvent :=
  | EvMessage (m : SipMessage) (src : SocketAddr) (matched_client_txn : bool) (datagram : Bytes)
  | EvCancelled (call_id from_tag : string) (invite_cseq : option Z) (in_dialog : bool)
      (headers : list (string * string)) (to_tag : option string)
  | EvTimeout (branch : string) (call_ref leg_id incarnation_mark : option string) (method : Method) (cseq : Z)
      (destination : option SocketAddr) (kind : TxnTimeoutKind)
  | EvHopAlive (branch call_ref leg_id : string) (incarnation_mark : option string)
  | EvCallQuiesced (call_ref : string).

Definition ev_response (r : SipResponse) (src : SocketAddr) (matched : bool) : TransactionEvent :=
  EvMessage (Response r) src matched (rs_image r).

(** ** Refusals ([refusals.rs])

    The memo of the INVITE identities refused and of those a live server
    transaction holds; an identity is its keyed hash. *)

Record Memo := mkMemo {
  mm_refused : gmap Z Z;
  mm_order : list (Z * Z);
  mm_held : gmap Z Z;
  mm_max : nat;
}.

(** [Memo::expire]. *)
Fixpoint memo_expire_loop (now : Z) (max : nat) (order : list (Z * Z)) (refused : gmap Z Z)
    : list (Z * Z) * gmap Z Z :=
  match order with
  | [] => ([], refused)
  | (at_, key) :: rest =>
      if (now - at_ <? TIMER_B) && (length order <=? max)%nat then (order, refused)
      else memo_expire_loop now max rest
             (if decide (refused !! key = Some at_) then delete key refused else refused)
  end.
Definition memo_expire (now : Z) (m : Memo) : Memo :=
  let '(order, refused) := memo_expire_loop now (mm_max m) (mm_order m) (mm_refused m) in
  mkMemo refused order (mm_held m) (mm_max m).

(** [holds_refusal], [remember], [Memo::hold]. *)
Definition holds_refusal (now key : Z) (m : Memo) : bool * Memo :=
  let m := memo_expire now m in (bool_decide (is_Some (mm_refused m !! key)), m).
Definition memo_remember (now key : Z) (m : Memo) : bool * Memo :=
  let first := bool_decide (mm_refused m !! key = None) in
  let m := if first then mkMemo (<[key := now]> (mm_refused m)) (mm_order m ++ [(now, key)]) (mm_held m) (mm_max m)
           else m in
  (first, memo_expire now m).
Definition memo_hold (key : Z) (m : Memo) : Memo :=
  mkMemo (mm_refused m) (mm_order m) (<[key := default 0 (mm_held m !! key) + 1]> (mm_held m)) (mm_max m).

Inductive Verdict := VHeld | VRefused (first : bool).
Inductive Admission := Repeat | Refuse | Admit (held : bool).

(** [refuse], [refused], [admit], [hold] and [release]. *)
Definition memo_refuse (now key : Z) (m : Memo) : Verdict * Memo :=
  if decide (is_Some (mm_held m !! key)) then (VHeld, m)
  else let '(first, m) := memo_remember now key m in (VRefused first, m).
Definition memo_admission (now key : Z) (initial refuse : bool) (m : Memo) : Admission * Memo :=
  let '(repeat, m) := holds_refusal now key m in
  if repeat then (Repeat, m)
  else if refuse then (Refuse, (memo_remember now key m).2)
  else if initial then (Admit true, memo_hold key m)
  else (Admit false, m).
Definition memo_hold_seed (key : Z) (m : Memo) : Memo :=
  memo_hold key (mkMemo (delete key (mm_refused m)) (mm_order m) (mm_held m) (mm_max m)).
Definition memo_release (key : Z) (m : Memo) : Memo :=
  match mm_held m !! key with
  | Some n => mkMemo (mm_refused m) (mm_order m)
                (if n - 1 =? 0 then delete key (mm_held m) else <[key := n - 1]> (mm_held m)) (mm_max m)
  | None => m
  end.

(** [InviteClass], and [DeferredBound]'s two ceilings. *)
Inductive InviteClass := ClNormal | ClEmergency | ClInDialog.
#[global] Instance InviteClass_eq_dec : EqDecision InviteClass.
Proof. solve_decision. Defined.
Record DeferredBound := mkDeferredBound { db_normal : nat; db_emergency : nat }.
Definition db_ceiling (b : DeferredBound) (c : InviteClass) : nat :=
  match c with ClNormal => db_normal b | ClEmergency | ClInDialog => Nat.max (db_emergency b) (db_normal b) end.
Definition db_refuses (b : DeferredBound) (c : InviteClass) (deferred : nat) : bool :=
  (db_ceiling b c <=? deferred)%nat.

(** ** What the layer is built over

    Its configuration, the message generators, the identifier seam, and the
    slab of the timer wheel, which hands out any key not in use. *)

Class TxnEnv := {
  invite_initial_timeout_ms : Z;
  invite_first_response_timeout_ms : Z;
  trying_bound_ms : Z;
  ack_bound_ms : Z;
  cancel_bound_ms : Z;
  deferred_bound : option DeferredBound;
  stateless_options : bool;
  keepalive_cap : option nat;
  event_capacity : nat;
  on_bound : bool;
  render_request : SipRequest -> Bytes;
  generate_response : SipRequest -> Z -> string -> option string -> list (string * string) -> option SipResponse;
  delayed_trying_timestamp : SipRequest -> Z -> option (string * string);
  retag_response : SipResponse -> string -> option SipResponse;
  is_fallback_to_tag : string -> bool;
  generate_ack_for_non_2xx : SipRequest -> SipResponse -> option Bytes;
  generate_ack_for_2xx_from_invite : SipRequest -> SipResponse -> string -> option Bytes -> option SipRequest;
  generate_bye_for_2xx_from_invite : SipRequest -> SipResponse -> Z -> string -> option SipRequest;
  reject_offer : SipRequest -> Bytes -> option Bytes;
  parse_request : Bytes -> option SipRequest;
  ip_socket_addr : string -> option Z -> option SocketAddr;
  response_destination : Via -> option SocketAddr;
  stamp_request : SipRequest -> SocketAddr -> SipRequest;
  stamped_destination : Via -> SocketAddr -> SocketAddr;
  refusal_answer : SipRequest -> option SipResponse;
  acknowledges_own_final : SipRequest -> bool;
  class_of : SipRequest -> InviteClass;
  hash_one : string -> string -> string -> Z;
  new_branch : nat -> string;
  new_tag : nat -> string;
  instant_max : Z;
  next_key : gset nat -> nat;
}.

(** What is relied on: a key in use is not handed out, a stamped request names
    the transaction it named (§17.2.3 reads no [received] or [rport]), and so does
    a response whose To-tag alone is replaced; the configured timeout is a
    [u64]. *)
Class TxnEnvLaws (E : TxnEnv) : Prop := {
  next_key_free : forall X, next_key X ∉ X;
  stamp_id : forall r src, id_of_request (stamp_request r src) = id_of_request r;
  retag_id : forall r tag r', retag_response r tag = Some r' -> id_of_response r' = id_of_response r;
  initial_timeout_u64 : in_u64 invite_initial_timeout_ms;
}.

(** ** The owner ([owner.rs])

    [sent] is what its endpoint sent, in order; [event_queue] what its output
    queue holds; the counters are those its theorems read. *)

Record Owner := mkOwner {
  clients : gmap string Transaction; servers : gmap ServerTxnKey Transaction; timers : gmap nat (Z * Timer);
  now : Z; sent : list (Bytes * SocketAddr); event_queue : list TransactionEvent; event_closed : bool;
  keepalive_lane : list TransactionEvent; id_draws : nat; self_release_watch : gset string;
  txn_index : gmap string CallTxns; deferred_events : list TransactionEvent; refusals : option Memo;
  new_call_gate : option bool; event_retry_armed : bool; pending_quiesce : list string;
  held_cancels : gmap (string * string * Z) ServerTxnKey; owed_sends : list (Bytes * SocketAddr);
  recent_uas_tags : gmap (string * string) (string * Z);
  bounds_told : list (option string * option string * option string); cancels_held : Z;
  held_cancels_flushed : Z; held_cancels_dropped : Z; orphaned_transactions : Z; sweep_reaped : Z;
}.

Definition eta_owner (o : Owner) : Owner :=
  mkOwner
    (clients o) (servers o) (timers o) (now o) (sent o) (event_queue o) (event_closed o) (keepalive_lane o)
    (id_draws o) (self_release_watch o) (txn_index o) (deferred_events o) (refusals o) (new_call_gate o)
    (event_retry_armed o) (pending_quiesce o) (held_cancels o) (owed_sends o) (recent_uas_tags o)
    (bounds_told o) (cancels_held o) (held_cancels_flushed o) (held_cancels_dropped o)
    (orphaned_transactions o) (sweep_reaped o).

#[global] Instance : Setter clients := ltac:(setter eta_owner).
#[global] Instance : Setter servers := ltac:(setter eta_owner).
#[global] Instance : Setter timers := ltac:(setter eta_owner).
#[global] Instance : Setter now := ltac:(setter eta_owner).
#[global] Instance : Setter sent := ltac:(setter eta_owner).
#[global] Instance : Setter event_queue := ltac:(setter eta_owner).
#[global] Instance : Setter event_closed := ltac:(setter eta_owner).
#[global] Instance : Setter keepalive_lane := ltac:(setter eta_owner).
#[global] Instance : Setter id_draws := ltac:(setter eta_owner).
#[global] Instance : Setter self_release_watch := ltac:(setter eta_owner).
#[global] Instance : Setter txn_index := ltac:(setter eta_owner).
#[global] Instance : Setter deferred_events := ltac:(setter eta_owner).
#[global] Instance : Setter refusals := ltac:(setter eta_owner).
#[global] Instance : Setter new_call_gate := ltac:(setter eta_owner).
#[global] Instance : Setter event_retry_armed := ltac:(setter eta_owner).
#[global] Instance : Setter pending_quiesce := ltac:(setter eta_owner).
#[global] Instance : Setter held_cancels := ltac:(setter eta_owner).
#[global] Instance : Setter owed_sends := ltac:(setter eta_owner).
#[global] Instance : Setter recent_uas_tags := ltac:(setter eta_owner).
#[global] Instance : Setter bounds_told := ltac:(setter eta_owner).
#[global] Instance : Setter cancels_held := ltac:(setter eta_owner).
#[global] Instance : Setter held_cancels_flushed := ltac:(setter eta_owner).
#[global] Instance : Setter held_cancels_dropped := ltac:(setter eta_owner).
#[global] Instance : Setter orphaned_transactions := ltac:(setter eta_owner).
#[global] Instance : Setter sweep_reaped := ltac:(setter eta_owner).

(** [Owner::new], with the shared refusals and the new-call gate it is given. *)
Definition owner_new (memo : option Memo) (gate : option bool) (at_ : Z) : Owner :=
  mkOwner ∅ ∅ ∅ at_ [] [] false [] 0 ∅ ∅ [] memo gate false [] ∅ [] ∅ [] 0 0 0 0 0.
