(* ===== verification/TxnOwner.v ===== *)
(** * Transactions: bookkeeping

    [crates/sip-txn/src/layer/owner.rs], [lifetime.rs], [events.rs],
    [backlog.rs], [new_call_gate.rs], [bind.rs], [bound_report.rs] and
    [held_cancel.rs]: the maps and the wheel, the output queue, the judgement
    of a new INVITE, and the To-tags bound. *)

From S2P Require Import Prelude Retransmit SipClock TxnData.

Open Scope Z_scope.

Section owner.
Context `{E : TxnEnv}.

(** ** The maps *)

(** [txn], [server]; [txn_mut] and [server_mut] with what is written. *)
Definition txn (id : TxnId) (o : Owner) : option Transaction :=
  match id with Client b => clients o !! b | Server k => servers o !! k end.
Definition server_of (id : option ServerTxnKey) (o : Owner) : option Transaction :=
  match id with Some k => servers o !! k | None => None end.
Definition upd (id : TxnId) (f : Transaction -> Transaction) (o : Owner) : Owner :=
  match id with
  | Client b => o <| clients ::= alter f b |>
  | Server k => o <| servers ::= alter f k |>
  end.

(** [send_buffer]. *)
Definition send_buffer (buf : Bytes) (dest : SocketAddr) (o : Owner) : Owner :=
  o <| sent ::= fun l => l ++ [(buf, dest)] |>.

(** [delay_queue::insert] and [insert_at] on the wheel, and the key. *)
Definition insert_due (tm : Timer) (due : Z) (o : Owner) : nat * Owner :=
  let k := next_key (dom (timers o)) in (k, o <| timers ::= <[k := (due, tm)]> |>).
(** [arm]. *)
Definition arm (tm : Timer) (delay : Z) (o : Owner) : nat * Owner := insert_due tm (due_after (now o) delay) o.
Definition insert_at (tm : Timer) (at_ : Z) (o : Owner) : nat * Owner := insert_due tm (due_at (now o) at_) o.
Definition cancel_timer (key : option nat) (o : Owner) : Owner :=
  match key with Some k => o <| timers ::= delete k |> | None => o end.

(** [deadline::from_now]. *)
Definition from_now (delay : Z) (o : Owner) : Z := after instant_max (now o) delay.

(** [track_call_ref] and [untrack_call_ref]. *)
Definition track_call_ref (call_ref : option string) (id : TxnId) (o : Owner) : Owner :=
  match call_ref with
  | None => o
  | Some cr =>
      let c := default ct_empty (txn_index o !! cr) in
      let c := match id with
               | Client b => mkCallTxns ({[b]} ∪ ct_client c) (ct_server c) (ct_accepted c)
               | Server k => mkCallTxns (ct_client c) ({[k]} ∪ ct_server c) (ct_accepted c)
               end in
      o <| txn_index ::= <[cr := c]> |>
  end.
Definition ct_remove (id : TxnId) (c : CallTxns) : CallTxns :=
  match id with
  | Client b => mkCallTxns (ct_client c ∖ {[b]}) (ct_server c) (ct_accepted c ∖ {[b]})
  | Server k => mkCallTxns (ct_client c) (ct_server c ∖ {[k]}) (ct_accepted c)
  end.
Definition untrack_call_ref (call_ref : option string) (id : TxnId) (o : Owner) : Owner :=
  match call_ref with
  | None => o
  | Some cr =>
      match txn_index o !! cr with
      | None => o
      | Some c =>
          let c := ct_remove id c in
          o <| txn_index ::= if holds_none c then delete cr else <[cr := c]> |>
      end
  end.

(** [has_txns_for]. *)
Definition has_txns_for (cr : string) (o : Owner) : bool :=
  match txn_index o !! cr with Some c => (0 <? on_books c)%nat | None => false end.

(** [quiesce_if_last]. *)
Definition quiesce_if_last (cr : string) (o : Owner) : Owner :=
  if bool_decide (cr ∈ self_release_watch o) && negb (has_txns_for cr o)
  then o <| pending_quiesce ::= fun l => l ++ [cr] |> else o.

Definition held_wire (h : option HeldCancel) : bool :=
  match h with Some h => bool_decide (hc_wire h = WHeld) | None => false end.
Definition count_dropped (b : bool) (o : Owner) : Owner :=
  if b then o <| held_cancels_dropped ::= fun n => u64_add n 1 |> else o.

(** The four timers a transaction stores the keys of, cancelled. *)
Definition cancel_timers (t : Transaction) (o : Owner) : Owner :=
  cancel_timer (tx_cancel_retransmit_key t)
    (cancel_timer (tx_cleanup_key t) (cancel_timer (tx_timeout_key t) (cancel_timer (tx_retransmit_key t) o))).

(** [set_txn]. *)
Definition set_txn (t : Transaction) (o : Owner) : Owner :=
  let id := tx_id t in
  let displaced := txn id o in
  let o := match id with
           | Client b => o <| clients ::= <[b := t]> |>
           | Server k => o <| servers ::= <[k := t]> |>
           end in
  let o := match displaced with
           | Some old =>
               let o := cancel_timers old o in
               let o := untrack_call_ref (tx_call_ref old) id o in
               count_dropped (held_wire (tx_held_cancel old)) o
           | None => o
           end in
  track_call_ref (tx_call_ref t) id o.

(** [detach_from_call]. *)
Definition detach_from_call (id : TxnId) (o : Owner) : Owner :=
  match txn id o ≫= tx_call_ref with
  | None => o
  | Some cr =>
      let o := upd id (fun t => t <| tx_call_ref := None |>) o in
      quiesce_if_last cr (untrack_call_ref (Some cr) id o)
  end.

(** [settle_accepted]. *)
Definition settle_accepted (branch : string) (o : Owner) : Owner :=
  match clients o !! branch ≫= tx_call_ref with
  | None => o
  | Some cr =>
      match txn_index o !! cr with
      | None => o
      | Some c =>
          if decide (branch ∈ ct_client c) then
            let c := mkCallTxns (ct_client c ∖ {[branch]}) (ct_server c) ({[branch]} ∪ ct_accepted c) in
            quiesce_if_last cr (o <| txn_index ::= <[cr := c]> |>)
          else o
      end
  end.

(** [remember_uas_tag], [forget_expired_uas_tags] ([bind.rs]). *)
Definition remember_uas_tag (call_id from_tag tag : string) (o : Owner) : Owner :=
  o <| recent_uas_tags ::= <[(call_id, from_tag) := (tag, now o)]> |>.
Definition forget_expired_uas_tags (o : Owner) : Owner :=
  o <| recent_uas_tags ::= filter (fun p => now o - p.2.2 < TIMER_L) |>.

(** [owe_held_cancel] ([held_cancel.rs]). *)
Definition owe_held_cancel (h : UnsentCancel) (o : Owner) : Owner :=
  o <| held_cancels ::= delete (uc_held_as h) |>
    <| owed_sends ::= fun l => l ++ option_list (uc_cancel_ok h) ++ option_list (uc_terminated h) |>.

(** [release_hold] ([backlog.rs]). *)
Definition release_hold (branch call_id from_tag : string) (o : Owner) : Owner :=
  o <| refusals ::= fmap (memo_release (hash_one branch call_id from_tag)) |>.

(** [delete_txn]. *)
Definition delete_txn (id : TxnId) (o : Owner) : bool * Owner :=
  match txn id o with
  | None => (false, o)
  | Some t =>
      let o := match id with
               | Client b => o <| clients ::= delete b |>
               | Server k => o <| servers ::= delete k |>
               end in
      let o := match tx_id t, bound_to_tag t with
               | Server _, Some tag => remember_uas_tag (tx_call_id t) (tx_from_tag t) tag o
               | _, _ => o
               end in
      let o := match tx_unsent_cancel t with Some h => owe_held_cancel h o | None => o end in
      let o := cancel_timers t o in
      let o := untrack_call_ref (tx_call_ref t) id o in
      let o := if tx_held t then release_hold (txn_branch t) (tx_call_id t) (tx_from_tag t) o else o in
      let o := if tx_orphaned t then o <| orphaned_transactions ::= fun n => u64_wrap (n - 1) |> else o in
      let o := count_dropped (held_wire (tx_held_cancel t)) o in
      let o := match tx_call_ref t with Some cr => quiesce_if_last cr o | None => o end in
      (true, o)
  end.

(** ** The output queue ([events.rs]) *)

Definition EVENT_RETRY_MS : Z := 100.

Definition arm_event_retry (o : Owner) : Owner :=
  if event_retry_armed o then o
  else (arm EventRetry EVENT_RETRY_MS o).2 <| event_retry_armed := true |>.
Definition defer (e : TransactionEvent) (o : Owner) : Owner :=
  arm_event_retry (o <| deferred_events ::= fun l => l ++ [e] |>).
(** [offer]; [true] when the event was queued or deferred. *)
Definition offer (e : TransactionEvent) (critical : bool) (o : Owner) : bool * Owner :=
  if critical && negb (bool_decide (deferred_events o = [])) then (true, defer e o)
  else if event_closed o then (false, o <| deferred_events := [] |> <| event_retry_armed := false |>)
  else if (length (event_queue o) <? event_capacity)%nat then (true, o <| event_queue ::= fun l => l ++ [e] |>)
  else if critical then (true, defer e o) else (false, o).
Definition emit (e : TransactionEvent) (o : Owner) : bool * Owner := offer e false o.
Definition emit_critical (e : TransactionEvent) (o : Owner) : Owner := (offer e true o).2.
Definition emit_keepalive (e : TransactionEvent) (o : Owner) : bool * Owner :=
  match keepalive_cap with
  | None => emit e o
  | Some cap =>
      if event_closed o then (false, o)
      else if (length (keepalive_lane o) <? cap)%nat then (true, o <| keepalive_lane ::= fun l => l ++ [e] |>)
      else (false, o)
  end.

(** [flush_deferred]: the loop takes deferred events while the queue has room. *)
Fixpoint flush_loop (deferred queue : list TransactionEvent) : list TransactionEvent * list TransactionEvent :=
  match deferred with
  | [] => ([], queue)
  | e :: rest => if (length queue <? event_capacity)%nat then flush_loop rest (queue ++ [e]) else (deferred, queue)
  end.
Definition flush_deferred (o : Owner) : Owner :=
  if event_closed o && negb (bool_decide (deferred_events o = [])) then
    o <| deferred_events := [] |> <| event_retry_armed := false |>
  else
    let '(deferred, queue) := flush_loop (deferred_events o) (event_queue o) in
    let o := o <| deferred_events := deferred |> <| event_queue := queue |> in
    if bool_decide (deferred = []) then o <| event_retry_armed := false |> else arm_event_retry o.

(** [SweptServer::admitted] and [drop_deferred_request_of]. *)
Definition swept_admitted (key : ServerTxnKey) (call_id from_tag : string) (e : TransactionEvent) : bool :=
  match e with
  | EvMessage (Request r) _ _ _ =>
      bool_decide (id_of_request r = Some key) && bool_decide (rq_call_id r = call_id)
      && bool_decide (default "" (rq_from_tag r) = from_tag)
  | _ => false
  end.
Definition drop_deferred_request_of (key : ServerTxnKey) (call_id from_tag : string) (o : Owner) : Owner :=
  o <| deferred_events ::= filter (fun e => swept_admitted key call_id from_tag e = false) |>.

(** [notify_quiesced] and [flush_pending_quiesce]. *)
Definition notify_quiesced (cr : string) (o : Owner) : Owner :=
  emit_critical (EvCallQuiesced cr) (o <| self_release_watch ::= fun w => w ∖ {[cr]} |>).
Definition flush_pending_quiesce (o : Owner) : Owner :=
  foldl (fun o cr => if bool_decide (cr ∈ self_release_watch o) && negb (has_txns_for cr o)
                     then notify_quiesced cr o else o)
    (o <| pending_quiesce := [] |>) (pending_quiesce o).

(** ** Lifetimes ([lifetime.rs]) *)

(** [open_txn_with]; [open_txn] finishes nothing. *)
Definition open_txn_with (head : NewTransaction) (finish : Transaction -> Transaction) (o : Owner) : Owner :=
  let budget := match nt_kind head with
                | KInvite => Z.min u64_MAX (invite_initial_timeout_ms + TXN_MAX_AGE)
                | KNonInvite => TXN_MAX_AGE
                end in
  let t := finish (txn_new head (Active (from_now budget o)) (now o)) in
  let '(k, o) := insert_at (Cleanup (tx_id t)) (lt_deadline (tx_lifetime t)) o in
  set_txn (t <| tx_cleanup_key := Some k |>) o.
Definition open_txn (head : NewTransaction) (o : Owner) : Owner := open_txn_with head (fun t => t) o.

(** [arm_deadline], [hold_for] and [hold]. *)
Definition arm_deadline (id : TxnId) (o : Owner) : Owner :=
  match txn id o with
  | None => o
  | Some t =>
      let o := upd id (fun t => t <| tx_cleanup_key := None |>) o in
      let o := cancel_timer (tx_cleanup_key t) o in
      let '(k, o) := insert_at (Cleanup id) (lt_deadline (tx_lifetime t)) o in
      upd id (fun t => t <| tx_cleanup_key := Some k |>) o
  end.
Definition hold_for (id : TxnId) (why : Hold) (left : Z) (o : Owner) : Owner :=
  match txn id o with
  | None => o
  | Some _ => arm_deadline id (upd id (fun t => t <| tx_lifetime ::= fun l => lt_held l why (from_now left o) |>) o)
  end.
Definition hold (id : TxnId) (why : Hold) (o : Owner) : Owner := hold_for id why (hold_duration why) o.

(** [expire]. *)
Definition expire (id : TxnId) (o : Owner) : Owner :=
  let unanswered := match txn id o with
                    | Some t => match tx_lifetime t, tx_id t with
                                | Active _, Server k => Some (k, tx_call_id t, tx_from_tag t)
                                | _, _ => None
                                end
                    | None => None
                    end in
  let o := (delete_txn id o).2 in
  match unanswered with
  | Some (k, call_id, from_tag) => drop_deferred_request_of k call_id from_tag o
  | None => o
  end.

(** [reap_overdue] and [sweep]; the shrinking of idle tables and the census of
    buffers change no transaction. *)
Definition overdue (o : Owner) : list TxnId :=
  map (fun t => tx_id t)
    (filter (fun t => after instant_max (lt_deadline (tx_lifetime t)) TXN_SWEEP_INTERVAL <= now o)
       ((map_to_list (clients o)).*2 ++ (map_to_list (servers o)).*2)).
Definition reap_overdue (o : Owner) : Owner :=
  foldl (fun o id => (expire id o) <| sweep_reaped ::= fun n => u64_add n 1 |>) o (overdue o).
Definition sweep (o : Owner) : Owner := forget_expired_uas_tags (reap_overdue o).

(** ** Bounds told ([bound_report.rs]) *)

Definition told_bound (id : TxnId) (o : Owner) : Owner :=
  if on_bound then
    let t := txn id o in
    o <| bounds_told ::= fun l => l ++ [(t ≫= tx_call_ref, tx_call_id <$> t, tx_from_tag <$> t)] |>
  else o.

(** ** New INVITEs ([backlog.rs], [new_call_gate.rs]) *)

(** [backlog_refuses]: the class refused under. *)
Definition backlog_refuses (r : SipRequest) (o : Owner) : option InviteClass :=
  b ← deferred_bound;
  let backlog := length (deferred_events o) in
  if (backlog <? db_normal b)%nat then None
  else if db_refuses b (class_of r) backlog then Some (class_of r) else None.
(** [NewCallGate::refuses]. *)
Definition gate_refuses (r : SipRequest) (o : Owner) : option InviteClass :=
  match new_call_gate o with
  | Some true => if decide (class_of r = ClNormal) then Some (class_of r) else None
  | _ => None
  end.
(** [InviteRefusals::key]. *)
Definition refusal_key (r : SipRequest) : Z :=
  hash_one (default "" (via_branch (rq_via r))) (rq_call_id r) (default "" (rq_from_tag r)).

(** [judge_new_invite]: [None] when refused, else whether its identity is held. *)
Definition judge_new_invite (r : SipRequest) (dest : SocketAddr) (o : Owner) : option bool * Owner :=
  match refusals o with
  | None => (Some false, o)
  | Some m =>
      let backlog := backlog_refuses r o in
      let gate := match backlog with Some _ => None | None => gate_refuses r o end in
      let refuse := bool_decide (is_Some backlog) || bool_decide (is_Some gate) in
      let '(admission, m) := memo_admission (now o) (refusal_key r) (bool_decide (rq_to_tag r = None)) refuse m in
      let o := o <| refusals := Some m |> in
      match admission with
      | Admit held => (Some held, o)
      | _ => (None, match refusal_answer r with Some a => send_buffer (rs_image a) dest o | None => o end)
      end
  end.
(** [acknowledges_refusal]. *)
Definition acknowledges_refusal (r : SipRequest) (o : Owner) : bool * Owner :=
  match refusals o with
  | Some m =>
      if decide (mm_refused m = ∅) then (false, o)
      else let '(b, m) := holds_refusal (now o) (refusal_key r) m in (b, o <| refusals := Some m |>)
  | None => (false, o)
  end.

(** ** To-tags bound ([bind.rs]) *)

Inductive Bound := BExact (tag : string) | BFill (tag : string) | BFree.

Definition or_else {A} (a b : option A) : option A := match a with Some x => Some x | None => b end.

(** [recall_uas_tag]. *)
Definition recall_uas_tag (r : SipResponse) (o : Owner) : option string :=
  from_tag ← rs_from_tag r;
  '(tag, since) ← recent_uas_tags o !! (rs_call_id r, from_tag);
  if now o - since <? TIMER_L then Some tag else None.

(** The To-tag of the request a transaction keeps. *)
Definition original_to_tag (t : option Transaction) : option string :=
  t ← t; r ← tx_original_request t; rq_to_tag r.

(** [bound_for]. *)
Definition bound_for (r : SipResponse) (o : Owner) : Bound :=
  if decide (rs_method r = MCancel) then
    let t := server_of (cancelled_invite_id (rs_via r)) o in
    match or_else (original_to_tag t)
            (or_else (t ≫= bound_to_tag) (recall_uas_tag r o)) with
    | Some tag => BExact tag
    | None => BFree
    end
  else
    match server_of (id_of_response r) o with
    | None => match recall_uas_tag r o with Some tag => BFill tag | None => BFree end
    | Some t =>
        match original_to_tag (Some t) with
        | Some tag => BExact tag
        | None =>
            if decide (tx_kind t = KInvite) then BFree
            else match or_else (bound_to_tag t) (recall_uas_tag r o) with
                 | Some tag => BFill tag
                 | None => BFree
                 end
        end
    end.

(** [bind_to_tag]. *)
Definition bind_to_tag (r : SipResponse) (o : Owner) : SipResponse :=
  if rs_status r <=? 100 then r
  else
    let fallback := match rs_to_tag r with Some tag => is_fallback_to_tag tag | None => false end in
    let chosen := if fallback then None else rs_to_tag r in
    match bound_for r o, chosen with
    | BFree, _ => r
    | BFill _, Some _ => r
    | BExact bound, Some tag => if decide (tag = bound) then r else default r (retag_response r bound)
    | BExact bound, None | BFill bound, None => default r (retag_response r bound)
    end.

(** [record_uas_tag]. *)
Definition record_uas_tag (k : ServerTxnKey) (r : SipResponse) (o : Owner) : Owner :=
  match rs_to_tag r, servers o !! k with
  | Some tag, Some t =>
      if bool_decide (tx_kind t <> KInvite) || (rs_status r <? 200) then o
      else remember_uas_tag (tx_call_id t) (tx_from_tag t) tag
             (upd (Server k) (fun t => t <| tx_final_to_tag := Some tag |>) o)
  | _, _ => o
  end.

End owner.
