(* ===== verification/TxnClient.v ===== *)
(** * Transactions: the client side

    [crates/sip-txn/src/layer/client.rs], [client_give_up.rs], [accepted.rs],
    [held_ack.rs], [orphan.rs] and the resend of [seed.rs]: sending a request,
    its retransmission, the responses it draws, the give-up, and what a
    released call's transactions still owe. *)

From S2P Require Import Prelude Retransmit SipClock TxnData TxnOwner.

Open Scope Z_scope.

Section client.
Context `{E : TxnEnv}.

Definition upd_client (b : string) (f : Transaction -> Transaction) (o : Owner) : Owner := upd (Client b) f o.

(** A request that reuses its INVITE's branch is active on a client INVITE. *)
Definition invite_active (t : Transaction) : bool := bool_decide (tx_kind t = KInvite) && is_active (tx_state t).

(** ** Resends *)

(** [release_seed_resend]. *)
Definition release_seed_resend (branch : string) (o : Owner) : Owner :=
  match clients o !! branch with
  | Some t =>
      if lt_gave_up (tx_lifetime t) then o
      else match tx_seed_resend t with
           | None => o
           | Some buf =>
               let o := upd_client branch (fun t => t <| tx_seed_resend := None |>) o in
               let '(k, o) := arm (ClientRetransmit branch) 0 o in
               upd_client branch (fun t => t <| tx_retransmit_buf := Some buf |> <| tx_retransmit_key := Some k |>) o
           end
  | None => o
  end.

(** [arm_cancel_retransmit]. *)
Definition arm_cancel_retransmit (branch : string) (o : Owner) : Owner :=
  match clients o !! branch with
  | Some t =>
      match tx_cancel_retransmit_key t, tx_held_cancel t, armed (rfc CancelClient) with
      | None, Some h, Some (ladder, first) =>
          let h := mkHeldCancel (hc_buf h) (hc_dest h) (hc_wire h) (Some ladder) in
          let '(k, o) := arm (CancelRetransmit branch) first o in
          upd_client branch (fun t => t <| tx_held_cancel := Some h |> <| tx_cancel_retransmit_key := Some k |>) o
      | _, _, _ => o
      end
  | None => o
  end.

(** [fire_cancel_retransmit]. *)
Definition fire_cancel_retransmit (branch : string) (o : Owner) : Owner :=
  match clients o !! branch with
  | Some t =>
      match tx_held_cancel t with
      | Some h =>
          if is_active (tx_state t) && bool_decide (hc_wire h <> WHeld) then
            let '(rearm, ladder) := match hc_ladder h with
                                    | Some l => let '(r, l) := advance l in (r, Some l)
                                    | None => (None, None)
                                    end in
            let o := upd_client branch
                       (fun t => t <| tx_held_cancel := Some (mkHeldCancel (hc_buf h) (hc_dest h) (hc_wire h) ladder) |>) o in
            let o := send_buffer (hc_buf h) (hc_dest h) o in
            match rearm with
            | Some interval =>
                let '(k, o) := arm (CancelRetransmit branch) interval o in
                upd_client branch (fun t => t <| tx_cancel_retransmit_key := Some k |>) o
            | None => o
            end
          else o
      | None => o
      end
  | None => o
  end.

(** [start_client_retransmit]. *)
Definition start_client_retransmit (branch : string) (buf : Bytes) (dest : SocketAddr) (max_ms : Z)
    (kind : TxnTimeoutKind) (o : Owner) : Owner :=
  match clients o !! branch with
  | None => o
  | Some t =>
      let class := match tx_kind t with KInvite => InviteClient | KNonInvite => NonInviteClient end in
      match armed (with_give_up (Z.min max_ms TIMER_B) (rfc class)) with
      | None => o
      | Some (ladder, first) =>
          let '(r, o) := arm (ClientRetransmit branch) first o in
          let '(k, o) := arm (ClientTimeout branch) max_ms o in
          upd_client branch (fun t => t <| tx_retransmit_key := Some r |> <| tx_timeout_key := Some k |>
            <| tx_retransmit_buf := Some buf |> <| tx_ladder := Some ladder |> <| tx_timeout_kind := kind |>
            <| tx_destination := Some dest |>) o
      end
  end.

(** [fire_retransmit]. *)
Definition fire_retransmit (branch : string) (o : Owner) : Owner :=
  match clients o !! branch with
  | Some t =>
      match is_active (tx_state t), tx_retransmit_buf t, tx_destination t with
      | true, Some buf, Some dest =>
          let proceeding := bool_decide (tx_kind t = KNonInvite) && bool_decide (tx_state t = Proceeding) in
          let o := send_buffer buf dest o in
          match tx_ladder t with
          | None => o
          | Some ladder =>
              let '(rearm, ladder) := advance (if proceeding then retarget NonInviteProceeding ladder else ladder) in
              let o := upd_client branch (fun t => t <| tx_ladder := Some ladder |>) o in
              match rearm with
              | Some next =>
                  let '(k, o) := arm (ClientRetransmit branch) next o in
                  upd_client branch (fun t => t <| tx_retransmit_key := Some k |>) o
              | None => o
              end
          end
      | _, _, _ => o
      end
  | None => o
  end.

(** ** Sending ([do_send_request]) *)

(** [client_timeout]. *)
Definition client_timeout (kind : TxnKind) (r : SipRequest) : Z * TxnTimeoutKind :=
  match kind with
  | KInvite => if decide (rq_to_tag r = None) then (Z.min TIMER_B invite_initial_timeout_ms, TkResponse)
               else (TIMER_B, TkResponse)
  | KNonInvite => (TIMER_F, TkResponse)
  end.

(** [note_tu_ack]. *)
Definition note_tu_ack (ack : SipRequest) (image : Bytes) (dest : SocketAddr) (o : Owner) : Owner :=
  match (cr ← via_cr (rq_via ack); txn_index o !! cr) with
  | None => o
  | Some c =>
      let acked b := match clients o !! b with
                     | Some t => bool_decide (tx_state t = Accepted) && bool_decide (tx_call_id t = rq_call_id ack)
                                 && bool_decide (tx_from_tag t = default "" (rq_from_tag ack))
                                 && bool_decide (tx_cseq t = rq_cseq ack)
                     | None => false
                     end in
      match list_find (fun b => acked b = true) (elements (ct_accepted c)) with
      | Some (_, b) =>
          upd_client b (with_dialog (rq_to_tag ack)
            (fun d => mkDialog (dl_to_tag d) (dl_cseq d) (dl_byed d) (Some (image, dest)))) o
      | None => o
      end
  end.

(** [note_dialog_cseq]. *)
Definition note_dialog_cseq (call_ref : option string) (r : SipRequest) (o : Owner) : Owner :=
  match rq_to_tag r, (cr ← call_ref; txn_index o !! cr) with
  | Some to_tag, Some c =>
      foldl (fun o b =>
               upd_client b (fun t =>
                 if bool_decide (tx_kind t = KInvite) && bool_decide (tx_call_id t = rq_call_id r)
                    && bool_decide (tx_from_tag t = default "" (rq_from_tag r))
                 then with_dialog (Some to_tag)
                        (fun d => mkDialog (dl_to_tag d) (Z.max (dl_cseq d) (rq_cseq r))
                                    (dl_byed d || bool_decide (rq_method r = MBye)) (dl_ack d)) t
                 else t) o)
        o (every_client c)
  | _, _ => o
  end.

(** The CANCEL gate's three ways. *)
Inductive CancelGate := GHold | GSuppress | GSend.
Definition cancel_gate (r : SipRequest) (o : Owner) : CancelGate :=
  if decide (rq_method r = MCancel) then
    match (b ← via_branch (rq_via r); clients o !! b) with
    | Some t => if invite_active t then (if decide (tx_state t = Trying) then GHold else GSend) else GSuppress
    | None => GSuppress
    end
  else GSend.

(** A CANCEL held on its INVITE. *)
Definition hold_cancel (branch : string) (buf : Bytes) (dest : SocketAddr) (o : Owner) : Owner :=
  let displaced := match clients o !! branch with
                   | Some t => bool_decide (is_Some (tx_held_cancel t)) | None => false end in
  let o := upd_client branch (fun t => t <| tx_held_cancel := Some (mkHeldCancel buf dest WHeld None) |>) o in
  let o := count_dropped displaced o in
  release_seed_resend branch (o <| cancels_held ::= fun n => u64_add n 1 |>).

(** A CANCEL, or an ACK, that leaves. *)
Definition send_raw_request (r : SipRequest) (buf : Bytes) (dest : SocketAddr) (o : Owner) : Owner :=
  let park := if decide (rq_method r = MCancel) then
                b ← via_branch (rq_via r);
                match clients o !! b with Some t => if invite_active t then Some b else None | None => None end
              else None in
  let first_on_given_up :=
    match (b ← park; clients o !! b) with
    | Some t => lt_gave_up (tx_lifetime t)
                && match tx_held_cancel t with Some h => bool_decide (hc_wire h = WHeld) | None => true end
    | None => false
    end in
  let o := match park with
           | Some b => upd_client b (fun t => t <| tx_held_cancel ::= fun h =>
                         match h with
                         | Some h => Some (mkHeldCancel buf dest (hc_wire h) (hc_ladder h))
                         | None => Some (mkHeldCancel buf dest WSent None)
                         end |>) o
           | None => o
           end in
  let o := send_buffer buf dest o in
  let o := if decide (rq_method r = MAck) then note_tu_ack r buf dest o else o in
  match park with
  | Some b =>
      let o := arm_cancel_retransmit b o in
      if first_on_given_up then hold (Client b) HGaveUp o else o
  | None => o
  end.

Definition do_send_request (r : SipRequest) (dest : SocketAddr) (kind : TxnKind) (o : Owner) : string * Owner :=
  let buf := render_request r in
  if bool_decide (rq_method r = MCancel) || bool_decide (rq_method r = MAck) then
    let branch := default "" (via_branch (rq_via r)) in
    (branch, match cancel_gate r o with
             | GHold => hold_cancel branch buf dest o
             | GSuppress => o
             | GSend => send_raw_request r buf dest o
             end)
  else
    let '(branch, o) := match filled (via_branch (rq_via r)) with
                        | Some b => (b, o)
                        | None => (new_branch (id_draws o), o <| id_draws ::= S |>)
                        end in
    let o := note_dialog_cseq (via_cr (rq_via r)) r o in
    let o := send_buffer buf dest o in
    let o := open_txn (mkNewTxn (Client branch) kind (rq_method r) (rq_cseq r) (rq_call_id r)
               (default "" (rq_from_tag r)) (if decide (kind = KInvite) then Some r else None)
               (via_cr (rq_via r)) (via_lg (rq_via r)) (via_ci (rq_via r)) Trying (Some dest)) o in
    let '(max_ms, timeout_kind) := client_timeout kind r in
    let o := start_client_retransmit branch buf dest max_ms timeout_kind o in
    (branch, if bool_decide (kind = KInvite) && bool_decide (rq_to_tag r = None)
                && (invite_first_response_timeout_ms <=? max_ms)
             then (arm (FirstResponse branch) invite_first_response_timeout_ms o).2 else o).

(** ** Giving up ([client_give_up.rs]) *)

(** [timeout_event]. *)
Definition timeout_event (branch : string) (o : Owner) : option TransactionEvent :=
  match clients o !! branch with
  | Some t =>
      if is_active (tx_state t) && negb (lt_gave_up (tx_lifetime t)) then
        Some (EvTimeout branch (tx_call_ref t) (tx_leg_id t) (tx_incarnation_mark t) (tx_method t) (tx_cseq t)
                (tx_destination t) (tx_timeout_kind t))
      else None
  | None => None
  end.

(** [give_up]: the end of a client transaction on its give-up. *)
Definition give_up_client (branch : string) (o : Owner) : Owner :=
  match clients o !! branch with
  | Some t =>
      if decide (tx_kind t = KInvite) then
        let o := upd_client branch (fun t => t <| tx_ladder := None |> <| tx_retransmit_key := None |>) o in
        hold (Client branch) HGaveUp (cancel_timer (tx_retransmit_key t) o)
      else (delete_txn (Client branch) o).2
  | None => o
  end.

(** [fire_timeout]. *)
Definition fire_timeout (branch : string) (o : Owner) : Owner :=
  match timeout_event branch o with
  | None => o
  | Some event =>
      let reported := match clients o !! branch with Some t => tx_dead_hop_reported t | None => false end in
      let o := give_up_client branch o in
      if reported then o else emit_critical event o
  end.

(** [fire_first_response]. *)
Definition fire_first_response (branch : string) (o : Owner) : Owner :=
  match clients o !! branch with
  | None => o
  | Some t =>
      if invite_active t && negb (lt_gave_up (tx_lifetime t)) && negb (tx_dead_hop_reported t) then
        if decide (tx_state t = Proceeding) then
          match tx_past_trying t, tx_call_ref t, tx_leg_id t with
          | false, Some call_ref, Some leg_id =>
              (emit (EvHopAlive branch call_ref leg_id (tx_incarnation_mark t)) o).2
          | _, _, _ => o
          end
        else match timeout_event branch o with
             | None => o
             | Some event => emit_critical event (upd_client branch (fun t => t <| tx_dead_hop_reported := true |>) o)
             end
      else o
  end.

(** [rearm_invite_bound]. *)
Definition rearm_invite_bound (branch : string) (o : Owner) : Owner :=
  match clients o !! branch with
  | None => o
  | Some t =>
      if bool_decide (tx_kind t = KInvite) && bool_decide (tx_timeout_kind t = TkResponse)
         && negb (lt_gave_up (tx_lifetime t)) && negb (tx_dead_hop_reported t) then
        let elapsed := Z.max 0 (now o - tx_created_at t) in
        let remaining := Z.max 1 (Z.max 0 (invite_initial_timeout_ms - elapsed)) in
        let o := upd_client branch (fun t => t <| tx_timeout_key := None |>) o in
        let o := cancel_timer (tx_timeout_key t) o in
        let '(k, o) := arm (ClientTimeout branch) remaining o in
        upd_client branch (fun t => t <| tx_timeout_key := Some k |> <| tx_timeout_kind := TkTransaction |>) o
      else o
  end.

(** [flush_cancel_on_provisional]. *)
Definition flush_cancel_on_provisional (branch : string) (o : Owner) : Owner :=
  match clients o !! branch with
  | Some t =>
      match tx_held_cancel t with
      | Some h =>
          if decide (hc_wire h = WHeld) then
            let on_given_up := lt_gave_up (tx_lifetime t) in
            let o := upd_client branch
                       (fun t => t <| tx_held_cancel := Some (mkHeldCancel (hc_buf h) (hc_dest h) WSent (hc_ladder h)) |>) o in
            let o := if on_given_up then hold (Client branch) HGaveUp o else o in
            let o := send_buffer (hc_buf h) (hc_dest h) o in
            arm_cancel_retransmit branch (o <| held_cancels_flushed ::= fun n => u64_add n 1 |>)
          else o
      | None => o
      end
  | None => o
  end.

(** ** Finals *)

(** The three keys a client transaction's first final takes, cancelled. *)
Definition cancel_three (t : Transaction) (o : Owner) : Owner :=
  cancel_timer (tx_cancel_retransmit_key t) (cancel_timer (tx_timeout_key t) (cancel_timer (tx_retransmit_key t) o)).

(** [complete_non_2xx]. *)
Definition complete_non_2xx (branch : string) (o : Owner) : Owner :=
  match clients o !! branch with
  | None => o
  | Some t =>
      let o := upd_client branch (fun t => t <| tx_state := Completed |> <| tx_held_cancel := None |>
                 <| tx_retransmit_key := None |> <| tx_timeout_key := None |> <| tx_cancel_retransmit_key := None |>) o in
      let o := count_dropped (held_wire (tx_held_cancel t)) o in
      hold (Client branch) HTimerD (cancel_three t o)
  end.

(** [holds_ack] and [send_held_ack] ([held_ack.rs]). *)
Definition holds_ack (branch : string) (o : Owner) : bool :=
  match clients o !! branch with Some t => bool_decide (is_Some (tx_unsent_ack t)) | None => false end.
Definition send_held_ack (branch : string) (o : Owner) : bool * Owner :=
  match clients o !! branch ≫= tx_unsent_ack with
  | Some (ack, dest) => (true, send_buffer ack dest (upd_client branch (fun t => t <| tx_unsent_ack := None |>) o))
  | None => (false, o)
  end.
(** [ack_first_non_2xx]. *)
Definition ack_first_non_2xx (branch : string) (ack : Bytes) (dest : SocketAddr) (o : Owner) : Owner :=
  match clients o !! branch with
  | Some t =>
      if 0 <? ack_bound_ms then
        let o := upd_client branch (fun t => t <| tx_unsent_ack := Some (ack, dest) |>) o in
        (insert_at (AckBound branch (tx_created_at t)) (after instant_max (now o) ack_bound_ms) o).2
      else send_buffer ack dest o
  | None => send_buffer ack dest o
  end.
(** [fire_ack_bound]. *)
Definition fire_ack_bound (branch : string) (opened : Z) (o : Owner) : Owner :=
  match clients o !! branch with
  | Some t =>
      if decide (tx_created_at t = opened) then
        let '(gone, o) := send_held_ack branch o in if gone then told_bound (Client branch) o else o
      else o
  | None => o
  end.

(** [take_non_2xx_final], of the transaction [t] at the branch. *)
Definition take_non_2xx_final (branch : string) (r : SipResponse) (src : SocketAddr) (t : Transaction) (o : Owner) : Owner :=
  let ack := match tx_original_request t, tx_destination t with
             | Some orig, Some dest => (fun a => (a, dest)) <$> generate_ack_for_non_2xx orig r
             | _, _ => None
             end in
  let send_ack o := match ack with Some (a, dest) => send_buffer a dest o | None => o end in
  if decide (tx_state t = Completed) then (if holds_ack branch o then o else send_ack o)
  else if tx_orphaned t then complete_non_2xx branch (send_ack o)
  else
    let o := match ack with Some (a, dest) => ack_first_non_2xx branch a dest o | None => o end in
    emit_critical (ev_response r src true) (complete_non_2xx branch o).

(** [accept_2xx] ([accepted.rs]). *)
Definition accept_2xx (branch : string) (r : SipResponse) (o : Owner) : Owner :=
  match clients o !! branch with
  | None => o
  | Some t =>
      let o := upd_client branch (fun t =>
                 with_dialog (rs_to_tag r) (fun d => d)
                   (t <| tx_state := Accepted |> <| tx_held_cancel := None |>
                      <| tx_retransmit_buf ::= fun b => match tx_original_request t with
                                                        | Some i => Some (rq_image i) | None => b end |>
                      <| tx_original_request := None |> <| tx_seed_resend := None |> <| tx_ladder := None |>
                      <| tx_retransmit_key := None |> <| tx_timeout_key := None |> <| tx_cancel_retransmit_key := None |>)) o in
      let o := count_dropped (held_wire (tx_held_cancel t)) o in
      settle_accepted branch (hold (Client branch) HTimerM (cancel_three t o))
  end.

(** [accepted_invite]: the INVITE parsed again from its image. *)
Definition accepted_invite (branch : string) (o : Owner) : option SipRequest :=
  t ← clients o !! branch; image ← tx_retransmit_buf t; parse_request image.

(** [note_reliable_offer]. *)
Definition note_reliable_offer (branch : string) (r : SipResponse) (o : Owner) : Owner :=
  match rs_to_tag r, rs_sdp r with
  | Some tag, Some _ =>
      if rs_rseq r then
        upd_client branch (fun t =>
          let offerless := match tx_original_request t with Some i => bool_decide (rq_sdp i = None) | None => false end in
          if offerless && (length (tx_reliable_offers t) <? MAX_DIALOGS)%nat && negb (bool_decide (tag ∈ tx_reliable_offers t))
          then t <| tx_reliable_offers ::= fun l => l ++ [tag] |> else t) o
      else o
  | _, _ => o
  end.

(** ** Orphans ([orphan.rs]) *)

(** [next_hop]. *)
Definition next_hop (r : SipRequest) : option SocketAddr :=
  routes ← rq_routes r;
  let uri := match routes with route :: _ => if uri_lr route then route else rq_uri r | [] => rq_uri r end in
  ip_socket_addr (uri_host uri) (uri_port uri).

(** [owed_answer]. *)
Definition owed_answer (invite : SipRequest) (r : SipResponse) (reliable_offers : list string) : option Bytes :=
  let reliably := match rs_to_tag r with Some tag => bool_decide (tag ∈ reliable_offers) | None => false end in
  if bool_decide (is_Some (rq_sdp invite)) || reliably then None
  else offer ← rs_sdp r; reject_offer invite offer.

(** [orphan_ack]: it draws one branch. *)
Definition orphan_ack (branch : string) (invite : SipRequest) (r : SipResponse) (o : Owner)
    : option (Bytes * SocketAddr) * Owner :=
  match clients o !! branch with
  | None => (None, o)
  | Some t =>
      let fresh := new_branch (id_draws o) in
      (ack ← generate_ack_for_2xx_from_invite invite r fresh (owed_answer invite r (tx_reliable_offers t));
       dest ← next_hop ack; Some (rq_image ack, dest),
       o <| id_draws ::= S |>)
  end.

(** [bye_unheld_dialog]. *)
Definition bye_unheld_dialog (branch : string) (invite : SipRequest) (r : SipResponse) (o : Owner) : Owner :=
  match clients o !! branch with
  | None => o
  | Some t =>
      if decide (rq_to_tag invite = None) then
        let sent := match list_find (fun d => dl_to_tag d = rs_to_tag r) (tx_dialogs t) with
                    | Some (_, d) => dl_cseq d | None => 0 end in
        let cseq := u32_add (Z.max (rq_cseq invite) sent) 1 in
        let fresh := new_branch (id_draws o) in
        let o := o <| id_draws ::= S |> in
        match (bye ← generate_bye_for_2xx_from_invite invite r cseq fresh; dest ← next_hop bye; Some (bye, dest)) with
        | None => o
        | Some (bye, dest) =>
            let bye_branch := default "" (via_branch (rq_via bye)) in
            let o := (do_send_request bye dest KNonInvite o).2 in
            match clients o !! bye_branch with
            | None => o
            | Some _ =>
                let o := upd_client bye_branch (fun t => t <| tx_orphaned := true |>) o in
                (detach_from_call (Client bye_branch) o) <| orphaned_transactions ::= fun n => u64_add n 1 |>
            end
        end
      else o
  end.

(** [release_2xx]. *)
Definition release_2xx (branch : string) (r : SipResponse) (o : Owner) : Owner :=
  match clients o !! branch with
  | None => o
  | Some t =>
      let known := the_dialog (rs_to_tag r) t in
      let o := upd_client branch (with_dialog (rs_to_tag r) (fun d => d)) o in
      match known ≫= dl_ack with
      | Some (ack, dest) => send_buffer ack dest o
      | None =>
          match accepted_invite branch o with
          | None => o
          | Some invite =>
              match orphan_ack branch invite r o with
              | (None, o) => o
              | (Some (ack, dest), o) =>
                  let o := send_buffer ack dest o in
                  match known with
                  | None => o
                  | Some d =>
                      let o := upd_client branch (with_dialog (rs_to_tag r)
                                 (fun d => mkDialog (dl_to_tag d) (dl_cseq d) (dl_byed d) (Some (ack, dest)))) o in
                      if dl_byed d then o else bye_unheld_dialog branch invite r o
                  end
              end
          end
      end
  end.

(** [accept_orphaned_2xx]. *)
Definition accept_orphaned_2xx (branch : string) (r : SipResponse) (o : Owner) : Owner :=
  release_2xx branch r (accept_2xx branch r o).

(** [do_cancel_txns_for_call]. *)
Definition do_cancel_txns_for_call (cr : string) (o : Owner) : Owner :=
  match txn_index o !! cr with
  | None => o
  | Some c =>
      foldl (fun o b =>
               match clients o !! b with
               | None => o
               | Some _ =>
                   let o := upd_client b (fun t => t <| tx_orphaned := true |>) o in
                   (detach_from_call (Client b) o) <| orphaned_transactions ::= fun n => u64_add n 1 |>
               end) o (every_client c)
  end.

(** ** Responses ([inbound_response]) *)

(** A provisional on an active transaction: Proceeding, and an INVITE stops
    retransmitting. *)
Definition provisional (branch : string) (past_trying : bool) (t : Transaction) (o : Owner) : Owner :=
  let invite := bool_decide (tx_kind t = KInvite) in
  let o := upd_client branch (fun t =>
             t <| tx_state := Proceeding |> <| tx_past_trying ::= fun p => p || past_trying |>
               <| tx_retransmit_key ::= fun k => if invite then None else k |>) o in
  if invite then cancel_timer (tx_retransmit_key t) o else o.

(** A response of a client transaction [t] that matched; whether it
    ends there, or goes on to be handed up. *)
Definition matched_response (branch : string) (r : SipResponse) (src : SocketAddr) (t : Transaction) (o : Owner)
    : bool * Owner :=
  let is_2xx := (200 <=? rs_status r) && (rs_status r <? 300) in
  if decide (tx_state t = Accepted) then
    (true, if is_2xx then release_2xx branch r o else o)
  else if rs_status r <? 200 then
    (false,
     if is_active (tx_state t) then
       let o := provisional branch true t o in
       let o := if decide (tx_kind t = KInvite) then note_reliable_offer branch r o else o in
       flush_cancel_on_provisional branch (rearm_invite_bound branch o)
     else o)
  else if bool_decide (tx_kind t = KInvite) && (300 <=? rs_status r) then
    (true, take_non_2xx_final branch r src t o)
  else if decide (tx_kind t = KInvite) then
    (true, if tx_orphaned t then accept_orphaned_2xx branch r o
           else emit_critical (ev_response r src true) (accept_2xx branch r o))
  else
    let o := (delete_txn (Client branch) o).2 in
    (true, if tx_orphaned t then o else emit_critical (ev_response r src true) o).

(** The CANCEL sub-state's end on a response to the CANCEL. *)
Definition cancel_answered (branch : string) (o : Owner) : Owner :=
  match clients o !! branch with
  | Some t =>
      match tx_held_cancel t with
      | Some h =>
          if bool_decide (tx_kind t = KInvite) && bool_decide (hc_wire h <> WHeld) then
            cancel_timer (tx_cancel_retransmit_key t)
              (upd_client branch (fun t => t <| tx_held_cancel := None |> <| tx_cancel_retransmit_key := None |>) o)
          else o
      | None => o
      end
  | None => o
  end.

Definition inbound_response (r : SipResponse) (src : SocketAddr) (reoffer : bool) (o : Owner) : bool * Owner :=
  let branch := default "" (via_branch (rs_via r)) in
  let is_2xx := (200 <=? rs_status r) && (rs_status r <? 300) in
  if rs_status r =? 100 then
    if decide (branch = "") then (false, o)
    else match clients o !! branch with
         | Some t =>
             if bool_decide (tx_method t = rs_method r) && is_active (tx_state t) then
               (true, flush_cancel_on_provisional branch (rearm_invite_bound branch (provisional branch false t o)))
             else (false, o)
         | None => (false, o)
         end
  else if negb (bool_decide (branch = "")) && bool_decide (rs_method r = MCancel) then
    let o := cancel_answered branch o in
    (false, if reoffer then o else (emit (ev_response r src false) o).2)
  else
    let client_match :=
      if decide (branch = "") then None
      else match clients o !! branch with
           | Some t => if bool_decide (tx_method t = rs_method r)
                          && (negb (bool_decide (tx_state t = Accepted)) || tx_orphaned t || negb is_2xx)
                       then Some t else None
           | None => None
           end in
    let '(done, o) := match client_match with
                      | Some t => matched_response branch r src t o
                      | None => (false, o)
                      end in
    if done then (true, o)
    else
      let matched := bool_decide (is_Some client_match) in
      let orphaned := match clients o !! branch with Some t => tx_orphaned t | None => false end in
      (matched,
       if (matched && negb orphaned) || negb reoffer then (emit (ev_response r src matched) o).2 else o).

End client.
