(* ===== verification/TxnServer.v ===== *)
(** * Transactions: the server side

    [crates/sip-txn/src/layer/server.rs], [server_cancel.rs], [held_cancel.rs],
    [trying.rs] and [unanswered.rs]: admitting a request, answering its copies,
    sending the responses of the transaction user, and a CANCEL's answers. *)

From S2P Require Import Prelude Retransmit SipClock TxnData TxnOwner.

Open Scope Z_scope.

Section server.
Context `{E : TxnEnv}.

Definition upd_server (k : ServerTxnKey) (f : Transaction -> Transaction) (o : Owner) : Owner := upd (Server k) f o.

(** [state_after]. *)
Definition state_after (kind : TxnKind) (status : Z) : TxnState :=
  if status <=? 199 then Proceeding
  else match kind with
       | KInvite => if status <=? 299 then Accepted else Completed
       | KNonInvite => Completed
       end.

(** ** Finals *)

(** [fire_server_retransmit]: Timer G. *)
Definition fire_server_retransmit (k : ServerTxnKey) (o : Owner) : Owner :=
  match servers o !! k with
  | Some t =>
      if bool_decide (tx_kind t = KInvite) && bool_decide (tx_state t = Completed) then
        match tx_last_response t, tx_destination t, tx_last_response_status t with
        | Some buf, Some dest, Some _ =>
            let o := send_buffer buf dest o in
            match tx_ladder t with
            | None => o
            | Some ladder =>
                let '(rearm, ladder) := advance ladder in
                let o := upd_server k (fun t => t <| tx_ladder := Some ladder |>) o in
                match rearm with
                | Some next =>
                    let '(g, o) := arm (ServerRetransmit k) next o in
                    upd_server k (fun t => t <| tx_retransmit_key := Some g |>) o
                | None => o
                end
            end
        | _, _, _ => o
        end
      else o
  | None => o
  end.

(** [arm_final_hold]. *)
Definition final_hold (kind : TxnKind) (status : Z) : Hold :=
  match kind with
  | KInvite => if (200 <=? status) && (status <=? 299) then HTimerL else HTimerH
  | KNonInvite => HTimerJ
  end.
Definition arm_final_hold (k : ServerTxnKey) (kind : TxnKind) (status : Z) (o : Owner) : Owner :=
  let o := hold (Server k) (final_hold kind status) o in
  if bool_decide (kind = KInvite) && (300 <=? status) then
    match armed (rfc InviteServerFinal) with
    | Some (ladder, first) =>
        let '(g, o) := arm (ServerRetransmit k) first o in
        upd_server k (fun t => t <| tx_retransmit_key := Some g |> <| tx_ladder := Some ladder |>) o
    | None => o
    end
  else o.

(** A transaction that sent its final refuses another. *)
Definition final_sent (s : TxnState) : bool :=
  match s with Completed | Confirmed | Accepted => true | _ => false end.

(** [do_send_response]: the datagram the transaction user is told left. *)
Definition do_send_response (r : SipResponse) (dest : SocketAddr) (o : Owner) : Bytes * Owner :=
  let refused := match server_of (id_of_response r) o with Some t => final_sent (tx_state t) | None => false end in
  if negb (bool_decide (rs_method r = MCancel)) && refused then (rs_image r, o)
  else
    let msg := bind_to_tag r o in
    let status := rs_status r in
    let outbound := if 100 <? status then rs_to_tag msg else None in
    let buf := rs_image msg in
    if decide (rs_method r = MCancel) then (buf, send_buffer buf dest o)
    else match id_of_response msg with
         | Some k =>
             match servers o !! k with
             | Some t0 =>
                 let dest := default dest (tx_destination t0) in
                 let o := record_uas_tag k msg o in
                 let o := upd_server k (fun t =>
                            t <| tx_uas_to_tag ::= fun u => match u with Some u => Some u | None => outbound end |>
                              <| tx_last_response := Some buf |> <| tx_last_response_status := Some status |>
                              <| tx_state := state_after (tx_kind t) status |>
                              <| tx_original_request ::= fun q => if 200 <=? status then None else q |>) o in
                 let o := if 200 <=? status then arm_final_hold k (tx_kind t0) status o else o in
                 (buf, send_buffer buf dest o)
             | None =>
                 if (300 <=? status) && bool_decide (rs_method r = MInvite) then (buf, o)
                 else (buf, send_buffer buf dest o)
             end
         | None => (buf, send_buffer buf dest o)
         end.

(** [hold_for_timer_i]. *)
Definition hold_for_timer_i (k : ServerTxnKey) (o : Owner) : Owner :=
  match servers o !! k with
  | None => o
  | Some t =>
      let o := upd_server k (fun t => t <| tx_retransmit_key := None |> <| tx_state := Confirmed |> <| tx_ladder := None |>) o in
      detach_from_call (Server k) (hold (Server k) HTimerI (cancel_timer (tx_retransmit_key t) o))
  end.

(** ** The first provisional ([trying.rs]) *)

Definition arm_trying_bound (k : ServerTxnKey) (opened : Z) (o : Owner) : Owner :=
  (insert_at (TTrying k opened) (after instant_max opened trying_bound_ms) o).2.
(** [send_first_trying]. *)
Definition send_first_trying (k : ServerTxnKey) (o : Owner) : bool * Owner :=
  match servers o !! k with
  | Some t =>
      match tx_original_request t, tx_destination t with
      | Some request, Some dest =>
          if bool_decide (tx_kind t = KInvite) && bool_decide (tx_state t = Trying) then
            let delay := Z.max 0 (now o - tx_created_at t) in
            let extra := if 0 <? delay then option_list (delayed_trying_timestamp request delay) else [] in
            match generate_response request 100 "Trying" None extra with
            | None => (false, o)
            | Some trying =>
                let image := rs_image trying in
                let o := send_buffer image dest o in
                (true, upd_server k (fun t => t <| tx_state := Proceeding |> <| tx_last_response := Some image |>
                                               <| tx_last_response_status := Some 100 |>) o)
            end
          else (false, o)
      | _, _ => (false, o)
      end
  | None => (false, o)
  end.
Definition fire_trying (k : ServerTxnKey) (opened : Z) (o : Owner) : Owner :=
  match servers o !! k with
  | Some t => if decide (tx_created_at t = opened) then (send_first_trying k o).2 else o
  | None => o
  end.

(** ** Copies *)

Definition holds_cancel (k : ServerTxnKey) (o : Owner) : bool :=
  match servers o !! k with Some t => bool_decide (is_Some (tx_unsent_cancel t)) | None => false end.

(** [replay_cached]. *)
Definition replay_cached (r : SipRequest) (src : SocketAddr) (o : Owner) : bool * Owner :=
  match id_of_request r with
  | None => (false, o)
  | Some k =>
      if holds_cancel k o then (true, o)
      else match servers o !! k with
           | None => (false, o)
           | Some t =>
               let dest := default (stamped_destination (rq_via r) src) (tx_destination t) in
               match tx_last_response t, tx_last_response_status t with
               | Some cached, Some _ => (true, send_buffer cached dest o)
               | _, _ =>
                   if bool_decide (tx_kind t = KInvite) && bool_decide (tx_state t = Proceeding) then
                     match generate_response (stamp_request r src) 100 "Trying" None [] with
                     | None => (true, o)
                     | Some trying =>
                         let o := send_buffer (rs_image trying) dest o in
                         (true, upd_server k (fun t => t <| tx_last_response := Some (rs_image trying) |>
                                                        <| tx_last_response_status := Some 100 |>) o)
                     end
                   else (true, o)
               end
           end
  end.

(** [uas_to_tag_of]. *)
Definition uas_to_tag_of (k : ServerTxnKey) (o : Owner) : option string * Owner :=
  match servers o !! k ≫= bound_to_tag with
  | Some tag => (Some tag, o)
  | None =>
      let '(pinned, o) := match original_to_tag (servers o !! k) with
                          | Some tag => (tag, o)
                          | None => (new_tag (id_draws o), o <| id_draws ::= S |>)
                          end in
      (Some pinned, upd_server k (fun t => t <| tx_uas_to_tag := Some pinned |>) o)
  end.

(** ** A CANCEL ([server_cancel.rs], [held_cancel.rs]) *)

(** [hold_cancel_answers]. *)
Definition hold_cancel_answers (k : ServerTxnKey) (held_as : string * string * Z)
    (cancel_ok terminated : option (Bytes * SocketAddr)) (o : Owner) : Owner :=
  match servers o !! k with
  | None => o
  | Some t =>
      let o := upd_server k (fun t => t <| tx_unsent_cancel := Some (mkUnsentCancel cancel_ok terminated held_as) |>) o in
      let o := o <| held_cancels ::= <[held_as := k]> |> in
      (insert_at (CancelBound k (tx_created_at t)) (after instant_max (now o) cancel_bound_ms) o).2
  end.

(** [send_held_cancel], [release_held_cancel], [fire_cancel_bound] and
    [waive_held_final]. *)
Definition send_opt (m : option (Bytes * SocketAddr)) (o : Owner) : Owner :=
  match m with Some (buf, dest) => send_buffer buf dest o | None => o end.
Definition send_held_cancel (k : ServerTxnKey) (o : Owner) : bool * Owner :=
  match servers o !! k ≫= tx_unsent_cancel with
  | None => (false, o)
  | Some h =>
      let o := upd_server k (fun t => t <| tx_unsent_cancel := None |>) o in
      let o := o <| held_cancels ::= delete (uc_held_as h) |> in
      let o := send_opt (uc_cancel_ok h) o in
      (true, match uc_terminated h with
             | Some (buf, dest) => arm_final_hold k KInvite 487 (send_buffer buf dest o)
             | None => o
             end)
  end.
Definition release_held_cancel (held_as : string * string * Z) (o : Owner) : bool * Owner :=
  match held_cancels o !! held_as with Some k => send_held_cancel k o | None => (false, o) end.
Definition fire_cancel_bound (k : ServerTxnKey) (opened : Z) (o : Owner) : Owner :=
  match servers o !! k with
  | Some t =>
      if decide (tx_created_at t = opened) then
        let '(gone, o) := send_held_cancel k o in if gone then told_bound (Server k) o else o
      else o
  | None => o
  end.
Definition waive_held_final (k : ServerTxnKey) (o : Owner) : Owner :=
  upd_server k (fun t => t <| tx_unsent_cancel ::=
    fmap (fun h => mkUnsentCancel (uc_cancel_ok h) None (uc_held_as h)) |>) o.
(** [flush_owed_sends]. *)
Definition flush_owed_sends (o : Owner) : Owner :=
  foldl (fun o m => send_buffer m.1 m.2 o) (o <| owed_sends := [] |>) (owed_sends o).

(** [cancelled_invite]. *)
Definition cancelled_invite (via : Via) (pick : Transaction -> bool) (o : Owner) : option ServerTxnKey :=
  k ← cancelled_invite_id via; t ← servers o !! k; if pick t then Some k else None.

(** [handle_cancel]. *)
Definition handle_cancel (r : SipRequest) (src : SocketAddr) (datagram : option Bytes) (o : Owner) : bool * Owner :=
  let cancel_dest := stamped_destination (rq_via r) src in
  let from_tag := default "" (rq_from_tag r) in
  let target t := bool_decide (tx_kind t = KInvite) && bool_decide (tx_call_id t = rq_call_id r)
                  && bool_decide (tx_from_tag t = from_tag) in
  match cancelled_invite (rq_via r) (fun t => target t && is_active (tx_state t)) o with
  | None =>
      match cancelled_invite (rq_via r) (fun t => bool_decide (is_Some (tx_unsent_cancel t))) o with
      | Some _ => (true, o)
      | None =>
          match cancelled_invite (rq_via r) (fun t => target t && final_sent (tx_state t)) o with
          | Some k =>
              let '(to_tag, o) := uas_to_tag_of k o in
              (true, match generate_response r 200 "OK" to_tag [] with
                     | Some ok => send_buffer (rs_image ok) cancel_dest o
                     | None => o
                     end)
          | None =>
              (false, match datagram with
                      | Some d => (emit (EvMessage (Request r) src false d) o).2
                      | None => o
                      end)
          end
      end
  | Some k =>
      let '(invite_cseq, in_dialog) :=
        match servers o !! k ≫= tx_original_request with
        | Some q => (Some (rq_cseq q), bool_decide (is_Some (rq_to_tag q)))
        | None => (None, false)
        end in
      let '(to_tag, o) := uas_to_tag_of k o in
      let hold := 0 <? cancel_bound_ms in
      let cancel_ok := (fun ok => (rs_image ok, cancel_dest)) <$> generate_response r 200 "OK" to_tag [] in
      let o := if hold then o else send_opt cancel_ok o in
      let invite_dest := default cancel_dest (servers o !! k ≫= tx_destination) in
      let terminated := q ← (servers o !! k ≫= tx_original_request);
                        generate_response q 487 "Request Terminated" to_tag [] in
      let o := match terminated with
               | None => o
               | Some m =>
                   let o := if hold then o else send_buffer (rs_image m) invite_dest o in
                   let o := record_uas_tag k m o in
                   let o := upd_server k (fun t => t <| tx_state := Completed |> <| tx_last_response := Some (rs_image m) |>
                              <| tx_last_response_status := Some 487 |> <| tx_original_request := None |>) o in
                   if hold then o else arm_final_hold k KInvite 487 o
               end in
      let o := if hold then
                 hold_cancel_answers k (rq_call_id r, from_tag, default 0 invite_cseq) cancel_ok
                   ((fun m => (rs_image m, invite_dest)) <$> terminated) o
               else o in
      (true, emit_critical (EvCancelled (rq_call_id r) from_tag invite_cseq in_dialog (rq_headers r) to_tag) o)
  end.

(** ** Requests ([handle_inbound_request]) *)

(** [upward] and [hand_up]. *)
Definition upward (r : SipRequest) (src : SocketAddr) (datagram : Bytes) : TransactionEvent :=
  EvMessage (Request (stamp_request r src)) src false datagram.
Definition hand_up (r : SipRequest) (src : SocketAddr) (datagram : Bytes) (o : Owner) : Owner :=
  (emit (upward r src datagram) o).2.

(** An ACK. *)
Definition inbound_ack (k : ServerTxnKey) (r : SipRequest) (src : SocketAddr) (o : Owner) : Owner :=
  let unmatched o :=
    if decide (rq_to_tag r = None) then o
    else let '(acked, o) := acknowledges_refusal r o in
         if acked || acknowledges_own_final r then o else hand_up r src (rq_image r) o in
  match servers o !! k with
  | Some t =>
      if decide (tx_kind t = KInvite) then
        match tx_state t, tx_last_response_status t with
        | Confirmed, _ => o
        | Completed, Some s => if 300 <=? s then hold_for_timer_i k o else unmatched o
        | Accepted, _ => hand_up r src (rq_image r) (detach_from_call (Server k) o)
        | _, _ => unmatched o
        end
      else unmatched o
  | None => unmatched o
  end.

(** A request that opens a server transaction. *)
Definition admit_request (r : SipRequest) (src : SocketAddr) (datagram : Bytes) (o : Owner) : Owner :=
  let invite := bool_decide (rq_method r = MInvite) in
  let kind := if invite then KInvite else KNonInvite in
  let destination := stamped_destination (rq_via r) src in
  let r := stamp_request r src in
  match id_of_request r with
  | None => o
  | Some k =>
      let '(judged, o) := if invite then judge_new_invite r destination o else (Some false, o) in
      match judged with
      | None => o
      | Some held =>
          let o := open_txn_with (mkNewTxn (Server k) kind (rq_method r) (rq_cseq r) (rq_call_id r)
                     (default "" (rq_from_tag r)) (if invite then Some r else None) (rq_call_ref r) None None
                     Trying (Some destination)) (fun t => t <| tx_held := held |>) o in
          let event := EvMessage (Request r) src false datagram in
          if invite then
            let o := match servers o !! k with Some t => arm_trying_bound k (tx_created_at t) o | None => o end in
            emit_critical event o
          else
            let '(taken, o) := emit event o in
            if taken then o else (delete_txn (Server k) o).2
      end
  end.

Definition handle_inbound_request (r : SipRequest) (src : SocketAddr) (o : Owner) : Owner :=
  let datagram := rq_image r in
  match id_of_request r with
  | None => hand_up r src datagram o
  | Some k =>
      if decide (rq_method r = MAck) then inbound_ack k r src o
      else if decide (rq_method r = MCancel) then
        (handle_cancel (stamp_request r src) src (Some datagram) o).2
      else
        let '(absorbed, o) := replay_cached r src o in
        if absorbed then o
        else if stateless_options && bool_decide (rq_method r = MOptions) && bool_decide (rq_to_tag r = None) then
          (emit_keepalive (upward r src datagram) o).2
        else admit_request r src datagram o
  end.

(** ** Requests no answer will come for ([unanswered.rs]) *)

(** [forget_unanswered]. *)
Definition forget_unanswered (k : ServerTxnKey) (call_id from_tag : string) (o : Owner) : Owner :=
  match servers o !! k with
  | Some t =>
      if bool_decide (tx_kind t = KNonInvite) && bool_decide (tx_state t = Trying)
         && bool_decide (tx_call_id t = call_id) && bool_decide (tx_from_tag t = from_tag)
      then (delete_txn (Server k) o).2 else o
  | None => o
  end.

(** [delete_txn] of each, and how many went. *)
Definition delete_all (ids : list TxnId) (o : Owner) : nat * Owner :=
  foldl (fun '(n, o) id => let '(gone, o) := delete_txn id o in (if gone then S n else n, o)) (O, o) ids.

Definition call_servers (cr : string) (o : Owner) : list ServerTxnKey :=
  match txn_index o !! cr with Some c => elements (ct_server c) | None => [] end.
(** [forget_unanswered_of_call]. *)
Definition forget_unanswered_of_call (cr : string) (o : Owner) : nat * Owner :=
  let unanswered k := match servers o !! k with
                      | Some t => bool_decide (tx_kind t = KNonInvite) && is_active (tx_state t)
                      | None => false
                      end in
  delete_all (Server <$> filter (fun k => unanswered k = true) (call_servers cr o)) o.

(** [answer_unanswered_invites_of_call]. *)
Definition answer_unanswered_invites_of_call (cr : string) (status : Z) (reason : string) (o : Owner) : nat * Owner :=
  let open_invite k :=
    t ← servers o !! k;
    q ← tx_original_request t;
    if bool_decide (tx_kind t = KInvite) && is_active (tx_state t) && bool_decide (is_Some (rq_to_tag q))
    then Some (k, q, tx_destination t) else None in
  foldl (fun '(n, o) '(k, q, source) =>
           match or_else source (response_destination (rq_via q)) with
           | None => (n, o)
           | Some dest =>
               let '(to_tag, o) := uas_to_tag_of k o in
               match generate_response q status reason to_tag [] with
               | None => (n, o)
               | Some r => (S n, (do_send_response r dest o).2)
               end
           end)
    (O, o) (omap open_invite (call_servers cr o)).

End server.
