(* ===== verification/TxnTurn.v ===== *)
(** * Transactions: the owner's turns

    [crates/sip-txn/src/layer/seed.rs], [seed/non_invite.rs], [relinquish.rs],
    [commands.rs], [ingress.rs], [run.rs] and [fire_timer] of [owner.rs]: the
    transactions rebuilt from a record, the commands of the layer's handles,
    the timers, and one turn of the owner's loop.  A turn takes any work that
    is ready: the order the loop prefers is one of those the theorems cover. *)

From S2P Require Import Prelude Retransmit SipClock TxnData TxnOwner TxnClient TxnServer.

Open Scope Z_scope.

Section turn.
Context `{E : TxnEnv}.

(** ** Seeds ([seed.rs]) *)

(** [TxnSeed]. *)
Inductive TxnSeed :=
  | ClientInvite (invite : SipRequest) (dest : SocketAddr) (provisional : bool) (cancel : option SipRequest)
      (ack_ahead : option (Bytes * SocketAddr))
  | ClientRejected (invite : SipRequest) (dest : SocketAddr) (bound_ms : Z)
  | ServerInvite (request : SipRequest) (to_tag : option string) (provisional : option SipResponse)
      (leg_id : option string)
  | ServerAccepted (response : SipResponse) (leg_id : option string)
  | ServerRejected (response : SipResponse) (dest : SocketAddr) (leg_id : option string) (bound_ms : option Z)
  | ClientNonInvite (request : SipRequest) (dest : SocketAddr) (bound_ms : Z)
  | ServerNonInvite (request : SipRequest) (leg_id : option string)
  | ServerNonInviteAnswered (response : SipResponse) (dest : SocketAddr) (bound_ms : Z) (leg_id : option string).

(** [hold_seeded_identity]. *)
Definition hold_seeded_identity (k : ServerTxnKey) (o : Owner) : Owner :=
  match refusals o, servers o !! k with
  | Some m, Some t =>
      (upd_server k (fun t => t <| tx_held := true |>) o)
        <| refusals := Some (memo_hold_seed (hash_one (txn_branch t) (tx_call_id t) (tx_from_tag t)) m) |>
  | _, _ => o
  end.

(** The head of a seed of a request, and of a response. *)
Definition request_head (id : TxnId) (kind : TxnKind) (m : Method) (r : SipRequest) (orig : option SipRequest)
    (cr leg_id mark : option string) (st : TxnState) (dest : option SocketAddr) : NewTransaction :=
  mkNewTxn id kind m (rq_cseq r) (rq_call_id r) (default "" (rq_from_tag r)) orig cr leg_id mark st dest.
Definition response_head (id : TxnId) (kind : TxnKind) (m : Method) (r : SipResponse)
    (cr leg_id : option string) (st : TxnState) (dest : option SocketAddr) : NewTransaction :=
  mkNewTxn id kind m (rs_cseq r) (rs_call_id r) (default "" (rs_from_tag r)) None cr leg_id None st dest.

(** [seed_server_invite]. *)
Definition seed_server_invite (cr : string) (q : SipRequest) (to_tag : option string) (prov : option SipResponse)
    (leg_id : option string) (o : Owner) : bool * Owner :=
  match id_of_request q with
  | None => (false, o)
  | Some k =>
      match servers o !! k with
      | Some _ => (false, o)
      | None =>
          let destination := response_destination (rq_via q) in
          let o := open_txn_with (request_head (Server k) KInvite MInvite q (Some q) (Some cr) leg_id None Proceeding destination)
                     (fun t => t <| tx_uas_to_tag := filled to_tag |> <| tx_seeded := true |>) o in
          let o := hold_seeded_identity k o in
          match prov with
          | None => (true, o)
          | Some p =>
              let o := upd_server k (fun t => t <| tx_last_response := Some (rs_image p) |>
                                               <| tx_last_response_status := Some (rs_status p) |>) o in
              (true, match destination with Some d => send_buffer (rs_image p) d o | None => o end)
          end
      end
  end.

(** A server transaction that takes a response as its final. *)
Definition take_final (k : ServerTxnKey) (st : TxnState) (r : SipResponse) (o : Owner) : Owner :=
  upd_server k (fun t => t <| tx_state := st |> <| tx_last_response := Some (rs_image r) |>
    <| tx_last_response_status := Some (rs_status r) |> <| tx_original_request := None |>) o.

(** [accept]. *)
Definition accept_server (k : ServerTxnKey) (r : SipResponse) (o : Owner) : Owner :=
  hold (Server k) HTimerL (take_final k Accepted r (record_uas_tag k r o)).

(** [seed_accepted]. *)
Definition seed_accepted (cr : string) (r : SipResponse) (leg_id : option string) (o : Owner) : bool * Owner :=
  match id_of_response r with
  | None => (false, o)
  | Some k =>
      match servers o !! k with
      | Some t =>
          if is_active (tx_state t) then
            let o := accept_server k r o in
            (true, match tx_destination t with
                   | Some d => if tx_seeded t then o else send_buffer (rs_image r) d o
                   | None => o
                   end)
          else (false, o)
      | None =>
          let o := open_txn (response_head (Server k) KInvite MInvite r (Some cr) leg_id Accepted
                     (response_destination (rs_via r))) o in
          (true, accept_server k r (hold_seeded_identity k o))
      end
  end.

(** [seed_rejected]. *)
Definition seed_rejected (cr : string) (r : SipResponse) (dest : SocketAddr) (leg_id : option string)
    (bound_ms : option Z) (o : Owner) : bool * Owner :=
  match id_of_response r with
  | None => (false, o)
  | Some k =>
      let finish occupant o :=
        let o := take_final k Completed r (record_uas_tag k r o) in
        let o := match occupant with
                 | Some source => upd_server k (fun t => t <| tx_destination := Some source |>) o
                 | None => o
                 end in
        let o := arm_final_hold k KInvite (rs_status r) o in
        let o := match bound_ms with Some ms => hold_for (Server k) HTimerH ms o | None => o end in
        (true, match occupant with Some source => send_buffer (rs_image r) source o | None => o end) in
      match servers o !! k with
      | Some t => if is_active (tx_state t) then finish (Some (default dest (tx_destination t))) o else (false, o)
      | None =>
          let dest := default dest (response_destination (rs_via r)) in
          let o := open_txn (response_head (Server k) KInvite MInvite r (Some cr) leg_id Completed (Some dest)) o in
          finish None (hold_seeded_identity k o)
      end
  end.

(** [seed_held_cancel]. *)
Definition seed_held_cancel (branch : string) (cancel : SipRequest) (dest : SocketAddr) (o : Owner) : Owner :=
  match clients o !! branch with
  | None => o
  | Some _ =>
      let buf := render_request cancel in
      let o := upd_client branch (fun t => t <| tx_held_cancel := Some (mkHeldCancel buf dest WHeld None) |>) o in
      release_seed_resend branch (o <| cancels_held ::= fun n => u64_add n 1 |>)
  end.

(** [seed_client_invite]. *)
Definition seed_client_invite (cr : string) (q : SipRequest) (dest : SocketAddr) (prov : bool)
    (cancel : option SipRequest) (o : Owner) : bool * Owner :=
  match filled (via_branch (rq_via q)) with
  | None => (false, o)
  | Some b =>
      match clients o !! b with
      | Some _ => (false, o)
      | None =>
          let '(bound, o) := arm (ClientTimeout b) invite_initial_timeout_ms o in
          let resend := if prov then None else Some (render_request q) in
          let o := open_txn_with (request_head (Client b) KInvite MInvite q (Some q)
                     (or_else (via_cr (rq_via q)) (Some cr)) (via_lg (rq_via q)) (via_ci (rq_via q))
                     (if prov then Proceeding else Trying) (Some dest))
                     (fun t => t <| tx_timeout_kind := TkTransaction |> <| tx_timeout_key := Some bound |>
                                 <| tx_seed_resend := resend |>) o in
          let o := match cancel with Some c => seed_held_cancel b c dest o | None => o end in
          (true, release_seed_resend b o)
      end
  end.

(** [seed_client_rejected]. *)
Definition seed_client_rejected (cr : string) (q : SipRequest) (dest : SocketAddr) (bound_ms : Z) (o : Owner) : bool * Owner :=
  match filled (via_branch (rq_via q)) with
  | None => (false, o)
  | Some b =>
      match clients o !! b with
      | Some _ => (false, o)
      | None =>
          let o := open_txn (request_head (Client b) KInvite MInvite q (Some q)
                     (or_else (via_cr (rq_via q)) (Some cr)) (via_lg (rq_via q)) (via_ci (rq_via q))
                     Completed (Some dest)) o in
          (true, hold_for (Client b) HTimerD bound_ms o)
      end
  end.

(** [seed_client_non_invite]. *)
Definition seed_client_non_invite (cr : string) (q : SipRequest) (dest : SocketAddr) (bound_ms : Z) (o : Owner) : bool * Owner :=
  match filled (via_branch (rq_via q)) with
  | None => (false, o)
  | Some b =>
      match clients o !! b with
      | Some _ => (false, o)
      | None =>
          let '(timer_f, kind) := client_timeout KNonInvite q in
          let o := open_txn (request_head (Client b) KNonInvite (rq_method q) q None
                     (or_else (via_cr (rq_via q)) (Some cr)) (via_lg (rq_via q)) (via_ci (rq_via q))
                     Trying (Some dest)) o in
          let o := start_client_retransmit b (rq_image q) dest (Z.min bound_ms timer_f) kind o in
          (true, send_buffer (rq_image q) dest o)
      end
  end.

(** [seed_server_non_invite]. *)
Definition seed_server_non_invite (cr : string) (q : SipRequest) (leg_id : option string) (o : Owner) : bool * Owner :=
  match id_of_request q with
  | None => (false, o)
  | Some k =>
      match servers o !! k with
      | Some _ => (false, o)
      | None => (true, open_txn (request_head (Server k) KNonInvite (rq_method q) q None (Some cr) leg_id None Trying
                                   (response_destination (rq_via q))) o)
      end
  end.

(** [seed_answered_non_invite]. *)
Definition seed_answered_non_invite (cr : string) (r : SipResponse) (dest : SocketAddr) (bound_ms : Z)
    (leg_id : option string) (o : Owner) : bool * Owner :=
  match rs_method r, id_of_response r with
  | (MInvite | MAck | MCancel), _ => (false, o)
  | _, None => (false, o)
  | m, Some k =>
      let finish to o :=
        let o := hold_for (Server k) HTimerJ bound_ms (take_final k Completed r o) in
        (true, send_buffer (rs_image r) to o) in
      match servers o !! k with
      | Some t => if is_active (tx_state t) then finish (default dest (tx_destination t)) o else (false, o)
      | None =>
          let destination := default dest (response_destination (rs_via r)) in
          let o := open_txn (response_head (Server k) KNonInvite m r (Some cr) leg_id Completed (Some destination)) o in
          finish destination (hold_seeded_identity k o)
      end
  end.

(** [do_seed]: one seed, then all. *)
Definition seed_one (cr : string) (s : TxnSeed) (o : Owner) : bool * Owner :=
  match s with
  | ClientInvite q dest prov cancel ack_ahead =>
      let '(went_in, o) := seed_client_invite cr q dest prov cancel o in
      (went_in, if went_in && negb prov then send_opt ack_ahead o else o)
  | ClientRejected q dest ms => seed_client_rejected cr q dest ms o
  | ServerInvite q tag prov leg => seed_server_invite cr q tag prov leg o
  | ServerAccepted r leg => seed_accepted cr r leg o
  | ServerRejected r dest leg ms => seed_rejected cr r dest leg ms o
  | ClientNonInvite q dest ms => seed_client_non_invite cr q dest ms o
  | ServerNonInvite q leg => seed_server_non_invite cr q leg o
  | ServerNonInviteAnswered r dest ms leg => seed_answered_non_invite cr r dest ms leg o
  end.
Definition do_seed (cr : string) (seeds : list TxnSeed) (o : Owner) : nat * Owner :=
  foldl (fun '(n, o) s => let '(went_in, o) := seed_one cr s o in (if went_in then S n else n, o)) (O, o) seeds.

(** [do_reoffer]: whether a transaction took it. *)
Definition do_reoffer (m : SipMessage) (src : SocketAddr) (o : Owner) : bool * Owner :=
  match m with
  | Response r => inbound_response r src true o
  | Request r =>
      if decide (rq_method r = MCancel) then handle_cancel r src None o
      else (bool_decide (is_Some (server_of (id_of_request r) o)), o)
  end.

(** ** Relinquishing ([relinquish.rs]) *)

Definition call_clients (cr : string) (o : Owner) : list string :=
  match txn_index o !! cr with Some c => every_client c | None => [] end.
Definition relinquish_call (cr : string) (o : Owner) : nat * Owner :=
  let o := o <| self_release_watch ::= fun w => w ∖ {[cr]} |> in
  let cs := call_clients cr o in
  let ss := call_servers cr o in
  let o := foldl (fun o b => (send_held_ack b o).2) o cs in
  let o := foldl (fun o k => waive_held_final k o) o ss in
  delete_all ((Client <$> cs) ++ (Server <$> ss)) o.
Definition relinquish_accepted_of_call (cr : string) (o : Owner) : nat * Owner :=
  delete_all (Client <$> match txn_index o !! cr with Some c => elements (ct_accepted c) | None => [] end) o.
Definition relinquish_server (k : ServerTxnKey) (o : Owner) : bool * Owner :=
  delete_txn (Server k) (waive_held_final k o).
Definition relinquish_client (branch : string) (o : Owner) : bool * Owner :=
  delete_txn (Client branch) (send_held_ack branch o).2.

(** ** Commands ([commands.rs]) *)

Inductive Command :=
  | SendRequest (msg : SipRequest) (dest : SocketAddr) (kind : TxnKind)
  | SendResponse (msg : SipResponse) (dest : SocketAddr)
  | SendRaw (buf : Bytes) (dest : SocketAddr)
  | Seed (call_ref : string) (seeds : list TxnSeed)
  | Reoffer (message : SipMessage) (src : SocketAddr)
  | CancelTxnsForCall (call_ref : string)
  | RelinquishCall (call_ref : string)
  | RelinquishServer (key : ServerTxnKey)
  | RelinquishClient (branch : string)
  | RelinquishAccepted (call_ref : string)
  | ForgetUnansweredOfCall (call_ref : string)
  | AnswerUnansweredInvitesOfCall (call_ref : string) (status : Z) (reason : string)
  | ActiveTxnCount (call_ref : string)
  | HoldsClient (branch : string)
  | ReleaseCancel (call_id from_tag : string) (cseq : Z)
  | ReleaseAck (branch : string)
  | ReleaseTrying (key : ServerTxnKey)
  | WatchSelfRelease (call_ref : string).

(** [handle_command]; the replies are left out. *)
Definition handle_command (c : Command) (o : Owner) : Owner :=
  match c with
  | SendRequest msg dest kind => (do_send_request msg dest kind o).2
  | SendResponse msg dest => (do_send_response msg dest o).2
  | SendRaw buf dest => send_buffer buf dest o
  | Seed cr seeds => (do_seed cr seeds o).2
  | Reoffer m src => (do_reoffer m src o).2
  | CancelTxnsForCall cr => do_cancel_txns_for_call cr o
  | RelinquishCall cr => (relinquish_call cr o).2
  | RelinquishServer k => (relinquish_server k o).2
  | RelinquishClient b => (relinquish_client b o).2
  | RelinquishAccepted cr => (relinquish_accepted_of_call cr o).2
  | ForgetUnansweredOfCall cr => (forget_unanswered_of_call cr o).2
  | AnswerUnansweredInvitesOfCall cr status reason => (answer_unanswered_invites_of_call cr status reason o).2
  | ActiveTxnCount _ | HoldsClient _ => o
  | ReleaseCancel call_id from_tag cseq => (release_held_cancel (call_id, from_tag, cseq) o).2
  | ReleaseAck b => (send_held_ack b o).2
  | ReleaseTrying k => (send_first_trying k o).2
  | WatchSelfRelease cr =>
      if has_txns_for cr o then o <| self_release_watch ::= fun w => {[cr]} ∪ w |> else notify_quiesced cr o
  end.

(** ** Timers ([fire_timer]) *)

(** The entry that fired left the wheel; the key stored for it is dropped
    before anything else. *)
Definition fire_timer (tm : Timer) (o : Owner) : Owner :=
  match tm with
  | ClientRetransmit b => fire_retransmit b (upd_client b (fun t => t <| tx_retransmit_key := None |>) o)
  | ServerRetransmit k => fire_server_retransmit k (upd_server k (fun t => t <| tx_retransmit_key := None |>) o)
  | ClientTimeout b => fire_timeout b (upd_client b (fun t => t <| tx_timeout_key := None |>) o)
  | FirstResponse b => fire_first_response b o
  | TTrying k opened => fire_trying k opened o
  | AckBound b opened => fire_ack_bound b opened o
  | CancelBound k opened => fire_cancel_bound k opened o
  | Cleanup id => expire id (upd id (fun t => t <| tx_cleanup_key := None |>) o)
  | CancelRetransmit b => fire_cancel_retransmit b (upd_client b (fun t => t <| tx_cancel_retransmit_key := None |>) o)
  | EventRetry => flush_deferred (o <| event_retry_armed := false |>)
  end.

(** ** Turns ([run.rs]) *)

(** What a turn takes; a packet is what its parse gave.  The rest is what the
    other tasks do between turns: time passes, the consumer takes events or
    goes, the stage ahead refuses an INVITE, and the consumer sets its gate. *)
Inductive Work :=
  | WForget (key : ServerTxnKey) (call_id from_tag : string)
  | WCommand (c : Command)
  | WTimer (key : nat)
  | WSweep
  | WPacket (m : SipMessage) (src : SocketAddr)
  | ETick (ms : Z)
  | ETake
  | ETakeKeepalive
  | EClose
  | EIngressRefuse (r : SipRequest)
  | EGate (refusing : bool).

(** One turn's work. *)
Definition work (w : Work) (o : Owner) : Owner :=
  match w with
  | WForget k call_id from_tag => forget_unanswered k call_id from_tag o
  | WCommand c => handle_command c o
  | WTimer key =>
      match timers o !! key with
      | Some (due, tm) => if due <=? now o then fire_timer tm (o <| timers ::= delete key |>) else o
      | None => o
      end
  | WSweep => sweep o
  | WPacket (Request r) src => handle_inbound_request r src o
  | WPacket (Response r) src => (inbound_response r src false o).2
  | _ => o
  end.

(** A turn: its work, then what it owed and the calls that quiesced. *)
Definition turn (o : Owner) (w : Work) : Owner :=
  match w with
  | ETick ms => o <| now ::= fun n => n + Z.max 0 ms |>
  | ETake => o <| event_queue ::= tail |>
  | ETakeKeepalive => o <| keepalive_lane ::= tail |>
  | EClose => o <| event_closed := true |>
  | EIngressRefuse r => o <| refusals ::= fmap (fun m => (memo_refuse (now o) (refusal_key r) m).2) |>
  | EGate b => o <| new_call_gate ::= fmap (fun _ => b) |>
  | _ => flush_pending_quiesce (flush_owed_sends (work w o))
  end.

Definition turns (ws : list Work) (o : Owner) : Owner := foldl turn o ws.

End turn.
