(* ===== verification/TxnInv.v ===== *)
(** * Transactions: what the owner's state keeps to

    The invariant of the transaction layer's owner, in six parts: the keys the
    transactions store and the entries of the wheel are in lockstep; a
    transaction's clean-up is due at its deadline; the index of a call names
    its transactions; facts of each transaction; the CANCELs held are accounted
    for; a deferred event has its retry in the wheel.  Each part is kept by the
    small operations the handlers are made of. *)

From S2P Require Import Prelude Retransmit SipClock TxnData TxnOwner.

Open Scope Z_scope.

(** ** Keys *)

(** The transaction a timer is for, when it stores the timer's key; and the
    field that stores it. *)
Definition timer_owner (tm : Timer) : option TxnId :=
  match tm with
  | ClientRetransmit b | ClientTimeout b | CancelRetransmit b => Some (Client b)
  | ServerRetransmit k => Some (Server k)
  | Cleanup id => Some id
  | _ => None
  end.
Definition slot (tm : Timer) (t : Transaction) : option nat :=
  match tm with
  | ClientRetransmit _ | ServerRetransmit _ => tx_retransmit_key t
  | ClientTimeout _ => tx_timeout_key t
  | Cleanup _ => tx_cleanup_key t
  | CancelRetransmit _ => tx_cancel_retransmit_key t
  | _ => None
  end.
Definition stored (o : Owner) (tm : Timer) : option nat :=
  match timer_owner tm with
  | Some id => match txn id o with Some t => slot tm t | None => None end
  | None => None
  end.

(** Whether the entry [k] of the wheel is [tm]; whether [s] is the key [k]; how
    often [k] is among the loose keys of [tm], those taken from their field and
    not yet cancelled, or armed and not yet stored. *)
Definition in_wheel (o : Owner) (tm : Timer) (k : nat) : nat :=
  match timers o !! k with Some (_, tm') => if decide (tm' = tm) then 1 else 0 | None => 0 end.
Definition cnt (s : option nat) (k : nat) : nat := if decide (s = Some k) then 1 else 0.
Notation loose_keys := (list (option nat * Timer)).
Fixpoint loose (L : loose_keys) (tm : Timer) (k : nat) : nat :=
  match L with
  | [] => 0
  | (s, tm') :: L => ((if decide (tm' = tm) then cnt s k else 0) + loose L tm k)%nat
  end.

Definition wheel_ok (L : loose_keys) (o : Owner) : Prop :=
  forall tm k, is_Some (timer_owner tm) -> in_wheel o tm k = (cnt (stored o tm) k + loose L tm k)%nat.

(** ** Deadlines *)

(** Of every transaction but [X], whose deadline is being armed. *)
Definition due_at_deadline (o : Owner) (id : TxnId) (t : Transaction) : Prop :=
  exists k, tx_cleanup_key t = Some k /\ timers o !! k = Some (lt_deadline (tx_lifetime t), Cleanup id).
Definition due_ok (X : option TxnId) (o : Owner) : Prop :=
  forall id t, txn id o = Some t ->
    lt_deadline (tx_lifetime t) <= now o + MAX_DELAY /\ (X = Some id \/ due_at_deadline o id t).

(** ** The index *)

Definition in_call (c : CallTxns) (id : TxnId) : Prop :=
  match id with Client b => b ∈ ct_client c ∪ ct_accepted c | Server k => k ∈ ct_server c end.
Definition indexed (m : gmap string CallTxns) (cr : string) (id : TxnId) : Prop :=
  match m !! cr with Some c => in_call c id | None => False end.
(** The index [m] holds what [ref] says of each transaction. *)
Definition indexes (m : gmap string CallTxns) (ref : TxnId -> option string) : Prop :=
  (forall cr id, indexed m cr id <-> ref id = Some cr) /\
  (forall cr c, m !! cr = Some c -> holds_none c = false /\ ct_client c ## ct_accepted c).
Definition call_ref_of (o : Owner) (id : TxnId) : option string := txn id o ≫= tx_call_ref.
Definition index_ok (o : Owner) : Prop := indexes (txn_index o) (call_ref_of o).

(** ** One transaction *)

Definition client_ok (t : Transaction) : Prop :=
  (is_Some (tx_seed_resend t) -> tx_retransmit_key t = None) /\
  (tx_state t = Trying -> forall h, tx_held_cancel t = Some h -> hc_wire h = WHeld).
Definition holds_final (t : Transaction) : Prop :=
  exists h, tx_unsent_cancel t = Some h /\ is_Some (uc_terminated h).
Definition server_ok (t : Transaction) : Prop :=
  tx_timeout_key t = None /\ tx_cancel_retransmit_key t = None /\ tx_held_cancel t = None /\
  (is_active (tx_state t) = true -> tx_retransmit_key t = None) /\
  (holds_final t -> is_active (tx_state t) = false /\ tx_retransmit_key t = None).
Definition txn_ok (id : TxnId) (t : Transaction) : Prop :=
  tx_id t = id /\ match id with Client _ => client_ok t | Server _ => server_ok t end.
Definition txns_ok (o : Owner) : Prop := forall id t, txn id o = Some t -> txn_ok id t.

(** ** CANCELs held *)

Definition live (m : gmap string Transaction) : nat :=
  size (filter (fun p => held_wire (tx_held_cancel p.2) = true) m).
(** With [D] that left their transaction and are not counted yet. *)
Definition cancels_ok (D : Z) (o : Owner) : Prop :=
  u64_wrap (cancels_held o) =
  u64_wrap (held_cancels_flushed o + held_cancels_dropped o + Z.of_nat (live (clients o)) + D).

(** ** Retries *)

Definition retry_ok (o : Owner) : Prop :=
  (deferred_events o <> [] -> event_retry_armed o = true) /\
  (event_retry_armed o = true -> exists k d, timers o !! k = Some (d, EventRetry) /\ d <= now o + EVENT_RETRY_MS).

Record inv (X : option TxnId) (L : loose_keys) (D : Z) (o : Owner) : Prop := {
  i_wheel : wheel_ok L o;
  i_due : due_ok X o;
  i_index : index_ok o;
  i_txns : txns_ok o;
  i_cancels : cancels_ok D o;
  i_retry : retry_ok o;
}.

Section parts.
Context `{E : TxnEnv} {W : TxnEnvLaws E}.

(** ** Lookups *)

Lemma txn_upd id id' f o : txn id (upd id' f o) = if decide (id' = id) then f <$> txn id o else txn id o.
Proof.
  case_decide as Heq; [subst; destruct id; simpl; apply lookup_alter_eq|].
  destruct id as [b|k], id' as [b'|k']; simpl; try done; apply lookup_alter_ne; congruence.
Qed.
Lemma txn_upd_eq id f o t : txn id o = Some t -> txn id (upd id f o) = Some (f t).
Proof. intros H. by rewrite txn_upd, decide_True, H. Qed.

Lemma upd_timers id f o : timers (upd id f o) = timers o.
Proof. by destruct id. Qed.
Lemma cancel_timer_txn id key o : txn id (cancel_timer key o) = txn id o.
Proof. by destruct key, id. Qed.

(** ** The wheel *)

Lemma cnt_le s k : (cnt s k <= 1)%nat.
Proof. unfold cnt. case_decide; lia. Qed.
Lemma in_wheel_le o tm k : (in_wheel o tm k <= 1)%nat.
Proof. unfold in_wheel. destruct (timers o !! k) as [[]|]; [case_decide|]; lia. Qed.
Lemma in_wheel_lookup o tm k : (0 < in_wheel o tm k)%nat -> exists d, timers o !! k = Some (d, tm).
Proof. unfold in_wheel. destruct (timers o !! k) as [[d tm']|]; [case_decide; subst; eauto|]; lia. Qed.

Lemma stored_upd id f o tm :
  stored (upd id f o) tm =
  if decide (timer_owner tm = Some id) then match txn id o with Some t => slot tm (f t) | None => None end
  else stored o tm.
Proof.
  unfold stored. destruct (timer_owner tm) as [id'|]; [|by rewrite decide_False].
  rewrite txn_upd. repeat case_decide; simplify_eq; [|done]. by destruct (txn id' o).
Qed.

(** A change of the fields of one transaction moves keys between them and the
    loose ones. *)
Definition moves (id : TxnId) (t t' : Transaction) (L L' : loose_keys) : Prop :=
  forall tm k, is_Some (timer_owner tm) ->
    ((if decide (timer_owner tm = Some id) then cnt (slot tm t') k else 0) + loose L' tm k =
     (if decide (timer_owner tm = Some id) then cnt (slot tm t) k else 0) + loose L tm k)%nat.

Lemma wheel_upd L L' id f o t :
  txn id o = Some t -> moves id t (f t) L L' -> wheel_ok L o -> wheel_ok L' (upd id f o).
Proof.
  intros Ht Hm Hw tm k Htm. specialize (Hw tm k Htm). specialize (Hm tm k Htm).
  unfold in_wheel in *. rewrite upd_timers, stored_upd. rewrite Hw. clear Hw.
  case_decide as Heq; [|lia]. unfold stored. rewrite Ht, Heq, Ht. lia.
Qed.

Lemma wheel_arm L tm due o :
  wheel_ok L o -> wheel_ok ((Some (insert_due tm due o).1, tm) :: L) (insert_due tm due o).2.
Proof.
  intros Hw tm' k Htm. specialize (Hw tm' k Htm). revert Hw. unfold insert_due, in_wheel; simpl.
  set (k0 := next_key _). assert (timers o !! k0 = None) as Hf by apply not_elem_of_dom, next_key_free.
  replace (stored (modify _ _ _) tm') with (stored o tm') by done. unfold cnt. destruct (decide (k = k0)) as [->|].
  - rewrite lookup_insert_eq, Hf. repeat case_decide; simplify_eq; lia.
  - rewrite lookup_insert_ne by done. repeat case_decide; simplify_eq; lia.
Qed.

Lemma wheel_arm_unkeyed L tm due o :
  timer_owner tm = None -> wheel_ok L o -> wheel_ok L (insert_due tm due o).2.
Proof.
  intros Hn Hw tm' k Htm. pose proof (wheel_arm L tm due o Hw tm' k Htm) as H. rewrite H. simpl.
  rewrite decide_False; [done|]. intros ->. rewrite Hn in Htm. by destruct Htm.
Qed.

Lemma wheel_loose L tm k o :
  is_Some (timer_owner tm) -> wheel_ok ((Some k, tm) :: L) o ->
  (exists d, timers o !! k = Some (d, tm)) /\ stored o tm <> Some k /\ loose L tm k = 0%nat.
Proof.
  intros Htm Hw. specialize (Hw tm k Htm). simpl in Hw. rewrite decide_True in Hw by done.
  unfold cnt at 2 in Hw. rewrite decide_True in Hw by done. pose proof (in_wheel_le o tm k).
  split; [apply in_wheel_lookup; lia|]. unfold cnt in Hw. case_decide; split; try done; lia.
Qed.

Lemma wheel_cancel L key tm o :
  is_Some (timer_owner tm) -> wheel_ok ((key, tm) :: L) o -> wheel_ok L (cancel_timer key o).
Proof.
  intros Htm Hw tm' k Htm'. destruct key as [k0|].
  - destruct (wheel_loose L tm k0 o Htm Hw) as ([d Hd] & Hs & Hl). specialize (Hw tm' k Htm'). revert Hw.
    unfold in_wheel; simpl. replace (stored (modify _ _ _) tm') with (stored o tm') by done.
    destruct (decide (k = k0)) as [->|].
    + rewrite lookup_delete_eq, Hd. unfold cnt. intros Hw. repeat case_decide; simplify_eq; lia.
    + rewrite lookup_delete_ne by done. unfold cnt. intros Hw. repeat case_decide; simplify_eq; lia.
  - specialize (Hw tm' k Htm'). simpl in *. rewrite Hw. by case_decide.
Qed.

(** A key stored names its entry, and only its field stores it. *)
Lemma wheel_stored L o tm k : wheel_ok L o -> stored o tm = Some k -> exists d, timers o !! k = Some (d, tm).
Proof.
  intros Hw Hs. apply in_wheel_lookup. rewrite Hw.
  - rewrite Hs. unfold cnt. rewrite decide_True by done. lia.
  - unfold stored in Hs. by destruct (timer_owner tm).
Qed.
Lemma wheel_entry o tm k d :
  wheel_ok [] o -> is_Some (timer_owner tm) -> timers o !! k = Some (d, tm) -> stored o tm = Some k.
Proof.
  intros Hw Htm Hk. specialize (Hw tm k Htm). unfold in_wheel in Hw. rewrite Hk, decide_True in Hw by done.
  simpl in Hw. unfold cnt in Hw. by case_decide; [|lia].
Qed.

(** ** Deadlines *)

Lemma due_fresh X o due tm : due_ok X o -> due_ok X (insert_due tm due o).2.
Proof.
  intros Hd id t Ht. destruct (Hd id t Ht) as [Hm Hk]. split; [exact Hm|]. destruct Hk as [Hx|(k & Hk & He)]; [by left|].
  right. exists k. split; [done|]. simpl. rewrite lookup_insert_ne; [done|]. intros Heq.
  pose proof (next_key_free (dom (timers o))) as Hf. rewrite Heq in Hf. by apply Hf, (elem_of_dom_2 _ _ _ He).
Qed.

Lemma due_cancel X o k d tm :
  timers o !! k = Some (d, tm) -> (forall id, tm = Cleanup id -> X = Some id \/ txn id o = None) ->
  due_ok X o -> due_ok X (cancel_timer (Some k) o).
Proof.
  intros Hk Hc Hd id t Ht. destruct (Hd id t Ht) as [Hm He]. split; [exact Hm|].
  destruct He as [Hx|(k' & Hk' & He)]; [by left|]. destruct (decide (k = k')) as [<-|Hne].
  - rewrite Hk in He. injection He as -> ->. destruct (Hc id eq_refl) as [?|Hn]; [by left|].
    change (txn id o = Some t) in Ht. congruence.
  - right. exists k'. split; [done|]. simpl. by rewrite lookup_delete_ne.
Qed.

Lemma due_upd X o id f t :
  txn id o = Some t -> due_ok X o ->
  lt_deadline (tx_lifetime (f t)) <= now o + MAX_DELAY ->
  (X = Some id \/ tx_cleanup_key (f t) = tx_cleanup_key t /\
                 lt_deadline (tx_lifetime (f t)) = lt_deadline (tx_lifetime t)) ->
  due_ok X (upd id f o).
Proof.
  intros Ht Hd Hm Hk id' t' Ht'. rewrite txn_upd in Ht'.
  assert (now (upd id f o) = now o) as -> by (by destruct id).
  unfold due_at_deadline. rewrite upd_timers. case_decide as Heq; [|by apply Hd].
  subst id'. rewrite Ht in Ht'. injection Ht' as <-. split; [done|].
  destruct Hk as [->|[Hk Hl]]; [by left|]. destruct (Hd id t Ht) as [_ [->|(k & Hc & He)]]; [by left|].
  right. exists k. by rewrite Hk, Hl.
Qed.

(** ** The index *)

Lemma holds_none_spec c : holds_none c = true <-> forall id, ~ in_call c id.
Proof.
  unfold holds_none. rewrite !andb_true_iff, !bool_decide_eq_true. split.
  - intros [[Hc Hs] Ha] [b|k]; simpl; set_solver.
  - intros H. split; [split|]; apply set_eq; intros x; split; try set_solver; intros Hx.
    + destruct (H (Client x)). simpl. set_solver.
    + destruct (H (Server x)). done.
    + destruct (H (Client x)). simpl. set_solver.
Qed.
Lemma holds_none_in c id : in_call c id -> holds_none c = false.
Proof. intros H. apply not_true_iff_false. intros Hn. by apply (proj1 (holds_none_spec c) Hn id). Qed.

Lemma in_ct_remove c id id' : in_call (ct_remove id c) id' <-> in_call c id' /\ id' <> id.
Proof. destruct id, id'; simpl; set_solver. Qed.

Lemma untrack_indexes o cr id ref ref' :
  indexes (txn_index o) ref -> ref id = cr -> ref' id = None -> (forall id', id' <> id -> ref' id' = ref id') ->
  indexes (txn_index (untrack_call_ref cr id o)) ref'.
Proof.
  intros [Hi Hc] Hr Hr' Ho. unfold untrack_call_ref. destruct cr as [cr|].
  2: { split; [|done]. intros cr' id'. rewrite Hi. destruct (decide (id' = id)) as [->|]; [by rewrite Hr, Hr'|by rewrite Ho]. }
  pose proof (proj2 (Hi cr id) Hr) as Hin. unfold indexed in Hin.
  destruct (txn_index o !! cr) as [c|] eqn:Hx; [|done].
  assert (forall id', in_call (ct_remove id c) id' <-> ref' id' = Some cr) as Hrem.
  { intros id'. rewrite in_ct_remove. specialize (Hi cr id'). unfold indexed in Hi. rewrite Hx in Hi. rewrite Hi.
    destruct (decide (id' = id)) as [->|Hne]; [rewrite Hr'|rewrite Ho by done]; intuition congruence. }
  assert (forall cr' id', cr' <> cr -> indexed (txn_index o) cr' id' <-> ref' id' = Some cr') as Hoth.
  { intros cr' id' Hne. rewrite Hi. destruct (decide (id' = id)) as [->|]; [rewrite Hr, Hr'; intuition congruence|by rewrite Ho]. }
  destruct (holds_none (ct_remove id c)) eqn:Hn; simpl; split; unfold indexed.
  - intros cr' id'. destruct (decide (cr' = cr)) as [->|Hne].
    + rewrite lookup_delete_eq, <- Hrem. split; [done|]. by apply holds_none_spec.
    + rewrite lookup_delete_ne by done. by apply Hoth.
  - intros cr' c'. rewrite lookup_delete_Some. intros [_ H]. by apply (Hc cr').
  - intros cr' id'. destruct (decide (cr' = cr)) as [->|Hne].
    + rewrite lookup_insert_eq. apply Hrem.
    + rewrite lookup_insert_ne by done. by apply Hoth.
  - intros cr' c'. rewrite lookup_insert_Some. intros [[<- <-]|[_ H]]; [|by apply (Hc cr')].
    split; [done|]. destruct (Hc cr c Hx) as [_ Hd]. destruct id; simpl; [set_solver|done].
Qed.

Lemma track_indexes o cr id ref ref' :
  indexes (txn_index o) ref -> ref id = None -> ref' id = cr -> (forall id', id' <> id -> ref' id' = ref id') ->
  indexes (txn_index (track_call_ref cr id o)) ref'.
Proof.
  intros [Hi Hc] Hr Hr' Ho. unfold track_call_ref. destruct cr as [cr|].
  2: { split; [|done]. intros cr' id'. rewrite Hi. destruct (decide (id' = id)) as [->|]; [by rewrite Hr, Hr'|by rewrite Ho]. }
  set (c := default ct_empty (txn_index o !! cr)). set (c' := match id with Client _ => _ | Server _ => _ end). simpl.
  assert (forall id', in_call c id' <-> ref id' = Some cr) as Hin.
  { intros id'. rewrite <- Hi. unfold c, indexed. destruct (txn_index o !! cr); simpl; [done|].
    destruct id'; simpl; set_solver. }
  assert (forall id', in_call c' id' <-> ref' id' = Some cr) as Hin'.
  { intros id'. destruct (decide (id' = id)) as [->|Hne].
    - rewrite Hr'. subst c'. destruct id; simpl; split; set_solver.
    - rewrite Ho, <- Hin by done. subst c'. destruct id, id'; simpl; set_solver. }
  split; unfold indexed.
  - intros cr' id'. destruct (decide (cr' = cr)) as [->|Hne]; [rewrite lookup_insert_eq; apply Hin'|].
    rewrite lookup_insert_ne by done. rewrite (Hi cr' id').
    destruct (decide (id' = id)) as [->|]; [rewrite Hr, Hr'; intuition congruence|by rewrite Ho].
  - intros cr' x. rewrite lookup_insert_Some. intros [[<- <-]|[_ H]]; [|by apply (Hc cr')].
    split; [apply (holds_none_in _ id), Hin', Hr'|].
    assert (ct_client c ## ct_accepted c) as Hd.
    { unfold c. destruct (txn_index o !! cr) eqn:Hx; simpl; [by apply (Hc cr)|set_solver]. }
    subst c'. destruct id as [b|k]; simpl; [|done].
    assert (b ∉ ct_accepted c); [|set_solver]. intros Hb.
    assert (ref (Client b) = Some cr) by (apply Hin; simpl; set_solver). congruence.
Qed.

(** ** CANCELs held *)

Definition heldb (mt : option Transaction) : nat :=
  match mt with Some t => if held_wire (tx_held_cancel t) then 1 else 0 | None => 0 end.

Lemma live_split (m : gmap string Transaction) b : live m = (live (delete b m) + heldb (m !! b))%nat.
Proof.
  unfold live. destruct (m !! b) as [t|] eqn:Hb; [|by rewrite delete_id, Nat.add_0_r].
  rewrite <- (insert_delete_id m b t Hb) at 1. simpl. destruct (held_wire _) eqn:Hh.
  - rewrite map_filter_insert_True by done. rewrite map_size_insert_None; [lia|].
    apply map_lookup_filter_None. left. apply lookup_delete_eq.
  - rewrite map_filter_insert_False by (simpl; congruence). rewrite delete_delete_eq. lia.
Qed.
Lemma live_insert m b t : live (<[b := t]> m) = (live (delete b m) + heldb (Some t))%nat.
Proof. rewrite (live_split _ b), lookup_insert_eq. by rewrite delete_insert_eq. Qed.
Lemma live_alter f m b t : m !! b = Some t -> (live (alter f b m) + heldb (Some t) = live m + heldb (Some (f t)))%nat.
Proof.
  intros Hb. rewrite (live_split (alter f b m) b), (live_split m b), lookup_alter_eq, Hb.
  rewrite delete_alter_eq. simpl. lia.
Qed.

End parts.
