(* ===== verification/TxnInvOps.v ===== *)
(** * Transactions: the invariant under the small operations

    The invariant of [TxnInv] through the operations every handler is made of:
    a field of a transaction, an entry of the wheel, an event, a transaction
    that opens, is held, leaves its call, or leaves. *)

From S2P Require Import Prelude Retransmit SipClock TxnData TxnOwner TxnInv.

Open Scope Z_scope.

Create HintDb txn_inv.

Section ops.
Context `{E : TxnEnv} {W : TxnEnvLaws E}.

(** ** What the invariant does not read *)

Lemma inv_frame X L D o o' :
  clients o' = clients o -> servers o' = servers o -> timers o' = timers o -> now o' = now o ->
  txn_index o' = txn_index o -> deferred_events o' = deferred_events o ->
  event_retry_armed o' = event_retry_armed o -> cancels_held o' = cancels_held o ->
  held_cancels_flushed o' = held_cancels_flushed o -> held_cancels_dropped o' = held_cancels_dropped o ->
  inv X L D o -> inv X L D o'.
Proof.
  intros Hc Hs Ht Hn Hi Hd Ha H1 H2 H3 [Iw Id Ii It Ic Ir].
  assert (forall id, txn id o' = txn id o) as Htx by (intros []; simpl; congruence).
  constructor.
  - intros tm k Htm. replace (stored o' tm) with (stored o tm).
    + unfold in_wheel. rewrite Ht. by apply Iw.
    + unfold stored. destruct (timer_owner tm); [by rewrite Htx|done].
  - intros id t. unfold due_at_deadline. rewrite Htx, Ht, Hn. apply Id.
  - destruct Ii as [Hx Hc']. unfold index_ok. rewrite Hi. split; [|done].
    intros cr id. rewrite Hx. unfold call_ref_of. by rewrite Htx.
  - intros id t. rewrite Htx. apply It.
  - unfold cancels_ok. by rewrite H1, H2, H3, Hc.
  - unfold retry_ok. by rewrite Hd, Ha, Ht, Hn.
Qed.

End ops.

Ltac framed H := revert H; apply inv_frame; reflexivity.
(** For a change of fields no part reads. *)
Ltac keeps := let t := fresh "t'" in let H := fresh "Hok" in intros t _ H; split; [by repeat split|split; [reflexivity|first [assumption|by repeat split|idtac]]].
(** For keys that move between fields and loose ones. *)
Ltac moved := intros [] ? ?; simpl in *; repeat case_decide; simplify_eq; unfold cnt; simpl; repeat case_decide; simplify_eq; first [lia|congruence].

Section ops.
Context `{E : TxnEnv} {W : TxnEnvLaws E}.

(** Owners that agree on what it reads. *)
Definition core (o : Owner) : Owner :=
  mkOwner (clients o) (servers o) (timers o) (now o) [] [] false [] 0 ∅ (txn_index o) (deferred_events o) None None
    (event_retry_armed o) [] ∅ [] ∅ [] (cancels_held o) (held_cancels_flushed o) (held_cancels_dropped o) 0 0.
Definition agree (o o' : Owner) : Prop := core o = core o'.

#[global] Instance agree_equiv : Equivalence agree.
Proof. unfold agree. split; repeat intro; congruence. Qed.

#[global] Instance inv_agree X L D : Proper (agree ==> iff) (inv X L D).
Proof. intros o o' [=]. split; apply inv_frame; congruence. Qed.

Ltac core_eq := unfold agree, core; simpl; f_equal; congruence.
#[global] Instance cancel_timer_agree key : Proper (agree ==> agree) (cancel_timer key).
Proof. intros o o' [=]. destruct key; core_eq. Qed.
#[global] Instance untrack_agree cr id : Proper (agree ==> agree) (untrack_call_ref cr id).
Proof.
  intros o o' [=]. unfold untrack_call_ref. destruct cr as [cr|]; [|core_eq].
  replace (txn_index o') with (txn_index o) by done.
  destruct (txn_index o !! cr); core_eq.
Qed.
#[global] Instance count_dropped_agree b : Proper (agree ==> agree) (count_dropped b).
Proof. intros o o' [=]. destruct b; core_eq. Qed.

(** ** The wheel *)

Lemma inv_insert X L D tm due o :
  inv X L D o -> inv X ((Some (insert_due tm due o).1, tm) :: L) D (insert_due tm due o).2.
Proof.
  intros [Iw Id Ii It Ic Ir]. constructor; try assumption; [by apply wheel_arm|by apply due_fresh|].
  destruct Ir as [H1 H2]. split; [done|]. intros Ha. destruct (H2 Ha) as (k & d & Hk & Hd). exists k, d.
  split; [|done]. simpl. rewrite lookup_insert_ne; [done|]. intros Heq.
  pose proof (next_key_free (dom (timers o))) as Hf. rewrite Heq in Hf. by apply Hf, (elem_of_dom_2 _ _ _ Hk).
Qed.

Lemma inv_insert_unkeyed X L D tm due o :
  timer_owner tm = None -> inv X L D o -> inv X L D (insert_due tm due o).2.
Proof.
  intros Hn Hi. destruct (inv_insert X L D tm due o Hi) as [Iw Id Ii It Ic Ir]. constructor; try assumption.
  apply wheel_arm_unkeyed; [done|apply Hi].
Qed.

Lemma inv_cancel X L D key tm o :
  is_Some (timer_owner tm) -> (forall id, tm = Cleanup id -> X = Some id \/ txn id o = None) ->
  inv X ((key, tm) :: L) D o -> inv X L D (cancel_timer key o).
Proof.
  intros Htm Hc Hi. destruct Hi as [Hw Id Ii It Ic Ir].
  destruct key as [k|]; [|constructor; try assumption; by apply (wheel_cancel L None tm)].
  destruct (wheel_loose _ _ _ _ Htm Hw) as ([d Hd] & _).
  constructor; try assumption; [by apply (wheel_cancel L _ tm)|by eapply due_cancel|].
  destruct Ir as [H1 H2]. split; [done|]. intros Ha. destruct (H2 Ha) as (k' & d' & Hk & Hn). exists k', d'.
  split; [|done]. simpl. rewrite lookup_delete_ne; [done|]. intros ->. rewrite Hd in Hk. simplify_eq. by destruct Htm.
Qed.

(** ** One transaction *)

Record change (X : option TxnId) (L L' : loose_keys) (D D' : Z) (o : Owner) (id : TxnId) (t t' : Transaction) : Prop := {
  ch_moves : moves id t t' L L';
  ch_max : lt_deadline (tx_lifetime t') <= now o + MAX_DELAY;
  ch_due : X = Some id \/ tx_cleanup_key t' = tx_cleanup_key t /\
                          lt_deadline (tx_lifetime t') = lt_deadline (tx_lifetime t);
  ch_ok : txn_ok id t';
  ch_debt : match id with
            | Client _ => D' + Z.of_nat (heldb (Some t')) = D + Z.of_nat (heldb (Some t))
            | Server _ => D' = D
            end;
}.

(** The fields of a transaction change, and perhaps the index with its call. *)
Lemma inv_upd_index X L L' D D' id f o t m :
  txn id o = Some t -> (txn_ok id t -> change X L L' D D' o id t (f t)) ->
  (index_ok o -> indexes m (call_ref_of (upd id f o))) ->
  inv X L D o -> inv X L' D' ((upd id f o) <| txn_index := m |>).
Proof.
  intros Ht Hch Hidx [Iw Id Ii It Ic Ir]. destruct (Hch (It _ _ Ht)) as [Hm Hx Hu Hk Hb]. constructor.
  - by apply (wheel_upd L L' id f o t).
  - by apply (due_upd X o id f t).
  - exact (Hidx Ii).
  - intros id' t'. change (txn id' (upd id f o) = Some t' -> txn_ok id' t'). rewrite txn_upd.
    case_decide; [subst; rewrite Ht; by intros [= <-]|apply It].
  - revert Ic. unfold cancels_ok. destruct id as [b|k]; [|subst D'; done]. cbn beta iota in Hb.
    pose proof (live_alter f _ _ _ Ht). intros Ic.
    change (u64_wrap (cancels_held o) = u64_wrap (held_cancels_flushed o + held_cancels_dropped o +
      Z.of_nat (live (alter f b (clients o))) + D')). rewrite Ic. f_equal. lia.
  - by destruct id.
Qed.

Lemma inv_upd X L L' D D' id f o t :
  txn id o = Some t -> (txn_ok id t -> change X L L' D D' o id t (f t) /\ tx_call_ref (f t) = tx_call_ref t) ->
  inv X L D o -> inv X L' D' (upd id f o).
Proof.
  intros Ht Hch Hi. pose proof (proj2 (Hch (i_txns _ _ _ _ Hi _ _ Ht))) as Hr.
  assert (agree (upd id f o) ((upd id f o) <| txn_index := txn_index o |>)) as Hag by (by destruct id).
  apply (inv_agree _ _ _ _ _ Hag), (inv_upd_index X L L' D D' id f o t); [done|by intros []%Hch| |done].
  intros [Hx Hc]. split; [|done]. intros cr id'. rewrite (Hx cr id'). unfold call_ref_of.
  rewrite txn_upd. case_decide; [subst; rewrite Ht; simpl; by rewrite Hr|done].
Qed.

Definition kept (id : TxnId) (t t' : Transaction) : Prop :=
  tx_retransmit_key t' = tx_retransmit_key t /\ tx_timeout_key t' = tx_timeout_key t /\
  tx_cleanup_key t' = tx_cleanup_key t /\ tx_cancel_retransmit_key t' = tx_cancel_retransmit_key t /\
  tx_lifetime t' = tx_lifetime t /\
  match id with Client _ => held_wire (tx_held_cancel t') = held_wire (tx_held_cancel t) | Server _ => True end.

Lemma upd_absent X L D id f o : txn id o = None -> inv X L D o -> inv X L D (upd id f o).
Proof. destruct id; simpl; intros Hn; apply inv_frame; simpl; try done; by apply alter_id'. Qed.

Lemma kept_change X L D o id t t' :
  kept id t t' -> txn_ok id t' -> lt_deadline (tx_lifetime t) <= now o + MAX_DELAY -> change X L L D D o id t t'.
Proof.
  intros (H1 & H2 & H3 & H4 & H5 & H7) Hok Hm. split; try done; try congruence.
  - intros tm k _. do 2 f_equal. case_decide; [|done]. destruct tm; simpl; congruence.
  - right. by rewrite H3, H5.
  - destruct id; [|done]. unfold heldb. by rewrite H7.
Qed.

Lemma inv_keep X L D id f o :
  (forall t, txn id o = Some t -> txn_ok id t -> kept id t (f t) /\ tx_call_ref (f t) = tx_call_ref t /\ txn_ok id (f t)) ->
  inv X L D o -> inv X L D (upd id f o).
Proof.
  intros Hk Hi. destruct (txn id o) as [t|] eqn:Ht; [|by apply upd_absent].
  apply (inv_upd X L L D D id f o t Ht); [|done]. intros Hok. destruct (Hk t eq_refl Hok) as (Hkeep & Hr & Hok').
  split; [|done]. apply kept_change; [done..|]. apply (proj1 (i_due _ _ _ _ Hi id t Ht)).
Qed.

(** Keys move, and the CANCEL held perhaps. *)
Record rekey (L L' : loose_keys) (D D' : Z) (id : TxnId) (t t' : Transaction) : Prop := {
  rk_moves : moves id t t' L L';
  rk_life : tx_lifetime t' = tx_lifetime t;
  rk_cleanup : tx_cleanup_key t' = tx_cleanup_key t;
  rk_ref : tx_call_ref t' = tx_call_ref t;
  rk_debt : match id with
            | Client _ => D' + Z.of_nat (heldb (Some t')) = D + Z.of_nat (heldb (Some t))
            | Server _ => D' = D
            end;
}.
Lemma inv_rekey X L L' D D' id f o t :
  txn id o = Some t -> rekey L L' D D' id t (f t) -> (txn_ok id t -> txn_ok id (f t)) ->
  inv X L D o -> inv X L' D' (upd id f o).
Proof.
  intros Ht [] Hok Hi. eapply inv_upd; [exact Ht| |exact Hi]. intros Ho. split; [|done]. split; auto.
  - rewrite rk_life0. apply (proj1 (i_due _ _ _ _ Hi id t Ht)).
  - right. by rewrite rk_life0.
Qed.

Lemma inv_arm X L D tm delay o k o1 :
  arm tm delay o = (k, o1) -> inv X L D o -> inv X ((Some k, tm) :: L) D o1 /\ forall id, txn id o1 = txn id o.
Proof.
  intros Ha Hi. unfold arm in Ha. pose proof (inv_insert X L D tm (due_after (now o) delay) o Hi) as H.
  rewrite Ha in H. split; [done|]. intros id. apply (f_equal snd) in Ha. simpl in Ha. subst o1. by destruct id.
Qed.

Lemma inv_weaken X L D o : inv None L D o -> inv X L D o.
Proof.
  intros [Iw Id Ii It Ic Ir]. constructor; try assumption. intros id t Ht. destruct (Id id t Ht) as [H1 [?|H2]]; [done|].
  split; [done|]. by right.
Qed.
Lemma inv_strengthen id L D o :
  (forall t, txn id o = Some t -> due_at_deadline o id t) -> inv (Some id) L D o -> inv None L D o.
Proof.
  intros Hk [Iw Id Ii It Ic Ir]. constructor; try assumption. intros id' t Ht. destruct (Id id' t Ht) as [H1 [Hx|H2]].
  - injection Hx as ->. split; [done|]. right. by apply Hk.
  - split; [done|]. by right.
Qed.

(** ** A transaction leaves *)

(** Taken out of its map, with its call's index. *)
Definition remove (id : TxnId) (o : Owner) : Owner :=
  match id with Client b => o <| clients ::= delete b |> | Server k => o <| servers ::= delete k |> end.
Definition keys_of (id : TxnId) (t : Transaction) : loose_keys :=
  match id with
  | Client b => [(tx_retransmit_key t, ClientRetransmit b); (tx_timeout_key t, ClientTimeout b);
                 (tx_cleanup_key t, Cleanup id); (tx_cancel_retransmit_key t, CancelRetransmit b)]
  | Server k => [(tx_retransmit_key t, ServerRetransmit k); (tx_cleanup_key t, Cleanup id)]
  end.

Lemma txn_remove id id' o : txn id (remove id' o) = if decide (id' = id) then None else txn id o.
Proof.
  case_decide as Heq; [subst; destruct id; simpl; apply lookup_delete_eq|].
  destruct id as [b|k], id' as [b'|k']; simpl; try done; apply lookup_delete_ne; congruence.
Qed.

Lemma loose_app L L' tm k : loose (L ++ L') tm k = (loose L tm k + loose L' tm k)%nat.
Proof. induction L as [|[s tm'] L IH]; simpl; [done|]. rewrite IH. lia. Qed.
Lemma loose_keys_of id t tm k :
  is_Some (timer_owner tm) -> loose (keys_of id t) tm k = if decide (timer_owner tm = Some id) then cnt (slot tm t) k else 0%nat.
Proof.
  intros Htm. destruct id as [b|key], tm; simpl in *; try (by destruct Htm);
    repeat case_decide; simplify_eq; simpl; try done; try lia.
Qed.

Lemma inv_out X L D id o t :
  txn id o = Some t -> X = None \/ X = Some id -> inv X L D o ->
  inv None (keys_of id t ++ L) (D + match id with Client _ => Z.of_nat (heldb (Some t)) | Server _ => 0 end)
    (untrack_call_ref (tx_call_ref t) id (remove id o)).
Proof.
  intros Ht HX [Iw Id Ii It Ic Ir]. set (o' := untrack_call_ref _ _ _).
  assert (forall id', txn id' o' = if decide (id = id') then None else txn id' o) as Htx.
  { intros id'. rewrite <- txn_remove. unfold o', untrack_call_ref. destruct (tx_call_ref t); [|done].
    by destruct (txn_index _ !! _), id', id. }
  assert (agree o' (remove id o <| txn_index := txn_index o' |>)) as Hag.
  { unfold o', untrack_call_ref. destruct (tx_call_ref t); [|by destruct id].
    destruct (txn_index _ !! _); [|by destruct id]. by destruct id. }
  injection Hag as Hc Hs Hti Hn _ Hd Ha H1 H2 H3.
  assert (timers o' = timers o) as Hti' by (rewrite Hti; by destruct id).
  assert (now o' = now o) as Hn' by (rewrite Hn; by destruct id). constructor.
  - intros tm k Htm. unfold in_wheel. rewrite Hti', loose_app, loose_keys_of by done.
    specialize (Iw tm k Htm). unfold in_wheel in Iw. rewrite Iw. unfold stored.
    destruct (timer_owner tm) as [id'|] eqn:Ho; [|by destruct Htm]. rewrite Htx.
    repeat case_decide; simplify_eq; [rewrite Ht; simpl; lia|simpl; lia].
  - intros id' t'. rewrite Htx. case_decide; [done|]. intros Ht'. destruct (Id id' t' Ht') as [Hm Hk].
    rewrite Hn'. split; [done|]. right. unfold due_at_deadline. rewrite Hti'. destruct HX, Hk; try done; congruence.
  - unfold index_ok, o'. eapply (untrack_indexes (remove id o)).
    + replace (txn_index (remove id o)) with (txn_index o) by (by destruct id). exact Ii.
    + unfold call_ref_of. by rewrite Ht.
    + unfold call_ref_of. fold o'. by rewrite Htx, decide_True.
    + intros id' Hne. unfold call_ref_of. fold o'. by rewrite Htx, decide_False.
  - intros id' t'. rewrite Htx. case_decide; [done|]. apply It.
  - unfold cancels_ok in *. rewrite H1, H2, H3, Hc. destruct id as [b|k]; simpl.
    + rewrite Ic, (live_split (clients o) b). replace (clients o !! b) with (Some t) by (by symmetry).
      f_equal. simpl. lia.
    + by rewrite Z.add_0_r.
  - unfold retry_ok. rewrite Hti', Hn', Hd, Ha. by destruct id.
Qed.

Lemma inv_cancel_timers L D id t o :
  txn id o = None -> txn_ok id t -> inv None (keys_of id t ++ L) D o -> inv None L D (cancel_timers t o).
Proof.
  intros Hn [_ Hok] Hi. unfold cancel_timers. destruct id as [b|k]; simpl in Hi.
  - eapply inv_cancel with (tm := CancelRetransmit b); [done|done|].
    eapply inv_cancel with (tm := Cleanup (Client b)); [done|intros ? [= <-]; right; by rewrite !cancel_timer_txn|].
    eapply inv_cancel with (tm := ClientTimeout b); [done|done|].
    by eapply inv_cancel with (tm := ClientRetransmit b).
  - destruct Hok as (-> & -> & _). simpl.
    eapply inv_cancel with (tm := Cleanup (Server k)); [done|intros ? [= <-]; right; by rewrite !cancel_timer_txn|].
    by eapply inv_cancel with (tm := ServerRetransmit k).
Qed.

Lemma inv_count X L D (b : bool) o : inv X L (D + if b then 1 else 0) o -> inv X L D (count_dropped b o).
Proof.
  intros [Iw Id Ii It Ic Ir]. destruct b; simpl; [|rewrite Z.add_0_r in Ic; by constructor].
  constructor; try assumption. revert Ic. unfold cancels_ok; simpl. intros ->. unfold u64_add.
  replace (_ + u64_wrap _ + _ + D) with
    (u64_wrap (held_cancels_dropped o + 1) + (held_cancels_flushed o + Z.of_nat (live (clients o)) + D)) by lia.
  rewrite u64_wrap_add_l. f_equal. lia.
Qed.

Lemma inv_more_held X L D o : inv X L (D - 1) o -> inv X L D (o <| cancels_held ::= fun n => u64_add n 1 |>).
Proof.
  intros [Iw Id Ii It Ic Ir]. constructor; try assumption. revert Ic. unfold cancels_ok; simpl. unfold u64_add.
  intros Ic. rewrite <- (Z.add_0_r (u64_wrap (_ + 1))), u64_wrap_add_l, Z.add_0_r, <- u64_wrap_add_l, Ic, u64_wrap_add_l.
  f_equal. lia.
Qed.
Lemma inv_flushed X L D o : inv X L (D + 1) o -> inv X L D (o <| held_cancels_flushed ::= fun n => u64_add n 1 |>).
Proof.
  intros [Iw Id Ii It Ic Ir]. constructor; try assumption. revert Ic. unfold cancels_ok; simpl. intros ->. unfold u64_add.
  rewrite <- !Z.add_assoc, u64_wrap_add_l. f_equal. lia.
Qed.

(** The steps of [delete_txn] the invariant does not read. *)
Lemma quiesce_agree cr o : agree (quiesce_if_last cr o) o.
Proof. unfold quiesce_if_last. by destruct (_ && _). Qed.

Lemma delete_txn_agree id o t :
  txn id o = Some t ->
  agree (delete_txn id o).2
    (count_dropped (held_wire (tx_held_cancel t)) (untrack_call_ref (tx_call_ref t) id (cancel_timers t (remove id o)))).
Proof.
  intros Ht. unfold delete_txn. rewrite Ht. simpl. set (o1 := match id with Client _ => _ | Server _ => _ end).
  set (o2 := match tx_id t with Client _ => _ | Server _ => _ end).
  set (o3 := match tx_unsent_cancel t with Some _ => _ | None => _ end).
  assert (agree o3 (remove id o)) as H3.
  { transitivity o2; [unfold o3; by destruct (tx_unsent_cancel t)|].
    transitivity o1; [unfold o2; by destruct (tx_id t), (bound_to_tag t)|by destruct id]. }
  set (o5 := untrack_call_ref _ _ (cancel_timers _ o3)).
  transitivity (count_dropped (held_wire (tx_held_cancel t)) o5).
  - destruct (tx_call_ref t); [rewrite quiesce_agree|]; apply count_dropped_agree; by destruct (tx_held t), (tx_orphaned t).
  - unfold o5, cancel_timers. by rewrite H3.
Qed.

Lemma untrack_cancel_comm cr id key o :
  untrack_call_ref cr id (cancel_timer key o) = cancel_timer key (untrack_call_ref cr id o).
Proof. unfold untrack_call_ref. destruct cr, key; simpl; try done. by destruct (txn_index o !! _). Qed.
Lemma txn_untrack id cr id' o : txn id (untrack_call_ref cr id' o) = txn id o.
Proof. unfold untrack_call_ref. destruct cr as [cr|]; [|done]. by destruct (txn_index o !! cr), id. Qed.

(** Out of the maps, the wheel and the index at once. *)
Lemma inv_taken X L D id o t :
  txn id o = Some t -> X = None \/ X = Some id -> inv X L D o ->
  inv None L D
    (count_dropped (held_wire (tx_held_cancel t)) (untrack_call_ref (tx_call_ref t) id (cancel_timers t (remove id o)))).
Proof.
  intros Ht HX Hi. apply inv_count. pose proof (i_txns _ _ _ _ Hi id t Ht) as Hok.
  unfold cancel_timers. rewrite !untrack_cancel_comm. apply (inv_cancel_timers L _ id t); [|done|].
  - by rewrite txn_untrack, txn_remove, decide_True.
  - pose proof (inv_out X L D id o t Ht HX Hi) as H. destruct id as [b|k].
    + unfold heldb in H. by destruct (held_wire _).
    + destruct Hok as (_ & _ & _ & -> & _). apply H.
Qed.

Lemma inv_delete_due X L D id o :
  X = None \/ X = Some id -> inv X L D o -> inv None L D (delete_txn id o).2.
Proof.
  intros HX Hi. destruct (txn id o) as [t|] eqn:Ht.
  - rewrite (delete_txn_agree id o t Ht). by apply (inv_taken X L D id o t).
  - unfold delete_txn. rewrite Ht. destruct HX as [->| ->]; [done|]. apply inv_strengthen in Hi; [done|congruence].
Qed.
Lemma inv_delete L D id o : inv None L D o -> inv None L D (delete_txn id o).2.
Proof. apply inv_delete_due. by left. Qed.

(** ** A transaction opens *)

Definition put (t : Transaction) (o : Owner) : Owner :=
  match tx_id t with
  | Client b => o <| clients ::= <[b := t]> |>
  | Server k => o <| servers ::= <[k := t]> |>
  end.

Lemma txn_put id t o : txn id (put t o) = if decide (tx_id t = id) then Some t else txn id o.
Proof.
  unfold put. case_decide as Heq; [subst; destruct (tx_id t); simpl; apply lookup_insert_eq|].
  destruct id as [b|k], (tx_id t) as [b'|k']; simpl; try done; apply lookup_insert_ne; congruence.
Qed.
Lemma put_remove t o : put t (remove (tx_id t) o) = put t o.
Proof.
  unfold put, remove. destruct (tx_id t) as [b|k].
  - transitivity (o <| clients := <[b := t]> (delete b (clients o)) |>); [done|]. by rewrite insert_delete_eq.
  - transitivity (o <| servers := <[k := t]> (delete k (servers o)) |>); [done|]. by rewrite insert_delete_eq.
Qed.
Lemma put_cancel t key o : put t (cancel_timer key o) = cancel_timer key (put t o).
Proof. unfold put. by destruct (tx_id t), key. Qed.
Lemma put_count t b o : put t (count_dropped b o) = count_dropped b (put t o).
Proof. unfold put. by destruct (tx_id t), b. Qed.
Lemma put_untrack t cr id o : put t (untrack_call_ref cr id o) = untrack_call_ref cr id (put t o).
Proof.
  unfold put, untrack_call_ref. destruct cr as [cr|]; [|done].
  destruct (tx_id t); simpl; by destruct (txn_index o !! cr).
Qed.

Lemma set_txn_split t o :
  set_txn t o =
  track_call_ref (tx_call_ref t) (tx_id t)
    (put t match txn (tx_id t) o with
           | Some old => count_dropped (held_wire (tx_held_cancel old))
                           (untrack_call_ref (tx_call_ref old) (tx_id t) (cancel_timers old (remove (tx_id t) o)))
           | None => o
           end).
Proof.
  unfold set_txn. f_equal. destruct (txn (tx_id t) o) as [old|]; [|done].
  unfold cancel_timers. by rewrite put_count, put_untrack, !put_cancel, put_remove.
Qed.

Lemma inv_put L L' D t o :
  txn (tx_id t) o = None -> txn_ok (tx_id t) t -> tx_held_cancel t = None ->
  lt_deadline (tx_lifetime t) <= now o + MAX_DELAY -> due_at_deadline o (tx_id t) t ->
  (forall tm k, is_Some (timer_owner tm) -> loose L tm k = (loose (keys_of (tx_id t) t) tm k + loose L' tm k)%nat) ->
  inv None L D o -> inv None L' D (track_call_ref (tx_call_ref t) (tx_id t) (put t o)).
Proof.
  intros Hn Hok Hh Hm Hdue HL [Iw Id Ii It Ic Ir]. set (o' := track_call_ref _ _ _).
  assert (forall id', txn id' o' = if decide (tx_id t = id') then Some t else txn id' o) as Htx.
  { intros id'. rewrite <- txn_put. unfold o', track_call_ref. by destruct (tx_call_ref t), id'. }
  assert (agree o' (put t o <| txn_index := txn_index o' |>)) as Hag.
  { unfold o', track_call_ref, put. by destruct (tx_call_ref t), (tx_id t). }
  injection Hag as Hc Hs Hti Hn' _ Hd Ha H1 H2 H3.
  assert (timers o' = timers o) as Hti' by (rewrite Hti; unfold put; by destruct (tx_id t)).
  assert (now o' = now o) as Hnow by (rewrite Hn'; unfold put; by destruct (tx_id t)). constructor.
  - intros tm k Htm. unfold in_wheel. rewrite Hti'. specialize (Iw tm k Htm). unfold in_wheel in Iw.
    rewrite Iw, HL, loose_keys_of by done. unfold stored.
    destruct (timer_owner tm) as [id'|] eqn:Ho; [|by destruct Htm]. rewrite Htx.
    repeat case_decide; simplify_eq; [rewrite Hn; change (cnt None k) with 0%nat; lia|lia].
  - intros id' t'. rewrite Htx, Hnow. unfold due_at_deadline. rewrite Hti'.
    case_decide; [intros [= <-]; subst id'; split; [done|by right]|apply Id].
  - unfold index_ok, o'. eapply (track_indexes (put t o)).
    + replace (txn_index (put t o)) with (txn_index o) by (unfold put; by destruct (tx_id t)). exact Ii.
    + unfold call_ref_of. by rewrite Hn.
    + unfold call_ref_of. fold o'. by rewrite Htx, decide_True.
    + intros id' Hne. unfold call_ref_of. fold o'. by rewrite Htx, decide_False.
  - intros id' t'. rewrite Htx. case_decide; [intros [= <-]; by subst|apply It].
  - revert Ic. unfold cancels_ok. rewrite H1, H2, H3, Hc. unfold put.
    destruct (tx_id t) as [b|k] eqn:Hid; simpl; [|done].
    rewrite live_insert, delete_id by exact Hn. simpl. rewrite Hh. simpl. by rewrite Nat.add_0_r.
  - unfold retry_ok. rewrite Hti', Hnow, Hd, Ha. unfold put. by destruct (tx_id t).
Qed.

Lemma due_at_exact n d : n <= d <= n + MAX_DELAY -> due_at n d = d.
Proof. unfold due_at, due_after. lia. Qed.

Lemma from_now_range delay o : 0 <= delay -> now o <= from_now delay o <= now o + MAX_DELAY.
Proof. intros Hd. pose proof (after_range instant_max (now o) delay Hd). unfold from_now. lia. Qed.

Lemma budget_nonneg head :
  0 <= match nt_kind head with KInvite => Z.min u64_MAX (invite_initial_timeout_ms + TXN_MAX_AGE) | KNonInvite => TXN_MAX_AGE end.
Proof. pose proof initial_timeout_u64. unfold in_u64, u64_MAX, TXN_MAX_AGE in *. destruct (nt_kind head); lia. Qed.

Lemma cancel_timer_sub key o : timers (cancel_timer key o) ⊆ timers o.
Proof. destruct key; simpl; [apply delete_subseteq|done]. Qed.
Lemma taken_frame t id o :
  let o' := count_dropped (held_wire (tx_held_cancel t))
              (untrack_call_ref (tx_call_ref t) id (cancel_timers t (remove id o))) in
  txn id o' = None /\ now o' = now o /\ timers o' ⊆ timers o.
Proof.
  cbv zeta. set (o1 := untrack_call_ref _ _ _).
  assert (txn id (count_dropped (held_wire (tx_held_cancel t)) o1) = txn id o1) as -> by (by destruct (held_wire _), id).
  assert (now (count_dropped (held_wire (tx_held_cancel t)) o1) = now o1) as -> by (by destruct (held_wire _)).
  assert (timers (count_dropped (held_wire (tx_held_cancel t)) o1) = timers o1) as -> by (by destruct (held_wire _)).
  unfold o1, cancel_timers. rewrite txn_untrack, !cancel_timer_txn, txn_remove, decide_True by done.
  split; [done|]. rewrite !untrack_cancel_comm. split.
  - assert (forall key o, now (cancel_timer key o) = now o) as Hc by (by intros []). rewrite !Hc.
    unfold untrack_call_ref. destruct (tx_call_ref t); [destruct (txn_index _ !! _)|]; by destruct id.
  - etrans; [apply cancel_timer_sub|]. etrans; [apply cancel_timer_sub|]. etrans; [apply cancel_timer_sub|].
    etrans; [apply cancel_timer_sub|].
    unfold untrack_call_ref. destruct (tx_call_ref t); [destruct (txn_index _ !! _)|]; by destruct id.
Qed.

(** The transaction opened, whose fields took the keys [L'] of [L]. *)
Lemma inv_open L L' D head finish o :
  (forall n l, let t := finish (txn_new head l n) in
     tx_id t = nt_id head /\ tx_lifetime t = l /\ tx_held_cancel t = None /\
     (forall k, txn_ok (nt_id head) (t <| tx_cleanup_key := Some k |>)) /\
     (forall tm k, is_Some (timer_owner tm) ->
        loose L tm k = (loose (keys_of (nt_id head) (t <| tx_cleanup_key := None |>)) tm k + loose L' tm k)%nat)) ->
  inv None L D o -> inv None L' D (open_txn_with head finish o).
Proof.
  intros Hf Hi. unfold open_txn_with. set (budget := match nt_kind head with KInvite => _ | KNonInvite => _ end).
  pose proof (from_now_range budget o (budget_nonneg head)) as Hr.
  destruct (Hf (now o) (Active (from_now budget o))) as (Hid & Hl & Hh & Hok & HL). clear Hf.
  set (t := finish _) in *. rewrite Hid, Hl. unfold insert_at. simpl lt_deadline. rewrite due_at_exact by done.
  pose proof (inv_insert None L D (Cleanup (nt_id head)) (from_now budget o) o Hi) as Hi1.
  assert (timers (insert_due (Cleanup (nt_id head)) (from_now budget o) o).2 !!
            (insert_due (Cleanup (nt_id head)) (from_now budget o) o).1 = Some (from_now budget o, Cleanup (nt_id head)))
    as Hk by (simpl; apply lookup_insert_eq).
  assert (now (insert_due (Cleanup (nt_id head)) (from_now budget o) o).2 = now o) as Hn by done.
  destruct (insert_due _ _ _) as [k o1]. simpl in Hi1, Hk, Hn. set (t' := t <| tx_cleanup_key := Some k |>).
  assert (tx_id t' = nt_id head) as Hid' by exact Hid. rewrite set_txn_split, Hid'.
  assert (forall o2, txn (nt_id head) o2 = None -> now o2 = now o1 -> timers o2 !! k = timers o1 !! k ->
            inv None ((Some k, Cleanup (nt_id head)) :: L) D o2 ->
            inv None L' D (track_call_ref (tx_call_ref t') (nt_id head) (put t' o2))) as Hput.
  { intros o2 Hn2 Hnow2 Hk2 Hi2. rewrite <- Hid'. eapply (inv_put _ L'); rewrite ?Hid'; [done|apply Hok|done| | | |done].
    - change (lt_deadline (tx_lifetime t) <= now o2 + MAX_DELAY). rewrite Hl, Hnow2, Hn. simpl. lia.
    - exists k. split; [done|]. change (tx_lifetime t') with (tx_lifetime t). by rewrite Hl, Hk2, Hk.
    - intros tm k' Htm. specialize (HL tm k' Htm). simpl. rewrite loose_keys_of in * by done. rewrite HL.
      destruct tm; simpl in *; repeat case_decide; simplify_eq; try done; try lia. }
  destruct (txn (nt_id head) o1) as [old|] eqn:Hold; [|by apply Hput].
  pose proof (inv_taken None _ D _ o1 old Hold (or_introl eq_refl) Hi1) as Hi2.
  revert Hi2. set (o2 := count_dropped _ _). intros Hi2. destruct (taken_frame old (nt_id head) o1) as (Hn2 & Hnow2 & Hsub).
  fold o2 in Hn2, Hnow2, Hsub. apply Hput; [done|done| |done].
  destruct (wheel_loose L (Cleanup (nt_id head)) k o2 ltac:(eauto) (i_wheel _ _ _ _ Hi2)) as ([d Hd] & _).
  rewrite Hd. symmetry. by apply (lookup_weaken _ _ _ _ Hd).
Qed.

(** The transaction is there. *)
Lemma txn_track id cr id' o : txn id (track_call_ref cr id' o) = txn id o.
Proof. unfold track_call_ref. by destruct cr, id. Qed.
Lemma txn_open id head finish o :
  nt_id head = id -> (forall n l, tx_id (finish (txn_new head l n)) = nt_id head) ->
  exists k l, txn id (open_txn_with head finish o) =
              Some ((finish (txn_new head l (now o))) <| tx_cleanup_key := Some k |>).
Proof.
  intros <- Hid. unfold open_txn_with. destruct (insert_at _ _ o) as [k o1]. eexists k, _.
  rewrite set_txn_split, txn_track, txn_put. rewrite decide_True by apply Hid. reflexivity.
Qed.

(** An opening that takes no loose key. *)
Lemma inv_open_plain L D head finish o :
  (forall n l, let t := finish (txn_new head l n) in
     tx_id t = nt_id head /\ tx_lifetime t = l /\ tx_held_cancel t = None /\ tx_retransmit_key t = None /\
     tx_timeout_key t = None /\ tx_cancel_retransmit_key t = None /\ tx_unsent_cancel t = None) ->
  inv None L D o -> inv None L D (open_txn_with head finish o).
Proof.
  intros Hf. apply inv_open. intros n l t. destruct (Hf n l) as (Hid & Hl & Hh & Hr & Hk & Hc & Hu). fold t in Hid, Hl, Hh, Hr, Hk, Hc, Hu.
  split_and!; [done..| |].
  - intros k. split; [done|]. destruct (nt_id head); simpl; [split; simpl; [done|congruence]|].
    split_and!; simpl; try done. intros (h & Hu' & _). simpl in Hu'. congruence.
  - intros tm k Htm. destruct (nt_id head); simpl; rewrite ?Hr, ?Hk, ?Hc; simpl; repeat case_decide; done.
Qed.

(** ** A transaction is held *)

Lemma lt_held_deadline l why until :
  lt_deadline (lt_held l why until) = until \/ lt_deadline (lt_held l why until) = Z.max until (lt_deadline l).
Proof. destruct l as [b|why' old]; simpl; [by left|]. case_decide; simpl; auto. Qed.

Lemma inv_arm_deadline L D id o :
  (forall t, txn id o = Some t -> now o <= lt_deadline (tx_lifetime t)) ->
  inv (Some id) L D o -> inv None L D (arm_deadline id o).
Proof.
  intros Hmin Hi. unfold arm_deadline. destruct (txn id o) as [t|] eqn:Ht; [|apply inv_strengthen in Hi; [done|congruence]].
  specialize (Hmin t eq_refl). pose proof (proj1 (i_due _ _ _ _ Hi id t Ht)) as Hmax.
  set (o1 := upd id _ o). assert (inv (Some id) ((tx_cleanup_key t, Cleanup id) :: L) D o1) as H1.
  { eapply inv_upd; [exact Ht| |exact Hi]. intros Hok. split; [|done]. split; simpl; try done; [|by left|by destruct id].
    intros tm k Htm. destruct tm; simpl; repeat case_decide; simplify_eq; unfold cnt; simpl; lia. }
  assert (txn id o1 = Some (t <| tx_cleanup_key := None |>)) as Ht1 by (by apply txn_upd_eq).
  assert (now o1 = now o) as Hn1 by (unfold o1; by destruct id).
  apply inv_cancel in H1; [|eauto|intros ? [= ->]; by left].
  set (o2 := cancel_timer _ o1) in *. rewrite <- (cancel_timer_txn id (tx_cleanup_key t)) in Ht1. fold o2 in Ht1.
  assert (now o2 = now o) as Hn2 by (unfold o2; by destruct (tx_cleanup_key t)).
  unfold insert_at. rewrite Hn2, due_at_exact by lia.
  pose proof (inv_insert _ _ _ (Cleanup id) (lt_deadline (tx_lifetime t)) o2 H1) as H3.
  assert (timers (insert_due (Cleanup id) (lt_deadline (tx_lifetime t)) o2).2 !!
            (insert_due (Cleanup id) (lt_deadline (tx_lifetime t)) o2).1 =
            Some (lt_deadline (tx_lifetime t), Cleanup id)) as Hk by (simpl; apply lookup_insert_eq).
  assert (txn id (insert_due (Cleanup id) (lt_deadline (tx_lifetime t)) o2).2 = txn id o2) as Ht3 by (by destruct id).
  rewrite Ht1 in Ht3. destruct (insert_due _ _ _) as [k o3]. simpl in *.
  apply (inv_strengthen id).
  - intros t'. rewrite (txn_upd_eq _ _ _ _ Ht3). intros [= <-]. exists k. rewrite upd_timers. done.
  - eapply inv_upd; [exact Ht3| |exact H3]. intros Hok. split; [|done]. split; simpl; try done; [| |by left|by destruct id].
    + intros tm k' Htm. destruct tm; simpl; repeat case_decide; simplify_eq; unfold cnt; simpl; lia.
    + apply (proj1 (i_due _ _ _ _ H3 id _ Ht3)).
Qed.

Lemma inv_hold_for L D id why left o : 0 <= left -> inv None L D o -> inv None L D (hold_for id why left o).
Proof.
  intros Hl Hi. unfold hold_for. destruct (txn id o) as [t|] eqn:Ht; [|done].
  pose proof (from_now_range left o Hl) as Hr. pose proof (proj1 (i_due _ _ _ _ Hi id t Ht)) as Hmax.
  assert (now o <= lt_deadline (lt_held (tx_lifetime t) why (from_now left o)) <= now o + MAX_DELAY) as Hd.
  { destruct (lt_held_deadline (tx_lifetime t) why (from_now left o)) as [->| ->]; lia. }
  apply inv_arm_deadline.
  - intros t'. rewrite (txn_upd_eq _ _ _ _ Ht). intros [= <-]. simpl. destruct id; apply Hd.
  - eapply inv_upd; [exact Ht| |by apply inv_weaken]. intros Hok.
    split; [|done]. split; simpl; try done; [apply Hd|by left|by destruct id].
Qed.

Lemma hold_duration_nonneg why : 0 <= hold_duration why.
Proof. destruct why; vm_compute; discriminate. Qed.
Lemma inv_hold L D id why o : inv None L D o -> inv None L D (hold id why o).
Proof. apply inv_hold_for, hold_duration_nonneg. Qed.

(** ** A transaction leaves its call *)

Lemma inv_detach L D id o : inv None L D o -> inv None L D (detach_from_call id o).
Proof.
  intros Hi. unfold detach_from_call. destruct (txn id o) as [t|] eqn:Ht; simpl; [|done].
  destruct (tx_call_ref t) as [cr|] eqn:Hcr; [|done]. rewrite quiesce_agree. set (f := fun t => t <| tx_call_ref := None |>).
  set (o1 := upd id f o). set (o2 := untrack_call_ref (Some cr) id o1).
  assert (agree o2 (o1 <| txn_index := txn_index o2 |>)) as Hag.
  { unfold o2, untrack_call_ref. destruct (txn_index o1 !! cr); [|by destruct id]. by destruct id. }
  apply (inv_agree _ _ _ _ _ Hag), (inv_upd_index None L L D D id f o t); [done| | |done].
  - intros Hok. apply kept_change; [by destruct id..|]. apply (proj1 (i_due _ _ _ _ Hi id t Ht)).
  - intros Hx. apply (untrack_indexes o1 (Some cr) id (call_ref_of o)).
    + unfold o1. by destruct id.
    + unfold call_ref_of. by rewrite Ht.
    + unfold call_ref_of. by rewrite (txn_upd_eq _ _ _ _ Ht).
    + intros id' Hne. unfold call_ref_of. by rewrite txn_upd, decide_False.
Qed.

Lemma inv_settle L D b o : inv None L D o -> inv None L D (settle_accepted b o).
Proof.
  intros Hi. unfold settle_accepted. destruct (clients o !! b ≫= tx_call_ref) as [cr|] eqn:Hcr; [|done].
  destruct (txn_index o !! cr) as [c|] eqn:Hc; [|done]. case_decide as Hb; [|done]. rewrite quiesce_agree.
  destruct Hi as [Iw Id [Hx Hd] It Ic Ir]. constructor; try assumption. split; simpl; unfold indexed.
  - intros cr' id. rewrite <- (Hx cr' id : _ <-> call_ref_of o id = Some cr'). unfold indexed.
    destruct (decide (cr' = cr)) as [->|]; [|by rewrite lookup_insert_ne].
    rewrite lookup_insert_eq, Hc. destruct id; simpl; [|done].
    destruct (decide (branch = b)) as [->|]; set_solver.
  - intros cr' c'. rewrite lookup_insert_Some. intros [[<- <-]|[_ H]]; [|by apply (Hd cr')].
    split; [apply (holds_none_in _ (Client b)); simpl; set_solver|]. destruct (Hd cr c Hc) as [_ H]. simpl. set_solver.
Qed.

(** ** Events *)

(** What may be written of the deferred events. *)
Lemma inv_deferred L D o l :
  (l <> [] -> event_retry_armed o = true) -> inv None L D o -> inv None L D (o <| deferred_events := l |>).
Proof. intros Hl [Iw Id Ii It Ic [_ Ir]]. by constructor. Qed.
Lemma inv_nothing_deferred L D o :
  inv None L D o -> inv None L D (o <| deferred_events := [] |> <| event_retry_armed := false |>).
Proof. intros [Iw Id Ii It Ic Ir]. by constructor. Qed.

Lemma inv_arm_retry L D o l :
  inv None L D o -> inv None L D (arm_event_retry (o <| deferred_events := l |>)).
Proof.
  intros Hi. unfold arm_event_retry. simpl. destruct (event_retry_armed o) eqn:He; [by apply inv_deferred|].
  destruct (inv_insert_unkeyed None L D EventRetry (due_after (now o) EVENT_RETRY_MS) _ eq_refl Hi) as [Iw Id Ii It Ic Ir].
  constructor; try assumption. split; [done|]. intros _.
  eexists _, _. split; [simpl; apply lookup_insert_eq|]. unfold due_after, EVENT_RETRY_MS, MAX_DELAY. simpl. lia.
Qed.

Lemma inv_defer L D e o : inv None L D o -> inv None L D (defer e o).
Proof. apply inv_arm_retry. Qed.
Lemma inv_offer L D e c o : inv None L D o -> inv None L D (offer e c o).2.
Proof.
  intros Hi. unfold offer. destruct (_ && _); [by apply inv_defer|].
  destruct (event_closed o); [by apply inv_nothing_deferred|]. destruct (_ <? _)%nat; [framed Hi|].
  destruct c; [by apply inv_defer|done].
Qed.
Lemma inv_emit_critical L D e o : inv None L D o -> inv None L D (emit_critical e o).
Proof. apply inv_offer. Qed.
Lemma inv_emit L D e o : inv None L D o -> inv None L D (emit e o).2.
Proof. apply inv_offer. Qed.
Lemma inv_emit_keepalive L D e o : inv None L D o -> inv None L D (emit_keepalive e o).2.
Proof.
  intros Hi. unfold emit_keepalive. destruct keepalive_cap; [|by apply inv_emit].
  destruct (event_closed o); [done|]. destruct (_ <? _)%nat; [framed Hi|done].
Qed.
Lemma inv_flush_deferred L D o : inv None L D o -> inv None L D (flush_deferred o).
Proof.
  intros Hi. unfold flush_deferred. destruct (_ && _); [by apply inv_nothing_deferred|].
  destruct (flush_loop _ _) as [l q].
  destruct (bool_decide_reflect (l = [])) as [->|]; [apply inv_nothing_deferred in Hi; framed Hi|].
  apply (inv_frame None L D (arm_event_retry (o <| deferred_events := l |>)));
    [by unfold arm_event_retry; simpl; destruct (event_retry_armed o)..|]. by apply inv_arm_retry.
Qed.
Lemma inv_drop_deferred L D k c f o : inv None L D o -> inv None L D (drop_deferred_request_of k c f o).
Proof.
  intros Hi. unfold drop_deferred_request_of.
  apply (inv_deferred L D o (filter _ (deferred_events o))); [|done]. intros Hl.
  apply (i_retry _ _ _ _ Hi). intros Hn. by rewrite Hn in Hl.
Qed.
Lemma inv_notify L D cr o : inv None L D o -> inv None L D (notify_quiesced cr o).
Proof. intros Hi. apply inv_emit_critical. framed Hi. Qed.

Lemma inv_flush_quiesce L D o : inv None L D o -> inv None L D (flush_pending_quiesce o).
Proof.
  intros Hi. unfold flush_pending_quiesce. apply (foldl_keeps (inv None L D)); [|framed Hi]. intros o1 cr H1. destruct (_ && _); [by apply inv_notify|done].
Qed.

(** ** Expiry *)

Lemma inv_expire_due X L D id o : X = None \/ X = Some id -> inv X L D o -> inv None L D (expire id o).
Proof.
  intros HX Hi. apply (inv_delete_due X L D id o HX) in Hi. unfold expire.
  destruct (match txn id o with Some _ => _ | None => _ end) as [[[k c] f]|]; [by apply inv_drop_deferred|done].
Qed.
Lemma inv_reap L D o : inv None L D o -> inv None L D (reap_overdue o).
Proof.
  intros Hi. unfold reap_overdue. apply (foldl_keeps (inv None L D)); [|done]. intros o1 id H1.
  apply (inv_frame _ _ _ (expire id o1)); [reflexivity..|].
  apply (inv_expire_due None); [by left|done].
Qed.
Lemma inv_sweep L D o : inv None L D o -> inv None L D (sweep o).
Proof. intros Hi%inv_reap. framed Hi. Qed.

(** ** The rest *)

Lemma inv_send X L D b d o : inv X L D o -> inv X L D (send_buffer b d o).
Proof. by apply inv_frame. Qed.
Lemma inv_told L D id o : inv None L D o -> inv None L D (told_bound id o).
Proof. unfold told_bound. destruct on_bound; [by apply inv_frame|done]. Qed.
Lemma inv_judge L D r d o : inv None L D o -> inv None L D (judge_new_invite r d o).2.
Proof.
  intros Hi. unfold judge_new_invite. destruct (refusals o); [|done]. destruct (memo_admission _ _ _ _ _) as [[] m'].
  - destruct (refusal_answer r); framed Hi.
  - destruct (refusal_answer r); framed Hi.
  - framed Hi.
Qed.
Lemma inv_ack_refusal L D r o : inv None L D o -> inv None L D (acknowledges_refusal r o).2.
Proof.
  intros Hi. unfold acknowledges_refusal. destruct (refusals o); [|done]. case_decide; [done|].
  destruct (holds_refusal _ _ _). framed Hi.
Qed.
Lemma inv_record_tag L D k r o : inv None L D o -> inv None L D (record_uas_tag k r o).
Proof.
  intros Hi. unfold record_uas_tag. destruct (rs_to_tag r) as [s|]; [|done]. destruct (servers o !! k) as [t|]; [|done].
  destruct (_ || _); [done|]. apply (inv_frame _ _ _ (upd (Server k) (fun t => t <| tx_final_to_tag := Some s |>) o)); [reflexivity..|]. apply inv_keep, Hi.
  keeps.
Qed.

End ops.

#[export] Hint Resolve inv_send inv_told inv_emit_critical inv_emit inv_emit_keepalive inv_notify inv_hold inv_detach
  inv_settle inv_delete inv_record_tag inv_judge inv_ack_refusal inv_drop_deferred : txn_inv.
