(* ===== verification/TxnInvClient.v ===== *)
(** * Transactions: the invariant under the client side *)

From S2P Require Import Prelude Retransmit SipClock TxnData TxnOwner TxnClient TxnInv TxnInvOps.

Open Scope Z_scope.

Section client.
Context `{E : TxnEnv} {W : TxnEnvLaws E} (L : loose_keys) (D : Z).

Lemma client_txn_ok b t : client_ok t -> tx_id t = Client b -> txn_ok (Client b) t.
Proof. by split. Qed.

Lemma inv_release_seed b o : inv None L D o -> inv None L D (release_seed_resend b o).
Proof.
  intros Hi. unfold release_seed_resend. destruct (clients o !! b) as [t|] eqn:Ht; [|done].
  destruct (lt_gave_up _); [done|]. destruct (tx_seed_resend t) as [buf|] eqn:Hs; [|done].
  destruct (i_txns _ _ _ _ Hi (Client b) t Ht) as [_ [Hk _]].
  set (o1 := upd_client _ _ o). assert (inv None L D o1) as H1.
  { apply inv_keep, Hi. keeps. destruct Hok as [? []]. split; [done|split; [by intros []|done]]. }
  assert (txn (Client b) o1 = Some (t <| tx_seed_resend := None |>)) as Ht1 by (by apply txn_upd_eq).
  destruct (arm _ _ o1) as [k o2] eqn:Ha. destruct (inv_arm _ _ _ _ _ _ _ _ Ha H1) as [H2 Ht2].
  rewrite <- Ht2 in Ht1. eapply inv_rekey; [exact Ht1| | |exact H2].
  - split; simpl; try reflexivity. rewrite Hs in Hk. specialize (Hk ltac:(eauto)). moved.
  - intros [? []]. split; [done|]. split; [by intros []|done].
Qed.

(** The cases of a fact of client transactions. *)
Ltac cok := intros [?Hid [?Hseed ?Htry]]; split; [done|split; simpl; auto].

Lemma inv_arm_cancel_retransmit b o : inv None L D o -> inv None L D (arm_cancel_retransmit b o).
Proof.
  intros Hi. unfold arm_cancel_retransmit. destruct (clients o !! b) as [t|] eqn:Ht; [|done].
  destruct (tx_cancel_retransmit_key t) eqn:Hk; [done|]. destruct (tx_held_cancel t) as [h|] eqn:Hh; [|done].
  destruct (armed _) as [[ladder first]|]; [|done].
  destruct (arm _ _ o) as [k o1] eqn:Ha. destruct (inv_arm _ _ _ _ _ _ _ _ Ha Hi) as [H1 Ht1].
  eapply (inv_rekey _ _ _ _ _ (Client b)); [rewrite Ht1; exact Ht| | |exact H1].
  - split; simpl; try reflexivity; [moved|by rewrite Hh].
  - cok. intros Hs h' [= <-]. exact (Htry Hs h Hh).
Qed.

Lemma inv_fire_cancel_retransmit b o :
  (forall t, clients o !! b = Some t -> tx_cancel_retransmit_key t = None) ->
  inv None L D o -> inv None L D (fire_cancel_retransmit b o).
Proof.
  intros Hnone Hi. unfold fire_cancel_retransmit. destruct (clients o !! b) as [t|] eqn:Ht; [|done].
  specialize (Hnone t eq_refl). destruct (tx_held_cancel t) as [h|] eqn:Hh; [|done].
  destruct (is_active _ && _); [|done]. destruct (match hc_ladder h with Some _ => _ | None => _ end) as [rearm ladder].
  set (o1 := upd_client b _ o). assert (txn (Client b) o1 = Some _) as Ht1 by (by apply txn_upd_eq).
  assert (inv None L D o1) as H1.
  { eapply (inv_rekey _ _ _ _ _ (Client b)); [exact Ht| | |exact Hi].
    - split; simpl; try reflexivity; [moved|by rewrite Hh].
    - cok. intros Hs h' [= <-]. exact (Htry Hs h Hh). }
  apply (inv_send _ _ _ (hc_buf h) (hc_dest h)) in H1. destruct rearm as [interval|]; [|done].
  destruct (arm _ _ _) as [k o2] eqn:Ha. destruct (inv_arm _ _ _ _ _ _ _ _ Ha H1) as [H2 Ht2].
  eapply (inv_rekey _ _ _ _ _ (Client b)); [rewrite Ht2; exact Ht1| | |exact H2].
  - split; simpl; try reflexivity. moved.
  - done.
Qed.

Lemma inv_start_retransmit b buf dest ms kind o :
  (forall t, clients o !! b = Some t ->
     tx_retransmit_key t = None /\ tx_timeout_key t = None /\ tx_seed_resend t = None) ->
  inv None L D o -> inv None L D (start_client_retransmit b buf dest ms kind o).
Proof.
  intros Hnone Hi. unfold start_client_retransmit. destruct (clients o !! b) as [t|] eqn:Ht; [|done].
  destruct (Hnone t eq_refl) as (Hr & Hk & Hs). destruct (armed _) as [[ladder first]|]; [|done].
  destruct (arm _ first o) as [r o1] eqn:Ha. destruct (inv_arm _ _ _ _ _ _ _ _ Ha Hi) as [H1 Ht1].
  destruct (arm _ ms o1) as [k o2] eqn:Hb. destruct (inv_arm _ _ _ _ _ _ _ _ Hb H1) as [H2 Ht2].
  eapply (inv_rekey _ _ _ _ _ (Client b)); [rewrite Ht2, Ht1; exact Ht| | |exact H2].
  - split; simpl; try reflexivity. moved.
  - cok. rewrite Hs. by intros [].
Qed.

Lemma inv_fire_retransmit b o :
  (forall t, clients o !! b = Some t -> tx_retransmit_key t = None /\ tx_seed_resend t = None) ->
  inv None L D o -> inv None L D (fire_retransmit b o).
Proof.
  intros Hnone Hi. unfold fire_retransmit. destruct (clients o !! b) as [t|] eqn:Ht; [|done].
  destruct (Hnone t eq_refl) as (Hr & Hs). destruct (is_active _); [|done].
  destruct (tx_retransmit_buf t) as [buf|]; [|done]. destruct (tx_destination t) as [dest|]; [|done].
  apply (inv_send _ _ _ buf dest) in Hi. destruct (tx_ladder t) as [ladder|]; [|done].
  destruct (advance _) as [rearm ladder']. set (o1 := upd_client b _ _).
  assert (txn (Client b) o1 = Some _) as Ht1 by (apply txn_upd_eq; exact Ht).
  assert (inv None L D o1) as H1 by (apply inv_keep, Hi; keeps).
  destruct rearm as [next|]; [|done].
  destruct (arm _ _ _) as [k o2] eqn:Ha. destruct (inv_arm _ _ _ _ _ _ _ _ Ha H1) as [H2 Ht2].
  eapply (inv_rekey _ _ _ _ _ (Client b)); [rewrite Ht2; exact Ht1| | |exact H2].
  - split; simpl; try reflexivity. moved.
  - cok. rewrite Hs. by intros [].
Qed.

(** ** Sending *)

Lemma inv_with_dialog X tag f b o : inv X L D o -> inv X L D (upd_client b (with_dialog tag f) o).
Proof.
  apply inv_keep. unfold with_dialog. intros t _ Hok. destruct (dialog_at _ _) as [[]|]; (split; [by repeat split|done]).
Qed.

Lemma inv_note_tu_ack ack image dest o : inv None L D o -> inv None L D (note_tu_ack ack image dest o).
Proof.
  intros Hi. unfold note_tu_ack. destruct (_ ≫= _); [|done].
  destruct (list_find _ _) as [[? b]|]; [by apply inv_with_dialog|done].
Qed.

Lemma inv_note_dialog_cseq cr r o : inv None L D o -> inv None L D (note_dialog_cseq cr r o).
Proof.
  intros Hi. unfold note_dialog_cseq. destruct (rq_to_tag r); [|done]. destruct (_ ≫= _); [|done].
  apply (foldl_keeps (inv None L D)); [|done]. intros o1 b H1. apply inv_keep, H1.
  intros t _ Hok. unfold with_dialog. destruct (_ && _); [|split; [by repeat split|done]].
  destruct (dialog_at _ _) as [[]|]; (split; [by repeat split|done]).
Qed.

Lemma inv_hold_cancel b buf dest o :
  (forall t, clients o !! b = Some t -> tx_state t = Trying) -> is_Some (clients o !! b) ->
  inv None L D o -> inv None L D (hold_cancel b buf dest o).
Proof.
  intros Htry [t Ht] Hi. unfold hold_cancel. rewrite Ht. specialize (Htry t Ht).
  apply inv_release_seed, inv_more_held, inv_count.
  destruct (i_txns _ _ _ _ Hi (Client b) t Ht) as [_ [_ Hh]].
  eapply (inv_rekey _ _ _ _ _ (Client b)); [exact Ht| | |exact Hi].
  - split; simpl; try reflexivity; [moved|]. destruct (tx_held_cancel t) as [h|]; simpl; [|lia].
    rewrite (Hh Htry h eq_refl). simpl. lia.
  - cok. intros _ h' [= <-]. done.
Qed.

Lemma inv_send_raw r buf dest o : cancel_gate r o <> GHold -> inv None L D o -> inv None L D (send_raw_request r buf dest o).
Proof.
  intros Hg Hi. unfold send_raw_request. set (park := if decide (rq_method r = MCancel) then _ else None).
  set (first := match _ with Some _ => _ | None => false end).
  assert (forall b t, park = Some b -> clients o !! b = Some t -> tx_state t <> Trying) as Hpark.
  { intros b t Hp Ht Hst. apply Hg. unfold cancel_gate, park in *. case_decide; [|done].
    destruct (via_branch _) as [b'|]; [|done]. simpl in *. destruct (clients o !! b') as [t'|] eqn:Ht'; [|done].
    destruct (invite_active t') eqn:Ha; [|done]. injection Hp as ->. simplify_eq. by rewrite decide_True. }
  set (o1 := match park with Some b => _ | None => o end). assert (inv None L D o1) as H1.
  { unfold o1. destruct park as [b|] eqn:Hp; [|done]. destruct (clients o !! b) as [t|] eqn:Ht.
    - eapply (inv_rekey _ _ _ _ _ (Client b)); [exact Ht| | |exact Hi].
      + split; simpl; try reflexivity; [moved|]. by destruct (tx_held_cancel t).
      + cok. intros Hst. by destruct (Hpark b t eq_refl Ht).
    - by apply upd_absent. }
  apply (inv_send _ _ _ buf dest) in H1. set (o2 := if decide (rq_method r = MAck) then _ else _).
  assert (inv None L D o2) as H2 by (unfold o2; case_decide; [by apply inv_note_tu_ack|done]).
  destruct park; [|done]. apply (inv_arm_cancel_retransmit s) in H2. destruct first; [by apply inv_hold|done].
Qed.

(** ** Giving up *)

Lemma inv_give_up b o : inv None L D o -> inv None L D (give_up_client b o).
Proof.
  intros Hi. unfold give_up_client. destruct (clients o !! b) as [t|] eqn:Ht; [|done]. case_decide; [|by apply inv_delete].
  apply inv_hold. eapply (inv_cancel _ _ _ _ (ClientRetransmit b)); [eauto|done|].
  eapply (inv_rekey _ _ _ _ _ (Client b)); [exact Ht| | |exact Hi].
  - split; simpl; try reflexivity. moved.
  - cok.
Qed.

Lemma inv_fire_timeout b o : inv None L D o -> inv None L D (fire_timeout b o).
Proof.
  intros Hi. unfold fire_timeout. destruct (timeout_event b o); [|done]. apply (inv_give_up b) in Hi.
  destruct (match clients o !! b with Some _ => _ | None => _ end); [done|by apply inv_emit_critical].
Qed.

Lemma inv_fire_first_response b o : inv None L D o -> inv None L D (fire_first_response b o).
Proof.
  intros Hi. unfold fire_first_response. destruct (clients o !! b) as [t|]; [|done]. destruct (_ && _); [|done].
  case_decide.
  - destruct (tx_past_trying t); [done|]. destruct (tx_call_ref t); [|done].
    destruct (tx_leg_id t); [by apply inv_emit|done].
  - destruct (timeout_event b o); [|done]. apply inv_emit_critical, inv_keep, Hi. keeps.
Qed.

Lemma inv_rearm_bound b o : inv None L D o -> inv None L D (rearm_invite_bound b o).
Proof.
  intros Hi. unfold rearm_invite_bound. destruct (clients o !! b) as [t|] eqn:Ht; [|done].
  destruct (_ && _); [|done]. set (o1 := upd_client b _ o).
  assert (txn (Client b) o1 = Some _) as Ht1 by (apply txn_upd_eq; exact Ht).
  assert (inv None ((tx_timeout_key t, ClientTimeout b) :: L) D o1) as H1.
  { eapply (inv_rekey _ _ _ _ _ (Client b)); [exact Ht| | |exact Hi]; [|done]. split; simpl; try reflexivity. moved. }
  apply inv_cancel in H1; [|eauto|done]. rewrite <- (cancel_timer_txn _ (tx_timeout_key t)) in Ht1.
  destruct (arm _ _ _) as [k o2] eqn:Ha. destruct (inv_arm _ _ _ _ _ _ _ _ Ha H1) as [H2 Ht2].
  eapply (inv_rekey _ _ _ _ _ (Client b)); [rewrite Ht2; exact Ht1| | |exact H2]; [|done].
  split; simpl; try reflexivity. moved.
Qed.

Lemma inv_flush_cancel b o :
  (forall t, clients o !! b = Some t -> tx_state t <> Trying) ->
  inv None L D o -> inv None L D (flush_cancel_on_provisional b o).
Proof.
  intros Hst Hi. unfold flush_cancel_on_provisional. destruct (clients o !! b) as [t|] eqn:Ht; [|done].
  destruct (tx_held_cancel t) as [h|] eqn:Hh; [|done]. case_decide as Hw; [|done].
  apply inv_arm_cancel_retransmit, inv_flushed, inv_send. set (o1 := upd_client b _ o).
  assert (inv None L (D + 1) o1) as H1.
  { eapply (inv_rekey _ _ _ _ _ (Client b)); [exact Ht| | |exact Hi].
    - split; simpl; try reflexivity; [moved|]. rewrite Hh. simpl. rewrite Hw. simpl. lia.
    - cok. intros Htr. by destruct (Hst t eq_refl). }
  destruct (lt_gave_up _); [by apply inv_hold|done].
Qed.

(** ** Finals *)

Lemma inv_cancel_three b t o :
  inv None ((tx_retransmit_key t, ClientRetransmit b) :: (tx_timeout_key t, ClientTimeout b) ::
            (tx_cancel_retransmit_key t, CancelRetransmit b) :: L) D o -> inv None L D (cancel_three t o).
Proof.
  intros Hi. eapply (inv_cancel _ _ _ _ (CancelRetransmit b)); [eauto|done|].
  eapply (inv_cancel _ _ _ _ (ClientTimeout b)); [eauto|done|].
  by eapply (inv_cancel _ _ _ _ (ClientRetransmit b)); [eauto|done|].
Qed.

(** A client transaction that takes its final: keys and CANCEL let go. *)
Lemma inv_final b f t o :
  clients o !! b = Some t ->
  tx_retransmit_key (f t) = None -> tx_timeout_key (f t) = None -> tx_cancel_retransmit_key (f t) = None ->
  tx_held_cancel (f t) = None -> tx_lifetime (f t) = tx_lifetime t -> tx_cleanup_key (f t) = tx_cleanup_key t ->
  tx_call_ref (f t) = tx_call_ref t -> tx_id (f t) = tx_id t ->
  inv None L D o ->
  inv None L D (cancel_three t (count_dropped (held_wire (tx_held_cancel t)) (upd_client b f o))).
Proof.
  intros Ht Hr Hk Hc Hh Hl Hu Hcr Hid Hi. apply (inv_cancel_three b), inv_count.
  eapply (inv_rekey _ _ _ _ _ (Client b)); [exact Ht| | |exact Hi].
  - split; try done; [|unfold heldb; rewrite Hh; simpl; destruct (held_wire _); lia].
    intros [] k Htm; simpl in *; rewrite ?Hr, ?Hk, ?Hc, ?Hu; repeat case_decide; simplify_eq; unfold cnt; simpl; lia.
  - intros [Hi' _]. split; [congruence|]. split; [by intros _|]. rewrite Hh. done.
Qed.

Lemma inv_complete_non_2xx b o : inv None L D o -> inv None L D (complete_non_2xx b o).
Proof.
  intros Hi. unfold complete_non_2xx. destruct (clients o !! b) as [t|] eqn:Ht; [|done]. by apply inv_hold, inv_final.
Qed.

Lemma inv_accept_2xx b r o : inv None L D o -> inv None L D (accept_2xx b r o).
Proof.
  intros Hi. unfold accept_2xx. destruct (clients o !! b) as [t|] eqn:Ht; [|done]. apply inv_settle, inv_hold, inv_final; try done;
    unfold with_dialog; by destruct (dialog_at _ _) as [[]|].
Qed.

Lemma inv_held_ack b o : inv None L D o -> inv None L D (send_held_ack b o).2.
Proof.
  intros Hi. unfold send_held_ack. destruct (_ ≫= _) as [[ack dest]|]; [|done]. apply inv_send, inv_keep, Hi. keeps.
Qed.
Lemma inv_ack_first b ack dest o : inv None L D o -> inv None L D (ack_first_non_2xx b ack dest o).
Proof.
  intros Hi. unfold ack_first_non_2xx. destruct (clients o !! b) as [t|]; [|by apply inv_send].
  destruct (_ <? _); [|by apply inv_send]. apply inv_insert_unkeyed; [done|]. apply inv_keep, Hi. keeps.
Qed.
Lemma inv_fire_ack_bound b opened o : inv None L D o -> inv None L D (fire_ack_bound b opened o).
Proof.
  intros Hi. unfold fire_ack_bound. destruct (clients o !! b); [|done]. case_decide; [|done].
  apply (inv_held_ack b) in Hi. destruct (send_held_ack b o) as [[] o1]; [by apply inv_told|done].
Qed.
Lemma inv_take_non_2xx b r src t o : inv None L D o -> inv None L D (take_non_2xx_final b r src t o).
Proof.
  intros Hi. unfold take_non_2xx_final. set (ack := match tx_original_request t with Some _ => _ | None => _ end).
  case_decide; [destruct (holds_ack b o); [done|destruct ack as [[]|]; [by apply inv_send|done]]|].
  destruct (tx_orphaned t); [apply inv_complete_non_2xx; destruct ack as [[]|]; [by apply inv_send|done]|].
  apply inv_emit_critical, inv_complete_non_2xx. destruct ack as [[]|]; [by apply inv_ack_first|done].
Qed.

Lemma inv_note_reliable b r o : inv None L D o -> inv None L D (note_reliable_offer b r o).
Proof.
  intros Hi. unfold note_reliable_offer. destruct (rs_to_tag r) as [tag|]; [|done]. destruct (rs_sdp r); [|done].
  destruct (rs_rseq r); [|done]. apply inv_keep, Hi. intros t _ Hok.
  destruct (_ && _); (split; [by repeat split|done]).
Qed.

(** ** Sending *)

Lemma inv_do_send r dest kind o : inv None L D o -> inv None L D (do_send_request r dest kind o).2.
Proof.
  intros Hi. unfold do_send_request. destruct (_ || _) eqn:Hraw; simpl.
  - destruct (cancel_gate r o) eqn:Hg; [|done|apply inv_send_raw; [congruence|done]].
    revert Hg. unfold cancel_gate. case_decide; [|done]. destruct (via_branch (rq_via r)) as [b|]; simpl; [|done].
    destruct (clients o !! b) as [t|] eqn:Ht; [|done]. destruct (invite_active t); [|done].
    destruct (decide (tx_state t = Trying)); [|discriminate]. intros _. apply inv_hold_cancel; [intros t'; by rewrite Ht; intros [= <-]|eauto|done].
  - destruct (match filled _ with Some _ => _ | None => _ end) as [b o0] eqn:Hb.
    assert (inv None L D o0) as H0 by (destruct (filled _); simplify_eq; [done|framed Hi]).
    destruct (client_timeout kind r) as [ms tk]. set (o1 := send_buffer _ _ _).
    set (head := mkNewTxn _ _ _ _ _ _ _ _ _ _ _ _). set (o2 := start_client_retransmit _ _ _ _ _ _).
    assert (inv None L D o2) as H2.
    { destruct (txn_open (Client b) head (fun t => t) o1) as (k & l & Ht); [done..|]. apply inv_start_retransmit.
      - intros t Ht'. change (txn (Client b) (open_txn_with head (fun t => t) o1) = Some t) in Ht'.
        rewrite Ht in Ht'. by injection Ht' as <-.
      - apply inv_open_plain; [done|]. by apply inv_send, inv_note_dialog_cseq. }
    destruct (_ && _); [by apply inv_insert_unkeyed|done].
Qed.

(** ** Orphans *)

(** A client transaction its call let go of. *)
Lemma inv_orphaned b o :
  inv None L D o ->
  inv None L D ((detach_from_call (Client b) (upd_client b (fun t => t <| tx_orphaned := true |>) o))
                  <| orphaned_transactions ::= fun n => u64_add n 1 |>).
Proof.
  intros Hi. assert (inv None L D (upd_client b (fun t => t <| tx_orphaned := true |>) o)) as H1.
  { apply inv_keep, Hi. keeps. }
  apply (inv_detach _ _ (Client b)) in H1. framed H1.
Qed.

Lemma inv_bye b invite r o : inv None L D o -> inv None L D (bye_unheld_dialog b invite r o).
Proof.
  intros Hi. unfold bye_unheld_dialog. destruct (clients o !! b) as [t|]; [|done]. case_decide; [|done].
  assert (inv None L D (o <| id_draws ::= S |>)) as H1 by framed Hi.
  destruct (_ ≫= _) as [[bye dest]|]; [|done]. apply (inv_do_send bye dest KNonInvite) in H1.
  destruct (clients _ !! _); [by apply inv_orphaned|done].
Qed.

Lemma inv_release_2xx b r o : inv None L D o -> inv None L D (release_2xx b r o).
Proof.
  intros Hi. unfold release_2xx. destruct (clients o !! b) as [t|]; [|done].
  apply (inv_with_dialog None (rs_to_tag r) (fun d => d) b) in Hi. set (o1 := upd_client b _ o) in *.
  destruct (_ ≫= dl_ack) as [[ack dest]|]; [by apply inv_send|]. destruct (accepted_invite b o1) as [invite|]; [|done].
  unfold orphan_ack. destruct (clients o1 !! b); [|done].
  assert (inv None L D (o1 <| id_draws ::= S |>)) as H1 by framed Hi.
  destruct (_ ≫= _) as [[ack dest]|]; [|done]. apply (inv_send _ _ _ ack dest) in H1.
  destruct (the_dialog _ t) as [d|]; [|done]. apply (inv_with_dialog None (rs_to_tag r)
    (fun d => mkDialog (dl_to_tag d) (dl_cseq d) (dl_byed d) (Some (ack, dest))) b) in H1.
  destruct (dl_byed d); [done|by apply inv_bye].
Qed.

Lemma inv_cancel_txns cr o : inv None L D o -> inv None L D (do_cancel_txns_for_call cr o).
Proof.
  intros Hi. unfold do_cancel_txns_for_call. destruct (txn_index o !! cr); [|done].
  apply (foldl_keeps (inv None L D)); [|done]. intros o1 b H1. destruct (clients o1 !! b); [by apply inv_orphaned|done].
Qed.

(** ** Responses *)

(** Past Trying. *)
Definition past (b : string) (o : Owner) : Prop := forall t, txn (Client b) o = Some t -> tx_state t <> Trying.
Lemma past_upd b f o :
  (forall t, tx_state t <> Trying -> tx_state (f t) <> Trying) -> past b o -> past b (upd_client b f o).
Proof.
  intros Hf Hp t. unfold upd_client. rewrite txn_upd, decide_True by done.
  destruct (txn (Client b) o) eqn:Ht; [|done]. intros [= <-]. by apply Hf, Hp.
Qed.
Lemma past_cancel b key o : past b o -> past b (cancel_timer key o).
Proof. intros Hp t. rewrite cancel_timer_txn. apply Hp. Qed.
Lemma past_provisional b p t o : past b (provisional b p t o).
Proof.
  unfold provisional. set (o1 := upd_client b _ o). assert (past b o1) as H1.
  { intros t'. unfold o1, upd_client. rewrite txn_upd, decide_True by done.
    destruct (txn (Client b) o); [|done]. by intros [= <-]. }
  destruct (bool_decide _); [by apply past_cancel|done].
Qed.
Lemma past_rearm b o : past b o -> past b (rearm_invite_bound b o).
Proof.
  intros Hp. unfold rearm_invite_bound. destruct (clients o !! b) as [t|]; [|done]. destruct (_ && _); [|done].
  set (o1 := cancel_timer _ _). assert (past b o1) as H1 by (by apply past_cancel, past_upd).
  destruct (arm _ _ o1) as [k o2] eqn:Ha. apply past_upd; [done|]. injection Ha as _ <-. exact H1.
Qed.
Lemma past_reliable b r o : past b o -> past b (note_reliable_offer b r o).
Proof.
  intros Hp. unfold note_reliable_offer. destruct (rs_to_tag r); [|done]. destruct (rs_sdp r); [|done].
  destruct (rs_rseq r); [|done]. apply past_upd; [|done]. intros t. by destruct (_ && _).
Qed.

Lemma inv_provisional b p t o :
  clients o !! b = Some t -> is_active (tx_state t) = true -> inv None L D o -> inv None L D (provisional b p t o).
Proof.
  intros Ht Ha Hi. unfold provisional. destruct (bool_decide (tx_kind t = KInvite)) eqn:Hk.
  - eapply (inv_cancel _ _ _ _ (ClientRetransmit b)); [eauto|done|].
    eapply (inv_rekey _ _ _ _ _ (Client b)); [exact Ht| | |exact Hi]; [split; simpl; try reflexivity; moved|].
    cok. done.
  - eapply (inv_rekey _ _ _ _ _ (Client b)); [exact Ht| | |exact Hi]; [split; simpl; try reflexivity; moved|]. cok. done.
Qed.

Lemma inv_matched b r src t o :
  clients o !! b = Some t -> inv None L D o -> inv None L D (matched_response b r src t o).2.
Proof.
  intros Ht Hi. unfold matched_response. case_decide; simpl; [destruct (_ && _); [by apply inv_release_2xx|done]|].
  destruct (_ <? _); simpl.
  { destruct (is_active _) eqn:Ha; [|done].
    set (o1 := provisional b true t o). set (o2 := if decide (tx_kind t = KInvite) then _ else o1).
    assert (inv None L D o2) as H2.
    { unfold o2. case_decide; [apply inv_note_reliable|]; by apply inv_provisional. }
    apply inv_flush_cancel; [|by apply inv_rearm_bound]. apply past_rearm. unfold o2.
    case_decide; [apply past_reliable|]; apply past_provisional. }
  destruct (_ && _); simpl; [by apply inv_take_non_2xx|]. case_decide; simpl.
  - destruct (tx_orphaned t); [by apply inv_release_2xx, inv_accept_2xx|by apply inv_emit_critical, inv_accept_2xx].
  - apply (inv_delete _ _ (Client b)) in Hi. destruct (tx_orphaned t); [done|by apply inv_emit_critical].
Qed.

Lemma inv_cancel_answered b o : inv None L D o -> inv None L D (cancel_answered b o).
Proof.
  intros Hi. unfold cancel_answered. destruct (clients o !! b) as [t|] eqn:Ht; [|done].
  destruct (tx_held_cancel t) as [h|] eqn:Hh; [|done]. destruct (_ && _) eqn:Hc; [|done].
  eapply (inv_cancel _ _ _ _ (CancelRetransmit b)); [eauto|done|].
  eapply (inv_rekey _ _ _ _ _ (Client b)); [exact Ht| | |exact Hi].
  - split; simpl; try reflexivity; [moved|]. rewrite Hh. simpl. zbool. apply bool_decide_eq_true in H0.
    by rewrite bool_decide_false.
  - cok. done.
Qed.

Lemma inv_inbound_response r src reoffer o : inv None L D o -> inv None L D (inbound_response r src reoffer o).2.
Proof.
  intros Hi. unfold inbound_response. set (b := default "" _). destruct (_ =? _).
  { case_decide; [done|]. destruct (clients o !! b) as [t|] eqn:Ht; [|done]. destruct (bool_decide _); [|done].
    simpl. destruct (is_active _) eqn:Ha; [|done]. simpl.
    apply inv_flush_cancel; [|by apply inv_rearm_bound, inv_provisional]. apply past_rearm, past_provisional. }
  destruct (_ && _).
  { apply (inv_cancel_answered b) in Hi. simpl. destruct reoffer; [done|by apply inv_emit]. }
  set (m := if decide (b = "") then None else _).
  assert (forall t, m = Some t -> clients o !! b = Some t) as Hm.
  { intros t. unfold m. case_decide; [done|]. destruct (clients o !! b); [|done]. by destruct (_ && _). }
  destruct (match m with Some _ => _ | None => _ end) as [done' o1] eqn:He.
  assert (inv None L D o1) as H1.
  { destruct m as [t|]; [|by simplify_eq]. apply (inv_matched b r src t o (Hm t eq_refl)) in Hi. by rewrite He in Hi. }
  destruct done'; [done|]. simpl. destruct (_ || _); [by apply inv_emit|done].
Qed.
End client.

#[export] Hint Resolve inv_do_send inv_inbound_response inv_cancel_txns inv_held_ack inv_start_retransmit
  inv_release_seed : txn_inv.
