(* ===== verification/TxnInvServer.v ===== *)
(** * Transactions: the invariant under the server side *)

From S2P Require Import Prelude Retransmit SipClock TxnData TxnOwner TxnServer TxnInv TxnInvOps.

Open Scope Z_scope.

Section server.
Context `{E : TxnEnv} {W : TxnEnvLaws E} (L : loose_keys) (D : Z).

Ltac on_option_as k H :=
  lazymatch goal with |- inv _ _ _ (snd (match ?c with Some _ => _ | None => _ end)) => destruct c as [k|] eqn:H end.
Tactic Notation "on_option" "as" ident(k) ident(H) := on_option_as k H.

(** ** A fact of the transaction at a key *)

Definition has (k : ServerTxnKey) (P : Transaction -> Prop) (o : Owner) : Prop :=
  exists t, txn (Server k) o = Some t /\ P t.

Lemma has_upd k (P Q : Transaction -> Prop) f o : (forall t, P t -> Q (f t)) -> has k P o -> has k Q (upd_server k f o).
Proof. intros Hf (t & Ht & Hp). exists (f t). split; [by apply txn_upd_eq|auto]. Qed.
Lemma has_cancel k P key o : has k P o -> has k P (cancel_timer key o).
Proof. intros (t & Ht & Hp). exists t. by rewrite cancel_timer_txn. Qed.
Lemma has_record k P r o :
  (forall t tag, P t -> P (t <| tx_final_to_tag := tag |>)) -> has k P o -> has k P (record_uas_tag k r o).
Proof.
  intros HP Hh. unfold record_uas_tag. destruct (rs_to_tag r); [|done]. destruct (servers o !! k); [|done].
  destruct (_ || _); [done|]. by apply (has_upd k P P _ o (fun t => HP t (Some s))).
Qed.
Lemma has_hold k (P : Transaction -> Prop) why left o :
  (forall t x y, P t -> P (t <| tx_lifetime ::= x |> <| tx_cleanup_key := y |>)) ->
  has k P o -> has k P (hold_for (Server k) why left o).
Proof.
  intros HP (t & Ht & Hp). unfold hold_for. rewrite Ht. unfold arm_deadline. rewrite (txn_upd_eq _ _ _ _ Ht).
  set (o1 := upd (Server k) _ o). assert (txn (Server k) o1 = Some _) as H1 by (by apply txn_upd_eq).
  destruct (insert_at _ _ _) as [key o2] eqn:Hi.
  assert (txn (Server k) o2 = Some (t <| tx_lifetime ::= fun l => lt_held l why (from_now left o) |>
                                         <| tx_cleanup_key := None |>)) as H2.
  { injection Hi as _ <-. transitivity (txn (Server k) (upd (Server k) (fun t => t <| tx_cleanup_key := None |>) o1)).
    - by destruct (tx_cleanup_key _).
    - by rewrite (txn_upd_eq _ _ _ _ H1). }
  eexists. split; [by apply txn_upd_eq|]. exact (HP t _ (Some key) Hp).
Qed.

(** ** Finals *)

Definition can_retransmit (t : Transaction) : Prop :=
  is_active (tx_state t) = false /\ ~ holds_final t /\ tx_retransmit_key t = None.

Lemma inv_fire_server_retransmit k o :
  (forall t, servers o !! k = Some t -> ~ holds_final t /\ tx_retransmit_key t = None) ->
  inv None L D o -> inv None L D (fire_server_retransmit k o).
Proof.
  intros Hk Hi. unfold fire_server_retransmit. destruct (servers o !! k) as [t|] eqn:Ht; [|done].
  destruct (Hk t eq_refl) as [Hh Hr]. destruct (_ && _) eqn:Hc; [|done]. zbool. apply bool_decide_eq_true in H0.
  destruct (tx_last_response t) as [buf|]; [|done]. destruct (tx_destination t) as [dest|]; [|done].
  destruct (tx_last_response_status t); [|done]. apply (inv_send _ _ _ buf dest) in Hi.
  destruct (tx_ladder t); [|done]. destruct (advance _) as [rearm ladder]. set (o1 := upd_server k _ _).
  assert (txn (Server k) o1 = Some _) as Ht1 by (apply txn_upd_eq; exact Ht).
  assert (inv None L D o1) as H1 by (apply inv_keep, Hi; keeps). destruct rearm as [next|]; [|done].
  destruct (arm _ _ _) as [g o2] eqn:Ha. destruct (inv_arm _ _ _ _ _ _ _ _ Ha H1) as [H2 Ht2].
  eapply (inv_rekey _ _ _ _ _ (Server k)); [rewrite Ht2; exact Ht1| | |exact H2].
  - split; simpl; try reflexivity. moved.
  - intros (Hid & H3 & H4 & H5 & H6 & H7). split; [done|]. split_and!; simpl; try done. by rewrite H0.
Qed.

Lemma inv_arm_final k kind status o :
  has k can_retransmit o -> inv None L D o -> inv None L D (arm_final_hold k kind status o).
Proof.
  intros Hs Hi. unfold arm_final_hold. apply (inv_hold _ _ (Server k) (final_hold kind status)) in Hi.
  assert (has k can_retransmit (hold (Server k) (final_hold kind status) o)) as (t & Ht & Hst & Hh & Hr).
  { apply has_hold; [|done]. intros t x y [? []]. by split_and!. }
  set (o1 := hold _ _ o) in *. destruct (_ && _); [|done]. destruct (armed _) as [[ladder first]|]; [|done].
  destruct (arm _ _ o1) as [g o2] eqn:Ha. destruct (inv_arm _ _ _ _ _ _ _ _ Ha Hi) as [H2 Ht2].
  eapply (inv_rekey _ _ _ _ _ (Server k)); [rewrite Ht2; exact Ht| | |exact H2].
  - split; simpl; try reflexivity. moved.
  - intros (Hid & H3 & H4 & H5 & H6 & H7). split; [done|]. split_and!; simpl; try done. by rewrite Hst.
Qed.

(** An active transaction has no final held nor repeated. *)
Lemma active_ready k t : txn_ok (Server k) t -> is_active (tx_state t) = true -> ~ holds_final t /\ tx_retransmit_key t = None.
Proof. intros (_ & _ & _ & _ & Hr & Hh) Ha. split; [|by apply Hr]. intros [Hf _]%Hh. congruence. Qed.
Lemma not_final_active s : final_sent s = false -> is_active s = true.
Proof. by destruct s. Qed.
(** The fields a response writes, no final held nor repeated. *)
Lemma server_ok_state k t t' :
  txn_ok (Server k) t -> ~ holds_final t' -> tx_retransmit_key t' = None ->
  tx_id t' = tx_id t -> tx_timeout_key t' = tx_timeout_key t -> tx_cancel_retransmit_key t' = tx_cancel_retransmit_key t ->
  tx_held_cancel t' = tx_held_cancel t -> txn_ok (Server k) t'.
Proof. intros (Hid & H1 & H2 & H3 & _) Hh Hr E1 E2 E3 E4. split; [congruence|]. by split_and!; try congruence. Qed.

Lemma bind_id r o : id_of_response (bind_to_tag r o) = id_of_response r.
Proof.
  assert (forall tag, id_of_response (default r (retag_response r tag)) = id_of_response r) as Hd.
  { intros tag. destruct (retag_response r tag) eqn:He; [by apply (retag_id r tag)|done]. }
  unfold bind_to_tag. destruct (_ <=? _); [done|]. destruct (bound_for r o) as [tag|tag|]; [| |done];
    (destruct (match rs_to_tag r with Some _ => _ | None => _ end); [apply Hd|]);
    (destruct (rs_to_tag r); [|apply Hd]); [case_decide; [done|apply Hd]|done].
Qed.

Lemma inv_send_response r dest o : inv None L D o -> inv None L D (do_send_response r dest o).2.
Proof.
  intros Hi. unfold do_send_response. destruct (_ && _) eqn:Hg; [done|].
  case_decide as Hm; [by apply inv_send|]. rewrite bind_id. destruct (id_of_response r) as [k|]; [|by apply inv_send].
  simpl in Hg. destruct (servers o !! k) as [t0|] eqn:Ht.
  2: { destruct (_ && _) in |- *; simpl; [done|by apply inv_send]. }
  apply not_final_active in Hg.
  destruct (active_ready k t0 (i_txns _ _ _ _ Hi (Server k) t0 Ht) Hg) as [Hh Hr].
  simpl. apply inv_send. set (o1 := record_uas_tag k _ o).
  assert (inv None L D o1) as H1 by (by apply inv_record_tag).
  assert (has k (fun t => ~ holds_final t /\ tx_retransmit_key t = None) o1) as Hh1.
  { apply has_record; [done|]. by exists t0. }
  set (o2 := upd_server k _ o1). assert (inv None L D o2) as H2.
  { apply inv_keep, H1. destruct Hh1 as (t1 & Ht1 & Hf1 & Hr1). intros t Ht2 Hok. rewrite Ht1 in Ht2. injection Ht2 as <-.
    split; [by repeat split|]. split; [done|]. by apply (server_ok_state k t1). }
  destruct (200 <=? rs_status r) eqn:Hst; [|done]. apply inv_arm_final; [|done].
  apply (has_upd k (fun t => ~ holds_final t /\ tx_retransmit_key t = None)); [|done].
  intros t [Hf Hr2]. split_and!; [|done|done]. simpl. unfold state_after.
  destruct (rs_status r <=? 199) eqn:H199; [zbool; lia|]. by destruct (tx_kind t), (rs_status r <=? 299).
Qed.

Lemma inv_timer_i k o : inv None L D o -> inv None L D (hold_for_timer_i k o).
Proof.
  intros Hi. unfold hold_for_timer_i. destruct (servers o !! k) as [t|] eqn:Ht; [|done].
  apply inv_detach, inv_hold. eapply (inv_cancel _ _ _ _ (ServerRetransmit k)); [eauto|done|].
  eapply (inv_rekey _ _ _ _ _ (Server k)); [exact Ht| | |exact Hi]; [split; simpl; try reflexivity; moved|].
  intros (Hid & H3 & H4 & H5 & H6 & H7). split; [done|]. by split_and!.
Qed.

Lemma inv_first_trying k o : inv None L D o -> inv None L D (send_first_trying k o).2.
Proof.
  intros Hi. unfold send_first_trying. destruct (servers o !! k) as [t|] eqn:Ht; [|done].
  destruct (tx_original_request t); [|done]. destruct (tx_destination t); [|done]. destruct (_ && _) eqn:Hc; [|done].
  destruct (generate_response _ _ _ _ _); [|done]. simpl. apply inv_keep; [|by apply inv_send].
  zbool. apply bool_decide_eq_true in H0. intros t' Ht' Hok. assert (t' = t) as -> by (simpl in Ht'; congruence).
  destruct (active_ready k t Hok) as [Hh Hr]; [by rewrite H0|].
  split; [by repeat split|]. split; [done|]. by apply (server_ok_state k t).
Qed.
Lemma inv_fire_trying k opened o : inv None L D o -> inv None L D (fire_trying k opened o).
Proof.
  intros Hi. unfold fire_trying. destruct (servers o !! k); [|done]. case_decide; [by apply inv_first_trying|done].
Qed.

Lemma inv_replay r src o : inv None L D o -> inv None L D (replay_cached r src o).2.
Proof.
  intros Hi. unfold replay_cached. destruct (id_of_request r) as [k|]; [|done]. destruct (holds_cancel k o); [done|].
  destruct (servers o !! k) as [t|]; [|done].
  destruct (tx_last_response t), (tx_last_response_status t); [by apply inv_send|..];
    (destruct (_ && _); [|done]); (destruct (generate_response _ _ _ _ _); [|done]);
    (apply inv_keep; [keeps|by apply inv_send]).
Qed.

Lemma inv_uas_to_tag k o : inv None L D o -> inv None L D (uas_to_tag_of k o).2.
Proof.
  intros Hi. unfold uas_to_tag_of. destruct (_ ≫= _); [done|].
  destruct (match original_to_tag _ with Some _ => _ | None => _ end) as [pinned o1] eqn:Hp. simpl. apply inv_keep.
  - keeps.
  - destruct (original_to_tag _); simplify_eq; [done|framed Hi].
Qed.
Lemma has_uas_to_tag k (P : Transaction -> Prop) o :
  (forall t tag, P t -> P (t <| tx_uas_to_tag := tag |>)) -> has k P o -> has k P (uas_to_tag_of k o).2.
Proof.
  intros HP Hh. unfold uas_to_tag_of. destruct (_ ≫= _); [done|].
  destruct (match original_to_tag _ with Some _ => _ | None => _ end) as [pinned o1] eqn:Hp. simpl.
  apply (has_upd k P P); [intros t; apply HP|]. destruct (original_to_tag _); simplify_eq; [done|exact Hh].
Qed.

(** ** A CANCEL *)

Lemma inv_send_opt m o : inv None L D o -> inv None L D (send_opt m o).
Proof. intros Hi. destruct m as [[]|]; [by apply inv_send|done]. Qed.
Lemma has_send k P b d o : has k P o -> has k P (send_buffer b d o).
Proof. done. Qed.
Lemma has_send_opt k P m o : has k P o -> has k P (send_opt m o).
Proof. by destruct m as [[]|]. Qed.

Lemma inv_hold_answers k ha ok term o :
  has k (fun t => tx_retransmit_key t = None /\ (is_Some term -> is_active (tx_state t) = false)) o ->
  inv None L D o -> inv None L D (hold_cancel_answers k ha ok term o).
Proof.
  intros (t & Ht & Hr & Hst) Hi. unfold hold_cancel_answers. simpl in Ht. rewrite Ht.
  apply inv_insert_unkeyed; [done|]. set (o1 := upd_server k _ o). assert (inv None L D o1) as H1; [|framed H1].
  apply inv_keep, Hi. intros t' Ht' (Hid & H3 & H4 & H5 & _). simpl in Ht'. rewrite Ht in Ht'. injection Ht' as <-.
  split; [by repeat split|]. split; [done|]. split; [done|]. split_and!; simpl; try done.
  intros (h & [= <-] & Hs). by split; [apply Hst|].
Qed.

Lemma inv_send_held k o : inv None L D o -> inv None L D (send_held_cancel k o).2.
Proof.
  intros Hi. unfold send_held_cancel. destruct (servers o !! k) as [t|] eqn:Ht; simpl; [|done].
  destruct (tx_unsent_cancel t) as [h|] eqn:Hh; simpl; [|done].
  set (o1 := upd_server k _ o). assert (inv None L D o1) as H1.
  { apply inv_keep, Hi. keeps. destruct Hok as (Hid & H3 & H4 & H5 & H6 & _). split; [done|]. split_and!; try done.
    intros (h' & Hn & _). done. }
  set (o2 := o1 <| held_cancels ::= _ |>). assert (inv None L D o2) as H2 by framed H1.
  apply (inv_send_opt (uc_cancel_ok h)) in H2. destruct (uc_terminated h) as [[buf dest]|] eqn:Hu; [|done].
  apply inv_arm_final; [|by apply inv_send]. apply has_send, has_send_opt.
  destruct (i_txns _ _ _ _ Hi (Server k) t Ht) as (_ & _ & _ & _ & _ & Hf).
  destruct Hf as [Hst Hr]; [exists h; rewrite Hu; eauto|].
  exists (t <| tx_unsent_cancel := None |>). split; [exact (txn_upd_eq (Server k) _ o t Ht)|]. split_and!; [done| |done].
  intros (h' & Hn & _). done.
Qed.
Lemma inv_release_held ha o : inv None L D o -> inv None L D (release_held_cancel ha o).2.
Proof. intros Hi. unfold release_held_cancel. destruct (held_cancels o !! ha); [by apply inv_send_held|done]. Qed.
Lemma inv_fire_cancel_bound k opened o : inv None L D o -> inv None L D (fire_cancel_bound k opened o).
Proof.
  intros Hi. unfold fire_cancel_bound. destruct (servers o !! k); [|done]. case_decide; [|done].
  apply (inv_send_held k) in Hi. destruct (send_held_cancel k o) as [[] o1]; [by apply inv_told|done].
Qed.
Lemma inv_waive k o : inv None L D o -> inv None L D (waive_held_final k o).
Proof.
  apply inv_keep. keeps. destruct Hok as (Hid & H3 & H4 & H5 & H6 & H7). split; [done|]. split_and!; try done.
  intros (h & Hh & Ht). simpl in Hh. destruct (tx_unsent_cancel t') as [h'|]; [|done]. injection Hh as <-. simpl in Ht. by destruct Ht.
Qed.
Lemma inv_flush_owed o : inv None L D o -> inv None L D (flush_owed_sends o).
Proof.
  intros Hi. unfold flush_owed_sends. apply (foldl_keeps (inv None L D)); [|framed Hi]. intros o1 m. apply inv_send.
Qed.

Lemma cancelled_pick via pick o k :
  cancelled_invite via pick o = Some k -> exists t, servers o !! k = Some t /\ pick t = true.
Proof.
  unfold cancelled_invite. destruct (cancelled_invite_id via) as [k'|]; simpl; [|done].
  destruct (servers o !! k') as [t|] eqn:Ht; simpl; [|done]. destruct (pick t) eqn:Hp; [|done].
  intros [= <-]. eauto.
Qed.

Definition unanswered (t : Transaction) : Prop :=
  is_active (tx_state t) = true /\ ~ holds_final t /\ tx_retransmit_key t = None.

(** The 487 an INVITE takes, sent or held. *)
Lemma inv_terminate k r dest (hold : bool) o :
  has k unanswered o -> inv None L D o ->
  let o1 := if hold then o else send_buffer (rs_image r) dest o in
  let o1 := upd_server k (fun t => t <| tx_state := Completed |> <| tx_last_response := Some (rs_image r) |>
              <| tx_last_response_status := Some 487 |> <| tx_original_request := None |>) (record_uas_tag k r o1) in
  let o1 := if hold then o1 else arm_final_hold k KInvite 487 o1 in
  inv None L D o1 /\ (hold = true -> has k can_retransmit o1).
Proof.
  intros Hh Hi. cbv zeta. set (o0 := if hold then o else _).
  assert (inv None L D o0 /\ has k unanswered o0) as [H0 Hh0] by (unfold o0; destruct hold; split; [done..|by apply inv_send|done]).
  apply (inv_record_tag _ _ k r) in H0. apply (has_record _ _ r) in Hh0; [|done].
  set (o1 := upd_server k _ _). assert (has k can_retransmit o1) as Hc1.
  { apply (has_upd k unanswered); [|done]. intros t (_ & Hf & Hr). by split_and!. }
  assert (inv None L D o1) as H1.
  { apply inv_keep, H0. destruct Hh0 as (t & Ht & Ha & Hf & Hr). intros t' Ht' Hok. rewrite Ht in Ht'. injection Ht' as <-.
    split; [by repeat split|]. split; [done|]. by apply (server_ok_state k t). }
  destruct hold; [done|]. split; [by apply inv_arm_final|done].
Qed.

Lemma inv_handle_cancel r src datagram o : inv None L D o -> inv None L D (handle_cancel r src datagram o).2.
Proof.
  intros Hi. unfold handle_cancel. on_option as k Hk.
  2: { on_option as k' Hk'; [done|]. on_option as k Hk''.
       - apply (inv_uas_to_tag k) in Hi. destruct (uas_to_tag_of k o) as [tag o1]. simpl in *.
         destruct (generate_response r _ _ _ _); [by apply inv_send|done].
       - destruct datagram; [by apply inv_emit|done]. }
  apply cancelled_pick in Hk as (t & Ht & Hp). apply andb_true_iff in Hp as [_ Ha].
  destruct (active_ready k t (i_txns _ _ _ _ Hi (Server k) t Ht) Ha) as [Hf Hr].
  assert (has k unanswered o) as Hh by (exists t; by split_and!).
  destruct (match servers o !! k ≫= tx_original_request with Some _ => _ | None => _ end) as [cseq in_dialog].
  apply (inv_uas_to_tag k) in Hi. apply (has_uas_to_tag k) in Hh; [|done].
  destruct (uas_to_tag_of k o) as [to_tag o1]. simpl in Hi, Hh |- *. apply inv_emit_critical.
  set (hold := 0 <? cancel_bound_ms). set (ok := _ <$> generate_response r 200 _ _ _).
  set (o2 := if hold then o1 else send_opt ok o1).
  assert (inv None L D o2 /\ has k unanswered o2) as [H2 Hh2].
  { unfold o2. destruct hold; [done|]. split; [by apply inv_send_opt|by apply has_send_opt]. }
  destruct (_ ≫= fun q => _) as [m|].
  - destruct (inv_terminate k m (default (stamped_destination (rq_via r) src) (servers o2 !! k ≫= tx_destination)) hold o2 Hh2 H2)
      as [H3 Hc3]. cbv zeta in H3, Hc3. destruct hold; [|done]. apply inv_hold_answers; [|done].
    destruct (Hc3 eq_refl) as (t3 & Ht3 & Hs3 & _ & Hr3). exists t3. by split_and!.
  - destruct hold; [|done]. apply inv_hold_answers; [|done]. destruct Hh2 as (t2 & Ht2 & _ & _ & Hr2).
    exists t2. split_and!; [done..|]. by intros [].
Qed.

(** ** Requests *)

Lemma inv_inbound_ack k r src o : inv None L D o -> inv None L D (inbound_ack k r src o).
Proof.
  intros Hi. 
  assert (inv None L D (if decide (rq_to_tag r = None) then o
                        else let '(acked, o) := acknowledges_refusal r o in
                             if acked || acknowledges_own_final r then o else hand_up r src (rq_image r) o)) as Hu.
  { case_decide; [done|]. apply (inv_ack_refusal _ _ r) in Hi.
    destruct (acknowledges_refusal r o) as [acked o1]. simpl in Hi. destruct (_ || _); [done|by apply inv_emit]. }
  unfold inbound_ack. destruct (servers o !! k) as [t|]; [|done]. destruct (decide (tx_kind t = KInvite)); [|done]. destruct (tx_state t); try done.
  - destruct (tx_last_response_status t); [|done]. destruct (_ <=? _); [by apply inv_timer_i|done].
  - by apply inv_emit, inv_detach.
Qed.

Lemma inv_admit_request r src datagram o : inv None L D o -> inv None L D (admit_request r src datagram o).
Proof.
  intros Hi. unfold admit_request. destruct (id_of_request _) as [k|]; [|done].
  set (invite := bool_decide (rq_method r = MInvite)).
  destruct (if invite then judge_new_invite _ _ _ else _) as [judged o1] eqn:Hj. assert (inv None L D o1) as H1.
  { destruct invite; [|by simplify_eq].
    apply (inv_judge _ _ (stamp_request r src) (stamped_destination (rq_via r) src)) in Hi. by rewrite Hj in Hi. }
  destruct judged as [held|]; [|done]. set (o2 := open_txn_with _ _ _).
  assert (inv None L D o2) as H2 by (by apply inv_open_plain). destruct invite.
  - apply inv_emit_critical. destruct (servers o2 !! k); [by apply inv_insert_unkeyed|done].
  - pose proof (inv_emit _ _ (EvMessage (Request (stamp_request r src)) src false datagram) _ H2) as H3.
    destruct (emit _ o2) as [taken o3]. simpl in H3. destruct taken; [done|by apply inv_delete].
Qed.

Lemma inv_inbound_request r src o : inv None L D o -> inv None L D (handle_inbound_request r src o).
Proof.
  intros Hi. unfold handle_inbound_request. destruct (id_of_request r) as [k|]; [|by apply inv_emit].
  case_decide; [by apply inv_inbound_ack|]. case_decide; [by apply inv_handle_cancel|].
  apply (inv_replay r src) in Hi. destruct (replay_cached r src o) as [absorbed o1]. simpl in Hi.
  destruct absorbed; [done|]. destruct (_ && _); [by apply inv_emit_keepalive|by apply inv_admit_request].
Qed.

(** ** Requests no answer will come for *)

Lemma inv_forget_unanswered k c f o : inv None L D o -> inv None L D (forget_unanswered k c f o).
Proof.
  intros Hi. unfold forget_unanswered. destruct (servers o !! k); [|done]. destruct (_ && _); [by apply inv_delete|done].
Qed.
Lemma inv_delete_all ids o : inv None L D o -> inv None L D (delete_all ids o).2.
Proof.
  intros Hi. unfold delete_all. apply (foldl_keeps (fun p : nat * Owner => inv None L D p.2)); [|done].
  intros [n o1] id H1. simpl in H1. apply (inv_delete _ _ id) in H1. by destruct (delete_txn id o1).
Qed.
Lemma inv_forget_of_call cr o : inv None L D o -> inv None L D (forget_unanswered_of_call cr o).2.
Proof. apply inv_delete_all. Qed.
Lemma inv_answer_unanswered cr status reason o :
  inv None L D o -> inv None L D (answer_unanswered_invites_of_call cr status reason o).2.
Proof.
  intros Hi. unfold answer_unanswered_invites_of_call.
  apply (foldl_keeps (fun p : nat * Owner => inv None L D p.2)); [|done]. intros [n o1] [[k q] source] H1. simpl in H1.
  destruct (or_else _ _) as [dest|]; [|done]. apply (inv_uas_to_tag k) in H1.
  destruct (uas_to_tag_of k o1) as [tag o2]. simpl in H1. destruct (generate_response _ _ _ _ _); [|done].
  by apply inv_send_response.
Qed.

End server.

#[export] Hint Resolve inv_send_response inv_handle_cancel inv_inbound_request inv_forget_unanswered inv_delete_all
  inv_forget_of_call inv_answer_unanswered inv_first_trying inv_release_held inv_waive inv_flush_owed inv_fire_trying
  inv_fire_cancel_bound : txn_inv.
