(* ===== verification/TxnInvTurn.v ===== *)
(** * Transactions: the invariant holds after every turn *)

From S2P Require Import Prelude Retransmit SipClock TxnData TxnOwner TxnClient TxnServer TxnTurn TxnInv TxnInvOps TxnInvClient TxnInvServer.

Open Scope Z_scope.

(** What a command carries of a machine width: a bound is a [u64]. *)
Definition seed_wf (s : TxnSeed) : Prop :=
  match s with
  | ClientRejected _ _ ms | ClientNonInvite _ _ ms | ServerNonInviteAnswered _ _ ms _ => 0 <= ms
  | ServerRejected _ _ _ (Some ms) => 0 <= ms
  | _ => True
  end.
Definition work_wf (w : Work) : Prop :=
  match w with WCommand (Seed _ seeds) => Forall seed_wf seeds | _ => True end.

Section turn.
Context `{E : TxnEnv} {W : TxnEnvLaws E} (L : loose_keys) (D : Z).

(** ** Seeds *)

Lemma inv_seeded_identity k o : inv None L D o -> inv None L D (hold_seeded_identity k o).
Proof.
  intros Hi. unfold hold_seeded_identity. destruct (refusals o) as [m|]; [|done].
  destruct (servers o !! k) as [t|]; [|done].
  assert (inv None L D (upd_server k (fun t => t <| tx_held := true |>) o)) as H1 by (apply inv_keep, Hi; keeps).
  framed H1.
Qed.
Lemma has_seeded_identity k P o :
  (forall t, P t -> P (t <| tx_held := true |>)) -> has k P o -> has k P (hold_seeded_identity k o).
Proof.
  intros HP Hh. unfold hold_seeded_identity. destruct (refusals o); [|done]. destruct (servers o !! k); [|done].
  by apply (has_upd k P P _ o HP).
Qed.

(** No final held nor repeated. *)
Definition free (t : Transaction) : Prop := ~ holds_final t /\ tx_retransmit_key t = None.

Lemma inv_take_final k st r o :
  has k free o -> inv None L D o -> inv None L D (take_final k st r o).
Proof.
  intros (t & Ht & Hf & Hr) Hi. apply inv_keep, Hi. intros t' Ht' Hok. rewrite Ht in Ht'. injection Ht' as <-.
  split; [by repeat split|]. split; [done|]. by apply (server_ok_state k t).
Qed.
Lemma has_take_final k st r o :
  is_active st = false -> has k free o -> has k can_retransmit (take_final k st r o).
Proof. intros Hst. apply has_upd. intros t [Hf Hr]. by split_and!. Qed.

Lemma active_free k o t :
  inv None L D o -> servers o !! k = Some t -> is_active (tx_state t) = true -> has k free o.
Proof. intros Hi Ht Ha. exists t. split; [done|]. exact (active_ready k t (i_txns _ _ _ _ Hi (Server k) t Ht) Ha). Qed.
Lemma open_free k head finish o :
  nt_id head = Server k -> (forall n l, tx_id (finish (txn_new head l n)) = nt_id head) ->
  (forall n l, tx_unsent_cancel (finish (txn_new head l n)) = None /\ tx_retransmit_key (finish (txn_new head l n)) = None) ->
  has k free (open_txn_with head finish o).
Proof.
  intros Hk Hid Hf. destruct (txn_open (Server k) head finish o Hk Hid) as (key & l & Ht). eexists. split; [exact Ht|].
  destruct (Hf (now o) l) as [Hu Hr]. split; [|exact Hr]. intros (h & Hh & _). simpl in Hh. congruence.
Qed.

Lemma inv_seed_server_invite cr q tag prov leg o :
  inv None L D o -> inv None L D (seed_server_invite cr q tag prov leg o).2.
Proof.
  intros Hi. unfold seed_server_invite. destruct (id_of_request q) as [k|]; [|done]. destruct (servers o !! k); [done|].
  set (o1 := hold_seeded_identity k _). assert (inv None L D o1) as H1 by (by apply inv_seeded_identity, inv_open_plain).
  destruct prov as [p|]; [|done]. simpl. set (o2 := upd_server k _ o1).
  assert (inv None L D o2) as H2 by (apply inv_keep, H1; keeps). destruct (response_destination _); [by apply inv_send|done].
Qed.

Lemma inv_accept_server k r o : has k free o -> inv None L D o -> inv None L D (accept_server k r o).
Proof.
  intros Hh Hi. apply inv_hold, inv_take_final; [|by apply inv_record_tag]. by apply has_record.
Qed.
Lemma inv_seed_accepted cr r leg o : inv None L D o -> inv None L D (seed_accepted cr r leg o).2.
Proof.
  intros Hi. unfold seed_accepted. destruct (id_of_response r) as [k|]; [|done].
  destruct (servers o !! k) as [t|] eqn:Ht.
  - destruct (is_active _) eqn:Ha; [|done]. simpl. pose proof (active_free k o t Hi Ht Ha) as Hh.
    apply (inv_accept_server k r) in Hi; [|done].
    destruct (tx_destination t); [|done]. destruct (tx_seeded t); [done|by apply inv_send].
  - simpl. apply inv_accept_server; [|by apply inv_seeded_identity, inv_open_plain].
    apply has_seeded_identity; [done|]. by apply open_free.
Qed.

Lemma inv_seed_rejected cr r dest leg ms o :
  seed_wf (ServerRejected r dest leg ms) -> inv None L D o -> inv None L D (seed_rejected cr r dest leg ms o).2.
Proof.
  intros Hms Hi. unfold seed_rejected. destruct (id_of_response r) as [k|]; [|done].
  assert (forall occ o, has k free o -> inv None L D o ->
    inv None L D (match occ with Some source => send_buffer (rs_image r) source | None => fun o => o end
      (match ms with Some ms => hold_for (Server k) HTimerH ms | None => fun o => o end
        (arm_final_hold k KInvite (rs_status r)
          (match occ with Some source => upd_server k (fun t => t <| tx_destination := Some source |>) | None => fun o => o end
            (take_final k Completed r (record_uas_tag k r o))))))) as Hfin.
  { clear o Hi. intros occ o Hh Hi. apply (has_record _ _ r) in Hh; [|done]. apply (inv_record_tag _ _ k r) in Hi.
    pose proof (has_take_final k Completed r _ eq_refl Hh) as Hc. apply (inv_take_final k Completed r) in Hi; [|done].
    set (o1 := take_final _ _ _ _) in *. set (o2 := match occ with Some _ => _ | None => _ end o1).
    assert (inv None L D o2 /\ has k can_retransmit o2) as [H2 Hc2].
    { unfold o2. destruct occ; [|done]. split; [apply inv_keep, Hi; keeps|]. by apply (has_upd k can_retransmit). }
    apply (inv_arm_final _ _ k KInvite (rs_status r)) in H2; [|done].
    assert (inv None L D (match ms with Some ms => hold_for (Server k) HTimerH ms | None => fun o => o end
                            (arm_final_hold k KInvite (rs_status r) o2))) as H3.
    { destruct ms; [|done]. by apply inv_hold_for. }
    destruct occ; [by apply inv_send|done]. }
  destruct (servers o !! k) as [t|] eqn:Ht.
  - destruct (is_active _) eqn:Ha; [|done].
    pose proof (Hfin (Some (default dest (tx_destination t))) o (active_free k o t Hi Ht Ha) Hi) as H. by destruct ms.
  - set (o1 := hold_seeded_identity k _). assert (inv None L D o1) as H1 by (by apply inv_seeded_identity, inv_open_plain).
    assert (has k free o1) as Hh by (apply has_seeded_identity; [done|by apply open_free]).
    pose proof (Hfin None o1 Hh H1) as H. by destruct ms.
Qed.

Lemma inv_seed_held b c dest o :
  (forall t, clients o !! b = Some t -> tx_held_cancel t = None) ->
  inv None L D o -> inv None L D (seed_held_cancel b c dest o).
Proof.
  intros Hn Hi. unfold seed_held_cancel. destruct (clients o !! b) as [t|] eqn:Ht; [|done]. specialize (Hn t eq_refl).
  apply inv_release_seed, inv_more_held.
  eapply (inv_rekey _ _ _ _ _ (Client b)); [exact Ht| | |exact Hi].
  - split; simpl; try reflexivity; [moved|]. rewrite Hn. simpl. lia.
  - intros [Hid [Hs _]]. split; [done|]. split; [done|]. intros _ h [= <-]. done.
Qed.

Lemma inv_seed_client_invite cr q dest prov c o :
  inv None L D o -> inv None L D (seed_client_invite cr q dest prov c o).2.
Proof.
  intros Hi. unfold seed_client_invite. destruct (filled _) as [b|]; [|done]. destruct (clients o !! b); [done|].
  destruct (arm _ _ o) as [bound o1] eqn:Ha. destruct (inv_arm _ _ _ _ _ _ _ _ Ha Hi) as [H1 _]. cbn [snd].
  set (head := request_head _ _ _ _ _ _ _ _ _ _).
  set (finish := fun t : Transaction => t <| tx_timeout_kind := _ |> <| tx_timeout_key := _ |> <| tx_seed_resend := _ |>).
  assert (inv None L D (open_txn_with head finish o1)) as H2.
  { apply (inv_open ((Some bound, ClientTimeout b) :: L)); [|done]. intros n l. split_and!; try done.
    intros [] k ?; simpl; repeat case_decide; simplify_eq; unfold cnt; simpl; lia. }
  assert (forall t, txn (Client b) (open_txn_with head finish o1) = Some t -> tx_held_cancel t = None) as Hn.
  { destruct (txn_open (Client b) head finish o1) as (key & l & Ht); [done..|].
    intros t. rewrite Ht. by intros [= <-]. }
  revert H2 Hn. generalize (open_txn_with head finish o1). intros o2 H2 Hn.
  apply inv_release_seed. destruct c as [c|]; [|done]. by apply inv_seed_held.
Qed.

Lemma inv_seed_client_rejected cr q dest ms o :
  0 <= ms -> inv None L D o -> inv None L D (seed_client_rejected cr q dest ms o).2.
Proof.
  intros Hms Hi. unfold seed_client_rejected. destruct (filled _) as [b|]; [|done]. destruct (clients o !! b); [done|].
  by apply inv_hold_for, inv_open_plain.
Qed.

Lemma inv_seed_client_non_invite cr q dest ms o :
  inv None L D o -> inv None L D (seed_client_non_invite cr q dest ms o).2.
Proof.
  intros Hi. unfold seed_client_non_invite. destruct (filled _) as [b|]; [|done]. destruct (clients o !! b); [done|].
  destruct (client_timeout _ _) as [f kind]. set (head := request_head _ _ _ _ _ _ _ _ _ _). simpl.
  apply inv_send, inv_start_retransmit; [|by apply inv_open_plain].
  destruct (txn_open (Client b) head (fun t => t) o) as (k & l & Ht); [done..|]. intros t Ht'.
  change (txn (Client b) (open_txn_with head (fun t => t) o) = Some t) in Ht'. rewrite Ht in Ht'. by injection Ht' as <-.
Qed.

Lemma inv_seed_server_non_invite cr q leg o : inv None L D o -> inv None L D (seed_server_non_invite cr q leg o).2.
Proof.
  intros Hi. unfold seed_server_non_invite. destruct (id_of_request q) as [k|]; [|done].
  destruct (servers o !! k); [done|]. by apply inv_open_plain.
Qed.

Lemma inv_seed_answered cr r dest ms leg o :
  0 <= ms -> inv None L D o -> inv None L D (seed_answered_non_invite cr r dest ms leg o).2.
Proof.
  intros Hms Hi. unfold seed_answered_non_invite. destruct (id_of_response r) as [k|].
  2: { by destruct (rs_method r). }
  assert (forall m, inv None L D
     (match servers o !! k with
      | Some t => if is_active (tx_state t)
                  then (true, send_buffer (rs_image r) (default dest (tx_destination t))
                                (hold_for (Server k) HTimerJ ms (take_final k Completed r o)))
                  else (false, o)
      | None => (true, send_buffer (rs_image r) (default dest (response_destination (rs_via r)))
                  (hold_for (Server k) HTimerJ ms (take_final k Completed r (hold_seeded_identity k
                     (open_txn (response_head (Server k) KNonInvite m r (Some cr) leg Completed
                                  (Some (default dest (response_destination (rs_via r))))) o)))))
      end).2) as Hall.
  { intros m. destruct (servers o !! k) as [t|] eqn:Ht.
    - destruct (is_active _) eqn:Ha; [|done]. apply inv_send, inv_hold_for, inv_take_final; [done| |done].
      by apply (active_free k o t).
    - apply inv_send, inv_hold_for, inv_take_final; [done| |by apply inv_seeded_identity, inv_open_plain].
      apply has_seeded_identity; [done|by apply open_free]. }
  destruct (rs_method r); first [done|apply Hall].
Qed.

Lemma inv_seed_one cr s o : seed_wf s -> inv None L D o -> inv None L D (seed_one cr s o).2.
Proof.
  intros Hs Hi. destruct s; simpl.
  - apply (inv_seed_client_invite cr invite dest provisional cancel) in Hi.
    destruct (seed_client_invite _ _ _ _ _ _) as [w o1]. simpl in *. destruct (_ && _); [by apply inv_send_opt|done].
  - by apply inv_seed_client_rejected.
  - by apply inv_seed_server_invite.
  - by apply inv_seed_accepted.
  - by apply inv_seed_rejected.
  - by apply inv_seed_client_non_invite.
  - by apply inv_seed_server_non_invite.
  - by apply inv_seed_answered.
Qed.
Lemma inv_do_seed cr seeds o : Forall seed_wf seeds -> inv None L D o -> inv None L D (do_seed cr seeds o).2.
Proof.
  unfold do_seed. generalize O. intros n Hs. revert n o. induction Hs as [|s seeds Hs _ IH]; intros n o Hi; simpl; [done|].
  apply (inv_seed_one cr s) in Hi; [|done]. destruct (seed_one cr s o) as [w o1]. by apply IH.
Qed.

Lemma inv_reoffer m src o : inv None L D o -> inv None L D (do_reoffer m src o).2.
Proof.
  intros Hi. destruct m; simpl; [|by apply inv_inbound_response]. case_decide; [by apply inv_handle_cancel|done].
Qed.

(** ** Commands *)

Lemma inv_relinquish_call cr o : inv None L D o -> inv None L D (relinquish_call cr o).2.
Proof.
  intros Hi. unfold relinquish_call. set (o1 := o <| self_release_watch ::= _ |>).
  assert (inv None L D o1) as H1 by framed Hi. apply inv_delete_all, (foldl_keeps (inv None L D)); [intros; by apply inv_waive|].
  apply (foldl_keeps (inv None L D)); [intros; by apply inv_held_ack|done].
Qed.

Lemma inv_command c o : work_wf (WCommand c) -> inv None L D o -> inv None L D (handle_command c o).
Proof.
  intros Hw Hi. destruct c; simpl; try done.
  - by apply inv_do_send.
  - by apply inv_send_response.
  - by apply inv_send.
  - by apply inv_do_seed.
  - by apply inv_reoffer.
  - by apply inv_cancel_txns.
  - by apply inv_relinquish_call.
  - by apply inv_delete, inv_waive.
  - by apply inv_delete, inv_held_ack.
  - by apply inv_delete_all.
  - by apply inv_forget_of_call.
  - by apply inv_answer_unanswered.
  - by apply inv_release_held.
  - by apply inv_held_ack.
  - by apply inv_first_trying.
  - destruct (has_txns_for _ _); [framed Hi|by apply inv_notify].
Qed.

(** ** Timers *)

(** The entry of a timer whose key no transaction stores, gone. *)
Lemma inv_fired_unkeyed key due tm o :
  timers o !! key = Some (due, tm) -> timer_owner tm = None -> tm <> EventRetry ->
  inv None L D o -> inv None L D (o <| timers ::= delete key |>).
Proof.
  intros Hk Hn Hr [Iw Id Ii It Ic [R1 R2]]. constructor; try assumption.
  - intros tm' k Htm. specialize (Iw tm' k Htm).
    change (stored (o <| timers ::= delete key |>) tm') with (stored o tm'). rewrite <- Iw. unfold in_wheel. simpl.
    destruct (decide (k = key)) as [->|]; [|by rewrite lookup_delete_ne]. rewrite lookup_delete_eq, Hk.
    case_decide; [|done]. subst. rewrite Hn in Htm. by destruct Htm.
  - refine (due_cancel None o key due tm Hk _ Id). intros id ->. done.
  - split; [done|]. intros Ha. destruct (R2 Ha) as (k & d & He & Hd). exists k, d. split; [|done]. simpl.
    rewrite lookup_delete_ne; [done|]. intros ->. congruence.
Qed.

End turn.

Section fired.
Context `{E : TxnEnv} {W : TxnEnvLaws E} (D : Z).

(** The entry of a timer whose key a transaction stores: gone from the wheel,
    and the key from its field. *)
Lemma fired_stored key due tm id o :
  timers o !! key = Some (due, tm) -> timer_owner tm = Some id -> inv None [] D o ->
  exists t, txn id o = Some t /\ slot tm t = Some key.
Proof.
  intros Hk Ho Hi. pose proof (wheel_entry o tm key due (i_wheel _ _ _ _ Hi) ltac:(eauto) Hk) as Hs.
  unfold stored in Hs. rewrite Ho in Hs. destruct (txn id o) as [t|]; [eauto|done].
Qed.
Lemma fired_upd id f key o : upd id f (o <| timers ::= delete key |>) = cancel_timer (Some key) (upd id f o).
Proof. by destruct id. Qed.

Lemma inv_fired key due tm id f o t :
  timers o !! key = Some (due, tm) -> timer_owner tm = Some id -> txn id o = Some t -> (forall id, tm <> Cleanup id) ->
  rekey [] [(Some key, tm)] D D id t (f t) -> (txn_ok id t -> txn_ok id (f t)) ->
  inv None [] D o -> inv None [] D (upd id f (o <| timers ::= delete key |>)).
Proof.
  intros Hk Ho Ht Hc Hrk Hok Hi. rewrite fired_upd. eapply (inv_cancel _ _ _ _ tm); [eauto|intros ? ->; by destruct (Hc id0)|].
  by eapply inv_rekey.
Qed.

Lemma inv_fired_cleanup key due id o :
  timers o !! key = Some (due, Cleanup id) -> inv None [] D o ->
  inv None [] D (expire id (upd id (fun t => t <| tx_cleanup_key := None |>) (o <| timers ::= delete key |>))).
Proof.
  intros Hk Hi. destruct (fired_stored key due (Cleanup id) id o Hk eq_refl Hi) as (t & Ht & Hs). simpl in Hs.
  apply (inv_expire_due (Some id)); [by right|]. rewrite fired_upd.
  eapply (inv_cancel _ _ _ _ (Cleanup id)); [eauto|intros ? [= <-]; by left|].
  eapply inv_upd; [exact Ht| |by apply inv_weaken]. intros Hok. split; [|done]. split; simpl; try done.
  - moved.
  - apply (proj1 (i_due _ _ _ _ Hi id t Ht)).
  - by left.
  - by destruct id.
Qed.

Lemma inv_fired_retry key due o :
  timers o !! key = Some (due, EventRetry) -> inv None [] D o ->
  inv None [] D (flush_deferred (o <| timers ::= delete key |> <| event_retry_armed := false |>)).
Proof.
  intros Hk Hi. set (o0 := o <| timers ::= delete key |> <| deferred_events := [] |> <| event_retry_armed := false |>).
  assert (inv None [] D o0) as H0.
  { destruct Hi as [Iw Id Ii It Ic Ir]. constructor; try assumption; [| |by split].
    - intros tm' k Htm. specialize (Iw tm' k Htm). change (stored o0 tm') with (stored o tm'). rewrite <- Iw.
      unfold in_wheel. simpl. destruct (decide (k = key)) as [->|]; [|by rewrite lookup_delete_ne].
      rewrite lookup_delete_eq, Hk. case_decide; [|done]. subst. by destruct Htm.
    - refine (due_cancel None o key due EventRetry Hk _ Id). intros id ?. done. }
  unfold flush_deferred. simpl. destruct (_ && _); [framed H0|]. destruct (flush_loop _ _) as [l q].
  destruct (bool_decide_reflect (l = [])) as [->|]; [framed H0|].
  apply (inv_arm_retry _ _ _ l) in H0. framed H0.
Qed.

Lemma inv_fire_timer key due tm o :
  timers o !! key = Some (due, tm) -> inv None [] D o -> inv None [] D (fire_timer tm (o <| timers ::= delete key |>)).
Proof.
  intros Hk Hi. destruct tm as [b|k|b|b|k op|id|b op|k op|b|]; simpl.
  - destruct (fired_stored key due _ (Client b) o Hk eq_refl Hi) as (t & Ht & Hs). simpl in Hs.
    destruct (i_txns _ _ _ _ Hi _ t Ht) as [_ [Hseed _]]. apply inv_fire_retransmit.
    + intros t' Ht'. change (txn (Client b) (upd (Client b) (fun t => t <| tx_retransmit_key := None |>) o) = Some t') in Ht'.
      rewrite (txn_upd_eq _ _ _ _ Ht) in Ht'. injection Ht' as <-. split; [done|]. simpl.
      destruct (tx_seed_resend t); [|done]. rewrite Hseed in Hs by eauto. done.
    + eapply (inv_fired _ _ _ (Client b)); [exact Hk|done|exact Ht|done| | |done].
      * split; simpl; try reflexivity. moved.
      * intros [? []]. by split_and!.
  - destruct (fired_stored key due _ (Server k) o Hk eq_refl Hi) as (t & Ht & Hs). simpl in Hs.
    destruct (i_txns _ _ _ _ Hi _ t Ht) as (_ & _ & _ & _ & _ & Hf). apply inv_fire_server_retransmit.
    + intros t' Ht'. change (txn (Server k) (upd (Server k) (fun t => t <| tx_retransmit_key := None |>) o) = Some t') in Ht'.
      rewrite (txn_upd_eq _ _ _ _ Ht) in Ht'. injection Ht' as <-. split; [|done].
      intros Hh. change (holds_final t) in Hh. destruct (Hf Hh). congruence.
    + eapply (inv_fired _ _ _ (Server k)); [exact Hk|done|exact Ht|done| | |done].
      * split; simpl; try reflexivity. moved.
      * intros (? & ? & ? & ? & ? & Hh). split; [done|]. split_and!; try done. intros H5. by split; [apply Hh|].
  - destruct (fired_stored key due _ (Client b) o Hk eq_refl Hi) as (t & Ht & Hs). simpl in Hs. apply inv_fire_timeout.
    eapply (inv_fired _ _ _ (Client b)); [exact Hk|done|exact Ht|done| |done|done]. split; simpl; try reflexivity. moved.
  - by eapply inv_fire_first_response, inv_fired_unkeyed.
  - by eapply inv_fire_trying, inv_fired_unkeyed.
  - by apply (inv_fired_cleanup key due).
  - by eapply inv_fire_ack_bound, inv_fired_unkeyed.
  - by eapply inv_fire_cancel_bound, inv_fired_unkeyed.
  - destruct (fired_stored key due _ (Client b) o Hk eq_refl Hi) as (t & Ht & Hs). simpl in Hs.
    apply inv_fire_cancel_retransmit.
    + intros t' Ht'.
      change (txn (Client b) (upd (Client b) (fun t => t <| tx_cancel_retransmit_key := None |>) o) = Some t') in Ht'.
      rewrite (txn_upd_eq _ _ _ _ Ht) in Ht'. by injection Ht' as <-.
    + eapply (inv_fired _ _ _ (Client b)); [exact Hk|done|exact Ht|done| |done|done]. split; simpl; try reflexivity. moved.
  - by apply (inv_fired_retry key due).
Qed.

(** ** Turns *)

Lemma inv_work w o : work_wf w -> inv None [] D o -> inv None [] D (work w o).
Proof.
  intros Hw Hi. destruct w as [k c f|c|key| |m src| | | | | | ]; simpl; try done.
  - by apply inv_forget_unanswered.
  - by apply inv_command.
  - destruct (timers o !! key) as [[due tm]|] eqn:Hk; [|done]. destruct (_ <=? _); [|done]. by apply (inv_fire_timer key due).
  - by apply inv_sweep.
  - destruct m; [by apply inv_inbound_request|by apply inv_inbound_response].
Qed.

Lemma inv_turn w o : work_wf w -> inv None [] D o -> inv None [] D (turn o w).
Proof.
  intros Hw Hi. destruct w; try (by apply inv_flush_quiesce, inv_flush_owed, inv_work); try (simpl; framed Hi).
  destruct Hi as [Iw Id Ii It Ic [R1 R2]]. constructor; try assumption.
  - intros id t Ht. destruct (Id id t Ht) as [Hm Hk]. split; [simpl; lia|exact Hk].
  - split; [done|]. intros Ha. destruct (R2 Ha) as (k & d & Hk & Hd). exists k, d. split; [done|]. simpl. lia.
Qed.

Lemma inv_turns ws o : Forall work_wf ws -> inv None [] D o -> inv None [] D (turns ws o).
Proof. intros Hw. revert o. induction Hw as [|w ws Hw _ IH]; intros o Hi; simpl; [done|]. by apply IH, inv_turn. Qed.

End fired.

Lemma inv_new `{E : TxnEnv} memo gate at_ : inv None [] 0 (owner_new memo gate at_).
Proof.
  assert (forall id, txn id (owner_new memo gate at_) = None) as Hn by (intros []; apply lookup_empty). constructor.
  - intros tm k Htm. unfold in_wheel, stored. simpl. rewrite lookup_empty.
    destruct (timer_owner tm); [by rewrite Hn|done].
  - intros id t. by rewrite Hn.
  - split; [|intros cr c; simpl; by rewrite lookup_empty]. intros cr id. unfold indexed, call_ref_of. simpl.
    by rewrite lookup_empty, Hn.
  - intros id t. by rewrite Hn.
  - unfold cancels_ok, live. simpl. by rewrite map_filter_empty, map_size_empty.
  - by split.
Qed.
