(* ===== verification/TxnWalk.v ===== *)
(** * Transactions: what a handler does to the server transactions and the events

    A handler is a walk of small steps: those that touch neither the server
    transactions nor the events, changes of server transactions, and events
    offered to the output queue.  A relation these steps respect holds across
    any handler. *)

From S2P Require Import Prelude Retransmit SipClock TxnData TxnOwner TxnClient TxnServer TxnTurn TxnInvOps.

Open Scope Z_scope.

Create HintDb walk.

Section walk.
Context `{E : TxnEnv}.

(** [free] says whether server transactions may change on the way. *)
Inductive walk (free : bool) : Owner -> Owner -> Prop :=
  | w_quiet o o' :
      (free = false -> servers o' = servers o) -> event_queue o' = event_queue o ->
      deferred_events o' = deferred_events o -> event_closed o' = event_closed o -> walk free o o'
  | w_offer o e c : walk free o (offer e c o).2
  | w_trans o1 o2 o3 : walk free o1 o2 -> walk free o2 o3 -> walk free o1 o3.

Lemma w_refl f o : walk f o o.
Proof. by apply w_quiet. Qed.

Context (f : bool).

(** One more step. *)
Lemma w_step o o1 o2 : walk f o1 o2 -> walk f o o1 -> walk f o o2.
Proof. intros H1 H2. by apply (w_trans f o o1 o2). Qed.
Ltac quiet := eapply w_step; by apply w_quiet.

Lemma w_client o b g o1 : walk f o o1 -> walk f o (upd_client b g o1).
Proof. quiet. Qed.
Lemma w_upd_client o b g o1 : walk f o o1 -> walk f o (upd (Client b) g o1).
Proof. quiet. Qed.
Lemma w_arm o tm d o1 k o2 : arm tm d o1 = (k, o2) -> walk f o o1 -> walk f o o2.
Proof. intros [= _ <-]. quiet. Qed.
Lemma w_insert o tm d o1 : walk f o o1 -> walk f o (insert_due tm d o1).2.
Proof. quiet. Qed.
Lemma w_cancel o key o1 : walk f o o1 -> walk f o (cancel_timer key o1).
Proof. destruct key; [quiet|done]. Qed.
Lemma w_send o b d o1 : walk f o o1 -> walk f o (send_buffer b d o1).
Proof. quiet. Qed.
Lemma w_count o b o1 : walk f o o1 -> walk f o (count_dropped b o1).
Proof. destruct b; [quiet|done]. Qed.
Lemma w_draws o g o1 : walk f o o1 -> walk f o (o1 <| id_draws ::= g |>).
Proof. quiet. Qed.
Lemma w_held o g o1 : walk f o o1 -> walk f o (o1 <| cancels_held ::= g |>).
Proof. quiet. Qed.
Lemma w_flushed o g o1 : walk f o o1 -> walk f o (o1 <| held_cancels_flushed ::= g |>).
Proof. quiet. Qed.
Lemma w_orphans o g o1 : walk f o o1 -> walk f o (o1 <| orphaned_transactions ::= g |>).
Proof. quiet. Qed.
Lemma w_index o g o1 : walk f o o1 -> walk f o (o1 <| txn_index ::= g |>).
Proof. quiet. Qed.
Lemma w_told o id o1 : walk f o o1 -> walk f o (told_bound id o1).
Proof. unfold told_bound. destruct on_bound; [quiet|done]. Qed.
Lemma w_quiesce o cr o1 : walk f o o1 -> walk f o (quiesce_if_last cr o1).
Proof. unfold quiesce_if_last. destruct (_ && _); [quiet|done]. Qed.
Lemma w_untrack o cr id o1 : walk f o o1 -> walk f o (untrack_call_ref cr id o1).
Proof. unfold untrack_call_ref. destruct cr; [|done]. destruct (txn_index o1 !! _); [quiet|done]. Qed.
Lemma w_emit o e o1 : walk f o o1 -> walk f o (emit e o1).2.
Proof. apply w_step, w_offer. Qed.
Lemma w_emit_critical o e o1 : walk f o o1 -> walk f o (emit_critical e o1).
Proof. apply w_step, w_offer. Qed.

(** ** Client transactions *)

Lemma w_arm_deadline_client o b o1 : walk f o o1 -> walk f o (arm_deadline (Client b) o1).
Proof.
  intros H. unfold arm_deadline. destruct (txn _ o1); [|done]. unfold insert_at. destruct (insert_due _ _ _) as [k o2] eqn:Hi.
  apply w_upd_client. apply (f_equal snd) in Hi. simpl in Hi. subst o2.
  revert H. destruct (tx_cleanup_key _); quiet.
Qed.
Lemma w_hold_client o b why o1 : walk f o o1 -> walk f o (hold (Client b) why o1).
Proof.
  intros H. unfold hold, hold_for. destruct (txn _ o1); [|done]. by apply w_arm_deadline_client, w_upd_client.
Qed.
Lemma w_hold_for_client o b why l o1 : walk f o o1 -> walk f o (hold_for (Client b) why l o1).
Proof.
  intros H. unfold hold_for. destruct (txn _ o1); [|done]. by apply w_arm_deadline_client, w_upd_client.
Qed.
Lemma w_detach_client o b o1 : walk f o o1 -> walk f o (detach_from_call (Client b) o1).
Proof.
  intros H. unfold detach_from_call. destruct (txn _ o1 ≫= _); [|done]. by apply w_quiesce, w_untrack, w_upd_client.
Qed.
Lemma w_settle o b o1 : walk f o o1 -> walk f o (settle_accepted b o1).
Proof.
  intros H. unfold settle_accepted. destruct (_ ≫= _); [|done]. destruct (txn_index o1 !! _); [|done].
  case_decide; [|done]. by apply w_quiesce, w_index.
Qed.
Lemma w_cancel_timers o t o1 : walk f o o1 -> walk f o (cancel_timers t o1).
Proof. intros H. unfold cancel_timers. by do 4 apply w_cancel. Qed.

(** Whether a transaction may come or go. *)
Definition may (id : TxnId) : bool := match id with Client _ => true | Server _ => f end.

Lemma w_delete o id o1 : may id = true -> walk f o o1 -> walk f o (delete_txn id o1).2.
Proof.
  intros Hm H. unfold delete_txn. destruct (txn id o1) as [t|]; [|done]. simpl.
  assert (walk f o (match id with Client b => o1 <| clients ::= delete b |> | Server k => o1 <| servers ::= delete k |> end)) as H1.
  { revert H. destruct id; simpl in Hm; [quiet|]. eapply w_step. apply w_quiet; try done. by rewrite Hm. }
  revert H1. set (o2 := match id with Client _ => _ | Server _ => _ end). generalize o2. clear o2. intros o2 H1.
  assert (walk f o (match tx_id t, bound_to_tag t with
                    | Server _, Some tag => remember_uas_tag (tx_call_id t) (tx_from_tag t) tag o2 | _, _ => o2 end)) as H2
    by (revert H1; destruct (tx_id t), (bound_to_tag t); try done; quiet).
  revert H2. set (o3 := match tx_id t with Client _ => _ | Server _ => _ end). generalize o3. clear o3. intros o3 H2.
  assert (walk f o (match tx_unsent_cancel t with Some h => owe_held_cancel h o3 | None => o3 end)) as H3
    by (revert H2; destruct (tx_unsent_cancel t); try done; quiet).
  assert (forall o4, walk f o o4 -> walk f o (if tx_held t then release_hold (txn_branch t) (tx_call_id t) (tx_from_tag t) o4 else o4)) as H4
    by (intros o4; destruct (tx_held t); try done; quiet).
  assert (forall o5, walk f o o5 ->
            walk f o (if tx_orphaned t then o5 <| orphaned_transactions ::= fun n => u64_wrap (n - 1) |> else o5)) as H5
    by (intros o5; destruct (tx_orphaned t); try done; quiet).
  destruct (tx_call_ref t); [apply w_quiesce|]; by apply w_count, H5, H4, w_untrack, w_cancel_timers.
Qed.

Lemma w_set_txn o t o1 : may (tx_id t) = true -> walk f o o1 -> walk f o (set_txn t o1).
Proof.
  intros Hm H. rewrite set_txn_split. unfold track_call_ref.
  assert (walk f o (put t o1)) as H0.
  { revert H. unfold put. destruct (tx_id t); simpl in Hm; [quiet|]. eapply w_step. apply w_quiet; try done. by rewrite Hm. }
  assert (walk f o (put t match txn (tx_id t) o1 with
           | Some old => count_dropped (held_wire (tx_held_cancel old))
                           (untrack_call_ref (tx_call_ref old) (tx_id t) (cancel_timers old (remove (tx_id t) o1)))
           | None => o1
           end)) as H1.
  { destruct (txn (tx_id t) o1) as [old|]; [|done]. unfold cancel_timers.
    rewrite put_count, put_untrack, !put_cancel, put_remove. by apply w_count, w_untrack, w_cancel, w_cancel, w_cancel, w_cancel. }
  destruct (tx_call_ref t); [by apply w_index|done].
Qed.
Lemma w_open o head fin o1 :
  (forall l n, tx_id (fin (txn_new head l n)) = nt_id head) -> may (nt_id head) = true ->
  walk f o o1 -> walk f o (open_txn_with head fin o1).
Proof.
  intros Hid Hm H. unfold open_txn_with, insert_at. destruct (insert_due _ _ _) as [k o2] eqn:Hi.
  apply w_set_txn; [simpl; by rewrite Hid|]. apply (f_equal snd) in Hi. simpl in Hi. subst o2. revert H. quiet.
Qed.

End walk.

#[export] Hint Resolve w_refl w_client w_upd_client w_cancel w_send w_count w_draws w_held w_flushed w_orphans w_told
  w_quiesce w_untrack w_emit w_emit_critical w_hold_client w_hold_for_client w_detach_client w_settle w_insert w_delete
  w_cancel_timers : walk.
#[export] Hint Extern 3 (walk _ _ ?o) =>
  match goal with H : arm _ _ _ = (_, o) |- _ => apply (w_arm _ _ _ _ _ _ _ H) end : walk.

(** Case analysis on what a handler matches, then its steps. *)
Ltac cases :=
  repeat match goal with
  | |- walk _ _ (match ?x with _ => _ end) => destruct x eqn:?
  | |- walk _ _ (match ?x with _ => _ end).2 => destruct x eqn:?
  | |- walk _ _ (let '(_, _) := ?x in _) => destruct x eqn:?
  | |- walk _ _ (upd_client _ _ (match ?x with _ => _ end)) => destruct x eqn:?
  end.
Ltac walks := intros; cases; simpl in *; auto 12 with walk.

Section client.
Context `{E : TxnEnv} (f : bool).

Lemma w_release_seed o b o1 : walk f o o1 -> walk f o (release_seed_resend b o1).
Proof. unfold release_seed_resend. walks. Qed.
Lemma w_arm_cancel o b o1 : walk f o o1 -> walk f o (arm_cancel_retransmit b o1).
Proof. unfold arm_cancel_retransmit. walks. Qed.
Lemma w_fire_cancel o b o1 : walk f o o1 -> walk f o (fire_cancel_retransmit b o1).
Proof. unfold fire_cancel_retransmit. walks. Qed.
Lemma w_start o b buf d ms k o1 : walk f o o1 -> walk f o (start_client_retransmit b buf d ms k o1).
Proof. unfold start_client_retransmit. walks. Qed.
Lemma w_fire_retransmit o b o1 : walk f o o1 -> walk f o (fire_retransmit b o1).
Proof. unfold fire_retransmit. walks. Qed.
Lemma w_note_ack o a i d o1 : walk f o o1 -> walk f o (note_tu_ack a i d o1).
Proof. unfold note_tu_ack. walks. Qed.
Lemma w_note_cseq o cr r o1 : walk f o o1 -> walk f o (note_dialog_cseq cr r o1).
Proof.
  intros H. unfold note_dialog_cseq. destruct (rq_to_tag r); [|done]. destruct (_ ≫= _); [|done].
  apply (foldl_keeps (walk f o)); [|done]. intros. by apply w_client.
Qed.
Lemma w_hold_cancel o b buf d o1 : walk f o o1 -> walk f o (hold_cancel b buf d o1).
Proof. intros H. unfold hold_cancel. by apply w_release_seed, w_held, w_count, w_client. Qed.

#[local] Hint Resolve w_release_seed w_arm_cancel w_fire_cancel w_start w_fire_retransmit w_note_ack w_note_cseq w_hold_cancel : walk.

Lemma w_send_raw o r buf d o1 : walk f o o1 -> walk f o (send_raw_request r buf d o1).
Proof.
  intros H. unfold send_raw_request. set (park := if decide (rq_method r = MCancel) then _ else None).
  set (first := match _ with Some _ => _ | None => false end).
  set (o2 := send_buffer _ _ _). assert (walk f o o2) as H2 by (unfold o2; destruct park; auto 10 with walk).
  set (o3 := if decide _ then _ else o2). assert (walk f o o3) as H3 by (unfold o3; case_decide; auto 10 with walk).
  destruct park; [|done]. destruct first; auto 10 with walk.
Qed.
Lemma w_do_send o r d k o1 : walk f o o1 -> walk f o (do_send_request r d k o1).2.
Proof.
  intros H. unfold do_send_request. destruct (_ || _); simpl.
  { destruct (cancel_gate r o1); [auto 10 with walk|done|by apply w_send_raw]. }
  destruct (match filled _ with Some _ => _ | None => _ end) as [b o2] eqn:Hb.
  assert (walk f o o2) as H2 by (destruct (filled _); simplify_eq; auto 10 with walk).
  destruct (client_timeout k r) as [ms tk]. set (o3 := start_client_retransmit _ _ _ _ _ _).
  assert (walk f o o3) as H3 by (apply w_start, w_open; auto 10 with walk).
  simpl. destruct (_ && _); [|done]. by apply w_insert.
Qed.

Lemma w_give_up o b o1 : walk f o o1 -> walk f o (give_up_client b o1).
Proof. unfold give_up_client. walks. Qed.
#[local] Hint Resolve w_give_up w_send_raw w_do_send : walk.
Lemma w_fire_timeout o b o1 : walk f o o1 -> walk f o (fire_timeout b o1).
Proof. unfold fire_timeout. intros. destruct (timeout_event b o1); [|done]. destruct (match clients o1 !! b with Some _ => _ | None => _ end); auto 10 with walk. Qed.
Lemma w_fire_first o b o1 : walk f o o1 -> walk f o (fire_first_response b o1).
Proof. unfold fire_first_response. walks. Qed.
Lemma w_rearm o b o1 : walk f o o1 -> walk f o (rearm_invite_bound b o1).
Proof. unfold rearm_invite_bound. walks. Qed.
Lemma w_flush_cancel o b o1 : walk f o o1 -> walk f o (flush_cancel_on_provisional b o1).
Proof.
  unfold flush_cancel_on_provisional. intros H. destruct (clients o1 !! b) as [t|]; [|done].
  destruct (tx_held_cancel t); [|done]. case_decide; [|done]. destruct (lt_gave_up _); auto 12 with walk.
Qed.
Lemma w_complete o b o1 : walk f o o1 -> walk f o (complete_non_2xx b o1).
Proof. unfold complete_non_2xx, cancel_three. walks. Qed.
Lemma w_held_ack o b o1 : walk f o o1 -> walk f o (send_held_ack b o1).2.
Proof. unfold send_held_ack. walks. Qed.
Lemma w_ack_first o b a d o1 : walk f o o1 -> walk f o (ack_first_non_2xx b a d o1).
Proof. intros H. unfold ack_first_non_2xx. cases; [by apply w_insert, w_client|auto 10 with walk..]. Qed.
#[local] Hint Resolve w_complete w_held_ack w_ack_first w_rearm w_flush_cancel : walk.
Lemma w_fire_ack o b op o1 : walk f o o1 -> walk f o (fire_ack_bound b op o1).
Proof.
  intros H. unfold fire_ack_bound. destruct (clients o1 !! b); [|done]. case_decide; [|done].
  apply (w_held_ack o b) in H. destruct (send_held_ack b o1) as [[] o2]; auto 10 with walk.
Qed.
Lemma w_take_non_2xx o b r src t o1 : walk f o o1 -> walk f o (take_non_2xx_final b r src t o1).
Proof.
  intros H. unfold take_non_2xx_final. set (ack := match tx_original_request t with Some _ => _ | None => _ end).
  destruct (decide _), (tx_orphaned t), ack as [[]|], (holds_ack b o1); auto 10 with walk.
Qed.
Lemma w_accept_2xx o b r o1 : walk f o o1 -> walk f o (accept_2xx b r o1).
Proof. unfold accept_2xx, cancel_three. walks. Qed.
Lemma w_note_reliable o b r o1 : walk f o o1 -> walk f o (note_reliable_offer b r o1).
Proof. unfold note_reliable_offer. walks. Qed.
#[local] Hint Resolve w_take_non_2xx w_accept_2xx w_note_reliable : walk.
Lemma w_bye o b i r o1 : walk f o o1 -> walk f o (bye_unheld_dialog b i r o1).
Proof.
  intros H. unfold bye_unheld_dialog. destruct (clients o1 !! b); [|done]. case_decide; [|done].
  destruct (_ ≫= _) as [[bye d]|]; [|auto 10 with walk]. destruct (clients _ !! _); auto 10 with walk.
Qed.
#[local] Hint Resolve w_bye : walk.
Lemma w_release_2xx o b r o1 : walk f o o1 -> walk f o (release_2xx b r o1).
Proof.
  intros H. unfold release_2xx. destruct (clients o1 !! b); [|done]. set (o2 := upd_client b _ o1).
  assert (walk f o o2) as H2 by (unfold o2; auto 10 with walk). destruct (_ ≫= dl_ack) as [[]|]; [auto 10 with walk|].
  destruct (accepted_invite b o2); [|done]. unfold orphan_ack. destruct (clients o2 !! b); [|done].
  destruct (_ ≫= _) as [[]|]; [|auto 10 with walk]. destruct (the_dialog _ _) as [d|]; [|auto 10 with walk].
  destruct (dl_byed d); auto 10 with walk.
Qed.
Lemma w_cancel_txns o cr o1 : walk f o o1 -> walk f o (do_cancel_txns_for_call cr o1).
Proof.
  intros H. unfold do_cancel_txns_for_call. destruct (txn_index o1 !! cr); [|done].
  apply (foldl_keeps (walk f o)); [|done]. intros o2 b H2. destruct (clients o2 !! b); auto 10 with walk.
Qed.
#[local] Hint Resolve w_release_2xx : walk.

Lemma w_provisional o b p t o1 : walk f o o1 -> walk f o (provisional b p t o1).
Proof. unfold provisional. intros H. destruct (bool_decide _); auto 10 with walk. Qed.
#[local] Hint Resolve w_provisional : walk.
Lemma w_matched o b r src t o1 : walk f o o1 -> walk f o (matched_response b r src t o1).2.
Proof.
  intros H. unfold matched_response, accept_orphaned_2xx.
  destruct (decide (tx_state t = Accepted)); cbn [snd]; [destruct (_ && _); auto 10 with walk|].
  destruct (rs_status r <? 200); cbn [snd].
  { destruct (is_active _); [|done]. destruct (decide (tx_kind t = KInvite)); auto 10 with walk. }
  destruct (bool_decide _ && (300 <=? _)); cbn [snd]; [auto 10 with walk|].
  destruct (decide (tx_kind t = KInvite)); cbn [snd]; destruct (tx_orphaned t); auto 10 with walk.
Qed.
Lemma w_cancel_answered o b o1 : walk f o o1 -> walk f o (cancel_answered b o1).
Proof. unfold cancel_answered. walks. Qed.
#[local] Hint Resolve w_cancel_answered : walk.
Lemma w_inbound_response o r src re o1 : walk f o o1 -> walk f o (inbound_response r src re o1).2.
Proof.
  intros H. unfold inbound_response. set (b := default "" _). destruct (_ =? _).
  { case_decide; [done|]. destruct (clients o1 !! b); [|done]. destruct (_ && _); simpl; auto 10 with walk. }
  destruct (_ && _); [simpl; destruct re; auto 10 with walk|].
  set (m := if decide (b = "") then None else _).
  destruct (match m with Some _ => _ | None => _ end) as [d o2] eqn:He. assert (walk f o o2) as H2.
  { destruct m as [t|]; [|by simplify_eq]. apply (w_matched o b r src t) in H. by rewrite He in H. }
  destruct d; [done|]. simpl. destruct (_ || _); auto 10 with walk.
Qed.
End client.

#[export] Hint Resolve w_release_seed w_arm_cancel w_start w_hold_cancel w_do_send w_fire_cancel w_fire_retransmit
  w_fire_timeout w_fire_first w_fire_ack w_held_ack w_cancel_txns w_inbound_response : walk.

(** ** Server transactions, which may change *)

Section server.
Context `{E : TxnEnv}.

Notation wk := (walk true).
Ltac quiet := eapply w_step; by apply w_quiet.

Lemma w_upd o id g o1 : wk o o1 -> wk o (upd id g o1).
Proof. destruct id; quiet. Qed.
Lemma w_server o k g o1 : wk o o1 -> wk o (upd_server k g o1).
Proof. apply w_upd. Qed.
Lemma w_hold_for o id why l o1 : wk o o1 -> wk o (hold_for id why l o1).
Proof.
  intros H. unfold hold_for. destruct (txn id o1); [|done]. unfold arm_deadline.
  destruct (txn id _); [|by apply w_upd]. unfold insert_at. destruct (insert_due _ _ _) as [k o2] eqn:Hi. apply w_upd.
  change o2 with (k, o2).2. rewrite <- Hi. apply w_insert, w_cancel. by do 2 apply w_upd.
Qed.
Lemma w_hold o id why o1 : wk o o1 -> wk o (hold id why o1).
Proof. apply w_hold_for. Qed.
Lemma w_detach o id o1 : wk o o1 -> wk o (detach_from_call id o1).
Proof. intros H. unfold detach_from_call. destruct (txn _ o1 ≫= _); [|done]. by apply w_quiesce, w_untrack, w_upd. Qed.
Lemma w_record o k r o1 : wk o o1 -> wk o (record_uas_tag k r o1).
Proof.
  unfold record_uas_tag. destruct (rs_to_tag r); [|done]. destruct (servers o1 !! k); [|done].
  destruct (_ || _); [done|]. quiet.
Qed.
Lemma w_deletes o id o1 : wk o o1 -> wk o (delete_txn id o1).2.
Proof. apply w_delete. by destruct id. Qed.
Lemma w_opens o head g o1 :
  (forall l n, tx_id (g (txn_new head l n)) = nt_id head) -> wk o o1 -> wk o (open_txn_with head g o1).
Proof. intros Hid. apply w_open; [done|]. by destruct (nt_id head). Qed.
Lemma w_judge o r d o1 : wk o o1 -> wk o (judge_new_invite r d o1).2.
Proof.
  unfold judge_new_invite. destruct (refusals o1); [|done]. destruct (memo_admission _ _ _ _ _) as [[] m'];
    [destruct (refusal_answer r); quiet..|quiet].
Qed.
Lemma w_ack_refusal o r o1 : wk o o1 -> wk o (acknowledges_refusal r o1).2.
Proof.
  unfold acknowledges_refusal. destruct (refusals o1); [|done]. case_decide; [done|]. destruct (holds_refusal _ _ _). quiet.
Qed.
Lemma w_keepalive o e o1 : wk o o1 -> wk o (emit_keepalive e o1).2.
Proof.
  unfold emit_keepalive. destruct keepalive_cap; [|apply w_emit]. destruct (event_closed o1); [done|].
  destruct (_ <? _)%nat; [quiet|done].
Qed.
Lemma w_held_cancels o g o1 : wk o o1 -> wk o (o1 <| held_cancels ::= g |>).
Proof. quiet. Qed.
Lemma w_send_opt o m o1 : wk o o1 -> wk o (send_opt m o1).
Proof. destruct m as [[]|]; [apply w_send|done]. Qed.
#[local] Hint Resolve w_upd w_server w_hold w_hold_for w_detach w_record w_deletes w_keepalive w_held_cancels w_send_opt : walk.

Lemma w_fire_server o k o1 : wk o o1 -> wk o (fire_server_retransmit k o1).
Proof.
  intros H. unfold fire_server_retransmit. destruct (servers o1 !! k) as [t|]; [|done]. destruct (_ && _); [|done].
  destruct (tx_last_response t), (tx_destination t), (tx_last_response_status t); try done.
  destruct (tx_ladder t); [|auto 10 with walk]. destruct (advance _) as [[] ?]; [|auto 10 with walk].
  destruct (arm _ _ _) eqn:?. auto 10 with walk.
Qed.
Lemma w_arm_final o k kind st o1 : wk o o1 -> wk o (arm_final_hold k kind st o1).
Proof.
  intros H. unfold arm_final_hold. destruct (_ && _); [|auto 10 with walk].
  destruct (armed _) as [[]|]; [|auto 10 with walk]. destruct (arm _ _ _) eqn:?. auto 10 with walk.
Qed.
#[local] Hint Resolve w_arm_final : walk.
Lemma w_send_response o r d o1 : wk o o1 -> wk o (do_send_response r d o1).2.
Proof.
  intros H. unfold do_send_response. destruct (_ && _); [done|]. case_decide; [by apply w_send|].
  destruct (id_of_response _); [|by apply w_send]. destruct (servers o1 !! _).
  - cbn [snd]. destruct (200 <=? _); auto 10 with walk.
  - destruct (_ && _); cbn [snd]; auto 10 with walk.
Qed.
Lemma w_timer_i o k o1 : wk o o1 -> wk o (hold_for_timer_i k o1).
Proof. intros H. unfold hold_for_timer_i. destruct (servers o1 !! k); auto 10 with walk. Qed.
Lemma w_first_trying o k o1 : wk o o1 -> wk o (send_first_trying k o1).2.
Proof.
  intros H. unfold send_first_trying. destruct (servers o1 !! k) as [t|]; [|done].
  destruct (tx_original_request t); [|done]. destruct (tx_destination t); [|done]. destruct (_ && _); [|done].
  destruct (generate_response _ _ _ _ _); cbn [snd]; auto 10 with walk.
Qed.
Lemma w_replay o r src o1 : wk o o1 -> wk o (replay_cached r src o1).2.
Proof.
  intros H. unfold replay_cached. destruct (id_of_request r) as [k|]; [|done]. destruct (holds_cancel k o1); [done|].
  destruct (servers o1 !! k) as [t|]; [|done].
  destruct (tx_last_response t), (tx_last_response_status t); [by apply w_send|..];
    (destruct (_ && _); [|done]); (destruct (generate_response _ _ _ _ _); cbn [snd]; auto 10 with walk).
Qed.
Lemma w_uas_to_tag o k o1 : wk o o1 -> wk o (uas_to_tag_of k o1).2.
Proof.
  intros H. unfold uas_to_tag_of. destruct (_ ≫= _); [done|].
  destruct (match original_to_tag _ with Some _ => _ | None => _ end) as [p o2] eqn:Hp. simpl. apply w_server.
  destruct (original_to_tag _); simplify_eq; auto with walk.
Qed.
Lemma w_hold_answers o k ha ok term o1 : wk o o1 -> wk o (hold_cancel_answers k ha ok term o1).
Proof.
  intros H. unfold hold_cancel_answers. destruct (servers o1 !! k); [|done]. apply w_insert. auto 10 with walk.
Qed.
Lemma w_send_held o k o1 : wk o o1 -> wk o (send_held_cancel k o1).2.
Proof.
  intros H. unfold send_held_cancel. destruct (_ ≫= _) as [h|]; [|done]. cbn [snd].
  destruct (uc_terminated h) as [[]|]; auto 10 with walk.
Qed.
Lemma w_release_held o ha o1 : wk o o1 -> wk o (release_held_cancel ha o1).2.
Proof. intros H. unfold release_held_cancel. destruct (held_cancels o1 !! ha); [by apply w_send_held|done]. Qed.
Lemma w_cancel_bound o k op o1 : wk o o1 -> wk o (fire_cancel_bound k op o1).
Proof.
  intros H. unfold fire_cancel_bound. destruct (servers o1 !! k); [|done]. case_decide; [|done].
  apply (w_send_held o k) in H. destruct (send_held_cancel k o1) as [[] o2]; auto with walk.
Qed.
Lemma w_flush_owed o o1 : wk o o1 -> wk o (flush_owed_sends o1).
Proof.
  intros H. unfold flush_owed_sends. apply (foldl_keeps (wk o)); [intros; by apply w_send|]. revert H. quiet.
Qed.
#[local] Hint Resolve w_timer_i w_hold_answers : walk.

Lemma w_handle_cancel o r src d o1 : wk o o1 -> wk o (handle_cancel r src d o1).2.
Proof.
  intros H. unfold handle_cancel.
  lazymatch goal with |- wk _ (snd (match ?c with Some _ => _ | None => _ end)) => destruct c as [k|] end.
  - destruct (match servers o1 !! k ≫= tx_original_request with Some _ => _ | None => _ end) as [cseq ind].
    apply (w_uas_to_tag o k) in H. destruct (uas_to_tag_of k o1) as [tag o2]. simpl in H. cbn [snd]. apply w_emit_critical.
    set (o3 := if 0 <? cancel_bound_ms then o2 else _).
    assert (wk o o3) as H3 by (unfold o3; destruct (0 <? _); auto with walk). revert H3. generalize o3. clear o3. intros o3 H3.
    destruct (_ ≫= fun q => _); destruct (0 <? _); auto 10 with walk.
  - lazymatch goal with |- wk _ (snd (match ?c with Some _ => _ | None => _ end)) => destruct c as [k|] end; [done|].
    lazymatch goal with |- wk _ (snd (match ?c with Some _ => _ | None => _ end)) => destruct c as [k|] end.
    + apply (w_uas_to_tag o k) in H. destruct (uas_to_tag_of k o1) as [tag o2]. simpl in *.
      destruct (generate_response r _ _ _ _); auto with walk.
    + destruct d; [by apply w_emit|done].
Qed.

Lemma w_inbound_ack o k r src o1 : wk o o1 -> wk o (inbound_ack k r src o1).
Proof.
  intros H. assert (wk o (if decide (rq_to_tag r = None) then o1
                          else let '(acked, o) := acknowledges_refusal r o1 in
                               if acked || acknowledges_own_final r then o else hand_up r src (rq_image r) o)) as Hu.
  { case_decide; [done|]. apply (w_ack_refusal o r) in H. destruct (acknowledges_refusal r o1) as [acked o2]. simpl in H.
    destruct (_ || _); [done|by apply w_emit]. }
  unfold inbound_ack. destruct (servers o1 !! k) as [t|]; [|done]. destruct (decide (tx_kind t = KInvite)); [|done].
  destruct (tx_state t); try done.
  - destruct (tx_last_response_status t); [|done]. destruct (_ <=? _); [by apply w_timer_i|done].
  - by apply w_emit, w_detach.
Qed.
Lemma w_admit o r src dg o1 : wk o o1 -> wk o (admit_request r src dg o1).
Proof.
  intros H. unfold admit_request. destruct (id_of_request _) as [k|]; [|done].
  set (invite := bool_decide (rq_method r = MInvite)).
  destruct (if invite then judge_new_invite _ _ _ else _) as [judged o2] eqn:Hj. assert (wk o o2) as H2.
  { destruct invite; [|by simplify_eq].
    apply (w_judge o (stamp_request r src) (stamped_destination (rq_via r) src)) in H. by rewrite Hj in H. }
  destruct judged as [held|]; [|done]. set (o3 := open_txn_with _ _ _). assert (wk o o3) as H3 by (by apply w_opens).
  destruct invite.
  - apply w_emit_critical. destruct (servers o3 !! k); [by apply w_insert|done].
  - pose proof (w_emit true o (EvMessage (Request (stamp_request r src)) src false dg) _ H3) as H4.
    destruct (emit _ o3) as [taken o4]. simpl in H4. destruct taken; auto with walk.
Qed.
Lemma w_inbound_request o r src o1 : wk o o1 -> wk o (handle_inbound_request r src o1).
Proof.
  intros H. unfold handle_inbound_request. destruct (id_of_request r) as [k|]; [|by apply w_emit].
  case_decide; [by apply w_inbound_ack|]. case_decide; [by apply w_handle_cancel|].
  apply (w_replay o r src) in H. destruct (replay_cached r src o1) as [absorbed o2]. simpl in H.
  destruct absorbed; [done|]. destruct (_ && _); [by apply w_keepalive|by apply w_admit].
Qed.
Lemma w_forget o k c t o1 : wk o o1 -> wk o (forget_unanswered k c t o1).
Proof. intros H. unfold forget_unanswered. destruct (servers o1 !! k); [|done]. destruct (_ && _); auto with walk. Qed.
Lemma w_delete_all o ids o1 : wk o o1 -> wk o (delete_all ids o1).2.
Proof.
  intros H. unfold delete_all. apply (foldl_keeps (fun p : nat * Owner => wk o p.2)); [|done].
  intros [n o2] id H2. simpl in H2. apply (w_deletes o id) in H2. by destruct (delete_txn id o2).
Qed.
Lemma w_answer_unanswered o cr st rs o1 : wk o o1 -> wk o (answer_unanswered_invites_of_call cr st rs o1).2.
Proof.
  intros H. unfold answer_unanswered_invites_of_call.
  apply (foldl_keeps (fun p : nat * Owner => wk o p.2)); [|done]. intros [n o2] [[k q] source] H2. simpl in H2.
  destruct (or_else _ _) as [d|]; [|done]. apply (w_uas_to_tag o k) in H2.
  destruct (uas_to_tag_of k o2) as [tag o3]. simpl in H2. destruct (generate_response _ _ _ _ _); [|done].
  by apply w_send_response.
Qed.
End server.

#[export] Hint Resolve w_upd w_server w_hold w_hold_for w_detach w_record w_deletes w_opens w_held_cancels w_send_opt
  w_arm_final : walk.

(** ** Seeds, commands, timers *)

Section turn.
Context `{E : TxnEnv}.

Notation wk := (walk true).
Ltac quiet := eapply w_step; by apply w_quiet.

Lemma w_identity o k o1 : wk o o1 -> wk o (hold_seeded_identity k o1).
Proof.
  unfold hold_seeded_identity. destruct (refusals o1); [|done]. destruct (servers o1 !! k); [|done]. quiet.
Qed.
Lemma w_take_final o k st r o1 : wk o o1 -> wk o (take_final k st r o1).
Proof. apply w_server. Qed.
#[local] Hint Resolve w_identity w_take_final : walk.

Lemma w_seed_server_invite o cr q t p l o1 : wk o o1 -> wk o (seed_server_invite cr q t p l o1).2.
Proof.
  intros H. unfold seed_server_invite. destruct (id_of_request q) as [k|]; [|done]. destruct (servers o1 !! k); [done|].
  destruct p; cbn [snd]; [|auto 10 with walk]. destruct (response_destination _); auto 10 with walk.
Qed.
Lemma w_accept_server o k r o1 : wk o o1 -> wk o (accept_server k r o1).
Proof. intros H. unfold accept_server. auto 10 with walk. Qed.
#[local] Hint Resolve w_accept_server : walk.
Lemma w_seed_accepted o cr r l o1 : wk o o1 -> wk o (seed_accepted cr r l o1).2.
Proof.
  intros H. unfold seed_accepted. destruct (id_of_response r) as [k|]; [|done]. destruct (servers o1 !! k) as [t|].
  - destruct (is_active _); [|done]. cbn [snd]. destruct (tx_destination t); [|auto with walk].
    destruct (tx_seeded t); auto with walk.
  - unfold open_txn. cbn [snd]. auto 10 with walk.
Qed.
Lemma w_seed_rejected o cr r d l ms o1 : wk o o1 -> wk o (seed_rejected cr r d l ms o1).2.
Proof.
  intros H. unfold seed_rejected, open_txn. destruct (id_of_response r) as [k|]; [|done]. destruct (servers o1 !! k) as [t|].
  - destruct (is_active _); [|done]. cbn [snd]. destruct ms; auto 12 with walk.
  - cbn [snd]. destruct ms; auto 12 with walk.
Qed.
Lemma w_seed_held o b c d o1 : wk o o1 -> wk o (seed_held_cancel b c d o1).
Proof. intros H. unfold seed_held_cancel. destruct (clients o1 !! b); auto 10 with walk. Qed.
#[local] Hint Resolve w_seed_held : walk.
Lemma w_seed_client_invite o cr q d p c o1 : wk o o1 -> wk o (seed_client_invite cr q d p c o1).2.
Proof.
  intros H. unfold seed_client_invite. destruct (filled _) as [b|]; [|done]. destruct (clients o1 !! b); [done|].
  destruct (arm _ _ o1) as [k o2] eqn:Ha. apply (w_arm true o) in Ha; [|done]. cbn [snd]. destruct c; auto 10 with walk.
Qed.
Lemma w_seed_client_rejected o cr q d ms o1 : wk o o1 -> wk o (seed_client_rejected cr q d ms o1).2.
Proof.
  intros H. unfold seed_client_rejected, open_txn. destruct (filled _) as [b|]; [|done]. destruct (clients o1 !! b); [done|].
  cbn [snd]. auto 10 with walk.
Qed.
Lemma w_seed_client_non_invite o cr q d ms o1 : wk o o1 -> wk o (seed_client_non_invite cr q d ms o1).2.
Proof.
  intros H. unfold seed_client_non_invite, open_txn. destruct (filled _) as [b|]; [|done]. destruct (clients o1 !! b); [done|].
  destruct (client_timeout _ _). cbn [snd]. auto 10 with walk.
Qed.
Lemma w_seed_server_non_invite o cr q l o1 : wk o o1 -> wk o (seed_server_non_invite cr q l o1).2.
Proof.
  intros H. unfold seed_server_non_invite, open_txn. destruct (id_of_request q) as [k|]; [|done].
  destruct (servers o1 !! k); [done|]. cbn [snd]. auto 10 with walk.
Qed.
Lemma w_seed_answered o cr r d ms l o1 : wk o o1 -> wk o (seed_answered_non_invite cr r d ms l o1).2.
Proof.
  intros H. unfold seed_answered_non_invite, open_txn. destruct (id_of_response r) as [k|]; [|by destruct (rs_method r)].
  destruct (rs_method r); try done; (destruct (servers o1 !! k) as [t|]; [destruct (is_active _); [|done]|]); cbn [snd];
    auto 10 with walk.
Qed.
Lemma w_do_seed o cr seeds o1 : wk o o1 -> wk o (do_seed cr seeds o1).2.
Proof.
  unfold do_seed. generalize O. intros n. revert n o1. induction seeds as [|s seeds IH]; intros n o1 H; simpl; [done|].
  assert (wk o (seed_one cr s o1).2) as H1.
  { destruct s; simpl.
    - apply (w_seed_client_invite o cr invite dest provisional cancel) in H.
      destruct (seed_client_invite _ _ _ _ _ _) as [w o2]. simpl in *. destruct (_ && _); auto with walk.
    - by apply w_seed_client_rejected.
    - by apply w_seed_server_invite.
    - by apply w_seed_accepted.
    - by apply w_seed_rejected.
    - by apply w_seed_client_non_invite.
    - by apply w_seed_server_non_invite.
    - by apply w_seed_answered. }
  destruct (seed_one cr s o1) as [w o2]. by apply IH.
Qed.
Lemma w_reoffer o m src o1 : wk o o1 -> wk o (do_reoffer m src o1).2.
Proof. intros H. destruct m; simpl; [case_decide; [by apply w_handle_cancel|done]|by apply w_inbound_response]. Qed.
Lemma w_waive o k o1 : wk o o1 -> wk o (waive_held_final k o1).
Proof. unfold waive_held_final. apply w_server. Qed.
Lemma w_relinquish_call o cr o1 : wk o o1 -> wk o (relinquish_call cr o1).2.
Proof.
  intros H. unfold relinquish_call. set (o2 := o1 <| self_release_watch ::= _ |>). assert (wk o o2) as H2 by (revert H; quiet).
  apply w_delete_all. apply (foldl_keeps (wk o)); [intros; by apply w_waive|].
  apply (foldl_keeps (wk o)); [intros; by apply w_held_ack|done].
Qed.
Lemma w_notify o cr o1 : wk o o1 -> wk o (notify_quiesced cr o1).
Proof. intros H. apply w_emit_critical. revert H. quiet. Qed.

Lemma w_command o c o1 : wk o o1 -> wk o (handle_command c o1).
Proof.
  intros H. destruct c; simpl; try done.
  - by apply w_do_send.
  - by apply w_send_response.
  - by apply w_send.
  - by apply w_do_seed.
  - by apply w_reoffer.
  - by apply w_cancel_txns.
  - by apply w_relinquish_call.
  - unfold relinquish_server. by apply w_deletes, w_waive.
  - unfold relinquish_client. by apply w_deletes, w_held_ack.
  - unfold relinquish_accepted_of_call. by apply w_delete_all.
  - unfold forget_unanswered_of_call. by apply w_delete_all.
  - by apply w_answer_unanswered.
  - by apply w_release_held.
  - by apply w_held_ack.
  - by apply w_first_trying.
  - destruct (has_txns_for _ _); [revert H; quiet|by apply w_notify].
Qed.


Lemma w_turn_end o o1 : wk o o1 -> wk o (flush_pending_quiesce (flush_owed_sends o1)).
Proof.
  intros H. apply w_flush_owed in H. unfold flush_pending_quiesce. apply (foldl_keeps (wk o)); [|revert H; quiet].
  intros o2 cr H2. destruct (_ && _); [by apply w_notify|done].
Qed.
End turn.
