(* ===== verification/TxnEvents.v ===== *)
(** * Transactions: the events handed up

    An event taken by the output queue, or deferred while it is full, is never
    lost and never reordered, the request of a transaction swept unanswered
    apart. *)

From S2P Require Import Prelude Retransmit SipClock TxnData TxnOwner TxnClient TxnServer TxnTurn TxnInv TxnInvOps TxnInvTurn TxnWalk.

Open Scope Z_scope.

(** ** An environment to run the layer in

    An instance of [TxnEnv] with small generators, its laws, and a few messages
    the witnesses of the theorems use. *)

(** A key above every key in use. *)
Definition key_above (X : gset nat) : nat := S (max_list (elements X)).
Lemma key_above_free X : key_above X ∉ X.
Proof.
  unfold key_above. intros H. apply elem_of_elements in H. apply max_list_elem_of_le in H. lia.
Qed.

Definition answer_of (r : SipRequest) (status : Z) (reason : string) (tag : option string) : SipResponse :=
  mkResponse status (rq_via r) (rq_method r) (rq_cseq r) (rq_from_tag r) (or_else (rq_to_tag r) tag) (rq_call_id r)
    None false reason.
Definition retagged (r : SipResponse) (tag : string) : SipResponse :=
  mkResponse (rs_status r) (rs_via r) (rs_method r) (rs_cseq r) (rs_from_tag r) (Some tag) (rs_call_id r) (rs_sdp r)
    (rs_rseq r) (rs_image r).

#[global] Instance ex_env : TxnEnv := {|
  invite_initial_timeout_ms := 180000;
  invite_first_response_timeout_ms := 4000;
  trying_bound_ms := 150;
  ack_bound_ms := 100;
  cancel_bound_ms := 200;
  deferred_bound := Some (mkDeferredBound 2 4);
  stateless_options := true;
  keepalive_cap := Some 4%nat;
  event_capacity := 2%nat;
  on_bound := true;
  render_request := rq_image;
  generate_response := fun r status reason tag _ => Some (answer_of r status reason tag);
  delayed_trying_timestamp := fun _ _ => None;
  retag_response := fun r tag => Some (retagged r tag);
  is_fallback_to_tag := fun _ => false;
  generate_ack_for_non_2xx := fun _ _ => Some "ACK";
  generate_ack_for_2xx_from_invite := fun _ _ _ _ => None;
  generate_bye_for_2xx_from_invite := fun _ _ _ _ => None;
  reject_offer := fun _ _ => None;
  parse_request := fun _ => None;
  ip_socket_addr := fun h p => Some (h, default 5060 p);
  response_destination := fun v => Some (via_host v, default 5060 (via_port v));
  stamp_request := fun r _ => r;
  stamped_destination := fun _ src => src;
  refusal_answer := fun _ => None;
  acknowledges_own_final := fun _ => false;
  class_of := fun _ => ClNormal;
  hash_one := fun b c f => Z.of_nat (String.length b + String.length c + String.length f);
  new_branch := fun _ => "z9hG4bK-new";
  new_tag := fun _ => "tag";
  instant_max := 2 ^ 63;
  next_key := key_above;
|}.
#[global] Instance ex_laws : TxnEnvLaws ex_env.
Proof.
  split; [apply key_above_free|done| |done]. intros r tag r' [= <-]. done.
Qed.

(** An INVITE we send and what answers it, and one we receive. *)
Definition ex_peer : SocketAddr := ("10.0.0.2", 5060).
Definition ex_via (b : string) : Via := mkVia "10.0.0.1" (Some 5060) (Some b) (Some "call-1") (Some "leg-b") None.
Definition ex_request (m : Method) (b image : string) : SipRequest :=
  mkRequest m (ex_via b) (Some "from") None "id-1" 1 (mkUri "10.0.0.2" None false) (Some "call-1") (Some []) None [] image.
Definition ex_invite : SipRequest := ex_request MInvite "z9hG4bK1" "INVITE".
Definition ex_cancel : SipRequest := ex_request MCancel "z9hG4bK1" "CANCEL".
Definition ex_answer (status : Z) (image : string) : SipResponse :=
  mkResponse status (ex_via "z9hG4bK1") MInvite 1 (Some "from") (Some "to") "id-1" None false image.

(** The INVITE goes out, its CANCEL waits, a 180 lets it go, a 487 ends it; an
    INVITE comes in and is cancelled. *)
Definition ex_run : list Work :=
  [ WCommand (SendRequest ex_invite ex_peer KInvite);
    WCommand (SendRequest ex_cancel ex_peer KInvite);
    ETick 500; WTimer 1; WPacket (Response (ex_answer 180 "180")) ex_peer;
    WPacket (Response (ex_answer 487 "487")) ex_peer;
    WPacket (Request ex_invite) ex_peer; WPacket (Request ex_cancel) ex_peer ].
Lemma ex_run_wf : Forall work_wf ex_run.
Proof. repeat constructor. Qed.
Definition ex_memo : option Memo := Some (mkMemo ∅ [] ∅ 8).
Definition ex_gate : option bool := Some false.

Lemma flush_loop_spec `{E : TxnEnv} d q d' q' :
  flush_loop d q = (d', q') ->
  q' ++ d' = q ++ d /\ q `prefix_of` q' /\ (d' = [] \/ (event_capacity <= length q')%nat) /\
  ((length q <= event_capacity)%nat -> (length q' <= event_capacity)%nat).
Proof.
  revert q. induction d as [|e d IH]; intros q; simpl; [intros [= <- <-]; eauto|].
  destruct (Nat.ltb_spec (length q) event_capacity).
  - intros (H1 & H2 & H3 & H4)%IH. rewrite H1, <- app_assoc. split; [done|]. split.
    + etrans; [|done]. by apply prefix_app_r.
    + split; [done|]. intros _. apply H4. rewrite length_app. simpl. lia.
  - intros [= <- <-]. split_and!; auto.
Qed.

Section offered.
Context `{E : TxnEnv}.

Lemma arm_retry_events o :
  event_queue (arm_event_retry o) = event_queue o /\ deferred_events (arm_event_retry o) = deferred_events o /\
  event_closed (arm_event_retry o) = event_closed o.
Proof. unfold arm_event_retry. by destruct (event_retry_armed o). Qed.

(** A critical event joins what is coming, at its end: in the queue when nothing
    waits and it has room, else deferred.  Another one enters the queue, past
    what is deferred, or is dropped. *)
Lemma critical_joins e o : event_closed o = false ->
  if bool_decide (deferred_events o = []) && (length (event_queue o) <? event_capacity)%nat
  then event_queue (emit_critical e o) = event_queue o ++ [e] /\ deferred_events (emit_critical e o) = []
  else event_queue (emit_critical e o) = event_queue o /\ deferred_events (emit_critical e o) = deferred_events o ++ [e].
Proof.
  intros Ho. unfold emit_critical, offer, defer. cbn [andb].
  destruct (bool_decide_reflect (deferred_events o = [])) as [Hd|Hd]; cbn [negb andb].
  - rewrite Ho. destruct (_ <? _)%nat; cbn [snd]; [by simpl; rewrite Hd|].
    destruct (arm_retry_events (o <| deferred_events ::= fun l => l ++ [e] |>)) as (-> & -> & _). done.
  - cbn [snd]. destruct (arm_retry_events (o <| deferred_events ::= fun l => l ++ [e] |>)) as (-> & -> & _). done.
Qed.
Lemma ordinary_joins e o : event_closed o = false ->
  emit e o = if (length (event_queue o) <? event_capacity)%nat then (true, o <| event_queue ::= fun l => l ++ [e] |>) else (false, o).
Proof. intros Ho. unfold emit, offer. cbn [andb]. by rewrite Ho. Qed.
End offered.

Section events.
Context `{E : TxnEnv}.

(** The events on their way to the consumer. *)
Definition coming (o : Owner) : list TransactionEvent := event_queue o ++ deferred_events o.

(** The events that may go: none, but the requests of the transactions swept. *)
Context (gone : TransactionEvent -> bool).
Definition told (l : list TransactionEvent) : list TransactionEvent := filter (fun e => gone e = false) l.

Definition spares (o o' : Owner) : Prop :=
  event_closed o' = event_closed o /\
  (event_closed o = false ->
   event_queue o `prefix_of` event_queue o' /\ told (coming o) `sublist_of` told (coming o') /\
   ((length (event_queue o) <= event_capacity)%nat -> (length (event_queue o') <= event_capacity)%nat)).

Lemma spares_refl o : spares o o.
Proof. split; [done|]. done. Qed.
Lemma spares_trans o1 o2 o3 : spares o1 o2 -> spares o2 o3 -> spares o1 o3.
Proof.
  intros [Hc1 H1] [Hc2 H2]. split; [congruence|]. intros Ho. destruct (H1 Ho) as (P1 & S1 & B1).
  destruct (H2 ltac:(congruence)) as (P2 & S2 & B2). split_and!; [by etrans|by etrans|auto].
Qed.

Lemma spares_append o o' l :
  event_closed o' = event_closed o -> event_queue o' = event_queue o -> deferred_events o' = deferred_events o ++ l ->
  spares o o'.
Proof.
  intros Hc Hq Hd. split; [done|]. intros _. rewrite Hq. split_and!; [done| |done].
  unfold told, coming. rewrite Hq, Hd, app_assoc, (filter_app _ (event_queue o ++ deferred_events o) l). by apply sublist_inserts_r.
Qed.

Lemma spares_offer e c o : spares o (offer e c o).2.
Proof.
  unfold offer. destruct (_ && _).
  { destruct (arm_retry_events (o <| deferred_events ::= fun l => l ++ [e] |>)) as (Hq & Hd & Hc). by apply (spares_append _ _ [e]). }
  destruct (event_closed o) eqn:Ho; [split; [done|congruence]|].
  destruct (Nat.ltb_spec (length (event_queue o)) event_capacity).
  - cbn [snd]. split; [done|]. intros _. split_and!.
    + by apply prefix_app_r.
    + unfold told, coming. simpl. rewrite <- app_assoc, !filter_app. apply sublist_app; [done|]. by apply sublist_inserts_l.
    + intros _. simpl. rewrite length_app. simpl. lia.
  - destruct c; cbn [snd]; [|apply spares_refl].
    destruct (arm_retry_events (o <| deferred_events ::= fun l => l ++ [e] |>)) as (Hq & Hd & Hc). by apply (spares_append _ _ [e]).
Qed.

Lemma walk_spares o o' : walk true o o' -> spares o o'.
Proof.
  induction 1 as [o o' _ Hq Hd Hc|o e c|o1 o2 o3 _ IH1 _ IH2].
  - apply (spares_append _ _ []); [done..|]. by rewrite app_nil_r.
  - apply spares_offer.
  - by apply (spares_trans o1 o2 o3).
Qed.

(** What a transaction left unanswered takes with it. *)
Definition covers (t : Transaction) : Prop :=
  match tx_lifetime t, tx_id t with
  | Active _, Server k => forall e, swept_admitted k (tx_call_id t) (tx_from_tag t) e = true -> gone e = true
  | _, _ => True
  end.
Lemma spares_drop k c t o : (forall e, swept_admitted k c t e = true -> gone e = true) -> spares o (drop_deferred_request_of k c t o).
Proof.
  intros Hg. split; [done|]. intros _. split_and!; [done| |done]. unfold told, coming, drop_deferred_request_of. simpl.
  rewrite !filter_app. apply sublist_app; [done|]. induction (deferred_events o) as [|e l IH]; [done|].
  destruct (decide (gone e = false)) as [Ha|Ha].
  - assert (swept_admitted k c t e = false) as Hs.
    { apply not_true_iff_false. intros Hs%Hg. congruence. }
    rewrite (filter_cons_True (fun e => gone e = false) e l) by done.
    rewrite (filter_cons_True (fun e => swept_admitted k c t e = false) e l) by done.
    rewrite filter_cons_True by done. by constructor.
  - rewrite (filter_cons_False (fun e => gone e = false) e l) by done.
    rewrite (filter_cons (fun e => swept_admitted k c t e = false)). case_decide; [|done].
    by rewrite filter_cons_False.
Qed.

Lemma spares_expire id o : (forall t, txn id o = Some t -> covers t) -> spares o (expire id o).
Proof.
  intros Hc. unfold expire. apply (spares_trans _ (delete_txn id o).2); [apply walk_spares, w_deletes, w_refl|].
  destruct (txn id o) as [t|]; [|apply spares_refl]. specialize (Hc t eq_refl). unfold covers in Hc.
  destruct (tx_lifetime t); [destruct (tx_id t)|]; first [by apply spares_drop|apply spares_refl].
Qed.

Lemma spares_flush o o1 :
  event_queue o1 = event_queue o -> deferred_events o1 = deferred_events o -> event_closed o1 = event_closed o ->
  spares o (flush_deferred o1).
Proof.
  intros Hq Hd Hc. unfold flush_deferred. destruct (event_closed o1) eqn:Ho; simpl.
  { destruct (negb _).
    - split; [simpl; congruence|]. intros. congruence.
    - split; [|intros; congruence]. destruct (flush_loop _ _). destruct (bool_decide _); [simpl; congruence|].
      rewrite (proj2 (proj2 (arm_retry_events _))). simpl. congruence. }
  destruct (flush_loop (deferred_events o1) (event_queue o1)) as [d q] eqn:Hf.
  destruct (flush_loop_spec _ _ _ _ Hf) as (Ha & Hp & _ & Hb). rewrite Hq, Hd in *.
  set (o2 := if bool_decide (d = []) then _ else _).
  assert (event_queue o2 = q /\ deferred_events o2 = d /\ event_closed o2 = event_closed o1) as (Q & F & C).
  { unfold o2. destruct (bool_decide _); [done|].
    destruct (arm_retry_events (o1 <| deferred_events := d |> <| event_queue := q |>)) as (-> & -> & ->). done. }
  split; [congruence|]. intros _. unfold told, coming. rewrite Q, F, Ha. by split_and!.
Qed.

Lemma spares_timer tm o : match tm with Cleanup id => forall t, txn id o = Some t -> covers t | _ => True end -> spares o (fire_timer tm o).
Proof.
  destruct tm as [b|k|b|b|k op|id|b op|k op|b|]; simpl; intros Hc;
    try (apply walk_spares; solve [auto 10 using w_fire_server, w_cancel_bound with walk]).
  - apply walk_spares. unfold fire_trying. destruct (servers o !! k); [|apply w_refl].
    case_decide; [apply w_first_trying|]; apply w_refl.
  - eapply spares_trans; [|apply spares_expire]; [apply walk_spares, w_upd, w_refl|]. intros t. rewrite txn_upd, decide_True by done.
    destruct (txn id o) as [t0|]; [|done]. intros [= <-]. exact (Hc t0 eq_refl).
  - by apply spares_flush.
Qed.
End events.
