(* ===== verification/TxnProps.v ===== *)
(** * Transactions: what the layer guarantees

    The theorems of the transaction layer that follow from the invariant of its
    owner, over every sequence of turns. *)

From S2P Require Import Prelude Retransmit SipClock TxnData TxnOwner TxnClient TxnServer TxnTurn TxnInv TxnInvOps TxnInvClient TxnInvServer TxnInvTurn TxnWalk TxnEvents.

Open Scope Z_scope.

Section frames.
Context `{E : TxnEnv}.

(** ** What ends a turn leaves the transactions alone *)

Lemma txn_offer id e c o : txn id (offer e c o).2 = txn id o.
Proof.
  unfold offer, defer, arm_event_retry. destruct (_ && _); simpl.
  { destruct (event_retry_armed o); by destruct id. }
  destruct (event_closed o); [by destruct id|]. destruct (_ <? _)%nat; [by destruct id|].
  destruct c; simpl; [|done]. destruct (event_retry_armed o); by destruct id.
Qed.
Lemma txn_turn_end id o : txn id (flush_pending_quiesce (flush_owed_sends o)) = txn id o.
Proof.
  transitivity (txn id (flush_owed_sends o)).
  - unfold flush_pending_quiesce. generalize (pending_quiesce (flush_owed_sends o)). intros l.
    apply (foldl_keeps (fun o' => txn id o' = txn id (flush_owed_sends o))); [|by destruct id].
    intros o1 cr <-. destruct (_ && _); [|done]. unfold notify_quiesced, emit_critical. rewrite txn_offer. by destruct id.
  - unfold flush_owed_sends. generalize (owed_sends o). intros l.
    apply (foldl_keeps (fun o' => txn id o' = txn id o)); [|by destruct id]. intros o1 m <-. by destruct id.
Qed.

Lemma txn_delete id o : txn id (delete_txn id o).2 = None.
Proof.
  unfold delete_txn. destruct (txn id o) as [t|] eqn:Ht; [|done]. pose proof (delete_txn_agree id o t Ht) as Hag.
  unfold delete_txn in Hag. rewrite Ht in Hag. set (o' := (_, _).2) in *.
  transitivity (txn id (core o')); [by destruct id|]. rewrite Hag.
  set (o2 := count_dropped _ _). transitivity (txn id o2); [by destruct id|]. apply (taken_frame t id o).
Qed.
Lemma txn_expire id o : txn id (expire id o) = None.
Proof.
  unfold expire. destruct (match txn id o with Some _ => _ | None => _ end) as [[[k c] f]|]; [|apply txn_delete].
  transitivity (txn id (delete_txn id o).2); [by destruct id|apply txn_delete].
Qed.

Lemma deleted_txn_other id id' o : id <> id' -> txn id' (delete_txn id o).2 = txn id' o.
Proof.
  intros Hne. destruct (txn id o) as [t|] eqn:Ht; [|unfold delete_txn; by rewrite Ht]. pose proof (delete_txn_agree id o t Ht) as Hag.
  set (o' := (delete_txn id o).2) in *. transitivity (txn id' (core o')); [by destruct id'|]. rewrite Hag.
  set (o1 := cancel_timers t (remove id o)). transitivity (txn id' o1).
  - transitivity (txn id' (untrack_call_ref (tx_call_ref t) id o1)); [by destruct (held_wire _), id'|]. unfold untrack_call_ref. destruct (tx_call_ref t); [|done]. destruct (txn_index o1 !! _); [|done]. destruct (holds_none _); by destruct id'.
  - unfold o1, cancel_timers. rewrite !cancel_timer_txn. destruct id as [b|k], id' as [b'|k']; simpl; try done; apply lookup_delete_ne; congruence.
Qed.
Lemma txn_expire_other id id' o : id <> id' -> txn id' (expire id o) = txn id' o.
Proof.
  intros Hne. rewrite <- (deleted_txn_other id id' o Hne). unfold expire. destruct (match txn id o with Some _ => _ | None => _ end) as [[[k c] f]|]; by destruct id'.
Qed.
Lemma txn_expire_some id id' o t : txn id' (expire id o) = Some t -> txn id' o = Some t.
Proof. destruct (decide (id = id')) as [->|Hne]; [by rewrite txn_expire|by rewrite txn_expire_other]. Qed.

(** The sweep takes out what is overdue, and nothing else. *)
Definition reap (o : Owner) (id : TxnId) : Owner := (expire id o) <| sweep_reaped ::= fun n => u64_add n 1 |>.
Lemma txn_reap id id' o : txn id' (reap o id) = txn id' (expire id o).
Proof. by destruct id'. Qed.
Lemma txn_reaped id l o : id ∈ l -> txn id (foldl reap o l) = None.
Proof.
  revert o. induction l as [|x l IH]; intros o Hin; [by apply not_elem_of_nil in Hin|]. simpl. destruct (decide (id ∈ l)) as [|Hn]; [by apply IH|].
  apply elem_of_cons in Hin as [->|?]; [|done]. clear IH Hn. assert (txn x (reap o x) = None) as H0 by (rewrite txn_reap; apply txn_expire). revert H0. generalize (reap o x). intros o1.
  revert o1. induction l as [|y l IH]; intros o1 H1; [done|]. simpl. apply IH. rewrite txn_reap. destruct (txn x (expire y o1)) as [t|] eqn:Ht; [|done]. apply txn_expire_some in Ht. congruence.
Qed.
Lemma spares_reaped gone l o : (forall id t, id ∈ l -> txn id o = Some t -> covers gone t) -> spares gone o (foldl reap o l).
Proof.
  revert o. induction l as [|x l IH]; intros o Hc; simpl; [apply spares_refl|].
  apply (spares_trans _ _ (reap o x)).
  - apply (spares_trans _ _ (expire x o)); [apply spares_expire; intros t; apply Hc; set_solver|by apply walk_spares, w_quiet].
  - apply IH. intros id t Hin Ht. rewrite txn_reap in Ht. apply txn_expire_some in Ht. apply (Hc id); set_solver.
Qed.

End frames.

(** A call's entry holds someone. *)
Lemma some_in_call c : holds_none c = false -> exists id, in_call c id.
Proof.
  unfold holds_none. destruct (set_choose_or_empty (ct_client c)) as [[b Hb]|He].
  { intros _. exists (Client b). simpl. set_solver. }
  destruct (set_choose_or_empty (ct_server c)) as [[k Hk]|Hs]; [intros _; by exists (Server k)|].
  destruct (set_choose_or_empty (ct_accepted c)) as [[b Hb]|Ha]; [intros _; exists (Client b); simpl; set_solver|].
  apply leibniz_equiv in He, Hs, Ha. by rewrite !bool_decide_true.
Qed.

(** ** Theorems *)

Definition reached `{E : TxnEnv} (memo : option Memo) (gate : option bool) (at_ : Z) (ws : list Work) : Owner :=
  turns ws (owner_new memo gate at_).

Lemma inv_reached `{E : TxnEnv} {W : TxnEnvLaws E} memo gate at_ ws :
  Forall work_wf ws -> inv None [] 0 (reached memo gate at_ ws).
Proof. intros Hw. apply inv_turns; [done|apply inv_new]. Qed.

(** C10: a key names its own timer.  Whatever requests, responses, commands,
    timers and sweeps an owner takes, and however the wheel reuses the keys of
    entries that left: a key a transaction stores is that of a live entry, armed
    for that transaction and that purpose, and every retransmission, timeout,
    clean-up and CANCEL-retransmission entry of the wheel is stored by the
    transaction it is for.  No cancel can remove another's timer, and none fires
    for a transaction that is gone. *)
Theorem wheel_lockstep `{E : TxnEnv} {W : TxnEnvLaws E} memo gate at_ ws :
  Forall work_wf ws -> let o := reached memo gate at_ ws in
  forall tm k, stored o tm = Some k <-> is_Some (timer_owner tm) /\ exists due, timers o !! k = Some (due, tm).
Proof.
  intros Hw o tm k. pose proof (i_wheel _ _ _ _ (inv_reached memo gate at_ ws Hw)) as Hi. split.
  - intros Hs. split; [unfold stored in Hs; by destruct (timer_owner tm)|by apply (wheel_stored [])].
  - intros [Htm [due Hk]]. by apply (wheel_entry o tm k due).
Qed.
Lemma wheel_lockstep_witness : stored (reached ex_memo ex_gate 0 ex_run) (Cleanup (Client "z9hG4bK1")) = Some 8%nat.
Proof.
  apply (wheel_lockstep (E := ex_env) ex_memo ex_gate 0 ex_run ex_run_wf).
  split; [eexists; reflexivity|]. eexists. vm_compute. reflexivity.
Defined.

(** C5: the index of a call names exactly its transactions.  In every state an
    owner reaches, a client branch is under a call, among its clients or its
    accepted ones and never both, exactly when the transaction at that branch
    names the call, and a server key likewise; a call with none has no entry.
    So a command that walks a call (a release, a relinquish, the answers to its
    open INVITEs) reaches each of its transactions and no other's, and the index
    does not grow with the calls that ended. *)
Theorem call_index_exact `{E : TxnEnv} {W : TxnEnvLaws E} memo gate at_ ws :
  Forall work_wf ws -> let o := reached memo gate at_ ws in
  (forall cr id, indexed (txn_index o) cr id <-> exists t, txn id o = Some t /\ tx_call_ref t = Some cr) /\
  (forall cr c, txn_index o !! cr = Some c ->
     ct_client c ## ct_accepted c /\ exists id t, txn id o = Some t /\ tx_call_ref t = Some cr).
Proof.
  intros Hw o. destruct (i_index _ _ _ _ (inv_reached memo gate at_ ws Hw)) as [Hi Hc]. fold o in Hi, Hc.
  assert (forall cr id, indexed (txn_index o) cr id <-> exists t, txn id o = Some t /\ tx_call_ref t = Some cr) as Hx.
  { intros cr id. rewrite (Hi cr id). unfold call_ref_of. destruct (txn id o) as [t|]; simpl.
    - split; [eauto|]. by intros (t' & [= <-] & ?).
    - split; [done|]. by intros (t' & ? & ?). }
  split; [done|]. intros cr c Hcr. destruct (Hc cr c Hcr) as [Hn Hd]. split; [done|].
  destruct (some_in_call c Hn) as [id Hin]. exists id. apply Hx. unfold indexed. by rewrite Hcr.
Qed.
Lemma call_index_exact_witness :
  exists t, txn (Client "z9hG4bK1") (reached ex_memo ex_gate 0 ex_run) = Some t /\ tx_call_ref t = Some "call-1".
Proof.
  destruct (call_index_exact (E := ex_env) ex_memo ex_gate 0 ex_run ex_run_wf) as [H _].
  destruct (H "call-1" (Client "z9hG4bK1")) as [H1 _]. apply H1. clear H H1. vm_compute. reflexivity.
Defined.

(** C14: every transaction leaves.  In every state an owner reaches, the wheel
    holds for each transaction a clean-up due exactly at its deadline, which is
    at most a year ahead; and once the deadline is there, firing that entry takes
    the transaction out of the maps.  The sweep that looks for overdue ones is a
    backstop. *)
Theorem transactions_leave `{E : TxnEnv} {W : TxnEnvLaws E} memo gate at_ ws id t :
  Forall work_wf ws -> let o := reached memo gate at_ ws in
  txn id o = Some t ->
  lt_deadline (tx_lifetime t) <= now o + MAX_DELAY /\
  exists k, timers o !! k = Some (lt_deadline (tx_lifetime t), Cleanup id) /\
            (lt_deadline (tx_lifetime t) <= now o -> txn id (turn o (WTimer k)) = None).
Proof.
  intros Hw o Ht. destruct (i_due _ _ _ _ (inv_reached memo gate at_ ws Hw) id t Ht) as [Hm [?|(k & _ & Hk)]]; [done|].
  split; [done|]. exists k. split; [done|]. intros Hd. unfold turn. rewrite txn_turn_end. simpl. fold o in Hk. rewrite Hk.
  rewrite (proj2 (Z.leb_le _ _) Hd). apply txn_expire.
Qed.
Lemma transactions_leave_witness :
  exists k, timers (reached ex_memo ex_gate 0 (ex_run ++ [ETick 32000])) !! k = Some (32500, Cleanup (Client "z9hG4bK1")) /\
            txn (Client "z9hG4bK1") (turn (reached ex_memo ex_gate 0 (ex_run ++ [ETick 32000])) (WTimer k)) = None.
Proof.
  destruct (txn (Client "z9hG4bK1") (reached ex_memo ex_gate 0 (ex_run ++ [ETick 32000]))) as [t|] eqn:Ht;
    [|exfalso; revert Ht; vm_compute; discriminate].
  assert (lt_deadline (tx_lifetime t) = 32500) as Hl by (revert Ht; vm_compute; by intros [= <-]).
  assert (Forall work_wf (ex_run ++ [ETick 32000])) as Hw by (repeat constructor).
  destruct (transactions_leave (E := ex_env) ex_memo ex_gate 0 _ _ t Hw Ht) as [_ (k & Hk & Hg)].
  exists k. rewrite Hl in Hk, Hg. split; [exact Hk|]. apply Hg. vm_compute. discriminate.
Defined.

(** C16: no CANCEL held for its INVITE is forgotten.  In every state an owner
    reaches, each CANCEL it ever held, because its INVITE had drawn no
    provisional (RFC 3261 9.1), was sent when one came, was dropped with the
    transaction or for another one, or is still held: the counters, which wrap
    at 64 bits, account for all of them, once each. *)
Theorem cancels_conserved `{E : TxnEnv} {W : TxnEnvLaws E} memo gate at_ ws :
  Forall work_wf ws -> let o := reached memo gate at_ ws in
  u64_wrap (cancels_held o) =
  u64_wrap (held_cancels_flushed o + held_cancels_dropped o + Z.of_nat (live (clients o))).
Proof.
  intros Hw o. pose proof (i_cancels _ _ _ _ (inv_reached memo gate at_ ws Hw)) as H. unfold cancels_ok in H.
  by rewrite Z.add_0_r in H.
Qed.
Lemma cancels_conserved_witness :
  u64_wrap (cancels_held (reached ex_memo ex_gate 0 (take 2 ex_run))) = 1.
Proof.
  rewrite (cancels_conserved (E := ex_env) ex_memo ex_gate 0 (take 2 ex_run)); [vm_compute; reflexivity|repeat constructor].
Defined.

(** C17: a deferred event is retried, and in order.  While an owner holds events
    its output queue had no room for, the wheel holds a retry at most 100 ms
    away; and when it fires, while the consumer is there, what the queue and the
    deferred events hold together is unchanged, in the same order, with the queue
    filled to its capacity or nothing left deferred.  Once the consumer is gone
    the retry drops what was deferred, and no other is armed. *)
Theorem deferred_retried `{E : TxnEnv} {W : TxnEnvLaws E} memo gate at_ ws :
  Forall work_wf ws -> let o := reached memo gate at_ ws in
  deferred_events o <> [] ->
  exists k due, timers o !! k = Some (due, EventRetry) /\ due <= now o + EVENT_RETRY_MS /\
    (due <= now o ->
     let o' := work (WTimer k) o in
     if event_closed o then deferred_events o' = [] /\ event_retry_armed o' = false /\ event_queue o' = event_queue o
     else event_queue o' ++ deferred_events o' = event_queue o ++ deferred_events o /\
          (deferred_events o' = [] \/ (event_capacity <= length (event_queue o'))%nat)).
Proof.
  intros Hw o Hne. destruct (i_retry _ _ _ _ (inv_reached memo gate at_ ws Hw)) as [H1 H2]. fold o in H1, H2.
  clearbody o. destruct (H2 (H1 Hne)) as (k & due & Hk & Hd). exists k, due. split; [done|]. split; [done|]. intros Hnow.
  assert (work (WTimer k) o = flush_deferred (o <| timers ::= delete k |> <| event_retry_armed := false |>)) as ->.
  { simpl. by rewrite Hk, (proj2 (Z.leb_le _ _) Hnow). }
  cbv zeta. unfold flush_deferred. simpl. destruct (event_closed o); simpl; [by rewrite bool_decide_false|].
  destruct (flush_loop (deferred_events o) (event_queue o)) as [d q] eqn:Hf.
  destruct (flush_loop_spec _ _ _ _ Hf) as (Ha & _ & Hc & _).
  destruct (bool_decide_reflect (d = [])) as [->|]; simpl; [by rewrite Ha; auto|].
  unfold arm_event_retry. simpl. rewrite Ha. auto.
Qed.
Lemma deferred_retried_witness :
  exists k due, timers (reached ex_memo ex_gate 0 (ex_run ++ [ETake])) !! k = Some (due, EventRetry) /\ due <= 600.
Proof.
  assert (Forall work_wf (ex_run ++ [ETake])) as Hw by (repeat constructor).
  destruct (deferred_retried (E := ex_env) ex_memo ex_gate 0 _ Hw) as (k & due & Hk & Hd & _).
  - vm_compute. discriminate.
  - exists k, due. split; [exact Hk|]. revert Hd. vm_compute. done.
Defined.

(** The requests a turn takes with their server transactions: those of the
    transactions it removes before they were answered. *)
Definition unanswered (t : Transaction) : bool := match tx_lifetime t with Active _ => true | _ => false end.
Definition left_with (o o' : Owner) (e : TransactionEvent) : bool :=
  existsb (fun p => unanswered p.2 && bool_decide (servers o' !! p.1 = None) && swept_admitted p.1 (tx_call_id p.2) (tx_from_tag p.2) e)
    (map_to_list (servers o)).
Lemma left_covers `{E : TxnEnv} o o' id t : txn id o = Some t -> tx_id t = id -> txn id o' = None -> covers (left_with o o') t.
Proof.
  intros Ht Hid Hn. unfold covers. destruct (tx_lifetime t) eqn:Hl; [|done]. rewrite Hid. destruct id as [b|k]; [done|]. intros e He. unfold left_with. apply existsb_exists. exists (k, t).
  split; [by apply list_elem_of_In, elem_of_map_to_list|]. simpl in *. unfold unanswered. rewrite Hl, He, bool_decide_true by done. done.
Qed.
Lemma spares_turn `{E : TxnEnv} w o : (forall id t, txn id o = Some t -> tx_id t = id) -> w <> ETake -> w <> EClose -> spares (left_with o (turn o w)) o (turn o w).
Proof.
  intros Hids Ht Hc. set (gone := left_with o (turn o w)).
  assert (spares gone o (work w o)) as Hw.
  { destruct w as [k c t|c|key| |m src| | | | | | ]; simpl; try apply spares_refl.
    - apply walk_spares, w_forget, w_refl.
    - apply walk_spares, w_command, w_refl.
    - destruct (timers o !! key) as [[due tm]|] eqn:Hk; [|apply spares_refl]. destruct (due <=? now o) eqn:Hd; [|apply spares_refl].
      eapply spares_trans; [|apply spares_timer]; [by apply walk_spares, w_quiet|]. destruct tm; try done. intros t Hx.
      assert (txn id o = Some t) as Hx' by (by destruct id). apply (left_covers _ _ id); [done|by apply Hids|]. unfold turn. rewrite txn_turn_end. simpl. rewrite Hk, Hd. apply txn_expire.
    - unfold sweep. apply (spares_trans _ _ (reap_overdue o)); [|by apply walk_spares, w_quiet]. apply spares_reaped. intros id t Hin Hx. apply (left_covers _ _ id); [done|by apply Hids|].
      unfold turn. rewrite txn_turn_end. simpl. unfold sweep. transitivity (txn id (reap_overdue o)); [by destruct id|]. by apply txn_reaped.
    - apply walk_spares. destruct m; [apply w_inbound_request, w_refl|apply w_inbound_response, w_refl]. }
  assert (spares gone o (flush_pending_quiesce (flush_owed_sends (work w o)))) as Hall.
  { eapply spares_trans; [exact Hw|]. apply walk_spares, w_turn_end, w_refl. }
  clearbody gone. destruct w; first [done|exact Hall|by apply walk_spares, w_quiet].
Qed.

(** C33: an event on its way up is not lost.  In every state an owner reaches
    while the consumer is there: a critical event joins the end of what is
    coming, in the queue when nothing is deferred and it has room, else deferred;
    an ordinary one enters the queue when it has room, ahead then of what is
    deferred, and is dropped otherwise.  And whatever turn the owner takes, the
    consumer's own taking and going apart: the queue keeps what it held, in order
    and at its front, and stays within its capacity; and every event queued or
    deferred is still coming, in the same order, but the requests deferred for a
    server transaction this turn removes before it was answered. *)
Theorem events_not_lost `{E : TxnEnv} {W : TxnEnvLaws E} memo gate at_ ws w :
  Forall work_wf ws -> w <> ETake -> w <> EClose ->
  let o := reached memo gate at_ ws in let o' := turn o w in
  event_closed o = false ->
  (forall e, if bool_decide (deferred_events o = []) && (length (event_queue o) <? event_capacity)%nat
             then event_queue (emit_critical e o) = event_queue o ++ [e] /\ deferred_events (emit_critical e o) = []
             else event_queue (emit_critical e o) = event_queue o /\ deferred_events (emit_critical e o) = deferred_events o ++ [e]) /\
  (forall e, emit e o = if (length (event_queue o) <? event_capacity)%nat then (true, o <| event_queue ::= fun l => l ++ [e] |>) else (false, o)) /\
  event_queue o `prefix_of` event_queue o' /\
  filter (fun e => left_with o o' e = false) (coming o) `sublist_of` coming o' /\
  ((length (event_queue o) <= event_capacity)%nat -> (length (event_queue o') <= event_capacity)%nat).
Proof.
  intros Hw Ht Hc o o' Ho. split; [intros e; by apply critical_joins|]. split; [intros e; by apply ordinary_joins|].
  assert (spares (left_with o o') o o') as [_ Hs].
  { apply spares_turn; [|done|done]. intros id t Hx. by apply (i_txns _ _ _ _ (inv_reached memo gate at_ ws Hw) id t). }
  destruct (Hs Ho) as (H1 & H2 & H3). split; [done|]. split; [|done]. etrans; [exact H2|]. apply sublist_filter.
Qed.
Lemma events_not_lost_witness :
  let o := reached ex_memo ex_gate 0 ex_run in
  length (coming o) = 4%nat /\
  filter (fun e => left_with o (turn o (WPacket (Request ex_invite) ex_peer)) e = false) (coming o) `sublist_of` coming (turn o (WPacket (Request ex_invite) ex_peer)).
Proof.
  split; [vm_compute; reflexivity|].
  apply (events_not_lost (E := ex_env) ex_memo ex_gate 0 ex_run (WPacket (Request ex_invite) ex_peer) ex_run_wf); [discriminate|discriminate|vm_compute; reflexivity].
Defined.
