(* ===== verification/TxnFinal.v ===== *)
(** * Transactions: a final response is given once

    A server transaction that took its final keeps it, whatever the owner does
    until the transaction leaves (RFC 3261 17.2.1). *)

From S2P Require Import Prelude Retransmit SipClock TxnData TxnOwner TxnClient TxnServer TxnTurn TxnInv TxnInvOps TxnInvServer TxnInvTurn TxnWalk TxnEvents TxnProps.

Open Scope Z_scope.

Section final.
Context `{E : TxnEnv} {W : TxnEnvLaws E}.

(** What a final fixes of its transaction. *)
Definition fixed (t t' : Transaction) : Prop :=
  tx_last_response t' = tx_last_response t /\ tx_last_response_status t' = tx_last_response_status t /\
  tx_destination t' = tx_destination t /\ tx_final_to_tag t' = tx_final_to_tag t /\ tx_created_at t' = tx_created_at t /\
  (tx_state t' = tx_state t \/ tx_state t = Completed /\ tx_state t' = Confirmed).

Notation final t := (final_sent (tx_state t) = true).

Lemma fixed_refl t : fixed t t.
Proof. split_and!; try done. by left. Qed.
Lemma fixed_trans t1 t2 t3 : fixed t1 t2 -> fixed t2 t3 -> fixed t1 t3.
Proof.
  intros (A1 & A2 & A3 & A4 & A5 & A6) (B1 & B2 & B3 & B4 & B5 & B6). split_and!; try congruence.
  destruct A6 as [A6|[A6 A7]], B6 as [B6|[B6 B7]]; [left|right|right|]; try split; congruence.
Qed.
Lemma fixed_final t t' : fixed t t' -> final t -> final t'.
Proof. intros (_ & _ & _ & _ & _ & [->|[_ ->]]); done. Qed.

(** Finals stay with their transactions; none comes that was not there. *)
Definition keep (o o' : Owner) : Prop :=
  forall k t, servers o !! k = Some t -> final t -> exists t', servers o' !! k = Some t' /\ fixed t t'.
Definition shrink (o o' : Owner) : Prop :=
  forall k t', servers o' !! k = Some t' -> exists t, servers o !! k = Some t /\ (final t -> fixed t t').
Definition stays (o o' : Owner) : Prop := keep o o' /\ shrink o o'.
(** A final given is that of its transaction until the transaction leaves. *)
Definition given (o o' : Owner) : Prop :=
  forall k t, servers o !! k = Some t -> final t ->
    servers o' !! k = None \/ exists t', servers o' !! k = Some t' /\ fixed t t'.

Lemma keep_trans o1 o2 o3 : keep o1 o2 -> keep o2 o3 -> keep o1 o3.
Proof.
  intros H1 H2 k t Ht Hf. destruct (H1 k t Ht Hf) as (t2 & Ht2 & F2).
  destruct (H2 k t2 Ht2 (fixed_final _ _ F2 Hf)) as (t3 & Ht3 & F3). exists t3. split; [done|]. by apply (fixed_trans t t2).
Qed.
Lemma shrink_trans o1 o2 o3 : shrink o1 o2 -> shrink o2 o3 -> shrink o1 o3.
Proof.
  intros H1 H2 k t3 Ht3. destruct (H2 k t3 Ht3) as (t2 & Ht2 & F2). destruct (H1 k t2 Ht2) as (t1 & Ht1 & F1).
  exists t1. split; [done|]. intros Hf. specialize (F1 Hf). apply (fixed_trans t1 t2); [done|]. by apply F2, (fixed_final t1).
Qed.
Lemma stays_trans o1 o2 o3 : stays o1 o2 -> stays o2 o3 -> stays o1 o3.
Proof. intros [] []. split; [by apply (keep_trans _ o2)|by apply (shrink_trans _ o2)]. Qed.
Lemma keep_shrink_given o1 o2 o3 : keep o1 o2 -> shrink o2 o3 -> given o1 o3.
Proof.
  intros H1 H2 k t Ht Hf. destruct (H1 k t Ht Hf) as (t2 & Ht2 & F2).
  destruct (servers o3 !! k) as [t3|] eqn:Ht3; [right|by left]. destruct (H2 k t3 Ht3) as (t2' & Ht2' & F3).
  rewrite Ht2 in Ht2'. injection Ht2' as <-. exists t3. split; [done|]. apply (fixed_trans t t2); [done|].
  by apply F3, (fixed_final t).
Qed.

Lemma stays_eq o o' : servers o' = servers o -> stays o o'.
Proof. intros He. split; intros k t Ht; [intros _; exists t; rewrite He|exists t; rewrite <- He]; auto using fixed_refl. Qed.
Lemma stays_refl o : stays o o.
Proof. by apply stays_eq. Qed.
Lemma keep_given o o' : keep o o' -> given o o'.
Proof. intros H. apply (keep_shrink_given _ o'); [done|]. apply stays_refl. Qed.
Lemma shrink_given o o' : shrink o o' -> given o o'.
Proof. intros H. by apply (keep_shrink_given _ o); [apply stays_refl|]. Qed.
Lemma stays_walk o o' : walk false o o' -> stays o o'.
Proof.
  induction 1 as [o o' Hs|o e c|o1 o2 o3 _ IH1 _ IH2].
  - apply stays_eq. by apply Hs.
  - apply stays_eq. pose proof (fun k => txn_offer (Server k) e c o) as H. by apply map_eq.
  - by apply (stays_trans _ o2).
Qed.

Lemma stays_upd k g o :
  (forall t, servers o !! k = Some t -> final t -> fixed t (g t)) -> stays o (upd_server k g o).
Proof.
  intros Hg. split; intros k' t Ht; simpl in *.
  - intros Hf. destruct (decide (k = k')) as [->|Hne].
    + exists (g t). rewrite lookup_alter_eq, Ht. split; [done|]. by apply Hg.
    + exists t. rewrite lookup_alter_ne by done. auto using fixed_refl.
  - destruct (decide (k = k')) as [->|Hne].
    + rewrite lookup_alter_eq in Ht. destruct (servers o !! k') as [t0|] eqn:H0; [|done].
      injection Ht as <-. exists t0. split; [done|]. by apply Hg.
    + rewrite lookup_alter_ne in Ht by done. eauto using fixed_refl.
Qed.
Ltac fixes := intros ? _ _; split_and!; first [reflexivity|by left].
(** An unanswered transaction has no final to keep. *)
Lemma stays_open k g o : has k (fun t => final_sent (tx_state t) = false) o -> stays o (upd_server k g o).
Proof. intros (t & Ht & Hn). apply stays_upd. intros t' Ht' Hf. simpl in Ht. simplify_eq. congruence. Qed.

Lemma stays_arm tm d o k o1 : arm tm d o = (k, o1) -> stays o o1.
Proof. intros [= _ <-]. by apply stays_eq. Qed.
Lemma stays_hold_for k why l o : stays o (hold_for (Server k) why l o).
Proof.
  unfold hold_for. destruct (txn (Server k) o); [|apply stays_refl]. unfold arm_deadline.
  set (o1 := upd (Server k) _ o). assert (stays o o1) as H1 by (apply (stays_upd k); fixes).
  destruct (txn (Server k) o1) as [t1|]; [|done]. set (o2 := upd (Server k) _ o1).
  assert (stays o1 o2) as H2 by (apply (stays_upd k); fixes).
  destruct (insert_at _ _ _) as [key o3] eqn:Hi. apply (stays_trans _ o1); [done|]. apply (stays_trans _ o2); [done|].
  apply (stays_trans _ o3); [|apply (stays_upd k); fixes]. apply stays_eq.
  apply (f_equal snd) in Hi. simpl in Hi. subst o3. by destruct (tx_cleanup_key t1).
Qed.
Lemma stays_detach k o : stays o (detach_from_call (Server k) o).
Proof.
  unfold detach_from_call. destruct (txn (Server k) o ≫= tx_call_ref) as [cr|]; [|apply stays_refl].
  apply (stays_trans _ (upd_server k (fun t => t <| tx_call_ref := None |>) o)); [apply stays_upd; fixes|].
  apply stays_walk. auto with walk.
Qed.
Lemma stays_arm_final k kind st o : stays o (arm_final_hold k kind st o).
Proof.
  unfold arm_final_hold, hold. set (o1 := hold_for _ _ _ o). assert (stays o o1) as H1 by apply stays_hold_for.
  destruct (_ && _); [|done]. destruct (armed _) as [[ladder first]|]; [|done].
  destruct (arm _ _ o1) as [g o2] eqn:Ha. apply (stays_trans _ o1); [done|].
  apply (stays_trans _ o2); [by apply stays_arm in Ha|apply stays_upd; fixes].
Qed.

(** ** Handlers that act on one server transaction *)

Definition elsewhere (k : ServerTxnKey) (o o' : Owner) : Prop :=
  forall k', k' <> k -> servers o' !! k' = servers o !! k'.
Definition unanswered_at (k : ServerTxnKey) (o : Owner) : Prop :=
  forall t, servers o !! k = Some t -> final_sent (tx_state t) = false.

Lemma elsewhere_keep k o o' : elsewhere k o o' -> unanswered_at k o -> keep o o'.
Proof.
  intros He Hu k' t Ht Hf. destruct (decide (k' = k)) as [->|Hne]; [by rewrite (Hu t Ht) in Hf|].
  exists t. rewrite He by done. auto using fixed_refl.
Qed.
Lemma e_refl k o : elsewhere k o o.
Proof. done. Qed.
Lemma e_walk k o o1 o2 : walk false o1 o2 -> elsewhere k o o1 -> elsewhere k o o2.
Proof.
  intros Hw He k' Hne. rewrite <- He by done. clear He. induction Hw as [o1 o2 Hs|o1 e c|o1 o2 o3 _ IH1 _ IH2].
  - by rewrite Hs.
  - apply (txn_offer (Server k') e c o1).
  - congruence.
Qed.
Lemma e_upd k o g o1 : elsewhere k o o1 -> elsewhere k o (upd_server k g o1).
Proof. intros He k' Hne. simpl. rewrite lookup_alter_ne by done. by apply He. Qed.
Lemma e_quiet k o o1 o2 : servers o2 = servers o1 -> elsewhere k o o1 -> elsewhere k o o2.
Proof. intros Hs He k' Hne. rewrite Hs. by apply He. Qed.
Lemma e_hold_for k o why l o1 : elsewhere k o o1 -> elsewhere k o (hold_for (Server k) why l o1).
Proof.
  intros He. unfold hold_for. destruct (txn (Server k) o1); [|done]. unfold arm_deadline. destruct (txn (Server k) _) as [t1|]; [|by apply e_upd].
  destruct (insert_at _ _ _) as [key o3] eqn:Hi. apply e_upd. apply (f_equal snd) in Hi. simpl in Hi. subst o3.
  eapply e_quiet; [|by apply e_upd, e_upd, He]. by destruct (tx_cleanup_key t1).
Qed.
Lemma e_hold k o why o1 : elsewhere k o o1 -> elsewhere k o (hold (Server k) why o1).
Proof. apply e_hold_for. Qed.
Lemma e_record k o r o1 : elsewhere k o o1 -> elsewhere k o (record_uas_tag k r o1).
Proof.
  intros He. unfold record_uas_tag. destruct (rs_to_tag r); [|done]. destruct (servers o1 !! k); [|done].
  destruct (_ || _); [done|]. eapply e_quiet; [|by apply e_upd]. done.
Qed.
Lemma e_arm_final k o kind st o1 : elsewhere k o o1 -> elsewhere k o (arm_final_hold k kind st o1).
Proof.
  intros He. unfold arm_final_hold. destruct (_ && _); [|by apply e_hold].
  destruct (armed _) as [[ladder first]|]; [|by apply e_hold]. destruct (arm _ _ _) as [g o2] eqn:Ha.
  apply e_upd, (e_walk k o (hold (Server k) (final_hold kind st) o1)); [eapply w_arm; [done|apply w_refl]|by apply e_hold].
Qed.
Lemma txn_count id b o : txn id (count_dropped b o) = txn id o.
Proof. by destruct b, id. Qed.
Lemma txn_set_other id t o : id <> tx_id t -> txn id (set_txn t o) = txn id o.
Proof.
  intros Hne. rewrite set_txn_split, txn_track, txn_put, decide_False by done.
  destruct (txn (tx_id t) o) as [old|]; [|done]. unfold cancel_timers.
  by rewrite txn_count, txn_untrack, !cancel_timer_txn, txn_remove, decide_False.
Qed.
Lemma e_open k o head g o1 :
  nt_id head = Server k -> (forall l n, tx_id (g (txn_new head l n)) = nt_id head) ->
  elsewhere k o o1 -> elsewhere k o (open_txn_with head g o1).
Proof.
  intros Hk Hid He k' Hne. rewrite <- He by done. unfold open_txn_with. set (t := g _).
  assert (tx_id t = Server k) as Ht by (unfold t; by rewrite Hid). clearbody t.
  destruct (insert_at _ _ o1) as [key o2] eqn:Hi.
  transitivity (txn (Server k') o2); [apply (txn_set_other (Server k')); simpl; rewrite Ht; congruence|].
  apply (f_equal snd) in Hi. simpl in Hi. by subst o2.
Qed.
Lemma txn_delete_other id id' o : id <> id' -> txn id (delete_txn id' o).2 = txn id o.
Proof.
  intros Hne. unfold delete_txn. destruct (txn id' o) as [t|] eqn:Ht; [|done]. pose proof (delete_txn_agree id' o t Ht) as Hag.
  unfold delete_txn in Hag. rewrite Ht in Hag. set (o' := (_, _).2) in *.
  transitivity (txn id (core o')); [by destruct id|]. rewrite Hag. unfold cancel_timers.
  transitivity (txn id (count_dropped (held_wire (tx_held_cancel t)) (untrack_call_ref (tx_call_ref t) id' (cancel_timers t (remove id' o)))));
    [by destruct id|]. unfold cancel_timers.
  by rewrite txn_count, txn_untrack, !cancel_timer_txn, txn_remove, decide_False.
Qed.
Lemma e_delete k o o1 : elsewhere k o o1 -> elsewhere k o (delete_txn (Server k) o1).2.
Proof. intros He k' Hne. rewrite <- He by done. apply (txn_delete_other (Server k')). congruence. Qed.

(** ** The server's handlers *)

Lemma s_waive k o : stays o (waive_held_final k o).
Proof. unfold waive_held_final. apply stays_upd. fixes. Qed.
Lemma s_fire_server k o : stays o (fire_server_retransmit k o).
Proof.
  unfold fire_server_retransmit. destruct (servers o !! k) as [t|]; [|apply stays_refl]. destruct (_ && _); [|apply stays_refl].
  destruct (tx_last_response t), (tx_destination t), (tx_last_response_status t); try apply stays_refl.
  destruct (tx_ladder t) as [l|]; [|by apply stays_eq]. destruct (advance l) as [[next|] l'].
  - destruct (arm _ _ _) as [g o2] eqn:Ha. apply stays_arm in Ha. eapply stays_trans; [|apply stays_upd; fixes].
    eapply stays_trans; [|exact Ha]. eapply stays_trans; [|apply stays_upd; fixes]. by apply stays_eq.
  - eapply stays_trans; [|apply stays_upd; fixes]. by apply stays_eq.
Qed.
Lemma s_timer_i k o : (forall t, servers o !! k = Some t -> tx_state t = Completed) -> stays o (hold_for_timer_i k o).
Proof.
  intros Hc. unfold hold_for_timer_i. destruct (servers o !! k) as [t|] eqn:Ht; [|apply stays_refl].
  eapply stays_trans; [|apply stays_detach]. eapply stays_trans; [|apply stays_hold_for].
  set (o1 := upd_server k _ o). apply (stays_trans _ o1); [|apply stays_walk; auto with walk].
  apply stays_upd. intros t' Ht' _. split_and!; try reflexivity. right. split; [|done]. apply Hc; congruence.
Qed.
Lemma s_uas_to_tag k o : stays o (uas_to_tag_of k o).2.
Proof.
  unfold uas_to_tag_of. destruct (_ ≫= _); [apply stays_refl|].
  destruct (match original_to_tag _ with Some _ => _ | None => _ end) as [p o2] eqn:Hp. simpl.
  apply (stays_trans _ o2); [|apply stays_upd; fixes]. apply stays_eq. destruct (original_to_tag _); by simplify_eq.
Qed.
Lemma s_send_held k o : stays o (send_held_cancel k o).2.
Proof.
  unfold send_held_cancel. destruct (_ ≫= _) as [h|]; [|apply stays_refl]. cbn [snd]. set (o1 := upd_server k _ o).
  assert (stays o o1) as H1 by (apply stays_upd; fixes).
  set (o2 := send_opt _ _). assert (stays o o2) as H2.
  { apply (stays_trans _ o1); [done|]. apply stays_eq. unfold o2. by destruct (uc_cancel_ok h) as [[]|]. }
  destruct (uc_terminated h) as [[b d]|]; [|done]. eapply stays_trans; [|apply stays_arm_final].
  apply (stays_trans _ o2); [done|]. by apply stays_eq.
Qed.

(** What answers a transaction acts on one that has no final. *)
Lemma k_send_response r d o : keep o (do_send_response r d o).2.
Proof.
  unfold do_send_response. destruct (negb _ && _) eqn:Hg; [apply stays_refl|].
  destruct (decide _) as [|Hm]; [by apply stays_eq|]. rewrite (bool_decide_false _ Hm) in Hg. simpl in Hg.
  rewrite (bind_id r o). unfold server_of in Hg. destruct (id_of_response r) as [k|]; [|by apply stays_eq]. simpl in Hg.
  destruct (servers o !! k) as [t|] eqn:Ht; [|destruct (_ && _); by apply stays_eq].
  apply (elsewhere_keep k); [|intros t' Ht'; simpl in Ht'; congruence]. cbn [snd].
  eapply e_quiet; [reflexivity|]. destruct (200 <=? _); [apply e_arm_final|]; apply e_upd, e_record, e_refl.
Qed.
Lemma k_first_trying k o : keep o (send_first_trying k o).2.
Proof.
  unfold send_first_trying. destruct (servers o !! k) as [t|] eqn:Ht; [|apply stays_refl].
  destruct (tx_original_request t); [|apply stays_refl]. destruct (tx_destination t); [|apply stays_refl].
  destruct (_ && _) eqn:Hs; [|apply stays_refl]. apply andb_true_iff in Hs as [_ Hs%bool_decide_eq_true].
  destruct (generate_response _ _ _ _ _); [|apply stays_refl]. cbn [snd].
  apply (elsewhere_keep k); [by apply e_upd|]. intros t' Ht'. rewrite Ht in Ht'. injection Ht' as <-. by rewrite Hs.
Qed.
Lemma k_replay r src o : keep o (replay_cached r src o).2.
Proof.
  unfold replay_cached. destruct (id_of_request r) as [k|]; [|apply stays_refl].
  destruct (holds_cancel k o); [apply stays_refl|]. destruct (servers o !! k) as [t|] eqn:Ht; [|apply stays_refl].
  assert (keep o (if bool_decide (tx_kind t = KInvite) && bool_decide (tx_state t = Proceeding) then
                    match generate_response (stamp_request r src) 100 "Trying" None [] with
                     | None => (true, o)
                     | Some trying =>
                         let o := send_buffer (rs_image trying) (default (stamped_destination (rq_via r) src) (tx_destination t)) o in
                         (true, upd_server k (fun t => t <| tx_last_response := Some (rs_image trying) |>
                                                        <| tx_last_response_status := Some 100 |>) o)
                     end
                  else (true, o)).2) as Hk.
  { destruct (_ && _) eqn:Hs; [|apply stays_refl]. apply andb_true_iff in Hs as [_ Hs%bool_decide_eq_true].
    destruct (generate_response _ _ _ _ _); [|apply stays_refl]. cbn [snd].
    apply (elsewhere_keep k); [by apply e_upd|]. intros t' Ht'. rewrite Ht in Ht'. injection Ht' as <-. by rewrite Hs. }
  destruct (tx_last_response t), (tx_last_response_status t); [by apply stays_eq|exact Hk..].
Qed.
Lemma replay_fresh r src o o1 k :
  replay_cached r src o = (false, o1) -> id_of_request r = Some k -> o1 = o /\ servers o !! k = None.
Proof.
  intros Hr Hk. unfold replay_cached in Hr. rewrite Hk in Hr. destruct (holds_cancel k o); [done|].
  destruct (servers o !! k) as [t|]; [|by injection Hr as <-].
  destruct (tx_last_response t), (tx_last_response_status t); try done;
    (destruct (_ && _); [|done]); by destruct (generate_response _ _ _ _ _).
Qed.

Lemma e_uas_to_tag k o o1 : elsewhere k o o1 -> elsewhere k o (uas_to_tag_of k o1).2.
Proof.
  intros He. unfold uas_to_tag_of. destruct (_ ≫= _); [done|].
  destruct (match original_to_tag _ with Some _ => _ | None => _ end) as [p o2] eqn:Hp. simpl. apply e_upd.
  destruct (original_to_tag _); by simplify_eq.
Qed.
Lemma e_send_opt k o m o1 : elsewhere k o o1 -> elsewhere k o (send_opt m o1).
Proof. by destruct m as [[]|]. Qed.
Lemma e_hold_answers k o ha ok term o1 : elsewhere k o o1 -> elsewhere k o (hold_cancel_answers k ha ok term o1).
Proof.
  intros He. unfold hold_cancel_answers. destruct (servers o1 !! k); [|done]. eapply e_quiet; [|by apply e_upd]. done.
Qed.
Lemma active_unanswered s : is_active s = true -> final_sent s = false.
Proof. by destruct s. Qed.

Lemma k_handle_cancel r src d o : keep o (handle_cancel r src d o).2.
Proof.
  unfold handle_cancel.
  lazymatch goal with |- keep _ (snd (match ?c with Some _ => _ | None => _ end)) => destruct c as [k|] eqn:Hc end.
  - apply cancelled_pick in Hc as (t & Ht & Hp). apply andb_true_iff in Hp as [_ Hp].
    apply (elsewhere_keep k); [|intros t' Ht'; simplify_eq; by apply active_unanswered].
    destruct (match servers o !! k ≫= tx_original_request with Some _ => _ | None => _ end) as [cseq ind].
    pose proof (e_uas_to_tag k o o (e_refl k o)) as H. destruct (uas_to_tag_of k o) as [tag o2]. simpl in H. cbn [snd].
    apply (e_walk _ _ _ _ (w_emit_critical false _ _ _ (w_refl false _))).
    set (o3 := if 0 <? cancel_bound_ms then o2 else _).
    assert (elsewhere k o o3) as H3 by (unfold o3; destruct (0 <? _); [done|by apply e_send_opt]).
    revert H3. generalize o3. clear o3. intros o3 H3.
    destruct (_ ≫= fun q => _); destruct (0 <? _); try apply e_hold_answers; try apply e_arm_final; try apply e_upd, e_record; done.
  - lazymatch goal with |- keep _ (snd (match ?c with Some _ => _ | None => _ end)) => destruct c as [k|] end; [apply stays_refl|].
    lazymatch goal with |- keep _ (snd (match ?c with Some _ => _ | None => _ end)) => destruct c as [k|] end.
    + pose proof (s_uas_to_tag k o) as H. destruct (uas_to_tag_of k o) as [tag o2]. simpl in *.
      destruct (generate_response r _ _ _ _); [|by apply H]. apply (keep_trans _ o2); [by apply H|by apply stays_eq].
    + apply stays_walk. destruct d; cbn [snd]; auto with walk.
Qed.

Lemma s_judge r d o : stays o (judge_new_invite r d o).2.
Proof.
  apply stays_eq. unfold judge_new_invite. destruct (refusals o); [|done].
  destruct (memo_admission _ _ _ _ _) as [[] m']; by try destruct (refusal_answer r).
Qed.
Lemma k_inbound_ack k r src o : keep o (inbound_ack k r src o).
Proof.
  assert (keep o (if decide (rq_to_tag r = None) then o
                  else let '(acked, o) := acknowledges_refusal r o in
                       if acked || acknowledges_own_final r then o else hand_up r src (rq_image r) o)) as Hu.
  { case_decide; [apply stays_refl|]. assert (servers (acknowledges_refusal r o).2 = servers o) as Hs.
    { unfold acknowledges_refusal. destruct (refusals o); [|done]. case_decide; [done|]. by destruct (holds_refusal _ _ _). }
    destruct (acknowledges_refusal r o) as [acked o2]. simpl in Hs. apply (keep_trans _ o2); [by apply stays_eq|].
    apply stays_walk. destruct (_ || _); [apply w_refl|apply w_emit, w_refl]. }
  unfold inbound_ack. destruct (servers o !! k) as [t|] eqn:Ht; [|done]. destruct (decide (tx_kind t = KInvite)); [|done].
  destruct (tx_state t) eqn:Hst; try done; try apply stays_refl.
  - destruct (tx_last_response_status t); [|done]. destruct (_ <=? _); [|done]. apply s_timer_i. intros. by simplify_eq.
  - apply (keep_trans _ (detach_from_call (Server k) o)); [apply stays_detach|]. apply stays_walk, w_emit, w_refl.
Qed.
Lemma k_admit r src dg o k :
  id_of_request r = Some k -> servers o !! k = None -> keep o (admit_request r src dg o).
Proof.
  intros Hk Hn. unfold admit_request. rewrite (stamp_id r src), Hk. set (invite := bool_decide (rq_method r = MInvite)).
  destruct (if invite then judge_new_invite _ _ _ else _) as [judged o2] eqn:Hj. assert (servers o2 = servers o) as H2.
  { destruct invite; [|by simplify_eq]. revert Hj. unfold judge_new_invite. destruct (refusals o); [|intros; by simplify_eq].
    destruct (memo_admission _ _ _ _ _) as [[] m']; try destruct (refusal_answer _); intros; by simplify_eq. }
  destruct judged as [held|]; [|by apply stays_eq]. apply (elsewhere_keep k); [|intros t; congruence].
  set (o3 := open_txn_with _ _ _). assert (elsewhere k o o3) as H3 by (apply e_open; [done..|]; by apply (e_quiet k o o)).
  destruct invite.
  - apply (e_walk _ _ _ _ (w_emit_critical false _ _ _ (w_refl false _))). by destruct (servers o3 !! k).
  - pose proof (w_emit false o3 (EvMessage (Request (stamp_request r src)) src false dg) _ (w_refl false o3)) as H4.
    apply (e_walk k o) in H4; [|done]. destruct (emit _ o3) as [taken o4]. simpl in H4. destruct taken; [done|by apply e_delete].
Qed.
Lemma k_inbound_request r src o : keep o (handle_inbound_request r src o).
Proof.
  unfold handle_inbound_request. destruct (id_of_request r) as [k|] eqn:Hk; [|apply stays_walk, w_emit, w_refl].
  case_decide; [apply k_inbound_ack|]. case_decide; [apply k_handle_cancel|].
  pose proof (k_replay r src o) as Hrep. destruct (replay_cached r src o) as [[] o2] eqn:Hr; [done|].
  destruct (replay_fresh r src o o2 k Hr Hk) as [-> Hn]. destruct (_ && _); [|by apply (k_admit r src _ o k)].
  apply stays_eq. unfold emit_keepalive. destruct keepalive_cap.
  - destruct (event_closed o); [done|]. by destruct (_ <? _)%nat.
  - apply map_eq. intros k'. apply (txn_offer (Server k')).
Qed.

(** ** Seeds *)

Lemma e_identity k o o1 : elsewhere k o o1 -> elsewhere k o (hold_seeded_identity k o1).
Proof.
  intros He. unfold hold_seeded_identity. destruct (refusals o1); [|done]. destruct (servers o1 !! k); [|done].
  eapply e_quiet; [|by apply e_upd]. done.
Qed.
Lemma e_take_final k o st r o1 : elsewhere k o o1 -> elsewhere k o (take_final k st r o1).
Proof. apply e_upd. Qed.
Lemma e_accept k o r o1 : elsewhere k o o1 -> elsewhere k o (accept_server k r o1).
Proof. intros He. by apply e_hold, e_take_final, e_record. Qed.
Lemma e_opens k o head o1 : nt_id head = Server k -> elsewhere k o o1 -> elsewhere k o (open_txn head o1).
Proof. intros Hk. by apply e_open. Qed.
Lemma e_send k o b d o1 : elsewhere k o o1 -> elsewhere k o (send_buffer b d o1).
Proof. by apply e_quiet. Qed.

Lemma fresh_unanswered k o : servers o !! k = None -> unanswered_at k o.
Proof. intros Hn t. congruence. Qed.
Lemma active_unanswered_at k o t : servers o !! k = Some t -> is_active (tx_state t) = true -> unanswered_at k o.
Proof. intros Ht Ha t' Ht'. simplify_eq. by apply active_unanswered. Qed.

Lemma k_seed_server_invite cr q t p l o : keep o (seed_server_invite cr q t p l o).2.
Proof.
  unfold seed_server_invite. destruct (id_of_request q) as [k|]; [|apply stays_refl].
  destruct (servers o !! k) eqn:Hn; [apply stays_refl|]. apply (elsewhere_keep k); [|by apply fresh_unanswered].
  set (o1 := hold_seeded_identity k _). assert (elsewhere k o o1) as H1 by (by apply e_identity, e_open).
  destruct p; [|done]. cbn [snd]. destruct (response_destination _); [apply e_send|]; by apply e_upd.
Qed.
Lemma k_seed_accepted cr r l o : keep o (seed_accepted cr r l o).2.
Proof.
  unfold seed_accepted. destruct (id_of_response r) as [k|]; [|apply stays_refl]. destruct (servers o !! k) as [t|] eqn:Ht.
  - destruct (is_active _) eqn:Ha; [|apply stays_refl]. apply (elsewhere_keep k); [|by apply (active_unanswered_at k o t)].
    cbn [snd]. assert (elsewhere k o (accept_server k r o)) as H1 by (by apply e_accept).
    destruct (tx_destination t); [|done]. destruct (tx_seeded t); [done|by apply e_send].
  - apply (elsewhere_keep k); [|by apply fresh_unanswered]. cbn [snd]. by apply e_accept, e_identity, e_opens.
Qed.
Lemma k_seed_rejected cr r d l ms o : keep o (seed_rejected cr r d l ms o).2.
Proof.
  unfold seed_rejected. destruct (id_of_response r) as [k|]; [|apply stays_refl]. destruct (servers o !! k) as [t|] eqn:Ht.
  - destruct (is_active _) eqn:Ha; [|apply stays_refl]. apply (elsewhere_keep k); [|by apply (active_unanswered_at k o t)].
    cbn [snd]. apply e_send. destruct ms; [apply e_hold_for|]; by apply e_arm_final, e_upd, e_take_final, e_record.
  - apply (elsewhere_keep k); [|by apply fresh_unanswered]. cbn [snd].
    destruct ms; [apply e_hold_for|]; by apply e_arm_final, e_take_final, e_record, e_identity, e_opens.
Qed.
Lemma k_seed_server_non_invite cr q l o : keep o (seed_server_non_invite cr q l o).2.
Proof.
  unfold seed_server_non_invite. destruct (id_of_request q) as [k|]; [|apply stays_refl].
  destruct (servers o !! k) eqn:Hn; [apply stays_refl|]. apply (elsewhere_keep k); [|by apply fresh_unanswered]. by apply e_opens.
Qed.
Lemma k_seed_answered cr r d ms l o : keep o (seed_answered_non_invite cr r d ms l o).2.
Proof.
  unfold seed_answered_non_invite. destruct (id_of_response r) as [k|]; [|destruct (rs_method r); apply stays_refl].
  destruct (rs_method r); try apply stays_refl; (destruct (servers o !! k) as [t|] eqn:Ht;
    [destruct (is_active _) eqn:Ha; [apply (elsewhere_keep k); [|by apply (active_unanswered_at k o t)]|apply stays_refl]
    |apply (elsewhere_keep k); [|by apply fresh_unanswered]]); cbn [snd];
    by apply e_send, e_hold_for, e_take_final; try apply e_identity, e_opens.
Qed.
(** The seeds of client transactions change no server's. *)
Lemma k_seed_client cr s o :
  match s with ClientInvite _ _ _ _ _ | ClientRejected _ _ _ | ClientNonInvite _ _ _ => True | _ => False end ->
  keep o (seed_one cr s o).2.
Proof.
  intros Hs. apply stays_walk. destruct s as [q d p c a|q d ms| | | |q d ms| |]; try done; simpl.
  - unfold seed_client_invite, seed_held_cancel. destruct (filled _) as [b|]; [|apply w_refl].
    destruct (clients o !! b); [apply w_refl|]. destruct (arm _ _ o) as [key o1] eqn:Ha.
    assert (walk false o o1) as H1 by (by apply (w_arm false o) in Ha; [|apply w_refl]).
    set (o2 := open_txn_with _ _ _). assert (walk false o o2) as H2 by (by apply w_open).
    set (o3 := match c with Some _ => _ | None => _ end). assert (walk false o o3) as H3.
    { unfold o3. destruct c; [|done]. destruct (clients o2 !! b); auto 10 with walk. }
    assert (walk false o (release_seed_resend b o3)) as H4 by auto with walk.
    destruct (true && negb p); [|done]. destruct a as [[]|]; simpl; auto with walk.
  - unfold seed_client_rejected, open_txn. destruct (filled _) as [b|]; [|apply w_refl].
    destruct (clients o !! b); [apply w_refl|]. cbn [snd]. apply w_hold_for_client, w_open; auto with walk.
  - unfold seed_client_non_invite, open_txn. destruct (filled _) as [b|]; [|apply w_refl].
    destruct (clients o !! b); [apply w_refl|]. destruct (client_timeout _ _). cbn [snd]. apply w_send, w_start, w_open; auto with walk.
Qed.
Lemma k_do_seed cr seeds o : keep o (do_seed cr seeds o).2.
Proof.
  unfold do_seed. apply (foldl_keeps (fun p : nat * Owner => keep o p.2)); [|apply stays_refl].
  intros [n o1] s H1. simpl in H1. assert (keep o1 (seed_one cr s o1).2) as H2.
  { destruct s; try (by apply k_seed_client); [apply k_seed_server_invite|apply k_seed_accepted|apply k_seed_rejected
      |apply k_seed_server_non_invite|apply k_seed_answered]. }
  destruct (seed_one cr s o1). by apply (keep_trans _ o1).
Qed.

(** ** Transactions that leave *)

Lemma shrink_delete id o : shrink o (delete_txn id o).2.
Proof.
  intros k t' Ht'. exists t'. split; [|intros; apply fixed_refl]. destruct (decide (Server k = id)) as [<-|Hne].
  - change (txn (Server k) (delete_txn (Server k) o).2 = Some t') in Ht'. by rewrite txn_delete in Ht'.
  - change (txn (Server k) (delete_txn id o).2 = Some t') in Ht'. by rewrite txn_delete_other in Ht'.
Qed.
Lemma shrink_delete_all ids o : shrink o (delete_all ids o).2.
Proof.
  unfold delete_all. apply (foldl_keeps (fun p : nat * Owner => shrink o p.2)); [|apply stays_refl].
  intros [n o1] id H1. simpl in H1. pose proof (shrink_delete id o1) as H2. destruct (delete_txn id o1).
  by apply (shrink_trans _ o1).
Qed.
Lemma shrink_expire id o : shrink o (expire id o).
Proof.
  unfold expire. apply (shrink_trans _ (delete_txn id o).2); [apply shrink_delete|].
  destruct (match txn id o with Some _ => _ | None => _ end) as [[[k c] f]|]; by apply stays_eq.
Qed.
Lemma shrink_sweep o : shrink o (sweep o).
Proof.
  unfold sweep. apply (shrink_trans _ (reap_overdue o)); [|by apply stays_eq]. unfold reap_overdue.
  apply (foldl_keeps (shrink o)); [|apply stays_refl]. intros o1 id H1. apply (shrink_trans _ o1); [done|].
  apply (shrink_trans _ (expire id o1)); [apply shrink_expire|by apply stays_eq].
Qed.
Lemma shrink_relinquish cr o : shrink o (relinquish_call cr o).2.
Proof.
  unfold relinquish_call. eapply shrink_trans; [|apply shrink_delete_all].
  apply (foldl_keeps (shrink o)).
  { intros o1 k H1. apply (shrink_trans _ o1); [done|apply s_waive]. }
  apply (foldl_keeps (shrink o)); [|by apply stays_eq].
  intros o1 b H1. apply (shrink_trans _ o1); [done|]. apply stays_walk, w_held_ack, w_refl.
Qed.
Lemma k_answer_unanswered cr st rs o : keep o (answer_unanswered_invites_of_call cr st rs o).2.
Proof.
  unfold answer_unanswered_invites_of_call. apply (foldl_keeps (fun p : nat * Owner => keep o p.2)); [|apply stays_refl].
  intros [n o1] [[k q] source] H1. simpl in H1. destruct (or_else _ _) as [d|]; [|done].
  pose proof (s_uas_to_tag k o1) as H2. destruct (uas_to_tag_of k o1) as [tag o2]. simpl in H2.
  assert (keep o o2) as H3 by (apply (keep_trans _ o1); [done|apply H2]).
  destruct (generate_response _ _ _ _ _) as [r|]; [|done]. apply (keep_trans _ o2); [done|apply k_send_response].
Qed.

(** ** A turn *)

Lemma given_stays o o' : stays o o' -> given o o'.
Proof. intros [H _]. by apply keep_given. Qed.
Lemma given_walk o o' : walk false o o' -> given o o'.
Proof. intros H. by apply given_stays, stays_walk. Qed.

Lemma given_command c o : given o (handle_command c o).
Proof.
  destruct c; simpl; try (by apply given_stays, stays_eq);
    try solve [apply given_walk; auto using w_do_send, w_send, w_cancel_txns, w_held_ack, w_refl].
  - apply keep_given, k_send_response.
  - apply keep_given, k_do_seed.
  - destruct message; simpl; [case_decide|]; [apply keep_given, k_handle_cancel|apply given_walk, w_refl|].
    apply given_walk, w_inbound_response, w_refl.
  - apply shrink_given, shrink_relinquish.
  - apply shrink_given. eapply shrink_trans; [apply s_waive|apply shrink_delete].
  - apply given_walk. unfold relinquish_client. by apply w_delete, w_held_ack, w_refl.
  - apply shrink_given, shrink_delete_all.
  - apply shrink_given, shrink_delete_all.
  - apply keep_given, k_answer_unanswered.
  - apply given_stays. unfold release_held_cancel. destruct (held_cancels o !! _); [apply s_send_held|apply stays_refl].
  - apply keep_given, k_first_trying.
  - apply given_walk. destruct (has_txns_for _ _); [by apply w_quiet|]. apply w_emit_critical. by apply w_quiet.
Qed.
Lemma given_timer tm o : given o (fire_timer tm o).
Proof.
  destruct tm as [b|k|b|b|k op|id|b op|k op|b|]; simpl; try solve [apply given_walk; auto 10 with walk].
  - apply given_stays. eapply stays_trans; [|apply s_fire_server]. apply stays_upd. fixes.
  - apply keep_given. unfold fire_trying. destruct (servers o !! k); [|apply stays_refl].
    case_decide; [apply k_first_trying|apply stays_refl].
  - apply shrink_given. eapply shrink_trans; [|apply shrink_expire]. destruct id as [b|k]; [by apply stays_eq|].
    apply (stays_upd k). fixes.
  - apply given_stays. unfold fire_cancel_bound. destruct (servers o !! k); [|apply stays_refl].
    case_decide; [|apply stays_refl]. pose proof (s_send_held k o) as H1. destruct (send_held_cancel k o) as [[] o1]; [|done].
    apply (stays_trans _ o1); [done|]. apply stays_walk. auto with walk.
  - apply given_stays, stays_eq. unfold flush_deferred. destruct (_ && _); [done|]. destruct (flush_loop _ _).
    destruct (bool_decide _); [done|]. unfold arm_event_retry. simpl. done.
Qed.
Lemma given_work w o : given o (work w o).
Proof.
  destruct w as [k c t|c|key| |[r|r] src| | | | | | ]; simpl; try apply given_stays, stays_refl.
  - unfold forget_unanswered. destruct (servers o !! k); [|apply given_stays, stays_refl].
    destruct (_ && _); [apply shrink_given, shrink_delete|apply given_stays, stays_refl].
  - apply given_command.
  - destruct (timers o !! key) as [[due tm]|]; [|apply given_stays, stays_refl].
    destruct (_ <=? _); [|apply given_stays, stays_refl].
    intros k' t' Ht'. apply (given_timer tm (o <| timers ::= delete key |>) k' t'). exact Ht'.
  - apply shrink_given, shrink_sweep.
  - apply keep_given, k_inbound_request.
  - apply given_walk, w_inbound_response, w_refl.
Qed.
Lemma given_turn w o : given o (turn o w).
Proof.
  assert (given o (flush_pending_quiesce (flush_owed_sends (work w o)))) as Hg.
  { intros k t Ht Hf. pose proof (txn_turn_end (Server k) (work w o)) as He. simpl in He. rewrite He.
    by apply given_work. }
  destruct w; try exact Hg; by apply given_stays, stays_eq.
Qed.
End final.

(** C15: a final response is given once (RFC 3261 17.2.1 and 17.2.2).  Whatever
    turn an owner takes, a server transaction that took its final either leaves
    or keeps that response, its status, where it goes and the tag it answered
    with, and its state, an ACK taking Completed to Confirmed apart.  And a
    response the transaction user sends on it is dropped whole: nothing leaves
    and no state changes. *)
Theorem final_given_once `{E : TxnEnv} {W : TxnEnvLaws E} o k t :
  servers o !! k = Some t -> final_sent (tx_state t) = true ->
  (forall w, servers (turn o w) !! k = None \/ exists t', servers (turn o w) !! k = Some t' /\ fixed t t') /\
  (forall r dest, id_of_response r = Some k -> rs_method r <> MCancel -> (do_send_response r dest o).2 = o).
Proof.
  intros Ht Hf. split; [intros w; by apply given_turn|]. intros r dest Hr Hm. unfold do_send_response.
  rewrite (bool_decide_false _ Hm). unfold server_of. rewrite Hr. simpl. rewrite Ht. simpl. by rewrite Hf.
Qed.
Lemma final_given_once_witness :
  let o := reached ex_memo ex_gate 0 ex_run in
  let ack := WPacket (Request (ex_request MAck "z9hG4bK1" "ACK")) ex_peer in
  exists k t t', servers o !! k = Some t /\ servers (turn o ack) !! k = Some t' /\ fixed t t' /\ tx_state t' = Confirmed /\
  (do_send_response (ex_answer 200 "200") ex_peer o).2 = o.
Proof.
  intros o ack. exists (mkServerKey "z9hG4bK1" "10.0.0.1" (Some 5060) MInvite). eexists _, _.
  split; [vm_compute; reflexivity|]. split; [vm_compute; reflexivity|].
  lazymatch goal with |- fixed ?t ?t' /\ _ => set (t0 := t); set (t1 := t') end.
  destruct (final_given_once o (mkServerKey "z9hG4bK1" "10.0.0.1" (Some 5060) MInvite) t0) as [H1 H2];
    [vm_compute; reflexivity..|].
  split; [|split; [reflexivity|apply H2; [reflexivity|discriminate]]].
  destruct (H1 ack) as [Hn|(t' & Ht' & Hf)]; [vm_compute in Hn; discriminate|].
  assert (t' = t1) as <-; [|exact Hf]. vm_compute in Ht'. unfold t1. by injection Ht'.
Defined.
