(* ===== verification/ProxyTypes.v ===== *)
(** * Front proxy: addresses and cookies

    [crates/sip-proxy/src/addr.rs] and the [RouteParams] of
    [crates/sip-proxy/src/strategy.rs]. *)

From S2P Require Import Prelude Texts.
From stdpp Require Import pretty.
From Stdlib Require Import Ascii.

Open Scope Z_scope.

(** ** [ProxyAddr] *)

Record ProxyAddr := mkAddr { pa_host : string; pa_port : Z }.
#[global] Instance ProxyAddr_eq_dec : EqDecision ProxyAddr.
Proof. solve_decision. Defined.
#[global] Instance ProxyAddr_countable : Countable ProxyAddr.
Proof. apply (inj_countable' (fun a => (pa_host a, pa_port a)) (fun '(h, p) => mkAddr h p)). by intros []. Defined.

(** [ProxyAddr::parse]. *)
Definition parse_addr (s : string) : option ProxyAddr :=
  '(host, port) ← rsplit_once ":"%char s;
  match host with
  | EmptyString => None
  | _ => p ← parse_uint u16_MAX port; Some (mkAddr host p)
  end.
(** Its [Display]. *)
Definition show_addr (a : ProxyAddr) : string := (pa_host a +:+ String ":" (pretty (pa_port a)))%string.

Lemma parse_show_addr a : pa_host a <> ""%string -> 0 <= pa_port a <= u16_MAX -> parse_addr (show_addr a) = Some a.
Proof.
  intros Hh Hp. unfold parse_addr, show_addr. rewrite rsplit_once_app by apply pretty_no_colon. simpl.
  rewrite parse_uint_pretty by done. destruct a as [[|c h] p]; done.
Qed.

(** ** [RouteParams] *)

(** A [BTreeMap] of texts, as its pairs in order of name. *)
Notation RouteParams := (list (string * string)).

Definition rp_get (name : string) (m : RouteParams) : option string := snd <$> List.find (fun p => String.eqb p.1 name) m.
Fixpoint rp_insert (name value : string) (m : RouteParams) : RouteParams :=
  match m with
  | [] => [(name, value)]
  | (n, v) :: m' =>
      match String.compare name n with
      | Lt => (name, value) :: m
      | Eq => (name, value) :: m'
      | Gt => (n, v) :: rp_insert name value m'
      end
  end.

Lemma rp_get_insert_eq n v m : rp_get n (rp_insert n v m) = Some v.
Proof.
  unfold rp_get. induction m as [|[n' v'] m IH]; simpl; [by rewrite String.eqb_refl|].
  destruct (String.compare n n') eqn:Hc; simpl; [by rewrite String.eqb_refl..|].
  destruct (String.eqb_spec n' n) as [->|_]; [|done]. by rewrite str_compare_refl in Hc.
Qed.
Lemma rp_get_insert_ne n n' v m : n <> n' -> rp_get n (rp_insert n' v m) = rp_get n m.
Proof.
  intros Hn. unfold rp_get. assert (String.eqb n' n = false) as E by (apply String.eqb_neq; congruence).
  induction m as [|[m1 v1] m IH]; simpl; [by rewrite E|].
  destruct (String.compare n' m1) eqn:Hc; simpl; rewrite ?E.
  - apply String.compare_eq_iff in Hc as ->. by rewrite E.
  - done.
  - destruct (String.eqb m1 n); [done|apply IH].
Qed.
