(* ===== verification/SipHops.v ===== *)
(** * SIP parameters, hops and URIs, as a router reads them

    [crates/sip-message/src/header/params.rs], [header/via.rs] and
    [header/uri.rs]: the ordered parameter list, one Via hop with its stamping
    and its response target, a URI's host, port and parameters.  An address is
    the number its text names; reading and writing that text is the standard
    library's. *)

From S2P Require Import Prelude Texts TxnData ProxyTypes.
From stdpp Require Import pretty.
From Stdlib Require Import Ascii.

Open Scope Z_scope.

(** ** Percent codec and method tokens ([param_codec.rs], [method.rs]) *)


Definition hex_digit (v : nat) : ascii := ascii_of_nat (if (v <=? 9)%nat then 48 + v else 97 + (v - 10)).
Definition hex_val (c : ascii) : option nat :=
  (let n := nat_of_ascii c in
   if (48 <=? n) && (n <=? 57) then Some (n - 48)
   else if (97 <=? n) && (n <=? 102) then Some (n - 97 + 10)
   else if (65 <=? n) && (n <=? 70) then Some (n - 65 + 10)
   else None)%nat.
Definition unreserved (c : ascii) : bool :=
  (let n := nat_of_ascii c in
   ((48 <=? n) && (n <=? 57)) || ((65 <=? n) && (n <=? 90)) || ((97 <=? n) && (n <=? 122)) || bool_decide (n ∈ [45; 46; 95; 126]))%nat.

Fixpoint encode_param (s : string) : string :=
  match s with
  | EmptyString => EmptyString
  | String b s =>
      if unreserved b then String b (encode_param s)
      else let n := nat_of_ascii b in String "%" (String (hex_digit (n / 16)%nat) (String (hex_digit (n mod 16)%nat) (encode_param s)))
  end.
(** The bytes [decode_param] collects, before they are read as UTF-8. *)
Fixpoint decode_bytes (s : string) : string :=
  match s with
  | EmptyString => EmptyString
  | String b s' =>
      match s' with
      | String h (String l rest) =>
          if Ascii.eqb b "%" then
            match hex_val h, hex_val l with
            | Some hi, Some lo => String (ascii_of_nat (hi * 16 + lo)%nat) (decode_bytes rest)
            | _, _ => String b (decode_bytes s')
            end
          else String b (decode_bytes s')
      | _ => String b (decode_bytes s')
      end
  end.
(** [String::from_utf8_lossy]: the identity on UTF-8. *)
Class TextEnv := { utf8_lossy : string -> string }.
Definition decode_param `{TextEnv} (s : string) : string := utf8_lossy (decode_bytes s).

(** ** The round trip *)

Lemma hex_val_digit v : (v < 16)%nat -> hex_val (hex_digit v) = Some v.
Proof. intros H. do 16 (destruct v as [|v]; [reflexivity|]). lia. Qed.
Lemma unreserved_not_percent c : unreserved c = true -> Ascii.eqb c "%" = false.
Proof. intros H. apply Ascii.eqb_neq. intros ->. vm_compute in H. done. Qed.
Lemma nat_of_ascii_bound c : (nat_of_ascii c < 256)%nat.
Proof. apply nat_ascii_bounded. Qed.

(** Escaping loses nothing: what is read back is what was escaped. *)
Lemma decode_param_encode s : decode_bytes (encode_param s) = s.
Proof.
  induction s as [|b s IH]; [done|]. cbn [encode_param]. destruct (unreserved b) eqn:Hu.
  - cbn [decode_bytes]. rewrite (unreserved_not_percent _ Hu), IH. by repeat case_match.
  - cbn [decode_bytes]. pose proof (nat_of_ascii_bound b). rewrite Ascii.eqb_refl, !hex_val_digit, IH.
    + replace (nat_of_ascii b / 16 * 16 + nat_of_ascii b mod 16)%nat with (nat_of_ascii b) by (rewrite Nat.mul_comm; apply Nat.div_mod_eq).
      by rewrite ascii_nat_embedding.
    + apply Nat.mod_upper_bound. lia.
    + apply Nat.Div0.div_lt_upper_bound. lia.
Qed.
(** What travels is unreserved characters and escapes. *)
Lemma encode_safe s c : has_char c (encode_param s) = true -> unreserved c = true \/ c = "%"%char.
Proof.
  assert (forall v, (v < 16)%nat -> unreserved (hex_digit v) = true) as Hd by (intros v H; do 16 (destruct v as [|v]; [reflexivity|]); lia).
  induction s as [|b s IH]; [done|]. cbn [encode_param]. pose proof (nat_of_ascii_bound b) as Hb.
  assert (nat_of_ascii b / 16 < 16)%nat by (apply Nat.Div0.div_lt_upper_bound; lia).
  assert (nat_of_ascii b mod 16 < 16)%nat by (apply Nat.mod_upper_bound; lia).
  destruct (unreserved b) eqn:Hu; cbn [has_char]; rewrite ?orb_true_iff, ?bool_decide_eq_true.
  - intros [->|H']; [by left|auto].
  - intros [->|[->|[->|H']]]; [by right|left; auto|left; auto|auto].
Qed.

(** ** Methods ([method.rs]) *)

Definition NATIVE : list (string * Method) :=
  [("INVITE", MInvite); ("ACK", MAck); ("BYE", MBye); ("CANCEL", MCancel); ("OPTIONS", MOptions); ("REGISTER", MRegister); ("INFO", MInfo);
   ("UPDATE", MUpdate); ("PRACK", MPrack); ("SUBSCRIBE", MSubscribe); ("NOTIFY", MNotify); ("PUBLISH", MPublish); ("MESSAGE", MMessage);
   ("REFER", MRefer)]%string.
Definition method_str (m : Method) : string :=
  match m with
  | MInvite => "INVITE" | MAck => "ACK" | MBye => "BYE" | MCancel => "CANCEL" | MOptions => "OPTIONS" | MRegister => "REGISTER"
  | MInfo => "INFO" | MUpdate => "UPDATE" | MPrack => "PRACK" | MSubscribe => "SUBSCRIBE" | MNotify => "NOTIFY"
  | MPublish => "PUBLISH" | MMessage => "MESSAGE" | MRefer => "REFER" | MOther s => s
  end.
Definition from_wire (s : string) : Method :=
  match List.find (fun p => String.eqb p.1 s) NATIVE with Some p => p.2 | None => MOther s end.

Lemma str_from_wire s : method_str (from_wire s) = s.
Proof.
  unfold from_wire. destruct (List.find _ _) as [[t m]|] eqn:Hf; [|done].
  apply List.find_some in Hf as [Hin He]. apply String.eqb_eq in He. simpl in *. subst t.
  repeat (destruct Hin as [Hin|Hin]; [by simplify_eq|]). done.
Qed.
(** A method as read: never a native one spelt as an extension. *)
Definition method_read (m : Method) : Prop := m = from_wire (method_str m).
Lemma method_str_inj m n : method_read m -> method_read n -> method_str m = method_str n -> m = n.
Proof. unfold method_read. congruence. Qed.


(** ** Addresses *)

Inductive IpAddr := V4 (a : Z) | V6 (a : Z).
#[global] Instance IpAddr_eq_dec : EqDecision IpAddr.
Proof. solve_decision. Defined.
Record SocketAddr := mkSock { sa_ip : IpAddr; sa_port : Z }.
#[global] Instance SocketAddr_eq_dec : EqDecision SocketAddr.
Proof. solve_decision. Defined.
(** [IpAddr::to_canonical]: an IPv4-mapped IPv6 address is its IPv4 address. *)
Definition to_canonical (a : IpAddr) : IpAddr :=
  match a with
  | V6 z => if z / 2 ^ 32 =? 65535 then V4 (z mod 2 ^ 32) else a
  | V4 _ => a
  end.

(** The text of an address, and [ip_host]: the address a host's text names. *)
Class HostEnv := {
  show_ip : IpAddr -> string;
  ip_host : string -> option IpAddr;
}.
Class HostLaws (E : HostEnv) : Prop := {
  ip_show a : ip_host (show_ip a) = Some a;
}.

Section hosts.
Context `{E : HostEnv}.
(** [ProxyAddr::from(SocketAddr)], [to_socket_addr] and [observed_source]. *)
Definition addr_of_sock (s : SocketAddr) : ProxyAddr := mkAddr (show_ip (sa_ip s)) (sa_port s).
Definition to_socket_addr (a : ProxyAddr) : option SocketAddr := ip ← ip_host (pa_host a); Some (mkSock ip (pa_port a)).
Definition observed_source (s : SocketAddr) : string * Z := (show_ip (to_canonical (sa_ip s)), sa_port s).
End hosts.

(** ** Parameters ([params.rs]) *)

Inductive ParamValue := PFlag | PToken (v : string) | PQuoted (v : string).
#[global] Instance ParamValue_eq_dec : EqDecision ParamValue.
Proof. solve_decision. Defined.
Definition param_text (v : ParamValue) : option string := match v with PFlag => None | PToken v | PQuoted v => Some v end.
Fixpoint any_char (f : ascii -> bool) (s : string) : bool := match s with EmptyString => false | String a s => f a || any_char f s end.
(** The bytes a bare value cannot carry: [; , > = ?], a quote, a space, a tab. *)
Definition needs_quotes (a : ascii) : bool := bool_decide (nat_of_ascii a ∈ [59; 44; 34; 62; 32; 9; 61; 63]%nat).
Definition text_value (v : string) : ParamValue := if String.eqb v "" || any_char needs_quotes v then PQuoted v else PToken v.

Notation ParamList := (list (string * ParamValue)).
Definition same_name (a b : string) : bool := String.eqb (lower a) (lower b).
Definition params_get (name : string) (l : ParamList) : option ParamValue := snd <$> List.find (fun p => same_name p.1 name) l.
Definition params_value (name : string) (l : ParamList) : option string := params_get name l ≫= param_text.
Definition params_has (name : string) (l : ParamList) : bool := bool_decide (is_Some (params_get name l)).
Fixpoint params_set (name : string) (v : ParamValue) (l : ParamList) : ParamList :=
  match l with
  | [] => [(name, v)]
  | (k, w) :: l => if same_name k name then (k, v) :: l else (k, w) :: params_set name v l
  end.

(** ** A host with its port ([HostPort]) *)

Record HostPort := mkHP { hp_host : string; hp_port : option Z }.
#[global] Instance HostPort_eq_dec : EqDecision HostPort.
Proof. solve_decision. Defined.
Definition DEFAULT_PORT : Z := 5060.
Definition port_or_default (h : HostPort) : Z := default DEFAULT_PORT (hp_port h).
Definition hp_pair (h : HostPort) : ProxyAddr := mkAddr (hp_host h) (port_or_default h).

(** ** A Via hop ([via.rs]) *)

Definition BRANCH_MAGIC_COOKIE : string := "z9hG4bK".
Inductive Rport := Requested | Observed (port : Z).
Record ViaHop := mkHop { hop_transport : string; hop_sent_by : HostPort; hop_params : ParamList }.
#[global] Instance ViaHop_eq_dec : EqDecision ViaHop.
Proof. solve_decision. Defined.
Definition via_udp (a : ProxyAddr) : ViaHop := mkHop "UDP" (mkHP (pa_host a) (Some (pa_port a))) [].
Definition hop_param (name : string) (h : ViaHop) : option ParamValue := params_get name (hop_params h).
Definition hop_branch (h : ViaHop) : option string := params_value "branch" (hop_params h).
Definition hop_received (h : ViaHop) : option string := params_value "received" (hop_params h).
Definition hop_rport (h : ViaHop) : option Rport :=
  match params_get "rport" (hop_params h) with
  | None => None
  | Some PFlag => Some Requested
  | Some v => p ← param_text v ≫= parse_uint u16_MAX; Some (Observed p)
  end.
Definition with_param (name : string) (v : ParamValue) (h : ViaHop) : ViaHop :=
  mkHop (hop_transport h) (hop_sent_by h) (params_set name v (hop_params h)).
Definition with_branch (b : string) : ViaHop -> ViaHop := with_param "branch" (PToken b).
Definition with_received (host : string) : ViaHop -> ViaHop := with_param "received" (PToken host).
Definition requesting_rport : ViaHop -> ViaHop := with_param "rport" PFlag.
Definition with_rport (port : Z) : ViaHop -> ViaHop := with_param "rport" (PToken (pretty port)).

Section hops.
Context `{E : HostEnv}.
Definition response_target (h : ViaHop) : ProxyAddr :=
  mkAddr (match hop_received h with
          | Some r => if bool_decide (is_Some (ip_host r)) then r else hp_host (hop_sent_by h)
          | None => hp_host (hop_sent_by h)
          end)
    (match hop_rport h with Some (Observed p) => p | _ => port_or_default (hop_sent_by h) end).
Definition stamped_from (source_host : string) (source_port : Z) (h : ViaHop) : ViaHop :=
  let rport_asked := bool_decide (is_Some (hop_param "rport" h)) in
  let same_host :=
    match ip_host (hp_host (hop_sent_by h)), ip_host source_host with
    | Some sent_by, Some source => bool_decide (to_canonical sent_by = to_canonical source)
    | _, _ => String.eqb (hp_host (hop_sent_by h)) source_host
    end in
  let h := if rport_asked || bool_decide (is_Some (hop_received h)) || negb same_host then with_received source_host h else h in
  if rport_asked then with_rport source_port h else h.
End hops.

(** ** A URI ([uri.rs]) *)

(** [u_scheme] is empty for text no reader accepts; [u_opaque_part] is filled
    for a scheme other than sip, sips and tel. *)
Record SipUri := mkSipUri {
  u_scheme : string; u_user : option string; u_authority : HostPort; u_params : ParamList; u_opaque_part : option string;
}.
#[global] Instance SipUri_eq_dec : EqDecision SipUri.
Proof. solve_decision. Defined.
Definition uri_sip (host : string) (port : Z) : SipUri := mkSipUri "sip" None (mkHP host (Some port)) [] None.
Definition is_opaque (u : SipUri) : bool := String.eqb (u_scheme u) "".
Definition host_port (u : SipUri) : ProxyAddr := hp_pair (u_authority u).
Definition is_loose_route (u : SipUri) : bool := params_has "lr" (u_params u).
Definition uri_with_param (name : string) (v : ParamValue) (u : SipUri) : SipUri :=
  mkSipUri (u_scheme u) (u_user u) (u_authority u) (params_set name v (u_params u)) (u_opaque_part u).
Definition uri_with_flag (name : string) : SipUri -> SipUri := uri_with_param name PFlag.

(** ** Lemmas *)

Lemma same_name_refl a : same_name a a = true.
Proof. apply String.eqb_refl. Qed.
Lemma same_name_true a b : same_name a b = true <-> lower a = lower b.
Proof. unfold same_name. by rewrite String.eqb_eq. Qed.
Lemma get_cons k v l n : params_get n ((k, v) :: l) = if same_name k n then Some v else params_get n l.
Proof. unfold params_get. simpl. by destruct (same_name k n). Qed.
Lemma get_set n m v l : params_get n (params_set m v l) = if same_name m n then Some v else params_get n l.
Proof.
  induction l as [|[k w] l IH]; simpl; rewrite ?get_cons; [done|].
  destruct (same_name k m) eqn:Hk; rewrite !get_cons.
  - apply same_name_true in Hk. unfold same_name. rewrite Hk. by destruct (String.eqb (lower m) (lower n)).
  - rewrite IH. destruct (same_name k n) eqn:Hn; [|done]. destruct (same_name m n) eqn:Hm; [|done].
    apply same_name_true in Hn, Hm. unfold same_name in Hk. apply String.eqb_neq in Hk. congruence.
Qed.

Section hop_lemmas.
Context `{L : HostLaws}.

(** RFC 3581: a hop that asked for [rport] is answered at the source. *)
Lemma stamped_target host port h :
  is_Some (ip_host host) -> 0 <= port <= u16_MAX -> is_Some (hop_param "rport" h) ->
  response_target (stamped_from host port h) = mkAddr host port.
Proof.
  intros Hip Hp Hr. unfold stamped_from. rewrite (bool_decide_true (is_Some (hop_param _ _))) by done. simpl.
  unfold response_target, hop_received, hop_rport, with_rport, with_received, with_param, params_value. simpl.
  rewrite !get_set. change (same_name "rport" "received") with false. change (same_name "received" "received") with true. change (same_name "rport" "rport") with true. simpl.
  rewrite bool_decide_true by done. rewrite parse_uint_pretty by lia. done.
Qed.
(** The stamp leaves the sent-by and every other parameter. *)
Lemma stamped_sent_by host port h : hop_sent_by (stamped_from host port h) = hop_sent_by h.
Proof. unfold stamped_from. by repeat case_match. Qed.
Lemma stamped_param name host port h :
  same_name "rport" name = false -> same_name "received" name = false -> hop_param name (stamped_from host port h) = hop_param name h.
Proof.
  intros H1 H2. unfold stamped_from, hop_param, with_rport, with_received, with_param.
  repeat case_match; simpl; rewrite ?get_set, ?H1, ?H2; done.
Qed.
End hop_lemmas.
