(* ===== verification/SipText.v ===== *)
(** * SIP text: character classes, scanning, parameter lists

    [crates/sip-message/src/char_class.rs], [header/scan.rs], [header/wire.rs]
    and the reading and rendering half of [header/params.rs].  A text is its
    bytes; readers go by byte index, as the source does.  Every delimiter is
    ASCII, so an index a reader cuts at is never inside a character. *)

From stdpp Require Import pretty.
From Stdlib Require Import Ascii.
From S2P Require Import Prelude Texts TxnData ProxyTypes SipHops.

Open Scope Z_scope.

(** ** Character classes ([char_class.rs]) *)

Definition between (lo hi : nat) (a : ascii) : bool := (lo <=? nat_of_ascii a)%nat && (nat_of_ascii a <=? hi)%nat.
Definition is_ascii_digit (a : ascii) : bool := between 48 57 a.
Definition is_ascii_alphabetic (a : ascii) : bool := between 65 90 a || between 97 122 a.
Definition is_ascii_hexdigit (a : ascii) : bool := is_ascii_digit a || between 65 70 a || between 97 102 a.
Definition is_alphanum (a : ascii) : bool := is_ascii_alphabetic a || is_ascii_digit a.
Definition is_mark (a : ascii) : bool := has_char a "-_.!~*'()".
Definition is_unreserved (a : ascii) : bool := is_alphanum a || is_mark a.
Definition is_reserved (a : ascii) : bool := has_char a ";/?:@&=+$,".
Definition is_user_unreserved (a : ascii) : bool := has_char a "&=+$,;?/".
Definition is_user_char (a : ascii) : bool := is_unreserved a || is_user_unreserved a.
Definition is_password_char (a : ascii) : bool := is_unreserved a || has_char a "&=+$,".
Definition is_param_unreserved (a : ascii) : bool := has_char a "[]/:&+$".
Definition is_paramchar (a : ascii) : bool := is_param_unreserved a || is_unreserved a.
Definition is_hnv_unreserved (a : ascii) : bool := has_char a "[]/?:+$".
Definition is_hnv_char (a : ascii) : bool := is_hnv_unreserved a || is_unreserved a.
Definition is_token_char (a : ascii) : bool := is_alphanum a || has_char a "-.!%*_+`'~".
Definition is_uri_char (a : ascii) : bool := is_reserved a || is_unreserved a || has_char a "%[]".
(** [run_refusal]: whether it refuses. *)
Fixpoint run_refused (class : ascii -> bool) (escapes : bool) (s : string) : bool :=
  match s with
  | EmptyString => false
  | String b tail =>
      if escapes && Ascii.eqb b "%" then
        match tail with
        | String h (String l more) => if is_ascii_hexdigit h && is_ascii_hexdigit l then run_refused class escapes more else true
        | _ => true
        end
      else if negb (class b) then true
      else run_refused class escapes tail
  end.

(** ** Scanning ([scan.rs]) *)

Definition byte_at (s : string) (i : nat) : option ascii := String.get i s.
(** [s[i..]], empty past the end. *)
Fixpoint suffix (i : nat) (s : string) : string :=
  match i, s with O, _ => s | S i, String _ s => suffix i s | S _, EmptyString => EmptyString end.
Fixpoint str_take (n : nat) (s : string) : string :=
  match n, s with S n, String a s => String a (str_take n s) | _, _ => EmptyString end.
(** The length of the leading run of [f]. *)
Fixpoint run_len (f : ascii -> bool) (s : string) : nat :=
  match s with String a s => if f a then S (run_len f s) else O | EmptyString => O end.
Definition is_ws (a : ascii) : bool := Ascii.eqb a " " || Ascii.eqb a (ascii_of_nat 9).
Definition skip_ws (s : string) (i : nat) : nat := i + run_len is_ws (suffix i s).
Definition index_of (s : string) (needle : ascii) (from : nat) : option nat :=
  let p := run_len (fun a => negb (Ascii.eqb a needle)) (suffix from s) in
  if (from + p <? String.length s)%nat then Some (from + p)%nat else None.
Definition scan_until (s : string) (i : nat) (delims : string) : nat := i + run_len (fun a => negb (has_char a delims)) (suffix i s).
Definition clamped (s : string) (a b : nat) : string :=
  let a := Nat.min a (String.length s) in let b := Nat.min b (String.length s) in str_take (b - a) (suffix a s).
(** [read_quoted], from the byte after the opening quote: the unescaped text and
    how many bytes were read. *)
Fixpoint unquote (s : string) : string * nat :=
  match s with
  | EmptyString => (EmptyString, O)
  | String c s =>
      match Ascii.eqb c "\", s with
      | true, String e more => let '(t, n) := unquote more in (String e t, S (S n))
      | _, _ =>
          if Ascii.eqb c (ascii_of_nat 34) then (EmptyString, 1%nat)
          else let '(t, n) := unquote s in (String c t, S n)
      end
  end.
Definition read_quoted (s : string) (i : nat) : string * nat :=
  let '(t, n) := unquote (suffix (S i) s) in (t, (S i + n)%nat).
Definition digits_end (s : string) (i : nat) : nat := i + run_len is_ascii_digit (suffix i s).

(** ** Rendering ([wire.rs]) *)

Definition dquote : ascii := ascii_of_nat 34.
Definition needs_escape (a : ascii) : bool :=
  Ascii.eqb a "\" || Ascii.eqb a dquote || between 0 8 a || Ascii.eqb a (ascii_of_nat 11) || Ascii.eqb a (ascii_of_nat 12) || between 14 31 a ||
  Ascii.eqb a (ascii_of_nat 127).
Fixpoint escape (s : string) : string :=
  match s with
  | EmptyString => EmptyString
  | String a s => if needs_escape a then String "\" (String a (escape s)) else String a (escape s)
  end.
Definition wire_quoted (s : string) : string := String dquote (escape s +:+ String dquote "").

(** ** Parameter lists ([params.rs]) *)

Definition render_value (v : ParamValue) : string :=
  match v with PFlag => "" | PToken v => String "=" v | PQuoted v => String "=" (wire_quoted v) end.
Definition render_params (l : ParamList) : string :=
  foldr (fun p r => String ";" (p.1 +:+ render_value p.2 +:+ r)) "" l.
Record ParamStyle := mkStyle { name_delims : string; value_delims : string }.
Definition tab : ascii := ascii_of_nat 9.
Definition HEADER_PARAMS : ParamStyle := mkStyle ("=; " +:+ String tab ",>") (";, " +:+ String tab ">").
Definition URI_PARAMS : ParamStyle := mkStyle ("=;>? " +:+ String tab "") (";>? " +:+ String tab "").
Definition read_one (s : string) (i : nat) (style : ParamStyle) (params : ParamList) : nat * ParamList :=
  let name_end := scan_until s i (name_delims style) in
  let name := clamped s i name_end in
  let i := skip_ws s name_end in
  if bool_decide (byte_at s i = Some "="%char) then
    let i := skip_ws s (S i) in
    if bool_decide (byte_at s i = Some dquote) then
      let '(text, e) := read_quoted s i in (e, params ++ [(name, PQuoted text)])
    else
      let value_end := scan_until s i (value_delims style) in
      (value_end, params ++ [(name, PToken (clamped s i value_end))])
  else (i, if String.eqb name "" then params else params ++ [(name, PFlag)]).
(** [collect_semicolon_params]; [None]: out of fuel. *)
Fixpoint collect_semicolon_params (fuel : nat) (s : string) (i : nat) (style : ParamStyle) (params : ParamList) : option (ParamList * nat) :=
  match fuel with
  | O => None
  | S fuel =>
      let at_ := skip_ws s i in
      if negb (bool_decide (byte_at s at_ = Some ";"%char)) then Some (params, i)
      else let '(i, params) := read_one s (skip_ws s (S at_)) style params in collect_semicolon_params fuel s i style params
  end.
Definition params_fuel (s : string) : nat := S (S (String.length s)).
Definition parse_semicolon_params (s : string) (i : nat) (style : ParamStyle) : option (ParamList * nat) :=
  collect_semicolon_params (params_fuel s) s i style [].
Definition parse_list (raw : string) : option ParamList :=
  let value := trim raw in
  let '(after_first, params) := read_one value (skip_ws value 0) HEADER_PARAMS [] in
  fst <$> collect_semicolon_params (params_fuel value) value after_first HEADER_PARAMS params.

(** ** Reading at an index *)

Lemma str_app_cons a x y : String a x +:+ y = String a (x +:+ y).
Proof. done. Qed.
Lemma str_app_nil y : "" +:+ y = y.
Proof. done. Qed.
Lemma str_app_assoc x y z : (x +:+ y) +:+ z = x +:+ (y +:+ z).
Proof. induction x as [|a x IH]; [done|]. rewrite !str_app_cons. by rewrite IH. Qed.
Lemma str_len_app x y : String.length (x +:+ y) = (String.length x + String.length y)%nat.
Proof. induction x as [|a x IH]; [done|]. rewrite ?str_app_cons, ?str_app_nil. cbn [String.length]. by rewrite IH. Qed.
Lemma suffix_app x r : suffix (String.length x) (x +:+ r) = r.
Proof. by induction x as [|a x IH]. Qed.
Lemma suffix_all s : suffix (String.length s) s = "".
Proof. by induction s. Qed.
Lemma str_take_app x r : str_take (String.length x) (x +:+ r) = x.
Proof. induction x as [|a x IH]; [by destruct r|]. rewrite ?str_app_cons, ?str_app_nil. cbn [String.length str_take]. by rewrite IH. Qed.
Lemma get_suffix i s : String.get i s = String.get 0 (suffix i s).
Proof. revert s. induction i as [|i IH]; intros [|a s]; try done. simpl. apply IH. Qed.
Definition first_char (s : string) : option ascii := match s with String a _ => Some a | EmptyString => None end.
Fixpoint last_char (s : string) : option ascii :=
  match s with EmptyString => None | String a EmptyString => Some a | String _ s => last_char s end.
Lemma str_len_pos x : x <> "" -> (0 < String.length x)%nat.
Proof. destruct x; simpl; [done|lia]. Qed.
Lemma byte_at_app p r : byte_at (p +:+ r) (String.length p) = first_char r.
Proof. unfold byte_at. rewrite get_suffix, suffix_app. by destruct r. Qed.
Lemma clamped_app p x r : clamped (p +:+ x +:+ r) (String.length p) (String.length p + String.length x) = x.
Proof.
  unfold clamped. rewrite !str_len_app, !Nat.min_l by lia.
  replace (String.length p + String.length x - String.length p)%nat with (String.length x) by lia. rewrite suffix_app. apply str_take_app.
Qed.

(** A text all of whose characters satisfy [f], and what may follow it. *)
Fixpoint every (f : ascii -> bool) (s : string) : bool := match s with EmptyString => true | String a s => f a && every f s end.
Definition stops (f : ascii -> bool) (r : string) : Prop := match first_char r with Some a => f a = false | None => True end.
Lemma every_app f x y : every f (x +:+ y) = every f x && every f y.
Proof. induction x as [|a x IH]; [done|]. rewrite ?str_app_cons, ?str_app_nil. cbn [every]. rewrite IH. apply andb_assoc. Qed.
Lemma every_impl (f g : ascii -> bool) s : (forall a, f a = true -> g a = true) -> every f s = true -> every g s = true.
Proof. intros Hfg. induction s as [|a s IH]; simpl; [done|]. rewrite !andb_true_iff. intros [H1 H2]. split; auto. Qed.
Lemma run_len_app f x r : every f x = true -> stops f r -> run_len f (x +:+ r) = String.length x.
Proof.
  intros Hx Hr. induction x as [|a x IH]; rewrite ?str_app_cons, ?str_app_nil; cbn [run_len every String.length] in *.
  - destruct r as [|a r]; [done|]. unfold stops in Hr. simpl in *. by rewrite Hr.
  - apply andb_true_iff in Hx as [H1 H2]. rewrite H1. by rewrite IH.
Qed.
Definition avoids (delims : string) : ascii -> bool := fun a => negb (has_char a delims).
Lemma scan_until_app p x r d : every (avoids d) x = true -> stops (avoids d) r ->
  scan_until (p +:+ x +:+ r) (String.length p) d = (String.length p + String.length x)%nat.
Proof. intros Hx Hr. unfold scan_until. rewrite suffix_app. by rewrite run_len_app. Qed.
Lemma skip_ws_app p r : stops is_ws r -> skip_ws (p +:+ r) (String.length p) = String.length p.
Proof. intros Hr. unfold skip_ws. rewrite suffix_app. pose proof (run_len_app is_ws "" r eq_refl Hr) as H. rewrite str_app_nil in H. rewrite H. simpl. lia. Qed.
Lemma index_of_app p x c r : every (fun a => negb (Ascii.eqb a c)) x = true ->
  index_of (p +:+ x +:+ String c r) c (String.length p) = Some (String.length p + String.length x)%nat.
Proof.
  intros Hx. unfold index_of. rewrite suffix_app, run_len_app; [|done|unfold stops; simpl; by rewrite Ascii.eqb_refl].
  rewrite (proj2 (Nat.ltb_lt _ _)); [done|]. rewrite !str_len_app. simpl. lia.
Qed.
Lemma index_of_none p x c : every (fun a => negb (Ascii.eqb a c)) x = true -> index_of (p +:+ x) c (String.length p) = None.
Proof.
  intros Hx. unfold index_of. rewrite suffix_app. pose proof (run_len_app _ x "" Hx I) as H. rewrite string_app_nil in H. rewrite H.
  rewrite (proj2 (Nat.ltb_ge _ _)); [done|]. rewrite str_len_app. lia.
Qed.

(** A quoted text reads back. *)
Lemma unquote_escape s r : unquote (escape s +:+ String dquote r) = (s, S (String.length (escape s))).
Proof.
  induction s as [|a s IH]; [done|]. cbn [escape]. destruct (needs_escape a) eqn:Ha.
  - rewrite ?str_app_cons, ?str_app_nil. cbn [unquote]. rewrite Ascii.eqb_refl, IH. done.
  - rewrite ?str_app_cons, ?str_app_nil. cbn [unquote]. unfold needs_escape in Ha. rewrite !orb_false_iff in Ha. destruct Ha as ((((((H1 & H2) & _) & _) & _) & _) & _).
    fold dquote. rewrite H1, H2, IH. by destruct (escape s +:+ String dquote r).
Qed.
Lemma read_quoted_app p s r : read_quoted (p +:+ wire_quoted s +:+ r) (String.length p) = (s, (String.length p + String.length (wire_quoted s))%nat).
Proof.
  unfold read_quoted, wire_quoted. rewrite ?str_app_cons, ?str_app_nil. replace (suffix (S (String.length p)) (p +:+ String dquote ((escape s +:+ String dquote "") +:+ r)))
    with (escape s +:+ String dquote r).
  - rewrite unquote_escape. f_equal. cbn [String.length]. rewrite str_len_app. cbn [String.length]. lia.
  - rewrite str_app_assoc. rewrite ?str_app_cons, ?str_app_nil. generalize (escape s +:+ String dquote r). intros t. induction p as [|a p IH]; [done|]. rewrite ?str_app_cons, ?str_app_nil. cbn [String.length suffix]. done.
Qed.

(** ** A parameter list reads back *)

(** What the two styles share. *)
Definition style_ok (st : ParamStyle) : bool :=
  has_char ";" (name_delims st) && has_char ";" (value_delims st) && has_char "=" (name_delims st) &&
  has_char " " (name_delims st) && has_char tab (name_delims st) && has_char " " (value_delims st) && has_char tab (value_delims st).
Definition value_ok (st : ParamStyle) (v : ParamValue) : bool :=
  match v with
  | PToken t => every (avoids (value_delims st)) t && negb (bool_decide (first_char t = Some dquote))
  | PFlag | PQuoted _ => true
  end.
(** A flag has a name. *)
Definition param_ok (st : ParamStyle) (p : string * ParamValue) : bool :=
  negb (bool_decide (p.2 = PFlag) && String.eqb p.1 "") && every (avoids (name_delims st)) p.1 && value_ok st p.2.
(** What may follow a parameter, and what ends a list. *)
Definition follows (st : ParamStyle) (r : string) : bool :=
  match first_char r with
  | None => true
  | Some a => has_char a (name_delims st) && has_char a (value_delims st) && negb (Ascii.eqb a "=") && negb (is_ws a) && negb (Ascii.eqb a dquote)
  end.
Definition ends (st : ParamStyle) (r : string) : bool := follows st r && negb (bool_decide (first_char r = Some ";"%char)).

Lemma is_ws_cases a : is_ws a = true -> a = " "%char \/ a = tab.
Proof. unfold is_ws. rewrite orb_true_iff, !Ascii.eqb_eq. done. Qed.
Lemma follows_stops st r d : follows st r = true -> (forall a, has_char a (name_delims st) = true -> has_char a (value_delims st) = true -> has_char a d = true) -> stops (avoids d) r.
Proof.
  unfold follows, stops, avoids. destruct (first_char r) as [a|]; [|done]. rewrite !andb_true_iff. intros ((((H1 & H2) & _) & _) & _) Hd.
  apply negb_false_iff. auto.
Qed.
Lemma follows_not_ws st r : follows st r = true -> stops is_ws r.
Proof. unfold follows, stops. destruct (first_char r) as [a|]; [|done]. rewrite !andb_true_iff, !negb_true_iff. tauto. Qed.
Lemma follows_semi st r : style_ok st = true -> follows st (String ";" r) = true.
Proof. unfold style_ok, follows. rewrite !andb_true_iff. intros ((((((H1 & H2) & _) & _) & _) & _) & _). cbn [first_char]. by rewrite H1, H2. Qed.
(** A token of a style is followed, where it stops, by no space. *)
Lemma avoids_not_ws st x r : style_ok st = true -> every (avoids (value_delims st)) x = true -> stops is_ws r -> stops is_ws (x +:+ r).
Proof.
  unfold style_ok. rewrite !andb_true_iff. intros ((_ & Hsp) & Htab) Hx Hr. destruct x as [|a x]; [done|]. rewrite str_app_cons. unfold stops. cbn [first_char every] in *.
  apply andb_true_iff in Hx as [Ha _]. unfold avoids in Ha. apply negb_true_iff in Ha. destruct (is_ws a) eqn:Hw; [|done].
  apply is_ws_cases in Hw as [->| ->]; congruence.
Qed.
Ltac str_norm := repeat first [rewrite str_app_assoc | rewrite str_app_cons | rewrite str_app_nil].

Lemma read_one_render st p n v r acc : style_ok st = true -> param_ok st (n, v) = true -> follows st r = true ->
  read_one (p +:+ n +:+ render_value v +:+ r) (String.length p) st acc =
    ((String.length p + String.length n + String.length (render_value v))%nat, acc ++ [(n, v)]).
Proof.
  intros Hst Hp Hr. unfold param_ok in Hp. rewrite !andb_true_iff in Hp. destruct Hp as [[Hn0 Hn] Hv]. cbn [fst snd] in *.
  assert (scan_until (p +:+ n +:+ render_value v +:+ r) (String.length p) (name_delims st) = (String.length p + String.length n)%nat) as Hscan.
  { apply scan_until_app; [done|]. unfold style_ok in Hst. rewrite !andb_true_iff in Hst. destruct v; cbn [render_value]; str_norm.
    - apply (follows_stops st); auto.
    - unfold stops, avoids. cbn [first_char]. apply negb_false_iff. tauto.
    - unfold stops, avoids. cbn [first_char]. apply negb_false_iff. tauto. }
  unfold read_one. rewrite Hscan, clamped_app. rewrite <- str_len_app, <- str_app_assoc. set (q := p +:+ n).
  destruct v as [|t|t]; cbn [render_value]; str_norm.
  - rewrite skip_ws_app by (by apply (follows_not_ws st)). rewrite byte_at_app. cbn [String.length]. rewrite Nat.add_0_r.
    rewrite bool_decide_false; [by destruct (String.eqb n "")|]. intros He. unfold follows in Hr. rewrite He in Hr. by rewrite !andb_false_r in Hr || (rewrite !andb_true_iff in Hr; destruct Hr as ((((_ & _) & Hr) & _) & _)).
  - rewrite skip_ws_app by done. rewrite byte_at_app, bool_decide_true by done.
    assert (q +:+ String "=" (t +:+ r) = (q +:+ "=") +:+ t +:+ r) as Hq by (rewrite str_app_assoc; by str_norm). rewrite Hq.
    replace (S (String.length q)) with (String.length (q +:+ "=")) by (rewrite str_len_app; simpl; lia).
    cbn [value_ok] in Hv. apply andb_true_iff in Hv as [Hv1 Hv2].
    rewrite skip_ws_app by (apply (avoids_not_ws st); [done|done|by apply (follows_not_ws st)]). rewrite byte_at_app.
    rewrite bool_decide_false.
    + rewrite scan_until_app; [|done|apply (follows_stops st); auto]. rewrite clamped_app. f_equal. rewrite str_len_app. cbn [String.length]. lia.
    + destruct t as [|a t]; str_norm; [|by apply negb_true_iff, bool_decide_eq_false in Hv2].
      unfold follows in Hr. intros He. rewrite He in Hr. rewrite !andb_true_iff in Hr. destruct Hr as [_ Hr]. done.
  - rewrite skip_ws_app by done. rewrite byte_at_app, bool_decide_true by done.
    assert (q +:+ String "=" (wire_quoted t +:+ r) = (q +:+ "=") +:+ wire_quoted t +:+ r) as Hq by (rewrite str_app_assoc; by str_norm). rewrite Hq.
    replace (S (String.length q)) with (String.length (q +:+ "=")) by (rewrite str_len_app; simpl; lia).
    rewrite skip_ws_app by done. rewrite byte_at_app, bool_decide_true by done. rewrite read_quoted_app. f_equal. rewrite str_len_app. cbn [String.length]. lia.
Qed.
Lemma render_cons n v l : render_params ((n, v) :: l) = String ";" (n +:+ render_value v +:+ render_params l).
Proof. done. Qed.
Lemma collect_render st p l r acc fuel : style_ok st = true -> Forall (fun q => param_ok st q = true) l -> ends st r = true -> (length l < fuel)%nat ->
  collect_semicolon_params fuel (p +:+ render_params l +:+ r) (String.length p) st acc = Some (acc ++ l, (String.length p + String.length (render_params l))%nat).
Proof.
  intros Hst Hl Hr. revert p acc fuel. induction Hl as [|[n v] l Hp _ IH]; intros p acc [|fuel] Hf; simpl in Hf; try lia.
  - change (render_params []) with "". cbn [collect_semicolon_params]. str_norm. apply andb_true_iff in Hr as [Hr1 Hr2].
    rewrite skip_ws_app by (by apply (follows_not_ws st)). rewrite byte_at_app. rewrite Hr2. cbn [String.length]. by rewrite app_nil_r, Nat.add_0_r.
  - rewrite render_cons. cbn [collect_semicolon_params]. str_norm. rewrite skip_ws_app by done.
    rewrite byte_at_app, bool_decide_true by done. cbn [negb].
    assert (p +:+ String ";" (n +:+ render_value v +:+ render_params l +:+ r) = (p +:+ ";") +:+ n +:+ render_value v +:+ (render_params l +:+ r)) as Hq
      by (rewrite (str_app_assoc p ";"); by str_norm). rewrite Hq.
    replace (S (String.length p)) with (String.length (p +:+ ";")) by (rewrite str_len_app; simpl; lia).
    rewrite skip_ws_app.
    2: { unfold param_ok in Hp. rewrite !andb_true_iff in Hp. destruct Hp as [[Hn0 Hn] _]. cbn [fst snd] in *.
         destruct n as [|a n]; [destruct v; [by rewrite bool_decide_true in Hn0|done..]|]. str_norm.
         unfold stops. cbn [first_char every] in *. apply andb_true_iff in Hn as [Ha _]. unfold avoids in Ha. apply negb_true_iff in Ha. destruct (is_ws a) eqn:Hw; [|done].
         unfold style_ok in Hst. rewrite !andb_true_iff in Hst. apply is_ws_cases in Hw as [->| ->]; destruct Hst as ((((_ & H1) & H2) & _) & _); congruence. }
    rewrite read_one_render; [|done..|].
    2: { destruct l as [|[n' v'] l]; [by apply andb_true_iff in Hr as [? _]|]. rewrite render_cons. str_norm. by apply follows_semi. }
    replace (String.length (p +:+ ";") + String.length n + String.length (render_value v))%nat with (String.length (((p +:+ ";") +:+ n) +:+ render_value v)) by (rewrite !str_len_app; lia).
    replace ((p +:+ ";") +:+ n +:+ render_value v +:+ render_params l +:+ r) with ((((p +:+ ";") +:+ n) +:+ render_value v) +:+ render_params l +:+ r) by (by rewrite !str_app_assoc).
    rewrite IH by lia. rewrite <- app_assoc. do 2 f_equal. rewrite !str_len_app. cbn [String.length]. rewrite !str_len_app. simpl. lia.
Qed.
Lemma render_params_long l : (length l <= String.length (render_params l))%nat.
Proof. induction l as [|[n v] l IH]; [done|]. rewrite render_cons. cbn [length String.length]. rewrite !str_len_app. lia. Qed.
Lemma params_read_back st p l r : style_ok st = true -> Forall (fun q => param_ok st q = true) l -> ends st r = true ->
  parse_semicolon_params (p +:+ render_params l +:+ r) (String.length p) st = Some (l, (String.length p + String.length (render_params l))%nat).
Proof.
  intros Hst Hl Hr. unfold parse_semicolon_params, params_fuel. rewrite collect_render; [done..|]. rewrite !str_len_app. pose proof (render_params_long l). lia.
Qed.

(** The reader always ends: each parameter takes its semicolon. *)
Lemma read_one_advances s i st acc : (i <= (read_one s i st acc).1)%nat.
Proof.
  unfold read_one. set (e := scan_until s i (name_delims st)). assert (i <= e)%nat by (unfold e, scan_until; lia). assert (e <= skip_ws s e)%nat by (unfold skip_ws; lia).
  set (j := skip_ws s e) in *. assert (S j <= skip_ws s (S j))%nat by (unfold skip_ws; lia). set (k := skip_ws s (S j)) in *.
  destruct (bool_decide _); [|simpl; lia]. destruct (bool_decide _).
  - unfold read_quoted. destruct (unquote _) as [t n]. simpl. lia.
  - simpl. unfold scan_until. lia.
Qed.
Lemma byte_at_in s i a : byte_at s i = Some a -> (i < String.length s)%nat.
Proof. unfold byte_at. revert s. induction i as [|i IH]; intros [|b s]; simpl; try done; [lia|]. intros H. apply IH in H. lia. Qed.
Lemma params_total s i st acc fuel : (String.length s - i < fuel)%nat -> is_Some (collect_semicolon_params fuel s i st acc).
Proof.
  revert i acc. induction fuel as [|fuel IH]; intros i acc Hf; [lia|]. cbn [collect_semicolon_params]. destruct (bool_decide (byte_at s (skip_ws s i) = _)) eqn:Hb; [|by eexists].
  apply bool_decide_eq_true, byte_at_in in Hb. cbn [negb]. pose proof (read_one_advances s (skip_ws s (S (skip_ws s i))) st acc) as Ha.
  destruct (read_one _ _ _ _) as [j acc'] eqn:Hj. cbn [fst] in Ha. apply IH. unfold skip_ws in *. lia.
Qed.
Lemma params_always_read s i st : is_Some (parse_semicolon_params s i st).
Proof. apply params_total. unfold params_fuel. lia. Qed.

(** ** Trimming *)

Definition visible (a : ascii) : bool := SipText.between 33 126 a.
Lemma strip_none (ws : list string) fuel s : Forall (fun w => strip_prefix w s = None) ws -> strip_all ws fuel s = s.
Proof.
  intros H. assert (first_some (fun w => strip_prefix w s) ws = None) as He by (induction H as [|w ws Hw _ IH]; simpl; [done|by rewrite Hw]).
  destruct fuel; simpl; [done|]. by rewrite He.
Qed.
Lemma strip_visible ws fuel s a : Forall (fun w => exists b t, w = String b t /\ visible b = false) ws -> first_char s = Some a -> visible a = true -> strip_all ws fuel s = s.
Proof.
  intros Hw Ha Hv. apply strip_none. eapply Forall_impl; [exact Hw|]. intros w (b & t & -> & Hb). destruct s as [|a' s]; [done|]. injection Ha as ->. simpl.
  rewrite bool_decide_eq_false_2; [done|]. congruence.
Qed.
Lemma rev_text_app s acc : rev_text s acc = rev_text s "" +:+ acc.
Proof.
  revert acc. induction s as [|a s IH]; intros acc; [done|]. cbn [rev_text]. rewrite IH, (IH (String a "")). rewrite str_app_assoc. done.
Qed.
Lemma rev_text_cat s t : rev_text (s +:+ t) "" = rev_text t "" +:+ rev_text s "".
Proof.
  induction s as [|a s IH]; str_norm; cbn [rev_text]; [by rewrite string_app_nil|]. rewrite rev_text_app, IH, (rev_text_app s (String a "")). by rewrite str_app_assoc.
Qed.
Lemma rev_text_twice s : rev_text (rev_text s "") "" = s.
Proof. induction s as [|a s IH]; [done|]. cbn [rev_text]. rewrite (rev_text_app s), rev_text_cat, IH. by str_norm. Qed.
Lemma last_char_snoc s a : last_char (s +:+ String a "") = Some a.
Proof. induction s as [|b s IH]; [done|]. str_norm. destruct (s +:+ String a "") eqn:E; [by destruct s|]. done. Qed.
Lemma last_split s a : last_char s = Some a -> exists t, s = t +:+ String a "".
Proof.
  induction s as [|b s IH]; [done|]. destruct s as [|c s]; [intros [= ->]; by exists ""|]. intros H. destruct (IH H) as [t ->]. exists (String b t). by str_norm.
Qed.
Lemma first_rev s : first_char (rev_text s "") = last_char s.
Proof.
  destruct (last_char s) as [a|] eqn:E.
  - apply last_split in E as [t ->]. rewrite rev_text_cat. done.
  - destruct s as [|a s]; [done|]. exfalso. revert a E. induction s as [|b s IH]; intros a; [done|]. apply IH.
Qed.
Lemma trim_visible s a z : first_char s = Some a -> last_char s = Some z -> visible a = true -> visible z = true -> trim s = s.
Proof.
  intros Ha Hz Hva Hvz. unfold trim, trim_start. rewrite (strip_visible _ _ _ a); [|vm_compute; repeat constructor; eauto|done|done].
  unfold trim_end. rewrite (strip_visible _ _ _ z); [apply rev_text_twice|vm_compute; repeat constructor; eauto|by rewrite first_rev|done].
Qed.
(** Trimming leaves nothing to trim. *)
Definition clean (ws : list string) (s : string) : Prop := Forall (fun w => strip_prefix w s = None) ws.
Lemma strip_prefix_some w s t : strip_prefix w s = Some t -> s = w +:+ t.
Proof.
  revert s. induction w as [|a w IH]; intros s; simpl; [by intros [= ->]|]. destruct s as [|b s]; [done|]. case_bool_decide; [|done]. subst. intros H. by rewrite (IH s H).
Qed.
Lemma strip_prefix_front w a b : strip_prefix w (a +:+ b) = None -> strip_prefix w a = None.
Proof.
  revert a. induction w as [|c w IH]; intros a; simpl; [done|]. destruct a as [|d a]; [done|]. str_norm. case_bool_decide; [|done]. apply IH.
Qed.
Lemma first_some_none {A B} (f : A -> option B) l : first_some f l = None -> Forall (fun x => f x = None) l.
Proof. induction l as [|x l IH]; simpl; [constructor|]. destruct (f x) eqn:E; [done|]. intros H. constructor; auto. Qed.
Lemma first_some_some {A B} (f : A -> option B) l b : first_some f l = Some b -> exists x, x ∈ l /\ f x = Some b.
Proof.
  induction l as [|x l IH]; simpl; [done|]. destruct (f x) eqn:E.
  - intros [= ->]. exists x. split; [apply elem_of_cons; by left|done].
  - intros (y & Hy & Hb)%IH. exists y. split; [apply elem_of_cons; by right|done].
Qed.
Lemma strip_all_spec ws fuel s : Forall (fun w => w <> "") ws -> (String.length s <= fuel)%nat ->
  clean ws (strip_all ws fuel s) /\ exists p, s = p +:+ strip_all ws fuel s.
Proof.
  intros Hws. revert s. induction fuel as [|fuel IH]; intros s Hf; simpl.
  - destruct s; [|simpl in Hf; lia]. split; [|by exists ""]. eapply Forall_impl; [exact Hws|]. by intros [|a w].
  - destruct (first_some _ ws) as [t|] eqn:E.
    + apply first_some_some in E as (w & Hw & Ht). apply strip_prefix_some in Ht as ->. rewrite Forall_forall in Hws. pose proof (str_len_pos w (Hws w Hw)) as Hl.
      rewrite str_len_app in Hf. destruct (IH t ltac:(lia)) as [Hc [p Hp]]. split; [done|]. exists (w +:+ p). rewrite str_app_assoc. by rewrite <- Hp.
    + split; [by apply first_some_none|by exists ""].
Qed.
Lemma trim_clean s : clean white_space (trim s) /\ clean (map (fun w => rev_text w "") white_space) (rev_text (trim s) "").
Proof.
  destruct (strip_all_spec white_space (String.length s) s) as [H1 _]; [by vm_compute; repeat constructor|lia|]. unfold trim. change (strip_all white_space (String.length s) s) with (trim_start s) in H1.
  set (t := trim_start s) in *. unfold trim_end. assert (forall x, String.length (rev_text x "") = String.length x) as Hlen.
  { intros x. induction x as [|a x IH]; [done|]. cbn [rev_text]. rewrite rev_text_app, str_len_app, IH. simpl. lia. }
  destruct (strip_all_spec (map (fun w => rev_text w "") white_space) (String.length t) (rev_text t "")) as [H2 [p Hp]]; [by vm_compute; repeat constructor|by rewrite Hlen|].
  rewrite rev_text_twice. split; [|done]. apply (f_equal (fun x => rev_text x "")) in Hp. rewrite rev_text_twice, rev_text_cat in Hp. rewrite Hp in H1 at 1.
  eapply Forall_impl; [exact H1|]. intros w. apply strip_prefix_front.
Qed.
Lemma trim_fixed s : clean white_space s -> clean (map (fun w => rev_text w "") white_space) (rev_text s "") -> trim s = s.
Proof. intros H1 H2. unfold trim, trim_start, trim_end. rewrite (strip_none white_space) by done. rewrite strip_none by done. apply rev_text_twice. Qed.
Lemma trim_idem s : trim (trim s) = trim s.
Proof. destruct (trim_clean s). by apply trim_fixed. Qed.
(** A trimmed text starts with no space. *)
Lemma trimmed_not_ws s : trim s = s -> stops is_ws s.
Proof.
  intros H. destruct (trim_clean s) as [Hc _]. rewrite H in Hc. destruct s as [|a s]; [done|]. unfold stops. cbn [first_char]. destruct (is_ws a) eqn:Ha; [|done].
  unfold clean in Hc. rewrite Forall_forall in Hc. apply is_ws_cases in Ha as [->| ->].
  - assert (" " ∈ white_space) as Hin by (vm_compute; repeat constructor). apply Hc in Hin. done.
  - assert (String tab "" ∈ white_space) as Hin by (vm_compute; repeat constructor). apply Hc in Hin. done.
Qed.
