(* ===== verification/SipUriText.v ===== *)
(** * SIP text: the URI reader

    [crates/sip-message/src/header/uri/read.rs], the rendering of
    [header/uri.rs] and [ip_literal.rs].  The standard library's readers of an
    IP address are a parameter; why a text is refused is left out. *)

From S2P Require Import Prelude Texts TxnData ProxyTypes SipHops SipText.
From stdpp Require Import pretty.
From Stdlib Require Import Ascii.

Open Scope Z_scope.

(** ** IP literals ([ip_literal.rs]) *)

Class StdIp := { std_ipv4 : string -> bool; std_ipv6 : string -> bool }.
(** The text form of RFC 4291: hexadecimal digits, colons and the dots of an
    IPv4 tail, with a colon somewhere. *)
Definition ipv6_char (a : ascii) : bool := is_ascii_hexdigit a || Ascii.eqb a ":" || Ascii.eqb a ".".
Class StdIpLaws (E : StdIp) : Prop := {
  ipv4_text t : std_ipv4 t = true -> every ipv6_char t = true;
  ipv6_text t : std_ipv6 t = true -> every ipv6_char t = true /\ has_char ":" t = true;
}.
Inductive UriRole := Target | Identity.
#[global] Instance UriRole_eq_dec : EqDecision UriRole.
Proof. solve_decision. Defined.
Fixpoint ends_with (p s : string) : bool :=
  String.eqb p s || match s with String _ s => ends_with p s | EmptyString => false end.

Section uri.
Context `{IP : StdIp}.
Definition extra_colon_ipv6 (text : string) : bool :=
  match rsplit_once ":" text with
  | None => false
  | Some (head, tail) =>
      if negb (ends_with "::" head) || ends_with ":::" head || negb (std_ipv4 tail) then false else std_ipv6 (head +:+ tail)
  end.
Definition is_ipv6_address (text : string) : bool := std_ipv6 text || extra_colon_ipv6 text.

(** ** Hosts ([read.rs]) *)

(** [strip_suffix('.')]. *)
Fixpoint strip_last_dot (s : string) : option string :=
  match s with
  | EmptyString => None
  | String a EmptyString => if Ascii.eqb a "." then Some EmptyString else None
  | String a s => String a <$> strip_last_dot s
  end.
Definition is_dotted_digits (host : string) : bool :=
  has_char "." host && forallb (fun l => negb (String.eqb l "") && every is_ascii_digit l) (split_at_char "." host).
Definition label_ok (label : string) : bool :=
  match first_char label, last_char label with
  | Some a, Some z => is_alphanum a && is_alphanum z && every (fun b => is_alphanum b || Ascii.eqb b "-") label
  | _, _ => false
  end.
Definition hostname_refused (host : string) (role : UriRole) : bool :=
  let named := match strip_last_dot host with Some h => if String.eqb h "" then host else h | None => host end in
  let labels := split_at_char "." named in
  if negb (forallb label_ok labels) then true
  else
    let letter_led := match last labels ≫= first_char with Some b => is_ascii_alphabetic b | None => false end in
    bool_decide (role = Target) && negb letter_led.
Definition octet_refused (octet : string) : bool :=
  ((1 <? String.length octet)%nat && bool_decide (first_char octet = Some "0"%char)) || (3 <? String.length octet)%nat ||
  negb (bool_decide (is_Some (parse_uint u8_MAX octet))).
Definition ipv4_refused (host : string) : bool :=
  let octets := split_at_char "." host in
  if negb (length octets =? 4)%nat || existsb (fun o => String.eqb o "") octets then true else existsb octet_refused octets.
Definition host_refused (host : string) (role : UriRole) : bool :=
  if String.eqb host "" then true
  else if has_char ":" host then negb (is_ipv6_address host)
  else if is_dotted_digits (default host (strip_last_dot host)) then ipv4_refused host
  else hostname_refused host role.

Definition read_host (value : string) (i : nat) (role : UriRole) (ends : string) : option (string * nat) :=
  if bool_decide (byte_at value i = Some "["%char) then
    close ← index_of value "]" (S i);
    let inner := clamped value (S i) close in
    if String.eqb inner "" || negb (is_ipv6_address inner) then None else Some (inner, S close)
  else
    let end_ := scan_until value i (String ":" ends) in
    let hostport_end := scan_until value end_ ends in
    if match index_of value ":" (S end_) with Some c => (c <? hostport_end)%nat | None => false end then None
    else if host_refused (clamped value i end_) role then None
    else Some (clamped value i end_, end_).
Definition port_value (port : string) : option Z :=
  if String.eqb port "" || negb (every is_ascii_digit port) then None
  else p ← parse_uint u16_MAX port; if 0 <? p then Some p else None.
Definition read_hostport (value : string) (i : nat) (role : UriRole) : option (HostPort * nat) :=
  '(host, j) ← read_host value i role ";?";
  match byte_at value j with
  | None | Some ";"%char | Some "?"%char => Some (mkHP host None, j)
  | Some ":"%char =>
      let end_ := scan_until value (S j) ";?" in
      p ← port_value (clamped value (S j) end_); Some (mkHP host (Some p), end_)
  | Some _ => None
  end.
(** [read_sent_by]: the port is a [u64], which saturates. *)
Fixpoint digits_value (acc : Z) (s : string) : Z :=
  match s with EmptyString => acc | String d s => digits_value (Z.min u64_MAX (Z.min u64_MAX (acc * 10) + Z.max 0 (Z.of_nat (nat_of_ascii d) - 48))) s end.
Definition SENT_BY_ENDS : string := ";, " +:+ String tab "".
Definition read_sent_by (value : string) (i : nat) : option (string * option Z * nat) :=
  '(host, j) ← read_host value i Target SENT_BY_ENDS;
  let colon := skip_ws value j in
  '(port, j) ← (if bool_decide (byte_at value colon = Some ":"%char) then
                  let at_ := skip_ws value (S colon) in
                  let end_ := scan_until value at_ SENT_BY_ENDS in
                  let digits := clamped value at_ end_ in
                  if String.eqb digits "" || negb (every is_ascii_digit digits) then None
                  else Some (Some (digits_value 0 digits), end_)
                else Some (None, j));
  match byte_at value (skip_ws value j) with
  | None | Some ";"%char | Some ","%char => Some (host, port, j)
  | Some _ => None
  end.

(** ** URIs *)

Record UriParts := mkParts {
  up_scheme : string; up_user : option string; up_authority : HostPort; up_params : ParamList;
  up_headers : list (string * option string); up_opaque : option string;
}.
Definition scheme_refused (scheme : string) : bool :=
  match scheme with
  | String b rest => negb (is_ascii_alphabetic b) || negb (every (fun b => is_alphanum b || has_char b "+-.") rest)
  | EmptyString => true
  end.
Definition userinfo_refused (userinfo : string) : bool :=
  let '(user, password) := match split_once ":" userinfo with Some (u, p) => (u, Some p) | None => (userinfo, None) end in
  String.eqb user "" || run_refused is_user_char true user || match password with Some p => run_refused is_password_char true p | None => false end.
Definition paramchar_refused (run : string) : bool := String.eqb run "" || run_refused is_paramchar true run.
(** The parameter loop of [read_sip]; the outer [None]: out of fuel. *)
Fixpoint sip_params (fuel : nat) (value : string) (j : nat) (params : ParamList) : option (option (ParamList * nat)) :=
  match fuel with
  | O => None
  | S fuel =>
      if negb (bool_decide (byte_at value j = Some ";"%char)) then Some (Some (params, j))
      else
        let name_end := scan_until value (S j) "=;?" in
        let name := clamped value (S j) name_end in
        if paramchar_refused name then Some None
        else if bool_decide (byte_at value name_end = Some "="%char) then
          let value_end := scan_until value (S name_end) ";?" in
          let v := clamped value (S name_end) value_end in
          if paramchar_refused v then Some None else sip_params fuel value value_end (params ++ [(name, PToken v)])
        else sip_params fuel value name_end (params ++ [(name, PFlag)])
  end.
Definition sip_header (pair : string) : option (string * option string) :=
  '(name, hvalue) ← split_once "=" pair;
  if String.eqb name "" || run_refused is_hnv_char true name || run_refused is_hnv_char true hvalue then None else Some (name, Some hvalue).
(** [read_sip] after the userinfo. *)
Definition sip_after_user (value scheme : string) (user : option string) (host_at : nat) (role : UriRole) : option UriParts :=
  '(authority, j) ← read_hostport value host_at role;
  '(params, j) ← mjoin (sip_params (params_fuel value) value j []);
  headers ← (if bool_decide (byte_at value j = Some "?"%char)
             then mapM sip_header (split_at_char "&" (clamped value (S j) (String.length value))) else Some []);
  Some (mkParts scheme user authority params headers None).
Definition read_sip (value scheme : string) (i : nat) (role : UriRole) : option UriParts :=
  match index_of value "@" i with
  | Some at_ => if userinfo_refused (clamped value i at_) then None else sip_after_user value scheme (Some (clamped value i at_)) (S at_) role
  | None => sip_after_user value scheme None i role
  end.
Definition tel_header (pair : string) : string * option string :=
  match split_once "=" pair with Some (n, v) => (n, Some v) | None => (pair, None) end.
Definition read_tel (value scheme : string) (i : nat) : option UriParts :=
  if run_refused (fun b => is_uri_char b || Ascii.eqb b "#") false (clamped value i (String.length value)) then None
  else
    let number_end := scan_until value i ";?" in
    if (number_end <=? i)%nat then None
    else
      '(params, after_params) ← parse_semicolon_params value number_end URI_PARAMS;
      let headers := if bool_decide (byte_at value after_params = Some "?"%char)
                     then map tel_header (split_at_char "&" (clamped value (S after_params) (String.length value))) else [] in
      Some (mkParts scheme None (mkHP (clamped value i number_end) None) params headers None).
Definition read_opaque (value scheme : string) (i : nat) : option UriParts :=
  if (String.length value <=? i)%nat then None
  else if run_refused is_uri_char false (clamped value i (String.length value)) then None
  else Some (mkParts scheme None (mkHP "" None) [] [] (Some (clamped value i (String.length value)))).
Definition read_uri (value : string) (role : UriRole) : option UriParts :=
  colon ← index_of value ":" 0;
  let scheme := clamped value 0 colon in
  if scheme_refused scheme then None
  else
    let scheme := lower scheme in
    if String.eqb scheme "sip" || String.eqb scheme "sips" then read_sip value scheme (S colon) role
    else if String.eqb scheme "tel" then read_tel value scheme (S colon)
    else read_opaque value scheme (S colon).
Definition parse_as (raw : string) (role : UriRole) : option UriParts := read_uri (trim raw) role.

(** [HostPort::render] and [Uri::render], of a URI not read off the wire. *)
Definition render_host (host : string) : string := if has_char ":" host then String "[" (host +:+ "]") else host.
Definition render_hostport (h : HostPort) : string :=
  render_host (hp_host h) +:+ match hp_port h with Some p => String ":" (pretty p) | None => "" end.
Definition render_header (h : string * option string) : string := h.1 +:+ match h.2 with Some v => String "=" v | None => "" end.
Definition render_headers (l : list (string * option string)) : string :=
  match l with [] => "" | h :: l => String "?" (render_header h +:+ foldr (fun h r => String "&" (render_header h +:+ r)) "" l) end.
Definition render_uri (u : UriParts) : string :=
  if String.eqb (up_scheme u) "" then hp_host (up_authority u)
  else
    up_scheme u +:+ String ":"
      (match up_opaque u with
       | Some part => part
       | None => match up_user u with Some user => user +:+ String "@" (render_hostport (up_authority u)) | None => render_hostport (up_authority u) end
       end +:+ render_params (up_params u) +:+ render_headers (up_headers u)).
End uri.

(** ** Classes of characters *)

(** A fact about every byte is checked on the 256 of them. *)
Lemma every_byte (f : ascii -> bool) : forallb (fun n => f (ascii_of_nat n)) (seq 0 256) = true -> forall a, f a = true.
Proof.
  intros H a. rewrite forallb_forall in H. rewrite <- (ascii_nat_embedding a). apply H. apply in_seq. pose proof (nat_ascii_bounded a). lia.
Qed.
Lemma class_sub (f g : ascii -> bool) : forallb (fun n => implb (f (ascii_of_nat n)) (g (ascii_of_nat n))) (seq 0 256) = true -> forall a, f a = true -> g a = true.
Proof. intros H a. pose proof (every_byte (fun a => implb (f a) (g a)) H a) as Hi. cbn beta in Hi. by destruct (f a). Qed.
Ltac by_class := apply class_sub; vm_compute; reflexivity.
Lemma class_not_ws (f : ascii -> bool) a : forallb (fun n => implb (f (ascii_of_nat n)) (negb (is_ws (ascii_of_nat n)))) (seq 0 256) = true -> f a = true -> is_ws a = false.
Proof. intros H Ha. apply negb_true_iff. revert a Ha. by apply (class_sub f (fun a => negb (is_ws a))). Qed.
Lemma str_len_ind (P : string -> Prop) : (forall s, (forall t, (String.length t < String.length s)%nat -> P t) -> P s) -> forall s, P s.
Proof.
  intros H s. enough (forall n t, (String.length t < n)%nat -> P t) as Hn by (apply (Hn (S (String.length s))); lia).
  induction n as [|n IH]; intros t Ht; [lia|]. apply H. intros u Hu. apply IH. lia.
Qed.
(** What a run of a class with its escapes is made of. *)
Definition escaped (class : ascii -> bool) (a : ascii) : bool := class a || Ascii.eqb a "%" || is_ascii_hexdigit a.
Lemma run_ok class s : run_refused class true s = false -> every (escaped class) s = true.
Proof.
  induction s as [s IH] using str_len_ind. destruct s as [|b s]; [done|]. cbn [run_refused andb every].
  destruct (Ascii.eqb b "%") eqn:Hb.
  - destruct s as [|h [|l s]]; [done..|]. destruct (is_ascii_hexdigit h) eqn:Hh, (is_ascii_hexdigit l) eqn:Hl; cbn [andb]; try done. intros Hs.
    unfold escaped at 1. rewrite Hb, orb_true_r. cbn [orb andb every]. unfold escaped at 1 2. rewrite Hh, Hl, !orb_true_r. cbn [andb]. apply IH; [simpl; lia|done].
  - destruct (class b) eqn:Hc; cbn [negb]; [|done]. intros Hs. unfold escaped at 1. rewrite Hc. cbn [orb andb]. apply IH; [simpl; lia|done].
Qed.
Lemma run_plain class s : run_refused class false s = false <-> every class s = true.
Proof. induction s as [|b s IH]; [done|]. cbn [run_refused andb every]. by destruct (class b); cbn [negb andb]. Qed.
(** The character [c] ends no run of a class it is not in. *)
Lemma every_avoids f d s : forallb (fun n => implb (f (ascii_of_nat n)) (avoids d (ascii_of_nat n))) (seq 0 256) = true -> every f s = true -> every (avoids d) s = true.
Proof. intros H. apply every_impl. by apply class_sub. Qed.
Lemma every_no_char f c s : f c = false -> every f s = true -> has_char c s = false.
Proof.
  intros Hc. induction s as [|a s IH]; simpl; [done|]. rewrite andb_true_iff. intros [Ha Hs]. rewrite IH by done. rewrite orb_false_r.
  apply bool_decide_eq_false. congruence.
Qed.
Lemma no_char_every c s : has_char c s = false <-> every (fun a => negb (Ascii.eqb a c)) s = true.
Proof.
  induction s as [|a s IH]; simpl; [done|]. rewrite orb_false_iff, andb_true_iff, IH, negb_true_iff, bool_decide_eq_false, Ascii.eqb_neq.
  split; intros [H1 H2]; auto.
Qed.

(** ** What a reader leaves *)

Lemma run_split f t : exists x r, t = x +:+ r /\ every f x = true /\ stops f r.
Proof.
  induction t as [|a t (x & r & -> & Hx & Hr)]; [by exists "", ""|]. destruct (f a) eqn:Ha.
  - exists (String a x), r. str_norm. cbn [every]. by rewrite Ha.
  - exists "", (String a (x +:+ r)). repeat split; done.
Qed.
Lemma stops_cases d r : stops (avoids d) r -> r = "" \/ exists a t, r = String a t /\ has_char a d = true.
Proof. destruct r as [|a r]; [by left|]. unfold stops, avoids. cbn [first_char]. rewrite negb_false_iff. right. by eauto. Qed.
Lemma scan_split p t d : exists x r, t = x +:+ r /\ every (avoids d) x = true /\ stops (avoids d) r /\
  scan_until (p +:+ t) (String.length p) d = String.length (p +:+ x).
Proof.
  destruct (run_split (avoids d) t) as (x & r & -> & Hx & Hr). exists x, r. repeat split; [done..|]. rewrite scan_until_app by done. by rewrite str_len_app.
Qed.
Lemma index_some p t c k : index_of (p +:+ t) c (String.length p) = Some k ->
  exists x r, t = x +:+ String c r /\ has_char c x = false /\ k = String.length (p +:+ x).
Proof.
  destruct (run_split (fun a => negb (Ascii.eqb a c)) t) as (x & r & -> & Hx & Hr). destruct r as [|a r].
  - rewrite string_app_nil, index_of_none by done. done.
  - unfold stops in Hr. cbn [first_char] in Hr. apply negb_false_iff, Ascii.eqb_eq in Hr as ->. rewrite index_of_app by done. intros [= <-].
    exists x, r. rewrite str_len_app. split; [done|]. split; [by apply no_char_every|done].
Qed.
Lemma index_none p t c : index_of (p +:+ t) c (String.length p) = None <-> has_char c t = false.
Proof.
  split; [|intros H; by apply index_of_none, no_char_every]. destruct (run_split (fun a => negb (Ascii.eqb a c)) t) as (x & r & -> & Hx & Hr). destruct r as [|a r].
  - rewrite string_app_nil. intros _. by apply no_char_every.
  - unfold stops in Hr. cbn [first_char] in Hr. apply negb_false_iff, Ascii.eqb_eq in Hr as ->. by rewrite index_of_app.
Qed.
Lemma clamped_between p x r i j : i = String.length p -> j = String.length (p +:+ x) -> clamped (p +:+ x +:+ r) i j = x.
Proof. intros -> ->. rewrite str_len_app. apply clamped_app. Qed.
Lemma clamped_rest p x i j : i = String.length p -> j = String.length (p +:+ x) -> clamped (p +:+ x) i j = x.
Proof. intros Hi Hj. pose proof (clamped_between p x "" i j Hi Hj) as H. by rewrite string_app_nil in H. Qed.
Lemma str_snoc p a r : p +:+ String a r = (p +:+ String a "") +:+ r.
Proof. rewrite str_app_assoc. by str_norm. Qed.
Lemma len_snoc p a : String.length (p +:+ String a "") = S (String.length p).
Proof. rewrite str_len_app. simpl. lia. Qed.

(** ** Pieces between separators *)

Definition joined (c : ascii) (l : list string) : string :=
  match l with [] => "" | x :: l => x +:+ foldr (fun y r => String c (y +:+ r)) "" l end.
Lemma split_nonempty c s : split_at_char c s <> [].
Proof. destruct s as [|a s]; simpl; [done|]. case_bool_decide; [done|]. by destruct (split_at_char c s). Qed.
Lemma split_no_char c s : has_char c s = false -> split_at_char c s = [s].
Proof.
  induction s as [|a s IH]; simpl; [done|]. rewrite orb_false_iff, bool_decide_eq_false. intros [Ha Hs]. rewrite bool_decide_eq_false_2 by done. by rewrite IH.
Qed.
Lemma split_app c x r : has_char c x = false -> split_at_char c (x +:+ String c r) = x :: split_at_char c r.
Proof.
  induction x as [|a x IH]; str_norm; simpl; [by rewrite bool_decide_eq_true_2|]. rewrite orb_false_iff, bool_decide_eq_false. intros [Ha Hs].
  rewrite bool_decide_eq_false_2 by done. by rewrite IH.
Qed.
Lemma split_joined c x l : Forall (fun y => has_char c y = false) (x :: l) -> split_at_char c (joined c (x :: l)) = x :: l.
Proof.
  revert x. induction l as [|y l IH]; intros x Hl; inversion Hl as [|? ? Hx Hl']; subst; simpl.
  - rewrite string_app_nil. by apply split_no_char.
  - rewrite split_app by done. f_equal. by apply IH.
Qed.
Lemma joined_split c s : joined c (split_at_char c s) = s.
Proof.
  induction s as [|a s IH]; [done|]. cbn [split_at_char]. pose proof (split_nonempty c s) as Hne. case_bool_decide as Ha.
  - subst. destruct (split_at_char c s) as [|y l]; [done|]. simpl in *. by rewrite str_app_nil, IH.
  - destruct (split_at_char c s) as [|y l]; [done|]. simpl in *. by rewrite str_app_cons, IH.
Qed.
Lemma joined_every c f l : f c = true -> Forall (fun y => every f y = true) l -> every f (joined c l) = true.
Proof.
  intros Hc Hl. destruct Hl as [|x l Hx Hl]; [done|]. simpl. rewrite every_app, Hx. simpl. clear x Hx. induction Hl as [|y l Hy _ IH]; [done|].
  simpl. by rewrite Hc, every_app, Hy, IH.
Qed.
Lemma split_every c f s : f c = true -> Forall (fun y => every f y = true) (split_at_char c s) -> every f s = true.
Proof. intros Hc Hs. rewrite <- (joined_split c s). by apply joined_every. Qed.
Lemma strip_last_dot_some s t : strip_last_dot s = Some t -> s = t +:+ ".".
Proof.
  revert t. induction s as [|a s IH]; intros t; [done|]. destruct s as [|b s].
  - cbn [strip_last_dot]. destruct (Ascii.eqb a ".") eqn:Ha; [|done]. apply Ascii.eqb_eq in Ha as ->. by intros [= <-].
  - change (strip_last_dot (String a (String b s))) with (String a <$> strip_last_dot (String b s)). destruct (strip_last_dot (String b s)) as [u|]; [|done].
    intros [= <-]. by rewrite (IH u).
Qed.
Lemma rsplit_once_some c s x y : rsplit_once c s = Some (x, y) -> s = x +:+ String c y.
Proof.
  revert x. induction s as [|a s IH]; intros x; simpl; [done|]. destruct (rsplit_once c s) as [[x' y']|].
  - intros [= <- ->]. by rewrite str_app_cons, <- (IH x').
  - case_bool_decide; [|done]. subst. by intros [= <- <-].
Qed.
Lemma split_once_some c s x y : split_once c s = Some (x, y) -> s = x +:+ String c y /\ has_char c x = false.
Proof.
  revert x. induction s as [|a s IH]; intros x; simpl; [done|]. case_bool_decide as Ha.
  - subst. by intros [= <- <-].
  - destruct (split_once c s) as [[x' y']|]; [|done]. intros [= <- <-]. destruct (IH x' eq_refl) as [-> Hx]. split; [by str_norm|].
    simpl. rewrite Hx, orb_false_r. apply bool_decide_eq_false. congruence.
Qed.
Lemma split_once_none c s : split_once c s = None -> has_char c s = false.
Proof.
  induction s as [|a s IH]; simpl; [done|]. case_bool_decide as Ha; [done|]. destruct (split_once c s) as [[x y]|]; [done|]. intros _. rewrite IH by done.
  rewrite orb_false_r. apply bool_decide_eq_false. congruence.
Qed.

(** ** Hosts *)

Definition host_char (a : ascii) : bool := is_alphanum a || Ascii.eqb a "-" || Ascii.eqb a ".".
Section host_text.
Context `{L : StdIpLaws}.
Lemma dotted_every f s : (forall a, f a = true -> host_char a = true) -> Forall (fun l => every f l = true) (split_at_char "." s) -> every host_char s = true.
Proof. intros Hf Hs. apply (split_every "."); [done|]. eapply Forall_impl; [exact Hs|]. intros l. by apply every_impl. Qed.
Lemma host_plain host role : host_refused host role = false -> has_char ":" host = false -> every host_char host = true.
Proof.
  unfold host_refused. destruct (String.eqb host ""); [done|]. intros H Hc. rewrite Hc in H.
  assert (forall t, strip_last_dot host = Some t -> every host_char t = true -> every host_char host = true) as Hdot.
  { intros t Ht Hh. apply strip_last_dot_some in Ht as ->. by rewrite every_app, Hh. }
  destruct (is_dotted_digits _) eqn:Hd.
  - clear H. unfold is_dotted_digits in Hd. apply andb_true_iff in Hd as [_ Hd]. rewrite forallb_forall in Hd.
    assert (every host_char (default host (strip_last_dot host)) = true) as Hh.
    { apply (dotted_every is_ascii_digit); [by_class|]. apply Forall_forall. intros l Hl%list_elem_of_In%Hd. by apply andb_true_iff in Hl as [_ ?]. }
    destruct (strip_last_dot host) as [t|] eqn:Ht; [by eapply Hdot|done].
  - clear Hd. unfold hostname_refused in H. set (named := match strip_last_dot host with Some h => _ | None => host end) in H.
    destruct (forallb label_ok _) eqn:Hl; [|done]. clear H. rewrite forallb_forall in Hl.
    assert (every host_char named = true) as Hh.
    { apply (dotted_every (fun b => is_alphanum b || Ascii.eqb b "-")); [by_class|]. apply Forall_forall. intros l Hin%list_elem_of_In%Hl. unfold label_ok in Hin.
      destruct (first_char l), (last_char l); try done. by apply andb_true_iff in Hin as [_ ?]. }
    unfold named in Hh. destruct (strip_last_dot host) as [t|] eqn:Ht; [|done]. destruct (String.eqb t ""); [done|by eapply Hdot].
Qed.
Lemma ipv6_every t : is_ipv6_address t = true -> every ipv6_char t = true /\ has_char ":" t = true.
Proof.
  unfold is_ipv6_address. rewrite orb_true_iff. intros [H|H]; [by apply ipv6_text|]. unfold extra_colon_ipv6 in H.
  destruct (rsplit_once ":" t) as [[head tail]|] eqn:Hs; [|done]. apply rsplit_once_some in Hs as ->. destruct (_ || _ || _); [done|].
  apply ipv6_text in H as [H _]. rewrite every_app, andb_true_iff in H. destruct H as [H1 H2]. rewrite every_app, H1. simpl. rewrite H2. split; [done|].
  rewrite has_char_app. simpl. by rewrite orb_true_r.
Qed.

(** A host ends at a separator, or at the colon of its port. *)
Definition sep_ok (ends : string) : bool := every (fun a => negb (host_char a) && negb (Ascii.eqb a ":") && negb (Ascii.eqb a "[")) ends.
Lemma has_char_every f a d : every f d = true -> has_char a d = true -> f a = true.
Proof.
  induction d as [|b d IH]; simpl; [done|]. rewrite andb_true_iff, orb_true_iff. intros [Hb Hd] [Ha|Ha]; [|auto]. apply bool_decide_eq_true in Ha. by subst.
Qed.
Lemma host_char_sep ends a : sep_ok ends = true -> host_char a = true -> avoids (String ":" ends) a = true.
Proof.
  intros Hs Ha. unfold avoids. apply negb_true_iff. simpl. apply orb_false_iff. split; [apply bool_decide_eq_false; by intros ->|].
  destruct (has_char a ends) eqn:He; [|done]. pose proof (has_char_every _ _ _ Hs He) as H. cbn beta in H. by rewrite Ha in H.
Qed.
Definition after_host (ends r : string) : Prop :=
  stops (avoids ends) r \/ exists d t, r = String ":" (d +:+ t) /\ every (avoids (String ":" ends)) d = true /\ stops (avoids ends) t.
Lemma avoids_weaken c ends s : every (avoids (String c ends)) s = true -> every (avoids ends) s = true /\ has_char c s = false.
Proof.
  intros H. split.
  - revert H. apply every_impl. intros a. unfold avoids. simpl. rewrite !negb_true_iff, orb_false_iff. tauto.
  - apply (every_no_char (avoids (String c ends))); [|done]. unfold avoids. simpl. by rewrite bool_decide_eq_true_2.
Qed.
Lemma colon_after ends q r : sep_ok ends = true -> after_host ends r ->
  match index_of (q +:+ r) ":" (S (String.length q)) with Some c => (c <? scan_until (q +:+ r) (String.length q) ends)%nat | None => false end = false.
Proof.
  intros Hsep [Hr|(d & t & -> & Hd & Ht)].
  - assert (scan_until (q +:+ r) (String.length q) ends = String.length q) as ->.
    { pose proof (scan_until_app q "" r ends eq_refl Hr) as H. rewrite str_app_nil in H. rewrite H. simpl. lia. }
    unfold index_of. destruct (_ <? _)%nat; [|done]. apply Nat.ltb_ge. lia.
  - apply avoids_weaken in Hd as [Hd Hc].
    assert (String ":" (d +:+ t) = String ":" d +:+ t) as -> by (by str_norm).
    rewrite scan_until_app; [|cbn [every]; rewrite Hd, andb_true_r|done].
    2: { unfold avoids. apply negb_true_iff. destruct (has_char ":" ends) eqn:He; [|done]. by pose proof (has_char_every _ _ _ Hsep He). }
    replace (q +:+ String ":" d +:+ t) with ((q +:+ ":") +:+ d +:+ t) by (rewrite str_app_assoc; by str_norm). rewrite <- (len_snoc q ":").
    destruct (index_of _ _ _) as [c|] eqn:Hi; [|done]. apply Nat.ltb_ge.
    destruct (run_split (fun a => negb (Ascii.eqb a ":")) t) as (x & r & -> & Hx & Hr). unfold index_of in Hi. rewrite SipText.suffix_app in Hi.
    rewrite <- str_app_assoc in Hi. rewrite run_len_app in Hi; [|rewrite every_app, Hx, andb_true_r; by apply no_char_every|done].
    destruct (_ <? _)%nat; [|done]. injection Hi as <-. rewrite !str_len_app. simpl. lia.
Qed.
Lemma read_host_render ends p host r role : sep_ok ends = true -> host_refused host role = false -> after_host ends r ->
  read_host (p +:+ render_host host +:+ r) (String.length p) role ends = Some (host, String.length (p +:+ render_host host)).
Proof.
  intros Hsep Hh Hr. unfold read_host, render_host. destruct (has_char ":" host) eqn:Hc.
  - assert (is_ipv6_address host = true) as Hip.
    { unfold host_refused in Hh. rewrite Hc in Hh. destruct (String.eqb host ""); [done|]. by apply negb_false_iff in Hh. }
    str_norm. rewrite byte_at_app, bool_decide_true by done. rewrite (str_snoc p "["), <- (len_snoc p "[").
    assert (has_char "]" host = false) as Hb by (apply (every_no_char ipv6_char); [done|by apply ipv6_every]).
    rewrite index_of_app by (by apply no_char_every). cbn [mbind option_bind]. rewrite clamped_app. rewrite Hip.
    destruct (String.eqb host "") eqn:He; [apply String.eqb_eq in He; by subst|]. cbn [orb negb]. do 2 f_equal.
    rewrite !str_len_app. cbn [String.length]. rewrite !str_len_app. simpl. lia.
  - assert (every host_char host = true) as Hpl by (by eapply host_plain).
    assert (every (avoids (String ":" ends)) host = true) as Hav by (eapply every_impl; [|exact Hpl]; intros a; by apply host_char_sep).
    assert (stops (avoids (String ":" ends)) r) as Hst.
    { destruct Hr as [Hr|(d & t & -> & _)]; [|unfold stops, avoids; simpl; done]. revert Hr. unfold stops, avoids. destruct (first_char r) as [a|]; [|done].
      rewrite !negb_false_iff. simpl. intros ->. by rewrite orb_true_r. }
    rewrite byte_at_app, bool_decide_false.
    + rewrite scan_until_app by done. rewrite clamped_app, Hh. rewrite <- str_app_assoc, <- str_len_app, colon_after by done. done.
    + destruct host as [|a host]; [done|]. str_norm. cbn [first_char]. intros [= ->]. simpl in Hpl. done.
Qed.
Lemma read_host_inv ends p t role host j : read_host (p +:+ t) (String.length p) role ends = Some (host, j) ->
  host_refused host role = false /\ exists r, t = render_host host +:+ r /\ j = String.length (p +:+ render_host host).
Proof.
  unfold read_host. rewrite byte_at_app. case_bool_decide as Hb.
  - destruct t as [|a t]; [done|]. injection Hb as ->. rewrite (str_snoc p "["), <- (len_snoc p "["). destruct (index_of _ _ _) as [close|] eqn:Hi; [|done].
    apply index_some in Hi as (x & r & -> & Hx & ->). cbn [mbind option_bind]. rewrite (clamped_between _ x) by done.
    destruct (String.eqb x "") eqn:He; [done|]. destruct (is_ipv6_address x) eqn:Hip; [|done]. intros [= <- <-].
    apply ipv6_every in Hip as Hc. destruct Hc as [_ Hc]. unfold host_refused, render_host. rewrite He, Hc, Hip. split; [done|]. exists r. str_norm. split; [done|].
    rewrite !str_len_app. cbn [String.length]. rewrite !str_len_app. simpl. lia.
  - destruct (scan_split p t (String ":" ends)) as (x & r & -> & Hx & Hr & ->). destruct (match index_of _ _ _ with Some _ => _ | None => _ end); [done|].
    rewrite (clamped_between p x) by done. destruct (host_refused x role) eqn:Hh; [done|]. intros [= <- <-]. split; [done|].
    apply avoids_weaken in Hx as [_ Hx]. unfold render_host. rewrite Hx. by exists r.
Qed.

(** [":" port] as it was written: leading zeros are kept. *)
Definition port_text (pt : string) (port : option Z) : Prop :=
  match port with None => pt = "" | Some p => exists d, pt = String ":" d /\ port_value d = Some p end.
Lemma port_value_digits d p : port_value d = Some p -> every is_ascii_digit d = true /\ 0 < p <= u16_MAX.
Proof.
  unfold port_value. destruct (String.eqb d ""); [done|]. destruct (every is_ascii_digit d); [|done]. cbn [orb negb].
  destruct (parse_uint u16_MAX d) as [z|] eqn:Hz; [|done]. cbn [mbind option_bind]. destruct (Z.ltb_spec 0 z); [|done]. intros [= <-]. split; [done|]. split; [lia|].
  unfold parse_uint in Hz. destruct (unsigned_part d); [done|]. destruct (read_digits _ _) as [n|]; [|done]. cbn [mbind option_bind] in Hz.
  destruct (Z.leb_spec n u16_MAX); [|done]. by injection Hz as <-.
Qed.
Lemma pretty_digits z : 0 <= z -> every is_ascii_digit (pretty z) = true.
Proof.
  assert (forall x s, every is_ascii_digit s = true -> every is_ascii_digit (pretty_N_go x s) = true) as Hgo.
  { intros x. induction (N.lt_wf_0 x) as [x _ IH]; intros s Hs. assert (x = 0 \/ 0 < x)%N as [->|Hx] by lia; [by rewrite pretty_N_go_0|].
    rewrite pretty_N_go_step by done. apply IH; [by apply N.div_lt|]. cbn [every]. rewrite Hs, andb_true_r.
    pose proof (N.mod_lt x 10 ltac:(done)) as Hd. revert Hd. generalize (x mod 10)%N. intros d Hd.
    assert (d = 0 ∨ d = 1 ∨ d = 2 ∨ d = 3 ∨ d = 4 ∨ d = 5 ∨ d = 6 ∨ d = 7 ∨ d = 8 ∨ d = 9)%N as Hds by lia. destruct_or!; by subst. }
  intros Hz. destruct z as [|q|q]; [done| |lia]. by apply (Hgo (N.pos q)).
Qed.
Lemma pretty_nonempty z : 0 <= z -> String.eqb (pretty z) "" = false.
Proof.
  intros Hz. destruct z as [|q|q]; [done| |lia]. change (pretty (Z.pos q)) with (pretty_N_go (N.pos q) "").
  destruct (pretty_N_go_shape (N.pos q) "") as (a & t & -> & _); [lia|done].
Qed.
Lemma port_value_pretty p : 0 < p <= u16_MAX -> port_value (pretty p) = Some p.
Proof.
  intros Hp. unfold port_value. rewrite pretty_digits, pretty_nonempty by lia. cbn [orb negb]. rewrite parse_uint_pretty by lia. cbn [mbind option_bind].
  destruct (Z.ltb_spec 0 p); [done|lia].
Qed.

(** ** A host with its port *)

Definition hostport_ok (h : HostPort) (role : UriRole) : Prop :=
  host_refused (hp_host h) role = false /\ match hp_port h with Some p => 0 < p <= u16_MAX | None => True end.
(** What ends the authority of a SIP URI. *)
Definition uri_ends (r : string) : Prop := stops (avoids ";?") r.
Lemma uri_ends_cases r : uri_ends r -> r = "" \/ (exists t, r = String ";" t) \/ exists t, r = String "?" t.
Proof.
  intros [->|(a & t & -> & H)]%stops_cases; [by left|right]. simpl in H. rewrite orb_false_r, orb_true_iff, !bool_decide_eq_true in H.
  destruct H as [->| ->]; eauto.
Qed.
Lemma digits_avoid d ends : sep_ok ends = true -> every is_ascii_digit d = true -> every (avoids (String ":" ends)) d = true.
Proof. intros Hs. apply every_impl. intros a Ha. apply host_char_sep; [done|]. revert a Ha. by_class. Qed.
Lemma port_after ends pt port r : sep_ok ends = true -> port_text pt port -> stops (avoids ends) r -> after_host ends (pt +:+ r).
Proof.
  intros Hs Hp Hr. destruct port as [z|]; simpl in Hp; [|subst; by left]. destruct Hp as (d & -> & Hd). right. exists d, r. str_norm. split; [done|]. split; [|done].
  apply digits_avoid; [done|]. by eapply port_value_digits.
Qed.
Lemma read_hostport_render p h pt r role : hostport_ok h role -> port_text pt (hp_port h) -> uri_ends r ->
  read_hostport (p +:+ render_host (hp_host h) +:+ pt +:+ r) (String.length p) role = Some (h, String.length (p +:+ render_host (hp_host h) +:+ pt)).
Proof.
  intros [Hh _] Hp Hr. destruct h as [host port]. cbn [hp_host hp_port] in *. unfold read_hostport.
  rewrite read_host_render; [|done|done|by eapply port_after]. cbn [mbind option_bind]. rewrite <- str_app_assoc, byte_at_app, <- (str_app_assoc p _ pt). set (q := p +:+ render_host host).
  destruct port as [z|]; simpl in Hp.
  - destruct Hp as (d & -> & Hd). str_norm. cbn [first_char]. rewrite (str_snoc _ ":"), <- (len_snoc _ ":"). apply port_value_digits in Hd as Hd'. destruct Hd' as [Hdig _].
    rewrite scan_until_app; [|by destruct (avoids_weaken ":" ";?" d (digits_avoid d ";?" eq_refl Hdig))|done]. rewrite clamped_app, Hd. cbn [mbind option_bind]. do 2 f_equal. rewrite !str_len_app. simpl. lia.
  - subst. rewrite str_app_nil, string_app_nil. apply uri_ends_cases in Hr as [->|[[t ->]|[t ->]]]; done.
Qed.
Lemma read_hostport_inv p t role h j : read_hostport (p +:+ t) (String.length p) role = Some (h, j) ->
  hostport_ok h role /\ exists pt r, port_text pt (hp_port h) /\ t = render_host (hp_host h) +:+ pt +:+ r /\ uri_ends r /\ j = String.length (p +:+ render_host (hp_host h) +:+ pt).
Proof.
  unfold read_hostport. destruct (read_host _ _ _ _) as [[host k]|] eqn:Hh; [|done]. cbn [mbind option_bind]. apply read_host_inv in Hh as (Hok & r & -> & ->).
  rewrite <- str_app_assoc, byte_at_app.
  assert (uri_ends r -> Some (mkHP host None, String.length (p +:+ render_host host)) = Some (h, j) ->
    hostport_ok h role /\ exists pt r', port_text pt (hp_port h) /\ render_host host +:+ r = render_host (hp_host h) +:+ pt +:+ r' /\ uri_ends r' /\ j = String.length (p +:+ render_host (hp_host h) +:+ pt)) as Hnone.
  { intros Hr [= <- <-]. split; [done|]. exists "", r. cbn [hp_host]. by rewrite string_app_nil. }
  destruct r as [|a r]; cbn [first_char]; [by apply Hnone|].
  assert (a = ";"%char \/ a = "?"%char \/ a = ":"%char \/ (a <> ";"%char /\ a <> "?"%char /\ a <> ":"%char)) as [->|[->|[->|(H1 & H2 & H3)]]].
  { destruct (decide (a = ";"%char)); [by left|]. destruct (decide (a = "?"%char)); [by right; left|]. destruct (decide (a = ":"%char)); [by right; right; left|by right; right; right]. }
  - by apply Hnone.
  - by apply Hnone.
  - clear Hnone. rewrite (str_snoc _ ":"), <- (len_snoc _ ":"). destruct (scan_split ((p +:+ render_host host) +:+ ":") r ";?") as (d & r' & -> & Hd & Hr & ->).
    rewrite clamped_between by done. destruct (port_value d) as [z|] eqn:Hz; [|done]. cbn [mbind option_bind]. intros [= <- <-].
    split; [split; [done|by eapply port_value_digits]|]. exists (String ":" d), r'. cbn [hp_host hp_port port_text]. split; [eauto|]. split; [by str_norm|]. split; [done|].
    by str_norm.
  - intros H. exfalso. revert H. destruct a as [[] [] [] [] [] [] [] []]; try done; by contradict H1 || by contradict H2 || by contradict H3.
Qed.
End host_text.

(** ** Parameters of a SIP URI *)

Definition sip_param_ok (p : string * ParamValue) : bool :=
  negb (paramchar_refused p.1) && match p.2 with PFlag => true | PToken v => negb (paramchar_refused v) | PQuoted _ => false end.
Definition params_end (r : string) : Prop := r = "" \/ exists t, r = String "?" t.
Lemma paramchar_avoids d s : forallb (fun n => implb (escaped is_paramchar (ascii_of_nat n)) (avoids d (ascii_of_nat n))) (seq 0 256) = true ->
  paramchar_refused s = false -> every (avoids d) s = true.
Proof. intros H. unfold paramchar_refused. rewrite orb_false_iff. intros [_ Hs%run_ok]. by eapply every_avoids. Qed.
Lemma params_end_uri r : params_end r -> uri_ends r.
Proof. by intros [->|[t ->]]. Qed.
Lemma render_params_ends l r : params_end r -> uri_ends (render_params l +:+ r).
Proof. intros Hr. destruct l as [|[n v] l]; [by apply params_end_uri|]. rewrite render_cons. str_norm. done. Qed.
Lemma sip_params_render p l r acc fuel : Forall (fun q => sip_param_ok q = true) l -> params_end r -> (length l < fuel)%nat ->
  sip_params fuel (p +:+ render_params l +:+ r) (String.length p) acc = Some (Some (acc ++ l, String.length (p +:+ render_params l))).
Proof.
  intros Hl Hr. revert p acc fuel. induction Hl as [|[n v] l Hp _ IH]; intros p acc [|fuel] Hf; simpl in Hf; try lia.
  - change (render_params []) with "". cbn [sip_params]. str_norm. rewrite byte_at_app, app_nil_r, string_app_nil.
    rewrite bool_decide_false; [done|]. by destruct Hr as [->|[t ->]].
  - rewrite render_cons. cbn [sip_params]. str_norm. rewrite byte_at_app, bool_decide_true by done. cbn [negb].
    apply andb_true_iff in Hp as [Hn Hv]. cbn [fst snd] in *. apply negb_true_iff in Hn.
    rewrite (str_snoc p ";"), <- (len_snoc p ";"). pose proof (render_params_ends l r Hr) as He.
    rewrite scan_until_app; [|by apply paramchar_avoids|].
    2: { destruct v; cbn [render_value]; str_norm; [|done..]. apply uri_ends_cases in He as [->|[[t ->]|[t ->]]]; done. }
    rewrite clamped_app, Hn. rewrite <- str_app_assoc, <- str_len_app, byte_at_app. set (q := (p +:+ ";") +:+ n).
    destruct v as [|t|t]; cbn [render_value]; rewrite ?str_app_cons, ?str_app_nil; [| |done].
    + rewrite bool_decide_false; [|apply uri_ends_cases in He as [->|[[t ->]|[t ->]]]; done]. rewrite IH by lia. do 3 f_equal; [by rewrite <- app_assoc|].
      unfold q. by str_norm.
    + rewrite bool_decide_true by done. rewrite (str_snoc _ "="), <- (len_snoc _ "="). apply negb_true_iff in Hv.
      rewrite scan_until_app; [|by apply paramchar_avoids|done]. rewrite clamped_app, Hv. rewrite <- (str_app_assoc _ t), <- str_len_app. rewrite IH by lia. do 3 f_equal; [by rewrite <- app_assoc|].
      unfold q. by str_norm.
Qed.
Lemma sip_params_inv p t acc fuel l j : uri_ends t -> sip_params fuel (p +:+ t) (String.length p) acc = Some (Some (l, j)) ->
  exists l' r, l = acc ++ l' /\ Forall (fun q => sip_param_ok q = true) l' /\ t = render_params l' +:+ r /\ params_end r /\ j = String.length (p +:+ render_params l').
Proof.
  revert p t acc. induction fuel as [|fuel IH]; intros p t acc Ht; [done|]. cbn [sip_params]. rewrite byte_at_app. case_bool_decide as Hb; cbn [negb].
  - destruct t as [|a t]; [done|]. injection Hb as ->. rewrite (str_snoc p ";"), <- (len_snoc p ";").
    destruct (scan_split (p +:+ ";") t "=;?") as (n & r & -> & Hn & Hr & ->). rewrite clamped_between by done. destruct (paramchar_refused n) eqn:Hpn; [done|].
    rewrite <- str_app_assoc, byte_at_app. case_bool_decide as He.
    + destruct r as [|a r]; [done|]. injection He as ->. rewrite (str_snoc _ "="), <- (len_snoc _ "="). destruct (scan_split (((p +:+ ";") +:+ n) +:+ "=") r ";?") as (v & r' & -> & Hv & Hr' & ->).
      rewrite clamped_between by done. destruct (paramchar_refused v) eqn:Hpv; [done|]. rewrite <- str_app_assoc. intros H. apply IH in H as (l' & r & -> & Hl & -> & Hend & ->); [|done].
      exists ((n, PToken v) :: l'), r. split; [by rewrite <- app_assoc|]. split; [constructor; [|done]; unfold sip_param_ok; cbn [fst snd]; by rewrite Hpn, Hpv|].
      rewrite render_cons. cbn [render_value]. split; [by str_norm|]. split; [done|]. by str_norm.
    + intros H. apply IH in H as (l' & r'' & -> & Hl & -> & Hend & ->).
      2: { apply stops_cases in Hr as [->|(a & r' & -> & Ha)]; [done|]. unfold uri_ends, stops, avoids. cbn [first_char] in *. apply negb_false_iff.
           change (bool_decide (a = "="%char) || has_char a ";?" = true) in Ha. rewrite bool_decide_eq_false_2 in Ha by congruence. done. }
      exists ((n, PFlag) :: l'), r''. split; [by rewrite <- app_assoc|]. split; [constructor; [|done]; unfold sip_param_ok; cbn [fst snd]; by rewrite Hpn|].
      rewrite render_cons. cbn [render_value]. split; [by str_norm|]. split; [done|]. by str_norm.
  - intros [= <- <-]. exists [], t. change (render_params []) with "". rewrite app_nil_r, string_app_nil. repeat split; [constructor|].
    apply uri_ends_cases in Ht as [->|[[t' ->]|[t' ->]]]; [by left|done|right; eauto].
Qed.
(** The parameter loop ends: each round takes its semicolon. *)
Lemma sip_params_total s j acc fuel : (String.length s - j < fuel)%nat -> is_Some (sip_params fuel s j acc).
Proof.
  revert j acc. induction fuel as [|fuel IH]; intros j acc Hf; [lia|]. cbn [sip_params]. case_bool_decide as Hb; cbn [negb]; [|by eexists].
  apply byte_at_in in Hb. assert (S j <= scan_until s (S j) "=;?")%nat as He by (unfold scan_until; lia). set (e := scan_until s (S j) "=;?") in *.
  destruct (paramchar_refused _); [by eexists|]. destruct (bool_decide _); [|apply IH; lia].
  assert (S e <= scan_until s (S e) ";?")%nat by (unfold scan_until; lia). destruct (paramchar_refused _); [by eexists|]. apply IH. lia.
Qed.

(** ** Escaped headers *)

Definition header_ok (h : string * option string) : bool :=
  match h.2 with
  | Some v => negb (String.eqb h.1 "") && negb (run_refused is_hnv_char true h.1) && negb (run_refused is_hnv_char true v)
  | None => false
  end.
Lemma render_headers_joined h l : render_headers (h :: l) = String "?" (joined "&" (map render_header (h :: l))).
Proof. simpl. do 2 f_equal. induction l as [|h' l IH]; simpl; [done|]. by rewrite IH. Qed.
Lemma hnv_no_char c s : escaped is_hnv_char c = false -> run_refused is_hnv_char true s = false -> has_char c s = false.
Proof. intros Hc Hs%run_ok. by eapply every_no_char. Qed.
Lemma header_ok_inv h : header_ok h = true -> exists n v, h = (n, Some v) /\ n <> "" /\ run_refused is_hnv_char true n = false /\ run_refused is_hnv_char true v = false.
Proof.
  destruct h as [n [v|]]; unfold header_ok; cbn [fst snd]; [|done]. rewrite !andb_true_iff, !negb_true_iff, String.eqb_neq. intros [[H1 H2] H3]. by exists n, v.
Qed.
Lemma header_no_char c h : escaped is_hnv_char c = false -> c <> "="%char -> header_ok h = true -> has_char c (render_header h) = false.
Proof.
  intros Hc He (n & v & -> & _ & Hn & Hv)%header_ok_inv. unfold render_header. cbn [fst snd]. rewrite has_char_app. simpl.
  rewrite !(hnv_no_char c) by done. rewrite bool_decide_eq_false_2 by done. done.
Qed.
Lemma sip_header_iff pair h : sip_header pair = Some h <-> pair = render_header h /\ header_ok h = true.
Proof.
  split.
  - unfold sip_header. destruct (split_once "=" pair) as [[n v]|] eqn:Hs; [|done]. cbn [mbind option_bind]. destruct (_ || _ || _) eqn:Hr; [done|].
    rewrite !orb_false_iff in Hr. destruct Hr as [[H1 H2] H3]. intros [= <-]. apply split_once_some in Hs as [-> _]. split; [done|]. unfold header_ok. cbn [fst snd]. by rewrite H1, H2, H3.
  - intros [-> (n & v & -> & Hne & Hn & Hv)%header_ok_inv]. unfold render_header, sip_header. cbn [fst snd].
    rewrite split_once_app by (by apply hnv_no_char). cbn [mbind option_bind]. rewrite Hn, Hv. by rewrite (proj2 (String.eqb_neq n "")).
Qed.
Lemma headers_iff l hs : l <> [] -> mapM sip_header l = Some hs <-> l = map render_header hs /\ Forall (fun h => header_ok h = true) hs.
Proof.
  intros _. rewrite mapM_Some. split.
  - induction 1 as [|x h l hs [-> Hx]%sip_header_iff _ [-> Hl]]; [done|]. split; [done|by constructor].
  - intros [-> Hl]. induction Hl as [|h hs Hh _ IH]; constructor; [by apply sip_header_iff|done].
Qed.
Lemma headers_read hs : Forall (fun h => header_ok h = true) hs -> hs <> [] -> mapM sip_header (split_at_char "&" (joined "&" (map render_header hs))) = Some hs.
Proof.
  intros Hl Hne. destruct hs as [|h hs]; [done|]. cbn [map]. rewrite split_joined.
  - by apply headers_iff.
  - change (Forall (fun y => has_char "&" y = false) (map render_header (h :: hs))). apply Forall_map. eapply Forall_impl; [exact Hl|]. intros h' Hh'. by apply header_no_char.
Qed.
Lemma headers_read_inv t hs : mapM sip_header (split_at_char "&" t) = Some hs -> Forall (fun h => header_ok h = true) hs /\ String "?" t = render_headers hs.
Proof.
  intros H. apply headers_iff in H as [Hm Hl]; [|apply split_nonempty]. split; [done|]. destruct hs as [|h hs].
  - by destruct (split_nonempty "&" t).
  - rewrite render_headers_joined, <- Hm. by rewrite joined_split.
Qed.

(** ** SIP URIs *)

Definition user_text (u : UriParts) : string := match up_user u with Some x => x +:+ "@" | None => "" end.
Section sip_uri.
Context `{L : StdIpLaws}.
Record sip_ok (u : UriParts) (role : UriRole) : Prop := {
  so_user : match up_user u with Some x => userinfo_refused x = false | None => True end;
  so_host : hostport_ok (up_authority u) role;
  so_params : Forall (fun q => sip_param_ok q = true) (up_params u);
  so_headers : Forall (fun h => header_ok h = true) (up_headers u);
  so_opaque : up_opaque u = None;
}.
(** The text after the scheme, the port as it was written. *)
Definition sip_text (u : UriParts) (pt : string) : string :=
  user_text u +:+ render_host (hp_host (up_authority u)) +:+ pt +:+ render_params (up_params u) +:+ render_headers (up_headers u).
Lemma userinfo_no_at x : userinfo_refused x = false -> has_char "@" x = false.
Proof.
  unfold userinfo_refused. destruct (split_once ":" x) as [[u w]|] eqn:Hs.
  - apply split_once_some in Hs as [-> _]. rewrite !orb_false_iff. intros [[_ Hu%run_ok] Hw%run_ok]. rewrite has_char_app. simpl.
    rewrite (every_no_char (escaped is_user_char)), (every_no_char (escaped is_password_char)) by done. done.
  - rewrite !orb_false_iff. intros [[_ Hu%run_ok] _]. by apply (every_no_char (escaped is_user_char)).
Qed.
Lemma host_no_at h role : host_refused h role = false -> has_char "@" (render_host h) = false.
Proof.
  intros Hh. unfold render_host. destruct (has_char ":" h) eqn:Hc.
  - assert (is_ipv6_address h = true) as Hip.
    { unfold host_refused in Hh. rewrite Hc in Hh. destruct (String.eqb h ""); [done|]. by apply negb_false_iff in Hh. }
    apply ipv6_every in Hip as [Hip _]. simpl. rewrite has_char_app. rewrite (every_no_char ipv6_char) by done. done.
  - apply (every_no_char host_char); [done|]. by eapply host_plain.
Qed.
Lemma params_no_at l : Forall (fun q => sip_param_ok q = true) l -> has_char "@" (render_params l) = false.
Proof.
  induction 1 as [|[n v] l Hp _ IH]; [done|]. rewrite render_cons. cbn [has_char]. rewrite !has_char_app, IH.
  apply andb_true_iff in Hp as [Hn Hv]. cbn [fst snd] in *. apply negb_true_iff, orb_false_iff in Hn as [_ Hn%run_ok]. rewrite (every_no_char (escaped is_paramchar)) by done.
  destruct v as [|t|t]; [done| |done]. apply negb_true_iff, orb_false_iff in Hv as [_ Hv%run_ok]. simpl. by rewrite (every_no_char (escaped is_paramchar)).
Qed.
Lemma headers_no_at hs : Forall (fun h => header_ok h = true) hs -> has_char "@" (render_headers hs) = false.
Proof.
  intros Hl. destruct hs as [|h hs]; [done|]. rewrite render_headers_joined. cbn [has_char]. apply no_char_every. apply joined_every; [done|].
  apply Forall_map. eapply Forall_impl; [exact Hl|]. intros h' Hh'. cbn beta. apply no_char_every. by apply header_no_char.
Qed.
Lemma port_no_at pt port : port_text pt port -> has_char "@" pt = false.
Proof.
  destruct port as [z|]; simpl; [|by intros ->]. intros (d & -> & [Hd _]%port_value_digits). simpl. by apply (every_no_char is_ascii_digit).
Qed.
Lemma headers_end hs : params_end (render_headers hs).
Proof. destruct hs as [|h hs]; [by left|right]. rewrite render_headers_joined. eauto. Qed.

Lemma read_sip_render p sch u pt role : sip_ok u role -> port_text pt (hp_port (up_authority u)) ->
  read_sip (p +:+ sip_text u pt) sch (String.length p) role = Some (mkParts sch (up_user u) (up_authority u) (up_params u) (up_headers u) None).
Proof.
  intros Hok Hpt. destruct u as [sch0 user h ps hs op]. destruct Hok as [Hu Hh Hps Hhs _]. unfold sip_text, user_text. cbn [up_user up_authority up_params up_headers] in *.
  set (rest := render_host (hp_host h) +:+ pt +:+ render_params ps +:+ render_headers hs).
  assert (has_char "@" rest = false) as Hat.
  { unfold rest. rewrite !has_char_app, (host_no_at _ role), (port_no_at _ (hp_port h)), params_no_at, headers_no_at; [done|done|done|done|]. by destruct Hh. }
  assert (forall q, sip_after_user (q +:+ rest) sch user (String.length q) role = Some (mkParts sch user h ps hs None)) as Hrest.
  { intros q. unfold sip_after_user, rest. rewrite read_hostport_render; [|done|done|apply render_params_ends, headers_end]. cbn [mbind option_bind].
    rewrite <- !str_app_assoc. rewrite (str_app_assoc _ (render_params ps)). rewrite (str_app_assoc q). set (q' := q +:+ _ +:+ pt).
    rewrite sip_params_render; [|done|apply headers_end|unfold params_fuel; rewrite !str_len_app; pose proof (render_params_long ps); lia].
    cbn [mjoin option_join mbind option_bind app]. rewrite <- str_app_assoc, byte_at_app. destruct hs as [|h0 hs].
    - by rewrite bool_decide_false.
    - rewrite render_headers_joined. rewrite bool_decide_true by done. rewrite (str_snoc _ "?"), <- (len_snoc _ "?"). rewrite clamped_rest by done. by rewrite headers_read. }
  unfold read_sip. destruct user as [x|].
  - rewrite str_app_assoc. str_norm. rewrite index_of_app by (by apply no_char_every, userinfo_no_at). rewrite clamped_app, Hu.
    replace (p +:+ x +:+ String "@" rest) with ((p +:+ x +:+ "@") +:+ rest) by (by str_norm).
    replace (S (String.length p + String.length x)) with (String.length (p +:+ x +:+ "@")) by (rewrite !str_len_app; simpl; lia). apply Hrest.
  - rewrite str_app_nil. rewrite (proj2 (index_none p rest "@")) by done. apply Hrest.
Qed.
Lemma read_sip_inv p t sch role u : read_sip (p +:+ t) sch (String.length p) role = Some u ->
  up_scheme u = sch /\ sip_ok u role /\ exists pt, port_text pt (hp_port (up_authority u)) /\ t = sip_text u pt.
Proof.
  unfold read_sip. intros H.
  assert (forall user q t', (match user with Some x => userinfo_refused x = false | None => True end) ->
    sip_after_user (q +:+ t') sch user (String.length q) role = Some u ->
    up_scheme u = sch /\ up_user u = user /\ sip_ok u role /\ exists pt, port_text pt (hp_port (up_authority u)) /\
      t' = render_host (hp_host (up_authority u)) +:+ pt +:+ render_params (up_params u) +:+ render_headers (up_headers u)) as Hrest.
  { clear H. intros user q t' Hu. unfold sip_after_user. destruct (read_hostport _ _ _) as [[h j]|] eqn:Hh; [|done]. cbn [mbind option_bind].
    apply read_hostport_inv in Hh as (Hh & pt & r & Hpt & -> & Hr & ->). rewrite <- (str_app_assoc _ pt r), <- (str_app_assoc q _ r). set (q' := q +:+ _ +:+ pt).
    destruct (sip_params _ _ _ _) as [[[ps j]|]|] eqn:Hps; [|done..]. apply sip_params_inv in Hps as (ps' & r' & -> & Hps & -> & Hr' & ->); [|done].
    cbn [mjoin option_join mbind option_bind app]. rewrite <- str_app_assoc, byte_at_app. destruct Hr' as [->|[t'' ->]].
    - rewrite bool_decide_false by done. intros [= <-]. cbn. repeat split; try done; [by destruct Hh..|]. exists pt. split; [done|]. by str_norm.
    - rewrite bool_decide_true by done. rewrite (str_snoc _ "?"), <- (len_snoc _ "?"). rewrite clamped_rest by done.
      destruct (mapM _ _) as [hs|] eqn:Hhs; [|done]. apply headers_read_inv in Hhs as [Hhs Ht]. intros [= <-]. cbn. repeat split; try done; [by destruct Hh..|].
      exists pt. split; [done|]. rewrite <- Ht. by str_norm. }
  destruct (index_of (p +:+ t) "@" _) as [k|] eqn:Hi.
  - apply index_some in Hi as (x & r & -> & Hx & ->). rewrite clamped_between in H by done. destruct (userinfo_refused x) eqn:Hu; [done|].
    rewrite <- str_app_assoc, (str_snoc (p +:+ x) "@"), <- (len_snoc (p +:+ x) "@") in H. apply Hrest in H as (Hs & Hus & Hok & pt & Hpt & ->); [|done].
    split; [done|]. split; [done|]. exists pt. split; [done|]. unfold sip_text, user_text. rewrite Hus. by str_norm.
  - apply Hrest in H as (Hs & Hus & Hok & pt & Hpt & ->); [|done]. split; [done|]. split; [done|]. exists pt. split; [done|].
    unfold sip_text, user_text. rewrite Hus. by str_norm.
Qed.
End sip_uri.

(** ** tel URIs *)

Definition tel_char (b : ascii) : bool := is_uri_char b || Ascii.eqb b "#".
Definition tel_param_ok (q : string * ParamValue) : bool := param_ok URI_PARAMS q && every tel_char (q.1 +:+ render_value q.2).
Lemma tel_not_ws t : every tel_char t = true -> stops is_ws t.
Proof.
  destruct t as [|a t]; [done|]. cbn [every]. rewrite andb_true_iff. intros [Ha _]. unfold stops. cbn [first_char].
  by apply (class_not_ws tel_char).
Qed.
Lemma tel_scan p t d d' : every tel_char t = true ->
  forallb (fun n => implb (tel_char (ascii_of_nat n)) (Bool.eqb (has_char (ascii_of_nat n) d) (has_char (ascii_of_nat n) d'))) (seq 0 256) = true ->
  scan_until (p +:+ t) (String.length p) d = scan_until (p +:+ t) (String.length p) d'.
Proof.
  intros Ht Hd. unfold scan_until. f_equal. rewrite SipText.suffix_app. induction t as [|a t IH]; [done|]. cbn [every run_len] in *.
  apply andb_true_iff in Ht as [Ha Ht]. pose proof (every_byte (fun a => implb (tel_char a) (Bool.eqb (has_char a d) (has_char a d'))) Hd a) as He. cbn beta in He.
  rewrite Ha in He. apply Bool.eqb_prop in He. rewrite He, IH by done. done.
Qed.
Lemma every_both f g v : every f v = true -> every g v = true -> every (fun a => f a && g a) v = true.
Proof. induction v as [|a v IH]; simpl; [done|]. rewrite !andb_true_iff. tauto. Qed.
Lemma tel_value_ok v : every tel_char v = true -> every (avoids ";?") v = true -> value_ok URI_PARAMS (PToken v) = true.
Proof.
  intros Hv Ha. unfold value_ok. apply andb_true_iff. split.
  - pose proof (every_both _ _ _ Hv Ha) as H. revert H. apply every_impl. by_class.
  - apply negb_true_iff, bool_decide_eq_false. destruct v as [|a v]; [done|]. cbn [first_char every] in *. intros [= ->]. done.
Qed.
Lemma tel_name_ok v : every tel_char v = true -> every (avoids "=;?") v = true -> every (avoids (name_delims URI_PARAMS)) v = true.
Proof.
  intros Hv Ha. pose proof (every_both _ _ _ Hv Ha) as H. revert H. apply every_impl. by_class.
Qed.
Lemma tel_params_inv p t acc fuel l j : every tel_char t = true -> uri_ends t -> collect_semicolon_params fuel (p +:+ t) (String.length p) URI_PARAMS acc = Some (l, j) ->
  exists l' x r, l = acc ++ l' /\ Forall (fun q => tel_param_ok q = true) l' /\ t = x +:+ r /\ params_end r /\ j = String.length (p +:+ x).
Proof.
  revert p t acc. induction fuel as [|fuel IH]; intros p t acc Hc Ht; [done|]. cbn [collect_semicolon_params]. rewrite skip_ws_app by (by apply tel_not_ws).
  rewrite byte_at_app. case_bool_decide as Hb; cbn [negb].
  2: { intros [= <- <-]. exists [], "", t. rewrite app_nil_r, string_app_nil. repeat split; [constructor|]. apply uri_ends_cases in Ht as [->|[[t' ->]|[t' ->]]]; [by left|done|right; eauto]. }
  destruct t as [|a t]; [done|]. injection Hb as ->. cbn [every] in Hc. apply andb_true_iff in Hc as [_ Hc]. rewrite (str_snoc p ";"), <- (len_snoc p ";"). set (q := p +:+ ";").
  rewrite skip_ws_app by (by apply tel_not_ws). unfold read_one. rewrite (tel_scan _ _ _ "=;?") by (vm_compute; done || done).
  destruct (scan_split q t "=;?") as (n & r & -> & Hn & Hr & ->). rewrite clamped_between by done. rewrite every_app, andb_true_iff in Hc. destruct Hc as [Hcn Hcr].
  rewrite <- str_app_assoc. rewrite skip_ws_app by (by apply tel_not_ws). rewrite byte_at_app. pose proof (tel_name_ok n Hcn Hn) as Hn'. case_bool_decide as He.
  - destruct r as [|a r]; [done|]. injection He as ->. cbn [every] in Hcr. apply andb_true_iff in Hcr as [_ Hcr]. rewrite (str_snoc _ "="), <- (len_snoc _ "="). set (q2 := (q +:+ n) +:+ "=").
    rewrite skip_ws_app by (by apply tel_not_ws). rewrite byte_at_app. rewrite bool_decide_false by (destruct r; [done|]; intros [= ->]; done).
    rewrite (tel_scan _ _ _ ";?") by (vm_compute; done || done). destruct (scan_split q2 r ";?") as (v & r' & -> & Hv & Hr' & ->). rewrite clamped_between by done.
    rewrite every_app, andb_true_iff in Hcr. destruct Hcr as [Hcv Hcr]. rewrite <- str_app_assoc. intros H. apply IH in H as (l' & x & r & -> & Hl & -> & Hend & ->); [|done|done].
    exists ((n, PToken v) :: l'), (String ";" (n +:+ String "=" (v +:+ x))), r. split; [by rewrite <- app_assoc|]. split; [constructor; [|done]|].
    + unfold tel_param_ok, param_ok. cbn [fst snd render_value]. rewrite Hn', (tel_value_ok v) by done. rewrite every_app, Hcn. cbn [every]. by rewrite Hcv.
    + split; [by str_norm|]. split; [done|]. unfold q2, q. by str_norm.
  - intros H. assert (uri_ends r) as Hr2.
    { apply stops_cases in Hr as [->|(a & r' & -> & Ha)]; [done|]. unfold uri_ends, stops, avoids. cbn [first_char] in *. apply negb_false_iff.
      change (bool_decide (a = "="%char) || has_char a ";?" = true) in Ha. rewrite bool_decide_eq_false_2 in Ha by congruence. done. }
    apply IH in H as (l' & x & r'' & -> & Hl & -> & Hend & ->); [|done|done].
    destruct (String.eqb n "") eqn:Hne.
    + exists l', (String ";" (n +:+ x)), r''. repeat split; [done|by str_norm|done|]. unfold q. by str_norm.
    + exists ((n, PFlag) :: l'), (String ";" (n +:+ x)), r''. split; [by rewrite <- app_assoc|]. split; [constructor; [|done]|].
      * unfold tel_param_ok, param_ok. cbn [fst snd render_value]. rewrite Hne, Hn', string_app_nil, Hcn. by rewrite bool_decide_true.
      * split; [by str_norm|]. split; [done|]. unfold q. by str_norm.
Qed.
Lemma tel_header_render pair : render_header (tel_header pair) = pair.
Proof.
  unfold tel_header. destruct (split_once "=" pair) as [[n v]|] eqn:Hs; [by apply split_once_some in Hs as [-> _]|]. unfold render_header. cbn [fst snd]. apply string_app_nil.
Qed.
Lemma tel_headers_render t : render_headers (map tel_header (split_at_char "&" t)) = String "?" t.
Proof.
  pose proof (joined_split "&" t) as Ht. destruct (split_at_char "&" t) as [|x l] eqn:Hs; [by destruct (split_nonempty "&" t)|]. cbn [map]. rewrite render_headers_joined.
  f_equal. rewrite <- Ht. f_equal. change (map render_header (map tel_header (x :: l)) = x :: l). rewrite map_map. erewrite map_ext; [apply map_id|]. apply tel_header_render.
Qed.

Lemma render_params_every l : Forall (fun q => tel_param_ok q = true) l -> every tel_char (render_params l) = true.
Proof.
  induction 1 as [|[n v] l Hq _ IH]; [done|]. rewrite render_cons. cbn [every]. apply andb_true_iff in Hq as [_ Hq]. cbn [fst snd] in Hq.
  rewrite <- str_app_assoc, every_app, Hq, IH. done.
Qed.
Lemma read_tel_text p t sch l hs x number : every tel_char (number +:+ x) = true -> every (avoids ";?") number = true -> number <> "" -> params_end x ->
  Forall (fun q => tel_param_ok q = true) l -> t = number +:+ render_params l +:+ x ->
  hs = match x with String _ x => map tel_header (split_at_char "&" x) | EmptyString => [] end ->
  read_tel (p +:+ t) sch (String.length p) = Some (mkParts sch None (mkHP number None) l hs None).
Proof.
  intros Hc Hn Hne Hx Hl -> ->. unfold read_tel. rewrite clamped_rest by done. rewrite every_app, andb_true_iff in Hc. destruct Hc as [Hcn Hcx].
  rewrite (proj2 (run_plain _ _)) by (change (every tel_char (number +:+ render_params l +:+ x) = true); by rewrite !every_app, Hcn, Hcx, render_params_every).
  rewrite scan_until_app; [|done|by apply render_params_ends]. apply str_len_pos in Hne. destruct (Nat.leb_spec (String.length p + String.length number) (String.length p)); [lia|].
  rewrite clamped_app. rewrite <- str_app_assoc, <- str_len_app. unfold parse_semicolon_params, params_fuel.
  rewrite collect_render; [|done| | |rewrite !str_len_app; pose proof (render_params_long l); lia].
  - cbn [mbind option_bind app]. do 2 f_equal. rewrite <- str_len_app, <- str_app_assoc, byte_at_app. destruct Hx as [->|[y ->]]; [by rewrite bool_decide_false|].
    rewrite bool_decide_true by done. rewrite (str_snoc _ "?"), <- (len_snoc _ "?"). by rewrite clamped_rest.
  - eapply Forall_impl; [exact Hl|]. by intros q [? _]%andb_true_iff.
  - by destruct Hx as [->|[y ->]].
Qed.
Lemma read_tel_again p t sch u : read_tel (p +:+ t) sch (String.length p) = Some u -> has_char ":" (hp_host (up_authority u)) = false ->
  up_scheme u = sch /\ up_user u = None /\ up_opaque u = None /\
  forall q, read_tel (q +:+ render_hostport (up_authority u) +:+ render_params (up_params u) +:+ render_headers (up_headers u)) sch (String.length q) = Some u.
Proof.
  unfold read_tel at 1. rewrite clamped_rest by done. destruct (run_refused _ _ _) eqn:Hc; [done|]. apply run_plain in Hc. change (every tel_char t = true) in Hc.
  destruct (scan_split p t ";?") as (number & r & -> & Hn & Hr & ->). destruct (_ <=? _)%nat eqn:Hlen; [done|]. rewrite clamped_between by done. rewrite every_app, andb_true_iff in Hc.
  destruct Hc as [Hcn Hcr]. rewrite <- str_app_assoc. destruct (parse_semicolon_params _ _ _) as [[l j]|] eqn:Hl; [|done]. apply tel_params_inv in Hl as (l' & x & r' & -> & Hl & -> & Hend & ->); [|done|done].
  cbn [mbind option_bind]. intros [= <-]. cbn [up_authority hp_host up_scheme up_user up_opaque up_params up_headers app]. intros Hcolon. repeat split. intros q.
  rewrite <- (str_app_assoc _ x), byte_at_app. rewrite every_app, andb_true_iff in Hcr. destruct Hcr as [_ Hcr].
  apply (read_tel_text _ _ _ _ _ r' number); try done.
  - by rewrite every_app, Hcn, Hcr.
  - intros ->. rewrite string_app_nil, Nat.leb_refl in Hlen. done.
  - unfold render_hostport, render_host. cbn [hp_host hp_port]. rewrite Hcolon, string_app_nil. f_equal. f_equal. destruct Hend as [->|[y ->]]; [by rewrite bool_decide_false|].
    rewrite bool_decide_true by done. rewrite (str_snoc _ "?"), <- (len_snoc _ "?"). rewrite clamped_rest by done. by rewrite tel_headers_render.
  - destruct Hend as [->|[y ->]]; [by rewrite bool_decide_false|]. rewrite bool_decide_true by done. rewrite (str_snoc _ "?"), <- (len_snoc _ "?"). by rewrite clamped_rest.
Qed.
Lemma read_opaque_inv p t sch u : read_opaque (p +:+ t) sch (String.length p) = Some u ->
  u = mkParts sch None (mkHP "" None) [] [] (Some t) /\ forall q, read_opaque (q +:+ t) sch (String.length q) = Some u.
Proof.
  unfold read_opaque. rewrite str_len_app. destruct (_ <=? _)%nat eqn:Hlen; [done|]. rewrite clamped_rest by (by rewrite ?str_len_app). destruct (run_refused _ _ _) eqn:Hr; [done|].
  intros [= <-]. split; [done|]. intros q. rewrite str_len_app. apply Nat.leb_gt in Hlen. rewrite (proj2 (Nat.leb_gt _ _)) by lia. by rewrite clamped_rest, Hr by (by rewrite ?str_len_app).
Qed.

(** ** Whole URIs *)

Lemma lower_idem s : lower (lower s) = lower s.
Proof.
  induction s as [|a s IH]; [done|]. cbn [lower]. rewrite IH. f_equal. apply Ascii.eqb_eq. revert a. apply every_byte. by vm_compute.
Qed.
Definition scheme_char (b : ascii) : bool := is_alphanum b || has_char b "+-.".
Lemma scheme_every s : scheme_refused s = false -> every scheme_char s = true.
Proof.
  destruct s as [|b s]; [done|]. unfold scheme_refused. rewrite orb_false_iff, !negb_false_iff. intros [Hb Hs]. cbn [every]. apply andb_true_iff. split; [|done].
  revert b Hb. by_class.
Qed.
Lemma scheme_lower s : scheme_refused s = false -> scheme_refused (lower s) = false /\ has_char ":" (lower s) = false.
Proof.
  intros H. assert (scheme_refused (lower s) = false) as Hl.
  { destruct s as [|b s]; [done|]. revert H. unfold scheme_refused. cbn [lower]. rewrite !orb_false_iff, !negb_false_iff. intros [Hb Hs]. split.
    - revert b Hb. by_class.
    - revert Hs. induction s as [|a s IH]; [done|]. cbn [every lower]. rewrite !andb_true_iff. intros [Ha Hs]. split; [|by apply IH]. revert a Ha. by_class. }
  split; [done|]. by apply (every_no_char scheme_char), scheme_every.
Qed.
Lemma split_colon s k : index_of s ":" 0 = Some k -> exists x r, s = x +:+ String ":" r /\ has_char ":" x = false /\ k = String.length x.
Proof. intros H. change s with ("" +:+ s) in H. change 0%nat with (String.length "") in H. apply index_some in H as (x & r & -> & Hx & ->). eauto. Qed.
Lemma clamped_front x r : clamped (x +:+ r) 0 (String.length x) = x.
Proof. exact (clamped_app "" x r). Qed.
Section uris.
Context `{L : StdIpLaws}.
Definition read_rest (value scheme : string) (i : nat) (role : UriRole) : option UriParts :=
  if String.eqb scheme "sip" || String.eqb scheme "sips" then read_sip value scheme i role
  else if String.eqb scheme "tel" then read_tel value scheme i
  else read_opaque value scheme i.
Lemma read_uri_scheme sch rest role : scheme_refused sch = false -> has_char ":" sch = false ->
  read_uri (sch +:+ String ":" rest) role = read_rest ((sch +:+ ":") +:+ rest) (lower sch) (String.length (sch +:+ ":")) role.
Proof.
  intros Hs Hc. unfold read_uri. pose proof (index_of_app "" sch ":" rest (proj1 (no_char_every _ _) Hc)) as Hi. rewrite str_app_nil in Hi. change (String.length "") with 0%nat in Hi.
  rewrite Hi. cbn [mbind option_bind]. rewrite clamped_front. rewrite Hs, (str_snoc sch ":"), (len_snoc sch ":"). done.
Qed.
Lemma read_uri_inv s role u : read_uri s role = Some u -> exists sch rest, s = sch +:+ String ":" rest /\ scheme_refused sch = false /\ has_char ":" sch = false /\
  read_rest ((sch +:+ ":") +:+ rest) (lower sch) (String.length (sch +:+ ":")) role = Some u.
Proof.
  intros H. assert (exists sch rest, s = sch +:+ String ":" rest /\ has_char ":" sch = false /\ scheme_refused sch = false) as (sch & rest & -> & Hc & Hs).
  { unfold read_uri in H. destruct (index_of s ":" 0) as [k|] eqn:Hi; [|done]. apply split_colon in Hi as (sch & rest & -> & Hc & ->). cbn [mbind option_bind] in H.
    rewrite clamped_front in H. destruct (scheme_refused sch) eqn:Hs; [done|]. eauto. }
  exists sch, rest. rewrite read_uri_scheme in H by done. done.
Qed.
Lemma render_sip u : up_scheme u <> "" -> up_opaque u = None ->
  render_uri u = up_scheme u +:+ String ":" (sip_text u (match hp_port (up_authority u) with Some p => String ":" (pretty p) | None => "" end)).
Proof.
  intros Hs Ho. unfold render_uri. rewrite (proj2 (String.eqb_neq _ _) Hs), Ho. unfold sip_text, user_text, render_hostport. do 2 f_equal. destruct (up_user u); by str_norm.
Qed.
Lemma pretty_port_text h role : hostport_ok h role -> port_text (match hp_port h with Some p => String ":" (pretty p) | None => "" end) (hp_port h).
Proof. intros [_ Hp]. destruct (hp_port h) as [p|]; [|done]. exists (pretty p). split; [done|by apply port_value_pretty]. Qed.

(** A URI that was read, rendered from its parts and read again, is itself. *)
Lemma uri_read_back s role u :
  read_uri s role = Some u -> (up_scheme u = "tel" -> has_char ":" (hp_host (up_authority u)) = false) ->
  read_uri (render_uri u) role = Some u.
Proof.
  intros (sch & rest & -> & Hs & Hc & H)%read_uri_inv Htel. destruct (scheme_lower sch Hs) as [Hsl Hcl].
  assert (lower sch <> "") as Hne by (destruct sch; [done|]; done). unfold read_rest in H.
  destruct (String.eqb (lower sch) "sip" || String.eqb (lower sch) "sips") eqn:Hsip; [|destruct (String.eqb (lower sch) "tel") eqn:Ht].
  - apply read_sip_inv in H as (Hu & Hok & _). rewrite render_sip; [|by rewrite Hu|by apply Hok]. rewrite Hu, read_uri_scheme, lower_idem by done. unfold read_rest. rewrite Hsip.
    rewrite read_sip_render; [|done|by eapply pretty_port_text, so_host]. pose proof (so_opaque _ _ Hok) as Ho. destruct u. simpl in *. by rewrite Ho, Hu.
  - assert (up_scheme u = "tel") as Hut.
    { apply String.eqb_eq in Ht. unfold read_tel in H. destruct (run_refused _ _ _); [done|]. destruct (_ <=? _)%nat; [done|]. destruct (parse_semicolon_params _ _ _) as [[? ?]|]; [|done]. by injection H as <-. }
    apply read_tel_again in H as (Hu & Huser & Hop & H); [|auto]. unfold render_uri. rewrite Hut, Huser, Hop. apply String.eqb_eq in Ht. rewrite Ht in *. cbn [String.eqb].
    rewrite read_uri_scheme by done. unfold read_rest. cbn [lower String.eqb]. apply (H "tel:").
  - apply read_opaque_inv in H as (-> & H). unfold render_uri. cbn [up_scheme up_opaque up_params up_headers]. rewrite (proj2 (String.eqb_neq _ _) Hne).
    change (render_params []) with "". cbn [render_headers]. rewrite !string_app_nil, read_uri_scheme, lower_idem by done. unfold read_rest. rewrite Hsip, Ht. apply H.
Qed.
(** Of a SIP URI's text nothing is dropped but the case of its scheme and the
    leading zeros of its port. *)
Lemma sip_uri_lossless s role u :
  read_uri s role = Some u -> up_scheme u = "sip" \/ up_scheme u = "sips" ->
  exists sch pt, lower sch = up_scheme u /\ port_text pt (hp_port (up_authority u)) /\ s = sch +:+ String ":" (sip_text u pt).
Proof.
  intros (sch & rest & -> & Hs & Hc & H)%read_uri_inv Hu. unfold read_rest in H.
  destruct (String.eqb (lower sch) "sip" || String.eqb (lower sch) "sips") eqn:Hsip; [|destruct (String.eqb (lower sch) "tel") eqn:Ht].
  - apply read_sip_inv in H as (Hs' & _ & pt & Hpt & ->). exists sch, pt. done.
  - exfalso. apply String.eqb_eq in Ht. unfold read_tel in H. destruct (run_refused _ _ _); [done|]. destruct (_ <=? _)%nat; [done|].
    destruct (parse_semicolon_params _ _ _) as [[? ?]|]; [|done]. injection H as <-. cbn [up_scheme] in Hu. rewrite Ht in Hu. by destruct Hu.
  - exfalso. apply read_opaque_inv in H as (-> & _). cbn [up_scheme] in Hu. destruct Hu as [Hu|Hu]; rewrite Hu in Hsip; done.
Qed.

(** C9: the URI reader loses nothing it keeps.  A URI the reader accepts, of any
    scheme and in either role, rendered from its parts is accepted again and is
    the same URI (of a tel URI, when its number holds no colon); and of a sip or
    sips URI the reader keeps every byte but the case of the scheme and the
    leading zeros of the port: the text is the scheme, a colon and the parts as
    they render. *)
Theorem uri_reader_exact s role u :
  read_uri s role = Some u -> (up_scheme u = "tel" -> has_char ":" (hp_host (up_authority u)) = false) ->
  read_uri (render_uri u) role = Some u /\
  (up_scheme u = "sip" \/ up_scheme u = "sips" ->
   exists sch pt, lower sch = up_scheme u /\ port_text pt (hp_port (up_authority u)) /\ s = sch +:+ String ":" (sip_text u pt)).
Proof. intros H Ht. split; [by eapply uri_read_back|by eapply sip_uri_lossless]. Qed.
End uris.

(** ** A reader to run *)

(** One address of each family. *)
Definition ex_ip : StdIp := {| std_ipv4 t := String.eqb t "10.0.0.1"; std_ipv6 t := String.eqb t "2001:db8::1" |}.
Lemma ex_ip_laws : StdIpLaws ex_ip.
Proof. split; simpl; intros t ->%String.eqb_eq; done. Qed.
Definition ex_uri_text : string := "SIP:alice;day=tue:pw%21@[2001:db8::1]:05060;lr;maddr=h.example?Subject=a%20b&Priority=".
Definition ex_uri : UriParts :=
  mkParts "sip" (Some "alice;day=tue:pw%21") (mkHP "2001:db8::1" (Some 5060)) [("lr", PFlag); ("maddr", PToken "h.example")]
    [("Subject", Some "a%20b"); ("Priority", Some "")] None.
Lemma uri_reader_exact_witness :
  read_uri (IP := ex_ip) ex_uri_text Target = Some ex_uri /\
  render_uri ex_uri = "sip:alice;day=tue:pw%21@[2001:db8::1]:5060;lr;maddr=h.example?Subject=a%20b&Priority=" /\
  read_uri (IP := ex_ip) (render_uri ex_uri) Target = Some ex_uri.
Proof.
  split; [vm_compute; reflexivity|]. split; [vm_compute; reflexivity|].
  refine (proj1 (uri_reader_exact (L := ex_ip_laws) ex_uri_text Target ex_uri _ _)); [vm_compute; reflexivity|intros H; discriminate H].
Defined.
(** What the reader refuses. *)
Example uri_refusals :
  map (fun s => bool_decide (is_Some (read_uri (IP := ex_ip) s Target)))
    ["sip:h.example"; "sip:@h"; "sip:a@b@c"; "sip:h:0"; "sip:h:65536"; "sip:h;"; "sip:2001:db8::1"; "sip:1.2.3"; "sip:01.2.3.4"; "sip:h.1x"; "sip:h?a"; "tel:;x"; "urn:"; "sip:a%2@h"] =
    [true; false; false; false; false; false; false; false; false; false; false; false; false; false].
Proof. vm_compute. reflexivity. Qed.
