(* ===== verification/SipFrame.v ===== *)
(** * SIP message frames: splitting a datagram and writing one

    [crates/sip-message/src/parser/custom/scanner.rs], [start_line.rs],
    [headers.rs], [compact_forms.rs] and the frame of [mod.rs]: where the header
    block ends, the start line, the header lines with their folds and gates, the
    bound of the body; [control_bytes.rs], [header/id.rs]; and the writers,
    [serializer.rs] and [draft/render.rs] with the checks of [write_check.rs].
    A scanner is the text it has left.  The reading of UTF-8 is a parameter; the
    fields a reader extracts from the lines are left out. *)

From stdpp Require Import pretty.
From Stdlib Require Import Ascii.
From S2P Require Import Prelude Texts TxnData ProxyTypes SipHops SipText.

Open Scope Z_scope.

(** ** Header names ([header/name.rs], [header/id.rs], [compact_forms.rs]) *)

Inductive HeaderId :=
  | HAccept | HAcceptEncoding | HAcceptLanguage | HAlertInfo | HAllow | HAllowEvents | HAuthenticationInfo | HAuthorization | HCallId | HCallInfo
  | HContact | HContentDisposition | HContentEncoding | HContentLanguage | HContentLength | HContentTransferEncoding | HContentType | HCSeq | HDate
  | HDiversion | HErrorInfo | HEvent | HExpires | HFrom | HGeolocation | HGeolocationError | HGeolocationRouting | HHistoryInfo | HInReplyTo
  | HMaxForwards | HMimeVersion | HMinExpires | HMinSe | HOrganization | HPAccessNetworkInfo | HPAssertedIdentity | HPEarlyMedia
  | HPPreferredIdentity | HPath | HPriority | HPrivacy | HProxyAuthenticate | HProxyAuthorization | HProxyRequire | HRAck | HReason | HRecordRoute
  | HReferSub | HReferTo | HReferredBy | HRemotePartyId | HReplaces | HReplyTo | HRequire | HResourcePriority | HRetryAfter | HRoute | HRSeq
  | HServer | HServiceRoute | HSessionExpires | HSubject | HSubscriptionState | HSupported | HTimestamp | HTo | HUnsupported | HUserAgent
  | HUserToUser | HVia | HWarning | HWwwAuthenticate.
Definition wire (id : HeaderId) : string :=
  match id with
  | HAccept => "Accept" | HAcceptEncoding => "Accept-Encoding" | HAcceptLanguage => "Accept-Language" | HAlertInfo => "Alert-Info"
  | HAllow => "Allow" | HAllowEvents => "Allow-Events" | HAuthenticationInfo => "Authentication-Info" | HAuthorization => "Authorization"
  | HCallId => "Call-ID" | HCallInfo => "Call-Info" | HContact => "Contact" | HContentDisposition => "Content-Disposition"
  | HContentEncoding => "Content-Encoding" | HContentLanguage => "Content-Language" | HContentLength => "Content-Length"
  | HContentTransferEncoding => "Content-Transfer-Encoding" | HContentType => "Content-Type" | HCSeq => "CSeq" | HDate => "Date"
  | HDiversion => "Diversion" | HErrorInfo => "Error-Info" | HEvent => "Event" | HExpires => "Expires" | HFrom => "From"
  | HGeolocation => "Geolocation" | HGeolocationError => "Geolocation-Error" | HGeolocationRouting => "Geolocation-Routing"
  | HHistoryInfo => "History-Info" | HInReplyTo => "In-Reply-To" | HMaxForwards => "Max-Forwards" | HMimeVersion => "MIME-Version"
  | HMinExpires => "Min-Expires" | HMinSe => "Min-SE" | HOrganization => "Organization" | HPAccessNetworkInfo => "P-Access-Network-Info"
  | HPAssertedIdentity => "P-Asserted-Identity" | HPEarlyMedia => "P-Early-Media" | HPPreferredIdentity => "P-Preferred-Identity" | HPath => "Path"
  | HPriority => "Priority" | HPrivacy => "Privacy" | HProxyAuthenticate => "Proxy-Authenticate" | HProxyAuthorization => "Proxy-Authorization"
  | HProxyRequire => "Proxy-Require" | HRAck => "RAck" | HReason => "Reason" | HRecordRoute => "Record-Route" | HReferSub => "Refer-Sub"
  | HReferTo => "Refer-To" | HReferredBy => "Referred-By" | HRemotePartyId => "Remote-Party-ID" | HReplaces => "Replaces" | HReplyTo => "Reply-To"
  | HRequire => "Require" | HResourcePriority => "Resource-Priority" | HRetryAfter => "Retry-After" | HRoute => "Route" | HRSeq => "RSeq"
  | HServer => "Server" | HServiceRoute => "Service-Route" | HSessionExpires => "Session-Expires" | HSubject => "Subject"
  | HSubscriptionState => "Subscription-State" | HSupported => "Supported" | HTimestamp => "Timestamp" | HTo => "To" | HUnsupported => "Unsupported"
  | HUserAgent => "User-Agent" | HUserToUser => "User-to-User" | HVia => "Via" | HWarning => "Warning" | HWwwAuthenticate => "WWW-Authenticate"
  end.
Definition ALL : list HeaderId :=
  [HAccept; HAcceptEncoding; HAcceptLanguage; HAlertInfo; HAllow; HAllowEvents; HAuthenticationInfo; HAuthorization; HCallId; HCallInfo; HContact;
   HContentDisposition; HContentEncoding; HContentLanguage; HContentLength; HContentTransferEncoding; HContentType; HCSeq; HDate; HDiversion;
   HErrorInfo; HEvent; HExpires; HFrom; HGeolocation; HGeolocationError; HGeolocationRouting; HHistoryInfo; HInReplyTo; HMaxForwards; HMimeVersion;
   HMinExpires; HMinSe; HOrganization; HPAccessNetworkInfo; HPAssertedIdentity; HPEarlyMedia; HPPreferredIdentity; HPath; HPriority; HPrivacy;
   HProxyAuthenticate; HProxyAuthorization; HProxyRequire; HRAck; HReason; HRecordRoute; HReferSub; HReferTo; HReferredBy; HRemotePartyId;
   HReplaces; HReplyTo; HRequire; HResourcePriority; HRetryAfter; HRoute; HRSeq; HServer; HServiceRoute; HSessionExpires; HSubject;
   HSubscriptionState; HSupported; HTimestamp; HTo; HUnsupported; HUserAgent; HUserToUser; HVia; HWarning; HWwwAuthenticate].
Definition unwire (s : string) : option HeaderId := List.find (fun id => String.eqb (wire id) s) ALL.
Lemma unwire_wire id : unwire (wire id) = Some id.
Proof. by destruct id. Qed.
#[global] Instance HeaderId_eq_dec : EqDecision HeaderId.
Proof.
  intros a b. destruct (decide (wire a = wire b)) as [H|H]; [left|right; by intros ->].
  pose proof (unwire_wire a) as Ha. rewrite H, unwire_wire in Ha. by injection Ha.
Defined.

(** The Kelvin sign, the one other character that folds to a letter below. *)
Definition KELVIN : string := bytes_text [226; 132; 170]%nat.
Definition compact_forms : list (ascii * string) :=
  [("i"%char, "Call-ID"); ("m"%char, "Contact"); ("e"%char, "Content-Encoding"); ("l"%char, "Content-Length"); ("c"%char, "Content-Type"); ("f"%char, "From");
   ("s"%char, "Subject"); ("k"%char, "Supported"); ("t"%char, "To"); ("v"%char, "Via"); ("x"%char, "Session-Expires")].
Definition canonical_letter (a : ascii) : option string := snd <$> List.find (fun p => Ascii.eqb p.1 (lower_ascii a)) compact_forms.
Definition canonical_of (name : string) : option string :=
  match name with
  | String a EmptyString => canonical_letter a
  | _ => if String.eqb name KELVIN then Some "Supported" else None
  end.
Definition expanded_name (name : string) : string := default name (canonical_of name).
Definition LENGTHS : nat := 26.
Definition BUCKET : nat := 8.
Definition bucket (len : nat) : list HeaderId := take BUCKET (List.filter (fun id => (String.length (wire id) =? len)%nat) ALL).
Definition id_of (name : string) : option HeaderId :=
  let w := expanded_name name in
  match w with
  | EmptyString => None
  | String first _ =>
      if (String.length w <? LENGTHS)%nat then
        List.find (fun id => bool_decide ((lower_ascii <$> first_char (wire id)) = Some (lower_ascii first)) && String.eqb (lower (wire id)) (lower w))
          (bucket (String.length w))
      else None
  end.
Inductive HeaderName := Known (id : HeaderId) | Other (name : string).
Definition as_wire_str (n : HeaderName) : string := match n with Known id => wire id | Other s => s end.
Inductive HeaderKey := KKnown (id : HeaderId) | KExtension (name : string).
Definition name_key (n : HeaderName) : HeaderKey :=
  match n with
  | Known id => KKnown id
  | Other s => match id_of s with Some id => KKnown id | None => KExtension s end
  end.
Definition key_id (k : HeaderKey) : option HeaderId := match k with KKnown id => Some id | KExtension _ => None end.
Definition key_is (k : HeaderKey) (id : option HeaderId) (w : string) : bool :=
  match k, id with
  | KKnown want, Some id => bool_decide (want = id)
  | KExtension want, None => same_name want w
  | _, _ => false
  end.

(** ** Control bytes ([control_bytes.rs]) *)

Definition is_control (b : ascii) : bool := ((nat_of_ascii b <? 32)%nat && negb (Ascii.eqb b tab)) || Ascii.eqb b (ascii_of_nat 127).
Definition has_comments (id : HeaderId) : bool := match id with HServer | HUserAgent | HRetryAfter => true | _ => false end.
Definition CR : ascii := ascii_of_nat 13.
Definition LF : ascii := ascii_of_nat 10.
Definition is_break (b : ascii) : bool := Ascii.eqb b CR || Ascii.eqb b LF.
Inductive At := Plain | Quoted | Comment (depth : Z).
Definition in_pair (at_ : At) : bool := match at_ with Quoted | Comment _ => true | Plain => false end.
Definition at_next (comments : bool) (b : ascii) (at_ : At) : At :=
  match at_ with
  | Plain => if Ascii.eqb b dquote then Quoted else if Ascii.eqb b "(" && comments then Comment 1 else Plain
  | Quoted => if Ascii.eqb b dquote then Plain else Quoted
  | Comment d =>
      if Ascii.eqb b "(" then Comment (Z.min u32_MAX (d + 1))
      else if Ascii.eqb b ")" then if d =? 1 then Plain else Comment (Z.max 0 (d - 1))
      else Comment d
  end.
Fixpoint control_scan (comments : bool) (at_ : At) (s : string) (i : nat) : option nat :=
  match s with
  | EmptyString => None
  | String b s =>
      if in_pair at_ && Ascii.eqb b "\" then
        match s with
        | EmptyString => None
        | String e s => if is_break e then Some (S i) else control_scan comments at_ s (S (S i))
        end
      else if is_control b then Some i
      else control_scan comments (at_next comments b at_) s (S i)
  end.
Definition position (f : ascii -> bool) (s : string) : option nat :=
  let n := run_len (fun b => negb (f b)) s in if (n <? String.length s)%nat then Some n else None.
Definition bare_control_byte (value : string) (comments : bool) : option nat :=
  if negb (has_char dquote value || (comments && has_char "(" value)) then position is_control value
  else control_scan comments Plain value 0.

(** ** The scanner ([scanner.rs]) *)

(** What a parse refuses, and why. *)
Inductive Refusal :=
  | TooManyLines | BareBreak | NotUtf8
  | EmptyStartLine | NoSpAfterFirst | MultipleSp | MethodNotToken | BracketedUri | EmptyUri | UriTooLong | NoSpAfterUri | TrailingSpace
  | UnsupportedVersion | InvalidStatus | StatusOutOfRange | ReasonControl | NoCrlf
  | HeaderTooLong | IllegalNameByte | EmptyName | NameNotToken | NoColon | ControlByte | Repeated | InvalidNumber | UnterminatedQuote | MalformedDigest
  | BodyPastEnd | NoContentLength.
Record HeaderBlock := mkBlock { hb_end : nat; hb_lines : nat; hb_bare : option (nat * ascii) }.
Definition skip_if (b : ascii) (s : string) : bool * string :=
  match s with String a t => if Ascii.eqb a b then (true, t) else (false, s) | EmptyString => (false, s) end.
(** One line of the block: its length, its two halves of a break, what is left. *)
Definition take_line (s : string) : nat * bool * bool * string :=
  let n := run_len (fun b => negb (is_break b)) s in
  let '(cr, s) := skip_if CR (suffix n s) in
  let '(lf, s) := skip_if LF s in
  (n, cr, lf, s).
Fixpoint header_block_loop (fuel : nat) (s : string) (pos lines : nat) (bare : option (nat * ascii)) : option HeaderBlock :=
  match fuel with
  | O => None
  | S fuel =>
      match s with
      | EmptyString => Some (mkBlock pos lines bare)
      | _ =>
          let '(n, cr, lf, rest) := take_line s in
          let bare := match bare with None => if xorb cr lf then Some ((pos + n)%nat, if cr then CR else LF) else None | Some _ => bare end in
          let pos := (pos + n + Nat.b2n cr + Nat.b2n lf)%nat in
          if (n =? 0)%nat then Some (mkBlock pos lines bare) else header_block_loop fuel rest pos (S lines) bare
      end
  end.
Definition header_block (raw : string) : option HeaderBlock := header_block_loop (S (String.length raw)) raw 0 0 None.
Definition at_crlf (s : string) : bool := match s with String a (String b _) => Ascii.eqb a CR && Ascii.eqb b LF | _ => false end.
Definition at_end_of_headers (s : string) : bool := String.eqb s "" || at_crlf s.
Definition consume_end_of_headers (s : string) : string := if at_crlf s then suffix 2 s else s.
Fixpoint skip_lws (s : string) : string :=
  match s with
  | EmptyString => s
  | String b t =>
      if is_ws b then skip_lws t
      else match t with
           | String c (String d u) => if Ascii.eqb b CR && Ascii.eqb c LF && is_ws d then skip_lws u else s
           | _ => s
           end
  end.
(** [read_header_value]: the value with its folds undone, and what is left. *)
Fixpoint read_header_value (s : string) : string * string :=
  match s with
  | EmptyString => (EmptyString, EmptyString)
  | String b t =>
      match t with
      | String c u =>
          if Ascii.eqb b CR && Ascii.eqb c LF then
            match u with
            | String w u' => if is_ws w then let '(v, r) := read_header_value u' in (String " " v, r) else (EmptyString, u)
            | EmptyString => (EmptyString, EmptyString)
            end
          else let '(v, r) := read_header_value t in (String b v, r)
      | EmptyString => (String b EmptyString, EmptyString)
      end
  end.
Fixpoint decimal_loop (max n : Z) (s : string) : option Z :=
  match s with
  | EmptyString => Some n
  | String c s =>
      d ← digit_value c;
      let n := n * 10 + d in
      if (u64_MAX <? n) || (max <? n) then None else decimal_loop max n s
  end.
Definition strict_non_negative_decimal (s : string) (max : Z) : option Z := if String.eqb s "" then None else decimal_loop max 0 s.

(** ** The start line ([start_line.rs]) *)

Inductive Framing := Datagram | Stream.
Record SipParserLimits := mkLimits { max_header_length : nat; max_uri_length : nat; max_header_lines : nat; wire_grammar : bool; framing : Framing }.
Definition DEFAULT_LIMITS : SipParserLimits := mkLimits 2048 2048 100 true Datagram.
Inductive StartLine := RequestStart (method uri version : string) | StatusStart (version : string) (status : Z) (reason : string).
Definition SIP_VERSION : string := "SIP/2.0".
(** A run of bytes, and what is left. *)
Definition take_while (f : ascii -> bool) (s : string) : string * string := let n := run_len f s in (str_take n s, suffix n s).
Definition read_until_sp (s : string) : string * string := take_while (fun b => negb (Ascii.eqb b " ") && negb (is_break b)) s.
Definition read_until_crlf (s : string) : string * string := take_while (fun b => negb (is_break b)) s.
Definition expect_crlf {A} (s : string) (a : A) : Refusal + A * string := if at_crlf s then inr (a, suffix 2 s) else inl NoCrlf.
Definition parse_request_line (s method : string) (limits : SipParserLimits) : Refusal + StartLine * string :=
  if wire_grammar limits && negb (every is_token_char method) then inl MethodNotToken
  else if bool_decide (first_char s = Some "<"%char) then inl BracketedUri
  else
    let '(uri, s) := read_until_sp s in
    if String.eqb uri "" then inl EmptyUri
    else if (max_uri_length limits <? String.length uri)%nat then inl UriTooLong
    else match s with
         | String " "%char s =>
             let '(version, s) := read_until_crlf s in
             if negb (String.eqb version (trim_end version)) then inl TrailingSpace
             else if negb (String.eqb version SIP_VERSION) then inl UnsupportedVersion
             else expect_crlf s (RequestStart method uri version)
         | _ => inl NoSpAfterUri
         end.
Definition parse_status_line (s version : string) : Refusal + StartLine * string :=
  if negb (String.eqb version SIP_VERSION) then inl UnsupportedVersion
  else
    let '(status_str, s) := read_until_sp s in
    match (if (String.length status_str =? 3)%nat && every is_ascii_digit status_str then parse_uint u16_MAX status_str else None) with
    | None => inl InvalidStatus
    | Some status =>
        if negb ((100 <=? status) && (status <=? 699)) then inl StatusOutOfRange
        else
          let '(_, s) := skip_if " " s in
          let '(reason, s) := read_until_crlf s in
          if negb (every (fun b => negb (is_control b)) reason) then inl ReasonControl
          else expect_crlf s (StatusStart version status reason)
    end.
Definition parse_start_line (s : string) (limits : SipParserLimits) : Refusal + StartLine * string :=
  let '(first_token, s) := read_until_sp s in
  if String.eqb first_token "" then inl EmptyStartLine
  else match s with
       | String " "%char s =>
           if bool_decide (first_char s = Some " "%char) then inl MultipleSp
           else if bool_decide (is_Some (strip_prefix "SIP/" first_token)) then parse_status_line s first_token
           else parse_request_line s first_token limits
       | _ => inl NoSpAfterFirst
       end.

(** ** The header lines ([headers.rs]) *)

Inductive NumericTail := TailNone | TailParams | TailMethod.
Definition UINT_32_MAX : Z := 2 ^ 32 - 1.
Definition INT_32_MAX : Z := 2 ^ 31 - 1.
Definition numeric_header_rule (id : HeaderId) : option (Z * NumericTail) :=
  match id with
  | HContentLength => Some (INT_32_MAX, TailNone)
  | HCSeq => Some (INT_32_MAX, TailMethod)
  | HMaxForwards => Some (255, TailNone)
  | HExpires | HMinExpires => Some (UINT_32_MAX, TailNone)
  | HSessionExpires | HMinSe => Some (UINT_32_MAX, TailParams)
  | _ => None
  end.
Definition strict_numeric_value (value : string) (rule : Z * NumericTail) : option Z :=
  let digits := match rule.2 with
                | TailNone => value
                | TailParams => match split_once ";" value with Some (head, _) => trim_end head | None => value end
                | TailMethod => str_take (run_len (fun b => negb (is_ws b)) value) value
                end in
  strict_non_negative_decimal digits rule.1.
Record Singletons := mkSingle { content_length : option Z; max_forwards : bool }.
Definition is_echoed (id : HeaderId) : bool := match id with HVia | HFrom | HTo | HCallId | HCSeq => true | _ => false end.
Definition is_quoted_string_header (id : HeaderId) : bool :=
  match id with
  | HTo | HFrom | HContact | HReplyTo | HReferTo | HSubject | HAuthorization | HProxyAuthorization | HWwwAuthenticate | HProxyAuthenticate
  | HAuthenticationInfo | HWarning | HAlertInfo | HCallInfo | HErrorInfo => true
  | _ => false
  end.
Definition is_authorization_header (id : HeaderId) : bool := match id with HAuthorization | HProxyAuthorization => true | _ => false end.
Fixpoint unbalanced (in_quote : bool) (s : string) : bool :=
  match s with
  | EmptyString => in_quote
  | String c s =>
      if in_quote then
        if Ascii.eqb c "\" then match s with EmptyString => true | String _ s => unbalanced true s end
        else unbalanced (negb (Ascii.eqb c dquote)) s
      else unbalanced (Ascii.eqb c dquote) s
  end.
Definition has_unbalanced_quotes (value : string) : bool := unbalanced false value.
(** [TopLevelEntries], each entry as it was cut. *)
Fixpoint top_level_cut (sep : ascii) (in_quote : bool) (depth : Z) (s : string) : list string :=
  match s with
  | EmptyString => [EmptyString]
  | String c t =>
      let keep (l : list string) := match l with x :: l => String c x :: l | [] => [] end in
      if in_quote then
        match t with
        | String e u =>
            if Ascii.eqb c "\" then match top_level_cut sep true depth u with x :: l => String c (String e x) :: l | [] => [] end
            else keep (top_level_cut sep (negb (Ascii.eqb c dquote)) depth t)
        | EmptyString => keep (top_level_cut sep (negb (Ascii.eqb c dquote)) depth t)
        end
      else if Ascii.eqb c dquote then keep (top_level_cut sep true depth t)
      else if Ascii.eqb c "<" then keep (top_level_cut sep false (depth + 1) t)
      else if Ascii.eqb c ">" && (0 <? depth) then keep (top_level_cut sep false (depth - 1) t)
      else if Ascii.eqb c sep && (depth =? 0) then EmptyString :: top_level_cut sep false 0 t
      else keep (top_level_cut sep false depth t)
  end.
Definition top_level_entries (sep : ascii) (value : string) : list string :=
  match map trim (top_level_cut sep false 0 value) with [x] => if String.eqb x "" then [] else [x] | l => l end.
Fixpoint name_before_unquoted_equals (in_quote : bool) (s : string) : option string :=
  match s with
  | EmptyString => None
  | String c t =>
      if in_quote then
        if Ascii.eqb c "\" then match t with EmptyString => None | String e u => (fun n => String c (String e n)) <$> name_before_unquoted_equals true u end
        else String c <$> name_before_unquoted_equals (negb (Ascii.eqb c dquote)) t
      else if Ascii.eqb c dquote then String c <$> name_before_unquoted_equals true t
      else if Ascii.eqb c "=" then Some EmptyString
      else String c <$> name_before_unquoted_equals false t
  end.
Definition digest_part_ok (part : string) : bool :=
  let trimmed := trim part in
  if String.eqb trimmed "" then false
  else match name_before_unquoted_equals false trimmed with
       | None => false
       | Some name => let name := trim_end name in negb (String.eqb name "") && every is_token_char name
       end.
Definition is_valid_digest_credentials (value : string) : bool :=
  if negb (String.eqb (lower (str_take 6 value)) "digest") then true
  else if match byte_at value 6 with Some b => negb (is_ws b) | None => false end then true
  else
    let params := trim_start (suffix 6 value) in
    if String.eqb params "" then false else forallb digest_part_ok (top_level_entries "," params).
Definition gate_refusal (known : HeaderId) (value : string) (s : Singletons) : option Refusal * Singletons :=
  let repeated := match known with HContentLength => bool_decide (is_Some (content_length s)) | HMaxForwards => max_forwards s | _ => false end in
  if repeated then (Some Repeated, s)
  else
    let quoted s :=
      if is_quoted_string_header known && has_unbalanced_quotes value then (Some UnterminatedQuote, s)
      else if is_authorization_header known && negb (is_valid_digest_credentials value) then (Some MalformedDigest, s)
      else (None, s) in
    match numeric_header_rule known with
    | None => quoted s
    | Some rule =>
        match strict_numeric_value value rule with
        | None => (Some InvalidNumber, s)
        | Some parsed =>
            quoted match known with
                   | HContentLength => mkSingle (Some parsed) (max_forwards s)
                   | HMaxForwards => mkSingle (content_length s) true
                   | _ => s
                   end
        end
    end.
Definition is_illegal_header_name_byte (b : ascii) : bool :=
  if Ascii.eqb b tab then false else (nat_of_ascii b <? 32)%nat || Ascii.eqb b (ascii_of_nat 127).
Definition name_stops (b : ascii) : bool := Ascii.eqb b ":" || is_break b || is_ws b.
(** [read_header_name]: the name, and what is left; on a refusal, what is left
    at the byte refused. *)
Definition read_header_name (s : string) : (Refusal * string) + string * string :=
  let '(name, rest) := take_while (fun b => negb (name_stops b) && negb (is_illegal_header_name_byte b)) s in
  match rest with
  | String b _ => if name_stops b then inr (name, (take_while is_ws rest).2) else inl (IllegalNameByte, rest)
  | EmptyString => inr (name, rest)
  end.
Record SipHeader := mkHeader { h_name : string; h_value : string }.
#[global] Instance SipHeader_eq_dec : EqDecision SipHeader.
Proof. solve_decision. Defined.
Record Lines := mkLines {
  kept : list SipHeader; singles : Singletons; refusal : option Refusal; echoed_line_refused : bool;
}.
Definition no_lines : Lines := mkLines [] (mkSingle None false) None false.
(** A line read: what it was, or that its name or colon did not read. *)
Definition refuse (error : Refusal) (echoed : bool) (l : Lines) : Lines :=
  mkLines (kept l) (singles l) (Some (default error (refusal l))) (echoed_line_refused l || echoed).
Definition keep (h : SipHeader) (l : Lines) : Lines := mkLines (kept l ++ [h]) (singles l) (refusal l) (echoed_line_refused l).
(** The gates of a line read whole; [inl]: past the length limit. *)
Definition judge_line (limits : SipParserLimits) (name value : string) (l : Lines) : Refusal + Lines :=
  if (max_header_length limits <? String.length name + 2 + String.length value)%nat then inl HeaderTooLong
  else
    let known := id_of name in
    let echoed := match known with Some id => is_echoed id | None => false end in
    let comments := match known with Some id => has_comments id | None => false end in
    if bool_decide (is_Some (bare_control_byte value comments)) then inr (refuse ControlByte echoed l)
    else match known with
         | None => inr (keep (mkHeader name value) l)
         | Some id =>
             let '(error, s) := gate_refusal id value (singles l) in
             let l := mkLines (kept l) s (refusal l) (echoed_line_refused l) in
             match error with Some e => inr (refuse e echoed l) | None => inr (keep (mkHeader name value) l) end
         end.
(** [parse_line]; [inl]: a limit, which stops the split. *)
Definition parse_line (limits : SipParserLimits) (s : string) (l : Lines) : Refusal + Lines * string :=
  match read_header_name s with
  | inl (e, rest) => inr (refuse e true l, (read_header_value rest).2)
  | inr (raw_name, rest) =>
      if String.eqb raw_name "" then inr (refuse EmptyName true l, (read_header_value rest).2)
      else if wire_grammar limits && negb (every is_token_char raw_name) then inr (refuse NameNotToken true l, (read_header_value rest).2)
      else
        let name := expanded_name raw_name in
        match rest with
        | String ":"%char rest =>
            let '(value, rest) := read_header_value (skip_lws rest) in
            match judge_line limits name (trim value) l with inl e => inl e | inr l => inr (l, rest) end
        | _ => inr (refuse NoColon (match id_of name with Some id => is_echoed id | None => false end) l, (read_header_value rest).2)
        end
  end.
(** [parse_headers]; the outer [None]: out of fuel. *)
Fixpoint parse_headers (fuel : nat) (limits : SipParserLimits) (s : string) (l : Lines) : option (Refusal + Lines * string) :=
  match fuel with
  | O => None
  | S fuel =>
      if at_end_of_headers s then Some (inr (l, consume_end_of_headers s))
      else match parse_line limits s l with
           | inl limit => Some (inl (default limit (refusal l)))
           | inr (l, s) => parse_headers fuel limits s l
           end
  end.

(** ** The frame of a message ([parser/custom/mod.rs]) *)

(** [utf8_chunks]: the runs of valid UTF-8, each with the invalid bytes after it. *)
Class Utf8 := { utf8_chunks : string -> list (string * string) }.
Class Utf8Laws (E : Utf8) : Prop := { chunks_join s : foldr (fun c r => c.1 +:+ c.2 +:+ r) "" (utf8_chunks s) = s }.
Record Frame := mkFrame { f_start : StartLine; f_headers : list SipHeader; f_body : string }.
Section frame.
Context `{E : Utf8}.
Definition is_utf8 (s : string) : bool := forallb (fun c => String.eqb c.2 "") (utf8_chunks s).
Definition as_cr (s : string) : string := foldr (fun _ r => String CR r) "" (seq 0 (String.length s)).
Definition decode_image (head : string) : string * bool :=
  if is_utf8 head then (head, false) else (foldr (fun c r => c.1 +:+ as_cr c.2 +:+ r) "" (utf8_chunks head), true).
Definition body_of (limits : SipParserLimits) (raw : string) (body_at : nat) (declared : option Z) : Refusal + string :=
  match declared with
  | Some 0 => inr ""
  | Some n =>
      let end_ := (body_at + Z.to_nat n)%nat in
      if (end_ <=? String.length raw)%nat then inr (clamped raw body_at end_) else inl BodyPastEnd
  | None => match framing limits with Datagram => inr (clamped raw body_at (String.length raw)) | Stream => inl NoContentLength end
  end.
(** [parse_shared], up to the fields read of the lines. *)
Definition parse_frame (limits : SipParserLimits) (raw : string) : option (Refusal + Frame) :=
  block ← header_block raw;
  if (max_header_lines limits <? hb_lines block)%nat then Some (inl TooManyLines)
  else if bool_decide (is_Some (hb_bare block)) then Some (inl BareBreak)
  else
    let '(image, not_utf8) := decode_image (clamped raw 0 (hb_end block)) in
    match parse_start_line image limits with
    | inl e => Some (inl e)
    | inr (start, s) =>
        parsed ← parse_headers (S (String.length s)) limits s no_lines;
        match parsed with
        | inl e => Some (inl e)
        | inr (l, _) =>
            match (if not_utf8 then Some NotUtf8 else refusal l) with
            | Some e => Some (inl e)
            | None =>
                Some (match body_of limits raw (hb_end block) (content_length (singles l)) with
                      | inl e => inl e
                      | inr body => inr (mkFrame start (kept l) body)
                      end)
            end
        end
    end.
End frame.

(** ** Writing ([draft/render.rs], [write_check.rs], [serializer.rs]) *)

Definition crlf : string := String CR (String LF "").
(** A line of a draft: its name and its value as it renders. *)
Record Entry := mkEntry { e_name : HeaderName; e_value : string }.
Definition entry_id (e : Entry) : option HeaderId := key_id (name_key (e_name e)).
Definition is_key (k : HeaderKey) (e : Entry) : bool := key_is k (entry_id e) (as_wire_str (e_name e)).
Definition header_name_refused (name : string) : bool := String.eqb name "" || negb (every is_token_char name).
Definition line_refused (e : Entry) : bool :=
  match e_name e with Other text => header_name_refused text | Known _ => false end ||
  bool_decide (is_Some (bare_control_byte (e_value e) (match e_name e with Known id => has_comments id | Other _ => false end))).
Definition render_start (l : StartLine) : string :=
  match l with
  | RequestStart method uri version => method +:+ String " " (uri +:+ String " " version)
  | StatusStart version status reason => version +:+ String " " (pretty status +:+ String " " reason)
  end.
Definition render_entry (e : Entry) : string := as_wire_str (e_name e) +:+ ": " +:+ e_value e +:+ crlf.
Record Rendered := mkRendered { r_bytes : string; r_body_at : nat; r_refused : bool }.
Definition render_draft (line : StartLine) (entries : list Entry) (body : string) : Rendered :=
  let start := render_start line in
  let head := start +:+ crlf +:+ foldr (fun e r => render_entry e +:+ r) "" entries +:+ crlf in
  mkRendered (head +:+ body) (String.length head) (negb (every (fun b => negb (is_control b)) start) || existsb line_refused entries).
(** [Draft::set] and [with_content_length]. *)
Fixpoint position_of {A} (f : A -> bool) (l : list A) : option nat :=
  match l with [] => None | x :: l => if f x then Some O else S <$> position_of f l end.
Definition draft_has (name : HeaderName) (entries : list Entry) : bool := existsb (is_key (name_key name)) entries.
Definition draft_set (e : Entry) (entries : list Entry) : list Entry :=
  let key := name_key (e_name e) in
  match position_of (is_key key) entries with
  | None => entries ++ [e]
  | Some at_ => let l := List.filter (fun x => negb (is_key key x)) entries in take at_ l ++ e :: drop at_ l
  end.
Inductive IncompleteDraft := Missing (names : list HeaderId) | Unreadable | Unwritable.
Definition with_content_length (entries : list Entry) (body : string) : IncompleteDraft + list Entry :=
  let length := Z.of_nat (String.length body) in
  if u32_MAX <? length then inl Unreadable
  else inr (if (0 <? length) || draft_has (Known HContentLength) entries then draft_set (mkEntry (Known HContentLength) (pretty length)) entries else entries).
Definition REQUIRED (line : StartLine) : list HeaderId :=
  match line with
  | RequestStart _ _ _ => [HVia; HFrom; HTo; HCallId; HCSeq; HMaxForwards]
  | StatusStart _ _ _ => [HVia; HFrom; HTo; HCallId; HCSeq]
  end.
Definition freeze_bytes (line : StartLine) (entries : list Entry) (body : string) : IncompleteDraft + string :=
  match with_content_length entries body with
  | inl e => inl e
  | inr entries =>
      match List.filter (fun id => negb (draft_has (Known id) entries)) (REQUIRED line) with
      | [] => let r := render_draft line entries body in if r_refused r then inl Unwritable else inr (r_bytes r)
      | missing => inl (Missing missing)
      end
  end.

(** [serializer::render] and [finish]. *)
Definition is_content_length (h : SipHeader) : bool := same_name (h_name h) "content-length" || same_name (h_name h) "l".
(** The rows as they leave: [seen] once a Content-Length row was. *)
Fixpoint written_rows (actual : nat) (declared_ok seen : bool) (headers : list SipHeader) : list SipHeader :=
  match headers with
  | [] => []
  | h :: l =>
      if is_content_length h then
        if seen then written_rows actual declared_ok seen l
        else (if declared_ok then h else mkHeader (h_name h) (pretty (Z.of_nat actual))) :: written_rows actual declared_ok true l
      else h :: written_rows actual declared_ok seen l
  end.
Definition render_row (h : SipHeader) : string := h_name h +:+ ": " +:+ h_value h +:+ crlf.
Definition finish (start : string) (headers : list SipHeader) (body : string) : string :=
  let actual := String.length body in
  let cl := List.find is_content_length headers in
  let declared_ok := match cl with
                     | Some h => bool_decide (parse_uint u64_MAX (trim (h_value h)) = Some (Z.of_nat actual))
                     | None => (actual =? 0)%nat
                     end in
  let rows := foldr (fun h r => render_row h +:+ r) "" (written_rows actual declared_ok false headers) in
  let added := match cl with None => if (0 <? actual)%nat then "Content-Length: " +:+ pretty (Z.of_nat actual) +:+ crlf else "" | Some _ => "" end in
  start +:+ crlf +:+ rows +:+ added +:+ crlf +:+ body.
