(* ===== verification/SipFrameProps.v ===== *)
(** * SIP message frames: what is written is what is read

    Over [SipFrame]: the split of a datagram ends, what it accepts is within its
    limits and its body is the one its lines delimit, and a message the writers
    emit is read as the lines they were given. *)

From stdpp Require Import pretty.
From Stdlib Require Import Ascii.
From S2P Require Import Prelude Texts TxnData ProxyTypes SipHops SipText SipUriText SipFrame.

Open Scope Z_scope.

(** ** Lines *)

Definition no_break (s : string) : bool := every (fun b => negb (is_break b)) s.
Lemma no_break_cons b s : no_break (String b s) = negb (is_break b) && no_break s.
Proof. done. Qed.
Lemma is_break_cases b : is_break b = true <-> b = CR \/ b = LF.
Proof. unfold is_break. by rewrite orb_true_iff, !Ascii.eqb_eq. Qed.
Lemma suffix_cons n a s : suffix (S n) (String a s) = suffix n s.
Proof. done. Qed.
Lemma take_line_crlf x r : no_break x = true -> take_line (x +:+ crlf +:+ r) = (String.length x, true, true, r).
Proof. intros Hx. unfold take_line. rewrite run_len_app by done. rewrite SipText.suffix_app. done. Qed.
(** A block of whole lines, a blank line after them. *)
Definition lines_text (ls : list string) : string := foldr (fun x r => x +:+ crlf +:+ r) "" ls.
Lemma lines_text_cons x ls : lines_text (x :: ls) = x +:+ crlf +:+ lines_text ls.
Proof. done. Qed.
Lemma block_lines ls body pos n fuel : Forall (fun x => no_break x = true /\ x <> "") ls -> (length ls < fuel)%nat ->
  header_block_loop fuel (lines_text ls +:+ crlf +:+ body) pos n None = Some (mkBlock (pos + String.length (lines_text ls) + 2) (n + length ls) None).
Proof.
  intros Hl. revert pos n fuel. induction Hl as [|x ls [Hx Hne] _ IH]; intros pos n [|fuel] Hf; simpl in Hf; try lia.
  - cbn [header_block_loop lines_text foldr]. rewrite str_app_nil. pose proof (take_line_crlf "" body eq_refl) as H. rewrite str_app_nil in H. rewrite H. simpl. do 2 f_equal; lia.
  - rewrite lines_text_cons, !str_app_assoc. cbn [header_block_loop]. rewrite take_line_crlf by done. destruct x as [|a x]; [done|]. rewrite str_app_cons. cbn [xorb String.length Nat.eqb Nat.b2n].
    rewrite IH by lia. do 2 f_equal; [|cbn [length]; lia]. rewrite (str_app_cons a x). cbn [String.length]. rewrite !str_len_app. simpl. lia.
Qed.
Lemma lines_text_len ls : (length ls <= String.length (lines_text ls))%nat.
Proof. induction ls as [|x ls IH]; [done|]. rewrite lines_text_cons, !str_len_app. simpl. lia. Qed.
(** No line is added: the block ends at its blank line, and counts its lines. *)
Lemma header_block_lines ls body : Forall (fun x => no_break x = true /\ x <> "") ls ->
  header_block (lines_text ls +:+ crlf +:+ body) = Some (mkBlock (String.length (lines_text ls) + 2) (length ls) None).
Proof. intros Hl. unfold header_block. rewrite block_lines; [done..|]. rewrite !str_len_app. pose proof (lines_text_len ls). simpl. lia. Qed.

(** ** Control bytes *)

Lemma break_control b : is_break b = true -> is_control b = true.
Proof. revert b. by_class. Qed.
Lemma control_scan_breaks comments at_ s i : control_scan comments at_ s i = None -> no_break s = true.
Proof.
  revert at_ i. induction s as [s IH] using str_len_ind. intros at_ i. destruct s as [|b s]; [done|]. cbn [control_scan]. rewrite no_break_cons. destruct (in_pair at_ && Ascii.eqb b "\") eqn:Hp.
  - apply andb_true_iff in Hp as [_ Hb]. apply Ascii.eqb_eq in Hb as ->. destruct s as [|e s]; [done|]. destruct (is_break e) eqn:He; [done|]. intros H. rewrite no_break_cons, He.
    apply IH in H; [|simpl; lia]. by rewrite H.
  - destruct (is_control b) eqn:Hc; [done|]. intros H. apply IH in H; [|simpl; lia]. rewrite H, andb_true_r. apply negb_true_iff. destruct (is_break b) eqn:Hb; [|done]. by rewrite break_control in Hc.
Qed.
Lemma position_none f s : position f s = None -> every (fun b => negb (f b)) s = true.
Proof.
  unfold position. destruct (Nat.ltb_spec (run_len (fun b => negb (f b)) s) (String.length s)) as [H|H]; [done|]. intros _. revert H. induction s as [|a s IH]; [done|]. cbn [run_len every String.length].
  destruct (f a); cbn [negb]; [lia|]. intros H. apply IH. lia.
Qed.
Lemma bare_control_breaks v comments : bare_control_byte v comments = None -> no_break v = true.
Proof.
  unfold bare_control_byte. destruct (negb _); [|apply control_scan_breaks]. intros H%position_none. revert H. apply every_impl. intros b. rewrite !negb_true_iff. destruct (is_break b) eqn:Hb; [|done].
  by rewrite break_control.
Qed.

(** ** One line *)

Lemma trim_space a x : is_ws a = true -> trim (String a x) = trim x.
Proof. intros [->| ->]%is_ws_cases; done. Qed.
Lemma trim_spaces w x : every is_ws w = true -> trim (w +:+ x) = trim x.
Proof. induction w as [|a w IH]; [done|]. cbn [every]. rewrite andb_true_iff. intros [Ha Hw]. rewrite str_app_cons, trim_space by done. by apply IH. Qed.
Lemma skip_lws_plain v r : no_break v = true -> stops is_ws r -> exists w v', v = w +:+ v' /\ every is_ws w = true /\ skip_lws (v +:+ crlf +:+ r) = v' +:+ crlf +:+ r.
Proof.
  intros Hv Hr. induction v as [|a v IH].
  - exists "", "". repeat split. rewrite str_app_nil. destruct r as [|d r]; [done|]. unfold stops in Hr. cbn [first_char] in Hr. unfold crlf. rewrite !str_app_cons, str_app_nil. cbn [skip_lws].
    change (is_ws CR) with false. rewrite !Ascii.eqb_refl, Hr. done.
  - unfold no_break in Hv. cbn [every] in Hv. apply andb_true_iff in Hv as [Ha Hv]. destruct (is_ws a) eqn:Hw.
    + destruct (IH Hv) as (w & v' & -> & Hws & Hs). exists (String a w), v'. rewrite !str_app_cons. cbn [every skip_lws]. rewrite Hw, Hws. done.
    + exists "", (String a v). repeat split. rewrite str_app_cons. cbn [skip_lws]. rewrite Hw. assert (Ascii.eqb a CR = false) as Hcr.
      { apply Ascii.eqb_neq. intros ->. done. }
      rewrite Hcr. cbn [andb]. by destruct (v +:+ crlf +:+ r) as [|? [|? ?]].
Qed.
Lemma read_value_line v r : no_break v = true -> stops is_ws r -> read_header_value (v +:+ crlf +:+ r) = (v, r).
Proof.
  intros Hv Hr. induction v as [|a v IH].
  - rewrite str_app_nil. unfold crlf. rewrite !str_app_cons, str_app_nil. cbn [read_header_value]. rewrite !Ascii.eqb_refl. cbn [andb]. destruct r as [|w r]; [done|]. unfold stops in Hr. cbn [first_char] in Hr. by rewrite Hr.
  - unfold no_break in Hv. cbn [every] in Hv. apply andb_true_iff in Hv as [Ha Hv]. rewrite str_app_cons. cbn [read_header_value]. assert (Ascii.eqb a CR = false) as Hcr.
    { apply Ascii.eqb_neq. intros ->. done. }
    rewrite Hcr. cbn [andb]. rewrite (IH Hv). by destruct (v +:+ crlf +:+ r) eqn:He; [destruct v|].
Qed.
Lemma token_name name r : every is_token_char name = true -> read_header_name (name +:+ String ":" r) = inr (name, String ":" r).
Proof.
  intros Hn. unfold read_header_name, take_while. rewrite run_len_app; [|revert Hn; apply every_impl; by_class|done]. rewrite str_take_app, SipText.suffix_app. done.
Qed.
(** A line as it is written is judged by its name and its trimmed value. *)
Lemma parse_line_written limits name value r l : name <> "" -> every is_token_char name = true -> no_break value = true -> stops is_ws r ->
  parse_line limits (name +:+ ": " +:+ value +:+ crlf +:+ r) l =
    match judge_line limits (expanded_name name) (trim value) l with inl e => inl e | inr l => inr (l, r) end.
Proof.
  intros Hne Hn Hv Hr. unfold parse_line. change (": " +:+ value +:+ crlf +:+ r) with (String ":" (String " " (value +:+ crlf +:+ r))). rewrite token_name by done.
  rewrite (proj2 (String.eqb_neq _ _) Hne), Hn, andb_false_r. cbn [skip_lws]. change (is_ws " ") with true. cbn iota.
  destruct (skip_lws_plain value r Hv Hr) as (w & v' & -> & Hw & ->). unfold no_break in Hv. rewrite every_app, andb_true_iff in Hv. destruct Hv as [_ Hv].
  rewrite read_value_line by done. by rewrite trim_spaces.
Qed.

(** ** The lines of a message *)

Notation Row := (string * string)%type.
Definition row_text (p : Row) : string := p.1 +:+ ": " +:+ p.2.
Definition rows_text (rows : list Row) : string := lines_text (map row_text rows).
Definition row_ok (p : Row) : bool := negb (String.eqb p.1 "") && every is_token_char p.1 && no_break p.2.
(** Each row judged in its turn, by its name and its trimmed value. *)
Fixpoint judge_all (limits : SipParserLimits) (rows : list Row) (l : Lines) : Refusal + Lines :=
  match rows with
  | [] => inr l
  | (n, v) :: rows =>
      match judge_line limits (expanded_name n) (trim v) l with
      | inl e => inl (default e (refusal l))
      | inr l => judge_all limits rows l
      end
  end.
Lemma row_ok_inv n v : row_ok (n, v) = true -> n <> "" /\ every is_token_char n = true /\ no_break v = true.
Proof. unfold row_ok. cbn [fst snd]. rewrite !andb_true_iff, negb_true_iff, String.eqb_neq. tauto. Qed.
Lemma rows_text_cons n v rows r : rows_text ((n, v) :: rows) +:+ r = n +:+ ": " +:+ v +:+ crlf +:+ (rows_text rows +:+ r).
Proof. unfold rows_text, row_text. cbn [map fst snd]. rewrite lines_text_cons. by rewrite !str_app_assoc. Qed.
Lemma token_first n r : n <> "" -> every is_token_char n = true -> stops is_ws (n +:+ r) /\ at_end_of_headers (n +:+ r) = false.
Proof.
  destruct n as [|a n]; [done|]. intros _. cbn [every]. rewrite andb_true_iff. intros [Ha _]. rewrite str_app_cons. split.
  - unfold stops. cbn [first_char]. by apply (class_not_ws is_token_char).
  - unfold at_end_of_headers. cbn [String.eqb orb at_crlf]. destruct (n +:+ r); [done|]. assert (Ascii.eqb a CR = false) as ->; [|done]. apply negb_true_iff. revert a Ha.
    apply (class_sub is_token_char (fun a => negb (Ascii.eqb a CR))). by vm_compute.
Qed.
Lemma rows_first rows r : Forall (fun p => row_ok p = true) rows -> stops is_ws r -> stops is_ws (rows_text rows +:+ r).
Proof. intros Hr Hs. destruct Hr as [|[n v] rows Hp _]; [done|]. rewrite rows_text_cons. apply row_ok_inv in Hp as (H1 & H2 & _). by apply token_first. Qed.
Lemma parse_headers_written limits rows r l fuel : Forall (fun p => row_ok p = true) rows -> (length rows < fuel)%nat ->
  parse_headers fuel limits (rows_text rows +:+ crlf +:+ r) l = Some (match judge_all limits rows l with inl e => inl e | inr l => inr (l, r) end).
Proof.
  intros Hr. revert l fuel. induction Hr as [|[n v] rows Hp Hr IH]; intros l [|fuel] Hf; simpl in Hf; try lia; [done|].
  rewrite rows_text_cons. apply row_ok_inv in Hp as (H1 & H2 & H3). cbn [parse_headers judge_all]. rewrite (proj2 (token_first n _ H1 H2)).
  rewrite parse_line_written; [|done|done|done|by apply rows_first]. destruct (judge_line _ _ _ _) as [e|l']; [done|]. apply IH. lia.
Qed.

(** ** The start line *)

Definition start_ok (limits : SipParserLimits) (l : StartLine) : bool :=
  match l with
  | RequestStart method uri version =>
      negb (String.eqb method "") && every is_token_char method && negb (String.eqb uri "") && every (avoids (" " +:+ crlf)) uri &&
      negb (bool_decide (first_char uri = Some "<"%char)) && (String.length uri <=? max_uri_length limits)%nat && String.eqb version SIP_VERSION
  | StatusStart version status reason =>
      String.eqb version SIP_VERSION && (100 <=? status) && (status <=? 699) && every (fun b => negb (is_control b)) reason
  end.
Lemma take_while_app f x r : every f x = true -> stops f r -> take_while f (x +:+ r) = (x, r).
Proof. intros Hx Hr. unfold take_while. rewrite run_len_app by done. by rewrite str_take_app, SipText.suffix_app. Qed.
Lemma until_sp x r : every (avoids (" " +:+ crlf)) x = true -> read_until_sp (x +:+ String " " r) = (x, String " " r).
Proof. intros Hx. apply take_while_app; [|done]. revert Hx. apply every_impl. by_class. Qed.
Lemma until_crlf x r : no_break x = true -> read_until_crlf (x +:+ crlf +:+ r) = (x, crlf +:+ r).
Proof. intros Hx. by apply take_while_app. Qed.
Lemma status_digits z : 100 <= z <= 699 -> String.length (pretty z) = 3%nat.
Proof.
  intros Hz. assert (forallb (fun n => (String.length (pretty (Z.of_nat n)) =? 3)%nat) (seq 100 600) = true) as H by (vm_compute; reflexivity).
  rewrite forallb_forall in H. specialize (H (Z.to_nat z)). rewrite in_seq, Z2Nat.id in H by lia. apply Nat.eqb_eq, H. lia.
Qed.
Lemma parse_start_written limits line r : start_ok limits line = true -> parse_start_line (render_start line +:+ crlf +:+ r) limits = inr (line, r).
Proof.
  destruct line as [method uri version|version status reason]; cbn [start_ok render_start]; rewrite !andb_true_iff, ?negb_true_iff, ?String.eqb_neq.
  - intros ((((((Hm0 & Hm) & Hu0) & Hu) & Hb) & Hlen) & Hv). apply String.eqb_eq in Hv as ->. unfold parse_start_line. str_norm. rewrite until_sp by (revert Hm; apply every_impl; by_class).
    rewrite (proj2 (String.eqb_neq _ _) Hm0). destruct uri as [|a uri]; [done|]. cbn [first_char] in Hb. rewrite (bool_decide_false (first_char _ = Some " "%char)).
    2: { rewrite str_app_cons. cbn [first_char]. intros [= ->]. by rewrite andb_false_l in Hu || (cbn [every] in Hu). }
    rewrite (bool_decide_false (is_Some _)).
    2: { intros [t Ht]. apply strip_prefix_some in Ht. subst method. by rewrite every_app in Hm. }
    unfold parse_request_line. rewrite Hm, andb_false_r. rewrite (bool_decide_false (first_char _ = Some "<"%char)).
    2: { rewrite str_app_cons. cbn [first_char]. by apply bool_decide_eq_false in Hb. }
    rewrite until_sp by done. rewrite (proj2 (Nat.ltb_ge _ _)) by (by apply Nat.leb_le). cbn [String.eqb].
    change SIP_VERSION with "SIP/2.0". rewrite (until_crlf "SIP/2.0") by done. done.
  - intros (((Hv & H1) & H2) & Hr). apply String.eqb_eq in Hv as ->. unfold parse_start_line. str_norm. rewrite (until_sp SIP_VERSION) by done.
    assert (every is_ascii_digit (pretty status) = true) as Hd by (apply pretty_digits; lia). pose proof (status_digits status ltac:(lia)) as Hlen.
    cbn [String.eqb]. change (String.eqb SIP_VERSION "") with false. cbn iota. destruct (pretty status) as [|a t] eqn:Ep; [done|]. rewrite (bool_decide_false (first_char _ = Some " "%char)).
    2: { rewrite str_app_cons. cbn [first_char]. intros [= ->]. done. }
    rewrite bool_decide_true by (by eexists). unfold parse_status_line. change (negb (String.eqb SIP_VERSION SIP_VERSION)) with false. cbn iota.
    rewrite until_sp by (revert Hd; apply every_impl; by_class). rewrite Hlen, Hd. change ((3 =? 3)%nat && true) with true. cbn iota. rewrite <- Ep. rewrite parse_uint_pretty by (unfold u16_MAX; lia).
    rewrite H1, H2. cbn [andb negb].
    change (skip_if " " (String " " (reason +:+ crlf +:+ r))) with (true, reason +:+ crlf +:+ r). cbn iota.
    rewrite until_crlf. 2: { revert Hr. apply every_impl. intros b. rewrite !negb_true_iff. destruct (is_break b) eqn:Hb; [|done]. by rewrite break_control. }
    rewrite Hr. done.
Qed.

(** A start line is read up to its line break, whatever follows it, and one that
    is accepted is the one its text writes. *)
Lemma take_suffix n s : s = str_take n s +:+ suffix n s.
Proof. revert s. induction n as [|n IH]; intros [|a s]; try done. cbn [str_take suffix]. rewrite str_app_cons. by rewrite <- IH. Qed.
Lemma until_sp_line x : no_break x = true -> exists a b, x = a +:+ b /\ has_char " " a = false /\ (b = "" \/ exists b', b = String " " b') /\ no_break b = true /\
  forall r, read_until_sp (x +:+ crlf +:+ r) = (a, b +:+ crlf +:+ r).
Proof.
  induction x as [|c x IH]; intros Hx; [by exists "", ""; repeat split; auto|]. rewrite no_break_cons, andb_true_iff in Hx. destruct Hx as [Hc Hx]. destruct (Ascii.eqb_spec c " ") as [->|Hn].
  - exists "", (String " " x). repeat split; eauto.
  - destruct (IH Hx) as (a & b & -> & Ha & Hb & Hnb & Hr). exists (String c a), b. split; [done|]. split; [|split; [done|split; [done|]]].
    + cbn [has_char]. rewrite Ha, orb_false_r. apply bool_decide_eq_false_2. congruence.
    + intros r. specialize (Hr r). unfold read_until_sp, take_while in *. rewrite str_app_cons. cbn [run_len]. rewrite (proj2 (Ascii.eqb_neq _ _) Hn), Hc. cbn [negb andb str_take suffix]. by injection Hr as -> ->.
Qed.
Lemma app_no_break x y : no_break (x +:+ y) = no_break x && no_break y.
Proof. apply every_app. Qed.
(** What is read of a start line's text: the text itself, short at most of the
    space after a status. *)
Definition start_read (limits : SipParserLimits) (x : string) (l : StartLine) : Prop :=
  (render_start l = x \/ exists st, x = SIP_VERSION +:+ String " " st /\ has_char " " st = false) /\
  match l with
  | RequestStart _ uri version => (String.length uri <= max_uri_length limits)%nat /\ version = SIP_VERSION
  | StatusStart version status _ => version = SIP_VERSION /\ 100 <= status <= 699
  end.
Definition line_outcome (limits : SipParserLimits) (x : string) (parse : string -> Refusal + StartLine * string) (pre : string) : Prop :=
  (exists e, forall r, parse (x +:+ crlf +:+ r) = inl e) \/ exists l, (forall r, parse (x +:+ crlf +:+ r) = inr (l, r)) /\ start_read limits (pre +:+ x) l.
Lemma request_line_read limits x method : no_break x = true ->
  line_outcome limits x (fun s => parse_request_line s method limits) (method +:+ " ").
Proof.
  intros Hx. unfold line_outcome, parse_request_line. destruct (_ && _); [left; by eexists|].
  destruct (bool_decide (first_char x = Some "<"%char)) eqn:Hlt.
  { left. exists BracketedUri. intros r. apply bool_decide_eq_true in Hlt. rewrite bool_decide_true; [done|]. by destruct x. }
  assert (forall r, bool_decide (first_char (x +:+ crlf +:+ r) = Some "<"%char) = false) as Hb by (intros r; destruct x; [done|exact Hlt]).
  destruct (until_sp_line x Hx) as (uri & b & -> & Hu & Hb' & Hnb & Hr). destruct (String.eqb_spec uri "") as [->|Hne]; [left; exists EmptyUri; intros r; by rewrite Hb, Hr|].
  destruct (Nat.ltb_spec (max_uri_length limits) (String.length uri)) as [Hl|Hl].
  { left. exists UriTooLong. intros r. rewrite Hb, Hr, (proj2 (String.eqb_neq _ _) Hne), (proj2 (Nat.ltb_lt _ _) Hl). done. }
  destruct Hb' as [->|[v ->]]; [left; exists NoSpAfterUri; intros r; rewrite Hb, Hr, (proj2 (String.eqb_neq _ _) Hne), (proj2 (Nat.ltb_ge _ _) Hl); done|].
  assert (no_break v = true) as Hv by done.
  destruct (negb (String.eqb v (trim_end v))) eqn:Ht; [|destruct (String.eqb_spec v SIP_VERSION) as [->|Hs]]; [left; exists TrailingSpace|right|left; exists UnsupportedVersion];
    [intros r; rewrite Hb, Hr, (proj2 (String.eqb_neq _ _) Hne), (proj2 (Nat.ltb_ge _ _) Hl); rewrite str_app_cons, until_crlf, Ht by done; done| |
     intros r; rewrite Hb, Hr, (proj2 (String.eqb_neq _ _) Hne), (proj2 (Nat.ltb_ge _ _) Hl); rewrite str_app_cons, until_crlf, Ht, (proj2 (String.eqb_neq _ _) Hs) by done; done].
  exists (RequestStart method uri SIP_VERSION). split.
  - intros r. rewrite Hb, Hr, (proj2 (String.eqb_neq _ _) Hne), (proj2 (Nat.ltb_ge _ _) Hl). rewrite str_app_cons, until_crlf, Ht by done. done.
  - split; [|done]. left. cbn [render_start]. by rewrite !str_app_assoc.
Qed.
Definition DIGITS : list ascii := ["0"; "1"; "2"; "3"; "4"; "5"; "6"; "7"; "8"; "9"]%char.
Lemma digit_in a : is_ascii_digit a = true -> List.In a DIGITS.
Proof. intros Ha. apply list_elem_of_In. apply (bool_decide_eq_true (a ∈ DIGITS)). revert a Ha. apply (class_sub is_ascii_digit (fun a => bool_decide (a ∈ DIGITS))). by vm_compute. Qed.
Lemma status_text s z : String.length s = 3%nat -> every is_ascii_digit s = true -> parse_uint u16_MAX s = Some z -> 100 <= z -> pretty z = s.
Proof.
  assert (forallb (fun a => forallb (fun b => forallb (fun c =>
    match parse_uint u16_MAX (String a (String b (String c ""))) with Some z => implb (100 <=? z) (String.eqb (pretty z) (String a (String b (String c "")))) | None => true end) DIGITS) DIGITS) DIGITS = true) as Hall by (vm_compute; reflexivity).
  destruct s as [|a [|b [|c [|]]]]; try done. intros _. cbn [every]. rewrite !andb_true_iff. intros (Ha & Hb & Hc & _) Hp Hz. rewrite forallb_forall in Hall.
  specialize (Hall a (digit_in a Ha)). rewrite forallb_forall in Hall. specialize (Hall b (digit_in b Hb)). rewrite forallb_forall in Hall. specialize (Hall c (digit_in c Hc)).
  rewrite Hp, (proj2 (Z.leb_le _ _) Hz) in Hall. by apply String.eqb_eq in Hall.
Qed.
Lemma status_line_read limits x version : no_break x = true -> line_outcome limits x (fun s => parse_status_line s version) (version +:+ " ").
Proof.
  intros Hx. unfold line_outcome, parse_status_line. destruct (String.eqb_spec version SIP_VERSION) as [->|Hv]; [|left; by eexists]. cbn [negb].
  destruct (until_sp_line x Hx) as (st & b & -> & Hu & Hb & Hnb & Hr).
  destruct ((String.length st =? 3)%nat && every is_ascii_digit st) eqn:Hd; [|left; exists InvalidStatus; intros r; by rewrite Hr, Hd]. destruct (parse_uint u16_MAX st) as [z|] eqn:Hp; [|left; exists InvalidStatus; intros r; by rewrite Hr, Hd, Hp].
  destruct ((100 <=? z) && (z <=? 699)) eqn:Hz; [|left; exists StatusOutOfRange; intros r; by rewrite Hr, Hd, Hp, Hz]. pose proof Hd as [Hd1 Hd2]%andb_true_iff. apply Nat.eqb_eq in Hd1. pose proof Hz as [Hz1 Hz2]%andb_true_iff.
  assert (pretty z = st) as Hst by (apply status_text; auto; lia).
  set (reason := match b with String _ t => t | EmptyString => "" end).
  assert (no_break reason = true) as Hnr by (destruct Hb as [->|[b' ->]]; [done|exact Hnb]).
  assert (forall r, (skip_if " " (b +:+ crlf +:+ r)).2 = reason +:+ crlf +:+ r) as Hskip by (intros r; by destruct Hb as [->|[b' ->]]).
  assert (forall r, parse_status_line (((st +:+ b) +:+ crlf +:+ r)) SIP_VERSION =
    if negb (every (fun b => negb (is_control b)) reason) then inl ReasonControl else inr (StatusStart SIP_VERSION z reason, r)) as Hall.
  { intros r. unfold parse_status_line. change (negb (String.eqb SIP_VERSION SIP_VERSION)) with false. cbn iota. rewrite Hr, Hd, Hp, Hz. cbn [negb]. specialize (Hskip r). destruct (skip_if " " (b +:+ crlf +:+ r)) as [k t]. cbn [snd] in Hskip. subst t.
    rewrite until_crlf by done. by destruct (negb _). }
  unfold parse_status_line in Hall. change (negb (String.eqb SIP_VERSION SIP_VERSION)) with false in Hall. cbn iota in Hall. destruct (negb (every _ reason)); [left; by exists ReasonControl|].
  right. exists (StatusStart SIP_VERSION z reason). split; [exact Hall|]. split; [|split; [done|lia]]. cbn [render_start]. rewrite Hst. destruct Hb as [->|[b' ->]]; [right|left; by rewrite !str_app_assoc].
  exists st. rewrite string_app_nil. by rewrite str_app_assoc.
Qed.
Lemma start_line_read limits x : no_break x = true -> line_outcome limits x (fun s => parse_start_line s limits) "".
Proof.
  intros Hx. unfold line_outcome, parse_start_line. destruct (until_sp_line x Hx) as (first & b & -> & Hu & Hb & Hnb & Hr).
  destruct (String.eqb_spec first "") as [->|Hne]; [left; exists EmptyStartLine; intros r; by rewrite Hr|]. destruct Hb as [->|[t ->]]; [left; exists NoSpAfterFirst; intros r; rewrite Hr, (proj2 (String.eqb_neq _ _) Hne); done|].
  destruct (bool_decide (first_char t = Some " "%char)) eqn:Hsp.
  { left. exists MultipleSp. intros r. rewrite Hr, (proj2 (String.eqb_neq _ _) Hne), str_app_cons. apply bool_decide_eq_true in Hsp. rewrite bool_decide_true; [done|]. by destruct t. }
  assert (forall r, bool_decide (first_char (t +:+ crlf +:+ r) = Some " "%char) = false) as Hb by (intros r; destruct t; [done|exact Hsp]).
  assert (line_outcome limits t (fun s => if bool_decide (is_Some (strip_prefix "SIP/" first)) then parse_status_line s first else parse_request_line s first limits) (first +:+ " ")) as Ho.
  { destruct (bool_decide (is_Some (strip_prefix "SIP/" first))); [by apply status_line_read|by apply request_line_read]. }
  assert (first +:+ String " " t = (first +:+ " ") +:+ t) as He by (by rewrite str_app_assoc).
  destruct Ho as [[e Ho]|(l & Ho & Hl)]; [left; exists e|right; exists l; split; [|by rewrite str_app_nil, He]]; intros r; rewrite Hr, (proj2 (String.eqb_neq _ _) Hne), str_app_cons, Hb; apply Ho.
Qed.
Lemma parse_start_by_line limits x r : no_break x = true ->
  parse_start_line (x +:+ crlf +:+ r) limits = match parse_start_line (x +:+ crlf) limits with inl e => inl e | inr (l, _) => inr (l, r) end.
Proof.
  intros Hx. rewrite <- (string_app_nil crlf) at 2. destruct (start_line_read limits x Hx) as [[e H]|(l & H & _)]; by rewrite !H.
Qed.
Lemma render_start_spaces line : exists a b c, render_start line = a +:+ String " " (b +:+ String " " c).
Proof. destruct line as [m u v|v st rs]; cbn [render_start]; by eexists _, _, _. Qed.
Lemma render_start_nonempty line : render_start line <> "".
Proof. destruct (render_start_spaces line) as ([|] & b & c & ->); done. Qed.
Lemma one_space p a t st : a +:+ String " " t = p +:+ String " " st -> has_char " " p = false -> has_char " " st = false -> has_char " " t = false.
Proof.
  revert a. induction p as [|c p IH]; intros [|d a]; rewrite ?str_app_nil, ?str_app_cons.
  - by intros [= ->].
  - intros [= -> <-] _. by rewrite has_char_app, orb_true_r.
  - by intros [= <- _].
  - intros [= -> He]. cbn [has_char]. rewrite !orb_false_iff. intros [_ Hp] Hs. by eapply IH.
Qed.
(** What is read of a start line that was written is what was written. *)
Lemma read_start_text limits line l r : no_break (render_start line) = true -> parse_start_line (render_start line +:+ crlf) limits = inr (l, r) -> render_start l = render_start line.
Proof.
  intros Hx Hp. rewrite <- (string_app_nil crlf) in Hp. destruct (start_line_read limits _ Hx) as [[e H]|(l' & H & [Hl _])]; rewrite H in Hp; [done|]. injection Hp as -> _. rewrite str_app_nil in Hl.
  destruct Hl as [Hl|(st & Hl & Hst)]; [done|]. destruct (render_start_spaces line) as (a & b & c & He). rewrite He in Hl. apply one_space in Hl; [|done|done]. by rewrite has_char_app, orb_true_r in Hl.
Qed.

(** ** A message written and read *)

Definition written (line : StartLine) (rows : list Row) (body : string) : string := render_start line +:+ crlf +:+ rows_text rows +:+ crlf +:+ body.
Definition head_text (line : StartLine) (rows : list Row) : string := render_start line +:+ crlf +:+ rows_text rows +:+ crlf.
Lemma written_head line rows body : written line rows body = head_text line rows +:+ body.
Proof. unfold written, head_text. by rewrite !str_app_assoc. Qed.
Definition body_in (limits : SipParserLimits) (body : string) (declared : option Z) : Refusal + string :=
  match declared with
  | Some 0 => inr ""
  | Some n => if (Z.to_nat n <=? String.length body)%nat then inr (str_take (Z.to_nat n) body) else inl BodyPastEnd
  | None => match framing limits with Datagram => inr body | Stream => inl NoContentLength end
  end.
Lemma str_take_all s : str_take (String.length s) s = s.
Proof. induction s as [|a s IH]; [done|]. cbn [String.length str_take]. by rewrite IH. Qed.
Lemma body_of_head limits head body declared : body_of limits (head +:+ body) (String.length head) declared = body_in limits body declared.
Proof.
  unfold body_of, body_in. rewrite str_len_app. assert (clamped (head +:+ body) (String.length head) (String.length head + String.length body) = body) as Hall by (apply clamped_rest; [done|by rewrite str_len_app]).
  destruct declared as [[|n|n]|]; [done| | |by destruct (framing limits); rewrite ?Hall].
  - set (k := Z.to_nat (Z.pos n)). destruct (Nat.leb_spec k (String.length body)), (Nat.leb_spec (String.length head + k) (String.length head + String.length body)); try lia; [|done].
    unfold clamped. rewrite str_len_app, !Nat.min_l by lia. replace (String.length head + k - String.length head)%nat with k by lia. by rewrite SipText.suffix_app.
  - change (Z.to_nat (Z.neg n)) with 0%nat. rewrite (proj2 (Nat.leb_le _ _)) by lia. unfold clamped. rewrite str_len_app, !Nat.min_l by lia. rewrite Nat.add_0_r, Nat.sub_diag. done.
Qed.
(** What a reader makes of a start line, rows and a body: the start line by its
    text, the rows, each judged in its turn, and the body they delimit. *)
Definition reads_as (limits : SipParserLimits) (line : StartLine) (rows : list Row) (body : string) : Refusal + Frame :=
  if (max_header_lines limits <? S (length rows))%nat then inl TooManyLines
  else match parse_start_line (render_start line +:+ crlf) limits with
       | inl e => inl e
       | inr (read, _) =>
           match judge_all limits rows no_lines with
           | inl e => inl e
           | inr l =>
               match refusal l with
               | Some e => inl e
               | None => match body_in limits body (content_length (singles l)) with inl e => inl e | inr b => inr (mkFrame read (kept l) b) end
               end
           end
       end.
Lemma start_line_text limits line : start_ok limits line = true -> no_break (render_start line) = true /\ render_start line <> "".
Proof.
  destruct line as [method uri version|version status reason]; cbn [start_ok render_start]; rewrite !andb_true_iff, ?negb_true_iff, ?String.eqb_neq.
  - intros ((((((Hm0 & Hm) & _) & Hu) & _) & _) & Hv). apply String.eqb_eq in Hv as ->. split; [|by destruct method]. unfold no_break. rewrite every_app. cbn [every]. rewrite every_app. cbn [every]. rewrite !andb_true_iff. repeat split.
    + revert Hm. apply every_impl. by_class.
    + revert Hu. apply every_impl. by_class.
  - intros (((Hv & H1) & H2) & Hr). apply String.eqb_eq in Hv as ->. split; [|done]. unfold no_break. rewrite every_app. cbn [every]. rewrite every_app. cbn [every]. rewrite !andb_true_iff. repeat split.
    + assert (every is_ascii_digit (pretty status) = true) as Hd by (apply pretty_digits; lia). revert Hd. apply every_impl. by_class.
    + revert Hr. apply every_impl. intros b. rewrite !negb_true_iff. destruct (is_break b) eqn:Hb; [|done]. by rewrite break_control.
Qed.
Lemma row_line p : row_ok p = true -> no_break (row_text p) = true /\ row_text p <> "".
Proof.
  destruct p as [n v]. intros (H1 & H2 & H3)%row_ok_inv. unfold row_text. cbn [fst snd]. split; [|by destruct n]. unfold no_break in *. rewrite every_app. change (": " +:+ v) with (String ":" (String " " v)). cbn [every]. rewrite !andb_true_iff. repeat split; try done.
  revert H2. apply every_impl. by_class.
Qed.
Lemma parse_frame_written `{E : Utf8} limits line rows body : no_break (render_start line) = true -> Forall (fun p => row_ok p = true) rows -> is_utf8 (head_text line rows) = true ->
  parse_frame limits (written line rows body) = Some (reads_as limits line rows body).
Proof.
  intros Hs1 Hr Hu. pose proof (render_start_nonempty line) as Hs2. unfold parse_frame.
  assert (written line rows body = lines_text (render_start line :: map row_text rows) +:+ crlf +:+ body) as Hw by (unfold written; rewrite lines_text_cons; by rewrite !str_app_assoc).
  rewrite Hw at 1. rewrite header_block_lines.
  2: { constructor; [done|]. apply Forall_map. eapply Forall_impl; [exact Hr|]. intros p. apply row_line. }
  cbn [mbind option_bind hb_lines hb_end hb_bare length]. rewrite length_map. unfold reads_as. destruct (_ <? _)%nat; [done|]. rewrite bool_decide_false by (by intros [? ?]).
  assert (String.length (lines_text (render_start line :: map row_text rows)) + 2 = String.length (head_text line rows))%nat as ->.
  { unfold head_text, rows_text. rewrite lines_text_cons, !str_len_app. simpl. lia. }
  rewrite written_head, clamped_front. unfold decode_image. rewrite Hu. unfold head_text at 1. rewrite parse_start_by_line by done.
  destruct (parse_start_line (render_start line +:+ crlf) limits) as [e|[read ?]]; [done|].
  rewrite <- (string_app_nil crlf) at 2. rewrite (parse_headers_written limits rows "" no_lines); [|done|].
  2: { rewrite !str_len_app. pose proof (lines_text_len (map row_text rows)) as Hl. rewrite length_map in Hl. unfold rows_text. lia. }
  cbn [mbind option_bind]. destruct (judge_all limits rows no_lines) as [e|l]; [done|]. destruct (refusal l); [done|]. by rewrite body_of_head.
Qed.

(** ** What the rows say *)

Lemma expanded_idem n : expanded_name (expanded_name n) = expanded_name n.
Proof.
  unfold expanded_name at 2 3. destruct (canonical_of n) as [c|] eqn:Hc; [|change (expanded_name n = n); unfold expanded_name; by rewrite Hc].
  assert (c ∈ map snd compact_forms) as Hin.
  { unfold canonical_of in Hc. assert (forall a, canonical_letter a = Some c -> c ∈ map snd compact_forms) as Hl.
    { intros a Ha. unfold canonical_letter in Ha. destruct (List.find _ compact_forms) as [q|] eqn:Hf; [|done]. injection Ha as <-. apply List.find_some in Hf as [Hf _]. by apply list_elem_of_In, List.in_map. }
    destruct n as [|a [|b n]]; [vm_compute in Hc; discriminate|by apply (Hl a)|]. destruct (String.eqb _ KELVIN); [|done]. injection Hc as <-. vm_compute. repeat constructor. }
  change (expanded_name c = c). assert (Forall (fun c => expanded_name c = c) (map snd compact_forms)) as Hall by (by vm_compute; repeat constructor). rewrite Forall_forall in Hall. by apply Hall.
Qed.
Lemma id_of_expanded n : id_of (expanded_name n) = id_of n.
Proof. unfold id_of. by rewrite expanded_idem. Qed.
Lemma id_of_wire id : id_of (wire id) = Some id.
Proof. destruct id; vm_compute; reflexivity. Qed.
Definition read_row (p : Row) : SipHeader := mkHeader (expanded_name p.1) (trim p.2).
Definition is_cl (p : Row) : bool := bool_decide (id_of p.1 = Some HContentLength).
(** A refusal is kept. *)
Lemma judge_refusal limits n v l l' : judge_line limits n v l = inr l' -> refusal l' = None -> refusal l = None /\ kept l' = kept l ++ [mkHeader n v] /\
  match id_of n with
  | Some HContentLength => content_length (singles l) = None /\ content_length (singles l') = strict_non_negative_decimal v INT_32_MAX /\ is_Some (content_length (singles l'))
  | _ => content_length (singles l') = content_length (singles l)
  end.
Proof.
  unfold judge_line. destruct (_ <? _)%nat; [done|]. destruct (bool_decide _); [by intros [= <-]|]. destruct (id_of n) as [id|]; [|by intros [= <-]].
  destruct (gate_refusal id v (singles l)) as [[e|] s] eqn:Hg; intros [= <-]; [done|]. cbn [keep refusal kept singles]. intros Hr. split; [done|]. split; [done|].
  unfold gate_refusal in Hg. destruct id; cbn [numeric_header_rule] in Hg; repeat (case_match; simplify_eq; try done).
  cbn [content_length]. unfold strict_numeric_value in *. cbn [fst snd] in *. case_bool_decide as Hb; [done|]. split; [|by eauto]. destruct (content_length (singles l)); [by destruct Hb|done].
Qed.
Lemma judge_all_ok limits rows l l' : judge_all limits rows l = inr l' -> refusal l' = None ->
  refusal l = None /\ kept l' = kept l ++ map read_row rows /\
  match List.filter is_cl rows with
  | [] => content_length (singles l') = content_length (singles l)
  | (n, v) :: more =>
      more = [] /\ content_length (singles l) = None /\ content_length (singles l') = strict_non_negative_decimal (trim v) INT_32_MAX /\ is_Some (content_length (singles l'))
  end.
Proof.
  revert l. induction rows as [|[n v] rows IH]; intros l; cbn [judge_all map].
  - intros [= <-] Hr. split; [done|]. split; [by rewrite app_nil_r|done].
  - destruct (judge_line _ _ _ _) as [e|l1] eqn:Hj; [done|]. intros Ha Hr. destruct (IH _ Ha Hr) as (H1 & H2 & H3). apply judge_refusal in Hj as (J1 & J2 & J3); [|done]. split; [done|].
    split; [rewrite H2, J2, <- app_assoc; done|]. rewrite id_of_expanded in J3. cbn [List.filter]. unfold is_cl at 1. cbn [fst]. case_bool_decide as Hid.
    + rewrite Hid in J3. destruct J3 as (J3 & J4 & J5). destruct (List.filter is_cl rows) as [|[n' v'] more].
      * rewrite H3. done.
      * destruct H3 as (_ & H3 & _). rewrite H3 in J5. by destruct J5.
    + assert (content_length (singles l1) = content_length (singles l)) as He by (destruct (id_of n) as [[]|]; try done; by destruct Hid). rewrite He in H3. done.
Qed.

(** ** A frozen draft *)

Definition entry_row (e : Entry) : Row := (as_wire_str (e_name e), e_value e).
Definition cl_key : HeaderKey := name_key (Known HContentLength).
Lemma entry_id_row e : entry_id e = id_of (entry_row e).1.
Proof. destruct e as [[id|s] v]; unfold entry_id, entry_row; cbn [e_name as_wire_str name_key key_id fst]; [by rewrite id_of_wire|]. by destruct (id_of s). Qed.
Lemma is_cl_row e : is_key cl_key e = is_cl (entry_row e).
Proof.
  unfold is_key, is_cl. rewrite entry_id_row. cbn [cl_key name_key key_is]. destruct (id_of _) as [id|]; [|done].
  apply bool_decide_ext. split; [by intros ->|by intros [= ->]].
Qed.
Lemma wire_token id : every is_token_char (wire id) = true /\ wire id <> "".
Proof. by destruct id. Qed.
Lemma entry_row_ok e : line_refused e = false -> row_ok (entry_row e) = true.
Proof.
  destruct e as [n v]. unfold line_refused, row_ok, entry_row. cbn [e_name e_value fst snd]. rewrite orb_false_iff, bool_decide_eq_false. intros [Hn Hv].
  assert (no_break v = true) as -> by (eapply bare_control_breaks; by apply eq_None_not_Some). rewrite andb_true_r. destruct n as [id|s]; cbn [as_wire_str].
  - destruct (wire_token id) as [-> Hne]. by rewrite (proj2 (String.eqb_neq _ _) Hne).
  - unfold header_name_refused in Hn. apply orb_false_iff in Hn as [-> Hn]. by apply negb_false_iff in Hn as ->.
Qed.
Lemma filter_map_row entries : List.filter is_cl (map entry_row entries) = map entry_row (List.filter (is_key cl_key) entries).
Proof. induction entries as [|e l IH]; [done|]. cbn [map List.filter]. rewrite is_cl_row, IH. by destruct (is_cl (entry_row e)). Qed.
Lemma no_key_filter {A} (f : A -> bool) l : List.filter f (List.filter (fun x => negb (f x)) l) = [].
Proof. induction l as [|x l IH]; [done|]. cbn [List.filter]. destruct (f x) eqn:Hx; cbn [negb List.filter]; [done|]. by rewrite Hx. Qed.
Lemma draft_set_key e entries : is_key (name_key (e_name e)) e = true -> List.filter (is_key (name_key (e_name e))) (draft_set e entries) = [e].
Proof.
  intros He. unfold draft_set. set (k := name_key (e_name e)) in *. destruct (position_of (is_key k) entries) as [at_|] eqn:Hp.
  - set (l := List.filter _ entries). pose proof (no_key_filter (is_key k) entries) as Hn. fold l in Hn. rewrite <- (take_drop at_ l), List.filter_app in Hn. apply app_eq_nil in Hn as [H1 H2].
    rewrite List.filter_app, H1. cbn [List.filter app]. by rewrite He, H2.
  - rewrite List.filter_app. cbn [List.filter]. rewrite He. assert (List.filter (is_key k) entries = []) as ->; [|done].
    revert Hp. clear He. induction entries as [|x l IH]; cbn [position_of List.filter]; [done|]. destruct (is_key k x); [done|]. destruct (position_of _ l); [done|]. intros _. by apply IH.
Qed.
Lemma with_length_row entries body l : with_content_length entries body = inr l ->
  (List.filter is_cl (map entry_row l) = [] /\ body = "") \/ List.filter is_cl (map entry_row l) = [("Content-Length", pretty (Z.of_nat (String.length body)))].
Proof.
  unfold with_content_length. destruct (_ <? _); [done|]. intros [= <-]. rewrite !filter_map_row. destruct (_ || _) eqn:Hd.
  - right. change cl_key with (name_key (e_name (mkEntry (Known HContentLength) (pretty (Z.of_nat (String.length body)))))). rewrite draft_set_key by done. done.
  - left. apply orb_false_iff in Hd as [H1 H2]. split; [|apply Z.ltb_ge in H1; destruct body; [done|cbn [String.length] in H1; lia]]. unfold draft_has in H2. change (name_key (Known HContentLength)) with cl_key in H2.
    assert (List.filter (is_key cl_key) entries = []) as ->; [|done]. induction entries as [|x l IH]; [done|]. cbn [existsb List.filter] in *. apply orb_false_iff in H2 as [-> H2]. by apply IH.
Qed.

Lemma render_draft_written line entries body : r_bytes (render_draft line entries body) = written line (map entry_row entries) body.
Proof.
  unfold render_draft, written, rows_text. cbn [r_bytes]. assert (foldr (fun e r => render_entry e +:+ r) "" entries = lines_text (map row_text (map entry_row entries))) as ->; [|by rewrite !str_app_assoc].
  induction entries as [|e l IH]; [done|]. cbn [foldr map]. rewrite lines_text_cons, <- IH. unfold render_entry, row_text, entry_row. cbn [fst snd]. by rewrite !str_app_assoc.
Qed.
Lemma strict_pretty z max : 0 <= z -> max <= u64_MAX -> is_Some (strict_non_negative_decimal (pretty z) max) -> strict_non_negative_decimal (pretty z) max = Some z.
Proof.
  intros Hz Hm [n Hn]. rewrite Hn. unfold strict_non_negative_decimal in Hn. rewrite pretty_nonempty in Hn by done.
  assert (forall s a n, decimal_loop max a s = Some n -> read_digits a s = Some n) as Hl.
  { intros s. induction s as [|c s IH]; intros a m; simpl; [done|]. destruct (digit_value c) as [d|]; [|done]. cbn [mbind option_bind]. destruct (_ || _); [done|]. apply IH. }
  apply Hl in Hn. destruct z as [|q|q]; [by injection Hn as <-| |lia]. change (pretty (Z.pos q)) with (pretty_N_go (N.pos q) "") in Hn. rewrite read_digits_pretty in Hn. by injection Hn as <-.
Qed.
Lemma trim_pretty z : 0 <= z -> trim (pretty z) = pretty z.
Proof.
  intros Hz. pose proof (pretty_digits z Hz) as Hd. pose proof (pretty_nonempty z Hz) as Hne.
  assert (forall a, is_ascii_digit a = true -> visible a = true) as Hv by by_class.
  assert (forall s, every is_ascii_digit s = true -> s <> "" -> exists a b, first_char s = Some a /\ last_char s = Some b /\ is_ascii_digit a = true /\ is_ascii_digit b = true) as Hs.
  { intros s. induction s as [|c s IH]; [done|]. cbn [every]. rewrite andb_true_iff. intros [Hc Hs] _. destruct s as [|c' s]; [by exists c, c|]. destruct (IH Hs ltac:(done)) as (a & b & _ & Hb & _ & Hb').
    exists c, b. split; [done|]. split; [exact Hb|done]. }
  destruct (Hs _ Hd ltac:(by apply String.eqb_neq)) as (a & b & Ha & Hb & Ha' & Hb'). eapply trim_visible; eauto.
Qed.
Lemma body_in_declared limits body declared :
  match declared with Some n => n = Z.of_nat (String.length body) | None => body = "" /\ framing limits = Datagram end -> body_in limits body declared = inr body.
Proof.
  destruct declared as [n|]; [intros ->|by intros [-> Hf]; simpl; rewrite Hf]. unfold body_in. destruct body as [|a body]; [done|]. set (s := String a body).
  assert (Z.to_nat (Z.of_nat (String.length s)) = String.length s) as He by lia. destruct (Z.of_nat (String.length s)) as [|n|n] eqn:Hn; [simpl in Hn; lia| |lia]. rewrite He, Nat.leb_refl. by rewrite str_take_all.
Qed.
Lemma filter_nil_existsb {A} (f : A -> bool) l : List.filter f l = [] -> existsb f l = false.
Proof. induction l as [|x l IH]; [done|]. cbn [List.filter existsb]. by destruct (f x). Qed.
Lemma filter_one_existsb {A} (f : A -> bool) x l : List.filter f l = [x] -> existsb f l = true.
Proof. intros H. apply existsb_exists. exists x. apply List.filter_In. rewrite H. by left. Qed.
(** What the freeze checked of the texts it wrote. *)
Lemma not_refused line entries body : r_refused (render_draft line entries body) = false ->
  no_break (render_start line) = true /\ Forall (fun p => row_ok p = true) (map entry_row entries).
Proof.
  unfold render_draft. cbn [r_refused]. rewrite orb_false_iff, negb_false_iff. intros [Hs Hr]. split.
  - revert Hs. apply every_impl. intros b. rewrite !negb_true_iff. destruct (is_break b) eqn:Hb; [|done]. by rewrite break_control.
  - apply Forall_map, Forall_forall. intros e He. apply entry_row_ok. rewrite <- not_true_iff_false in *. intros Hx. apply Hr. apply existsb_exists. exists e. split; [by apply list_elem_of_In|done].
Qed.
Section frozen.
Context `{E : Utf8}.

(** C25: a message a draft freezes is read as it was stated.  Whatever texts the
    caller put in its start line, its lines and its body, a parser handed the
    bytes, their head UTF-8 as a draft's texts are, reads a start line that
    writes the same text (the very line stated, when it is well formed for the
    parser's limits), the lines that were frozen, in order, each by its name and
    its trimmed value, and the body, byte for byte; or it refuses the message for
    the number of its lines, for what its start line or one of its lines says,
    or, on a stream, because it was frozen with no Content-Length, which only a
    bodiless message is.  No text starts a line of its own, ends the header block
    or moves where the body is cut. *)
Theorem frozen_message_read_back limits line entries body bytes :
  freeze_bytes line entries body = inr bytes ->
  is_utf8 (str_take (String.length bytes - String.length body) bytes) = true ->
  exists lines, with_content_length entries body = inr lines /\ (existsb is_cl (map entry_row lines) = false -> body = "") /\
    parse_frame limits bytes = Some
      (if (max_header_lines limits <? S (length lines))%nat then inl TooManyLines
       else match parse_start_line (render_start line +:+ crlf) limits, judge_all limits (map entry_row lines) no_lines with
            | inl e, _ => inl e
            | inr _, inl e => inl e
            | inr (read, _), inr l =>
                match refusal l, framing limits, existsb is_cl (map entry_row lines) with
                | Some e, _, _ => inl e
                | None, Stream, false => inl NoContentLength
                | None, _, _ => inr (mkFrame read (map (fun e => read_row (entry_row e)) lines) body)
                end
            end) /\
    (forall read r, parse_start_line (render_start line +:+ crlf) limits = inr (read, r) -> render_start read = render_start line) /\
    (start_ok limits line = true -> parse_start_line (render_start line +:+ crlf) limits = inr (line, "")).
Proof.
  intros Hf Hu. unfold freeze_bytes in Hf. destruct (with_content_length entries body) as [e|lines] eqn:Hw; [done|]. exists lines. split; [done|].
  destruct (List.filter _ (REQUIRED line)); [|done]. destruct (r_refused _) eqn:Hr; [done|].
  assert (bytes = written line (map entry_row lines) body) as -> by (rewrite <- render_draft_written; by injection Hf). clear Hf.
  destruct (not_refused _ _ _ Hr) as [Hstart Hrows]. pose proof (with_length_row _ _ _ Hw) as Hcl. split; [|split; [|split]].
  - destruct Hcl as [[_ ->]|Hn]; [done|]. intros Hx. assert (In (("Content-Length", pretty (Z.of_nat (String.length body))) : Row) (List.filter is_cl (map entry_row lines))) as Hin by (rewrite Hn; by left).
    apply List.filter_In in Hin as [Hin Hy]. rewrite <- not_true_iff_false in Hx. destruct Hx. apply existsb_exists. by eexists.
  - rewrite parse_frame_written; [|done|done|]. 2: { rewrite written_head, str_len_app, Nat.add_sub, str_take_app in Hu. done. }
    f_equal. unfold reads_as. rewrite length_map. destruct (_ <? _)%nat; [done|]. destruct (parse_start_line _ _) as [e|[read t]]; [done|]. destruct (judge_all _ _ _) as [e|l] eqn:Hj; [done|]. destruct (refusal l) eqn:Href; [done|].
    destruct (judge_all_ok _ _ _ _ Hj Href) as (_ & Hk & Hcl'). rewrite Hk. cbn [kept no_lines app]. rewrite map_map. destruct Hcl as [[Hn ->]|Hn]; rewrite Hn in Hcl'.
    + rewrite Hcl', (filter_nil_existsb _ _ Hn). cbn [content_length singles no_lines body_in]. by destruct (framing limits).
    + rewrite (filter_one_existsb _ _ _ Hn). destruct Hcl' as (_ & _ & Hc & Hsome). rewrite trim_pretty in Hc by lia. rewrite Hc in *. rewrite strict_pretty; [|lia|vm_compute; discriminate|done].
      rewrite (body_in_declared limits body (Some _)) by done. by destruct (framing limits).
  - intros read r. by apply read_start_text.
  - intros Hs. rewrite <- (string_app_nil crlf). by apply parse_start_written.
Qed.
End frozen.

(** ** The split always ends *)

Lemma suffix_length n s : String.length (suffix n s) = (String.length s - n)%nat.
Proof. revert s. induction n as [|n IH]; intros [|a s]; simpl; done. Qed.
Lemma skip_if_len b s : (String.length (skip_if b s).2 <= String.length s)%nat.
Proof. destruct s as [|a s]; [done|]. unfold skip_if. destruct (Ascii.eqb a b); simpl; lia. Qed.
Lemma take_line_len s n cr lf r : take_line s = (n, cr, lf, r) -> (String.length r <= String.length s - n)%nat.
Proof.
  unfold take_line. set (k := run_len _ s). pose proof (skip_if_len CR (suffix k s)) as H1. destruct (skip_if CR (suffix k s)) as [c s1]. pose proof (skip_if_len LF s1) as H2. destruct (skip_if LF s1) as [f s2].
  intros [= <- <- <- <-]. simpl in *. rewrite suffix_length in H1. lia.
Qed.
Lemma header_block_total raw : is_Some (header_block raw).
Proof.
  unfold header_block. assert (forall fuel s pos lines bare, (String.length s < fuel)%nat -> is_Some (header_block_loop fuel s pos lines bare)) as H; [|apply H; lia].
  induction fuel as [|fuel IH]; intros s pos lines bare Hf; [lia|]. cbn [header_block_loop]. destruct s as [|a s]; [by eexists|]. destruct (take_line (String a s)) as [[[n cr] lf] r] eqn:Ht.
  apply take_line_len in Ht. destruct (Nat.eqb_spec n 0); [by eexists|]. apply IH. cbn [String.length] in *. lia.
Qed.
Lemma read_value_step b c s : read_header_value (String b (String c s)) =
  if Ascii.eqb b CR && Ascii.eqb c LF then
    match s with
    | String w u => if is_ws w then let '(v, r) := read_header_value u in (String " " v, r) else (EmptyString, s)
    | EmptyString => (EmptyString, EmptyString)
    end
  else let '(v, r) := read_header_value (String c s) in (String b v, r).
Proof. done. Qed.
Lemma read_value_len s : (String.length (read_header_value s).2 <= String.length s - 1)%nat.
Proof.
  induction s as [s IH] using str_len_ind. destruct s as [|b [|c s]]; [done|done|]. rewrite read_value_step. destruct (_ && _).
  - destruct s as [|w s]; [simpl; lia|]. destruct (is_ws w); [|simpl; lia]. pose proof (IH s ltac:(simpl; lia)) as Hs. destruct (read_header_value s) as [v r]. simpl in *. lia.
  - pose proof (IH (String c s) ltac:(simpl; lia)) as Hs. destruct (read_header_value (String c s)) as [v r]. simpl in *. lia.
Qed.
Lemma skip_lws_len s : (String.length (skip_lws s) <= String.length s)%nat.
Proof.
  induction s as [s IH] using str_len_ind. destruct s as [|b s]; [done|]. cbn [skip_lws]. destruct (is_ws b); [pose proof (IH s ltac:(simpl; lia)); simpl; lia|]. destruct s as [|c [|d s]]; [done|done|].
  destruct (_ && _); [pose proof (IH s ltac:(simpl; lia)); simpl in *; lia|done].
Qed.
Lemma read_name_len s : match read_header_name s with inl (_, r) => (String.length r <= String.length s)%nat /\ r <> "" | inr (_, r) => (String.length r <= String.length s)%nat end.
Proof.
  unfold read_header_name, take_while. set (k := run_len _ s). pose proof (suffix_length k s) as H. destruct (suffix k s) as [|b t] eqn:Hs; [simpl; lia|]. destruct (name_stops b).
  - cbn [snd]. rewrite suffix_length. lia.
  - split; [lia|done].
Qed.
(** A line leaves less than there was. *)
Lemma parse_line_shorter limits s l l' r : at_end_of_headers s = false -> parse_line limits s l = inr (l', r) -> (String.length r < String.length s)%nat.
Proof.
  intros He. assert (0 < String.length s)%nat as Hs by (destruct s; [done|simpl; lia]). unfold parse_line. pose proof (read_name_len s) as Hn. destruct (read_header_name s) as [[e rest]|[n rest]].
  - intros [= _ <-]. pose proof (read_value_len rest). lia.
  - pose proof (read_value_len rest) as Hv. destruct (String.eqb n ""); [intros [= _ <-]; lia|]. destruct (_ && _); [intros [= _ <-]; lia|].
    assert (forall x, inr (x, (read_header_value rest).2) = inr (l', r) :> Refusal + Lines * string -> (String.length r < String.length s)%nat) as Hother by (intros x [= _ <-]; lia).
    destruct rest as [|a rest]; [by apply Hother|]. destruct (decide (a = ":"%char)) as [->|Ha].
    + pose proof (skip_lws_len rest) as Hl. pose proof (read_value_len (skip_lws rest)) as Hv2. destruct (read_header_value (skip_lws rest)) as [v r'] eqn:Hrv. cbn [snd] in *. destruct (judge_line _ _ _ _); [done|].
      intros [= _ <-]. simpl in Hn. lia.
    + destruct a as [[] [] [] [] [] [] [] []]; try (by apply Hother). by destruct Ha.
Qed.
Lemma parse_headers_total limits s l fuel : (String.length s < fuel)%nat -> is_Some (parse_headers fuel limits s l).
Proof.
  revert s l. induction fuel as [|fuel IH]; intros s l Hf; [lia|]. cbn [parse_headers]. destruct (at_end_of_headers s) eqn:He; [by eexists|]. destruct (parse_line limits s l) as [e|[l' r]] eqn:Hp; [by eexists|].
  apply IH. apply parse_line_shorter in Hp; [lia|done].
Qed.
Theorem parse_frame_total `{E : Utf8} limits raw : is_Some (parse_frame limits raw).
Proof.
  unfold parse_frame. destruct (header_block_total raw) as [b ->]. cbn [mbind option_bind]. destruct (_ <? _)%nat; [by eexists|]. destruct (bool_decide _); [by eexists|].
  destruct (decode_image _) as [image bad]. destruct (parse_start_line image limits) as [e|[start s]]; [by eexists|]. destruct (parse_headers_total limits s no_lines (S (String.length s)) ltac:(lia)) as [p ->].
  cbn [mbind option_bind]. destruct p as [e|[l r]]; [by eexists|]. by destruct (if bad then Some NotUtf8 else refusal l).
Qed.

(** ** What is accepted *)

Definition is_cl_header (h : SipHeader) : bool := bool_decide (id_of (h_name h) = Some HContentLength).
Record lines_ok (limits : SipParserLimits) (l : Lines) : Prop := {
  lo_each : Forall (fun h => (String.length (h_name h) + 2 + String.length (h_value h) <= max_header_length limits)%nat /\ no_break (h_value h) = true) (kept l);
  lo_length : refusal l = None ->
    match List.filter is_cl_header (kept l) with
    | [] => content_length (singles l) = None
    | [h] => content_length (singles l) = strict_non_negative_decimal (h_value h) INT_32_MAX /\ is_Some (content_length (singles l))
    | _ => False
    end;
}.
Lemma refuse_lines_ok limits e b l : lines_ok limits l -> lines_ok limits (refuse e b l).
Proof. intros [H1 H2]. split; [done|]. cbn [refuse refusal]. done. Qed.
Lemma judge_ok limits n v l l' : lines_ok limits l -> judge_line limits n v l = inr l' -> lines_ok limits l'.
Proof.
  intros [H1 H2] Hj. split.
  - unfold judge_line in Hj. destruct (Nat.ltb_spec (max_header_length limits) (String.length n + 2 + String.length v)) as [Hm|Hm]; [done|]. case_bool_decide as Hb; [by injection Hj as <-|].
    assert (no_break v = true) as Hv by (eapply bare_control_breaks; by apply eq_None_not_Some).
    assert (forall s, lines_ok limits l -> Forall (fun h => (String.length (h_name h) + 2 + String.length (h_value h) <= max_header_length limits)%nat /\ no_break (h_value h) = true) (kept (keep (mkHeader n v) (mkLines (kept l) s (refusal l) (echoed_line_refused l))))) as Hk.
    { intros s _. cbn [keep kept]. apply Forall_app. split; [done|]. constructor; [|constructor]. split; [cbn [h_name h_value]; lia|done]. }
    destruct (id_of n) as [id|]; [|injection Hj as <-; by apply (Hk (singles l))]. destruct (gate_refusal _ _ _) as [[e|] s]; injection Hj as <-; [done|]. by apply (Hk s).
  - intros Hr. destruct (judge_refusal _ _ _ _ _ Hj Hr) as (J1 & J2 & J3). rewrite J2, List.filter_app. cbn [List.filter]. unfold is_cl_header at 2. cbn [h_name]. specialize (H2 J1). case_bool_decide as Hid.
    + rewrite Hid in J3. destruct J3 as (J3 & J4 & J5). destruct (List.filter is_cl_header (kept l)) as [|h [|? ?]]; [done| |done]. destruct H2 as [_ H2]. rewrite J3 in H2. by destruct H2.
    + rewrite app_nil_r. assert (content_length (singles l') = content_length (singles l)) as He by (destruct (id_of n) as [[]|]; try done; by destruct Hid). rewrite He. done.
Qed.
Lemma parse_line_ok limits s l l' r : lines_ok limits l -> parse_line limits s l = inr (l', r) -> lines_ok limits l'.
Proof.
  intros Hl. unfold parse_line. destruct (read_header_name s) as [[e rest]|[n rest]]; [intros [= <- _]; by apply refuse_lines_ok|].
  destruct (String.eqb n ""); [intros [= <- _]; by apply refuse_lines_ok|]. destruct (_ && _); [intros [= <- _]; by apply refuse_lines_ok|].
  destruct rest as [|a rest]; [intros [= <- _]; by apply refuse_lines_ok|]. destruct (decide (a = ":"%char)) as [->|Ha].
  - destruct (read_header_value (skip_lws rest)) as [v r']. destruct (judge_line _ _ _ _) as [e|l1] eqn:Hj; [done|]. intros [= <- _]. by eapply judge_ok.
  - destruct a as [[] [] [] [] [] [] [] []]; try (intros [= <- _]; by apply refuse_lines_ok). by destruct Ha.
Qed.
Lemma parse_headers_ok limits fuel s l l' r : lines_ok limits l -> parse_headers fuel limits s l = Some (inr (l', r)) -> lines_ok limits l'.
Proof.
  revert s l. induction fuel as [|fuel IH]; intros s l Hl; [done|]. cbn [parse_headers]. destruct (at_end_of_headers s); [by intros [= <- _]|]. destruct (parse_line limits s l) as [e|[l1 s1]] eqn:Hp; [done|].
  apply IH. by eapply parse_line_ok.
Qed.
(** The lines of a header block, and the text of the block: they end at a blank
    line, or with what was received. *)
Definition block_of (ls : list string) (head rest : string) : Prop :=
  Forall (fun x => no_break x = true /\ x <> "") ls /\
  (head = lines_text ls +:+ crlf \/ (rest = "" /\ (head = lines_text ls \/ head +:+ crlf = lines_text ls))).
Lemma skip_if_cases b s : (exists t, s = String b t /\ skip_if b s = (true, t)) \/ (skip_if b s = (false, s) /\ first_char s <> Some b).
Proof. destruct s as [|a t]; [by right|]. unfold skip_if. destruct (Ascii.eqb_spec a b) as [->|Hn]; [left; by exists t|right]. split; [done|]. cbn [first_char]. congruence. Qed.
(** A line with no half break: it ends with a break, or with the text. *)
Lemma take_line_shape s n cr lf r : take_line s = (n, cr, lf, r) -> xorb cr lf = false ->
  exists x, String.length x = n /\ no_break x = true /\ ((cr = true /\ lf = true /\ s = x +:+ crlf +:+ r) \/ (cr = false /\ lf = false /\ s = x /\ r = "")).
Proof.
  unfold take_line. set (k := run_len _ s). pose proof (take_suffix k s) as Hs.
  assert (no_break (str_take k s) = true /\ String.length (str_take k s) = k /\ match first_char (suffix k s) with Some a => is_break a = true | None => True end) as (Hn & Hl & Hst).
  { subst k. clear Hs. induction s as [|c s IH]; [done|]. cbn [run_len]. destruct (negb (is_break c)) eqn:Hc; [|cbn [str_take suffix first_char]; split; [done|split; [done|by apply negb_false_iff in Hc]]].
    cbn [str_take suffix String.length]. rewrite no_break_cons, Hc. destruct IH as (-> & -> & H). done. }
  set (x := str_take k s) in *. set (t := suffix k s) in *. clearbody k x t. subst s.
  destruct (skip_if_cases CR t) as [(t1 & -> & ->)|[-> Hcr]].
  - destruct (skip_if_cases LF t1) as [(t2 & -> & ->)|[-> _]]; intros [= <- <- <- <-]; [|done]. intros _. exists x. split; [done|]. split; [done|]. left. done.
  - destruct (skip_if_cases LF t) as [(t2 & -> & ->)|[-> Hlf]]; intros [= <- <- <- <-]; [done|]. intros _. exists x. split; [done|]. split; [done|]. right. destruct t as [|c t]; [by rewrite string_app_nil|].
    cbn [first_char] in *. apply is_break_cases in Hst as [->| ->]; congruence.
Qed.
Lemma block_bare_kept fuel s pos n w b : header_block_loop fuel s pos n (Some w) = Some b -> hb_bare b = Some w.
Proof.
  revert s pos n. induction fuel as [|fuel IH]; intros s pos n; [done|]. cbn [header_block_loop]. destruct s as [|a s]; [by intros [= <-]|]. destruct (take_line (String a s)) as [[[k cr] lf] r].
  destruct (k =? 0)%nat; [by intros [= <-]|]. apply IH.
Qed.
Lemma no_empty_block y ls rest : block_of (y :: ls) "" rest -> False.
Proof.
  intros [Hls Hh]. apply Forall_cons in Hls as [[Hy Hne] _]. rewrite lines_text_cons in Hh. destruct y as [|c y]; [done|]. destruct Hh as [Hh|[_ [Hh|Hh]]]; [done|done|].
  rewrite str_app_nil, str_app_cons in Hh. injection Hh as <- _. done.
Qed.
Lemma block_shape fuel s pos n b : header_block_loop fuel s pos n None = Some b -> hb_bare b = None ->
  exists ls head rest, s = head +:+ rest /\ block_of ls head rest /\ hb_lines b = (n + length ls)%nat /\ hb_end b = (pos + String.length head)%nat.
Proof.
  revert s pos n. induction fuel as [|fuel IH]; intros s pos n; [done|]. cbn [header_block_loop]. destruct s as [|a s].
  { intros [= <-] _. exists [], "", "". split; [done|]. split; [split; [constructor|right; split; [done|by left]]|]. simpl. lia. }
  destruct (take_line (String a s)) as [[[k cr] lf] r] eqn:Ht. destruct (xorb cr lf) eqn:Hx.
  { destruct (k =? 0)%nat; [by intros [= <-]|]. intros H Hb. apply block_bare_kept in H. by rewrite H in Hb. }
  destruct (take_line_shape _ _ _ _ _ Ht Hx) as (x & Hlx & Hnx & Hcase). destruct (Nat.eqb_spec k 0) as [->|Hk].
  - intros [= <-] _. destruct x as [|]; [|done]. destruct Hcase as [(-> & -> & Hs)|(_ & _ & Hs & _)]; [|done]. exists [], crlf, r. split; [by rewrite Hs, str_app_nil|]. split; [split; [constructor|by left]|]. simpl. lia.
  - intros H Hb. destruct (IH _ _ _ H Hb) as (ls & head & rest & Hr & [Hls Hh] & Hl & He). assert (x <> "") as Hxne by (by intros ->).
    destruct Hcase as [(-> & -> & Hs)|(-> & -> & Hs & ->)].
    + exists (x :: ls), (x +:+ crlf +:+ head), rest. split; [by rewrite Hs, Hr, !str_app_assoc|]. split; [|cbn [length]; rewrite Hl, He, !str_len_app; simpl; lia]. split; [by constructor|]. rewrite lines_text_cons.
      destruct Hh as [->|[-> [->|<-]]]; [left|right; split; [done|by left]|right; split; [done|right]]; by rewrite !str_app_assoc.
    + destruct head; [|done]. rewrite str_app_nil in Hr. subst rest. destruct ls as [|y ls]; [|exfalso; by eapply no_empty_block].
      exists [x], x, "". split; [by rewrite Hs, string_app_nil|]. split; [|cbn [length] in *; rewrite Hl, He; simpl; lia]. split; [by constructor|]. right. split; [done|]. right. cbn [lines_text foldr]. by rewrite string_app_nil.
Qed.
Lemma decimal_pos max s : forall n z, 0 <= n -> decimal_loop max n s = Some z -> 0 <= z.
Proof.
  induction s as [|c s IH]; intros n z Hn; simpl; [by intros [= <-]|]. destruct (digit_value c) as [d|] eqn:Hd; [|done]. cbn [mbind option_bind]. destruct (_ || _); [done|]. apply IH.
  unfold digit_value in Hd. destruct (_ && _) eqn:Hr; [|done]. injection Hd as <-. apply andb_true_iff in Hr as [Hr _]. lia.
Qed.
Lemma body_in_split limits rest declared body : body_in limits rest declared = inr body ->
  exists post, rest = body +:+ post /\ match declared with Some z => 0 <= z -> z = Z.of_nat (String.length body) | None => post = "" /\ framing limits = Datagram end.
Proof.
  unfold body_in. destruct declared as [z|]; [|destruct (framing limits); [|done]; intros [= ->]; exists ""; by rewrite string_app_nil].
  assert (forall k, (k <= String.length rest)%nat -> exists post, rest = str_take k rest +:+ post /\ String.length (str_take k rest) = k) as Hk.
  { intros k Hk. exists (suffix k rest). split; [apply take_suffix|]. pose proof (f_equal String.length (take_suffix k rest)) as Hl. rewrite str_len_app, suffix_length in Hl. lia. }
  assert ((if (Z.to_nat z <=? String.length rest)%nat then inr (str_take (Z.to_nat z) rest) else inl BodyPastEnd) = inr body :> Refusal + string -> exists post, rest = body +:+ post /\ (0 <= z -> z = Z.of_nat (String.length body))) as Hz.
  { destruct (Nat.leb_spec (Z.to_nat z) (String.length rest)) as [Hle|]; [|done]. intros [= <-]. destruct (Hk _ Hle) as (post & Hr & Hlen). exists post. split; [done|]. rewrite Hlen. lia. }
  destruct z; [intros [= <-]; by exists rest|exact Hz|exact Hz].
Qed.
Lemma start_line_bounded limits image start s : parse_start_line image limits = inr (start, s) ->
  match start with
  | RequestStart _ uri version => (String.length uri <= max_uri_length limits)%nat /\ version = SIP_VERSION
  | StatusStart version status _ => version = SIP_VERSION /\ 100 <= status <= 699
  end.
Proof.
  unfold parse_start_line. destruct (read_until_sp image) as [first t]. destruct (String.eqb first ""); [done|]. destruct t as [|c t]; [done|]. destruct (decide (c = " "%char)) as [->|Hc]; [|by destruct c as [[] [] [] [] [] [] [] []]].
  destruct (bool_decide (first_char t = _)); [done|]. destruct (bool_decide _).
  - unfold parse_status_line. destruct (String.eqb_spec first SIP_VERSION) as [->|]; [|done]. cbn [negb]. destruct (read_until_sp t) as [st u]. destruct (if (String.length st =? 3)%nat && every is_ascii_digit st then parse_uint u16_MAX st else None) as [z|]; [|done].
    destruct ((100 <=? z) && (z <=? 699)) eqn:Hz; [|done]. cbn [negb]. destruct (skip_if " " u) as [k v]. destruct (read_until_crlf v) as [reason w]. destruct (negb _); [done|]. unfold expect_crlf. destruct (at_crlf w); [|done].
    intros [= <- _]. split; [done|]. apply andb_true_iff in Hz. lia.
  - unfold parse_request_line. destruct (_ && _); [done|]. destruct (bool_decide _); [done|]. destruct (read_until_sp t) as [uri u]. destruct (String.eqb uri ""); [done|].
    destruct (Nat.ltb_spec (max_uri_length limits) (String.length uri)) as [|Hl]; [done|]. destruct u as [|c u]; [done|]. destruct (decide (c = " "%char)) as [->|Hc]; [|by destruct c as [[] [] [] [] [] [] [] []]].
    destruct (read_until_crlf u) as [version v]. destruct (negb _); [done|]. destruct (String.eqb_spec version SIP_VERSION) as [->|]; [|done]. cbn [negb]. unfold expect_crlf. destruct (at_crlf v); [|done]. by intros [= <- _].
Qed.
Section accepted.
Context `{E : Utf8}.

(** C38: what a parser accepts is within its limits and its body is the one its
    lines delimit.  The bytes received are a header block, the body and what
    follows it.  The block is at most the limit of non-empty lines with no break
    in them, up to the first blank line, or to the end of what was received, which
    leaves no body.  A request's URI is within its limit and a status between 100
    and 699; no header is longer than the limit or holds a line break; at most one
    states a Content-Length, and then the body is exactly that long; when none
    does, on datagrams only, the body is everything after the block. *)
Theorem accepted_frame_bounded limits raw f : parse_frame limits raw = Some (inr f) ->
  exists ls head post, raw = head +:+ f_body f +:+ post /\ block_of ls head (f_body f +:+ post) /\ (length ls <= max_header_lines limits)%nat /\
    match f_start f with
    | RequestStart _ uri version => (String.length uri <= max_uri_length limits)%nat /\ version = SIP_VERSION
    | StatusStart version status _ => version = SIP_VERSION /\ 100 <= status <= 699
    end /\
    Forall (fun h => (String.length (h_name h) + 2 + String.length (h_value h) <= max_header_length limits)%nat /\ no_break (h_value h) = true) (f_headers f) /\
    match List.filter is_cl_header (f_headers f) with
    | [] => post = "" /\ framing limits = Datagram
    | [h] => strict_non_negative_decimal (h_value h) INT_32_MAX = Some (Z.of_nat (String.length (f_body f)))
    | _ => False
    end.
Proof.
  unfold parse_frame. destruct (header_block raw) as [b|] eqn:Hblock; [|done]. cbn [mbind option_bind]. destruct (Nat.ltb_spec (max_header_lines limits) (hb_lines b)) as [|Hlines]; [done|]. case_bool_decide as Hbare; [done|].
  destruct (block_shape _ _ _ _ _ Hblock) as (ls & head & rest & -> & Hof & Hl & He); [by apply eq_None_not_Some|]. destruct (decode_image _) as [image bad].
  destruct (parse_start_line image limits) as [e|[start s]] eqn:Hstart; [done|]. destruct (parse_headers _ _ _ _) as [[e|[l r]]|] eqn:Hp; [done| |done]. cbn [mbind option_bind].
  apply parse_headers_ok in Hp as [H1 H2]; [|by split]. destruct bad; [done|]. destruct (refusal l); [done|]. specialize (H2 eq_refl). simpl in He, Hl. rewrite He, body_of_head. destruct (body_in _ _ _) as [e|body] eqn:Hb; [done|]. intros [= <-]. cbn [f_headers f_body f_start].
  destruct (body_in_split _ _ _ _ Hb) as (post & -> & Hpost). exists ls, head, post. split; [done|]. split; [done|]. split; [lia|]. split; [by eapply start_line_bounded|]. split; [done|].
  destruct (List.filter is_cl_header (kept l)) as [|h [|? ?]]; [by rewrite H2 in Hpost| |done]. destruct H2 as [H2 [z Hz]]. rewrite Hz in *. rewrite <- H2. f_equal. apply Hpost.
  unfold strict_non_negative_decimal in H2. destruct (String.eqb (h_value h) ""); [done|]. by eapply decimal_pos.
Qed.
End accepted.

(** ** The serializer *)

Lemma lower_length s : String.length (lower s) = String.length s.
Proof. induction s as [|a s IH]; [done|]. cbn [lower String.length]. by rewrite IH. Qed.
(** A header is known by its name's lower case. *)
Definition id_of_lower (w : string) : option HeaderId :=
  match w with
  | EmptyString => None
  | String first _ =>
      if (String.length w <? LENGTHS)%nat then
        List.find (fun id => bool_decide ((lower_ascii <$> first_char (wire id)) = Some first) && String.eqb (lower (wire id)) w) (bucket (String.length w))
      else None
  end.
Lemma id_of_by_lower n : id_of n = id_of_lower (lower (expanded_name n)).
Proof. unfold id_of. destruct (expanded_name n) as [|a w]; [done|]. cbn [lower id_of_lower]. cbn [String.length]. by rewrite lower_length. Qed.
Lemma content_length_name n : is_content_length (mkHeader n "") = bool_decide (id_of n = Some HContentLength).
Proof.
  assert (id_of n = Some HContentLength <-> lower (expanded_name n) = "content-length") as Hid.
  { rewrite id_of_by_lower. split; [|intros ->; vm_compute; reflexivity]. destruct (lower (expanded_name n)) as [|a w] eqn:Hw; [done|]. cbn [id_of_lower]. destruct (_ <? _)%nat; [|done].
    intros [_ He]%List.find_some. apply andb_true_iff in He as [_ He]. apply String.eqb_eq in He. by rewrite <- He. }
  unfold is_content_length, same_name. cbn [h_name]. change (lower "content-length") with "content-length". change (lower "l") with "l".
  symmetry.
  destruct (String.eqb_spec (lower n) "content-length") as [H|H].
  - apply bool_decide_eq_true_2, Hid. unfold expanded_name. assert (canonical_of n = None) as ->; [|done]. unfold canonical_of. destruct n as [|a [|b n]]; [done|done|]. destruct (String.eqb_spec (String a (String b n)) KELVIN) as [He|]; [rewrite He in H; vm_compute in H; discriminate|done].
  - cbn [orb]. destruct (String.eqb_spec (lower n) "l") as [Hl|Hl].
    + apply bool_decide_eq_true_2, Hid. destruct n as [|a [|b n]]; [done| |done]. cbn [lower] in Hl. injection Hl as Hl. unfold expanded_name, canonical_of, canonical_letter. rewrite Hl. done.
    + apply bool_decide_eq_false_2. rewrite Hid. unfold expanded_name. destruct (canonical_of n) as [c|] eqn:Hc; [|done]. cbn [default]. intros Hlow. unfold canonical_of in Hc.
      assert (forall a, canonical_letter a = Some c -> lower_ascii a = "l"%char) as Hlet.
      { intros a Ha. unfold canonical_letter in Ha. destruct (List.find _ compact_forms) as [q|] eqn:Hf; [|done]. apply List.find_some in Hf as [Hin Heq]. injection Ha as Ha. apply Ascii.eqb_eq in Heq. rewrite <- Heq.
        simpl in Hin. repeat (destruct Hin as [<-|Hin]; [by (cbn [snd] in Ha; rewrite <- Ha in Hlow)|]). done. }
      destruct n as [|a [|b n]]; [vm_compute in Hc; discriminate|apply Hl; cbn [lower]; by rewrite (Hlet a)|]. destruct (String.eqb _ KELVIN); [|done]. injection Hc as <-. vm_compute in Hlow. discriminate.
Qed.
Definition header_row (h : SipHeader) : Row := (h_name h, h_value h).
Lemma is_cl_header_row h : is_cl (header_row h) = is_content_length h.
Proof. unfold is_cl, header_row. cbn [fst]. symmetry. exact (content_length_name (h_name h)). Qed.
(** The rows that leave. *)
Definition sent_rows (headers : list SipHeader) (body : string) : list SipHeader :=
  let actual := String.length body in
  let cl := List.find is_content_length headers in
  let declared_ok := match cl with Some h => bool_decide (parse_uint u64_MAX (trim (h_value h)) = Some (Z.of_nat actual)) | None => (actual =? 0)%nat end in
  written_rows actual declared_ok false headers ++
  match cl with None => if (0 <? actual)%nat then [mkHeader "Content-Length" (pretty (Z.of_nat actual))] else [] | Some _ => [] end.
Lemma rows_fold l : foldr (fun h r => render_row h +:+ r) "" l = rows_text (map header_row l).
Proof. unfold rows_text. induction l as [|h l IH]; [done|]. cbn [foldr map]. rewrite lines_text_cons, IH. unfold render_row, row_text, header_row. cbn [fst snd]. by rewrite !str_app_assoc. Qed.
Lemma rows_text_app a b : rows_text (a ++ b) = rows_text a +:+ rows_text b.
Proof. unfold rows_text. induction a as [|x a IH]; [done|]. cbn [app map]. rewrite !lines_text_cons, IH. by rewrite !str_app_assoc. Qed.
Lemma finish_written line headers body : finish (render_start line) headers body = written line (map header_row (sent_rows headers body)) body.
Proof.
  unfold finish, written, sent_rows. set (ok := match List.find _ _ with Some _ => _ | None => _ end). rewrite rows_fold, map_app, rows_text_app. do 2 f_equal. rewrite !str_app_assoc. f_equal.
  destruct (List.find is_content_length headers); [by rewrite !str_app_nil|]. destruct (0 <? String.length body)%nat; [|by rewrite !str_app_nil].
  unfold rows_text, row_text, header_row. cbn [map fst snd h_name h_value]. rewrite lines_text_cons. cbn [lines_text foldr]. rewrite string_app_nil. by rewrite !str_app_assoc.
Qed.
Lemma written_rows_seen actual ok l : List.filter is_content_length (written_rows actual ok true l) = [].
Proof. induction l as [|h l IH]; [done|]. cbn [written_rows]. destruct (is_content_length h) eqn:Hh; [done|]. cbn [List.filter]. by rewrite Hh. Qed.
Lemma written_rows_cl actual ok l : List.filter is_content_length (written_rows actual ok false l) =
  match List.find is_content_length l with Some h => [if ok then h else mkHeader (h_name h) (pretty (Z.of_nat actual))] | None => [] end.
Proof.
  induction l as [|h l IH]; [done|]. cbn [written_rows List.find]. destruct (is_content_length h) eqn:Hh.
  - cbn [List.filter]. assert (is_content_length (if ok then h else mkHeader (h_name h) (pretty (Z.of_nat actual))) = true) as -> by (by destruct ok). by rewrite written_rows_seen.
  - cbn [List.filter]. by rewrite Hh.
Qed.
Lemma strict_parse s max n z : parse_uint u64_MAX s = Some n -> strict_non_negative_decimal s max = Some z -> z = n.
Proof.
  assert (forall s a m, decimal_loop max a s = Some m -> read_digits a s = Some m) as Hl.
  { intros t. induction t as [|c t IH]; intros a m; simpl; [done|]. destruct (digit_value c) as [d|]; [|done]. cbn [mbind option_bind]. destruct (_ || _); [done|]. apply IH. }
  unfold strict_non_negative_decimal, parse_uint. destruct (String.eqb_spec s "") as [|Hne]; [done|]. intros Hp Hd. pose proof Hd as Hd'. apply Hl in Hd. destruct s as [|c s]; [done|].
  assert (unsigned_part (String c s) = String c s) as Hu.
  { simpl in Hd'. destruct (digit_value c) eqn:Hc; [|done]. destruct (decide (c = "+"%char)) as [->|Hn]; [done|]. destruct c as [[] [] [] [] [] [] [] []]; try done. }
  rewrite Hu, Hd in Hp. cbn [mbind option_bind] in Hp. destruct (_ <=? _); [|done]. by injection Hp.
Qed.
Lemma written_rows_forall (P : SipHeader -> Prop) actual ok seen l : Forall P l -> (forall h, P h -> P (mkHeader (h_name h) (pretty (Z.of_nat actual)))) -> Forall P (written_rows actual ok seen l).
Proof.
  intros Hl Hp. revert seen. induction Hl as [|h l Hh _ IH]; intros seen; [constructor|]. cbn [written_rows]. destruct (is_content_length h); [destruct seen; [done|]|]; constructor; auto. destruct ok; auto.
Qed.
Lemma pretty_no_break z : 0 <= z -> no_break (pretty z) = true.
Proof. intros Hz. pose proof (pretty_digits z Hz) as Hd. revert Hd. apply every_impl. by_class. Qed.
Section serialized.
Context `{E : Utf8}.

(** What the serializer writes is read with the body it was given, whatever
    Content-Length rows the caller stated: none, one that is wrong, several. *)
Theorem serialized_message_read_back limits line headers body :
  start_ok limits line = true -> Forall (fun h => row_ok (header_row h) = true) headers -> framing limits = Datagram \/ body <> "" ->
  is_utf8 (head_text line (map header_row (sent_rows headers body))) = true ->
  parse_frame limits (finish (render_start line) headers body) = Some
    (if (max_header_lines limits <? S (length (sent_rows headers body)))%nat then inl TooManyLines
     else match judge_all limits (map header_row (sent_rows headers body)) no_lines with
          | inl e => inl e
          | inr l => match refusal l with Some e => inl e | None => inr (mkFrame line (map (fun h => read_row (header_row h)) (sent_rows headers body)) body) end
          end).
Proof.
  intros Hs Hr Hfr Hu. rewrite finish_written, parse_frame_written; [|by eapply start_line_text| |done].
  2: { apply Forall_map. unfold sent_rows. apply Forall_app. split.
       - apply written_rows_forall; [done|]. intros h Hh. unfold row_ok, header_row in *. cbn [fst snd h_name h_value] in *. rewrite !andb_true_iff in *. split; [tauto|]. apply pretty_no_break. lia.
       - destruct (List.find _ _); [constructor|]. destruct (_ <? _)%nat; [|constructor]. constructor; [|constructor]. unfold row_ok, header_row. cbn [fst snd h_name h_value]. rewrite pretty_no_break by lia. done. }
  f_equal. unfold reads_as. rewrite length_map. destruct (_ <? _)%nat; [done|]. rewrite <- (string_app_nil crlf) at 1. rewrite parse_start_written by done.
  destruct (judge_all _ _ _) as [e|l] eqn:Hj; [done|]. destruct (refusal l) eqn:Href; [done|].
  destruct (judge_all_ok _ _ _ _ Hj Href) as (_ & Hk & Hcl). rewrite body_in_declared; [rewrite Hk; cbn [kept no_lines app]; by rewrite map_map|].
  assert (List.filter is_cl (map header_row (sent_rows headers body)) = map header_row (List.filter is_content_length (sent_rows headers body))) as Hmap.
  { generalize (sent_rows headers body). intros rows. induction rows as [|h rows IH]; [done|]. cbn [map List.filter]. rewrite is_cl_header_row, IH. by destruct (is_content_length h). }
  rewrite Hmap in Hcl. clear Hmap. unfold sent_rows in Hcl. rewrite List.filter_app, written_rows_cl in Hcl. destruct (List.find is_content_length headers) as [h|].
  - cbn [app map List.filter header_row] in Hcl. destruct Hcl as (_ & _ & Hc & [z Hz]). rewrite Hz. rewrite Hz in Hc. symmetry in Hc. case_bool_decide as Hd.
    + cbn [h_name h_value] in Hc. by eapply strict_parse.
    + cbn [h_name h_value] in Hc. rewrite trim_pretty in Hc by lia. rewrite strict_pretty in Hc; [by injection Hc|lia|vm_compute; discriminate|by eexists].
  - cbn [app] in Hcl. destruct (Nat.ltb_spec 0 (String.length body)) as [Hb|Hb].
    + cbn [List.filter map header_row h_name h_value] in Hcl. change (is_content_length (mkHeader "Content-Length" _)) with true in Hcl. cbn iota in Hcl. cbn [map] in Hcl. destruct Hcl as (_ & _ & Hc & Hsome). rewrite Hc in *. cbn [header_row h_name h_value] in *.
      rewrite trim_pretty in * by lia. rewrite strict_pretty; [done|lia|vm_compute; discriminate|done].
    + cbn [List.filter map] in Hcl. rewrite Hcl. cbn [content_length singles no_lines]. assert (body = "") as -> by (destruct body; [done|simpl in Hb; lia]). split; [done|]. by destruct Hfr.
Qed.
End serialized.

(** ** A message to run *)

Definition ex_utf8 : Utf8 := {| utf8_chunks s := [(s, "")] |}.
Definition ex_line : StartLine := RequestStart "INVITE" "sip:b@h.example" "SIP/2.0".
Definition ex_entries : list Entry :=
  [mkEntry (Known HVia) "SIP/2.0/UDP 10.0.0.1;branch=z9hG4bK1"; mkEntry (Known HFrom) "<sip:a@h.example>;tag=1"; mkEntry (Known HTo) "<sip:b@h.example>";
   mkEntry (Known HCallId) "c1@h"; mkEntry (Known HCSeq) "1 INVITE"; mkEntry (Known HMaxForwards) "70"; mkEntry (Other "X-Note") " v=0 ";
   mkEntry (Other "l") "99"].
Definition ex_body : string := "v=0" +:+ crlf +:+ crlf +:+ "Via: none".
Definition ex_bytes : string := match freeze_bytes ex_line ex_entries ex_body with inr b => b | inl _ => "" end.
Definition ex_read : list SipHeader :=
  [mkHeader "Via" "SIP/2.0/UDP 10.0.0.1;branch=z9hG4bK1"; mkHeader "From" "<sip:a@h.example>;tag=1"; mkHeader "To" "<sip:b@h.example>"; mkHeader "Call-ID" "c1@h";
   mkHeader "CSeq" "1 INVITE"; mkHeader "Max-Forwards" "70"; mkHeader "X-Note" "v=0"; mkHeader "Content-Length" "16"].
Lemma frozen_message_read_back_witness :
  freeze_bytes ex_line ex_entries ex_body = inr ex_bytes /\ parse_frame (E := ex_utf8) DEFAULT_LIMITS ex_bytes = Some (inr (mkFrame ex_line ex_read ex_body)).
Proof.
  assert (freeze_bytes ex_line ex_entries ex_body = inr ex_bytes) as Hf by (vm_compute; reflexivity). split; [exact Hf|].
  destruct (frozen_message_read_back (E := ex_utf8) DEFAULT_LIMITS ex_line ex_entries ex_body ex_bytes Hf) as (lines & Hl & _ & -> & _ & _).
  - vm_compute. reflexivity.
  - vm_compute in Hl. injection Hl as <-. vm_compute. reflexivity.
Defined.
Definition ex_raw : string := "SIP/2.0 200 OK" +:+ crlf +:+ "v: SIP/2.0/UDP h" +:+ crlf +:+ "Subject : a" +:+ crlf +:+ "  b" +:+ crlf +:+ "L: 3" +:+ crlf +:+ crlf +:+ "abcdef".
Definition ex_frame : Frame := mkFrame (StatusStart "SIP/2.0" 200 "OK") [mkHeader "Via" "SIP/2.0/UDP h"; mkHeader "Subject" "a  b"; mkHeader "Content-Length" "3"] "abc".
Lemma accepted_frame_bounded_witness :
  parse_frame (E := ex_utf8) DEFAULT_LIMITS ex_raw = Some (inr ex_frame) /\
  exists ls head post, ex_raw = head +:+ f_body ex_frame +:+ post /\ block_of ls head (f_body ex_frame +:+ post) /\ (length ls <= 100)%nat /\
    strict_non_negative_decimal "3" INT_32_MAX = Some (Z.of_nat (String.length (f_body ex_frame))).
Proof.
  assert (parse_frame (E := ex_utf8) DEFAULT_LIMITS ex_raw = Some (inr ex_frame)) as Hp by (vm_compute; reflexivity). split; [exact Hp|].
  destruct (accepted_frame_bounded (E := ex_utf8) DEFAULT_LIMITS ex_raw ex_frame Hp) as (ls & head & post & Hr & Hb & Hl & _ & _ & Hm). exists ls, head, post.
  split; [exact Hr|]. split; [exact Hb|]. split; [exact Hl|exact Hm].
Defined.
(** What a split refuses. *)
Example frame_refusals :
  map (fun s => match parse_frame (E := ex_utf8) DEFAULT_LIMITS s with Some (inl e) => Some e | _ => None end)
    ["INVITE sip:b@h SIP/2.0" +:+ String LF "" +:+ crlf; "INVITE  sip:b@h SIP/2.0" +:+ crlf +:+ crlf; "INVITE <sip:b@h> SIP/2.0" +:+ crlf +:+ crlf; "SIP/2.0 99 x" +:+ crlf +:+ crlf;
     "SIP/2.0 200 OK" +:+ crlf +:+ "l: 1" +:+ crlf +:+ "Content-Length: 1" +:+ crlf +:+ crlf +:+ "a"; "SIP/2.0 200 OK" +:+ crlf +:+ "l: +1" +:+ crlf +:+ crlf +:+ "a";
     "SIP/2.0 200 OK" +:+ crlf +:+ "l: 2" +:+ crlf +:+ crlf +:+ "a"; "SIP/2.0 200 OK" +:+ crlf +:+ "a b: 2" +:+ crlf +:+ crlf; "SIP/2.0 200 OK" +:+ crlf +:+ ("To: " +:+ String dquote "x") +:+ crlf +:+ crlf] =
    [Some BareBreak; Some MultipleSp; Some BracketedUri; Some InvalidStatus; Some Repeated; Some InvalidNumber; Some BodyPastEnd; Some NoColon; Some UnterminatedQuote].
Proof. vm_compute. reflexivity. Qed.
