(* ===== verification/BranchMemo.v ===== *)
(** * Front proxy: the branch memo

    [crates/sip-proxy/src/cancel_lru.rs], [cancel_lru/pool.rs],
    [cancel_lru/stripe.rs], [cancel_lru/bounds.rs] and
    [cancel_lru/footprint.rs]: where the INVITE of a CANCEL or an ACK went, and
    where each request went, for its copies.  Each stripe is behind a mutex and
    the totals are moved under it, so an operation on a key is one step; a sweep
    is one step per stripe.  The clock readings are arguments. *)

From S2P Require Import Prelude Retransmit TxnData Texts ProxyTypes.
From stdpp Require Import pretty.
From Stdlib Require Import Ascii.

Open Scope Z_scope.

(** ** Machine sizes *)

(** [usize] is 64 bits wide. *)
Definition usize_MAX : Z := u64_MAX.
Definition sat_add (a b : Z) : Z := Z.min usize_MAX (a + b).
Definition sat_sub (a b : Z) : Z := Z.max 0 (a - b).
Definition sat_mul (a b : Z) : Z := Z.min usize_MAX (a * b).
Arguments sat_add : simpl never.
Arguments sat_sub : simpl never.
Arguments sat_mul : simpl never.
Definition div_ceil (a b : Z) : Z := (a + b - 1) / b.

(** ** Data *)

Record CancelEntry := mkCancelEntry {
  ce_target : ProxyAddr;
  ce_branch : string;
  ce_stickiness : option RouteParams;
  ce_minted : option RouteParams;
  ce_via_cookie : option RouteParams;
}.
#[global] Instance CancelEntry_eq_dec : EqDecision CancelEntry.
Proof. solve_decision. Defined.

Inductive Lifetime := InviteTransaction | Retransmission.

Record Slot := mkSlot { sl_entry : CancelEntry; sl_seq : Z; sl_expires_at_ms : Z; sl_bytes : Z }.

Record Change := mkChange {
  ch_added : Z; ch_removed : Z; ch_bytes_added : Z; ch_bytes_removed : Z; ch_evicted : Z; ch_inspected : Z;
}.
Definition no_change : Change := mkChange 0 0 0 0 0 0.

Record Pool := mkPool {
  pl_table : gmap string Slot;
  pl_by_write : list (Z * string);
  pl_bytes : Z;
  pl_next_seq : Z;
  pl_max_entries : Z;
  pl_max_bytes : Z;
}.
Definition eta_pool (p : Pool) : Pool :=
  mkPool (pl_table p) (pl_by_write p) (pl_bytes p) (pl_next_seq p) (pl_max_entries p) (pl_max_bytes p).
#[global] Instance : Setter pl_table := ltac:(setter eta_pool).
#[global] Instance : Setter pl_by_write := ltac:(setter eta_pool).
#[global] Instance : Setter pl_bytes := ltac:(setter eta_pool).
#[global] Instance : Setter pl_next_seq := ltac:(setter eta_pool).

Definition eta_change (c : Change) : Change :=
  mkChange (ch_added c) (ch_removed c) (ch_bytes_added c) (ch_bytes_removed c) (ch_evicted c) (ch_inspected c).
#[global] Instance : Setter ch_added := ltac:(setter eta_change).
#[global] Instance : Setter ch_removed := ltac:(setter eta_change).
#[global] Instance : Setter ch_bytes_added := ltac:(setter eta_change).
#[global] Instance : Setter ch_bytes_removed := ltac:(setter eta_change).
#[global] Instance : Setter ch_evicted := ltac:(setter eta_change).
#[global] Instance : Setter ch_inspected := ltac:(setter eta_change).

(** What the memo takes from its process: the size the compiler gives a slot of
    the table, and the keyed hash of a key. *)
Class MemoEnv := {
  slot_bytes : Z;
  memo_hash : string -> Z;
}.
Class MemoLaws (E : MemoEnv) := {
  slot_bytes_u32 : 0 <= slot_bytes <= u32_MAX;
  memo_hash_u64 key : in_u64 (memo_hash key);
}.

(** ** Bounds ([bounds.rs]) *)

Definition RTX_ENTRY_TTL_MS : Z := TIMER_F.
Definition INVITE_INITIAL_TIMEOUT : Z := 158000.
Definition invite_entry_ttl_ms (bound_sec : Z) : Z := sat_add (sat_mul bound_sec 1000) TIMER_H.
Definition INVITE_ENTRY_TTL_MS : Z := INVITE_INITIAL_TIMEOUT + TIMER_H.
Definition DEFAULT_MEAN_RING_MS : Z := 30000.
Definition DEFAULT_INVITES_PER_CALL_MILLI : Z := 2000.
Definition DEFAULT_MAX_BYTES : Z := 192 * 2 ^ 20.
Definition TYPICAL_ENTRY_BYTES : Z := 2560.
Definition DEFAULT_MAX_ENTRIES : Z := DEFAULT_MAX_BYTES / TYPICAL_ENTRY_BYTES.
Definition DEFAULT_STRIPES : Z := 16.

Record MemoBounds := mkMemoBounds {
  mb_max_entries : Z; mb_max_bytes : Z; mb_stripes : Z;
  mb_invite_ttl_ms : Z; mb_mean_ring_ms : Z; mb_invites_per_call_milli : Z;
}.
Definition default_bounds : MemoBounds :=
  mkMemoBounds DEFAULT_MAX_ENTRIES DEFAULT_MAX_BYTES DEFAULT_STRIPES INVITE_ENTRY_TTL_MS DEFAULT_MEAN_RING_MS
    DEFAULT_INVITES_PER_CALL_MILLI.

Definition further_invites_milli (b : MemoBounds) : Z := sat_sub (mb_invites_per_call_milli b) DEFAULT_INVITES_PER_CALL_MILLI.
Definition invite_ms_per_call (b : MemoBounds) : Z :=
  sat_add (sat_add (mb_invite_ttl_ms b) (mb_mean_ring_ms b))
    (sat_mul (further_invites_milli b) (mb_invite_ttl_ms b) / 1000).
Definition entry_ms_per_call (b : MemoBounds) : Z :=
  u64_wrap (invite_ms_per_call b + 2 * TIMER_H + 9 * RTX_ENTRY_TTL_MS
            + sat_mul (further_invites_milli b) (TIMER_H + 2 * RTX_ENTRY_TTL_MS) / 1000).
Definition stripe_count (b : MemoBounds) : Z := Z.max 1 (mb_stripes b).

(** [invite_share]; [None] where the division by zero panics. *)
Definition invite_share (b : MemoBounds) (n : Z) : option Z :=
  let whole := entry_ms_per_call b in
  let part := invite_ms_per_call b in
  if whole =? 0 then None
  else Some (sat_add (sat_mul (n / whole) part) (sat_mul (n mod whole) part / whole)).
(** [per_pool]. *)
Definition pool_split (b : MemoBounds) (lifetime : Lifetime) (total : Z) : option Z :=
  let stripe := div_ceil total (stripe_count b) in
  invite ← invite_share b stripe;
  Some (match lifetime with
        | InviteTransaction => Z.max invite 1
        | Retransmission => Z.max (sat_sub stripe invite) 1
        end).
Definition per_pool (b : MemoBounds) (lifetime : Lifetime) : option (Z * Z) :=
  entries ← pool_split b lifetime (mb_max_entries b);
  bytes ← pool_split b lifetime (mb_max_bytes b);
  Some (entries, bytes).
Definition ttl_ms (b : MemoBounds) (lifetime : Lifetime) : Z :=
  match lifetime with InviteTransaction => mb_invite_ttl_ms b | Retransmission => RTX_ENTRY_TTL_MS end.
Definition calls_per_second (b : MemoBounds) : Z :=
  let entries := Z.min (mb_max_entries b) (mb_max_bytes b / TYPICAL_ENTRY_BYTES) in
  let call_seconds := Z.max 1 (entry_ms_per_call b / 1000) in
  sat_mul entries 4 / sat_mul call_seconds 5.

(** ** Footprint ([footprint.rs]) *)

Definition len_of (s : string) : Z := Z.of_nat (String.length s).

(** [allocated]: a size class of the allocator. *)
Definition allocated (n : Z) : Z :=
  if n =? 0 then 0
  else if n <=? 128 then sat_mul (div_ceil n 16) 16
  else let below := Z.log2 (n - 1) in
       let step := Z.shiftl 1 (sat_sub below 2) in
       sat_mul (div_ceil n step) step.

Definition BTREE_CAPACITY : Z := 11.
Definition BTREE_MIN_CELLS : Z := 5.
Definition PARAMS_LEAF_BYTES : Z := 2 * 8 + 2 * BTREE_CAPACITY * 24.
Definition params_bytes (params : option RouteParams) : Z :=
  match params with
  | None | Some [] => 0
  | Some l =>
      let n := Z.of_nat (length l) in
      let nodes := if n <=? BTREE_CAPACITY then 1 else div_ceil n BTREE_MIN_CELLS in
      foldl sat_add (sat_mul nodes (allocated PARAMS_LEAF_BYTES))
        ((fun '(name, value) => sat_add (allocated (len_of name)) (allocated (len_of value))) <$> l)
  end.

Section memo.
Context `{E : MemoEnv}.

Definition INDEX_BYTES_PER_ENTRY : Z := (slot_bytes + 1) * 16 / 7 + (2 * 8 + 11 * (8 + 16)) / 5.
Definition footprint (key : string) (e : CancelEntry) : Z :=
  foldl sat_add 0
    [ allocated (sat_add 16 (len_of key)); allocated (len_of (pa_host (ce_target e)));
      allocated (len_of (ce_branch e)); params_bytes (ce_stickiness e); params_bytes (ce_minted e);
      params_bytes (ce_via_cookie e); INDEX_BYTES_PER_ENTRY ].

(** ** One pool ([pool.rs]) *)

Definition pool_new (max_entries max_bytes : Z) : Pool := mkPool ∅ [] 0 0 max_entries max_bytes.

(** [remove_seq]. *)
Definition remove_seq (seq : Z) (pc : Pool * Change) : Pool * Change :=
  let '(p, c) := pc in
  match bt_get seq (pl_by_write p) with
  | None => (p, c)
  | Some key =>
      let p := p <| pl_by_write ::= bt_remove seq |> in
      match pl_table p !! key with
      | None => (p, c)
      | Some slot =>
          (p <| pl_table ::= delete key |> <| pl_bytes ::= fun b => sat_sub b (sl_bytes slot) |>,
           c <| ch_removed ::= fun n => sat_add n 1 |> <| ch_bytes_removed ::= fun n => sat_add n (sl_bytes slot) |>)
      end
  end.

(** [expire]: a turn of its loop takes the front of the write order; the fuel is
    the length of that order. *)
Fixpoint expire_loop (fuel : nat) (now_ms : Z) (pc : Pool * Change) : Pool * Change :=
  match fuel, pl_by_write pc.1 with
  | S fuel, (seq, key) :: _ =>
      let pc := (pc.1, pc.2 <| ch_inspected ::= fun n => sat_add n 1 |>) in
      if match pl_table pc.1 !! key with Some slot => now_ms <? sl_expires_at_ms slot | None => false end then pc
      else expire_loop fuel now_ms (remove_seq seq pc)
  | _, _ => pc
  end.
Definition pool_expire (now_ms : Z) (pc : Pool * Change) : Pool * Change :=
  expire_loop (length (pl_by_write pc.1)) now_ms pc.

(** [insert]: the write, then the loop that holds the pool to its bounds. *)
Definition over_bound (p : Pool) : bool :=
  (pl_max_entries p <? Z.of_nat (size (pl_table p))) || (pl_max_bytes p <? pl_bytes p).
Fixpoint evict_loop (fuel : nat) (pc : Pool * Change) : Pool * Change :=
  match fuel with
  | S fuel =>
      if over_bound pc.1 then
        match pl_by_write pc.1 with
        | [] => pc
        | (front, _) :: _ =>
            let '(p, c) := remove_seq front pc in
            evict_loop fuel (p, c <| ch_evicted ::= fun n => sat_add n 1 |>)
        end
      else pc
  | O => pc
  end.
Definition pool_write (key : string) (e : CancelEntry) (expires_at_ms : Z) (pc : Pool * Change) : Pool * Change :=
  let '(p, c) := pc in
  let seq := pl_next_seq p in
  let p := p <| pl_next_seq := u64_wrap (seq + 1) |> in
  let bytes := footprint key e in
  let '(p, c) := match pl_table p !! key with
                 | Some slot => remove_seq (sl_seq slot) (p, c)
                 | None => (p, c)
                 end in
  (p <| pl_by_write ::= bt_insert seq key |>
     <| pl_table ::= <[key := mkSlot e seq expires_at_ms bytes]> |>
     <| pl_bytes ::= fun b => sat_add b bytes |>,
   c <| ch_added ::= fun n => sat_add n 1 |> <| ch_bytes_added ::= fun n => sat_add n bytes |>).
Definition pool_insert (key : string) (e : CancelEntry) (expires_at_ms : Z) (pc : Pool * Change) : Pool * Change :=
  let pc := pool_write key e expires_at_ms pc in
  evict_loop (length (pl_by_write pc.1)) pc.

(** [get] and [remove]. *)
Definition pool_get (key : string) (now_ms : Z) (pc : Pool * Change) : option CancelEntry * (Pool * Change) :=
  match pl_table pc.1 !! key with
  | None => (None, pc)
  | Some slot =>
      if now_ms <? sl_expires_at_ms slot then (Some (sl_entry slot), pc)
      else (None, remove_seq (sl_seq slot) pc)
  end.
Definition pool_remove (key : string) (pc : Pool * Change) : Pool * Change :=
  match pl_table pc.1 !! key with Some slot => remove_seq (sl_seq slot) pc | None => pc end.

(** ** One stripe ([stripe.rs]) *)

Record Stripe := mkStripe { st_invite : Pool; st_retransmission : Pool; st_invite_ttl_ms : Z }.

Definition stripe_new (b : MemoBounds) : option Stripe :=
  i ← per_pool b InviteTransaction;
  r ← per_pool b Retransmission;
  Some (mkStripe (pool_new i.1 i.2) (pool_new r.1 r.2) (ttl_ms b InviteTransaction)).

Definition stripe_expire (now_ms : Z) (sc : Stripe * Change) : Stripe * Change :=
  let '(s, c) := sc in
  let '(i, c) := pool_expire now_ms (st_invite s, c) in
  let '(r, c) := pool_expire now_ms (st_retransmission s, c) in
  (mkStripe i r (st_invite_ttl_ms s), c).
Definition stripe_insert (key : string) (e : CancelEntry) (lifetime : Lifetime) (now_ms : Z) (sc : Stripe * Change) : Stripe * Change :=
  let '(s, c) := sc in
  match lifetime with
  | InviteTransaction =>
      let '(other, c) := pool_remove key (st_retransmission s, c) in
      let '(own, c) := pool_expire now_ms (st_invite s, c) in
      let '(own, c) := pool_insert key e (sat_add now_ms (st_invite_ttl_ms s)) (own, c) in
      (mkStripe own other (st_invite_ttl_ms s), c)
  | Retransmission =>
      let '(other, c) := pool_remove key (st_invite s, c) in
      let '(own, c) := pool_expire now_ms (st_retransmission s, c) in
      let '(own, c) := pool_insert key e (sat_add now_ms RTX_ENTRY_TTL_MS) (own, c) in
      (mkStripe other own (st_invite_ttl_ms s), c)
  end.
Definition stripe_get (key : string) (now_ms : Z) (sc : Stripe * Change) : option CancelEntry * (Stripe * Change) :=
  let '(s, c) := sc in
  let '(found, (i, c)) := pool_get key now_ms (st_invite s, c) in
  match found with
  | Some e => (Some e, (mkStripe i (st_retransmission s) (st_invite_ttl_ms s), c))
  | None =>
      let '(found, (r, c)) := pool_get key now_ms (st_retransmission s, c) in
      (found, (mkStripe i r (st_invite_ttl_ms s), c))
  end.
Definition stripe_shorten (key : string) (now_ms : Z) (sc : Stripe * Change) : option CancelEntry * (Stripe * Change) :=
  let '(s, c) := sc in
  let '(found, (i, c)) := pool_get key now_ms (st_invite s, c) in
  let s := mkStripe i (st_retransmission s) (st_invite_ttl_ms s) in
  match found with
  | Some e => (Some e, stripe_insert key e Retransmission now_ms (s, c))
  | None =>
      let '(found, (r, c)) := pool_get key now_ms (st_retransmission s, c) in
      (found, (mkStripe (st_invite s) r (st_invite_ttl_ms s), c))
  end.

(** ** The memo ([cancel_lru.rs]) *)

Record CancelBranchLru := mkLru { lru_stripes : list Stripe; lru_len : Z; lru_bytes : Z; lru_evicted : Z }.

Definition with_bounds (b : MemoBounds) : option CancelBranchLru :=
  s ← stripe_new b;
  Some (mkLru (replicate (Z.to_nat (stripe_count b)) s) 0 0 0).

(** [stripe]: the slot of a key. *)
Definition slot_of (key : string) (m : CancelBranchLru) : nat :=
  Z.to_nat (memo_hash key mod Z.max 1 (Z.of_nat (length (lru_stripes m)))).

(** [account]: the totals are atomics, which wrap. *)
Definition account (c : Change) (m : CancelBranchLru) : CancelBranchLru :=
  mkLru (lru_stripes m)
    (u64_wrap (u64_wrap (lru_len m + ch_added c) - ch_removed c))
    (u64_wrap (u64_wrap (lru_bytes m + ch_bytes_added c) - ch_bytes_removed c))
    (u64_wrap (lru_evicted m + ch_evicted c)).

(** An operation under the lock of stripe [i], then the totals. *)
Definition on_stripe {A} (i : nat) (none : A) (f : Stripe * Change -> A * (Stripe * Change)) (m : CancelBranchLru) : A * CancelBranchLru :=
  match lru_stripes m !! i with
  | None => (none, m)
  | Some s =>
      let '(a, (s, c)) := f (s, no_change) in
      (a, account c (mkLru (<[i := s]> (lru_stripes m)) (lru_len m) (lru_bytes m) (lru_evicted m)))
  end.

Definition remember (key : string) (e : CancelEntry) (lifetime : Lifetime) (now_ms : Z) (m : CancelBranchLru) : CancelBranchLru :=
  (on_stripe (slot_of key m) tt (fun sc => (tt, stripe_insert key e lifetime now_ms sc)) m).2.
Definition lookup_memo (key : string) (now_ms : Z) (m : CancelBranchLru) : option CancelEntry * CancelBranchLru :=
  on_stripe (slot_of key m) None (stripe_get key now_ms) m.
Definition shorten (key : string) (now_ms : Z) (m : CancelBranchLru) : option CancelEntry * CancelBranchLru :=
  on_stripe (slot_of key m) None (stripe_shorten key now_ms) m.

(** [sweep_expired], one stripe of it, and the whole. *)
Definition sweep_stripe (i : nat) (now_ms : Z) (m : CancelBranchLru) : Change * CancelBranchLru :=
  on_stripe i no_change (fun sc => let '(s, c) := stripe_expire now_ms sc in (c, (s, c))) m.
Definition sweep_expired (now_ms : Z) (m : CancelBranchLru) : (Z * Z) * CancelBranchLru :=
  foldl (fun '((removed, inspected), m) i =>
           let '(c, m) := sweep_stripe i now_ms m in
           ((sat_add removed (ch_removed c), sat_add inspected (ch_inspected c)), m))
    ((0, 0), m) (seq 0 (length (lru_stripes m))).

End memo.
#[global] Arguments remove_seq : simpl never.

(** ** Keys *)

(** [SentByRef::write_canonical]. *)
Definition write_canonical (host : string) (port : option Z) : string :=
  let h := lower host in
  ((if has_char ":"%char host then "[" +:+ h +:+ "]" else h) +:+
   match port with Some p => ":" +:+ pretty p | None => "" end)%string.

(** [txn_key] and the keys it makes. *)
Definition txn_key (namespace : list string) (via : Via) (call_id : string) (from_tag : option string) (cseq : Z) : string :=
  (foldr (fun part k => part +:+ "|" +:+ k)
     (default "" (via_branch via) +:+ "|" +:+ write_canonical (via_host via) (via_port via)
      +:+ "|" +:+ call_id +:+ "|" +:+ default "" from_tag +:+ "|" +:+ pretty cseq)
     namespace)%string.
Definition invite_txn_key := txn_key ["inv"].
Definition retransmit_key (via : Via) (call_id : string) (from_tag : option string) (method : string) (cseq : Z) : string :=
  txn_key ["rtx"; method] via call_id from_tag cseq.
Definition ack_hop_key := txn_key ["ackhop"].
