(* ===== verification/BranchMemoInv.v ===== *)
(** * Front proxy: the pools of the branch memo

    The invariant of a pool, and what its loops remove: an expiry pass takes a
    run of expired entries off the front of the write order, an eviction the
    oldest writes past a bound, and each leaves the pool a pool. *)

From S2P Require Import Prelude Retransmit TxnData Texts ProxyTypes BranchMemo.

Open Scope Z_scope.

(** ** Sums *)

Definition sum_bytes (t : gmap string Slot) : Z := map_fold (fun _ sl n => sl_bytes sl + n) 0 t.

Lemma sum_bytes_insert t k sl : t !! k = None -> sum_bytes (<[k := sl]> t) = sl_bytes sl + sum_bytes t.
Proof. intros Hk. unfold sum_bytes. rewrite map_fold_insert_L; [done|lia|done]. Qed.
Lemma sum_bytes_delete t k sl : t !! k = Some sl -> sum_bytes t = sl_bytes sl + sum_bytes (delete k t).
Proof. intros Hk. rewrite <- (sum_bytes_insert (delete k t) k sl) by apply lookup_delete_eq. by rewrite insert_delete_id. Qed.

(** ** A pool without some keys *)

Definition table_minus (X : gset string) (t : gmap string Slot) : gmap string Slot := filter (fun q => q.1 ∉ X) t.
Definition minus (X : gset string) (p : Pool) : Pool :=
  mkPool (table_minus X (pl_table p)) (filter (fun q => q.2 ∉ X) (pl_by_write p))
    (sum_bytes (table_minus X (pl_table p))) (pl_next_seq p) (pl_max_entries p) (pl_max_bytes p).

Lemma lookup_minus X t k : table_minus X t !! k = if decide (k ∈ X) then None else t !! k.
Proof.
  unfold table_minus. rewrite map_lookup_filter. destruct (t !! k) as [sl|] eqn:Hk; simpl; [|by destruct (decide _)].
  destruct (decide (k ∈ X)); [by rewrite option_guard_False by tauto|by rewrite option_guard_True].
Qed.
Lemma table_minus_one k t : table_minus {[k]} t = delete k t.
Proof.
  apply map_eq. intros k'. rewrite lookup_minus. destruct (decide (k' ∈ {[k]})) as [H|H].
  - apply elem_of_singleton in H as ->. by rewrite lookup_delete_eq.
  - rewrite lookup_delete_ne; [done|]. set_solver.
Qed.
Lemma minus_minus X Y p : minus X (minus Y p) = minus (X ∪ Y) p.
Proof.
  assert (table_minus X (table_minus Y (pl_table p)) = table_minus (X ∪ Y) (pl_table p)) as Ht.
  { apply map_eq. intros k. rewrite !lookup_minus. destruct (decide (k ∈ X)), (decide (k ∈ Y)), (decide (k ∈ X ∪ Y)); done || set_solver. }
  unfold minus. simpl. rewrite Ht. f_equal. rewrite list_filter_filter. apply list_filter_iff. set_solver.
Qed.

Section pool.
Context `{E : MemoEnv} {W : MemoLaws E}.

Record pool_ok (p : Pool) : Prop := {
  po_sorted : keys_sorted (pl_by_write p);
  po_entry c k : (c, k) ∈ pl_by_write p <-> exists sl, pl_table p !! k = Some sl /\ sl_seq sl = c;
  po_bytes : pl_bytes p = sum_bytes (pl_table p);
  po_slot k sl : pl_table p !! k = Some sl -> 0 <= sl_seq sl < pl_next_seq p /\ sl_bytes sl = footprint k (sl_entry sl);
}.

Lemma sat_add_exact a b : 0 <= a + b <= usize_MAX -> sat_add a b = a + b.
Proof. unfold sat_add. lia. Qed.
Lemma sat_add_range a b : 0 <= a -> 0 <= b -> 0 <= sat_add a b <= usize_MAX.
Proof. unfold sat_add, usize_MAX, u64_MAX. lia. Qed.

Lemma sum_bytes_nonneg t : (forall k sl, t !! k = Some sl -> 0 <= sl_bytes sl) -> 0 <= sum_bytes t.
Proof.
  induction t as [|k sl t Hk IH] using map_ind; [done|]. intros H. rewrite sum_bytes_insert by done.
  pose proof (H k sl (lookup_insert_eq _ _ _)). enough (0 <= sum_bytes t) by lia. apply IH. intros k' sl' Hk'.
  apply (H k' sl'). rewrite lookup_insert_ne; [done|congruence].
Qed.


(** ** Footprints *)

Lemma sat_mul_range a b : 0 <= a -> 0 <= b -> 0 <= sat_mul a b <= usize_MAX.
Proof. unfold sat_mul, usize_MAX, u64_MAX. intros. pose proof (Z.mul_nonneg_nonneg a b). lia. Qed.
Lemma div_ceil_nonneg a b : 0 <= a -> 0 < b -> 0 <= div_ceil a b.
Proof. intros. apply Z.div_pos; lia. Qed.
Lemma allocated_range n : 0 <= n -> 0 <= allocated n <= usize_MAX.
Proof.
  intros Hn. unfold allocated. destruct (Z.eqb_spec n 0); [done|]. destruct (Z.leb_spec n 128).
  - apply sat_mul_range; [apply div_ceil_nonneg|]; lia.
  - assert (0 < Z.shiftl 1 (sat_sub (Z.log2 (n - 1)) 2)) as Hs.
    { rewrite Z.shiftl_1_l. apply Z.pow_pos_nonneg; [lia|]. unfold sat_sub. lia. }
    apply sat_mul_range; [apply div_ceil_nonneg|]; lia.
Qed.
Lemma foldl_sat_range l a : 0 <= a <= usize_MAX -> Forall (fun n => 0 <= n) l -> 0 <= foldl sat_add a l <= usize_MAX.
Proof.
  intros Ha Hl. revert a Ha. induction Hl as [|n l Hn _ IH]; intros a Ha; [done|]. simpl. apply IH, sat_add_range; lia.
Qed.
Lemma params_bytes_range ps : 0 <= params_bytes ps <= usize_MAX.
Proof.
  unfold params_bytes. destruct ps as [[|q l]|]; [done| |done]. apply foldl_sat_range.
  - apply sat_mul_range; [|apply allocated_range; done]. destruct (_ <=? _); [lia|]. apply div_ceil_nonneg; unfold BTREE_MIN_CELLS; lia.
  - apply Forall_fmap, Forall_forall. intros [name value] _. simpl. apply sat_add_range; apply allocated_range; unfold len_of; lia.
Qed.
Lemma footprint_range key e : 0 <= footprint key e <= usize_MAX.
Proof.
  unfold footprint. apply foldl_sat_range; [done|]. repeat constructor; try apply params_bytes_range;
    try (apply allocated_range; unfold len_of; first [lia|apply sat_add_range; lia]).
  unfold INDEX_BYTES_PER_ENTRY. pose proof slot_bytes_u32. assert (0 <= (slot_bytes + 1) * 16 / 7) by (apply Z.div_pos; lia).
  change ((2 * 8 + 11 * (8 + 16)) / 5) with 56. lia.
Qed.

(** ** Removals *)

Lemma pool_bytes_nonneg p : pool_ok p -> 0 <= pl_bytes p.
Proof.
  intros Hp. rewrite (po_bytes p Hp). apply sum_bytes_nonneg. intros k sl Hk. apply (po_slot p Hp) in Hk as [_ ->]. apply footprint_range.
Qed.
Lemma slot_le_bytes p k sl : pool_ok p -> pl_table p !! k = Some sl -> 0 <= sl_bytes sl <= pl_bytes p.
Proof.
  intros Hp Hk. rewrite (po_bytes p Hp), (sum_bytes_delete _ k sl) by done. split.
  - apply (po_slot p Hp) in Hk as [_ ->]. apply footprint_range.
  - enough (0 <= sum_bytes (delete k (pl_table p))) by lia. apply sum_bytes_nonneg. intros k' sl' Hk'.
    apply lookup_delete_Some in Hk' as [_ Hk']. apply (po_slot p Hp) in Hk' as [_ ->]. apply footprint_range.
Qed.

Lemma minus_one p k sl :
  pool_ok p -> pl_table p !! k = Some sl ->
  filter (fun q => q.2 ∉ ({[k]} : gset string)) (pl_by_write p) = bt_remove (sl_seq sl) (pl_by_write p).
Proof.
  intros Hp Hk. unfold bt_remove. apply filter_ext_in. intros [c k'] Hin. simpl.
  apply (po_entry p Hp) in Hin as (sl' & Hk' & <-). rewrite not_elem_of_singleton. split; intros Hne Heq; apply Hne.
  - assert ((sl_seq sl, k) ∈ pl_by_write p) as H1 by (apply (po_entry p Hp); eauto).
    assert ((sl_seq sl', k') ∈ pl_by_write p) as H2 by (apply (po_entry p Hp); eauto).
    rewrite Heq in H2. by apply (keys_unique _ _ _ _ (po_sorted p Hp) H2 H1).
  - congruence.
Qed.

Lemma sorted_keys_NoDup {A} (m : list (Z * A)) : keys_sorted m -> NoDup m.
Proof.
  induction 1 as [|q m _ IH Hq]; constructor; [|done]. intros Hin. rewrite Forall_forall in Hq. apply Hq in Hin. lia.
Qed.
Lemma pool_size p : pool_ok p -> size (pl_table p) = length (pl_by_write p).
Proof.
  intros Hp. rewrite <- (length_fmap snd (pl_by_write p)), <- size_dom.
  assert (NoDup (pl_by_write p).*2) as Hn.
  { apply NoDup_fmap_2_strong; [|apply sorted_keys_NoDup, Hp]. intros [c k] [c' k'] H1 H2 Heq. simpl in Heq. subst k'.
    apply (po_entry p Hp) in H1 as (sl & Hk & <-). apply (po_entry p Hp) in H2 as (sl' & Hk' & <-). congruence. }
  rewrite <- (size_list_to_set (C := gset string) _ Hn). f_equal. apply set_eq. intros k.
  rewrite elem_of_list_to_set, elem_of_dom, list_elem_of_fmap. split.
  - intros [sl Hk]. exists (sl_seq sl, k). split; [done|]. apply (po_entry p Hp). eauto.
  - intros ([c k'] & -> & Hin). apply (po_entry p Hp) in Hin as (sl & Hk & _). eauto.
Qed.

Lemma pool_ok_minus X p : pool_ok p -> pool_ok (minus X p).
Proof.
  intros Hp. split; simpl.
  - apply sorted_filter, Hp.
  - intros c k. rewrite list_elem_of_filter, lookup_minus, (po_entry p Hp). simpl. destruct (decide (k ∈ X)); [|tauto].
    split; [tauto|]. by intros (sl & ? & _).
  - done.
  - intros k sl. rewrite lookup_minus. destruct (decide (k ∈ X)); [done|]. apply Hp.
Qed.

(** What left a pool is in the books: of the entries and their bytes. *)
Record books (pc pc' : Pool * Change) : Prop := {
  bk_removed : ch_removed pc'.2 + Z.of_nat (size (pl_table pc'.1)) = ch_removed pc.2 + Z.of_nat (size (pl_table pc.1));
  bk_bytes : ch_bytes_removed pc'.2 + pl_bytes pc'.1 = ch_bytes_removed pc.2 + pl_bytes pc.1;
  bk_added : ch_added pc'.2 = ch_added pc.2;
  bk_bytes_added : ch_bytes_added pc'.2 = ch_bytes_added pc.2;
}.
Lemma books_refl pc : books pc pc.
Proof. by split. Qed.
Lemma books_trans pc1 pc2 pc3 : books pc1 pc2 -> books pc2 pc3 -> books pc1 pc3.
Proof. intros [] []. split; congruence. Qed.

(** The counters have room for what the pool holds. *)
Definition room (pc : Pool * Change) : Prop :=
  0 <= ch_removed pc.2 /\ ch_removed pc.2 + Z.of_nat (size (pl_table pc.1)) <= usize_MAX /\
  0 <= ch_bytes_removed pc.2 /\ ch_bytes_removed pc.2 + pl_bytes pc.1 <= usize_MAX.

Lemma remove_seq_spec p c k sl :
  pool_ok p -> room (p, c) -> pl_table p !! k = Some sl ->
  let pc := remove_seq (sl_seq sl) (p, c) in
  pc.1 = minus {[k]} p /\ books (p, c) pc /\ room pc /\
  ch_evicted pc.2 = ch_evicted c /\ ch_inspected pc.2 = ch_inspected c.
Proof.
  intros Hp Hr Hk. unfold remove_seq. rewrite (bt_get_elem _ k) by (first [exact (po_sorted p Hp)|apply (po_entry p Hp); eauto]).
  change (pl_table (p <| pl_by_write ::= bt_remove (sl_seq sl) |>)) with (pl_table p). rewrite Hk. cbn [fst snd].
  pose proof (slot_le_bytes p k sl Hp Hk) as Hb. pose proof (sum_bytes_delete _ k sl Hk) as Hs.
  pose proof (po_bytes p Hp) as Hpb. destruct Hr as (R1 & R2 & R3 & R4). simpl in R1, R2, R3, R4.
  assert (size (pl_table p) = S (size (delete k (pl_table p)))) as Hz.
  { rewrite <- (insert_delete_id (pl_table p) k sl) at 1 by done. rewrite map_size_insert_None; [done|]. apply lookup_delete_eq. }
  assert (sat_sub (pl_bytes p) (sl_bytes sl) = sum_bytes (delete k (pl_table p))) as Hsub by (unfold sat_sub; lia).
  assert (0 <= sum_bytes (delete k (pl_table p))) as Hn by (unfold sat_sub in Hsub; lia).
  assert (p <| pl_by_write ::= bt_remove (sl_seq sl) |> <| pl_table ::= delete k |>
            <| pl_bytes ::= fun b => sat_sub b (sl_bytes sl) |> = minus {[k]} p) as ->.
  { unfold minus. rewrite table_minus_one, (minus_one p k sl Hp Hk). rewrite <- Hsub. reflexivity. }
  assert (sat_add (ch_removed c) 1 = ch_removed c + 1) as A1 by (apply sat_add_exact; lia).
  assert (sat_add (ch_bytes_removed c) (sl_bytes sl) = ch_bytes_removed c + sl_bytes sl) as A2 by (apply sat_add_exact; lia).
  split; [done|]. split; [split; simpl; rewrite ?table_minus_one; first [reflexivity|lia]|].
  split; [|done]. unfold room. simpl. rewrite table_minus_one. lia.
Qed.

Lemma minus_empty p : pool_ok p -> minus ∅ p = p.
Proof.
  intros Hp. assert (table_minus ∅ (pl_table p) = pl_table p) as Ht.
  { apply map_eq. intros k. rewrite lookup_minus. destruct (decide _); [set_solver|done]. }
  unfold minus. rewrite Ht, <- (po_bytes p Hp), filter_all by (intros; set_solver). by destruct p.
Qed.
Lemma front p c k m : pool_ok p -> pl_by_write p = (c, k) :: m -> exists sl, pl_table p !! k = Some sl /\ sl_seq sl = c.
Proof. intros Hp Hm. apply (po_entry p Hp). rewrite Hm. by left. Qed.
Lemma minus_front p c k m :
  pool_ok p -> pl_by_write p = (c, k) :: m -> pl_by_write (minus {[k]} p) = m.
Proof.
  intros Hp Hm. destruct (front p c k m Hp Hm) as (sl & Hk & Hc). cbn [minus pl_by_write].
  rewrite (minus_one p k sl Hp Hk), Hc, Hm. apply (bt_remove_head c k). rewrite <- Hm. apply Hp.
Qed.
Lemma size_minus X p : pool_ok p -> X ⊆ dom (pl_table p) ->
  size (pl_table p) = (size (pl_table (minus X p)) + size X)%nat.
Proof.
  intros Hp HX. simpl. rewrite <- !size_dom. assert (dom (table_minus X (pl_table p)) = dom (pl_table p) ∖ X) as ->.
  { apply set_eq. intros k. rewrite elem_of_difference, !elem_of_dom, lookup_minus. destruct (decide (k ∈ X)); [|tauto].
    split; [by intros []|tauto]. }
  rewrite size_difference by done. apply subseteq_size in HX. rewrite size_dom in *. lia.
Qed.

Lemma expire_loop_spec now fuel p c :
  pool_ok p -> room (p, c) -> (length (pl_by_write p) <= fuel)%nat ->
  0 <= ch_inspected c -> ch_inspected c + Z.of_nat (length (pl_by_write p)) <= usize_MAX ->
  let pc := expire_loop fuel now (p, c) in
  exists X, pc.1 = minus X p /\ books (p, c) pc /\ room pc /\ ch_evicted pc.2 = ch_evicted c /\
    (forall k, k ∈ X -> exists sl, pl_table p !! k = Some sl /\ sl_expires_at_ms sl <= now) /\
    ch_inspected pc.2 = ch_inspected c + Z.of_nat (size X) + (if decide (pl_by_write pc.1 = []) then 0 else 1) /\
    match pl_by_write pc.1 with
    | [] => True
    | (_, k) :: _ => exists sl, pl_table pc.1 !! k = Some sl /\ now < sl_expires_at_ms sl
    end.
Proof.
  revert p c. induction fuel as [|fuel IH]; intros p c Hp Hr Hf H0 Hi; simpl.
  { destruct (pl_by_write p) eqn:Hm; [|simpl in Hf; lia]. exists ∅. rewrite minus_empty by done.
    rewrite size_empty, decide_True by done. split_and!; first [done|exact Hr|apply books_refl|lia|set_solver]. }
  destruct (pl_by_write p) as [|[seq k] m] eqn:Hm.
  { exists ∅. rewrite minus_empty by done. cbn [fst snd]. rewrite Hm, size_empty, decide_True by done.
    split_and!; first [done|exact Hr|apply books_refl|lia|set_solver]. }
  destruct (front p seq k m Hp Hm) as (sl & Hk & <-). cbn [fst snd]. rewrite Hk.
  simpl length in *.
  assert (sat_add (ch_inspected c) 1 = ch_inspected c + 1) as A1 by (apply sat_add_exact; lia).
  destruct (Z.ltb_spec now (sl_expires_at_ms sl)).
  { exists ∅. rewrite minus_empty by done. cbn [fst snd]. rewrite Hm, size_empty, decide_False by done.
    split_and!; first [done|exact Hr|by split|simpl; lia|by eauto|set_solver]. }
  set (c1 := c <| ch_inspected ::= fun n => sat_add n 1 |>).
  destruct (remove_seq_spec p c1 k sl Hp Hr Hk) as (Q1 & Q2 & Q3 & Q4 & Q5).
  destruct (remove_seq (sl_seq sl) (p, c1)) as [p1 c2]. cbn [fst snd] in *. subst p1.
  pose proof (pool_ok_minus {[k]} p Hp) as Hp1.
  destruct (IH (minus {[k]} p) c2) as (X & P1 & P2 & P3 & P4 & P5 & P6 & P7).
  - done.
  - done.
  - rewrite (minus_front p _ k m Hp Hm). lia.
  - rewrite Q5. simpl. lia.
  - rewrite (minus_front p _ k m Hp Hm), Q5. simpl. lia.
  - exists (X ∪ {[k]}). rewrite <- minus_minus. split; [done|]. split; [destruct (books_trans _ _ _ Q2 P2); by split|].
    split; [done|]. split; [rewrite P4, Q4; done|]. assert (k ∉ X) as HkX.
    { intros (sl' & Hk' & _)%P5. simpl in Hk'. rewrite lookup_minus, decide_True in Hk' by set_solver. done. }
    split; [|split; [|done]].
    + intros k' [Hk'|Hk']%elem_of_union.
      * apply P5 in Hk' as (sl' & Hk' & He). exists sl'. simpl in Hk'. rewrite lookup_minus in Hk'. destruct (decide (k' ∈ {[k]})); [done|]. by split.
      * apply elem_of_singleton in Hk' as ->. eauto.
    + rewrite P6, Q5, size_union, size_singleton by set_solver. simpl. lia.
Qed.

Lemma pool_empty p : pool_ok p -> pl_by_write p = [] -> 0 <= pl_max_entries p -> 0 <= pl_max_bytes p -> over_bound p = false.
Proof.
  intros Hp Hm He Hb. pose proof (pool_size p Hp) as Hs. rewrite Hm in Hs. simpl in Hs. apply map_size_empty_inv in Hs.
  unfold over_bound. rewrite (po_bytes p Hp), Hs. change (sum_bytes ∅) with 0.
  apply orb_false_iff. split; apply Z.ltb_ge; [rewrite map_size_empty|]; lia.
Qed.

Lemma evict_loop_spec fuel p c :
  pool_ok p -> room (p, c) -> (length (pl_by_write p) <= fuel)%nat ->
  0 <= pl_max_entries p -> 0 <= pl_max_bytes p ->
  0 <= ch_evicted c -> ch_evicted c + Z.of_nat (length (pl_by_write p)) <= usize_MAX ->
  let pc := evict_loop fuel (p, c) in
  exists X, pc.1 = minus X p /\ books (p, c) pc /\ room pc /\ ch_inspected pc.2 = ch_inspected c /\
    X ⊆ dom (pl_table p) /\ ch_evicted pc.2 = ch_evicted c + Z.of_nat (size X) /\ over_bound pc.1 = false /\
    (forall k sl k' sl', k ∈ X -> k' ∉ X -> pl_table p !! k = Some sl -> pl_table p !! k' = Some sl' -> sl_seq sl < sl_seq sl').
Proof.
  revert p c. induction fuel as [|fuel IH]; intros p c Hp Hr Hf He Hb H0 Hi; simpl.
  { destruct (pl_by_write p) eqn:Hm; [|simpl in Hf; lia]. exists ∅. rewrite minus_empty by done.
    rewrite size_empty. split_and!; first [done|exact Hr|by split|lia|by apply pool_empty|set_solver]. }
  destruct (over_bound p) eqn:Ho.
  2: { exists ∅. rewrite minus_empty by done. rewrite size_empty. split_and!; first [done|exact Hr|by split|simpl; lia|set_solver]. }
  destruct (pl_by_write p) as [|[seq k] m] eqn:Hm; [by rewrite pool_empty in Ho|].
  destruct (front p seq k m Hp Hm) as (sl & Hk & <-). simpl length in *.
  destruct (remove_seq_spec p c k sl Hp Hr Hk) as (Q1 & Q2 & Q3 & Q4 & Q5).
  destruct (remove_seq (sl_seq sl) (p, c)) as [p1 c1]. cbn [fst snd] in *. subst p1.
  assert (sat_add (ch_evicted c1) 1 = ch_evicted c + 1) as A1 by (rewrite Q4; apply sat_add_exact; lia).
  set (c2 := c1 <| ch_evicted ::= fun n => sat_add n 1 |>).
  assert (books (p, c) (minus {[k]} p, c2)) as Q2' by (destruct Q2; by split).
  pose proof (pool_ok_minus {[k]} p Hp) as Hp1.
  destruct (IH (minus {[k]} p) c2) as (X & P1 & P2 & P3 & P4 & P5 & P6 & P7 & P8); try done.
  - rewrite (minus_front p _ k m Hp Hm). lia.
  - simpl. lia.
  - rewrite (minus_front p _ k m Hp Hm). simpl. lia.
  - assert (X ⊆ dom (pl_table p) ∖ {[k]}) as HX.
    { intros k' Hk'. apply P5 in Hk'. apply elem_of_dom in Hk' as [sl' Hk']. simpl in Hk'. rewrite lookup_minus in Hk'.
      destruct (decide _); [done|]. apply elem_of_difference. split; [by apply elem_of_dom|done]. }
    exists (X ∪ {[k]}). rewrite <- minus_minus. split_and!; try done.
    + by apply (books_trans _ _ _ Q2').
    + rewrite P4. exact Q5.
    + intros k' [Hk'|Hk']%elem_of_union; [set_solver|]. apply elem_of_singleton in Hk' as ->. by apply elem_of_dom.
    + rewrite P6, size_union, size_singleton by set_solver. simpl. lia.
    + intros k1 sl1 k2 sl2 H1 H2 T1 T2. apply not_elem_of_union in H2 as [H2 H2'].
      assert (pl_table (minus {[k]} p) !! k2 = Some sl2) as T2' by (simpl; by rewrite lookup_minus, decide_False).
      apply elem_of_union in H1 as [H1|H1].
      * apply (P8 k1 sl1 k2 sl2); try done. simpl. rewrite lookup_minus, decide_False by set_solver. done.
      * apply elem_of_singleton in H1 as ->. simplify_eq. pose proof (po_sorted p Hp) as Hs. rewrite Hm in Hs.
        apply StronglySorted_inv in Hs as [_ Hs]. rewrite Forall_forall in Hs.
        assert ((sl_seq sl2, k2) ∈ m) as Hin.
        { rewrite <- (minus_front p _ k m Hp Hm). apply (po_entry _ Hp1). eauto. }
        apply Hs in Hin. done.
Qed.

(** ** Operations on a pool *)

Definition LIMIT : Z := 2 ^ 60.

(** A pool within its bounds, which leave the counters room. *)
Record pool_fine (p : Pool) : Prop := {
  pf_ok : pool_ok p;
  pf_entries : 0 <= pl_max_entries p <= LIMIT;
  pf_max_bytes : 0 <= pl_max_bytes p <= LIMIT;
  pf_within : over_bound p = false;
}.
Lemma pool_within p : pool_fine p -> Z.of_nat (size (pl_table p)) <= pl_max_entries p /\ pl_bytes p <= pl_max_bytes p.
Proof.
  intros Hp. pose proof (pf_within p Hp) as H. unfold over_bound in H. apply orb_false_iff in H as [H1%Z.ltb_ge H2%Z.ltb_ge]. done.
Qed.

Definition small (j : Z) (c : Change) : Prop :=
  let ok n := 0 <= n <= j * (2 * LIMIT) in
  ok (ch_added c) /\ ok (ch_removed c) /\ ok (ch_bytes_added c) /\ ok (ch_bytes_removed c) /\ ok (ch_evicted c) /\
  ok (ch_inspected c).

(** What an operation of [writes] writes does to a pool and its books; [cost]
    bounds what it adds to them. *)
Record step (writes cost : Z) (pc pc' : Pool * Change) : Prop := {
  st_fine : pool_fine pc'.1;
  st_max : pl_max_entries pc'.1 = pl_max_entries pc.1 /\ pl_max_bytes pc'.1 = pl_max_bytes pc.1;
  st_seq : pl_next_seq pc'.1 = pl_next_seq pc.1 + writes;
  st_net : ch_added pc'.2 - ch_removed pc'.2 - Z.of_nat (size (pl_table pc'.1)) =
           ch_added pc.2 - ch_removed pc.2 - Z.of_nat (size (pl_table pc.1));
  st_net_bytes : ch_bytes_added pc'.2 - ch_bytes_removed pc'.2 - pl_bytes pc'.1 =
                 ch_bytes_added pc.2 - ch_bytes_removed pc.2 - pl_bytes pc.1;
  st_added : ch_added pc'.2 = ch_added pc.2 + writes;
  st_evicted : ch_evicted pc.2 <= ch_evicted pc'.2 <= ch_evicted pc.2 + (ch_removed pc'.2 - ch_removed pc.2);
  st_small j : small j pc.2 -> small (j + cost) pc'.2;
}.

Lemma room_small p c j : pool_fine p -> small j c -> j <= 5 -> room (p, c).
Proof.
  intros Hp (_ & H1 & _ & H2 & _) Hj. pose proof (pool_within p Hp) as [W1 W2]. pose proof (pf_entries p Hp). pose proof (pf_max_bytes p Hp).
  unfold room, LIMIT, usize_MAX, u64_MAX in *. simpl. lia.
Qed.
Lemma minus_bytes_le X p : pool_ok p -> pl_bytes (minus X p) <= pl_bytes p.
Proof.
  intros Hp. rewrite (po_bytes p Hp). pose proof (po_slot p Hp) as Hs. revert Hs. simpl. generalize (pl_table p). intros t.
  induction t as [|k sl t Hk IH] using map_ind; intros Hs; [done|].
  assert (0 <= sl_bytes sl) as Hb by (destruct (Hs k sl (lookup_insert_eq _ _ _)) as [_ ->]; apply footprint_range).
  rewrite (sum_bytes_insert t) by done.
  assert (forall k' sl', t !! k' = Some sl' -> (<[k := sl]> t) !! k' = Some sl') as Hin
    by (intros k' sl' Hk'; rewrite lookup_insert_ne; [done|congruence]).
  specialize (IH (fun k' sl' H => Hs k' sl' (Hin _ _ H))). unfold table_minus in *. destruct (decide (k ∈ X)).
  - rewrite map_filter_insert_False, map_filter_delete_not by (first [simpl; tauto|intros; simplify_eq]). lia.
  - rewrite map_filter_insert_True by done. rewrite sum_bytes_insert; [lia|]. rewrite map_lookup_filter, Hk. done.
Qed.
Lemma fine_minus X p : pool_fine p -> pool_fine (minus X p).
Proof.
  intros Hp. split; [apply pool_ok_minus, Hp|apply Hp..|]. unfold over_bound. simpl. pose proof (pool_within p Hp) as [W1 W2].
  assert (size (table_minus X (pl_table p)) <= size (pl_table p))%nat as H1 by (apply map_subseteq_size, map_filter_subseteq).
  pose proof (minus_bytes_le X p (pf_ok p Hp)) as H2. simpl in H2.
  apply orb_false_iff. split; apply Z.ltb_ge; lia.
Qed.

Lemma step_minus X p c pc' n :
  pool_fine p -> pc'.1 = minus X p -> books (p, c) pc' -> ch_evicted c <= ch_evicted pc'.2 <= ch_evicted c + (ch_removed pc'.2 - ch_removed c) ->
  (ch_inspected c <= ch_inspected pc'.2 <= ch_inspected c + n) -> n <= 2 * LIMIT ->
  step 0 1 (p, c) pc'.
Proof.
  intros Hp H1 [B1 B2 B3 B4] He Hi Hn. simpl in *. pose proof (fine_minus X p Hp) as Hm. rewrite <- H1 in Hm.
  pose proof (pool_within p Hp) as [W1 W2]. pose proof (pool_within _ Hm) as [W3 W4].
  pose proof (pool_bytes_nonneg _ (pf_ok _ Hm)) as Hb.
  pose proof (pf_entries p Hp) as L1. pose proof (pf_max_bytes p Hp) as L2.
  assert (pl_bytes pc'.1 <= pl_bytes p /\ (size (pl_table pc'.1) <= size (pl_table p))%nat) as [S1 S2].
  { rewrite H1. split; [apply minus_bytes_le, Hp|apply map_subseteq_size, map_filter_subseteq]. }
  split; try done.
  - by rewrite H1.
  - rewrite H1. simpl. lia.
  - simpl. lia.
  - simpl. lia.
  - simpl. lia.
  - simpl. intros j (C1 & C2 & C3 & C4 & C5 & C6). unfold small. rewrite B3, B4. unfold LIMIT in *. split_and!; lia.
Qed.

Lemma step_trans a b m n pc1 pc2 pc3 : step a m pc1 pc2 -> step b n pc2 pc3 -> step (a + b) (m + n) pc1 pc3.
Proof.
  intros [F1 [M1 M1'] S1 N1 B1 A1 E1 Z1] [F2 [M2 M2'] S2 N2 B2 A2 E2 Z2].
  split; [done|split; congruence|lia|lia|lia|lia|lia|]. intros j H. rewrite Z.add_assoc. by apply Z2, Z1.
Qed.

Lemma step_expire now p c j :
  pool_fine p -> small j c -> j <= 5 ->
  let pc := pool_expire now (p, c) in
  step 0 1 (p, c) pc /\ ch_evicted pc.2 = ch_evicted c /\
  exists X, pc.1 = minus X p /\
    (forall k, k ∈ X -> exists sl, pl_table p !! k = Some sl /\ sl_expires_at_ms sl <= now) /\
    ch_inspected pc.2 <= ch_inspected c + (ch_removed pc.2 - ch_removed c) + 1 /\
    match pl_by_write pc.1 with
    | [] => True
    | (_, k) :: _ => exists sl, pl_table pc.1 !! k = Some sl /\ now < sl_expires_at_ms sl
    end.
Proof.
  intros Hp Hs Hj. pose proof (pool_within p Hp) as [W1 W2]. pose proof (pf_entries p Hp) as L1.
  pose proof (pool_size p (pf_ok p Hp)) as Hz. pose proof (room_small p c j Hp Hs Hj) as Hr. destruct Hs as (_ & _ & _ & _ & _ & C6).
  destruct (expire_loop_spec now (length (pl_by_write p)) p c) as (X & P1 & P2 & P3 & P4 & P5 & P6 & P7);
    [apply Hp|done|done|lia|unfold usize_MAX, u64_MAX, LIMIT in *; lia|].
  fold (pool_expire now (p, c)) in P1, P2, P3, P4, P6, P7.
  assert (X ⊆ dom (pl_table p)) as HX by (intros k (sl & Hk & _)%P5; by apply elem_of_dom).
  pose proof (size_minus X p (pf_ok p Hp) HX) as HsX. rewrite <- P1 in HsX. pose proof (bk_removed _ _ P2) as R. simpl in R.
  change (pool_expire now (p, c)) with (expire_loop (length (pl_by_write p)) now (p, c)).
  set (pc := expire_loop _ now (p, c)) in *. change (pool_expire now (p, c)) with pc in *.
  split; [|split; [done|]].
  - apply (step_minus X p c pc (Z.of_nat (size X) + 1)); [done..|lia| |unfold LIMIT in *; lia].
    rewrite P6. destruct (decide (pl_by_write pc.1 = [])); lia.
  - exists X. split_and!; try done. rewrite P6. destruct (decide (pl_by_write pc.1 = [])); lia.
Qed.

Lemma step_refl p c : pool_fine p -> (forall j, small j c -> small (j + 1) c) -> step 0 1 (p, c) (p, c).
Proof. intros Hp Hs. split; simpl; try done; lia. Qed.
Lemma small_mono j j' c : j <= j' -> small j c -> small j' c.
Proof. intros Hj (C1 & C2 & C3 & C4 & C5 & C6). unfold small, LIMIT in *. split_and!; lia. Qed.

Lemma minus_absent p k : pool_ok p -> pl_table p !! k = None -> minus {[k]} p = p.
Proof.
  intros Hp Hk. rewrite <- (minus_empty p Hp) at 2.
  assert (table_minus {[k]} (pl_table p) = table_minus ∅ (pl_table p)) as Ht.
  { apply map_eq. intros k'. rewrite !lookup_minus, (decide_False (P := k' ∈ ∅)) by set_solver.
    destruct (decide (k' ∈ {[k]})) as [->%elem_of_singleton|]; done. }
  unfold minus. rewrite Ht. f_equal. apply filter_ext_in. intros [c' k'] Hin. apply (po_entry p Hp) in Hin as (sl & Hk' & _).
  simpl. split; [set_solver|]. intros _ ->%elem_of_singleton. congruence.
Qed.
Lemma pool_remove_spec p c k :
  pool_ok p -> room (p, c) ->
  let pc := pool_remove k (p, c) in
  pc.1 = minus {[k]} p /\ books (p, c) pc /\ room pc /\ ch_evicted pc.2 = ch_evicted c /\ ch_inspected pc.2 = ch_inspected c.
Proof.
  intros Hp Hr. unfold pool_remove. simpl. destruct (pl_table p !! k) as [sl|] eqn:Hk; [by apply remove_seq_spec|].
  rewrite minus_absent by done. split_and!; first [done|exact Hr|apply books_refl].
Qed.
Lemma step_remove p c k j :
  pool_fine p -> small j c -> j <= 5 ->
  let pc := pool_remove k (p, c) in step 0 1 (p, c) pc /\ ch_evicted pc.2 = ch_evicted c /\ pc.1 = minus {[k]} p.
Proof.
  intros Hp Hs Hj pc. destruct (pool_remove_spec p c k) as (Q1 & Q2 & Q3 & Q4 & Q5); [apply Hp|by apply (room_small p c j)|].
  fold pc in Q1, Q2, Q3, Q4, Q5. split; [|done]. pose proof (bk_removed _ _ Q2) as R. simpl in R. rewrite Q1 in R.
  assert (size (pl_table (minus {[k]} p)) <= size (pl_table p))%nat by apply map_subseteq_size, map_filter_subseteq.
  apply (step_minus {[k]} p c _ 0); [done..|lia|lia|unfold LIMIT; lia].
Qed.

Lemma step_get p c k now j :
  pool_fine p -> small j c -> j <= 5 ->
  let r := pool_get k now (p, c) in
  step 0 1 (p, c) r.2 /\ ch_evicted r.2.2 = ch_evicted c /\
  match pl_table p !! k with
  | Some sl => if now <? sl_expires_at_ms sl then r = (Some (sl_entry sl), (p, c)) else r.1 = None /\ r.2.1 = minus {[k]} p
  | None => r = (None, (p, c))
  end.
Proof.
  intros Hp Hs Hj. unfold pool_get. simpl. assert (step 0 1 (p, c) (p, c)) as H0 by (apply step_refl; [done|intros j'; apply small_mono; lia]).
  destruct (pl_table p !! k) as [sl|] eqn:Hk; [|done]. destruct (now <? _); [done|]. simpl.
  destruct (step_remove p c k j Hp Hs Hj) as (S1 & S2 & S3). unfold pool_remove in S1, S2, S3. simpl in S1, S2, S3.
  rewrite Hk in S1, S2, S3. done.
Qed.

(** The write itself, before the pool is held to its bounds. *)
Lemma put_ok p k sl :
  pool_ok p -> pl_table p !! k = None -> sl_bytes sl = footprint k (sl_entry sl) -> 0 <= sl_seq sl ->
  (forall k' sl', pl_table p !! k' = Some sl' -> sl_seq sl' < sl_seq sl) -> sl_seq sl < pl_next_seq p ->
  pool_ok (mkPool (<[k := sl]> (pl_table p)) (bt_insert (sl_seq sl) k (pl_by_write p)) (pl_bytes p + sl_bytes sl)
             (pl_next_seq p) (pl_max_entries p) (pl_max_bytes p)).
Proof.
  intros Hp Hk Hb H0 Hlast Hn.
  assert (Forall (fun q => q.1 < sl_seq sl) (pl_by_write p)) as Hall.
  { apply Forall_forall. intros [c k'] Hin. apply (po_entry p Hp) in Hin as (sl' & Hk' & <-). by apply (Hlast k'). }
  split; simpl; rewrite ?bt_insert_last by done.
  - apply keys_sorted_snoc; [apply Hp|done].
  - intros c k'. rewrite elem_of_app, list_elem_of_singleton, (po_entry p Hp). destruct (decide (k = k')) as [<-|Hne].
    + rewrite lookup_insert_eq. split; [intros [(sl' & ? & ?)|[= ->]]; [congruence|eauto]|].
      intros (sl' & [= <-] & <-). by right.
    + rewrite lookup_insert_ne by done. split; [intros [?|[= _ ?]]; [done|congruence]|by left].
  - rewrite sum_bytes_insert by done. rewrite (po_bytes p Hp). lia.
  - intros k' sl' Hk'. destruct (decide (k = k')) as [<-|Hne].
    + rewrite lookup_insert_eq in Hk'. by simplify_eq.
    + rewrite lookup_insert_ne in Hk' by done. by apply Hp.
Qed.

Lemma write_spec p c k e x j :
  pool_fine p -> small j c -> 0 <= j <= 4 -> footprint k e <= LIMIT -> 0 <= pl_next_seq p -> pl_next_seq p + 1 < 2 ^ 64 ->
  let w := pool_write k e x (p, c) in
  pool_ok w.1 /\ room w /\ pl_table w.1 = <[k := mkSlot e (pl_next_seq p) x (footprint k e)]> (pl_table p) /\
  pl_next_seq w.1 = pl_next_seq p + 1 /\ pl_max_entries w.1 = pl_max_entries p /\ pl_max_bytes w.1 = pl_max_bytes p /\
  ch_removed w.2 + Z.of_nat (size (pl_table w.1)) = ch_removed c + Z.of_nat (size (pl_table p)) + 1 /\
  ch_bytes_removed w.2 + pl_bytes w.1 = ch_bytes_removed c + pl_bytes p + footprint k e /\
  ch_added w.2 = ch_added c + 1 /\ ch_bytes_added w.2 = ch_bytes_added c + footprint k e /\
  ch_evicted w.2 = ch_evicted c /\ ch_inspected w.2 = ch_inspected c /\ ch_removed c <= ch_removed w.2.
Proof.
  intros Hp Hs Hj Hf Hn0 Hn. unfold pool_write. set (p0 := p <| pl_next_seq := u64_wrap (pl_next_seq p + 1) |>).
  assert (u64_wrap (pl_next_seq p + 1) = pl_next_seq p + 1) as Hw by (unfold u64_wrap; apply Z.mod_small; lia).
  assert (pool_ok p0) as Hp0.
  { split; try apply (pf_ok p Hp). intros k' sl Hk'. apply (po_slot p (pf_ok p Hp)) in Hk' as [? ?]. simpl. rewrite Hw. split; [lia|done]. }
  destruct (pool_remove_spec p0 c k Hp0) as (S1 & S2 & S3 & S4 & S5); [by apply (room_small p c j); [..|lia]|].
  unfold pool_remove in S1, S2, S3, S4, S5. cbn [fst] in S1, S2, S3, S4, S5.
  destruct (match pl_table p0 !! k with Some slot => _ | None => _ end) as [p1 c1]. cbn [fst snd] in *. subst p1.
  pose proof (pool_ok_minus {[k]} p0 Hp0) as Hp1. pose proof (minus_bytes_le {[k]} p0 Hp0) as Hle.
  assert (size (pl_table (minus {[k]} p0)) <= size (pl_table p0))%nat as Hsz by apply map_subseteq_size, map_filter_subseteq.
  assert (pl_table (minus {[k]} p0) !! k = None) as Hk1 by (simpl; by rewrite table_minus_one, lookup_delete_eq).
  pose proof (put_ok (minus {[k]} p0) k (mkSlot e (pl_next_seq p) x (footprint k e)) Hp1 Hk1 eq_refl Hn0) as Hput.
  destruct S2 as [B1 B2 B3 B4]. cbn [fst snd] in *.
  change (pl_table p0) with (pl_table p) in *. change (pl_bytes p0) with (pl_bytes p) in *.
  destruct Hs as (Y1 & Y2 & Y3 & Y4 & Y5 & Y6). pose proof (pool_within p Hp) as [W1 W2].
  pose proof (pf_entries p Hp) as L1. pose proof (pf_max_bytes p Hp) as L2. pose proof (footprint_range k e) as Hfr.
  pose proof (pool_bytes_nonneg _ Hp1) as Hb1.
  assert (sat_add (pl_bytes (minus {[k]} p0)) (footprint k e) = pl_bytes (minus {[k]} p0) + footprint k e) as A0
    by (apply sat_add_exact; unfold usize_MAX, u64_MAX, LIMIT in *; lia).
  assert (sat_add (ch_added c1) 1 = ch_added c + 1) as A1 by (rewrite B3; apply sat_add_exact; unfold usize_MAX, u64_MAX, LIMIT in *; lia).
  assert (sat_add (ch_bytes_added c1) (footprint k e) = ch_bytes_added c + footprint k e) as A2
    by (rewrite B4; apply sat_add_exact; unfold usize_MAX, u64_MAX, LIMIT in *; lia).
  set (w := _ <| pl_bytes ::= _ |>).
  assert (w = mkPool (<[k := mkSlot e (pl_next_seq p) x (footprint k e)]> (pl_table (minus {[k]} p0)))
                (bt_insert (pl_next_seq p) k (pl_by_write (minus {[k]} p0))) (pl_bytes (minus {[k]} p0) + footprint k e)
                (pl_next_seq p + 1) (pl_max_entries p) (pl_max_bytes p)) as Hww.
  { rewrite <- A0, <- Hw. reflexivity. }
  clearbody w. subst w. cbn [fst snd].
  assert (<[k := mkSlot e (pl_next_seq p) x (footprint k e)]> (pl_table (minus {[k]} p0)) =
          <[k := mkSlot e (pl_next_seq p) x (footprint k e)]> (pl_table p)) as Htab.
  { simpl. rewrite table_minus_one. change (pl_table p0) with (pl_table p). apply insert_delete_eq. }
  assert (size (<[k := mkSlot e (pl_next_seq p) x (footprint k e)]> (pl_table (minus {[k]} p0))) = S (size (pl_table (minus {[k]} p0)))) as Hsz1
    by (by apply map_size_insert_None).
  split_and!; try done.
  - simpl sl_seq in Hput. simpl sl_bytes in Hput. change (pl_next_seq (minus {[k]} p0)) with (u64_wrap (pl_next_seq p + 1)) in Hput.
    rewrite Hw in Hput. apply Hput; [|lia]. intros k' sl' Hk'. simpl in Hk'. rewrite lookup_minus in Hk'.
    destruct (decide (k' ∈ {[k]})); [done|]. apply (po_slot p (pf_ok p Hp)) in Hk' as [? _]. simpl. lia.
  - destruct S3 as (R1 & R2 & R3 & R4). simpl in R1, R2, R3, R4. unfold room. cbn [fst snd pl_table pl_bytes]. rewrite Hsz1. unfold usize_MAX, u64_MAX, LIMIT in *. simpl in Hsz, B1, B2, Hle, Hb1 |- *. lia.
  - cbn [pl_table]. rewrite Hsz1. cbn. simpl in B1. lia.
  - cbn. simpl in B2. lia.
  - cbn. simpl in B1, Hsz. lia.
Qed.

Lemma step_insert p c k e x j :
  pool_fine p -> small j c -> 0 <= j <= 4 -> footprint k e <= LIMIT -> 0 <= pl_next_seq p -> pl_next_seq p + 1 < 2 ^ 64 ->
  let pc := pool_insert k e x (p, c) in
  let t := <[k := mkSlot e (pl_next_seq p) x (footprint k e)]> (pl_table p) in
  step 1 1 (p, c) pc /\
  exists X, X ⊆ dom t /\ pl_table pc.1 = table_minus X t /\ ch_evicted pc.2 = ch_evicted c + Z.of_nat (size X) /\
    (forall k1 sl1 k2 sl2, k1 ∈ X -> k2 ∉ X -> t !! k1 = Some sl1 -> t !! k2 = Some sl2 -> sl_seq sl1 < sl_seq sl2).
Proof.
  intros Hp Hs Hj Hf Hn0 Hn pc t. destruct (write_spec p c k e x j) as (P1 & P2 & P3 & P4 & P5 & P6 & P7 & P8 & P9 & P10 & P11 & P12 & P13); try done.
  set (w := pool_write k e x (p, c)) in *. fold t in P3. destruct w as [pw cw] eqn:Hww. cbn [fst snd] in *.
  pose proof Hs as (Y1 & Y2 & Y3 & Y4 & Y5 & Y6). pose proof (pool_within p Hp) as [W1 W2].
  pose proof (pf_entries p Hp) as L1. pose proof (pf_max_bytes p Hp) as L2. pose proof (footprint_range k e) as Hfr.
  pose proof (pool_size pw P1) as Hsz. pose proof (pool_bytes_nonneg p (pf_ok p Hp)) as Hb0.
  assert (Z.of_nat (size (pl_table pw)) <= Z.of_nat (size (pl_table p)) + 1) as Hsz' by lia.
  destruct (evict_loop_spec (length (pl_by_write pw)) pw cw P1 P2) as (X & Q1 & Q2 & Q3 & Q4 & Q5 & Q6 & Q7 & Q8);
    [done|lia|lia|lia|unfold usize_MAX, u64_MAX, LIMIT in *; lia|].
  assert (pc = evict_loop (length (pl_by_write pw)) (pw, cw)) as Hpc by (unfold pc, pool_insert; fold w; by rewrite Hww).
  rewrite <- Hpc in *. clear Hpc. destruct Q2 as [B1 B2 B3 B4]. cbn [fst snd] in *.
  pose proof (size_minus X pw P1 Q5) as HsX. rewrite <- Q1 in HsX.
  assert (pool_ok pc.1) as Hok by (rewrite Q1; by apply pool_ok_minus).
  assert (pl_max_entries pc.1 = pl_max_entries p /\ pl_max_bytes pc.1 = pl_max_bytes p) as [M1 M2] by (rewrite Q1; done).
  assert (pool_fine pc.1) as Hfine by (split; [done|rewrite M1; lia|rewrite M2; lia|done]).
  pose proof (pool_within _ Hfine) as [W3 W4]. pose proof (pool_bytes_nonneg _ Hok) as Hb1.
  split; [|exists X; rewrite Q1; simpl; rewrite <- P3; split_and!; try done; lia].
  split; cbn [fst snd]; [done|done|rewrite Q1; simpl; lia|lia|lia|lia|lia|].
  destruct Q3 as (R1 & R2 & R3 & R4). intros j' (C1 & C2 & C3 & C4 & C5 & C6). unfold small. rewrite B3, B4, Q4. unfold LIMIT in *. split_and!; lia.
Qed.
End pool.
