(* ===== verification/BranchMemoSteps.v ===== *)
(** * Front proxy: the stripes of the branch memo

    Each operation of a stripe keeps its pools within their bounds and apart,
    balances its books, and changes what the stripe holds as a map of keys
    would, some expired or evicted entries aside. *)

From S2P Require Import Prelude Retransmit TxnData Texts ProxyTypes BranchMemo BranchMemoInv.

Open Scope Z_scope.

(** What a key is held with. *)
Notation Held := (Lifetime * CancelEntry * Z)%type.
Definition as_held (lt : Lifetime) (sl : Slot) : Held := (lt, sl_entry sl, sl_expires_at_ms sl).

Definition pool_held (lt : Lifetime) (p : Pool) (k : string) : option Held := as_held lt <$> pl_table p !! k.
Definition stripe_held (s : Stripe) (k : string) : option Held :=
  match pool_held InviteTransaction (st_invite s) k with
  | Some h => Some h
  | None => pool_held Retransmission (st_retransmission s) k
  end.

(** [f'] is [f] without some entries, each expired at [now] or, when [evicts],
    evicted. *)
Definition shrinks (now : Z) (evicts : bool) (f f' : string -> option Held) : Prop :=
  forall k, f' k = f k \/ f' k = None /\ exists h, f k = Some h /\ (h.2 <= now \/ evicts = true).
Definition updated (key : string) (h : Held) (f : string -> option Held) (k : string) : option Held :=
  if decide (k = key) then Some h else f k.

Lemma shrinks_refl now b f : shrinks now b f f.
Proof. intros k. by left. Qed.
Lemma shrinks_trans now a b f1 f2 f3 : shrinks now a f1 f2 -> shrinks now b f2 f3 -> shrinks now (a || b) f1 f3.
Proof.
  intros H1 H2 k. destruct (H1 k) as [E1|(N1 & h & Hh & Hx)], (H2 k) as [E2|(N2 & h2 & Hh2 & Hx2)].
  - left. congruence.
  - right. split; [done|]. exists h2. rewrite <- E1. split; [done|]. destruct Hx2 as [?| ->]; [by left|right; by rewrite orb_true_r].
  - right. split; [congruence|]. exists h. split; [done|]. destruct Hx as [?| ->]; [by left|by right].
  - congruence.
Qed.
Lemma shrinks_ext now b f f' g g' : (forall k, f k = g k) -> (forall k, f' k = g' k) -> shrinks now b f f' -> shrinks now b g g'.
Proof. intros Hf Hf' H k. rewrite <- Hf, <- Hf'. apply H. Qed.

(** The answer to a lookup at [now]. *)
Definition live_at (now : Z) (h : option Held) : option CancelEntry :=
  match h with Some (_, e, x) => if now <? x then Some e else None | None => None end.

Section stripe.
Context `{E : MemoEnv} {W : MemoLaws E}.

Record stripe_ok (n : Z) (s : Stripe) : Prop := {
  so_invite : pool_fine (st_invite s);
  so_retransmission : pool_fine (st_retransmission s);
  so_apart k : is_Some (pl_table (st_invite s) !! k) -> pl_table (st_retransmission s) !! k = None;
  so_seq : 0 <= pl_next_seq (st_invite s) <= n /\ 0 <= pl_next_seq (st_retransmission s) <= n;
}.
Definition stripe_size (s : Stripe) : Z :=
  Z.of_nat (size (pl_table (st_invite s))) + Z.of_nat (size (pl_table (st_retransmission s))).
Definition stripe_bytes (s : Stripe) : Z := pl_bytes (st_invite s) + pl_bytes (st_retransmission s).
Definition same_bounds (s s' : Stripe) : Prop :=
  st_invite_ttl_ms s' = st_invite_ttl_ms s /\
  pl_max_entries (st_invite s') = pl_max_entries (st_invite s) /\ pl_max_bytes (st_invite s') = pl_max_bytes (st_invite s) /\
  pl_max_entries (st_retransmission s') = pl_max_entries (st_retransmission s) /\
  pl_max_bytes (st_retransmission s') = pl_max_bytes (st_retransmission s).

(** What an operation does to a stripe, its books starting empty. *)
Record stripe_step (n : Z) (s : Stripe) (sc : Stripe * Change) : Prop := {
  ss_ok : stripe_ok (n + 1) sc.1;
  ss_bounds : same_bounds s sc.1;
  ss_net : ch_added sc.2 - ch_removed sc.2 = stripe_size sc.1 - stripe_size s;
  ss_bytes : ch_bytes_added sc.2 - ch_bytes_removed sc.2 = stripe_bytes sc.1 - stripe_bytes s;
  ss_added : 0 <= ch_added sc.2 <= 1;
  ss_evicted : 0 <= ch_evicted sc.2 <= ch_removed sc.2;
  ss_small : small 5 sc.2;
}.

Lemma small_none : small 0 no_change.
Proof. unfold small. simpl. lia. Qed.

(** ** Pools seen as maps *)

Lemma held_minus lt X p k : pool_held lt (minus X p) k = if decide (k ∈ X) then None else pool_held lt p k.
Proof. unfold pool_held. simpl. rewrite lookup_minus. by destruct (decide (k ∈ X)). Qed.
Lemma shrinks_minus now lt X p :
  (forall k, k ∈ X -> exists sl, pl_table p !! k = Some sl /\ sl_expires_at_ms sl <= now) ->
  shrinks now false (pool_held lt p) (pool_held lt (minus X p)).
Proof.
  intros HX k. rewrite held_minus. destruct (decide (k ∈ X)) as [Hk|]; [right|by left]. split; [done|].
  apply HX in Hk as (sl & Hk & Hx). exists (as_held lt sl). unfold pool_held. rewrite Hk. split; [done|]. by left.
Qed.

(** What two pools hold, one in place of the other. *)
Lemma stripe_held_shrinks now a b i i' r r' ttl :
  shrinks now a (pool_held InviteTransaction i) (pool_held InviteTransaction i') ->
  shrinks now b (pool_held Retransmission r) (pool_held Retransmission r') ->
  (forall k, is_Some (pl_table i !! k) -> pl_table r !! k = None) ->
  shrinks now (a || b) (stripe_held (mkStripe i r ttl)) (stripe_held (mkStripe i' r' ttl)).
Proof.
  intros Hi Hr Hd k. unfold stripe_held. simpl. specialize (Hi k). specialize (Hr k). specialize (Hd k).
  destruct Hi as [->|(-> & h & Hh & Hx)].
  - destruct (pool_held InviteTransaction i k); [by left|]. destruct Hr as [->|(-> & h & Hh & Hx)]; [by left|right].
    split; [done|]. exists h. split; [done|]. destruct Hx as [?| ->]; [by left|right; by rewrite orb_true_r].
  - rewrite Hh. assert (pool_held Retransmission r k = None) as Hn.
    { unfold pool_held in *. rewrite Hd; [done|]. destruct (pl_table i !! k); [eauto|done]. }
    destruct Hr as [->|(-> & h' & Hh' & _)]; [|congruence]. rewrite Hn. right. split; [done|]. exists h. split; [done|].
    destruct Hx as [?| ->]; [by left|by right].
Qed.

(** ** Operations *)

(** A step of each pool is a step of the stripe. *)
Lemma steps_combine n s i' r' c1 c2 a b ma mb :
  stripe_ok n s -> 0 <= a -> 0 <= b -> a + b <= 1 -> 0 <= ma -> 0 <= mb -> ma + mb <= 5 ->
  (step a ma (st_invite s, no_change) (i', c1) /\ step b mb (st_retransmission s, c1) (r', c2) \/
   step b mb (st_retransmission s, no_change) (r', c1) /\ step a ma (st_invite s, c1) (i', c2)) ->
  (forall k, is_Some (pl_table i' !! k) -> pl_table r' !! k = None) ->
  stripe_step n s (mkStripe i' r' (st_invite_ttl_ms s), c2).
Proof.
  intros Hs Ha Hb Hab Hma Hmb Hm Hst Hd. destruct (so_seq n s Hs) as [S1 S2].
  destruct Hst as [[[F1 [M1 M1'] N1 T1 B1 A1 V1 Z1] [F2 [M2 M2'] N2 T2 B2 A2 V2 Z2]]
                  |[[F1 [M1 M1'] N1 T1 B1 A1 V1 Z1] [F2 [M2 M2'] N2 T2 B2 A2 V2 Z2]]];
    cbn [fst snd no_change ch_added ch_removed ch_bytes_added ch_bytes_removed ch_evicted] in *;
    (split; [split; simpl; [done..|lia]|by split_and!|unfold stripe_size; simpl; lia|unfold stripe_bytes; simpl; lia|simpl; lia|simpl; lia|]);
    specialize (Z1 0 small_none); apply Z2 in Z1; revert Z1; apply small_mono; lia.
Qed.

Lemma stripe_expire_spec n s now :
  stripe_ok n s ->
  let sc := stripe_expire now (s, no_change) in
  stripe_step n s sc /\ ch_added sc.2 = 0 /\ ch_evicted sc.2 = 0 /\ shrinks now false (stripe_held s) (stripe_held sc.1) /\
  ch_inspected sc.2 <= ch_removed sc.2 + 2.
Proof.
  intros Hs. unfold stripe_expire.
  destruct (step_expire now (st_invite s) no_change 0 (so_invite n s Hs) small_none ltac:(lia)) as (S1 & V1 & X1 & P1 & Q1 & I1 & _).
  destruct (pool_expire now (st_invite s, no_change)) as [i c1]. cbn [fst snd] in *. subst i.
  destruct (step_expire now (st_retransmission s) c1 1 (so_retransmission n s Hs) (st_small _ _ _ _ S1 0 small_none) ltac:(lia))
    as (S2 & V2 & X2 & P2 & Q2 & I2 & _).
  destruct (pool_expire now (st_retransmission s, c1)) as [r c2]. cbn [fst snd] in *. subst r. split; [|split_and!].
  - apply (steps_combine n s _ _ c1 c2 0 0 1 1); try done; try lia; [by left|].
    intros k. simpl. rewrite !lookup_minus. destruct (decide (k ∈ X1)); [by intros []|]. intros Hk%(so_apart n s Hs). rewrite Hk.
    by destruct (decide (k ∈ X2)).
  - pose proof (st_added _ _ _ _ S1) as A1. pose proof (st_added _ _ _ _ S2) as A2. simpl in *. lia.
  - rewrite V2, V1. done.
  - destruct s as [i r ttl]. apply (stripe_held_shrinks now false false); [by apply shrinks_minus..|]. apply (so_apart n _ Hs).
  - simpl in *. lia.
Qed.

Lemma pool_get_held lt p c k now j :
  pool_fine p -> small j c -> j <= 5 ->
  let r := pool_get k now (p, c) in
  step 0 1 (p, c) r.2 /\ ch_evicted r.2.2 = ch_evicted c /\ r.1 = live_at now (pool_held lt p k) /\
  shrinks now false (pool_held lt p) (pool_held lt r.2.1) /\ pl_table r.2.1 ⊆ pl_table p /\
  (r.1 = None -> pl_table r.2.1 !! k = None).
Proof.
  intros Hp Hs Hj. destruct (step_get p c k now j Hp Hs Hj) as (S1 & V1 & M1). cbv zeta. revert S1 V1 M1.
  set (r := pool_get k now (p, c)). intros S1 V1 M1. unfold pool_held at 1. split; [done|]. split; [done|].
  destruct (pl_table p !! k) as [sl|] eqn:Hk; simpl; [destruct (Z.ltb_spec now (sl_expires_at_ms sl))|].
  - rewrite M1. split_and!; [done|apply shrinks_refl|done|done].
  - destruct M1 as [-> ->]. split_and!; [done| |apply map_filter_subseteq|].
    + apply shrinks_minus. intros k' ->%elem_of_singleton. eauto.
    + intros _. simpl. by rewrite table_minus_one, lookup_delete_eq.
  - rewrite M1. split_and!; [done|apply shrinks_refl|done|done].
Qed.
Lemma apart_sub (t t' u u' : gmap string Slot) :
  (forall k, is_Some (t !! k) -> u !! k = None) -> t' ⊆ t -> u' ⊆ u -> forall k, is_Some (t' !! k) -> u' !! k = None.
Proof.
  intros Hd Ht Hu k [sl Hk]. destruct (u' !! k) as [sl'|] eqn:Hk'; [|done]. apply (lookup_weaken _ _ _ _ Hk') in Hu.
  rewrite Hd in Hu; [done|]. exists sl. by apply (lookup_weaken _ _ _ _ Hk).
Qed.
Lemma stripe_refl_step p c : pool_fine p -> step 0 1 (p, c) (p, c).
Proof. intros Hp. apply step_refl; [done|]. intros j. apply small_mono. lia. Qed.

Lemma stripe_get_spec n s key now :
  stripe_ok n s ->
  let r := stripe_get key now (s, no_change) in
  stripe_step n s r.2 /\ ch_added r.2.2 = 0 /\ ch_evicted r.2.2 = 0 /\ r.1 = live_at now (stripe_held s key) /\
  shrinks now false (stripe_held s) (stripe_held r.2.1).
Proof.
  intros Hs. unfold stripe_get. destruct s as [i r ttl]. pose proof (so_apart n _ Hs) as Hd. simpl in Hd.
  destruct (pool_get_held InviteTransaction i no_change key now 0 (so_invite n _ Hs) small_none ltac:(lia)) as (S1 & V1 & F1 & H1 & T1 & _).
  cbn [st_invite st_retransmission st_invite_ttl_ms] in *.
  destruct (pool_get key now (i, no_change)) as [found [i' c1]]. cbn [fst snd] in *. pose proof (st_added _ _ _ _ S1) as A1. simpl in A1.
  assert (pool_fine r) as Hr by apply (so_retransmission n _ Hs).
  destruct found as [e|]; cbn [fst snd st_invite_ttl_ms].
  - split_and!; [|lia|done| |].
    + apply (steps_combine n (mkStripe i r ttl) _ _ c1 c1 0 0 1 1); try done; try lia; [left; split; [done|by apply stripe_refl_step]|].
      by apply (apart_sub _ _ _ _ Hd).
    + rewrite F1. unfold stripe_held. simpl. by destruct (pool_held InviteTransaction i key).
    + apply (stripe_held_shrinks now false false); [done|apply shrinks_refl|done].
  - destruct (pool_get_held Retransmission r c1 key now 1 Hr (st_small _ _ _ _ S1 0 small_none) ltac:(lia)) as (S2 & V2 & F2 & H2 & T2 & _).
    destruct (pool_get key now (r, c1)) as [found [r' c2]]. cbn [fst snd] in *. pose proof (st_added _ _ _ _ S2) as A2. simpl in A2.
    split_and!; [|lia|by rewrite V2| |].
    + apply (steps_combine n (mkStripe i r ttl) _ _ c1 c2 0 0 1 1); try done; try lia; [by left|]. by apply (apart_sub _ _ _ _ Hd).
    + rewrite F2. unfold stripe_held. simpl. destruct (pool_held InviteTransaction i key) as [h|] eqn:Hh; [|done].
      assert (pool_held Retransmission r key = None) as ->; [|by rewrite <- F1].
      unfold pool_held in *. rewrite Hd; [done|]. destruct (pl_table i !! key); [eauto|done].
    + by apply (stripe_held_shrinks now false false).
Qed.

(** Two pools as one map, whichever is read first. *)
Definition merge (f g : string -> option Held) (k : string) : option Held := match f k with Some h => Some h | None => g k end.
Lemma merge_comm f g k : (is_Some (f k) -> g k = None) -> merge f g k = merge g f k.
Proof. unfold merge. destruct (f k) as [h|], (g k) as [h'|]; try done. intros H. discriminate H. eauto. Qed.
Lemma merge_write now b key h f f1 f2 g g' :
  shrinks now false f f1 -> shrinks now b (updated key h f1) f2 ->
  g' key = None -> (forall k, k <> key -> g' k = g k) -> (forall k, is_Some (f k) -> g k = None) ->
  shrinks now b (updated key h (merge f g)) (merge f2 g').
Proof.
  intros H1 H2 Hg Hg' Hd k. unfold updated, merge in *. specialize (H1 k). specialize (H2 k). specialize (Hd k).
  cbv beta in H2. revert H2. destruct (decide (k = key)) as [->|Hne]; intros H2.
  - destruct H2 as [H2|(H2 & h' & Hh' & Hx)]; rewrite H2; [by left|right]. injection Hh' as <-. eauto.
  - rewrite (Hg' k Hne). destruct H2 as [->|(-> & h' & Hh' & Hx)].
    + destruct H1 as [->|(-> & h' & Hh' & Hx)]; [by left|]. rewrite Hh', Hd by (rewrite Hh'; eauto). right. split; [done|].
      exists h'. split; [done|]. destruct Hx as [?|?]; [by left|done].
    + destruct H1 as [H1|(H1 & _)]; [|congruence]. rewrite H1 in Hh'. rewrite Hh', Hd by (rewrite Hh'; eauto).
      right. split; [done|]. eauto.
Qed.

(** Expiring a pool, then writing to it. *)
Lemma pool_write_held lt p c k e now x j :
  pool_fine p -> small j c -> 0 <= j <= 3 -> footprint k e <= LIMIT -> 0 <= pl_next_seq p -> pl_next_seq p + 1 < 2 ^ 64 ->
  let pc := pool_insert k e x (pool_expire now (p, c)) in
  step 1 2 (p, c) pc /\ ch_evicted c <= ch_evicted pc.2 /\
  exists f1, shrinks now false (pool_held lt p) f1 /\
    shrinks now (ch_evicted c <? ch_evicted pc.2) (updated k (lt, e, x) f1) (pool_held lt pc.1) /\
    (forall k', k' <> k -> is_Some (pl_table pc.1 !! k') -> is_Some (pl_table p !! k')).
Proof.
  intros Hp Hs Hj Hf Hn0 Hn. destruct (step_expire now p c j Hp Hs ltac:(lia)) as (S1 & V1 & X1 & P1 & Q1 & _ & _).
  destruct (pool_expire now (p, c)) as [p1 c1]. cbn [fst snd] in *.
  pose proof (st_seq _ _ _ _ S1) as N1. simpl in N1.
  destruct (step_insert p1 c1 k e x (j + 1) (st_fine _ _ _ _ S1) (st_small _ _ _ _ S1 j Hs) ltac:(lia) Hf ltac:(lia) ltac:(lia))
    as (S2 & X & HX & T2 & V2 & _).
  split; [exact (step_trans 0 1 1 1 _ _ _ S1 S2)|]. set (pc := pool_insert k e x (p1, c1)) in *. split; [lia|].
  exists (pool_held lt p1). subst p1. split; [by apply shrinks_minus|]. split.
  - intros k'. unfold updated.
    assert (pool_held lt pc.1 k' = as_held lt <$> table_minus X (<[k := mkSlot e (pl_next_seq (minus X1 p)) x (footprint k e)]> (pl_table (minus X1 p))) !! k') as ->
      by (unfold pool_held; by rewrite T2).
    rewrite lookup_minus. destruct (decide (k' ∈ X)) as [Hk'|Hk'].
    + right. split; [done|]. assert ((ch_evicted c <? ch_evicted pc.2) = true) as ->.
      { apply Z.ltb_lt. rewrite V2, V1. assert (size X <> 0%nat); [|lia]. intros H0%size_empty_inv. set_solver. }
      destruct (decide (k' = k)) as [->|Hne]; [eauto|]. apply HX, elem_of_dom in Hk' as [sl Hk']. rewrite lookup_insert_ne in Hk' by done.
      unfold pool_held. rewrite Hk'. simpl. eauto.
    + left. destruct (decide (k' = k)) as [->|Hne]; [by rewrite lookup_insert_eq|]. by rewrite lookup_insert_ne.
  - intros k' Hne. rewrite T2, lookup_minus. destruct (decide (k' ∈ X)); [by intros []|]. rewrite lookup_insert_ne by done.
    simpl. rewrite lookup_minus. destruct (decide (k' ∈ X1)); [by intros []|done].
Qed.

(** How long an entry of each lifetime lives in a stripe. *)
Definition stripe_ttl (s : Stripe) (lt : Lifetime) : Z :=
  match lt with InviteTransaction => st_invite_ttl_ms s | Retransmission => RTX_ENTRY_TTL_MS end.

Lemma stripe_insert_spec n s key e lt now :
  stripe_ok n s -> n + 1 < 2 ^ 64 -> footprint key e <= LIMIT ->
  let sc := stripe_insert key e lt now (s, no_change) in
  stripe_step n s sc /\ ch_added sc.2 = 1 /\
  shrinks now (0 <? ch_evicted sc.2) (updated key (lt, e, sat_add now (stripe_ttl s lt)) (stripe_held s)) (stripe_held sc.1).
Proof.
  intros Hs Hn Hf. unfold stripe_insert. destruct s as [i r ttl]. pose proof (so_apart n _ Hs) as Hd. pose proof (so_seq n _ Hs) as [N1 N2].
  pose proof (so_invite n _ Hs) as Hi. pose proof (so_retransmission n _ Hs) as Hr. cbn [st_invite st_retransmission st_invite_ttl_ms stripe_ttl] in *.
  assert (forall k, is_Some (pool_held InviteTransaction i k) -> pool_held Retransmission r k = None) as Hd1.
  { intros k [h Hh]. unfold pool_held in *. rewrite Hd; [done|]. destruct (pl_table i !! k); [eauto|done]. }
  assert (forall k, is_Some (pool_held Retransmission r k) -> pool_held InviteTransaction i k = None) as Hd2.
  { intros k [h Hh]. destruct (pool_held InviteTransaction i k) eqn:Hk; [|done]. rewrite Hd1 in Hh by eauto. done. }
  destruct lt.
  - destruct (step_remove r no_change key 0 Hr small_none ltac:(lia)) as (S1 & V1 & P1).
    destruct (pool_remove key (r, no_change)) as [other c1]. cbn [fst snd] in *. subst other.
    destruct (pool_write_held InviteTransaction i c1 key e now (sat_add now ttl) 1 Hi (st_small _ _ _ _ S1 0 small_none) ltac:(lia) Hf ltac:(lia) ltac:(lia))
      as (S2 & V2 & f1 & F1 & F2 & K).
    destruct (pool_expire now (i, c1)) as [i1 c2]. destruct (pool_insert key e _ (i1, c2)) as [i2 c3]. cbn [fst snd stripe_ttl st_invite_ttl_ms] in *.
    rewrite V1 in F2, V2. pose proof (st_added _ _ _ _ S1) as A1. pose proof (st_added _ _ _ _ S2) as A2. simpl in *. split; [|split; [lia|]].
    + apply (steps_combine n (mkStripe i r ttl) i2 _ c1 c3 1 0 2 1); try done; try lia; [by right|].
      intros k Hk. simpl. rewrite table_minus_one. destruct (decide (k = key)) as [->|Hne]; [apply lookup_delete_eq|].
      rewrite lookup_delete_ne by done. by apply Hd, K.
    + apply (merge_write now _ key _ _ f1 _ _ (pool_held Retransmission (minus {[key]} r)) F1 F2); [| |done].
      * rewrite held_minus. rewrite decide_True by set_solver. done.
      * intros k Hne. rewrite held_minus, decide_False by set_solver. done.
  - destruct (step_remove i no_change key 0 Hi small_none ltac:(lia)) as (S1 & V1 & P1).
    destruct (pool_remove key (i, no_change)) as [other c1]. cbn [fst snd] in *. subst other.
    destruct (pool_write_held Retransmission r c1 key e now (sat_add now RTX_ENTRY_TTL_MS) 1 Hr (st_small _ _ _ _ S1 0 small_none) ltac:(lia) Hf ltac:(lia) ltac:(lia))
      as (S2 & V2 & f1 & F1 & F2 & K).
    destruct (pool_expire now (r, c1)) as [r1 c2]. destruct (pool_insert key e _ (r1, c2)) as [r2 c3]. cbn [fst snd stripe_ttl st_invite_ttl_ms] in *.
    rewrite V1 in F2, V2. pose proof (st_added _ _ _ _ S1) as A1. pose proof (st_added _ _ _ _ S2) as A2.
    assert (forall k, is_Some (pl_table (minus {[key]} i) !! k) -> pl_table r2 !! k = None) as Hd'.
    { intros k. simpl. rewrite table_minus_one. destruct (decide (k = key)) as [->|Hne]; [rewrite lookup_delete_eq; by intros []|].
      rewrite lookup_delete_ne by done. intros Hk. destruct (pl_table r2 !! k) eqn:Hk2; [|done].
      destruct (K k Hne) as [sl Hsl]; [eauto|]. rewrite Hd in Hsl; done. }
    simpl in A1, A2. split; [|split; [simpl; lia|]].
    + apply (steps_combine n (mkStripe i r ttl) _ r2 c1 c3 0 1 1 2); try done; try lia. by left.
    + pose proof (merge_write now _ key _ _ f1 _ (pool_held InviteTransaction i)
                    (pool_held InviteTransaction (minus {[key]} i)) F1 F2) as M.
      eapply shrinks_ext; [| |apply M].
      * intros k. unfold updated. destruct (decide (k = key)); [done|]. apply merge_comm, Hd2.
      * intros k. apply merge_comm. intros [h Hh]. unfold pool_held. destruct (pl_table (minus {[key]} i) !! k) eqn:Hk; [|done].
        unfold pool_held in Hh. rewrite Hd' in Hh by eauto. done.
      * rewrite held_minus. rewrite decide_True by set_solver. done.
      * intros k Hne. rewrite held_minus, decide_False by set_solver. done.
      * done.
Qed.

(** Shortening: what is written under the key first. *)
Definition shortened (key : string) (now : Z) (f : string -> option Held) : string -> option Held :=
  match f key with
  | Some (InviteTransaction, e, x) =>
      if now <? x then updated key (Retransmission, e, sat_add now RTX_ENTRY_TTL_MS) f else f
  | _ => f
  end.

Lemma stripe_shorten_spec n s key now :
  stripe_ok n s -> n + 1 < 2 ^ 64 ->
  (forall e x, stripe_held s key = Some (InviteTransaction, e, x) -> footprint key e <= LIMIT) ->
  let r := stripe_shorten key now (s, no_change) in
  stripe_step n s r.2 /\ r.1 = live_at now (stripe_held s key) /\
  shrinks now (0 <? ch_evicted r.2.2) (shortened key now (stripe_held s)) (stripe_held r.2.1).
Proof.
  intros Hs Hn Hf. destruct (stripe_get_spec n s key now Hs) as (G1 & G2 & G3 & G4 & G5). revert G1 G2 G3 G4 G5. cbv zeta.
  unfold stripe_shorten, stripe_get.
  destruct (step_get (st_invite s) no_change key now 0 (so_invite n s Hs) small_none ltac:(lia)) as (_ & _ & M1). cbv zeta in M1.
  assert (stripe_held s key = match as_held InviteTransaction <$> pl_table (st_invite s) !! key with
                              | Some h => Some h | None => pool_held Retransmission (st_retransmission s) key end) as Hh by done.
  unfold shortened. rewrite Hh. rewrite Hh in Hf.
  destruct (pl_table (st_invite s) !! key) as [sl|] eqn:Hk; cbn [fmap option_fmap option_map] in *;
    [destruct (Z.ltb_spec now (sl_expires_at_ms sl)) as [Hlt|Hge]|].
  - rewrite M1. destruct s as [i r ttl]. cbn [st_invite st_retransmission st_invite_ttl_ms fst snd]. intros _ _ _ G4 _.
    destruct (stripe_insert_spec n (mkStripe i r ttl) key (sl_entry sl) Retransmission now Hs Hn) as (I1 & _ & I3).
    { by apply (Hf _ (sl_expires_at_ms sl)). }
    split; [done|]. split; [done|]. simpl. destruct (Z.ltb_spec now (sl_expires_at_ms sl)); [done|lia].
  - destruct M1 as [M1 M2]. destruct (pool_get key now (st_invite s, no_change)) as [found [i c1]]. cbn [fst snd] in *. subst found.
    cbn [st_retransmission st_invite st_invite_ttl_ms].
    destruct (pool_get key now (st_retransmission s, c1)) as [found [r c2]]. cbn [fst snd as_held]. intros G1 G2 G3 G4 G5.
    rewrite G3. split; [done|]. split; [done|]. destruct (Z.ltb_spec now (sl_expires_at_ms sl)); [lia|done].
  - rewrite M1. cbn [fst snd st_retransmission st_invite st_invite_ttl_ms].
    destruct (pool_get key now (st_retransmission s, no_change)) as [found [r c2]]. cbn [fst snd]. intros G1 G2 G3 G4 G5.
    rewrite G3. split; [done|]. split; [done|]. unfold pool_held. by destruct (pl_table (st_retransmission s) !! key).
Qed.

(** ** Write order is expiry order

    While the clock does not go back, an entry written later expires later. *)

Definition pool_aged (T ttl : Z) (p : Pool) : Prop :=
  (forall k sl, pl_table p !! k = Some sl -> sl_expires_at_ms sl <= sat_add T ttl) /\
  (forall k sl k' sl', pl_table p !! k = Some sl -> pl_table p !! k' = Some sl' -> sl_seq sl < sl_seq sl' ->
     sl_expires_at_ms sl <= sl_expires_at_ms sl').
(** What an operation at [now] leaves: nothing new, or one newer write. *)
Definition grows (now ttl : Z) (p p' : Pool) : Prop :=
  pl_table p' ⊆ pl_table p \/
  exists k e seq fp, (forall k' sl', pl_table p !! k' = Some sl' -> sl_seq sl' < seq) /\
    pl_table p' ⊆ <[k := mkSlot e seq (sat_add now ttl) fp]> (pl_table p).

Lemma aged_grows T now ttl p p' : pool_aged T ttl p -> T <= now -> grows now ttl p p' -> pool_aged now ttl p'.
Proof.
  intros [A1 A2] HT. assert (sat_add T ttl <= sat_add now ttl) as HS by (unfold sat_add; lia).
  intros [Hsub|(k & e & seq & fp & Hnew & Hsub)]; rewrite map_subseteq_spec in Hsub.
  - split; [intros k sl Hk%Hsub%A1; lia|]. intros k sl k' sl' Hk%Hsub Hk'%Hsub. by apply (A2 k sl k' sl').
  - split.
    + intros k1 sl Hk%Hsub. rewrite lookup_insert_Some in Hk. destruct Hk as [[-> <-]|[_ Hk%A1]]; simpl; lia.
    + intros k1 sl1 k2 sl2 H1%Hsub H2%Hsub. rewrite lookup_insert_Some in H1, H2.
      destruct H1 as [[-> <-]|[_ H1]], H2 as [[-> <-]|[_ H2]]; simpl.
      * lia.
      * apply Hnew in H2. lia.
      * intros _. apply A1 in H1. lia.
      * by apply (A2 k1 sl1 k2 sl2).
Qed.

(** An expiry pass over a pool in that order leaves only live entries. *)
Lemma expire_exact T ttl now p c j k sl :
  pool_fine p -> small j c -> j <= 5 -> pool_aged T ttl p ->
  pl_table (pool_expire now (p, c)).1 !! k = Some sl -> now < sl_expires_at_ms sl.
Proof.
  intros Hp Hs Hj [_ A2] Hk. destruct (step_expire now p c j Hp Hs Hj) as (S1 & _ & X & P1 & _ & _ & Hfront).
  pose proof (pf_ok _ (st_fine _ _ _ _ S1)) as Hok. set (p' := (pool_expire now (p, c)).1) in *.
  assert (pl_table p' ⊆ pl_table p) as Hsub by (rewrite P1; apply map_filter_subseteq). rewrite map_subseteq_spec in Hsub.
  assert ((sl_seq sl, k) ∈ pl_by_write p') as Hin by (apply (po_entry p' Hok); eauto).
  pose proof (po_sorted p' Hok) as Hsort. destruct (pl_by_write p') as [|[seq0 k0] l] eqn:Hl; [by apply elem_of_nil in Hin|].
  destruct Hfront as (sl0 & Hk0 & Hlive). destruct (front p' seq0 k0 l Hok Hl) as (sl0' & Hk0' & Hseq). simplify_eq.
  apply elem_of_cons in Hin as [[= ? ?]|Hin]; [congruence|]. apply StronglySorted_inv in Hsort as [_ Hsort].
  rewrite Forall_forall in Hsort. apply Hsort in Hin. simpl in Hin.
  pose proof (A2 k0 sl0 k sl (Hsub _ _ Hk0) (Hsub _ _ Hk) Hin). lia.
Qed.

Definition stripe_aged (T : Z) (s : Stripe) : Prop :=
  pool_aged T (st_invite_ttl_ms s) (st_invite s) /\ pool_aged T RTX_ENTRY_TTL_MS (st_retransmission s).
Definition stripe_grows (now : Z) (s s' : Stripe) : Prop :=
  st_invite_ttl_ms s' = st_invite_ttl_ms s /\
  grows now (st_invite_ttl_ms s) (st_invite s) (st_invite s') /\ grows now RTX_ENTRY_TTL_MS (st_retransmission s) (st_retransmission s').
Lemma stripe_aged_grows T now s s' : stripe_aged T s -> T <= now -> stripe_grows now s s' -> stripe_aged now s'.
Proof.
  intros [A1 A2] HT (Ht & G1 & G2). split; [rewrite Ht|]; [by apply (aged_grows T now _ (st_invite s))|by apply (aged_grows T now _ (st_retransmission s))].
Qed.

Lemma grows_sub now ttl p p' : pl_table p' ⊆ pl_table p -> grows now ttl p p'.
Proof. by left. Qed.
Lemma expire_sub now p c j : pool_fine p -> small j c -> j <= 5 -> pl_table (pool_expire now (p, c)).1 ⊆ pl_table p.
Proof. intros Hp Hs Hj. destruct (step_expire now p c j Hp Hs Hj) as (_ & _ & X & -> & _). apply map_filter_subseteq. Qed.
Lemma grows_write p c k e now ttl j :
  pool_fine p -> small j c -> 0 <= j <= 3 -> footprint k e <= LIMIT -> 0 <= pl_next_seq p -> pl_next_seq p + 1 < 2 ^ 64 ->
  grows now ttl p (pool_insert k e (sat_add now ttl) (pool_expire now (p, c))).1.
Proof.
  intros Hp Hs Hj Hf Hn0 Hn. destruct (step_expire now p c j Hp Hs ltac:(lia)) as (S1 & _ & X1 & P1 & _).
  destruct (pool_expire now (p, c)) as [p1 c1]. cbn [fst snd] in *. pose proof (st_seq _ _ _ _ S1) as N1. simpl in N1.
  destruct (step_insert p1 c1 k e (sat_add now ttl) (j + 1) (st_fine _ _ _ _ S1) (st_small _ _ _ _ S1 j Hs) ltac:(lia) Hf ltac:(lia) ltac:(lia))
    as (_ & X & _ & T2 & _).
  right. exists k, e, (pl_next_seq p1), (footprint k e). split.
  - intros k' sl' Hk'. apply (po_slot p (pf_ok p Hp)) in Hk' as [? _]. lia.
  - rewrite T2. etrans; [apply map_filter_subseteq|]. apply insert_mono. rewrite P1. apply map_filter_subseteq.
Qed.

Lemma stripe_insert_grows n s key e lt now :
  stripe_ok n s -> n + 1 < 2 ^ 64 -> footprint key e <= LIMIT -> stripe_grows now s (stripe_insert key e lt now (s, no_change)).1.
Proof.
  intros Hs Hn Hf. pose proof (so_seq n _ Hs) as [N1 N2]. unfold stripe_insert. destruct lt.
  - destruct (step_remove (st_retransmission s) no_change key 0 (so_retransmission n s Hs) small_none ltac:(lia)) as (S1 & _ & P1).
    destruct (pool_remove key (st_retransmission s, no_change)) as [other c1]. cbn [fst snd] in *.
    pose proof (grows_write (st_invite s) c1 key e now (st_invite_ttl_ms s) 1 (so_invite n s Hs) (st_small _ _ _ _ S1 0 small_none) ltac:(lia) Hf ltac:(lia) ltac:(lia)) as G.
    destruct (pool_expire now (st_invite s, c1)) as [i1 c2]. destruct (pool_insert key e _ (i1, c2)) as [i2 c3]. cbn [fst snd] in *.
    split_and!; [done|done|]. apply grows_sub. simpl. rewrite P1. apply map_filter_subseteq.
  - destruct (step_remove (st_invite s) no_change key 0 (so_invite n s Hs) small_none ltac:(lia)) as (S1 & _ & P1).
    destruct (pool_remove key (st_invite s, no_change)) as [other c1]. cbn [fst snd] in *.
    pose proof (grows_write (st_retransmission s) c1 key e now RTX_ENTRY_TTL_MS 1 (so_retransmission n s Hs) (st_small _ _ _ _ S1 0 small_none) ltac:(lia) Hf ltac:(lia) ltac:(lia)) as G.
    destruct (pool_expire now (st_retransmission s, c1)) as [r1 c2]. destruct (pool_insert key e _ (r1, c2)) as [r2 c3]. cbn [fst snd] in *.
    split_and!; [done| |done]. apply grows_sub. simpl. rewrite P1. apply map_filter_subseteq.
Qed.
Lemma stripe_expire_grows n s now : stripe_ok n s -> stripe_grows now s (stripe_expire now (s, no_change)).1.
Proof.
  intros Hs. unfold stripe_expire.
  pose proof (expire_sub now (st_invite s) no_change 0 (so_invite n s Hs) small_none ltac:(lia)) as E1.
  destruct (step_expire now (st_invite s) no_change 0 (so_invite n s Hs) small_none ltac:(lia)) as (S1 & _).
  destruct (pool_expire now (st_invite s, no_change)) as [i c1]. cbn [fst snd] in *.
  pose proof (expire_sub now (st_retransmission s) c1 1 (so_retransmission n s Hs) (st_small _ _ _ _ S1 0 small_none) ltac:(lia)) as E2.
  destruct (pool_expire now (st_retransmission s, c1)) as [r c2]. cbn [fst snd] in *. split_and!; [done|by apply grows_sub..].
Qed.
Lemma stripe_get_grows n s key now : stripe_ok n s -> stripe_grows now s (stripe_get key now (s, no_change)).2.1.
Proof.
  intros Hs. unfold stripe_get.
  destruct (pool_get_held InviteTransaction (st_invite s) no_change key now 0 (so_invite n s Hs) small_none ltac:(lia)) as (S1 & _ & _ & _ & T1 & _).
  destruct (pool_get key now (st_invite s, no_change)) as [[e|] [i c1]]; cbn [fst snd] in *; [split_and!; [done|by apply grows_sub..]|].
  destruct (pool_get_held Retransmission (st_retransmission s) c1 key now 1 (so_retransmission n s Hs) (st_small _ _ _ _ S1 0 small_none) ltac:(lia)) as (_ & _ & _ & _ & T2 & _).
  destruct (pool_get key now (st_retransmission s, c1)) as [found [r c2]]. cbn [fst snd] in *. split_and!; [done|by apply grows_sub..].
Qed.
Lemma stripe_shorten_grows n s key now :
  stripe_ok n s -> n + 1 < 2 ^ 64 ->
  (forall e x, stripe_held s key = Some (InviteTransaction, e, x) -> footprint key e <= LIMIT) ->
  stripe_grows now s (stripe_shorten key now (s, no_change)).2.1.
Proof.
  intros Hs Hn Hf. pose proof (stripe_get_grows n s key now Hs) as G. revert G. unfold stripe_shorten, stripe_get.
  destruct (step_get (st_invite s) no_change key now 0 (so_invite n s Hs) small_none ltac:(lia)) as (_ & _ & M1). cbv zeta in M1.
  destruct (pl_table (st_invite s) !! key) as [sl|] eqn:Hk; [destruct (now <? sl_expires_at_ms sl)|].
  - rewrite M1. intros _. destruct s as [i r ttl]. cbn [st_invite st_retransmission st_invite_ttl_ms fst snd].
    apply (stripe_insert_grows n); [done|done|]. apply (Hf _ (sl_expires_at_ms sl)). unfold stripe_held, pool_held. simpl in *. by rewrite Hk.
  - destruct M1 as [M1 _]. destruct (pool_get key now (st_invite s, no_change)) as [found [i c1]]. cbn [fst snd] in *. subst found.
    cbn [st_retransmission st_invite st_invite_ttl_ms]. by destruct (pool_get key now (st_retransmission s, c1)) as [found [r c2]].
  - rewrite M1. cbn [fst snd st_retransmission st_invite st_invite_ttl_ms].
    by destruct (pool_get key now (st_retransmission s, no_change)) as [found [r c2]].
Qed.
End stripe.
