(* ===== verification/BranchMemoProps.v ===== *)
(** * Front proxy: what the branch memo guarantees

    Over every sequence of operations: the memo stays within its bounds and its
    totals are those of what it holds; it answers as a map of keys to timed
    entries would, evictions aside; and a sweep leaves exactly what is live. *)

From S2P Require Import Prelude Texts Retransmit TxnData ProxyTypes BranchMemo BranchMemoInv BranchMemoSteps.
From stdpp Require Import pretty.
From Stdlib Require Import Ascii.

Open Scope Z_scope.

(** ** Operations *)

Inductive MemoOp :=
  | OpRemember (key : string) (e : CancelEntry) (lt : Lifetime)
  | OpLookup (key : string)
  | OpShorten (key : string)
  | OpSweep (stripe : nat).

Section memo.
Context `{E : MemoEnv} {W : MemoLaws E}.

Definition memo_step (m : CancelBranchLru) (o : MemoOp * Z) : CancelBranchLru :=
  match o with
  | (OpRemember key e lt, now) => remember key e lt now m
  | (OpLookup key, now) => (lookup_memo key now m).2
  | (OpShorten key, now) => (shorten key now m).2
  | (OpSweep i, now) => (sweep_stripe i now m).2
  end.
Definition memo_run (ops : list (MemoOp * Z)) (m : CancelBranchLru) : CancelBranchLru := foldl memo_step m ops.

(** An entry a write may carry: its accounted bytes leave room in the counters. *)
Definition op_wf (o : MemoOp * Z) : Prop :=
  match o.1 with OpRemember key e _ => footprint key e <= LIMIT | _ => True end.

(** ** The invariant *)

Definition total (f : Stripe -> Z) (m : CancelBranchLru) : Z := foldr (fun s n => f s + n) 0 (lru_stripes m).

Record memo_ok (n : Z) (m : CancelBranchLru) : Prop := {
  mo_some : lru_stripes m <> [];
  mo_stripes : Forall (stripe_ok n) (lru_stripes m);
  mo_len : lru_len m = total stripe_size m;
  mo_bytes : lru_bytes m = u64_wrap (total stripe_bytes m);
  mo_evicted : 0 <= lru_evicted m /\ lru_evicted m + total stripe_size m <= n;
}.

Definition held (m : CancelBranchLru) (k : string) : option Held :=
  s ← lru_stripes m !! slot_of k m; stripe_held s k.

Lemma stripes_total_insert f (l : list Stripe) i s s' :
  l !! i = Some s -> foldr (fun s n => f s + n) 0 (<[i := s']> l) = foldr (fun s n => f s + n) 0 l - f s + f s'.
Proof.
  revert i. induction l as [|a l IH]; intros [|i] Hi; simpl in *; [done..| |].
  - simplify_eq. lia.
  - rewrite (IH i Hi). lia.
Qed.
Lemma stripe_size_nonneg s : 0 <= stripe_size s.
Proof. unfold stripe_size. lia. Qed.
Lemma stripes_total_nonneg m : 0 <= total stripe_size m.
Proof. unfold total. induction (lru_stripes m) as [|s l IH]; simpl; [done|]. pose proof (stripe_size_nonneg s). lia. Qed.

Lemma slot_in_range k n m : memo_ok n m -> exists s, lru_stripes m !! slot_of k m = Some s /\ stripe_ok n s.
Proof.
  intros Hm. pose proof (mo_some n m Hm) as Hne. unfold slot_of. set (c := Z.max 1 _).
  assert (0 < length (lru_stripes m))%nat as Hl by (destruct (lru_stripes m); [done|simpl; lia]).
  pose proof (Z.mod_pos_bound (memo_hash k) c ltac:(lia)) as Hb.
  destruct (lookup_lt_is_Some_2 (lru_stripes m) (Z.to_nat (memo_hash k mod c))) as [s Hs]; [lia|].
  exists s. split; [done|]. pose proof (mo_stripes n m Hm) as Hf. rewrite Forall_forall in Hf. apply Hf. by apply list_elem_of_lookup_2 in Hs.
Qed.

(** What an operation on one stripe does to the memo. *)
Lemma on_stripe_ok {A} n m i (none : A) f s :
  memo_ok n m -> n + 1 < 2 ^ 64 -> lru_stripes m !! i = Some s -> stripe_step n s (f (s, no_change)).2 ->
  let r := on_stripe i none f m in
  memo_ok (n + 1) r.2 /\ r.1 = (f (s, no_change)).1 /\
  lru_stripes r.2 = <[i := (f (s, no_change)).2.1]> (lru_stripes m) /\
  lru_evicted r.2 = lru_evicted m + ch_evicted (f (s, no_change)).2.2.
Proof.
  intros Hm Hn Hi Hst. unfold on_stripe. rewrite Hi. destruct (f (s, no_change)) as [a [s' c]]. cbn [fst snd] in *.
  destruct Hst as [K1 K2 K3 K4 K5 K6 K7]. cbn [fst snd] in *. destruct Hm as [M1 M2 M3 M4 [M5 M6]].
  pose proof (stripes_total_insert stripe_size _ i s s' Hi) as T1. pose proof (stripes_total_insert stripe_bytes _ i s s' Hi) as T2.
  fold (total stripe_size m) in T1. fold (total stripe_bytes m) in T2.
  pose proof (stripes_total_nonneg m) as H0.
  pose proof (stripes_total_nonneg (mkLru (<[i := s']> (lru_stripes m)) 0 0 0)) as H1. unfold total in H1. simpl in H1. rewrite T1 in H1.
  assert (u64_wrap (lru_evicted m + ch_evicted c) = lru_evicted m + ch_evicted c) as Hev.
  { unfold u64_wrap. apply Z.mod_small. lia. }
  split; [|split; [done|split; [done|exact Hev]]]. unfold total.
  split; unfold total; cbn [account lru_stripes lru_len lru_bytes lru_evicted]; rewrite ?T1, ?T2.
  - intros He. apply (f_equal length) in He. rewrite length_insert in He. destruct (lru_stripes m); [done|]. discriminate He.
  - apply Forall_insert; [|done]. eapply Forall_impl; [done|]. intros s0 [S1 S2 S3 [S4 S5]]. split; try done. lia.
  - rewrite M3. unfold u64_wrap. rewrite Zminus_mod_idemp_l. rewrite Z.mod_small; lia.
  - rewrite M4, <- Z.add_opp_r, u64_wrap_add_l, <- Z.add_assoc, u64_wrap_add_l. apply (f_equal u64_wrap). lia.
  - rewrite Hev. lia.
Qed.

(** The key of an operation's stripe. *)
Lemma slot_same k m m' : length (lru_stripes m') = length (lru_stripes m) -> slot_of k m' = slot_of k m.
Proof. intros Hl. unfold slot_of. by rewrite Hl. Qed.
Lemma held_insert m m' i s s' k :
  lru_stripes m !! i = Some s -> lru_stripes m' = <[i := s']> (lru_stripes m) ->
  held m' k = if decide (slot_of k m = i) then stripe_held s' k else held m k.
Proof.
  intros Hi Hs. unfold held. rewrite (slot_same k m m') by (rewrite Hs; apply length_insert). rewrite Hs.
  destruct (decide (slot_of k m = i)) as [->|Hne].
  - rewrite list_lookup_insert_eq; [done|]. by apply lookup_lt_Some in Hi.
  - by rewrite list_lookup_insert_ne by done.
Qed.

(** ** The abstract memo: a map from keys to timed entries *)

Definition spec_step (invite_ttl_ms : Z) (sp : gmap string Held) (o : MemoOp * Z) : gmap string Held :=
  match o with
  | (OpRemember key e lt, now) =>
      <[key := (lt, e, sat_add now (match lt with InviteTransaction => invite_ttl_ms | Retransmission => RTX_ENTRY_TTL_MS end))]> sp
  | (OpShorten key, now) =>
      match sp !! key with
      | Some (InviteTransaction, e, x) => if now <? x then <[key := (Retransmission, e, sat_add now RTX_ENTRY_TTL_MS)]> sp else sp
      | _ => sp
      end
  | _ => sp
  end.
Definition spec_run (ttl : Z) (ops : list (MemoOp * Z)) (sp : gmap string Held) : gmap string Held := foldl (spec_step ttl) sp ops.

(** One step: what the memo held is changed as the map is, then some entries go,
    expired or, when the counter moved, evicted. *)
Definition after_op (ttl : Z) (o : MemoOp * Z) (f : string -> option Held) : string -> option Held :=
  match o with
  | (OpRemember key e lt, now) =>
      updated key (lt, e, sat_add now (match lt with InviteTransaction => ttl | Retransmission => RTX_ENTRY_TTL_MS end)) f
  | (OpShorten key, now) => shortened key now f
  | _ => f
  end.
Definition answers (ttl : Z) (o : MemoOp * Z) (m m' : CancelBranchLru) : Prop :=
  shrinks o.2 (lru_evicted m <? lru_evicted m') (after_op ttl o (held m)) (held m').

(** An operation on the stripe of [key], seen from the whole memo. *)
Lemma lift_shrinks m m' i s s' now b (F : (string -> option Held) -> string -> option Held) :
  lru_stripes m !! i = Some s -> lru_stripes m' = <[i := s']> (lru_stripes m) ->
  (forall f g k, (forall k', slot_of k' m = i -> f k' = g k') -> slot_of k m = i -> F f k = F g k) ->
  (forall f k, slot_of k m <> i -> F f k = f k) ->
  shrinks now b (F (stripe_held s)) (stripe_held s') -> shrinks now b (F (held m)) (held m').
Proof.
  intros Hi Hs HF HF' Hsh k. rewrite (held_insert m m' i s s' k Hi Hs).
  destruct (decide (slot_of k m = i)) as [Hk|Hk]; [|left; by rewrite HF'].
  rewrite (HF (held m) (stripe_held s) k); [apply Hsh| |done].
  intros k' Hk'. unfold held. by rewrite Hk', Hi.
Qed.

Lemma invite_fits n s k e x : stripe_ok n s -> stripe_held s k = Some (InviteTransaction, e, x) -> footprint k e <= LIMIT.
Proof.
  intros Hs Hh. unfold stripe_held, pool_held in Hh. destruct (pl_table (st_invite s) !! k) as [sl|] eqn:Hk; simpl in Hh.
  - injection Hh as <- <-. pose proof (so_invite n s Hs) as Hf. pose proof (slot_le_bytes _ k sl (pf_ok _ Hf) Hk) as Hb.
    apply (po_slot _ (pf_ok _ Hf)) in Hk as [_ <-]. pose proof (pool_within _ Hf). pose proof (pf_max_bytes _ Hf). lia.
  - by destruct (pl_table (st_retransmission s) !! k).
Qed.

(** The stripes keep the bounds and the lifetime they were made with. *)
Definition shaped (s0 : Stripe) (m : CancelBranchLru) : Prop := Forall (same_bounds s0) (lru_stripes m).
Lemma same_bounds_trans s1 s2 s3 : same_bounds s1 s2 -> same_bounds s2 s3 -> same_bounds s1 s3.
Proof. intros (A1 & A2 & A3 & A4 & A5) (B1 & B2 & B3 & B4 & B5). split_and!; congruence. Qed.

Lemma memo_ok_mono n m : memo_ok n m -> memo_ok (n + 1) m.
Proof.
  intros [M1 M2 M3 M4 M5]. split; try done; [|lia]. eapply Forall_impl; [done|]. intros s [S1 S2 S3 [S4 S5]]. split; try done. lia.
Qed.

(** An operation whose stripe does as it should. *)
Lemma lifted {A} s0 n m i (none : A) f s now F :
  memo_ok n m -> shaped s0 m -> n + 1 < 2 ^ 64 -> lru_stripes m !! i = Some s ->
  stripe_step n s (f (s, no_change)).2 ->
  (forall f g k, (forall k', slot_of k' m = i -> f k' = g k') -> slot_of k m = i -> F f k = F g k) ->
  (forall f k, slot_of k m <> i -> F f k = f k) ->
  shrinks now (0 <? ch_evicted (f (s, no_change)).2.2) (F (stripe_held s)) (stripe_held (f (s, no_change)).2.1) ->
  let r := on_stripe i none f m in
  memo_ok (n + 1) r.2 /\ shaped s0 r.2 /\ r.1 = (f (s, no_change)).1 /\ lru_evicted m <= lru_evicted r.2 /\
  shrinks now (lru_evicted m <? lru_evicted r.2) (F (held m)) (held r.2).
Proof.
  intros Hm Hsh Hn Hi Hst HF HF' H. destruct (on_stripe_ok n m i none f s Hm Hn Hi Hst) as (R1 & R2 & R3 & R4). cbv zeta.
  set (r := on_stripe i none f m) in *. split; [done|]. split; [|split; [done|split]].
  - unfold shaped. rewrite R3. apply Forall_insert; [done|]. apply (same_bounds_trans _ s); [|apply (ss_bounds _ _ _ Hst)].
    unfold shaped in Hsh. rewrite Forall_forall in Hsh. apply Hsh. by apply list_elem_of_lookup_2 in Hi.
  - rewrite R4. pose proof (ss_evicted _ _ _ Hst). lia.
  - replace (lru_evicted m <? lru_evicted r.2) with (0 <? ch_evicted (f (s, no_change)).2.2).
    + by apply (lift_shrinks m r.2 i s _ now _ F Hi R3).
    + rewrite R4. destruct (Z.ltb_spec 0 (ch_evicted (f (s, no_change)).2.2)), (Z.ltb_spec (lru_evicted m) (lru_evicted m + ch_evicted (f (s, no_change)).2.2)); lia.
Qed.

Lemma updated_ext key h m i :
  slot_of key m = i ->
  (forall f g k, (forall k', slot_of k' m = i -> f k' = g k') -> slot_of k m = i -> updated key h f k = updated key h g k) /\
  (forall f k, slot_of k m <> i -> updated key h f k = f k).
Proof.
  intros Hi. unfold updated. split; intros f; [intros g k He Hk|intros k Hk]; destruct (decide (k = key)); try done; [by apply He|congruence].
Qed.
Lemma shortened_ext key now m i :
  slot_of key m = i ->
  (forall f g k, (forall k', slot_of k' m = i -> f k' = g k') -> slot_of k m = i -> shortened key now f k = shortened key now g k) /\
  (forall f k, slot_of k m <> i -> shortened key now f k = f k).
Proof.
  intros Hi. unfold shortened. split.
  - intros f g k He Hk. rewrite (He key Hi). destruct (g key) as [[[[] e] x]|]; try by apply He. destruct (now <? x); [|by apply He].
    by apply (updated_ext key _ m i).
  - intros f k Hk. destruct (f key) as [[[[] e] x]|]; try done. destruct (now <? x); [|done]. by apply (updated_ext key _ m i).
Qed.
Lemma id_ext (m : CancelBranchLru) i :
  (forall (f g : string -> option Held) k, (forall k', slot_of k' m = i -> f k' = g k') -> slot_of k m = i -> f k = g k) /\
  (forall (f : string -> option Held) k, slot_of k m <> i -> f k = f k).
Proof. split; [|done]. intros f g k He Hk. by apply He. Qed.

Lemma memo_step_spec s0 n m o :
  memo_ok n m -> shaped s0 m -> n + 1 < 2 ^ 64 -> op_wf o ->
  memo_ok (n + 1) (memo_step m o) /\ shaped s0 (memo_step m o) /\ lru_evicted m <= lru_evicted (memo_step m o) /\
  answers (st_invite_ttl_ms s0) o m (memo_step m o).
Proof.
  intros Hm Hsh Hn Hw. destruct o as [[key e lt|key|key|i] now]; unfold answers; cbn [memo_step after_op op_wf fst snd] in *.
  - destruct (slot_in_range key n m Hm) as (s & Hi & Hs). destruct (stripe_insert_spec n s key e lt now Hs Hn Hw) as (I1 & _ & I3).
    destruct (updated_ext key (lt, e, sat_add now (stripe_ttl s lt)) m _ eq_refl) as [X1 X2].
    destruct (lifted s0 n m _ tt (fun sc => (tt, stripe_insert key e lt now sc)) s now _ Hm Hsh Hn Hi I1 X1 X2 I3) as (R1 & R2 & _ & R3 & R4).
    split; [done|]. split; [done|]. split; [done|]. replace (st_invite_ttl_ms s0) with (st_invite_ttl_ms s); [exact R4|].
    unfold shaped in Hsh. rewrite Forall_forall in Hsh. apply Hsh. by apply list_elem_of_lookup_2 in Hi.
  - destruct (slot_in_range key n m Hm) as (s & Hi & Hs). destruct (stripe_get_spec n s key now Hs) as (I1 & _ & I3 & _ & I5).
    destruct (id_ext m (slot_of key m)) as [X1 X2].
    destruct (lifted s0 n m _ None (stripe_get key now) s now (fun f => f) Hm Hsh Hn Hi I1 X1 X2) as (R1 & R2 & _ & R3 & R4); [|done].
    by rewrite I3.
  - destruct (slot_in_range key n m Hm) as (s & Hi & Hs).
    destruct (stripe_shorten_spec n s key now Hs Hn) as (I1 & _ & I3); [intros; by apply (invite_fits n s key e x)|].
    destruct (shortened_ext key now m _ eq_refl) as [X1 X2].
    by destruct (lifted s0 n m _ None (stripe_shorten key now) s now _ Hm Hsh Hn Hi I1 X1 X2 I3) as (R1 & R2 & _ & R3 & R4).
  - unfold sweep_stripe. destruct (lru_stripes m !! i) as [s|] eqn:Hi.
    + assert (stripe_ok n s) as Hs by (pose proof (mo_stripes n m Hm) as Hf; rewrite Forall_forall in Hf; apply Hf; by apply list_elem_of_lookup_2 in Hi).
      destruct (stripe_expire_spec n s now Hs) as (I1 & _ & I3 & I4 & _). destruct (id_ext m i) as [X1 X2].
      destruct (lifted s0 n m i no_change (fun sc => let '(s, c) := stripe_expire now sc in (c, (s, c))) s now (fun f => f) Hm Hsh Hn Hi)
        as (R1 & R2 & _ & R3 & R4); try done; destruct (stripe_expire now (s, no_change)) as [s' c]; [done|]. cbn [fst snd] in *. by rewrite I3.
    + unfold on_stripe. rewrite Hi. split; [by apply memo_ok_mono|]. split; [done|]. split; [done|apply shrinks_refl].
Qed.

(** ** Runs *)

Lemma memo_run_ok s0 ops n m :
  memo_ok n m -> shaped s0 m -> n + Z.of_nat (length ops) < 2 ^ 64 -> Forall op_wf ops ->
  memo_ok (n + Z.of_nat (length ops)) (memo_run ops m) /\ shaped s0 (memo_run ops m).
Proof.
  intros Hm Hsh Hn Hw. revert n m Hm Hsh Hn. induction Hw as [|o ops Ho _ IH]; intros n m Hm Hsh Hn; simpl.
  - by rewrite Z.add_0_r.
  - simpl in Hn. destruct (memo_step_spec s0 n m o Hm Hsh ltac:(lia) Ho) as (R1 & R2 & _).
    destruct (IH (n + 1) (memo_step m o) R1 R2 ltac:(lia)) as [I1 I2]. split; [|done].
    replace (n + Z.of_nat (S (length ops))) with (n + 1 + Z.of_nat (length ops)) by lia. done.
Qed.

(** Every entry held is the one the map has. *)
Definition sound (m : CancelBranchLru) (sp : gmap string Held) : Prop := forall k h, held m k = Some h -> sp !! k = Some h.
(** With nothing evicted, every entry of the map alive at [T] is held. *)
Definition complete (T : Z) (m : CancelBranchLru) (sp : gmap string Held) : Prop :=
  lru_evicted m = 0 -> forall k h, sp !! k = Some h -> T < h.2 -> held m k = Some h.

Lemma after_sound ttl o m sp :
  sound m sp -> forall k h, after_op ttl o (held m) k = Some h -> spec_step ttl sp o !! k = Some h.
Proof.
  intros Hs k h. destruct o as [[key e lt|key|key|i] now]; cbn [after_op spec_step]; try apply Hs.
  - unfold updated. destruct (decide (k = key)) as [->|Hne]; [intros [= <-]; apply lookup_insert_eq|].
    intros Hk. rewrite lookup_insert_ne by done. by apply Hs.
  - unfold shortened. destruct (held m key) as [[[lt e] x]|] eqn:Hk.
    + pose proof (Hs _ _ Hk) as ->. destruct lt; [|apply Hs]. destruct (now <? x); [|apply Hs]. unfold updated.
      destruct (decide (k = key)) as [->|Hne]; [intros [= <-]; apply lookup_insert_eq|]. intros Hk'. rewrite lookup_insert_ne by done. by apply Hs.
    + intros Hk'. assert (k <> key) by congruence. destruct (sp !! key) as [[[[] e] x]|]; try by apply Hs.
      destruct (now <? x); [|by apply Hs]. rewrite lookup_insert_ne by done. by apply Hs.
Qed.
Lemma sound_step s0 n m o sp :
  memo_ok n m -> shaped s0 m -> n + 1 < 2 ^ 64 -> op_wf o -> sound m sp ->
  sound (memo_step m o) (spec_step (st_invite_ttl_ms s0) sp o).
Proof.
  intros Hm Hsh Hn Hw Hs k h Hk. destruct (memo_step_spec s0 n m o Hm Hsh Hn Hw) as (_ & _ & _ & R).
  apply (after_sound _ o m sp Hs). destruct (R k) as [<-|(Hnone & _)]; congruence.
Qed.

Lemma after_complete ttl T o m sp :
  sound m sp -> complete T m sp -> lru_evicted m = 0 -> T <= o.2 ->
  forall k h, spec_step ttl sp o !! k = Some h -> o.2 < h.2 -> after_op ttl o (held m) k = Some h.
Proof.
  intros Hs Hc He HT k h. destruct o as [[key e lt|key|key|i] now]; cbn [after_op spec_step fst snd] in *; intros Hk Hx; try (apply Hc; [done..|lia]).
  - unfold updated. destruct (decide (k = key)) as [->|Hne]; [by rewrite lookup_insert_eq in Hk|].
    rewrite lookup_insert_ne in Hk by done. apply Hc; [done..|lia].
  - assert (forall k' h', sp !! k' = Some h' -> now < h'.2 -> held m k' = Some h') as Hc' by (intros; apply Hc; [done..|lia]).
    unfold shortened. destruct (sp !! key) as [[[lt e] x]|] eqn:Hkey.
    + destruct lt.
      * destruct (Z.ltb_spec now x) as [Hlt|Hge].
        -- rewrite (Hc' _ _ Hkey Hlt). destruct (Z.ltb_spec now x); [|lia]. unfold updated.
           destruct (decide (k = key)) as [->|Hne]; [by rewrite lookup_insert_eq in Hk|]. rewrite lookup_insert_ne in Hk by done. by apply Hc'.
        -- assert (k <> key) by (intros ->; rewrite Hkey in Hk; injection Hk as <-; simpl in Hx; lia).
           destruct (held m key) as [h0|] eqn:Hh; [|by apply Hc'].
           pose proof (Hs _ _ Hh) as Hh'. rewrite Hkey in Hh'. injection Hh' as <-. destruct (Z.ltb_spec now x); [lia|by apply Hc'].
      * destruct (held m key) as [h0|] eqn:Hh; [|by apply Hc']. pose proof (Hs _ _ Hh) as Hh'. rewrite Hkey in Hh'. injection Hh' as <-. by apply Hc'.
    + destruct (held m key) as [h0|] eqn:Hh; [|by apply Hc']. apply Hs in Hh. congruence.
Qed.
Lemma complete_step s0 n T m o sp :
  memo_ok n m -> shaped s0 m -> n + 1 < 2 ^ 64 -> op_wf o -> T <= o.2 -> sound m sp -> complete T m sp ->
  complete o.2 (memo_step m o) (spec_step (st_invite_ttl_ms s0) sp o).
Proof.
  intros Hm Hsh Hn Hw HT Hs Hc He k h Hk Hx. destruct (memo_step_spec s0 n m o Hm Hsh Hn Hw) as (R1 & _ & Hev & R).
  assert (lru_evicted m = 0) as He0 by (pose proof (mo_evicted n m Hm); lia).
  specialize (R k). rewrite (after_complete _ T o m sp Hs Hc He0 HT k h Hk Hx) in R.
  destruct R as [->|(_ & h' & [= <-] & [Hle|Hev'])]; [done|lia|]. apply Z.ltb_lt in Hev'. lia.
Qed.

Fixpoint clocked (T : Z) (ops : list (MemoOp * Z)) : Prop :=
  match ops with [] => True | o :: ops => T <= o.2 /\ clocked o.2 ops end.
Definition clock_after (T : Z) (ops : list (MemoOp * Z)) : Z := foldl (fun _ o => o.2) T ops.

Lemma sound_run s0 ops n m sp :
  memo_ok n m -> shaped s0 m -> n + Z.of_nat (length ops) < 2 ^ 64 -> Forall op_wf ops -> sound m sp ->
  sound (memo_run ops m) (spec_run (st_invite_ttl_ms s0) ops sp).
Proof.
  intros Hm Hsh Hn Hw. revert n m sp Hm Hsh Hn. induction Hw as [|o ops Ho _ IH]; intros n m sp Hm Hsh Hn Hs; [done|].
  simpl in *. destruct (memo_step_spec s0 n m o Hm Hsh ltac:(lia) Ho) as (R1 & R2 & _).
  apply (IH (n + 1)); [done|done|lia|]. apply (sound_step s0 n m o); [done|done|lia|done|done].
Qed.
Lemma complete_run s0 ops n T m sp :
  memo_ok n m -> shaped s0 m -> n + Z.of_nat (length ops) < 2 ^ 64 -> Forall op_wf ops -> clocked T ops ->
  sound m sp -> complete T m sp ->
  complete (clock_after T ops) (memo_run ops m) (spec_run (st_invite_ttl_ms s0) ops sp).
Proof.
  intros Hm Hsh Hn Hw. revert n T m sp Hm Hsh Hn. induction Hw as [|o ops Ho _ IH]; intros n T m sp Hm Hsh Hn Hcl Hs Hc; [done|].
  simpl in *. destruct Hcl as [HT Hcl]. destruct (memo_step_spec s0 n m o Hm Hsh ltac:(lia) Ho) as (R1 & R2 & _).
  apply (IH (n + 1)); [done|done|lia|done|apply (sound_step s0 n m o); [done|done|lia|done|done]|]. apply (complete_step s0 n T m o); [done|done|lia|done..].
Qed.

(** Write order stays expiry order. *)
Definition memo_aged (T : Z) (m : CancelBranchLru) : Prop := Forall (stripe_aged T) (lru_stripes m).
Lemma aged_later T now s : stripe_aged T s -> T <= now -> stripe_aged now s.
Proof. intros Hs HT. apply (stripe_aged_grows T now s s); [done..|]. by split_and!; [|left|left]. Qed.
Lemma on_stripe_aged {A} T now m i (none : A) f :
  memo_aged T m -> T <= now ->
  (forall s, lru_stripes m !! i = Some s -> stripe_grows now s (f (s, no_change)).2.1) -> memo_aged now (on_stripe i none f m).2.
Proof.
  intros Ha HT Hg. unfold on_stripe, memo_aged in *.
  assert (Forall (stripe_aged now) (lru_stripes m)) as Hn by (eapply Forall_impl; [done|]; intros s Hs; by apply (aged_later T)).
  destruct (lru_stripes m !! i) as [s|] eqn:Hi; [|done]. specialize (Hg s eq_refl). destruct (f (s, no_change)) as [a [s' c]].
  simpl. apply Forall_insert; [done|]. apply (stripe_aged_grows T now s s'); [|done|done].
  rewrite Forall_forall in Ha. apply Ha. by apply list_elem_of_lookup_2 in Hi.
Qed.
Lemma aged_step n T m o : memo_ok n m -> n + 1 < 2 ^ 64 -> op_wf o -> memo_aged T m -> T <= o.2 -> memo_aged o.2 (memo_step m o).
Proof.
  intros Hm Hn Hw Ha HT.
  assert (forall i s, lru_stripes m !! i = Some s -> stripe_ok n s) as Hok.
  { intros i s Hi. pose proof (mo_stripes n m Hm) as Hf. rewrite Forall_forall in Hf. apply Hf. by apply list_elem_of_lookup_2 in Hi. }
  destruct o as [[key e lt|key|key|i] now]; cbn [memo_step fst snd op_wf] in *.
  - apply (on_stripe_aged T now m _ tt (fun sc => (tt, stripe_insert key e lt now sc)) Ha HT).
    intros s Hi. apply (stripe_insert_grows n); [by apply (Hok _ s Hi)|done|done].
  - apply (on_stripe_aged T now m _ None (stripe_get key now) Ha HT). intros s Hi. apply (stripe_get_grows n). by apply (Hok _ s Hi).
  - apply (on_stripe_aged T now m _ None (stripe_shorten key now) Ha HT). intros s Hi. pose proof (Hok _ s Hi) as Hs.
    apply (stripe_shorten_grows n); [done|done|]. intros e x. by apply (invite_fits n).
  - apply (on_stripe_aged T now m i no_change (fun sc => let '(s, c) := stripe_expire now sc in (c, (s, c))) Ha HT).
    intros s Hi. pose proof (stripe_expire_grows n s now (Hok _ s Hi)) as G. by destruct (stripe_expire now (s, no_change)) as [s' c].
Qed.
Lemma aged_run ops n T m :
  (exists s0, shaped s0 m) -> memo_ok n m -> n + Z.of_nat (length ops) < 2 ^ 64 -> Forall op_wf ops -> clocked T ops -> memo_aged T m ->
  memo_aged (clock_after T ops) (memo_run ops m).
Proof.
  intros Hsh Hm Hn Hw. revert n T m Hsh Hm Hn. induction Hw as [|o ops Ho _ IH]; intros n T m [s0 Hsh] Hm Hn Hcl Ha; [done|].
  simpl in *. destruct Hcl as [HT Hcl]. destruct (memo_step_spec s0 n m o Hm Hsh ltac:(lia) Ho) as (R1 & R2 & _).
  apply (IH (n + 1)); [by exists s0|done|lia|done|]. by apply (aged_step n T m o); [|lia|..].
Qed.

(** ** The bounds a memo is made with *)

Definition bounds_wf (b : MemoBounds) : Prop :=
  0 <= mb_max_entries b <= LIMIT /\ 0 <= mb_max_bytes b <= LIMIT /\ 0 <= mb_invite_ttl_ms b <= 2 ^ 40 /\
  0 <= mb_mean_ring_ms b <= 2 ^ 40 /\ 0 <= mb_invites_per_call_milli b <= 2 ^ 20.

Lemma whole_part b : bounds_wf b -> 0 <= invite_ms_per_call b < entry_ms_per_call b.
Proof.
  intros (_ & _ & Ht & Hr & Hi). unfold entry_ms_per_call. assert (0 <= invite_ms_per_call b <= 2 ^ 52) as Hp.
  { unfold invite_ms_per_call, further_invites_milli, sat_add, sat_mul, sat_sub, DEFAULT_INVITES_PER_CALL_MILLI, usize_MAX, u64_MAX.
    set (f := Z.max 0 (mb_invites_per_call_milli b - 2000)). assert (0 <= f <= 2 ^ 20) as Hf by lia.
    pose proof (Z.mul_nonneg_nonneg f (mb_invite_ttl_ms b) ltac:(lia) ltac:(lia)) as H0.
    assert (f * mb_invite_ttl_ms b <= 2 ^ 20 * 2 ^ 40) as H1 by (apply Z.mul_le_mono_nonneg; lia).
    set (q := Z.min (2 ^ 64 - 1) (f * mb_invite_ttl_ms b)). assert (0 <= q <= 2 ^ 60) as Hq by lia.
    assert (0 <= q / 1000 <= 2 ^ 60 / 1000) by (split; [apply Z.div_pos; lia|apply Z.div_le_mono; lia]). clearbody q. change (2 ^ 60 `div` 1000) with 1152921504606846 in *. lia. }
  set (f := sat_mul (further_invites_milli b) _). assert (0 <= f <= usize_MAX) as Hf
    by (apply sat_mul_range; [unfold further_invites_milli, sat_sub; lia|done]).
  assert (0 <= f / 1000 <= usize_MAX / 1000) as Hd by (split; [apply Z.div_pos; lia|apply Z.div_le_mono; lia]).
  unfold u64_wrap, usize_MAX, u64_MAX in *. unfold RTX_ENTRY_TTL_MS, TIMER_F, TIMER_H, T1.
  clearbody f. change ((2 ^ 64 - 1) `div` 1000) with 18446744073709551 in Hd. rewrite Z.mod_small; lia.
Qed.

(** A pool of INVITE entries takes its part of a stripe's share and leaves the
    rest to the other. *)
Lemma share_within b n : bounds_wf b -> 0 <= n <= LIMIT -> exists v, invite_share b n = Some v /\ 0 <= v <= n.
Proof.
  intros Hb Hn. pose proof (whole_part b Hb) as Hw. unfold invite_share. set (w := entry_ms_per_call b) in *. set (q := invite_ms_per_call b) in *.
  destruct (Z.eqb_spec w 0); [lia|]. eexists. split; [done|].
  pose proof (Z.div_mod n w ltac:(lia)) as Hdm. pose proof (Z.mod_pos_bound n w ltac:(lia)) as Hmod.
  pose proof (Z.div_pos n w ltac:(lia) ltac:(lia)) as Hdiv.
  pose proof (Z.mul_nonneg_nonneg (n / w) q ltac:(lia) ltac:(lia)). pose proof (Z.mul_nonneg_nonneg (n mod w) q ltac:(lia) ltac:(lia)).
  assert (n / w * q <= n / w * w) by (apply Z.mul_le_mono_nonneg_l; lia).
  assert (0 <= sat_mul (n mod w) q / w <= n mod w) as Hr.
  { pose proof (sat_mul_range (n mod w) q ltac:(lia) ltac:(lia)) as Hs. split; [apply Z.div_pos; lia|].
    apply Z.div_le_upper_bound; [lia|]. unfold sat_mul. assert (n mod w * q <= n mod w * w) by (apply Z.mul_le_mono_nonneg_l; lia). lia. }
  unfold sat_add, sat_mul in *. unfold usize_MAX, u64_MAX, LIMIT in *. lia.
Qed.
Lemma div_ceil_range a b : 0 <= a -> 1 <= b -> 0 <= div_ceil a b <= a.
Proof.
  intros Ha Hb. unfold div_ceil. split; [apply Z.div_pos; lia|]. destruct (Z.eq_dec a 0) as [->|Hne].
  - rewrite Z.div_small; lia.
  - apply Z.div_le_upper_bound; [lia|]. nia.
Qed.

(** Most one stripe holds of a bound. *)
Definition stripe_most (b : MemoBounds) (total : Z) : Z := div_ceil total (stripe_count b) + 2.
Lemma split_within b lt total :
  bounds_wf b -> 0 <= total <= LIMIT -> exists v, pool_split b lt total = Some v /\ 0 <= v <= LIMIT.
Proof.
  intros Hb Ht. pose proof (div_ceil_range total (stripe_count b) ltac:(lia) ltac:(unfold stripe_count; lia)) as Hd.
  unfold pool_split. destruct (share_within b (div_ceil total (stripe_count b)) Hb ltac:(lia)) as (v & -> & Hv). simpl.
  destruct lt; eexists; (split; [done|]); unfold sat_sub, LIMIT in *; lia.
Qed.
Lemma splits_sum b total i r :
  bounds_wf b -> 0 <= total <= LIMIT -> pool_split b InviteTransaction total = Some i -> pool_split b Retransmission total = Some r ->
  i + r <= stripe_most b total.
Proof.
  intros Hb Ht. pose proof (div_ceil_range total (stripe_count b) ltac:(lia) ltac:(unfold stripe_count; lia)) as Hd.
  unfold pool_split, stripe_most. destruct (share_within b (div_ceil total (stripe_count b)) Hb ltac:(lia)) as (v & -> & Hv). simpl.
  intros [= <-] [= <-]. unfold sat_sub. lia.
Qed.

Lemma pool_new_fine me mb : 0 <= me <= LIMIT -> 0 <= mb <= LIMIT -> pool_fine (pool_new me mb).
Proof.
  intros He Hb. split; simpl; [|done..|]. 2: { unfold over_bound. simpl. rewrite map_size_empty. apply orb_false_iff. split; apply Z.ltb_ge; lia. }
  split; simpl; [constructor| |done|].
  - intros c k. rewrite elem_of_nil. split; [done|]. intros (sl & Hk & _). by rewrite lookup_empty in Hk.
  - intros k sl. by rewrite lookup_empty.
Qed.

Lemma with_bounds_ok b :
  bounds_wf b -> exists s0 m, with_bounds b = Some m /\ memo_ok 0 m /\ shaped s0 m /\ (forall T, memo_aged T m) /\
    st_invite_ttl_ms s0 = mb_invite_ttl_ms b /\ (forall k, held m k = None) /\ lru_evicted m = 0 /\
    length (lru_stripes m) = Z.to_nat (stripe_count b) /\
    pl_max_entries (st_invite s0) + pl_max_entries (st_retransmission s0) <= stripe_most b (mb_max_entries b) /\
    pl_max_bytes (st_invite s0) + pl_max_bytes (st_retransmission s0) <= stripe_most b (mb_max_bytes b).
Proof.
  intros Hb. pose proof Hb as (B1 & B2 & _). unfold with_bounds, stripe_new, per_pool.
  destruct (split_within b InviteTransaction (mb_max_entries b) Hb B1) as (ie & Hie & R1).
  destruct (split_within b InviteTransaction (mb_max_bytes b) Hb B2) as (ib & Hib & R2).
  destruct (split_within b Retransmission (mb_max_entries b) Hb B1) as (re & Hre & R3).
  destruct (split_within b Retransmission (mb_max_bytes b) Hb B2) as (rb & Hrb & R4).
  pose proof (splits_sum b _ _ _ Hb B1 Hie Hre) as S1. pose proof (splits_sum b _ _ _ Hb B2 Hib Hrb) as S2.
  rewrite Hie, Hib, Hre, Hrb. simpl. set (s0 := mkStripe (pool_new ie ib) (pool_new re rb) (mb_invite_ttl_ms b)).
  assert (0 < Z.to_nat (stripe_count b))%nat as Hc by (unfold stripe_count; lia). revert Hc. generalize (Z.to_nat (stripe_count b)). intros c Hc.
  assert (forall f, f s0 = 0 -> foldr (fun s n => f s + n) 0 (replicate c s0) = 0) as Hz.
  { intros f Hf. clear Hc. induction c as [|c IH]; simpl; [done|]. rewrite IH. lia. }
  exists s0, (mkLru (replicate c s0) 0 0 0). split; [done|]. split_and!; try done.
  - assert (total stripe_size (mkLru (replicate c s0) 0 0 0) = 0) as Z1 by (by apply Hz).
    assert (total stripe_bytes (mkLru (replicate c s0) 0 0 0) = 0) as Z2 by (by apply Hz).
    split; [destruct c; [lia|done]| |done| |split; [done|rewrite Z1; done]].
    + apply Forall_replicate. split; [by apply pool_new_fine..| |done]. intros k [sl Hk]. simpl in Hk. by rewrite lookup_empty in Hk.
    + by rewrite Z2.
  - apply Forall_replicate. by split_and!.
  - intros T. apply Forall_replicate. split; (split; [intros k sl Hk|intros k sl k' sl' Hk]); simpl in Hk; by rewrite lookup_empty in Hk.
  - intros k. unfold held. simpl. destruct (replicate c s0 !! _) as [s|] eqn:Hs; [|done]. apply lookup_replicate in Hs as [-> _].
    unfold stripe_held, pool_held. simpl. by rewrite lookup_empty.
  - apply length_replicate.
Qed.

(** ** A whole sweep *)

Definition swept_stripe (now : Z) (s : Stripe) : Stripe := (stripe_expire now (s, no_change)).1.
Definition sweep_fold (now : Z) (l : list nat) (acc : (Z * Z) * CancelBranchLru) : (Z * Z) * CancelBranchLru :=
  foldl (fun '((removed, inspected), m) i =>
           let '(c, m) := sweep_stripe i now m in
           ((sat_add removed (ch_removed c), sat_add inspected (ch_inspected c)), m)) acc l.

Lemma sweep_fold_spec s0 now l n rem insp m :
  memo_ok n m -> shaped s0 m -> n + Z.of_nat (length l) < 2 ^ 64 -> NoDup l ->
  (forall i, i ∈ l -> (i < length (lru_stripes m))%nat) ->
  0 <= rem -> 0 <= insp -> rem + lru_len m < 2 ^ 64 ->
  let r := sweep_fold now l ((rem, insp), m) in
  r.1.1 + lru_len r.2 = rem + lru_len m /\ r.1.2 <= insp + (r.1.1 - rem) + 2 * Z.of_nat (length l) /\
  length (lru_stripes r.2) = length (lru_stripes m) /\
  (forall i, lru_stripes r.2 !! i = if decide (i ∈ l) then swept_stripe now <$> lru_stripes m !! i else lru_stripes m !! i).
Proof.
  revert n rem insp m. induction l as [|i l IH]; intros n rem insp m Hm Hsh Hn Hd Hr H1 H2 H3.
  { simpl. split_and!; [done|lia|done|]. intros i. destruct (decide (i ∈ [])) as [Hi|]; [by apply elem_of_nil in Hi|done]. }
  cbv zeta. change (sweep_fold now (i :: l) ((rem, insp), m)) with
    (sweep_fold now l (let '(c, m) := sweep_stripe i now m in ((sat_add rem (ch_removed c), sat_add insp (ch_inspected c)), m))).
  cbn [length] in *.
  apply NoDup_cons in Hd as [Hi Hd]. destruct (lookup_lt_is_Some_2 (lru_stripes m) i) as [s Hs]; [apply Hr; by left|].
  assert (stripe_ok n s) as Hok by (pose proof (mo_stripes n m Hm) as Hf; rewrite Forall_forall in Hf; apply Hf; by apply list_elem_of_lookup_2 in Hs).
  destruct (stripe_expire_spec n s now Hok) as (I1 & I2 & I3 & I4 & I5).
  destruct (memo_step_spec s0 n m (OpSweep i, now) Hm Hsh ltac:(lia) I) as (M1 & M2 & _).
  destruct (on_stripe_ok n m i no_change (fun sc => let '(s, c) := stripe_expire now sc in (c, (s, c))) s Hm ltac:(lia) Hs) as (R1 & R2 & R3 & R4).
  { by destruct (stripe_expire now (s, no_change)). }
  cbn [memo_step] in M1, M2. change (on_stripe i no_change _ m) with (sweep_stripe i now m) in R1, R2, R3, R4.
  destruct (sweep_stripe i now m) as [c m']. cbn [fst snd] in *.
  pose proof (ss_net _ _ _ I1) as Hnet. pose proof (ss_small _ _ _ I1) as (_ & C2 & _ & _ & _ & C6). 
  assert (c = (stripe_expire now (s, no_change)).2 /\ lru_stripes m' = <[i := swept_stripe now s]> (lru_stripes m)) as [Hc Hst].
  { unfold swept_stripe. destruct (stripe_expire now (s, no_change)); done. }
  rewrite <- Hc in *. clear R3 R4. assert (lru_len m' + ch_removed c = lru_len m) as Hlen.
  { rewrite (mo_len _ m' M1), (mo_len _ m Hm). unfold total. rewrite Hst, (stripes_total_insert stripe_size _ i s _ Hs). unfold swept_stripe.
    fold (total stripe_size m). lia. }
  pose proof (stripes_total_nonneg m') as Hp. rewrite <- (mo_len _ m' M1) in Hp.
  assert (sat_add rem (ch_removed c) = rem + ch_removed c) as A1 by (apply sat_add_exact; unfold usize_MAX, u64_MAX; lia).
  assert (0 <= sat_add insp (ch_inspected c) <= insp + ch_inspected c) as A2 by (unfold sat_add, usize_MAX, u64_MAX; lia).
  rewrite A1.
  destruct (IH (n + 1) (rem + ch_removed c) (sat_add insp (ch_inspected c)) m') as (J1 & J2 & J3 & J4); try done; try lia.
  { intros i' Hi'. rewrite Hst, length_insert. apply Hr. by right. }
  set (rr := sweep_fold now l _) in *. split; [lia|]. split; [lia|]. split; [by rewrite J3, Hst, length_insert|].
  intros i'. rewrite J4, Hst. destruct (decide (i' = i)) as [->|Hne].
  - rewrite (decide_False (P := i ∈ l)), (decide_True (P := i ∈ i :: l)) by (done || by left).
    rewrite list_lookup_insert_eq by (by apply lookup_lt_Some in Hs). by rewrite Hs.
  - rewrite list_lookup_insert_ne by done. destruct (decide (i' ∈ l)) as [Hl|Hl].
    + rewrite decide_True by (by right). done.
    + rewrite decide_False; [done|]. rewrite elem_of_cons. tauto.
Qed.

(** An aged stripe swept holds exactly what is live. *)
Lemma swept_exact n T now s k :
  stripe_ok n s -> stripe_aged T s -> T <= now ->
  stripe_held (swept_stripe now s) k = match stripe_held s k with Some h => if now <? h.2 then Some h else None | None => None end.
Proof.
  intros Hs [A1 A2] HT. destruct (stripe_expire_spec n s now Hs) as (I1 & _ & _ & I4 & _). fold (swept_stripe now s) in I4.
  assert (forall h, stripe_held (swept_stripe now s) k = Some h -> now < h.2) as Hlive.
  { unfold swept_stripe, stripe_expire.
    destruct (step_expire now (st_invite s) no_change 0 (so_invite n s Hs) small_none ltac:(lia)) as (S1 & _).
    pose proof (fun k sl => expire_exact T _ now (st_invite s) no_change 0 k sl (so_invite n s Hs) small_none ltac:(lia) A1) as E1.
    destruct (pool_expire now (st_invite s, no_change)) as [i c1]. cbn [fst snd] in *.
    pose proof (fun k sl => expire_exact T _ now (st_retransmission s) c1 1 k sl (so_retransmission n s Hs) (st_small _ _ _ _ S1 0 small_none) ltac:(lia) A2) as E2.
    destruct (pool_expire now (st_retransmission s, c1)) as [r c2]. cbn [fst snd] in *. intros h. unfold stripe_held, pool_held. simpl.
    destruct (pl_table i !! k) as [sl|] eqn:Hk; simpl; [intros [= <-]; by apply (E1 k)|].
    destruct (pl_table r !! k) as [sl|] eqn:Hk'; simpl; [intros [= <-]; by apply (E2 k)|done]. }
  destruct (I4 k) as [He|(He & h & Hh & [Hx|Hx])]; [|rewrite Hh|done].
  - rewrite He. destruct (stripe_held s k) as [h|] eqn:Hh; [|done]. destruct (Z.ltb_spec now h.2); [done|].
    rewrite He in Hlive. specialize (Hlive h eq_refl). lia.
  - destruct (Z.ltb_spec now h.2); [lia|done].
Qed.
End memo.

(** ** A memo to run *)

Definition ex_memo_env : MemoEnv := {| slot_bytes := 216; memo_hash := fun k => Z.of_nat (String.length k) mod 2 ^ 64 |}.
Lemma ex_memo_laws : MemoLaws ex_memo_env.
Proof.
  split; [unfold u32_MAX; simpl; lia|]. intros key. unfold in_u64, u64_MAX. simpl. pose proof (Z.mod_pos_bound (Z.of_nat (String.length key)) (2 ^ 64)). lia.
Qed.
Definition ex_bounds : MemoBounds := mkMemoBounds 4 20000 2 INVITE_ENTRY_TTL_MS DEFAULT_MEAN_RING_MS DEFAULT_INVITES_PER_CALL_MILLI.
Definition ex_entry (branch : string) : CancelEntry := mkCancelEntry (mkAddr "10.0.0.2" 5060) branch None None None.
Definition ex_ops : list (MemoOp * Z) :=
  [ (OpRemember "inv|1" (ex_entry "b1") InviteTransaction, 1000); (OpRemember "rtx|1" (ex_entry "b1") Retransmission, 1000);
    (OpLookup "inv|1", 2000); (OpShorten "inv|1", 3000); (OpRemember "inv|2" (ex_entry "b2") InviteTransaction, 4000) ].
Lemma ex_ops_wf : Forall (@op_wf ex_memo_env) ex_ops.
Proof. repeat constructor; vm_compute; discriminate. Qed.
Lemma ex_bounds_wf : bounds_wf ex_bounds.
Proof. repeat split; vm_compute; discriminate. Qed.
Definition ex_lru : CancelBranchLru := default (mkLru [] 0 0 0) (@with_bounds ex_bounds).

(** ** Theorems *)

Lemma total_le `{E : MemoEnv} f c l : (forall s, s ∈ l -> f s <= c) -> foldr (fun (s : Stripe) n => f s + n) 0 l <= Z.of_nat (length l) * c.
Proof.
  induction l as [|s l IH]; intros H; [done|]. simpl foldr. simpl length. specialize (IH (fun s' Hs => H s' (list_elem_of_further _ _ _ Hs))).
  specialize (H s (list_elem_of_here _ _)). lia.
Qed.

Lemma run_length `{E : MemoEnv} ops m : length (lru_stripes (memo_run ops m)) = length (lru_stripes m).
Proof.
  revert m. induction ops as [|o ops IH]; intros m; [done|]. simpl. rewrite IH.
  assert (forall A i (a : A) f, length (lru_stripes (on_stripe i a f m).2) = length (lru_stripes m)) as Ho.
  { intros A i a f. unfold on_stripe. destruct (lru_stripes m !! i); [|done]. destruct (f _) as [x [s1 c1]]. simpl. apply length_insert. }
  destruct o as [[] now]; apply Ho.
Qed.

(** The branch memo stays within its bounds and its totals are exact.  From
    any bounds, whatever is written, looked up, shortened and swept at whatever
    clock readings, the size it reports is the number of entries its stripes
    hold, the bytes it reports are theirs (as a 64-bit counter), and no stripe
    holds more than its share, rounded up, of the entries and of the bytes. *)
Theorem memo_within_bounds `{E : MemoEnv} {W : MemoLaws E} b m ops :
  bounds_wf b -> with_bounds b = Some m -> Forall op_wf ops -> Z.of_nat (length ops) < 2 ^ 64 ->
  let m' := memo_run ops m in
  lru_len m' = total stripe_size m' /\ lru_bytes m' = u64_wrap (total stripe_bytes m') /\
  lru_len m' <= stripe_count b * stripe_most b (mb_max_entries b) /\
  total stripe_bytes m' <= stripe_count b * stripe_most b (mb_max_bytes b).
Proof.
  intros Hb Hm Hw Hn m'. destruct (with_bounds_ok b Hb) as (s0 & m0 & Hm0 & Hok & Hsh & _ & _ & _ & _ & Hl & B1 & B2). simplify_eq.
  destruct (memo_run_ok s0 ops 0 m Hok Hsh Hn Hw) as [Hok' Hsh']. fold m' in Hok', Hsh'.
  assert (Z.of_nat (length (lru_stripes m')) = stripe_count b) as Hl'
    by (unfold m'; rewrite run_length, Hl; unfold stripe_count; lia).
  assert (forall s, s ∈ lru_stripes m' ->
            stripe_size s <= stripe_most b (mb_max_entries b) /\ stripe_bytes s <= stripe_most b (mb_max_bytes b)) as Hs.
  { intros s Hs. pose proof (mo_stripes _ _ Hok') as F1. unfold shaped in Hsh'. rewrite Forall_forall in F1, Hsh'.
    destruct (Hsh' s Hs) as (_ & E1 & E2 & E3 & E4). destruct (F1 s Hs) as [Q1 Q2 _ _].
    pose proof (pool_within _ Q1). pose proof (pool_within _ Q2). unfold stripe_size, stripe_bytes. lia. }
  split; [apply Hok'|]. split; [apply Hok'|]. rewrite (mo_len _ _ Hok'), <- Hl'. unfold total.
  split; apply total_le; intros s Hin; by apply Hs.
Qed.
Lemma memo_within_bounds_witness :
  let m' := memo_run (E := ex_memo_env) ex_ops ex_lru in lru_len m' = 3 /\ lru_len m' <= 8.
Proof.
  split; [vm_compute; reflexivity|].
  destruct (memo_within_bounds (E := ex_memo_env) (W := ex_memo_laws) ex_bounds ex_lru ex_ops ex_bounds_wf eq_refl ex_ops_wf) as (_ & _ & H & _);
    [vm_compute; reflexivity|exact H].
Defined.

Lemma memo_answers_map `{E : MemoEnv} {W : MemoLaws E} b m ops key now :
  bounds_wf b -> with_bounds b = Some m -> Forall op_wf ops -> Z.of_nat (length ops) + 1 < 2 ^ 64 ->
  let m' := memo_run ops m in
  let truth := live_at now (spec_run (mb_invite_ttl_ms b) ops ∅ !! key) in
  (forall e, (lookup_memo key now m').1 = Some e -> truth = Some e) /\
  (forall T, clocked T ops -> clock_after T ops <= now -> lru_evicted m' = 0 -> (lookup_memo key now m').1 = truth).
Proof.
  intros Hb Hm Hw Hn m' truth. destruct (with_bounds_ok b Hb) as (s0 & m0 & Hm0 & Hok & Hsh & _ & Httl & Hnone & Hev & _). simplify_eq.
  destruct (memo_run_ok s0 ops 0 m Hok Hsh ltac:(lia) Hw) as [Hok' Hsh']. fold m' in Hok', Hsh'.
  assert (sound m ∅) as S0 by (intros k h; by rewrite Hnone).
  pose proof (sound_run s0 ops 0 m ∅ Hok Hsh ltac:(lia) Hw S0) as Hs. rewrite Httl in Hs. fold m' in Hs.
  assert ((lookup_memo key now m').1 = live_at now (held m' key)) as Hl.
  { destruct (slot_in_range key _ m' Hok') as (s & Hi & Hsok). destruct (stripe_get_spec _ s key now Hsok) as (I1 & _ & _ & I4 & _).
    destruct (on_stripe_ok _ m' _ None (stripe_get key now) s Hok' ltac:(lia) Hi I1) as (_ & R2 & _).
    unfold lookup_memo, held. rewrite R2, I4, Hi. done. }
  rewrite Hl. split.
  - intros e He. unfold truth. destruct (held m' key) as [h|] eqn:Hh; [|done]. apply Hs in Hh. by rewrite Hh.
  - intros T Hc HT He. pose proof (complete_run s0 ops 0 T m ∅ Hok Hsh ltac:(lia) Hw Hc S0 ltac:(by intros _ k h)) as Hcomp.
    rewrite Httl in Hcomp. fold m' in Hcomp. unfold truth. destruct (held m' key) as [h|] eqn:Hh; [apply Hs in Hh; by rewrite Hh|].
    destruct (_ !! key) as [[[lt e] x]|] eqn:Hsp; [|done]. simpl. destruct (Z.ltb_spec now x) as [Hlt|]; [|done].
    rewrite (Hcomp He key _ Hsp) in Hh; [done|]. simpl. lia.
Qed.
(** C3: the branch memo answers as a map would.  Against the map from keys to
    timed entries that every write replaces and every final shortens: whatever
    the memo answers to a lookup after any operations is that map's live entry
    for the key, never another's and never an expired one; and while the clock
    does not go back and nothing was evicted, it answers every live entry. *)
Theorem memo_answers `{E : MemoEnv} {W : MemoLaws E} b m ops key now :
  bounds_wf b -> with_bounds b = Some m -> Forall op_wf ops -> Z.of_nat (length ops) + 1 < 2 ^ 64 ->
  let m' := memo_run ops m in
  let truth := live_at now (spec_run (mb_invite_ttl_ms b) ops ∅ !! key) in
  (forall e, (lookup_memo key now m').1 = Some e -> truth = Some e) /\
  (forall T, clocked T ops -> clock_after T ops <= now -> lru_evicted m' = 0 -> (lookup_memo key now m').1 = truth).
Proof. apply memo_answers_map. Qed.
Lemma memo_answers_witness :
  (lookup_memo (E := ex_memo_env) "inv|1" 5000 (memo_run (E := ex_memo_env) ex_ops ex_lru)).1 =
    live_at 5000 (spec_run INVITE_ENTRY_TTL_MS ex_ops ∅ !! "inv|1") /\
  live_at 5000 (spec_run INVITE_ENTRY_TTL_MS ex_ops ∅ !! "inv|1") = Some (ex_entry "b1").
Proof.
  split; [|vm_compute; reflexivity].
  destruct (memo_answers (E := ex_memo_env) (W := ex_memo_laws) ex_bounds ex_lru ex_ops "inv|1" 5000 ex_bounds_wf eq_refl ex_ops_wf) as [_ H];
    [vm_compute; reflexivity|]. apply (H 0); [|vm_compute; discriminate|vm_compute; reflexivity]. simpl. lia.
Defined.

(** A sweep is exact and its work is what it removes.  While the clock does
    not go back, after a whole sweep at a later reading a key is held exactly
    when its entry has not expired, with the same entry; what the sweep reports
    removed is what the size fell by; and it looked at no more index entries
    than it removed and two per stripe. *)
Theorem memo_sweep_exact `{E : MemoEnv} {W : MemoLaws E} b m ops T now :
  bounds_wf b -> with_bounds b = Some m -> Forall op_wf ops -> clocked T ops -> clock_after T ops <= now ->
  Z.of_nat (length ops) + stripe_count b < 2 ^ 64 ->
  let m' := memo_run ops m in
  let r := sweep_expired now m' in
  (forall key, held r.2 key = match held m' key with Some h => if now <? h.2 then Some h else None | None => None end) /\
  r.1.1 + lru_len r.2 = lru_len m' /\ r.1.2 <= r.1.1 + 2 * stripe_count b.
Proof.
  intros Hb Hm Hw Hc HT Hn m' r. destruct (with_bounds_ok b Hb) as (s0 & m0 & Hm0 & Hok & Hsh & Hag & _ & _ & _ & Hl & _). simplify_eq.
  assert (0 < stripe_count b) as Hpos by (unfold stripe_count; lia).
  destruct (memo_run_ok s0 ops 0 m Hok Hsh ltac:(lia) Hw) as [Hok' Hsh']. fold m' in Hok', Hsh'.
  pose proof (aged_run ops 0 T m ltac:(by exists s0) Hok ltac:(lia) Hw Hc (Hag T)) as Ha. fold m' in Ha.
  assert (Z.of_nat (length (lru_stripes m')) = stripe_count b) as Hl' by (unfold m'; rewrite run_length, Hl; lia).
  assert (lru_len m' <= Z.of_nat (length ops)) as Hlen by (rewrite (mo_len _ _ Hok'); pose proof (mo_evicted _ _ Hok'); lia).
  destruct (sweep_fold_spec s0 now (seq 0 (length (lru_stripes m'))) _ 0 0 m' Hok' Hsh') as (J1 & J2 & J3 & J4);
    [rewrite length_seq; lia|apply NoDup_seq|intros i Hi; apply elem_of_seq in Hi; lia|done|done|lia|].
  change (sweep_fold now _ _) with r in J1, J2, J3, J4. rewrite length_seq in J2. split; [|lia].
  intros key. unfold held at 1. rewrite (slot_same key m' r.2 J3), J4. unfold held.
  destruct (slot_in_range key _ m' Hok') as (s & Hi & Hsok). rewrite decide_True by (apply elem_of_seq; apply lookup_lt_Some in Hi; lia).
  rewrite Hi. simpl. apply (swept_exact _ (clock_after T ops) now s key Hsok); [|done].
  unfold memo_aged in Ha. rewrite Forall_forall in Ha. apply Ha. by apply list_elem_of_lookup_2 in Hi.
Qed.
Lemma memo_sweep_exact_witness :
  let r := sweep_expired 40000 (memo_run (E := ex_memo_env) ex_ops ex_lru) in
  r.1.1 = 2 /\ r.1.2 <= 6.
Proof.
  split; [vm_compute; reflexivity|].
  destruct (memo_sweep_exact (E := ex_memo_env) (W := ex_memo_laws) ex_bounds ex_lru ex_ops 0 40000 ex_bounds_wf eq_refl ex_ops_wf) as (_ & _ & H);
    [simpl; lia|vm_compute; discriminate|vm_compute; reflexivity|exact H].
Defined.

(** ** Front proxy: the keys of the branch memo

    A sent-by writes one text, and no other sent-by writes it; so a key of the
    memo names one transaction in one name space, as long as what is written
    between its bars holds none. *)

(** ** Lower case keeps the separators *)

Lemma lower_ascii_colon a : lower_ascii a = ":"%char <-> a = ":"%char.
Proof. destruct a as [[] [] [] [] [] [] [] []]; vm_compute; split; intros H; (done || discriminate). Qed.
Lemma lower_ascii_bar a : lower_ascii a = "|"%char <-> a = "|"%char.
Proof. destruct a as [[] [] [] [] [] [] [] []]; vm_compute; split; intros H; (done || discriminate). Qed.
Lemma lower_has_char c : (forall a, lower_ascii a = c <-> a = c) -> forall s, has_char c (lower s) = has_char c s.
Proof.
  intros Hc s. induction s as [|a s IH]; simpl; [done|]. rewrite IH. f_equal. apply bool_decide_ext. specialize (Hc a). split; intros ->; symmetry; by apply Hc.
Qed.

(** ** A sent-by's text *)

Definition ip_text (host : string) : string := if has_char ":"%char host then "[" +:+ lower host +:+ "]" else lower host.

(** Brackets close after the last colon, or there is no colon. *)
Lemma ip_text_shape host :
  (has_char ":"%char (ip_text host) = false /\ ip_text host = lower host /\ has_char ":"%char host = false) \/
  (has_char ":"%char host = true /\ ip_text host = (("[" +:+ lower host) +:+ String "]" "")%string).
Proof.
  unfold ip_text. destruct (has_char ":"%char host) eqn:H; [right|left]; [done|].
  rewrite (lower_has_char _ lower_ascii_colon). by split_and!.
Qed.
Lemma ip_text_inj h h' : ip_text h = ip_text h' <-> lower h = lower h'.
Proof.
  assert (forall g, has_char ":"%char (lower g) = has_char ":"%char g) as Hl by exact (lower_has_char _ lower_ascii_colon).
  split; [|intros Hh; unfold ip_text; by rewrite <- (Hl h), <- (Hl h'), Hh].
  destruct (ip_text_shape h) as [(N1 & E1 & _)|(C1 & E1)], (ip_text_shape h') as [(N2 & E2 & _)|(C2 & E2)]; intros H.
  - by rewrite <- E1, <- E2.
  - rewrite H, E2 in N1. rewrite !has_char_app, Hl, C2 in N1. done.
  - rewrite <- H, E1 in N2. rewrite !has_char_app, Hl, C1 in N2. done.
  - rewrite E1, E2 in H. apply split_last in H as [H _]; [|done..]. by simplify_eq/=.
Qed.
(** A bracketed text ends in no port. *)
Lemma ip_text_no_port h h' (p : Z) : ip_text h <> (ip_text h' +:+ String ":" (pretty p))%string.
Proof.
  intros H. destruct (ip_text_shape h) as [(N1 & E1 & _)|(C1 & E1)].
  - rewrite H, has_char_app in N1. apply orb_false_iff in N1 as [_ N1]. done.
  - rewrite E1 in H. assert (forall z s t, (s +:+ String "]" "")%string = (t +:+ String ":" z)%string -> has_char "]"%char z = false -> False) as Hend.
    { clear. intros z s. induction s as [|a s IH]; intros [|b t] E Hz; simplify_eq/=.
      - destruct t; done.
      - rewrite has_char_app, orb_true_r in Hz. done.
      - by apply (IH t). }
    by apply (Hend _ _ _ H), pretty_no_bracket.
Qed.
Lemma write_canonical_ip host port :
  write_canonical host port = (ip_text host +:+ match port with Some p => String ":" (pretty p) | None => "" end)%string.
Proof. by destruct port. Qed.
Lemma write_canonical_inj h p h' p' :
  write_canonical h p = write_canonical h' p' <-> lower h = lower h' /\ p = p'.
Proof.
  rewrite !write_canonical_ip. split.
  - destruct p as [p|], p' as [p'|]; rewrite ?string_app_nil; intros H.
    + apply split_last in H as [H Hp]; [|apply pretty_no_colon..]. apply (inj pretty) in Hp as ->. by rewrite <- ip_text_inj.
    + symmetry in H. by apply ip_text_no_port in H.
    + by apply ip_text_no_port in H.
    + by rewrite <- ip_text_inj.
  - intros [Hh ->]. by apply ip_text_inj in Hh as ->.
Qed.
Lemma write_canonical_no_bar h p : has_char "|"%char h = false -> has_char "|"%char (write_canonical h p) = false.
Proof.
  intros Hh. rewrite write_canonical_ip, has_char_app. unfold ip_text.
  assert (has_char "|"%char (lower h) = false) as Hl by (by rewrite (lower_has_char _ lower_ascii_bar)).
  assert (has_char "|"%char match p with Some p => String ":" (pretty p) | None => "" end = false) as ->.
  { destruct p as [p|]; [|done]. simpl. apply pretty_no_bar. }
  destruct (has_char ":"%char h); rewrite ?has_char_app, Hl; done.
Qed.

(** ** A key's fields *)

(** What a key of the memo is made from, once its Via is read. *)
Record KeyFields := mkKeyFields {
  kf_branch : string; kf_host : string; kf_port : option Z; kf_call_id : string; kf_from_tag : string; kf_cseq : Z;
}.
Definition key_fields (via : Via) (call_id : string) (from_tag : option string) (cseq : Z) : KeyFields :=
  mkKeyFields (default "" (via_branch via)) (lower (via_host via)) (via_port via) call_id (default "" from_tag) cseq.
(** No field writes the bar that parts them: none of the characters RFC 3261
    allows there is one. *)
Definition bar_free (s : string) : Prop := has_char "|"%char s = false.
Definition fields_plain (f : KeyFields) : Prop :=
  bar_free (kf_branch f) /\ bar_free (kf_host f) /\ bar_free (kf_call_id f) /\ bar_free (kf_from_tag f).

Lemma txn_key_nil via c t q via' c' t' q' :
  fields_plain (key_fields via c t q) -> fields_plain (key_fields via' c' t' q') ->
  txn_key [] via c t q = txn_key [] via' c' t' q' <-> key_fields via c t q = key_fields via' c' t' q'.
Proof.
  unfold fields_plain, bar_free, txn_key, key_fields. simpl. rewrite !(lower_has_char _ lower_ascii_bar).
  intros (B & H & C & T) (B' & H' & C' & T'). split.
  - intros E. apply split_first in E as [Eb E]; [|done..]. apply split_first in E as [Eh E]; [|by apply write_canonical_no_bar..].
    apply split_first in E as [Ec E]; [|done..]. apply split_first in E as [Et E]; [|done..]. apply (inj pretty) in E.
    apply write_canonical_inj in Eh as [Eh Ep]. by rewrite Eb, Eh, Ep, Ec, Et, E.
  - intros E. injection E as -> Eh Ep -> -> ->. assert (write_canonical (via_host via) (via_port via) = write_canonical (via_host via') (via_port via')) as ->; [|done].
    by apply write_canonical_inj.
Qed.
Lemma txn_key_cons n ns via c t q : txn_key (n :: ns) via c t q = (n +:+ String "|" (txn_key ns via c t q))%string.
Proof. done. Qed.

(** A key of the branch memo names one transaction.  For fields that hold no
    bar, two INVITE keys are equal exactly when branch, sent-by (the host in any
    case, the port as written), Call-ID, From-tag and CSeq number are; so are
    two ACK-hop keys, and two retransmission keys when the method is too; and no
    key of one name space is a key of another. *)
Theorem memo_keys_identify via c t q m via' c' t' q' m' :
  fields_plain (key_fields via c t q) -> fields_plain (key_fields via' c' t' q') -> bar_free m -> bar_free m' ->
  let same := key_fields via c t q = key_fields via' c' t' q' in
  (invite_txn_key via c t q = invite_txn_key via' c' t' q' <-> same) /\
  (ack_hop_key via c t q = ack_hop_key via' c' t' q' <-> same) /\
  (retransmit_key via c t m q = retransmit_key via' c' t' m' q' <-> m = m' /\ same) /\
  invite_txn_key via c t q <> ack_hop_key via' c' t' q' /\
  invite_txn_key via c t q <> retransmit_key via' c' t' m' q' /\
  ack_hop_key via c t q <> retransmit_key via' c' t' m' q'.
Proof.
  intros H H' Hm Hm' same. pose proof (txn_key_nil _ _ _ _ _ _ _ _ H H') as Hk. fold same in Hk.
  unfold invite_txn_key, ack_hop_key, retransmit_key. rewrite !txn_key_cons. split_and!.
  - rewrite <- Hk. split; [intros E|by intros ->]. by apply split_first in E as [_ E].
  - rewrite <- Hk. split; [intros E|by intros ->]. by apply split_first in E as [_ E].
  - rewrite <- Hk. split; [intros E|by intros [-> ->]]. apply split_first in E as [_ E]; [|done..].
    by apply split_first in E as [-> ->].
  - intros E. by apply split_first in E as [E _].
  - intros E. by apply split_first in E as [E _].
  - intros E. by apply split_first in E as [E _].
Qed.
Definition ex_via (host : string) : Via := mkVia host (Some 5060) (Some "z9hG4bK1") None None None.
Lemma memo_keys_identify_witness :
  invite_txn_key (ex_via "Gw.Example") "c@x" (Some "t1") 7 = invite_txn_key (ex_via "gw.example") "c@x" (Some "t1") 7 /\
  invite_txn_key (ex_via "gw.example") "c@x" (Some "t1") 7 <> retransmit_key (ex_via "gw.example") "c@x" (Some "t1") "INVITE" 7.
Proof.
  destruct (memo_keys_identify (ex_via "Gw.Example") "c@x" (Some "t1") 7 "INVITE" (ex_via "gw.example") "c@x" (Some "t1") 7 "INVITE")
    as ([_ H] & _ & _ & _ & H2 & _); [by repeat split|by repeat split|done|done|].
  split; [apply H; reflexivity|]. rewrite <- H by reflexivity. exact H2.
Defined.
