(* ===== verification/Topology.v ===== *)
(** * Cluster membership

    [crates/topology/src/lib.rs] and [peer.rs]: the set of peers, its mutators
    and the deltas they send, the reconciliation to a listing, and the loop that
    follows a membership.  The snapshot is behind one swapped pointer and has
    one writer, so a mutator is one step; the deltas sent are kept in order. *)

From S2P Require Import Prelude Texts.

Open Scope Z_scope.

(** ** Data *)

Record Peer := mkPeer { pr_ordinal : string; pr_host : string; pr_identity : option string; pr_ready : bool; pr_terminating : bool }.
#[global] Instance Peer_eq_dec : EqDecision Peer.
Proof. solve_decision. Defined.
(** [Peer::new]. *)
Definition new_peer (ordinal host : string) : Peer := mkPeer ordinal host None true false.
Definition binding_differs (p q : Peer) : bool := bool_decide (pr_host p <> pr_host q) || bool_decide (pr_identity p <> pr_identity q).
Definition conditions_differ (p q : Peer) : bool :=
  bool_decide (pr_ready p <> pr_ready q) || bool_decide (pr_terminating p <> pr_terminating q).

Inductive MemberDelta := Added (p : Peer) | Removed (ordinal : string) | AddressChanged (p : Peer) | ConditionsChanged (p : Peer).
#[global] Instance MemberDelta_eq_dec : EqDecision MemberDelta.
Proof. solve_decision. Defined.

(** [MembershipState]: the peers, and the deltas sent. *)
Record MembershipState := mkMembership { ms_peers : list Peer; ms_sent : list MemberDelta }.

(** [sort_by_ordinal]: a stable sort. *)
Fixpoint insert_by_ordinal (p : Peer) (l : list Peer) : list Peer :=
  match l with
  | [] => [p]
  | q :: l' => if String.leb (pr_ordinal p) (pr_ordinal q) then p :: l else q :: insert_by_ordinal p l'
  end.
Definition sort_by_ordinal (l : list Peer) : list Peer := foldr insert_by_ordinal [] l.

(** ** Operations *)

Definition new_membership (initial : list Peer) : MembershipState := mkMembership (sort_by_ordinal initial) [].
Definition find_peer (ordinal : string) (l : list Peer) : option Peer := List.find (fun p => String.eqb (pr_ordinal p) ordinal) l.
(** [MembershipState::resolve]. *)
Definition resolve_peer (ordinal : string) (m : MembershipState) : option Peer := find_peer ordinal (ms_peers m).
Definition mutate (f : list Peer -> list Peer) (delta : MemberDelta) (m : MembershipState) : MembershipState :=
  mkMembership (sort_by_ordinal (f (ms_peers m))) (ms_sent m ++ [delta]).
Definition without (ordinal : string) (l : list Peer) : list Peer := filter (fun p => pr_ordinal p <> ordinal) l.
Definition add_peer (p : Peer) (m : MembershipState) : MembershipState :=
  mutate (fun l => without (pr_ordinal p) l ++ [p]) (Added p) m.
Definition remove_peer (ordinal : string) (m : MembershipState) : MembershipState :=
  match resolve_peer ordinal m with
  | None => m
  | Some _ => mutate (without ordinal) (Removed ordinal) m
  end.
(** [iter_mut().find(..)]: the first peer of the ordinal is changed. *)
Fixpoint update_first (ordinal : string) (f : Peer -> Peer) (l : list Peer) : list Peer :=
  match l with
  | [] => []
  | q :: l' => if String.eqb (pr_ordinal q) ordinal then f q :: l' else q :: update_first ordinal f l'
  end.
Definition set_address (p : Peer) (m : MembershipState) : MembershipState :=
  match resolve_peer (pr_ordinal p) m with
  | None => m
  | Some cur =>
      if negb (binding_differs cur p) then m
      else mutate (update_first (pr_ordinal p) (fun _ => p)) (AddressChanged p) m
  end.
Definition with_conditions_of (p q : Peer) : Peer := mkPeer (pr_ordinal q) (pr_host q) (pr_identity q) (pr_ready p) (pr_terminating p).
Definition set_conditions (p : Peer) (m : MembershipState) : MembershipState :=
  match resolve_peer (pr_ordinal p) m with
  | None => m
  | Some cur =>
      if binding_differs cur p || negb (conditions_differ cur p) then m
      else mutate (update_first (pr_ordinal p) (with_conditions_of p)) (ConditionsChanged p) m
  end.

(** The first of each ordinal: what a [HashSet] of those seen lets through. *)
Fixpoint dedup_peers (seen : list string) (l : list Peer) : list Peer :=
  match l with
  | [] => []
  | p :: l' => if bool_decide (pr_ordinal p ∈ seen) then dedup_peers seen l' else p :: dedup_peers (pr_ordinal p :: seen) l'
  end.
Definition reconcile_one (m : MembershipState) (d : Peer) : MembershipState :=
  match resolve_peer (pr_ordinal d) m with
  | None => add_peer d m
  | Some cur => if binding_differs cur d then set_address d m else if conditions_differ cur d then set_conditions d m else m
  end.
Definition reconcile_to_desired (desired : list Peer) (m : MembershipState) : MembershipState :=
  let desired := dedup_peers [] desired in
  let m := foldl (fun m cur => if bool_decide (pr_ordinal cur ∈ map pr_ordinal desired) then m else remove_peer (pr_ordinal cur) m)
             m (ms_peers m) in
  foldl reconcile_one m desired.

(** [follow_membership]: every wakeup reads the snapshot, until the source
    closes. *)
Inductive Wakeup := WDelta | WLagged | WTick | WClosed.
Fixpoint follow_membership {S} (reconcile : list Peer -> S -> S) (wakeups : list (Wakeup * list Peer)) (s : S) : S :=
  match wakeups with
  | [] => s
  | (WClosed, _) :: _ => s
  | (_, snapshot) :: ws => follow_membership reconcile ws (reconcile snapshot s)
  end.

(** ** The set a membership holds *)

Definition peer_map (l : list Peer) : gmap string Peer := list_to_map (map (fun p => (pr_ordinal p, p)) l).
Definition members (m : MembershipState) : gmap string Peer := peer_map (ms_peers m).
(** What a subscriber makes of a delta. *)
Definition apply_delta (d : MemberDelta) (s : gmap string Peer) : gmap string Peer :=
  match d with
  | Added p | AddressChanged p | ConditionsChanged p => <[pr_ordinal p := p]> s
  | Removed o => delete o s
  end.
Definition replay (ds : list MemberDelta) (s : gmap string Peer) : gmap string Peer := foldl (fun s d => apply_delta d s) s ds.
Definition delta_ordinal (d : MemberDelta) : string :=
  match d with Added p | AddressChanged p | ConditionsChanged p => pr_ordinal p | Removed o => o end.

(** The invariant: ordinals in order, each once. *)
Definition ordered (l : list Peer) : Prop := StronglySorted (fun p q => str_le (pr_ordinal p) (pr_ordinal q)) l.
Definition membership_ok (m : MembershipState) : Prop := ordered (ms_peers m) /\ NoDup (map pr_ordinal (ms_peers m)).

(** ** Lemmas *)

Lemma insert_by_ordinal_perm p l : insert_by_ordinal p l ≡ₚ p :: l.
Proof. induction l as [|q l IH]; simpl; [done|]. destruct (String.leb _ _); [done|]. rewrite IH. apply Permutation_swap. Qed.
Lemma sort_perm l : sort_by_ordinal l ≡ₚ l.
Proof. induction l as [|p l IH]; simpl; [done|]. by rewrite insert_by_ordinal_perm, IH. Qed.
Lemma insert_ordered p l : ordered l -> ordered (insert_by_ordinal p l).
Proof.
  induction 1 as [|q l Hl IH Hq]; simpl; [repeat constructor|]. destruct (String.leb _ _) eqn:E.
  - constructor; [by constructor|]. constructor; [done|]. eapply Forall_impl; [exact Hq|]. intros r Hr. simpl. by transitivity (pr_ordinal q).
  - constructor; [done|]. rewrite insert_by_ordinal_perm. constructor; [|done].
    destruct (str_le_total (pr_ordinal p) (pr_ordinal q)) as [H|H]; [|done]. unfold str_le in H. congruence.
Qed.
Lemma sort_ordered l : ordered (sort_by_ordinal l).
Proof. induction l as [|p l IH]; simpl; [constructor|by apply insert_ordered]. Qed.

Lemma find_peer_map o l : find_peer o l = peer_map l !! o.
Proof.
  unfold find_peer, peer_map. induction l as [|p l IH]; simpl; [by rewrite lookup_empty|].
  destruct (String.eqb_spec (pr_ordinal p) o) as [->|Hne]; [by rewrite lookup_insert_eq|by rewrite lookup_insert_ne].
Qed.
Lemma peer_map_perm l l' : NoDup (map pr_ordinal l) -> l ≡ₚ l' -> peer_map l = peer_map l'.
Proof.
  intros Hd Hp. apply list_to_map_proper; [|by apply Permutation_map].
  change (NoDup (map fst (map (fun p => (pr_ordinal p, p)) l))). by rewrite map_map.
Qed.
Lemma peer_map_Some o p l : peer_map l !! o = Some p -> pr_ordinal p = o /\ p ∈ l.
Proof.
  rewrite <- find_peer_map. unfold find_peer. intros H. apply List.find_some in H as [Hin He]. apply String.eqb_eq in He.
  split; [done|]. by apply list_elem_of_In.
Qed.
Lemma peer_map_elem p l : NoDup (map pr_ordinal l) -> p ∈ l -> peer_map l !! pr_ordinal p = Some p.
Proof.
  intros Hd Hp. apply elem_of_list_to_map_1; [by rewrite map_map|]. apply list_elem_of_fmap. by exists p.
Qed.
Lemma without_map o l : peer_map (without o l) = delete o (peer_map l).
Proof.
  unfold without, peer_map. induction l as [|p l IH]; simpl; [by rewrite delete_empty|]. rewrite filter_cons. destruct (decide _) as [Hne|He]; simpl.
  - rewrite IH. by rewrite delete_insert_ne.
  - apply dec_stable in He as <-. rewrite IH. by rewrite delete_insert_eq.
Qed.
Lemma update_first_map o f l :
  (forall p, pr_ordinal (f p) = pr_ordinal p \/ pr_ordinal (f p) = o) ->
  map pr_ordinal (update_first o f l) = map pr_ordinal l.
Proof.
  intros Hf. induction l as [|p l IH]; simpl; [done|]. destruct (String.eqb_spec (pr_ordinal p) o) as [He|Hne]; simpl.
  - destruct (Hf p) as [-> | ->]; [done|by rewrite He].
  - by rewrite IH.
Qed.
Lemma update_first_peers o f l p :
  pr_ordinal (f p) = o -> peer_map l !! o = Some p -> peer_map (update_first o f l) = <[o := f p]> (peer_map l).
Proof.
  intros Hf. unfold peer_map. induction l as [|q l IH]; simpl; [by rewrite lookup_empty|].
  destruct (String.eqb_spec (pr_ordinal q) o) as [He|Hne]; simpl.
  - rewrite <- He, lookup_insert_eq. intros [= ->]. rewrite Hf, <- He. by rewrite insert_insert_eq.
  - rewrite lookup_insert_ne by done. intros Hl. rewrite IH by done. by rewrite insert_insert_ne.
Qed.

(** ** Steps of the membership *)

(** From [m] to [m']: the deltas sent name each ordinal whose entry changed
    once, no other, and a subscriber that replays them follows. *)
Definition moved (m m' : MembershipState) : Prop :=
  membership_ok m' /\
  exists ds, ms_sent m' = ms_sent m ++ ds /\ NoDup (map delta_ordinal ds) /\
    (forall o, o ∈ map delta_ordinal ds <-> members m !! o <> members m' !! o) /\ members m' = replay ds (members m).

Lemma moved_refl m : membership_ok m -> moved m m.
Proof.
  intros Hm. split; [done|]. exists []. rewrite app_nil_r. split_and!; [done|constructor| |done].
  intros o. split; [intros H; by apply elem_of_nil in H|done].
Qed.
Lemma moved_trans m1 m2 m3 :
  moved m1 m2 -> moved m2 m3 -> (forall o, members m1 !! o <> members m2 !! o -> members m2 !! o = members m3 !! o) -> moved m1 m3.
Proof.
  intros [_ (ds & S1 & N1 & C1 & R1)] [Hm (es & S2 & N2 & C2 & R2)] Hd. split; [done|]. exists (ds ++ es). split_and!.
  - by rewrite S2, S1, app_assoc.
  - rewrite map_app. apply NoDup_app. split_and!; [done| |done]. intros o H1 H2. apply C1 in H1. apply C2 in H2. by apply Hd in H1.
  - intros o. rewrite map_app, elem_of_app, C1, C2. destruct (decide (members m1 !! o = members m2 !! o)) as [E|E].
    + rewrite E. split; [intros [?|?]; [done|done]|by right].
    + split; [|by left]. intros _. by rewrite <- (Hd o E).
  - unfold replay. rewrite foldl_app. fold (replay ds (members m1)). by rewrite <- R1.
Qed.
Lemma moved_one m f d :
  membership_ok m -> NoDup (map pr_ordinal (f (ms_peers m))) ->
  peer_map (f (ms_peers m)) = apply_delta d (members m) -> apply_delta d (members m) !! delta_ordinal d <> members m !! delta_ordinal d ->
  moved m (mutate f d m) /\ members (mutate f d m) = apply_delta d (members m).
Proof.
  intros Hm Hd He Hc. assert (members (mutate f d m) = apply_delta d (members m)) as HM.
  { rewrite <- He. unfold members, mutate. simpl. symmetry. apply peer_map_perm; [done|]. by rewrite sort_perm. }
  split; [|done]. split; [split; [apply sort_ordered|]|].
  { unfold mutate. simpl. by rewrite (sort_perm (f (ms_peers m))). }
  exists [d]. split_and!; [done|apply NoDup_singleton| |done]. intros o. change (map delta_ordinal [d]) with [delta_ordinal d].
  rewrite list_elem_of_singleton, HM. destruct (decide (o = delta_ordinal d)) as [->|Hne]; [split; congruence|].
  split; [done|]. intros H. exfalso. apply H. destruct d; simpl in *; rewrite ?lookup_insert_ne, ?lookup_delete_ne; done.
Qed.

Lemma without_nodup o l : NoDup (map pr_ordinal l) -> NoDup (map pr_ordinal (without o l)).
Proof.
  induction l as [|p l IH]; simpl; intros Hd; [constructor|]. apply NoDup_cons in Hd as [Hp Hd]. unfold without. rewrite filter_cons.
  destruct (decide _); [|by apply IH]. simpl. apply NoDup_cons. split; [|by apply IH]. intros Hin. apply Hp.
  apply list_elem_of_fmap in Hin as (q & -> & Hq). apply list_elem_of_filter in Hq as [_ Hq]. apply list_elem_of_fmap. by exists q.
Qed.
Lemma resolve_members o m : resolve_peer o m = members m !! o.
Proof. apply find_peer_map. Qed.

Lemma remove_peer_moved o m :
  membership_ok m -> moved m (remove_peer o m) /\ members (remove_peer o m) = delete o (members m).
Proof.
  intros Hm. unfold remove_peer. rewrite resolve_members. destruct (members m !! o) as [p|] eqn:Ho.
  - apply (moved_one m (without o) (Removed o)); [done|apply without_nodup, Hm|apply without_map|]. simpl. rewrite lookup_delete_eq. congruence.
  - split; [by apply moved_refl|]. by rewrite delete_id.
Qed.
Lemma add_peer_moved p m :
  membership_ok m -> members m !! pr_ordinal p <> Some p ->
  moved m (add_peer p m) /\ members (add_peer p m) = <[pr_ordinal p := p]> (members m).
Proof.
  intros Hm Hp. apply (moved_one m _ (Added p)); [done| | |simpl; by rewrite lookup_insert_eq].
  - rewrite map_app. apply NoDup_app. split_and!; [apply without_nodup, Hm| |apply NoDup_singleton].
    intros o Ho Hs. apply list_elem_of_singleton in Hs as ->. apply list_elem_of_fmap in Ho as (q & Hq & Hin).
    apply list_elem_of_filter in Hin as [Hne _]. congruence.
  - simpl. unfold peer_map. rewrite map_app, list_to_map_app. fold (peer_map (without (pr_ordinal p) (ms_peers m))). rewrite without_map.
    simpl. rewrite <- insert_union_r by apply lookup_delete_eq. rewrite map_union_empty. by rewrite insert_delete_eq.
Qed.
Lemma set_address_moved p m :
  membership_ok m -> let m' := set_address p m in
  moved m m' /\ (members m' = members m \/ members m' = <[pr_ordinal p := p]> (members m)) /\
  (forall cur, members m !! pr_ordinal p = Some cur -> binding_differs cur p = true -> members m' = <[pr_ordinal p := p]> (members m)).
Proof.
  intros Hm. unfold set_address. rewrite resolve_members. destruct (members m !! pr_ordinal p) as [cur|] eqn:Ho; [|by split; [apply moved_refl|split; [by left|]]].
  destruct (binding_differs cur p) eqn:Hb; simpl; [|split; [by apply moved_refl|split; [by left|intros c [= <-]; congruence]]].
  destruct (moved_one m (update_first (pr_ordinal p) (fun _ => p)) (AddressChanged p)) as [H1 H2]; try done.
  - rewrite update_first_map; [apply Hm|]. intros q. by right.
  - apply (update_first_peers _ (fun _ => p) _ cur); done.
  - simpl. rewrite lookup_insert_eq, Ho. intros [= ->]. unfold binding_differs in Hb. by rewrite !bool_decide_eq_false_2 in Hb by (intros []; done).
  - split; [done|]. split; [by right|done].
Qed.
Lemma with_conditions_same cur p : pr_ordinal cur = pr_ordinal p -> binding_differs cur p = false -> with_conditions_of p cur = p.
Proof.
  intros Ho Hb. unfold binding_differs in Hb. apply orb_false_iff in Hb as [H1 H2].
  apply bool_decide_eq_false in H1. apply bool_decide_eq_false in H2. apply dec_stable in H1. apply dec_stable in H2.
  destruct cur, p. unfold with_conditions_of. simpl in *. by subst.
Qed.
Lemma set_conditions_moved p m :
  membership_ok m -> let m' := set_conditions p m in
  moved m m' /\ (members m' = members m \/ members m' = <[pr_ordinal p := p]> (members m)) /\
  (forall cur, members m !! pr_ordinal p = Some cur -> binding_differs cur p = false -> conditions_differ cur p = true ->
     members m' = <[pr_ordinal p := p]> (members m)).
Proof.
  intros Hm. unfold set_conditions. rewrite resolve_members. destruct (members m !! pr_ordinal p) as [cur|] eqn:Ho; [|by split; [apply moved_refl|split; [by left|]]].
  destruct (binding_differs cur p) eqn:Hb; simpl; [split; [by apply moved_refl|split; [by left|intros c [= <-]; congruence]]|].
  destruct (conditions_differ cur p) eqn:Hc; simpl; [|split; [by apply moved_refl|split; [by left|intros c [= <-]; congruence]]].
  destruct (peer_map_Some _ _ _ Ho) as [Hcp _]. pose proof (with_conditions_same cur p Hcp Hb) as Hw.
  destruct (moved_one m (update_first (pr_ordinal p) (with_conditions_of p)) (ConditionsChanged p)) as [H1 H2]; try done.
  - rewrite update_first_map; [apply Hm|]. intros q. by left.
  - rewrite (update_first_peers _ _ _ cur), Hw by (done || by rewrite Hw). done.
  - simpl. rewrite lookup_insert_eq, Ho. intros [= ->]. unfold conditions_differ in Hc. by rewrite !bool_decide_eq_false_2 in Hc by (intros []; done).
  - split; [done|]. split; [by right|done].
Qed.

(** ** Reconciling to a listing *)

Lemma same_peer cur d :
  pr_ordinal cur = pr_ordinal d -> binding_differs cur d = false -> conditions_differ cur d = false -> cur = d.
Proof.
  intros Ho Hb Hc. rewrite <- (with_conditions_same cur d Ho Hb). unfold conditions_differ in Hc. apply orb_false_iff in Hc as [H1 H2].
  apply bool_decide_eq_false in H1. apply bool_decide_eq_false in H2. apply dec_stable in H1. apply dec_stable in H2.
  destruct cur, d. unfold with_conditions_of. simpl in *. by subst.
Qed.
Lemma reconcile_one_moved d m :
  membership_ok m -> moved m (reconcile_one m d) /\ members (reconcile_one m d) = <[pr_ordinal d := d]> (members m).
Proof.
  intros Hm. unfold reconcile_one. rewrite resolve_members. destruct (members m !! pr_ordinal d) as [cur|] eqn:Ho.
  - destruct (binding_differs cur d) eqn:Hb.
    { destruct (set_address_moved d m Hm) as (H1 & _ & H2). split; [done|by apply (H2 cur)]. }
    destruct (conditions_differ cur d) eqn:Hc.
    { destruct (set_conditions_moved d m Hm) as (H1 & _ & H2). split; [done|by apply (H2 cur)]. }
    split; [by apply moved_refl|]. destruct (peer_map_Some _ _ _ Ho) as [Hcp _].
    rewrite (same_peer cur d) in Ho by done. by rewrite insert_id.
  - apply add_peer_moved; [done|by rewrite Ho].
Qed.
Lemma dedup_nodup l seen : NoDup (map pr_ordinal (dedup_peers seen l)) /\ (forall o, o ∈ map pr_ordinal (dedup_peers seen l) -> o ∉ seen).
Proof.
  revert seen. induction l as [|p l IH]; intros seen; simpl; [split; [constructor|by intros o Ho; apply elem_of_nil in Ho]|].
  case_bool_decide as Hp; [apply IH|]. simpl. destruct (IH (pr_ordinal p :: seen)) as [H1 H2]. split.
  - apply NoDup_cons. split; [|done]. intros Hin. apply H2 in Hin. apply Hin. by left.
  - intros o Ho. apply elem_of_cons in Ho as [->|Ho]; [done|]. apply H2 in Ho. intros Hs. apply Ho. by right.
Qed.
Lemma dedup_first l seen o : o ∉ seen -> find_peer o (dedup_peers seen l) = find_peer o l.
Proof.
  revert seen. unfold find_peer. induction l as [|p l IH]; intros seen Ho; simpl; [done|]. case_bool_decide as Hp.
  - rewrite IH by done. destruct (String.eqb_spec (pr_ordinal p) o) as [He|]; [congruence|done].
  - simpl. destruct (String.eqb_spec (pr_ordinal p) o) as [He|Hne]; [done|]. apply IH. rewrite elem_of_cons. by intros [->|].
Qed.
Lemma reconcile_adds l m :
  membership_ok m -> NoDup (map pr_ordinal l) ->
  moved m (foldl reconcile_one m l) /\ members (foldl reconcile_one m l) = peer_map l ∪ members m.
Proof.
  revert m. induction l as [|d l IH]; intros m Hm Hd; simpl; [split; [by apply moved_refl|change (peer_map []) with (∅ : gmap string Peer); by rewrite map_empty_union]|].
  apply NoDup_cons in Hd as [Hn Hd]. destruct (reconcile_one_moved d m Hm) as [H1 H2].
  destruct (IH (reconcile_one m d) (proj1 H1) Hd) as [H3 H4].
  assert (peer_map l !! pr_ordinal d = None) as Hl.
  { destruct (peer_map l !! pr_ordinal d) as [q|] eqn:Hq; [|done]. apply peer_map_Some in Hq as [Hq Hin]. exfalso. apply Hn. rewrite <- Hq.
    apply list_elem_of_fmap. by exists q. }
  split.
  - apply (moved_trans _ _ _ H1 H3). intros o Hc. rewrite H4, lookup_union. rewrite H2 in *.
    destruct (decide (o = pr_ordinal d)) as [->|Hne]; [|by rewrite lookup_insert_ne in Hc]. rewrite Hl. by rewrite (left_id_L None _).
  - rewrite H4, H2. change (peer_map (d :: l)) with (<[pr_ordinal d := d]> (peer_map l)). rewrite <- insert_union_l. by rewrite insert_union_r.
Qed.
Lemma reconcile_removals (D : list string) l m :
  membership_ok m -> let m' := foldl (fun m cur => if bool_decide (pr_ordinal cur ∈ D) then m else remove_peer (pr_ordinal cur) m) m l in
  moved m m' /\ forall o, members m' !! o = if decide (o ∈ map pr_ordinal l /\ o ∉ D) then None else members m !! o.
Proof.
  revert m. induction l as [|c l IH]; intros m Hm; cbv zeta; cbn [foldl map].
  { split; [by apply moved_refl|]. intros o. rewrite decide_False; [done|]. intros [H _]. by apply elem_of_nil in H. }
  case_bool_decide as Hc.
  - destruct (IH m Hm) as [H1 H2]. split; [done|]. intros o. rewrite H2. apply decide_ext. rewrite elem_of_cons. split; [tauto|]. intros [[->|] ?]; tauto.
  - destruct (remove_peer_moved (pr_ordinal c) m Hm) as [H1 H2]. destruct (IH _ (proj1 H1)) as [H3 H4]. split.
    + apply (moved_trans _ _ _ H1 H3). intros o Ho. rewrite H4. rewrite H2 in *.
      destruct (decide (o = pr_ordinal c)) as [->|Hne]; [rewrite lookup_delete_eq; by destruct (decide _)|by rewrite lookup_delete_ne in Ho].
    + intros o. rewrite H4, H2. destruct (decide (o = pr_ordinal c)) as [->|Hne].
      * rewrite lookup_delete_eq, (decide_True (P := _ ∈ _ :: _ /\ _)) by (split; [by left|done]). by destruct (decide _).
      * rewrite lookup_delete_ne by done. apply decide_ext. rewrite elem_of_cons. tauto.
Qed.

(** Reconciling a membership to a listing gives the listing and sends
    exactly the deltas that close the gap.  Whatever the listing's order and
    repetitions (the first of an ordinal counts), the peers left are those
    listed, in order of ordinal; the deltas sent name each ordinal whose entry
    changed once and no other; and a subscriber that applies them to the old set
    holds the new one. *)
Theorem reconcile_exact desired m :
  membership_ok m ->
  let m' := reconcile_to_desired desired m in
  membership_ok m' /\ (forall o, resolve_peer o m' = find_peer o desired) /\
  exists ds, ms_sent m' = ms_sent m ++ ds /\ NoDup (map delta_ordinal ds) /\
    (forall o, o ∈ map delta_ordinal ds <-> resolve_peer o m <> resolve_peer o m') /\
    members m' = replay ds (members m).
Proof.
  intros Hm m'. set (D := dedup_peers [] desired). destruct (dedup_nodup desired []) as [Hd _]. fold D in Hd.
  destruct (reconcile_removals (map pr_ordinal D) (ms_peers m) m Hm) as [H1 H2].
  destruct (reconcile_adds D _ (proj1 H1) Hd) as [H3 H4]. fold D in m'. change (foldl reconcile_one _ D) with m' in H3, H4.
  set (m1 := foldl _ m (ms_peers m)) in *.
  assert (forall o, o ∈ map pr_ordinal D <-> is_Some (peer_map D !! o)) as HD.
  { intros o. split.
    - intros Ho. apply list_elem_of_fmap in Ho as (p & -> & Hp). rewrite peer_map_elem by done. by eexists.
    - intros [p Hp]. apply peer_map_Some in Hp as [<- Hp]. apply list_elem_of_fmap. by exists p. }
  assert (forall o, o ∉ map pr_ordinal D -> members m1 !! o = None) as Hgone.
  { intros o Ho. rewrite H2. destruct (decide _) as [|Hn]; [done|]. destruct (members m !! o) as [p|] eqn:Hp; [|done]. exfalso. apply Hn.
    split; [|done]. apply peer_map_Some in Hp as [<- Hp]. apply list_elem_of_fmap. by exists p. }
  assert (members m' = peer_map D) as HM.
  { apply map_eq. intros o. rewrite H4, lookup_union. destruct (peer_map D !! o) as [p|] eqn:Hp; [by rewrite union_Some_l|].
    rewrite Hgone, (left_id_L None _); [done|]. rewrite HD, Hp. by intros [? [=]]. }
  assert (moved m m') as [Hm' (ds & S & N & C & R)].
  { apply (moved_trans _ _ _ H1 H3). intros o Ho. rewrite HM. rewrite H2 in Ho. destruct (decide _) as [[_ Hn]|]; [|done].
    rewrite Hgone by done. destruct (peer_map D !! o) eqn:Hp; [|done]. exfalso. apply Hn. apply HD. by rewrite Hp. }
  split; [done|]. split.
  - intros o. rewrite resolve_members, HM, <- find_peer_map. apply dedup_first. apply not_elem_of_nil.
  - exists ds. split_and!; try done. intros o. by rewrite !resolve_members.
Qed.
Lemma reconcile_exact_witness :
  let m := new_membership [new_peer "b" "10.0.0.2"; new_peer "a" "10.0.0.1"] in
  let m' := reconcile_to_desired [new_peer "c" "10.0.0.3"; mkPeer "a" "10.0.0.1" None false false] m in
  ms_sent m' = [Removed "b"; Added (new_peer "c" "10.0.0.3"); ConditionsChanged (mkPeer "a" "10.0.0.1" None false false)] /\
  resolve_peer "b" m' = None.
Proof.
  split; [vm_compute; reflexivity|].
  destruct (reconcile_exact [new_peer "c" "10.0.0.3"; mkPeer "a" "10.0.0.1" None false false]
              (new_membership [new_peer "b" "10.0.0.2"; new_peer "a" "10.0.0.1"])) as (_ & H & _); [|apply (H "b")].
  split; [apply sort_ordered|]. vm_compute. apply (bool_decide_unpack _). vm_compute. exact I.
Defined.

(** ** Cluster membership: the listing an informer derives

    [peers_from_slices] of [crates/topology/src/k8s.rs]: one peer per Pod
    present in any EndpointSlice.  The slices are the fields the function reads
    of the Kubernetes objects. *)

(** [Endpoint]: conditions, addresses, [targetRef] and [hostname]. *)
Record Endpoint := mkEndpoint {
  ep_ready : option bool; ep_terminating : option bool; ep_addresses : list string;
  ep_target_name : option string; ep_target_uid : option string; ep_hostname : option string;
}.
(** [EndpointSlice]: its endpoints, which may be absent. *)
Notation EndpointSlice := (option (list Endpoint)).

(** What an endpoint says of a peer; [None] where it is skipped. *)
Definition listed_peer (ep : Endpoint) : option Peer :=
  host ← head (ep_addresses ep);
  ordinal ← (match ep_target_name ep with Some n => Some n | None => ep_hostname ep end);
  Some (mkPeer ordinal host (ep_target_uid ep) (default false (ep_ready ep)) (default false (ep_terminating ep))).

(** A further copy of a peer already seen. *)
Definition merge_copy (seen p : Peer) : Peer :=
  mkPeer (pr_ordinal seen) (pr_host seen)
    (if bool_decide (pr_identity seen <> pr_identity p) then None else pr_identity seen)
    (pr_ready seen || pr_ready p) (pr_terminating seen || pr_terminating p).
Definition list_one (out : list Peer) (ep : Endpoint) : list Peer :=
  match listed_peer ep with
  | None => out
  | Some p =>
      match find_peer (pr_ordinal p) out with
      | Some _ => update_first (pr_ordinal p) (fun seen => merge_copy seen p) out
      | None => out ++ [p]
      end
  end.
Definition peers_from_slices (slices : list EndpointSlice) : list Peer :=
  foldl (fun out slice => foldl list_one out (default [] slice)) [] slices.

(** ** What a peer is made of *)

Definition copies (o : string) (l : list Peer) : list Peer := filter (fun p => pr_ordinal p = o) l.
Definition listed (slices : list EndpointSlice) : list Peer := omap listed_peer (concat (map (default []) slices)).
(** The merge of all copies: the first one's host, the conditions of any, the
    identity all agree on. *)
Definition merged (o : string) (l : list Peer) : option Peer :=
  match copies o l with
  | [] => None
  | p :: ps =>
      Some (mkPeer o (pr_host p) (if bool_decide (Forall (fun q => pr_identity q = pr_identity p) ps) then pr_identity p else None)
              (existsb pr_ready (p :: ps)) (existsb pr_terminating (p :: ps)))
  end.

Lemma find_peer_app o l p :
  find_peer o (l ++ [p]) = match find_peer o l with Some q => Some q | None => if String.eqb (pr_ordinal p) o then Some p else None end.
Proof. unfold find_peer. induction l as [|q l IH]; simpl; [done|]. by destruct (String.eqb (pr_ordinal q) o). Qed.
Lemma find_peer_update o o' f l :
  (forall p, pr_ordinal (f p) = pr_ordinal p) ->
  find_peer o (update_first o' f l) = if decide (o = o') then f <$> find_peer o l else find_peer o l.
Proof.
  intros Hf. unfold find_peer. induction l as [|p l IH]; simpl; [by destruct (decide _)|].
  destruct (String.eqb_spec (pr_ordinal p) o') as [E|E]; simpl.
  - rewrite Hf. destruct (String.eqb_spec (pr_ordinal p) o) as [E'|E']; destruct (decide _); congruence || done.
  - destruct (String.eqb_spec (pr_ordinal p) o) as [E'|E']; [destruct (decide _); [congruence|done]|apply IH].
Qed.

Lemma merged_app o l p :
  merged o (l ++ [p]) =
  if decide (pr_ordinal p = o) then Some (match merged o l with Some q => merge_copy q p | None => p end) else merged o l.
Proof.
  unfold merged, copies. rewrite filter_app, filter_cons, filter_nil. destruct (decide (pr_ordinal p = o)) as [E|E].
  - destruct (filter _ l) as [|q ps].
    { simpl. rewrite !orb_false_r. destruct p. simpl in *. by subst. }
    simpl. f_equal. unfold merge_copy. simpl. f_equal.
    + destruct (decide (Forall (fun r => pr_identity r = pr_identity q) ps)) as [HF|HF].
      * rewrite (bool_decide_eq_true_2 (Forall _ ps)) by done. destruct (decide (pr_identity q = pr_identity p)) as [Hi|Hi].
        -- rewrite bool_decide_eq_true_2 by (apply Forall_app; split; [done|by repeat constructor]). by rewrite bool_decide_eq_false_2 by (intros []; done).
        -- rewrite bool_decide_eq_false_2; [by rewrite bool_decide_eq_true_2|]. intros HA. apply Forall_app in HA as [_ HA]. inversion HA; congruence.
      * rewrite (bool_decide_eq_false_2 (Forall _ ps)) by done. rewrite bool_decide_eq_false_2 by (intros HA; apply Forall_app in HA as [? _]; done).
        by destruct (bool_decide _).
    + by rewrite existsb_app, !orb_assoc; simpl; rewrite orb_false_r.
    + by rewrite existsb_app, !orb_assoc; simpl; rewrite orb_false_r.
  - by rewrite app_nil_r.
Qed.
Lemma merged_ordinal o l q : merged o l = Some q -> pr_ordinal q = o.
Proof. unfold merged. destruct (copies o l); [done|]. by intros [= <-]. Qed.

Lemma list_fold o eps seen out :
  (forall o, find_peer o out = merged o seen) ->
  find_peer o (foldl list_one out eps) = merged o (seen ++ omap listed_peer eps).
Proof.
  revert seen out. induction eps as [|ep eps IH]; intros seen out Hout; simpl; [by rewrite app_nil_r|].
  unfold list_one at 2. destruct (listed_peer ep) as [p|]; [|by apply IH].
  change (list_omap Endpoint Peer listed_peer eps) with (omap listed_peer eps).
  rewrite (cons_middle p seen), (app_assoc seen). apply IH. intros o'. rewrite merged_app, <- !Hout.
  destruct (find_peer (pr_ordinal p) out) as [q|] eqn:Hq.
  - rewrite find_peer_update by done. destruct (decide (o' = pr_ordinal p)) as [->|Hne].
    + by rewrite (decide_True (P := pr_ordinal p = pr_ordinal p)), Hq by done.
    + by rewrite decide_False.
  - rewrite find_peer_app. destruct (String.eqb_spec (pr_ordinal p) o') as [<-|Hne].
    + by rewrite Hq, decide_True by done.
    + rewrite decide_False by done. by destruct (find_peer o' out).
Qed.
Lemma slices_fold o slices seen out :
  (forall o, find_peer o out = merged o seen) ->
  find_peer o (foldl (fun out slice => foldl list_one out (default [] slice)) out slices) =
    merged o (seen ++ omap listed_peer (concat (map (default []) slices))).
Proof.
  revert seen out. induction slices as [|s slices IH]; intros seen out Hout; simpl; [by rewrite app_nil_r|].
  rewrite omap_app, app_assoc. apply IH. intros o'. by apply list_fold.
Qed.

Lemma merged_slices o slices : find_peer o (peers_from_slices slices) = merged o (listed slices).
Proof. unfold peers_from_slices. by rewrite (slices_fold o slices [] []). Qed.

(** The order of the slices decides a peer's host only. *)
Lemma merged_perm o l l' :
  l ≡ₚ l' ->
  match merged o l, merged o l' with
  | Some p, Some q => pr_identity p = pr_identity q /\ pr_ready p = pr_ready q /\ pr_terminating p = pr_terminating q
  | None, None => True
  | _, _ => False
  end.
Proof.
  intros Hp. assert (copies o l ≡ₚ copies o l') as Hc by (unfold copies; by rewrite Hp). unfold merged.
  assert (forall (f : Peer -> bool) a b, a ≡ₚ b -> existsb f a = existsb f b) as Hex.
  { intros f a b Hab. apply Bool.eq_iff_eq_true. rewrite !existsb_exists. setoid_rewrite <- list_elem_of_In. by setoid_rewrite Hab. }
  destruct (copies o l) as [|p ps], (copies o l') as [|q qs]; [done|by apply Permutation_nil_cons in Hc|symmetry in Hc; by apply Permutation_nil_cons in Hc|].
  split; [|split; [exact (Hex pr_ready _ _ Hc)|exact (Hex pr_terminating _ _ Hc)]]. cbn [pr_identity].
  assert (forall p ps i, Forall (fun r => pr_identity r = pr_identity p) ps /\ pr_identity p = i <-> Forall (fun r => pr_identity r = i) (p :: ps)) as HF.
  { intros a b i. rewrite Forall_cons. split; [intros [H <-]; done|intros [<- H]; done]. }
  assert (forall i, Forall (fun r => pr_identity r = i) (p :: ps) <-> Forall (fun r => pr_identity r = i) (q :: qs)) as Hsame by (intros i; by rewrite Hc).
  repeat case_bool_decide; try done.
  - match goal with H : Forall _ ps |- _ => pose proof (proj1 (HF p ps _) (conj H eq_refl)) as A end. apply Hsame in A. apply HF in A as [_ <-]. done.
  - exfalso. match goal with H : Forall _ ps |- _ => pose proof (proj1 (HF p ps _) (conj H eq_refl)) as A end. apply Hsame, HF in A as [A _]. done.
  - exfalso. match goal with H : Forall _ qs |- _ => pose proof (proj1 (HF q qs _) (conj H eq_refl)) as A end. apply Hsame, HF in A as [A _]. done.
Qed.

Lemma merged_iff o l :
  (forall q, merged o l = Some q ->
     (pr_ready q = true <-> exists p, p ∈ copies o l /\ pr_ready p = true) /\
     (pr_terminating q = true <-> exists p, p ∈ copies o l /\ pr_terminating p = true) /\
     (forall u, pr_identity q = Some u -> forall p, p ∈ copies o l -> pr_identity p = Some u)) /\
  (merged o l = None <-> copies o l = []).
Proof.
  unfold merged. destruct (copies o l) as [|c cs]; [split; [done|done]|]. split; [|done]. intros q [= <-]. cbn [pr_ready pr_terminating pr_identity].
  split_and!.
  - change (pr_ready c || existsb pr_ready cs) with (existsb pr_ready (c :: cs)). rewrite existsb_exists. by setoid_rewrite <- list_elem_of_In.
  - change (pr_terminating c || existsb pr_terminating cs) with (existsb pr_terminating (c :: cs)). rewrite existsb_exists. by setoid_rewrite <- list_elem_of_In.
  - intros u. case_bool_decide as HF; [|done]. intros Hu p Hp. apply elem_of_cons in Hp as [->|Hp]; [done|]. rewrite Forall_forall in HF. by rewrite HF.
Qed.

(** The listing names a Pod once, ready when any of its copies is, under the
    identity they all name; and the order the slices come in decides at most its
    host. *)
Lemma slices_merge slices slices' :
  slices ≡ₚ slices' ->
  let copies := fun o => copies o (listed slices) in
  forall o,
  (find_peer o (peers_from_slices slices) = None <-> copies o = []) /\
  (forall q, find_peer o (peers_from_slices slices) = Some q ->
     (pr_ready q = true <-> exists p, p ∈ copies o /\ pr_ready p = true) /\
     (forall u, pr_identity q = Some u -> forall p, p ∈ copies o -> pr_identity p = Some u) /\
     exists q', find_peer o (peers_from_slices slices') = Some q' /\
       pr_identity q' = pr_identity q /\ pr_ready q' = pr_ready q /\ pr_terminating q' = pr_terminating q).
Proof.
  intros Hp cs o. destruct (merged_iff o (listed slices)) as [H1 H2]. rewrite !merged_slices. split; [done|].
  intros q Hq. destruct (H1 q Hq) as (R & _ & I). split; [done|]. split; [done|].
  assert (listed slices ≡ₚ listed slices') as Hl by (unfold listed; by rewrite Hp).
  pose proof (merged_perm o _ _ Hl) as Hm. rewrite Hq in Hm. destruct (merged o (listed slices')) as [q'|]; [|done].
  exists q'. destruct Hm as (-> & -> & ->). done.
Qed.
