(* ===== verification/WorkerRegistry.v ===== *)
(** * Front proxy: the worker registry

    [crates/sip-proxy/src/registry/mod.rs], [registry/tombstone.rs],
    [registry/projection.rs], [registry/control.rs] and the pool of
    [registry/static_reg.rs]: the workers the proxy routes to, as a projection of
    the ready members and what the probe wrote of them, and the addresses that
    left, each dead for a window.  The membership's snapshot and the clock are
    arguments.  Each operation is one step here; the accesses of two recomposes
    that run at once are taken apart in [RegistryRace]. *)

From S2P Require Import Prelude Texts ProxyTypes Topology.

Open Scope Z_scope.

(** ** Entries ([registry/mod.rs]) *)

Inductive WorkerHealth := Unknown | Alive | Dead.
#[global] Instance WorkerHealth_eq_dec : EqDecision WorkerHealth.
Proof. solve_decision. Defined.
Inductive Acceptance := Accept | Refuse.
#[global] Instance Acceptance_eq_dec : EqDecision Acceptance.
Proof. solve_decision. Defined.

Record WorkerEntry := mkWorker { we_id : string; we_address : ProxyAddr; we_health : WorkerHealth; we_acceptance : Acceptance }.
#[global] Instance WorkerEntry_eq_dec : EqDecision WorkerEntry.
Proof. solve_decision. Defined.
Definition alive_entry (id : string) (address : ProxyAddr) : WorkerEntry := mkWorker id address Alive Accept.
Definition is_alive (w : WorkerEntry) : bool := bool_decide (we_health w = Alive).
Definition accepts_new_calls (w : WorkerEntry) : bool := is_alive w && bool_decide (we_acceptance w = Accept).

(** ** Departed addresses ([registry/tombstone.rs]) *)

Definition DEPARTED_ADDRESS_TTL_MS : Z := 32000.
Record Tombstone := mkTomb { tb_id : string; tb_expires_at_ms : Z }.
Notation Tombstones := (gmap ProxyAddr Tombstone).

Definition u64_sat_add (a b : Z) : Z := Z.min u64_MAX (a + b).
#[global] Arguments u64_sat_add : simpl never.
Definition tomb_insert (addr : ProxyAddr) (id : string) (now_ms : Z) (recs : Tombstones) : Tombstones :=
  <[addr := mkTomb id (u64_sat_add now_ms DEPARTED_ADDRESS_TTL_MS)]> recs.
Definition open_at (now_ms : Z) (t : Tombstone) : bool := now_ms <? tb_expires_at_ms t.
Definition tomb_rearm (addr : ProxyAddr) (now_ms : Z) (recs : Tombstones) : Tombstones :=
  match recs !! addr with
  | Some t =>
      if open_at now_ms t
      then <[addr := mkTomb (tb_id t) (Z.max (tb_expires_at_ms t) (u64_sat_add now_ms DEPARTED_ADDRESS_TTL_MS))]> recs
      else recs
  | None => recs
  end.
Definition tomb_clear (addr : ProxyAddr) (recs : Tombstones) : Tombstones := delete addr recs.
Definition tomb_prune (now_ms : Z) (recs : Tombstones) : Tombstones := filter (fun p => open_at now_ms p.2 = true) recs.
Definition open_ids (now_ms : Z) (recs : Tombstones) : list string :=
  map (fun p => tb_id p.2) (filter (fun p => open_at now_ms p.2 = true) (map_to_list recs)).
Definition tomb_lookup (addr : ProxyAddr) (now_ms : Z) (recs : Tombstones) : option WorkerEntry :=
  t ← recs !! addr;
  if tb_expires_at_ms t <=? now_ms then None else Some (mkWorker (tb_id t) addr Dead Refuse).

(** ** Annotations ([registry/projection.rs]) *)

Record Annot := mkAnnot { an_health : WorkerHealth; an_acceptance : Acceptance; an_host : string; an_port_override : option Z }.
#[global] Instance Annot_eq_dec : EqDecision Annot.
Proof. solve_decision. Defined.
Definition fresh_annot (host : string) : Annot := mkAnnot Unknown Accept host None.
Notation Annots := (gmap string Annot).

Section registry.
(** A [HashMap] is walked in an arbitrary order. *)
Variable iter : Annots -> list (string * Annot).

Definition addr_of (default_port : Z) (rec : Annot) : ProxyAddr := mkAddr (an_host rec) (default default_port (an_port_override rec)).
Definition sync_departed (peers : list Peer) (default_port : Z) (recs : Annots) : list (string * ProxyAddr) :=
  map (fun p => (p.1, addr_of default_port p.2)) (filter (fun p => p.1 ∉ map pr_ordinal peers) (iter recs)) ++
  omap (fun p => match recs !! pr_ordinal p with
                 | Some rec => if bool_decide (an_host rec = pr_host p) then None else Some (pr_ordinal p, addr_of default_port rec)
                 | None => None
                 end) peers.
Definition sync_one (recs : Annots) (p : Peer) : Annots :=
  match recs !! pr_ordinal p with
  | Some rec => if bool_decide (an_host rec = pr_host p) then recs else <[pr_ordinal p := fresh_annot (pr_host p)]> recs
  | None => <[pr_ordinal p := fresh_annot (pr_host p)]> recs
  end.
Definition sync_membership (peers : list Peer) (default_port : Z) (recs : Annots) : list (string * ProxyAddr) * Annots :=
  (sync_departed peers default_port recs,
   foldl sync_one (filter (fun p => p.1 ∈ map pr_ordinal peers) recs) peers).

(** [WorkerAnnotations::set_view]: whether it turned the worker dead. *)
Definition annots_set_view (id : string) (health : option WorkerHealth) (acceptance : option Acceptance) (recs : Annots) : bool * Annots :=
  match recs !! id with
  | None => (false, recs)
  | Some rec =>
      let health' := default (an_health rec) health in
      let acceptance' := default (an_acceptance rec) acceptance in
      if bool_decide (health' = an_health rec) && bool_decide (acceptance' = an_acceptance rec) then (false, recs)
      else
        let blind := negb (existsb (fun p => bool_decide (an_health p.2 = Alive)) (iter recs)) in
        let recs' := <[id := mkAnnot health' acceptance' (an_host rec) (an_port_override rec)]> recs in
        (bool_decide (health' = Dead) && negb (bool_decide (an_health rec = Dead)),
         if blind && bool_decide (health' = Alive)
         then map_imap (fun other r => Some (if bool_decide (other <> id) && bool_decide (an_health r = Dead)
                                             then mkAnnot Unknown (an_acceptance r) (an_host r) (an_port_override r) else r)) recs'
         else recs')
  end.

(** [project]. *)
Definition project_one (annots : Annots) (default_port : Z) (p : Peer) : WorkerEntry :=
  let a := annots !! pr_ordinal p in
  mkWorker (pr_ordinal p) (mkAddr (pr_host p) (default default_port (a ≫= an_port_override)))
    (from_option an_health Unknown a) (from_option an_acceptance Accept a).
Definition project (peers : list Peer) (annots : Annots) (default_port : Z) : list WorkerEntry :=
  map (project_one annots default_port) (dedup_peers [] peers).

(** ** [WorkerSet] *)

(** The overlays, the projection, whether it holds a listing, and the dead
    verdicts told. *)
Record WorkerSet := mkSet {
  ws_annots : Annots; ws_tombs : Tombstones; ws_projection : list WorkerEntry; ws_listed : bool; ws_verdicts : list string;
}.
Variable default_port : Z.

Definition ready_members (members : list Peer) : list Peer := filter (fun p => pr_ready p = true) members.
Definition recompose (members : list Peer) (now_ms : Z) (s : WorkerSet) : WorkerSet :=
  let peers := ready_members members in
  let '(departed, annots) := sync_membership peers default_port (ws_annots s) in
  let entries := project peers annots default_port in
  let tombs := foldl (fun t d => tomb_insert d.2 d.1 now_ms t) (ws_tombs s) departed in
  let tombs := foldl (fun t e => tomb_clear (we_address e) t) tombs entries in
  mkSet annots (tomb_prune now_ms tombs) entries (ws_listed s) (ws_verdicts s).
(** [WorkerSet::new]. *)
Definition new_set (members : list Peer) (now_ms : Z) : WorkerSet := recompose members now_ms (mkSet ∅ ∅ [] false []).
Definition set_view (id : string) (health : option WorkerHealth) (acceptance : option Acceptance)
    (members : list Peer) (now_ms : Z) (s : WorkerSet) : WorkerSet :=
  let '(turned_dead, annots) := annots_set_view id health acceptance (ws_annots s) in
  let s := recompose members now_ms (mkSet annots (ws_tombs s) (ws_projection s) (ws_listed s) (ws_verdicts s)) in
  if turned_dead then mkSet (ws_annots s) (ws_tombs s) (ws_projection s) (ws_listed s) (ws_verdicts s ++ [id]) else s.
Definition set_health (id : string) (health : WorkerHealth) := set_view id (Some health) None.
Definition set_acceptance (id : string) (acceptance : Acceptance) := set_view id None (Some acceptance).
Definition with_annots (f : Annots -> Annots) (s : WorkerSet) : WorkerSet :=
  mkSet (f (ws_annots s)) (ws_tombs s) (ws_projection s) (ws_listed s) (ws_verdicts s).
Definition with_tombs (f : Tombstones -> Tombstones) (s : WorkerSet) : WorkerSet :=
  mkSet (ws_annots s) (f (ws_tombs s)) (ws_projection s) (ws_listed s) (ws_verdicts s).
Definition set_port_override (id : string) (port : Z) : WorkerSet -> WorkerSet :=
  with_annots (fun recs =>
    match recs !! id with
    | Some r => <[id := mkAnnot (an_health r) (an_acceptance r) (an_host r) (Some port)]> recs
    | None => recs
    end).
Definition preset (id host : string) (port : Z) (health : WorkerHealth) (acceptance : Acceptance) : WorkerSet -> WorkerSet :=
  with_annots (fun recs => <[id := mkAnnot health acceptance host (Some port)]> recs).
Definition depart (address : ProxyAddr) (id : string) (now_ms : Z) : WorkerSet -> WorkerSet := with_tombs (tomb_insert address id now_ms).
Definition rearm_departed (addr : ProxyAddr) (now_ms : Z) : WorkerSet -> WorkerSet := with_tombs (tomb_rearm addr now_ms).

(** Reads. *)
Definition snapshot_of (s : WorkerSet) : list WorkerEntry := ws_projection s.
Definition resolve (id : string) (s : WorkerSet) : option WorkerEntry := List.find (fun w => String.eqb (we_id w) id) (ws_projection s).
Definition lookup_by_address (addr : ProxyAddr) (now_ms : Z) (s : WorkerSet) : option WorkerEntry :=
  match List.find (fun w => bool_decide (we_address w = addr)) (ws_projection s) with
  | Some w => Some w
  | None => tomb_lookup addr now_ms (ws_tombs s)
  end.
(** [Vec::sort] and [Vec::dedup] of texts. *)
Fixpoint insert_str (x : string) (l : list string) : list string :=
  match l with [] => [x] | y :: l' => if String.leb x y then x :: l else y :: insert_str x l' end.
Fixpoint dedup_str (l : list string) : list string :=
  match l with
  | [] => []
  | x :: l' => match l' with y :: _ => if String.eqb x y then dedup_str l' else x :: dedup_str l' | [] => [x] end
  end.
Definition away_ordinals (members : list Peer) (now_ms : Z) (s : WorkerSet) : list string :=
  dedup_str (foldr insert_str []
    (filter (fun id => id ∉ map we_id (ws_projection s))
       (map pr_ordinal (filter (fun p => pr_ready p = false) members) ++ open_ids now_ms (ws_tombs s)))).
Definition synced (member_synced : bool) (members : list Peer) (now_ms : Z) (s : WorkerSet) : bool * WorkerSet :=
  if ws_listed s then (true, s)
  else if negb member_synced then (false, s)
  else let s := recompose members now_ms s in (true, mkSet (ws_annots s) (ws_tombs s) (ws_projection s) true (ws_verdicts s)).
End registry.

(** ** A fixed pool ([StaticWorkerRegistry::from_entries_with_clock]) *)

Definition STATIC_DEFAULT_PORT : Z := 5060.
Definition static_members (entries : list WorkerEntry) : list Peer :=
  sort_by_ordinal (map (fun e => new_peer (we_id e) (pa_host (we_address e))) entries).
Definition from_entries (iter : Annots -> list (string * Annot)) (entries : list WorkerEntry) (now_ms : Z) : WorkerSet :=
  let members := static_members entries in
  let s := new_set iter STATIC_DEFAULT_PORT members now_ms in
  let s := foldl (fun s e => preset (we_id e) (pa_host (we_address e)) (pa_port (we_address e)) (we_health e) (we_acceptance e) s) s entries in
  recompose iter STATIC_DEFAULT_PORT members now_ms s.
