(* ===== verification/WorkerRegistryProps.v ===== *)
(** * Front proxy: what the worker registry guarantees

    The projection is a function of the ready members and the annotations that
    survive; a worker reads alive only on what was written of it since it joined
    at its host; and an address that left answers as dead for exactly its
    window. *)

From S2P Require Import Prelude Texts ProxyTypes Topology WorkerRegistry.

Open Scope Z_scope.

(** ** Finding an entry *)

Lemma find_in {A} (f : A -> bool) l x : List.find f l = Some x -> x ∈ l /\ f x = true.
Proof. intros H. apply List.find_some in H as [H1 H2]. split; [by apply list_elem_of_In|done]. Qed.
Lemma nodup_same_id (l : list WorkerEntry) v w : NoDup (map we_id l) -> v ∈ l -> w ∈ l -> we_id v = we_id w -> v = w.
Proof.
  induction l as [|x l IH]; intros Hd Hv Hw He; [by apply elem_of_nil in Hv|]. cbn [map] in Hd. apply NoDup_cons in Hd as [Hx Hd].
  apply elem_of_cons in Hv as [->|Hv]; apply elem_of_cons in Hw as [->|Hw]; [done|..|by apply IH].
  - exfalso. apply Hx. rewrite He. apply list_elem_of_fmap. by exists w.
  - exfalso. apply Hx. rewrite <- He. apply list_elem_of_fmap. by exists v.
Qed.

Section props.
Variable iter : Annots -> list (string * Annot).
Hypothesis iter_all : forall m, iter m ≡ₚ map_to_list m.
Variable port : Z.

(** ** The overlay after a recompose *)

(** What a peer's record is: kept at the same host, fresh elsewhere. *)
Definition kept_annot (recs : Annots) (p : Peer) : Annot :=
  match recs !! pr_ordinal p with
  | Some rec => if bool_decide (an_host rec = pr_host p) then rec else fresh_annot (pr_host p)
  | None => fresh_annot (pr_host p)
  end.
Lemma sync_one_lookup recs p o :
  sync_one recs p !! o = if decide (o = pr_ordinal p) then Some (kept_annot recs p) else recs !! o.
Proof.
  unfold sync_one, kept_annot. destruct (decide (o = pr_ordinal p)) as [->|Hne].
  - destruct (recs !! pr_ordinal p) as [r|] eqn:Hr; [|by rewrite lookup_insert_eq].
    case_bool_decide; [done|by rewrite lookup_insert_eq].
  - destruct (recs !! pr_ordinal p) as [r|]; [case_bool_decide|]; rewrite ?lookup_insert_ne; done.
Qed.
Lemma sync_fold_other peers recs o : o ∉ map pr_ordinal peers -> foldl sync_one recs peers !! o = recs !! o.
Proof.
  revert recs. induction peers as [|p peers IH]; intros recs Ho; [done|]. simpl. cbn [map] in Ho. rewrite not_elem_of_cons in Ho.
  rewrite IH, sync_one_lookup by tauto. by rewrite decide_False by tauto.
Qed.
Lemma sync_fold_elem peers recs p :
  NoDup (map pr_ordinal peers) -> p ∈ peers -> foldl sync_one recs peers !! pr_ordinal p = Some (kept_annot recs p).
Proof.
  revert recs. induction peers as [|q peers IH]; intros recs Hd Hp; [by apply elem_of_nil in Hp|]. cbn [map] in Hd. apply NoDup_cons in Hd as [Hq Hd].
  simpl. apply elem_of_cons in Hp as [->|Hp].
  - rewrite sync_fold_other by done. by rewrite sync_one_lookup, decide_True.
  - rewrite IH by done. unfold kept_annot. rewrite sync_one_lookup, decide_False; [done|]. intros E. apply Hq. rewrite <- E. apply list_elem_of_fmap. by exists p.
Qed.
(** A record that is not fresh was there, at the host every listing gives. *)
Lemma sync_fold_kept peers recs o rec :
  foldl sync_one recs peers !! o = Some rec -> an_health rec <> Unknown ->
  recs !! o = Some rec /\ forall p, p ∈ peers -> pr_ordinal p = o -> pr_host p = an_host rec.
Proof.
  revert recs. induction peers as [|q peers IH]; intros recs Hr Hh; simpl in Hr.
  { split; [done|]. intros p Hp. by apply elem_of_nil in Hp. }
  destruct (IH _ Hr Hh) as [H1 H2]. rewrite sync_one_lookup in H1. destruct (decide (o = pr_ordinal q)) as [->|Hne].
  - injection H1 as H1. unfold kept_annot in H1. destruct (recs !! pr_ordinal q) as [r|] eqn:E; [|by subst rec].
    case_bool_decide as Hb; [|by subst rec]. subst r. split; [done|]. intros p Hp Ho. apply elem_of_cons in Hp as [->|Hp]; [done|by apply H2].
  - split; [done|]. intros p Hp Ho. apply elem_of_cons in Hp as [->|Hp]; [congruence|by apply H2].
Qed.

Lemma kept_filtered peers recs p :
  p ∈ peers -> kept_annot (filter (fun q => q.1 ∈ map pr_ordinal peers) recs) p = kept_annot recs p.
Proof.
  intros Hp. unfold kept_annot. assert (filter (fun q => q.1 ∈ map pr_ordinal peers) recs !! pr_ordinal p = recs !! pr_ordinal p) as ->; [|done].
  destruct (recs !! pr_ordinal p) as [r|] eqn:E.
  - apply map_lookup_filter_Some. split; [done|]. apply list_elem_of_fmap. by exists p.
  - apply map_lookup_filter_None. by left.
Qed.

Definition annots_after (members : list Peer) (recs : Annots) : Annots :=
  (sync_membership iter (ready_members members) port recs).2.
Lemma recompose_annots members now s : ws_annots (recompose iter port members now s) = annots_after members (ws_annots s).
Proof. done. Qed.
Lemma annots_after_elem members recs p :
  NoDup (map pr_ordinal (ready_members members)) -> p ∈ ready_members members ->
  annots_after members recs !! pr_ordinal p = Some (kept_annot recs p).
Proof. intros Hd Hp. unfold annots_after. simpl. rewrite sync_fold_elem by done. by rewrite kept_filtered. Qed.
Lemma annots_after_gone members recs o : o ∉ map pr_ordinal (ready_members members) -> annots_after members recs !! o = None.
Proof. intros Ho. unfold annots_after. simpl. rewrite sync_fold_other by done. apply map_lookup_filter_None. right. by intros r _ Hin. Qed.
Lemma annots_after_known members recs o rec :
  annots_after members recs !! o = Some rec -> an_health rec <> Unknown ->
  recs !! o = Some rec /\ o ∈ map pr_ordinal (ready_members members) /\
  forall p, p ∈ ready_members members -> pr_ordinal p = o -> pr_host p = an_host rec.
Proof.
  intros Hr Hh. unfold annots_after in Hr. simpl in Hr. destruct (sync_fold_kept _ _ _ _ Hr Hh) as [H1 H2].
  apply map_lookup_filter_Some in H1 as [H1 H3]. split; [done|]. by split.
Qed.

(** ** The projection *)

(** What a reader sees of a ready member. *)
Definition entry_of (recs : Annots) (p : Peer) : WorkerEntry :=
  let a := kept_annot recs p in
  mkWorker (pr_ordinal p) (mkAddr (pr_host p) (default port (an_port_override a))) (an_health a) (an_acceptance a).
Lemma dedup_id l seen : NoDup (map pr_ordinal l) -> (forall p, p ∈ l -> pr_ordinal p ∉ seen) -> dedup_peers seen l = l.
Proof.
  revert seen. induction l as [|p l IH]; intros seen Hd Hs; simpl; [done|]. cbn [map] in Hd. apply NoDup_cons in Hd as [Hp Hd].
  rewrite bool_decide_eq_false_2 by (apply Hs; by left). f_equal. apply IH; [done|]. intros q Hq. rewrite not_elem_of_cons. split.
  - intros E. apply Hp. rewrite <- E. apply list_elem_of_fmap. by exists q.
  - apply Hs. by right.
Qed.
Lemma recompose_projection members now s :
  NoDup (map pr_ordinal (ready_members members)) ->
  ws_projection (recompose iter port members now s) = map (entry_of (ws_annots s)) (ready_members members).
Proof.
  intros Hd. change (ws_projection (recompose iter port members now s)) with
    (project (ready_members members) (annots_after members (ws_annots s)) port).
  unfold project. rewrite dedup_id; [|done|intros p _; apply not_elem_of_nil]. apply map_ext_in. intros p Hp. apply list_elem_of_In in Hp.
  unfold project_one. rewrite annots_after_elem by done. done.
Qed.
Lemma find_entry_map recs l id :
  List.find (fun w => String.eqb (we_id w) id) (map (entry_of recs) l) = entry_of recs <$> find_peer id l.
Proof. unfold find_peer. induction l as [|p l IH]; simpl; [done|]. by destruct (String.eqb (pr_ordinal p) id). Qed.

(** ** Runs *)

Inductive RegOp :=
  | OpRecompose (members : list Peer)
  | OpView (id : string) (h : option WorkerHealth) (a : option Acceptance) (members : list Peer)
  | OpSynced (member_synced : bool) (members : list Peer)
  | OpPort (id : string) (p : Z)
  | OpPreset (id host : string) (p : Z) (h : WorkerHealth) (a : Acceptance)
  | OpDepart (addr : ProxyAddr) (id : string)
  | OpRearm (addr : ProxyAddr).
Definition reg_step (s : WorkerSet) (o : RegOp * Z) : WorkerSet :=
  match o with
  | (OpRecompose members, now) => recompose iter port members now s
  | (OpView id h a members, now) => set_view iter port id h a members now s
  | (OpSynced b members, now) => (synced iter port b members now s).2
  | (OpPort id p, _) => set_port_override id p s
  | (OpPreset id host p h a, _) => preset id host p h a s
  | (OpDepart addr id, now) => depart addr id now s
  | (OpRearm addr, now) => rearm_departed addr now s
  end.
Definition reg_run (ops : list (RegOp * Z)) (s : WorkerSet) : WorkerSet := foldl reg_step s ops.

(** The operation wrote the worker alive at the host. *)
Definition wrote_alive (id host : string) (o : RegOp * Z) : Prop :=
  match o.1 with
  | OpView i (Some Alive) _ _ => i = id
  | OpPreset i h _ Alive _ => i = id /\ h = host
  | _ => False
  end.
(** The membership the operation read, if it read one, lists the worker ready
    at the host, and nowhere else. *)
Definition lists_at (id host : string) (members : list Peer) : Prop :=
  id ∈ map pr_ordinal (ready_members members) /\ forall p, p ∈ ready_members members -> pr_ordinal p = id -> pr_host p = host.
Definition keeps (id host : string) (o : RegOp * Z) : Prop :=
  match o.1 with
  | OpRecompose members | OpView _ _ _ members => lists_at id host members
  | _ => True
  end.

(** The view written, before it is projected. *)
Lemma set_view_annots id h a members now s :
  ws_annots (set_view iter port id h a members now s) = annots_after members (annots_set_view iter id h a (ws_annots s)).2.
Proof. unfold set_view. by destruct (annots_set_view iter id h a (ws_annots s)) as [[] recs]. Qed.

(** Forgetting dead verdicts makes no record alive. *)
Lemma forget_lookup (b : bool) id (R : Annots) o rec :
  (if b then map_imap (fun other r => Some (if bool_decide (other <> id) && bool_decide (an_health r = Dead)
                                            then mkAnnot Unknown (an_acceptance r) (an_host r) (an_port_override r) else r)) R
   else R) !! o = Some rec ->
  exists r, R !! o = Some r /\ an_host rec = an_host r /\ (an_health rec <> Unknown -> rec = r).
Proof.
  destruct b; [|intros H; by exists rec]. rewrite map_lookup_imap. destruct (R !! o) as [r|]; [|done]. simpl.
  intros [= <-]. exists r. split; [done|]. destruct (_ && _); split; done.
Qed.
Lemma view_alive id h a recs o rec :
  (annots_set_view iter id h a recs).2 !! o = Some rec -> an_health rec = Alive ->
  (o = id /\ h = Some Alive) \/ exists rec', recs !! o = Some rec' /\ an_health rec' = Alive /\ an_host rec' = an_host rec.
Proof.
  intros Hr Ha. unfold annots_set_view in Hr. destruct (recs !! id) as [r|] eqn:E; [|right; by exists rec].
  destruct (bool_decide _ && _); cbn [snd] in Hr; [right; by exists rec|].
  apply forget_lookup in Hr as (r1 & H1 & H2 & H3). rewrite H3 in * by congruence.
  destruct (decide (o = id)) as [->|Hne]; [|rewrite lookup_insert_ne in H1 by done; right; by exists r1].
  rewrite lookup_insert_eq in H1. injection H1 as <-. simpl in *. destruct h as [hh|]; simpl in *; [left; by subst hh|right; by exists r].
Qed.

(** One step: what is alive after it was alive at its host before it, or it
    was written so; and it is still listed there. *)
Lemma alive_step s o id rec :
  ws_annots (reg_step s o) !! id = Some rec -> an_health rec = Alive ->
  keeps id (an_host rec) o /\
  (wrote_alive id (an_host rec) o \/
   exists rec', ws_annots s !! id = Some rec' /\ an_health rec' = Alive /\ an_host rec' = an_host rec).
Proof.
  destruct o as [op now]. unfold keeps, wrote_alive, lists_at. intros Hr Ha.
  assert (forall members recs, annots_after members recs !! id = Some rec ->
            recs !! id = Some rec /\ lists_at id (an_host rec) members) as Hk.
  { intros members recs H. apply annots_after_known in H as (H1 & H2 & H3); [done|by rewrite Ha]. }
  destruct op as [members|i h a members|b members|i p|i host p h a|addr i|addr]; simpl in *.
  - apply Hk in Hr as [H1 H2]. split; [done|]. right. by exists rec.
  - rewrite set_view_annots in Hr. apply Hk in Hr as [H1 H2]. split; [done|].
    apply view_alive in H1 as [[-> ->]|H1]; [by left|by right|done].
  - split; [done|]. right. unfold synced in Hr. destruct (ws_listed s); [by exists rec|]. destruct b; simpl in Hr; [|by exists rec].
    apply Hk in Hr as [H1 _]. by exists rec.
  - split; [done|]. right. destruct (ws_annots s !! i) as [r|] eqn:E; [|by exists rec].
    destruct (decide (id = i)) as [->|Hne]; [rewrite lookup_insert_eq in Hr; injection Hr as <-; by exists r|].
    rewrite lookup_insert_ne in Hr by done. by exists rec.
  - split; [done|]. destruct (decide (id = i)) as [->|Hne]; [|rewrite lookup_insert_ne in Hr by done; right; by exists rec].
    rewrite lookup_insert_eq in Hr. injection Hr as <-. simpl in *. left. by subst h.
  - split; [done|]. right. by exists rec.
  - split; [done|]. right. by exists rec.
Qed.
Lemma alive_history ops s id rec :
  (forall r, ws_annots s !! id = Some r -> an_health r <> Alive) ->
  ws_annots (reg_run ops s) !! id = Some rec -> an_health rec = Alive ->
  exists pre o post, ops = pre ++ o :: post /\ wrote_alive id (an_host rec) o /\ Forall (keeps id (an_host rec)) (o :: post).
Proof.
  intros H0. revert rec. induction ops as [|o ops IH] using rev_ind; intros rec Hr Ha; [by apply H0 in Hr|].
  unfold reg_run in Hr. rewrite foldl_snoc in Hr. fold (reg_run ops s) in Hr. destruct (alive_step _ _ _ _ Hr Ha) as [Hk [Hw|(r' & H1 & H2 & H3)]].
  - exists ops, o, []. split; [done|]. split; [done|by repeat constructor].
  - destruct (IH r' H1 H2) as (pre & o' & post & -> & Hw & HF). rewrite H3 in *. exists pre, o', (post ++ [o]).
    rewrite <- app_assoc. split; [done|]. split; [done|]. inversion HF; subst. constructor; [done|]. apply Forall_app. split; [done|by repeat constructor].
Qed.

(** ** Departed addresses *)

(** What an operation means for one address. *)
Inductive AddrEvent := EvLeft (id : string) | EvJoined | EvSeen.
Definition recompose_event (addr : ProxyAddr) (members : list Peer) (recs : Annots) : option AddrEvent :=
  let peers := ready_members members in
  if bool_decide (addr ∈ map we_address (project peers (annots_after members recs) port)) then Some EvJoined
  else (fun d => EvLeft d.1) <$> last (filter (fun d => d.2 = addr) (sync_departed iter peers port recs)).
Definition addr_event (addr : ProxyAddr) (s : WorkerSet) (o : RegOp) : option AddrEvent :=
  match o with
  | OpRecompose members => recompose_event addr members (ws_annots s)
  | OpView id h a members => recompose_event addr members (annots_set_view iter id h a (ws_annots s)).2
  | OpSynced b members => if negb (ws_listed s) && b then recompose_event addr members (ws_annots s) else None
  | OpDepart a id => if bool_decide (a = addr) then Some (EvLeft id) else None
  | OpRearm a => if bool_decide (a = addr) then Some EvSeen else None
  | OpPort _ _ | OpPreset _ _ _ _ _ => None
  end.
Fixpoint addr_events (addr : ProxyAddr) (ops : list (RegOp * Z)) (s : WorkerSet) : list (AddrEvent * Z) :=
  match ops with
  | [] => []
  | o :: ops => (match addr_event addr s o.1 with Some e => [(e, o.2)] | None => [] end) ++ addr_events addr ops (reg_step s o)
  end.

(** The window of an address, and the events that move it. *)
Definition window_step (w : option Tombstone) (e : AddrEvent * Z) : option Tombstone :=
  match e with
  | (EvLeft id, now) => Some (mkTomb id (u64_sat_add now DEPARTED_ADDRESS_TTL_MS))
  | (EvJoined, _) => None
  | (EvSeen, now) =>
      match w with
      | Some t => if open_at now t then Some (mkTomb (tb_id t) (Z.max (tb_expires_at_ms t) (u64_sat_add now DEPARTED_ADDRESS_TTL_MS))) else w
      | None => None
      end
  end.

(** What is stored is the window, or nothing once it closed. *)
Definition stored (T : Z) (t w : option Tombstone) : Prop := t = w \/ (t = None /\ exists x, w = Some x /\ tb_expires_at_ms x <= T).
Lemma stored_later T T' t w : T <= T' -> stored T t w -> stored T' t w.
Proof. intros HT [->|(-> & x & -> & Hx)]; [by left|right]. split; [done|]. exists x. split; [done|lia]. Qed.

Lemma insert_departed_lookup addr now (l : list (string * ProxyAddr)) (t : Tombstones) :
  foldl (fun t d => tomb_insert d.2 d.1 now t) t l !! addr =
  match last (filter (fun d => d.2 = addr) l) with
  | Some d => Some (mkTomb d.1 (u64_sat_add now DEPARTED_ADDRESS_TTL_MS))
  | None => t !! addr
  end.
Proof.
  induction l as [|d l IH] using rev_ind; [done|]. rewrite foldl_snoc, filter_app, filter_cons, filter_nil. unfold tomb_insert at 1.
  destruct (decide (d.2 = addr)) as [<-|Hne]; [by rewrite lookup_insert_eq, last_snoc|].
  rewrite lookup_insert_ne by done. by rewrite IH, app_nil_r.
Qed.
Lemma clear_entries_lookup addr (l : list WorkerEntry) (t : Tombstones) :
  foldl (fun t e => tomb_clear (we_address e) t) t l !! addr = if decide (addr ∈ map we_address l) then None else t !! addr.
Proof.
  revert t. induction l as [|e l IH]; intros t; cbn [foldl map]; [by rewrite decide_False by apply not_elem_of_nil|].
  rewrite IH. unfold tomb_clear. destruct (decide (addr = we_address e)) as [->|Hne].
  - rewrite (decide_True (P := _ ∈ _ :: _)) by (by left). rewrite lookup_delete_eq. by destruct (decide _).
  - rewrite lookup_delete_ne by done. apply decide_ext. rewrite elem_of_cons. tauto.
Qed.
Lemma prune_lookup addr now (t : Tombstones) : stored now (tomb_prune now t !! addr) (t !! addr).
Proof.
  unfold tomb_prune. destruct (t !! addr) as [x|] eqn:E.
  - destruct (open_at now x) eqn:O.
    + left. apply map_lookup_filter_Some. done.
    + right. split; [|exists x; split; [done|unfold open_at in O; apply Z.ltb_ge in O; lia]].
      apply map_lookup_filter_None. right. simpl. intros y Hy. rewrite E in Hy. injection Hy as <-. congruence.
  - left. apply map_lookup_filter_None. by left.
Qed.
Lemma recompose_stored addr members now T s w :
  T <= now -> stored T (ws_tombs s !! addr) w ->
  stored now (ws_tombs (recompose iter port members now s) !! addr)
    (match recompose_event addr members (ws_annots s) with Some e => window_step w (e, now) | None => w end).
Proof.
  intros HT Hs. change (ws_tombs (recompose iter port members now s)) with
    (tomb_prune now (foldl (fun t e => tomb_clear (we_address e) t)
       (foldl (fun t d => tomb_insert d.2 d.1 now t) (ws_tombs s) (sync_departed iter (ready_members members) port (ws_annots s)))
       (project (ready_members members) (annots_after members (ws_annots s)) port))).
  set (t1 := foldl _ (foldl _ _ _) _).
  assert (stored now (t1 !! addr) (match recompose_event addr members (ws_annots s) with Some e => window_step w (e, now) | None => w end)) as H1.
  { unfold t1. rewrite clear_entries_lookup, insert_departed_lookup. unfold recompose_event.
    case_bool_decide as Hin; [rewrite decide_True by done; by left|]. rewrite decide_False by done.
    destruct (last _) as [d|]; simpl; [by left|]. by apply (stored_later T). }
  destruct (prune_lookup addr now t1) as [->|(-> & x & Hx & Hle)]; [done|].
  destruct H1 as [<-|(Hn & _)]; [|congruence]. right. split; [done|]. by exists x.
Qed.
Lemma step_stored addr s o T w :
  T <= o.2 -> stored T (ws_tombs s !! addr) w ->
  stored o.2 (ws_tombs (reg_step s o) !! addr) (match addr_event addr s o.1 with Some e => window_step w (e, o.2) | None => w end).
Proof.
  destruct o as [op now]. simpl. intros HT Hs. destruct op as [members|i h a members|b members|i p|i host p h a|a i|a]; simpl.
  - by apply (recompose_stored addr members now T).
  - unfold set_view. destruct (annots_set_view iter i h a (ws_annots s)) as [tn recs]. simpl.
    pose proof (recompose_stored addr members now T (mkSet recs (ws_tombs s) (ws_projection s) (ws_listed s) (ws_verdicts s)) w HT Hs) as H.
    by destruct tn.
  - unfold synced. destruct (ws_listed s); simpl; [by apply (stored_later T)|]. destruct b; simpl; [|by apply (stored_later T)].
    by apply (recompose_stored addr members now T).
  - by apply (stored_later T).
  - by apply (stored_later T).
  - unfold tomb_insert. case_bool_decide as E; [subst a; rewrite lookup_insert_eq; by left|].
    rewrite lookup_insert_ne by done. by apply (stored_later T).
  - unfold tomb_rearm. case_bool_decide as E.
    + subst a. destruct Hs as [Hs|(Hs & x & -> & Hx)]; rewrite Hs.
      * subst w. destruct (ws_tombs s !! addr) as [t|] eqn:E; [|by left]. simpl. destruct (open_at now t); [rewrite lookup_insert_eq; by left|by left].
      * right. split; [done|]. exists x. split; [|lia]. simpl. unfold open_at. destruct (Z.ltb_spec now (tb_expires_at_ms x)); [lia|done].
    + assert ((match ws_tombs s !! a with Some t => if open_at now t then <[a := mkTomb (tb_id t) (Z.max (tb_expires_at_ms t) (u64_sat_add now DEPARTED_ADDRESS_TTL_MS))]> (ws_tombs s) else ws_tombs s | None => ws_tombs s end) !! addr = ws_tombs s !! addr) as ->.
      { destruct (ws_tombs s !! a) as [t|]; [|done]. destruct (open_at now t); [by rewrite lookup_insert_ne|done]. }
      by apply (stored_later T).
Qed.

Fixpoint clocked (T : Z) (ops : list (RegOp * Z)) : Prop :=
  match ops with [] => True | o :: ops => T <= o.2 /\ clocked o.2 ops end.
Fixpoint clock_after (T : Z) (ops : list (RegOp * Z)) : Z := match ops with [] => T | o :: ops => clock_after o.2 ops end.
Lemma run_stored addr ops s T w :
  clocked T ops -> stored T (ws_tombs s !! addr) w ->
  stored (clock_after T ops) (ws_tombs (reg_run ops s) !! addr) (foldl window_step w (addr_events addr ops s)).
Proof.
  revert s T w. induction ops as [|o ops IH]; intros s T w Hc Hs; [done|]. destruct Hc as [Hc1 Hc2]. simpl. rewrite foldl_app.
  pose proof (step_stored addr s o T w Hc1 Hs) as H. specialize (IH (reg_step s o) o.2 _ Hc2 H).
  destruct (addr_event addr s o.1); exact IH.
Qed.
Definition live_entry (addr : ProxyAddr) (s : WorkerSet) : option WorkerEntry :=
  List.find (fun w => bool_decide (we_address w = addr)) (ws_projection s).
Definition window_answer (addr : ProxyAddr) (t : Z) (w : option Tombstone) : option WorkerEntry :=
  match w with Some x => if t <? tb_expires_at_ms x then Some (mkWorker (tb_id x) addr Dead Refuse) else None | None => None end.
Lemma stored_answer addr T t (tombs : Tombstones) w :
  stored T (tombs !! addr) w -> T <= t -> tomb_lookup addr t tombs = window_answer addr t w.
Proof.
  unfold tomb_lookup, window_answer. intros [->|(-> & x & -> & Hx)] HT; simpl.
  - destruct w as [x|]; [|done]. simpl. rewrite Z.leb_antisym. by destruct (Z.ltb t (tb_expires_at_ms x)).
  - destruct (Z.ltb_spec t (tb_expires_at_ms x)); [lia|done].
Qed.

(** The deadline of a window opened at [d] and seen answering at [seen]. *)
Definition stretch (d : Z) (seen : list Z) : Z :=
  foldl (fun x r => if r <? x then Z.max x (u64_sat_add r DEPARTED_ADDRESS_TTL_MS) else x) (u64_sat_add d DEPARTED_ADDRESS_TTL_MS) seen.
Lemma stretch_events id d seen :
  foldl window_step (Some (mkTomb id (u64_sat_add d DEPARTED_ADDRESS_TTL_MS))) (map (fun r => (EvSeen, r)) seen) = Some (mkTomb id (stretch d seen)).
Proof.
  unfold stretch. generalize (u64_sat_add d DEPARTED_ADDRESS_TTL_MS). induction seen as [|r seen IH]; intros x; [done|]. simpl. unfold open_at. simpl.
  destruct (r <? x); apply IH.
Qed.
End props.
