(* ===== verification/WorkerRegistryThms.v ===== *)
(** * Front proxy: the worker registry's theorems *)

From S2P Require Import Prelude Texts ProxyTypes Topology WorkerRegistry WorkerRegistryProps.

Open Scope Z_scope.

(** A [HashMap] walk visits every pair once, in any order. *)
Class HashOrder (iter : Annots -> list (string * Annot)) : Prop := hash_order m : iter m ≡ₚ map_to_list m.

Lemma ready_nodup members : NoDup (map pr_ordinal members) -> NoDup (map pr_ordinal (ready_members members)).
Proof.
  intros Hm. induction members as [|p l IH]; [done|]. cbn [map] in Hm. apply NoDup_cons in Hm as [H1 H2]. unfold ready_members. rewrite filter_cons.
  destruct (decide _); [|by apply IH]. cbn [map]. apply NoDup_cons. split; [|by apply IH]. intros Hin. apply H1.
  apply list_elem_of_fmap in Hin as (q & -> & Hq). apply list_elem_of_filter in Hq as [_ Hq]. apply list_elem_of_fmap. by exists q.
Qed.

(** ** Recomposing again *)

Section again.
Context (iter : Annots -> list (string * Annot)) `{!HashOrder iter} (port : Z).

Lemma kept_again recs p members :
  NoDup (map pr_ordinal (ready_members members)) -> p ∈ ready_members members ->
  kept_annot (annots_after iter port members recs) p = kept_annot recs p.
Proof.
  intros Hd Hp. unfold kept_annot at 1. rewrite annots_after_elem by done.
  rewrite bool_decide_eq_true_2; [done|]. unfold kept_annot. destruct (recs !! pr_ordinal p); [case_bool_decide|]; done.
Qed.
Lemma annots_again members recs :
  NoDup (map pr_ordinal (ready_members members)) ->
  annots_after iter port members (annots_after iter port members recs) = annots_after iter port members recs.
Proof.
  intros Hd. apply map_eq. intros o. destruct (decide (o ∈ map pr_ordinal (ready_members members))) as [Ho|Ho].
  - apply list_elem_of_fmap in Ho as (p & -> & Hp). rewrite !annots_after_elem by done. by rewrite kept_again.
  - by rewrite !annots_after_gone.
Qed.
Lemma departed_again members recs :
  NoDup (map pr_ordinal (ready_members members)) ->
  sync_departed iter (ready_members members) port (annots_after iter port members recs) = [].
Proof.
  intros Hd. unfold sync_departed.
  destruct (filter _ (iter _)) as [|[o r] l] eqn:Hf.
  - simpl. assert (forall l, l ⊆ ready_members members ->
      omap (fun p => match annots_after iter port members recs !! pr_ordinal p with
        | Some rec => if bool_decide (an_host rec = pr_host p) then None else Some (pr_ordinal p, addr_of port rec)
        | None => None end) l = []) as H; [|by apply H].
    induction l as [|p l IH]; intros Hl; [done|]. simpl. rewrite annots_after_elem by (done || apply Hl; by left).
    rewrite bool_decide_eq_true_2; [apply IH; intros q Hq; apply Hl; by right|].
    unfold kept_annot. destruct (recs !! pr_ordinal p); [case_bool_decide|]; done.
  - exfalso. assert ((o, r) ∈ filter (fun p : string * Annot => p.1 ∉ map pr_ordinal (ready_members members)) (iter (annots_after iter port members recs))) as H by (rewrite Hf; by left).
    apply list_elem_of_filter in H as [H1 H2]. rewrite hash_order in H2. apply elem_of_map_to_list in H2. by rewrite annots_after_gone in H2.
Qed.
Lemma recompose_again members now s :
  NoDup (map pr_ordinal (ready_members members)) ->
  recompose iter port members now (recompose iter port members now s) = recompose iter port members now s.
Proof.
  intros Hd. set (s1 := recompose iter port members now s).
  assert (ws_annots s1 = annots_after iter port members (ws_annots s)) as Ha by done.
  assert (ws_projection (recompose iter port members now s1) = ws_projection s1) as Hp.
  { rewrite recompose_projection by done. unfold s1. rewrite recompose_projection by done. apply map_ext_in. intros p Hp. apply list_elem_of_In in Hp.
    unfold entry_of. by rewrite recompose_annots, kept_again. }
  assert (ws_tombs (recompose iter port members now s1) = ws_tombs s1) as Ht.
  { change (ws_tombs (recompose iter port members now s1)) with (tomb_prune now (foldl (fun t e => tomb_clear (we_address e) t)
       (foldl (fun t d => tomb_insert d.2 d.1 now t) (ws_tombs s1) (sync_departed iter (ready_members members) port (ws_annots s1)))
       (ws_projection (recompose iter port members now s1)))).
    rewrite Ha, departed_again, Hp by done. simpl.
    change (ws_tombs s1) with (tomb_prune now (foldl (fun t e => tomb_clear (we_address e) t)
       (foldl (fun t d => tomb_insert d.2 d.1 now t) (ws_tombs s) (sync_departed iter (ready_members members) port (ws_annots s))) (ws_projection s1))).
    set (t0 := foldl _ (ws_tombs s) _). apply map_eq. intros a. apply option_eq. intros x. unfold tomb_prune.
    rewrite !map_lookup_filter_Some, !clear_entries_lookup. destruct (decide _); [naive_solver|].
    rewrite map_lookup_filter_Some, clear_entries_lookup, decide_False by done. naive_solver. }
  transitivity (mkSet (ws_annots (recompose iter port members now s1)) (ws_tombs (recompose iter port members now s1))
    (ws_projection (recompose iter port members now s1)) (ws_listed s1) (ws_verdicts s1)); [done|].
  rewrite Hp, Ht, recompose_annots, Ha, annots_again, <- Ha by done. by destruct s1.
Qed.
End again.

(** ** A view written *)

Section view.
Context (iter : Annots -> list (string * Annot)) `{!HashOrder iter} (port : Z).

(** What the write leaves of each record. *)
Definition viewed (id : string) (h : option WorkerHealth) (a : option Acceptance) (blind : bool) (o : string) (r : Annot) : Annot :=
  if decide (o = id) then mkAnnot (default (an_health r) h) (default (an_acceptance r) a) (an_host r) (an_port_override r)
  else if blind && bool_decide (h = Some Alive) && bool_decide (an_health r = Dead)
       then mkAnnot Unknown (an_acceptance r) (an_host r) (an_port_override r) else r.
Definition sighted (recs : Annots) : Prop := exists o r, recs !! o = Some r /\ an_health r = Alive.
#[global] Instance sighted_dec recs : Decision (sighted recs).
Proof.
  destruct (decide (map_Forall (fun _ r => an_health r <> Alive) recs)) as [H|H].
  - right. intros (o & r & H1 & H2). by apply (H o r).
  - left. apply map_not_Forall in H; [|apply _]. destruct H as (o & r & H1 & H2). exists o, r. split; [done|by apply dec_stable].
Defined.
Lemma sighted_iter recs : existsb (fun p => bool_decide (an_health p.2 = Alive)) (iter recs) = bool_decide (sighted recs).
Proof.
  apply Bool.eq_iff_eq_true. rewrite existsb_exists, bool_decide_eq_true. setoid_rewrite <- list_elem_of_In. setoid_rewrite hash_order. split.
  - intros ([o r] & Hin & Ha). apply elem_of_map_to_list in Hin. apply bool_decide_eq_true in Ha. by exists o, r.
  - intros (o & r & H1 & H2). exists (o, r). split; [by apply elem_of_map_to_list|by apply bool_decide_eq_true].
Qed.
Lemma forget_eq (b : bool) id (R : Annots) o :
  (if b then map_imap (fun other (r : Annot) => Some (if bool_decide (other <> id) && bool_decide (an_health r = Dead)
                        then mkAnnot Unknown (an_acceptance r) (an_host r) (an_port_override r) else r)) R
   else R) !! o =
  (fun r : Annot => if b && bool_decide (o <> id) && bool_decide (an_health r = Dead)
                    then mkAnnot Unknown (an_acceptance r) (an_host r) (an_port_override r) else r) <$> R !! o.
Proof. destruct b; [rewrite map_lookup_imap|]; by destruct (R !! o). Qed.
Lemma set_view_lookup id h a recs o :
  is_Some (recs !! id) ->
  (annots_set_view iter id h a recs).2 !! o = viewed id h a (negb (bool_decide (sighted recs))) o <$> recs !! o.
Proof.
  intros [rec Hr]. unfold annots_set_view. rewrite Hr, sighted_iter.
  destruct (bool_decide (default (an_health rec) h = an_health rec) && bool_decide (default (an_acceptance rec) a = an_acceptance rec)) eqn:Hsame.
  - apply andb_true_iff in Hsame as [H1%bool_decide_eq_true H2%bool_decide_eq_true]. simpl. destruct (recs !! o) as [r|] eqn:Ho; [|done]. simpl. f_equal.
    unfold viewed. destruct (decide (o = id)) as [->|Hne].
    + rewrite Hr in Ho. injection Ho as <-. rewrite H1, H2. by destruct rec.
    + destruct (decide (sighted recs)) as [Hs|Hs]; [by rewrite bool_decide_eq_true_2|].
      destruct (decide (h = Some Alive)) as [->|Hh]; [|by rewrite (bool_decide_eq_false_2 (h = Some Alive)), andb_false_r by done].
      simpl in H1. exfalso. apply Hs. exists id, rec. by rewrite H1.
  - cbn [snd]. assert (bool_decide (default (an_health rec) h = Alive) && negb (bool_decide (sighted recs)) = bool_decide (h = Some Alive) && negb (bool_decide (sighted recs))) as Hb.
    { destruct (decide (sighted recs)) as [Hs|Hs]; [by rewrite (bool_decide_eq_true_2 (sighted recs)), !andb_false_r by done|].
      rewrite (bool_decide_eq_false_2 (sighted recs)), !andb_true_r by done. apply bool_decide_ext. destruct h as [hh|]; simpl; [split; congruence|].
      split; [|done]. intros Hal. exfalso. apply Hs. by exists id, rec. }
    rewrite andb_comm, Hb.
    rewrite forget_eq. destruct (decide (o = id)) as [->|Hne].
    + rewrite lookup_insert_eq, Hr. simpl. f_equal. rewrite (bool_decide_eq_false_2 (id <> id)), andb_false_r by (intros H; by apply H).
      unfold viewed. by rewrite decide_True.
    + rewrite lookup_insert_ne by done. destruct (recs !! o) as [r|]; [|done]. simpl. f_equal. unfold viewed.
      rewrite decide_False, (bool_decide_eq_true_2 (o <> id)), andb_true_r by done. by rewrite (andb_comm (bool_decide (h = Some Alive))).
Qed.
End view.

(** ** A registry to run *)

Definition ex_iter : Annots -> list (string * Annot) := map_to_list.
#[global] Instance ex_hash_order : HashOrder ex_iter.
Proof. intros m. done. Qed.
Definition ex_members : list Peer := [new_peer "w0" "10.0.0.1"; new_peer "w1" "10.0.0.2"].
Definition ex_set : WorkerSet := new_set ex_iter 5060 ex_members 0.

(** ** Theorems *)

(** The worker set is a projection of membership and the probe's view.
    After a recompose the pool is the ready members, each once and in their
    order, at their host and their port, with the health and acceptance last
    written where the worker stayed at its host, and unknown where it joined or
    moved; and recomposing again changes nothing. *)
Theorem registry_projects iter `{!HashOrder iter} port members now s :
  NoDup (map pr_ordinal members) ->
  let s' := recompose iter port members now s in
  map we_id (snapshot_of s') = map pr_ordinal (ready_members members) /\
  (forall id, resolve id s' = entry_of port (ws_annots s) <$> find_peer id (ready_members members)) /\
  recompose iter port members now s' = s'.
Proof.
  intros Hm s'. pose proof (ready_nodup members Hm) as Hd.
  split; [|split].
  - unfold snapshot_of, s'. rewrite recompose_projection, map_map by done. by apply map_ext.
  - intros id. unfold resolve, s'. rewrite recompose_projection by done. apply find_entry_map.
  - by apply recompose_again.
Qed.
Lemma registry_projects_witness :
  resolve "w0" (recompose ex_iter 5060 ex_members 0 ex_set) = Some (mkWorker "w0" (mkAddr "10.0.0.1" 5060) Unknown Accept).
Proof.
  destruct (registry_projects ex_iter 5060 ex_members 0 ex_set) as (_ & H & _); [apply (bool_decide_unpack _); vm_compute; exact I|].
  rewrite (H "w0"). vm_compute. reflexivity.
Defined.

(** A worker is read alive only on what was written of it where it is.
    Whatever listings, views and answers came, a worker the registry resolves as
    alive was written alive by an earlier operation, and every listing taken in
    since then had it ready at the host it is resolved at: a recreated or
    returning worker is not routed to on the health of the one before. *)
Theorem alive_was_read iter port members0 now0 ops members now id w :
  let s := reg_run iter port ops (new_set iter port members0 now0) in
  NoDup (map pr_ordinal members) ->
  resolve id (recompose iter port members now s) = Some w -> is_alive w = true ->
  exists pre o post, ops = pre ++ o :: post /\ wrote_alive id (pa_host (we_address w)) o /\
    Forall (keeps id (pa_host (we_address w))) (o :: post).
Proof.
  intros s Hm Hr Ha. pose proof (ready_nodup members Hm) as Hd.
  unfold resolve in Hr. rewrite recompose_projection, find_entry_map in Hr by done.
  destruct (find_peer id (ready_members members)) as [p|] eqn:Hp; [|done]. simpl in Hr. injection Hr as <-.
  rewrite find_peer_map in Hp. apply peer_map_Some in Hp as [<- _]. unfold is_alive in Ha. apply bool_decide_eq_true in Ha. simpl in *.
  unfold kept_annot in Ha. destruct (ws_annots s !! pr_ordinal p) as [rec|] eqn:E; [|done].
  case_bool_decide as Hh; [|done]. rewrite <- Hh. apply (alive_history iter port ops (new_set iter port members0 now0)); [|done|done].
  intros r Hr Hal. unfold new_set in Hr. rewrite recompose_annots in Hr. apply annots_after_known in Hr as (Hr & _); [|by rewrite Hal].
  simpl in Hr. by rewrite lookup_empty in Hr.
Qed.
Lemma alive_was_read_witness :
  exists pre o post,
    [(OpView "w0" (Some Alive) None ex_members, 5); (OpRecompose ex_members, 7)] = pre ++ o :: post /\ wrote_alive "w0" "10.0.0.1" o /\
    Forall (keeps "w0" "10.0.0.1") (o :: post).
Proof.
  apply (alive_was_read ex_iter 5060 ex_members 0 [(OpView "w0" (Some Alive) None ex_members, 5); (OpRecompose ex_members, 7)] ex_members 9 "w0"
           (mkWorker "w0" (mkAddr "10.0.0.1" 5060) Alive Accept)); [|vm_compute; reflexivity|reflexivity].
  apply (bool_decide_unpack _). vm_compute. exact I.
Defined.

(** An address that left answers as dead for exactly its window.  From the
    step at which the worker [id] stopped being served at an address, while none
    joins there and none leaves there again, the address answers as [id], dead,
    until Timer H past that step and past every response seen of it while the
    window was open, and not from then on; a worker bound there comes first. *)
Theorem departed_window iter port ops s addr id d pre seen T t :
  addr_events iter port addr ops s = pre ++ (EvLeft id, d) :: map (fun r => (EvSeen, r)) seen ->
  ws_tombs s = ∅ -> clocked T ops -> clock_after T ops <= t ->
  lookup_by_address addr t (reg_run iter port ops s) =
  match live_entry addr (reg_run iter port ops s) with
  | Some w => Some w
  | None => if t <? stretch d seen then Some (mkWorker id addr Dead Refuse) else None
  end.
Proof.
  intros He Ht Hc HT. unfold lookup_by_address. fold (live_entry addr (reg_run iter port ops s)). destruct (live_entry _ _); [done|].
  assert (stored T (ws_tombs s !! addr) None) as H0 by (left; by rewrite Ht, lookup_empty).
  pose proof (run_stored iter port addr ops s T None Hc H0) as H. rewrite He, foldl_app in H. cbn [foldl window_step] in H.
  rewrite stretch_events in H. rewrite (stored_answer addr (clock_after T ops) t _ _ H HT). done.
Qed.
Lemma departed_window_witness :
  let ops := [(OpRecompose [new_peer "w1" "10.0.0.2"], 1000); (OpRearm (mkAddr "10.0.0.1" 5060), 20000)] in
  lookup_by_address (mkAddr "10.0.0.1" 5060) 51999 (reg_run ex_iter 5060 ops ex_set) = Some (mkWorker "w0" (mkAddr "10.0.0.1" 5060) Dead Refuse) /\
  lookup_by_address (mkAddr "10.0.0.1" 5060) 52000 (reg_run ex_iter 5060 ops ex_set) = None.
Proof.
  split;
    (rewrite (departed_window ex_iter 5060 [(OpRecompose [new_peer "w1" "10.0.0.2"], 1000); (OpRearm (mkAddr "10.0.0.1" 5060), 20000)] ex_set
               (mkAddr "10.0.0.1" 5060) "w0" 1000 [] [20000] 0);
     [vm_compute; reflexivity|vm_compute; reflexivity|vm_compute; reflexivity|repeat split; vm_compute; discriminate|vm_compute; discriminate]).
Defined.


(** A record as a reader sees it. *)
Definition entry_with (port : Z) (p : Peer) (r : Annot) : WorkerEntry :=
  mkWorker (pr_ordinal p) (mkAddr (pr_host p) (default port (an_port_override r))) (an_health r) (an_acceptance r).
Section in_step.
Context (iter : Annots -> list (string * Annot)) `{!HashOrder iter} (port : Z) (members : list Peer).
Hypothesis Hm : NoDup (map pr_ordinal members).

Lemma in_step_resolve now s id w :
  resolve id (recompose iter port members now s) = Some w ->
  exists p r, p ∈ ready_members members /\ pr_ordinal p = id /\ w = entry_with port p r /\ an_host r = pr_host p /\
    ws_annots (recompose iter port members now s) !! id = Some r.
Proof.
  intros Hr. pose proof (ready_nodup members Hm) as Hd. unfold resolve in Hr. rewrite recompose_projection, find_entry_map in Hr by done.
  destruct (find_peer id (ready_members members)) as [p|] eqn:Hp; [|done]. simpl in Hr. injection Hr as <-.
  rewrite find_peer_map in Hp. apply peer_map_Some in Hp as [<- Hp]. exists p, (kept_annot (ws_annots s) p). split_and!; try done.
  - unfold kept_annot. destruct (ws_annots s !! pr_ordinal p); [case_bool_decide|]; done.
  - rewrite recompose_annots. by apply annots_after_elem.
Qed.
Lemma resolve_record now s p r :
  p ∈ ready_members members -> ws_annots s !! pr_ordinal p = Some r -> an_host r = pr_host p ->
  resolve (pr_ordinal p) (recompose iter port members now s) = Some (entry_with port p r).
Proof.
  intros Hp Hr Hh. pose proof (ready_nodup members Hm) as Hd. unfold resolve. rewrite recompose_projection, find_entry_map, find_peer_map, peer_map_elem by done.
  simpl. unfold entry_of, kept_annot. by rewrite Hr, bool_decide_eq_true_2.
Qed.
Lemma sighted_snapshot now s :
  sighted (ws_annots (recompose iter port members now s)) <->
  ~ Forall (fun v => we_health v <> Alive) (snapshot_of (recompose iter port members now s)).
Proof.
  pose proof (ready_nodup members Hm) as Hd. unfold snapshot_of. rewrite recompose_projection, Forall_forall, recompose_annots by done. split.
  - intros (o & r & Hr & Ha) HF. destruct (annots_after_known _ _ _ _ _ _ Hr ltac:(by rewrite Ha)) as (H1 & H2 & H3).
    apply list_elem_of_fmap in H2 as (p & -> & Hp). apply (HF (entry_of port (ws_annots s) p)); [apply list_elem_of_fmap; by exists p|].
    simpl. unfold kept_annot. by rewrite H1, bool_decide_eq_true_2 by (symmetry; by apply H3).
  - intros HF. apply dec_stable. intros Hn. apply HF. intros v Hv Ha. apply list_elem_of_fmap in Hv as (p & -> & Hp). apply Hn.
    exists (pr_ordinal p), (kept_annot (ws_annots s) p). split; [by apply annots_after_elem|done].
Qed.
Lemma set_view_resolve now0 s0 id h a now id' p r :
  let s := recompose iter port members now0 s0 in
  is_Some (ws_annots s !! id) -> p ∈ ready_members members -> pr_ordinal p = id' -> an_host r = pr_host p -> ws_annots s !! id' = Some r ->
  resolve id' (set_view iter port id h a members now s) =
    Some (entry_with port p (viewed id h a (negb (bool_decide (sighted (ws_annots s)))) id' r)).
Proof.
  intros s Hid Hp <- Hh Hr. unfold set_view. pose proof (set_view_lookup iter id h a (ws_annots s) (pr_ordinal p) Hid) as Hv. rewrite Hr in Hv.
  destruct (annots_set_view iter id h a (ws_annots s)) as [td recs]. cbn [snd] in Hv.
  assert (forall s1, ws_annots s1 = recs -> resolve (pr_ordinal p) (recompose iter port members now s1) =
    Some (entry_with port p (viewed id h a (negb (bool_decide (sighted (ws_annots s)))) (pr_ordinal p) r))) as Hres.
  { intros s1 <-. apply resolve_record; [done|done|]. unfold viewed. destruct (decide _); [done|]. by destruct (_ && _). }
  specialize (Hres (mkSet recs (ws_tombs s) (ws_projection s) (ws_listed s) (ws_verdicts s)) eq_refl). by destruct td.
Qed.
Lemma set_view_verdicts id h a now s r :
  ws_annots s !! id = Some r ->
  ws_verdicts (set_view iter port id h a members now s) =
    ws_verdicts s ++ (if decide (default (an_health r) h = Dead /\ an_health r <> Dead) then [id] else []).
Proof.
  intros Hr. unfold set_view, annots_set_view. rewrite Hr. destruct (decide (_ /\ _)) as [[H1 H2]|Hn].
  - rewrite (bool_decide_eq_false_2 (default (an_health r) h = an_health r)) by congruence. simpl.
    by rewrite (bool_decide_eq_true_2 (_ = Dead)), (bool_decide_eq_false_2 (an_health r = Dead)) by done.
  - rewrite app_nil_r. destruct (bool_decide _ && bool_decide _); [done|].
    assert (bool_decide (default (an_health r) h = Dead) && negb (bool_decide (an_health r = Dead)) = false) as ->; [|done].
    repeat case_bool_decide; try done. exfalso. by apply Hn.
Qed.
End in_step.

(** A view is written whole.  On a pool in step with its members, writing a
    worker's health and acceptance changes those of that worker and leaves what
    is not written; it changes another worker only where the write reads the
    first worker alive of a view that read none, and then a dead verdict of the
    others turns unknown; and a dead verdict is told exactly when the health
    turned dead. *)
Theorem view_written iter `{!HashOrder iter} port members now0 s0 id h a now w :
  NoDup (map pr_ordinal members) ->
  let s := recompose iter port members now0 s0 in
  resolve id s = Some w ->
  let s' := set_view iter port id h a members now s in
  resolve id s' = Some (mkWorker id (we_address w) (default (we_health w) h) (default (we_acceptance w) a)) /\
  (forall id' v, id' <> id -> resolve id' s = Some v ->
     resolve id' s' = Some (if decide (Forall (fun v => we_health v <> Alive) (snapshot_of s) /\ h = Some Alive /\ we_health v = Dead)
                            then mkWorker id' (we_address v) Unknown (we_acceptance v) else v)) /\
  ws_verdicts s' = ws_verdicts s ++ (if decide (default (we_health w) h = Dead /\ we_health w <> Dead) then [id] else []).
Proof.
  intros Hm s Hw s'. destruct (in_step_resolve iter port members Hm _ _ _ _ Hw) as (p & r & Hp & Ho & -> & Hh & Hr). fold s in Hr.
  split_and!.
  - etransitivity; [by apply (set_view_resolve iter port members Hm now0 s0 id h a now id p r)|]. f_equal. unfold entry_with, viewed. rewrite decide_True by done. simpl. by rewrite Ho.
  - intros id' v Hne Hv. destruct (in_step_resolve iter port members Hm _ _ _ _ Hv) as (p' & r' & Hp' & Ho' & -> & Hh' & Hr'). fold s in Hr'.
    etransitivity; [by apply (set_view_resolve iter port members Hm now0 s0 id h a now id' p' r')|]. f_equal. fold s. unfold viewed. rewrite decide_False by done.
    pose proof (sighted_snapshot iter port members Hm now0 s0) as Hs. fold s in Hs. destruct (decide (_ /\ _)) as [(H1 & H2 & H3)|Hn].
    + rewrite (bool_decide_eq_false_2 (sighted _)), (bool_decide_eq_true_2 (h = _)), (bool_decide_eq_true_2 (_ = Dead)) by (done || tauto). simpl. by rewrite <- Ho'.
    + assert (negb (bool_decide (sighted (ws_annots s))) && bool_decide (h = Some Alive) && bool_decide (an_health r' = Dead) = false) as ->; [|done].
      repeat case_bool_decide; try done. exfalso. apply Hn. split_and!; [|done|done]. apply dec_stable. tauto.
  - apply (set_view_verdicts iter port members id h a now s r Hr).
Qed.
Lemma view_written_witness :
  let s := recompose ex_iter 5060 ex_members 0 ex_set in
  resolve "w0" (set_view ex_iter 5060 "w0" (Some Alive) None ex_members 5 s) = Some (mkWorker "w0" (mkAddr "10.0.0.1" 5060) Alive Accept).
Proof.
  destruct (view_written ex_iter 5060 ex_members 0 ex_set "w0" (Some Alive) None 5 (mkWorker "w0" (mkAddr "10.0.0.1" 5060) Unknown Accept)) as (H & _);
    [apply (bool_decide_unpack _); vm_compute; exact I|vm_compute; reflexivity|exact H].
Defined.

(** ** Front proxy: two recomposes at once

    [WorkerSet::recompose] and [WorkerSet::set_view] of
    [crates/sip-proxy/src/registry/projection.rs] by their accesses to what the
    two tasks share: the annotations, updated in one swap that is retried, and
    the projection, replaced by a plain store.  The probe's task writes views
    while the membership's task recomposes. *)

(** The accesses of the two operations, in their order. *)
Inductive Access := AView (id : string) (h : option WorkerHealth) (a : option Acceptance) | ASync | ARead | AStore | ATell (id : string).
Definition recompose_accesses : list Access := [ASync; ARead; AStore].
Definition set_view_accesses (id : string) (h : option WorkerHealth) (a : option Acceptance) : list Access :=
  AView id h a :: recompose_accesses ++ [ATell id].

(** A task: what it has left to do, the entries it read and whether its write
    turned the worker dead. *)
Record Task := mkTask { tk_todo : list Access; tk_entries : list WorkerEntry; tk_turned : bool }.
Definition task_of (l : list Access) : Task := mkTask l [] false.
Record Shared := mkShared { sh_annots : Annots; sh_projection : list WorkerEntry; sh_verdicts : list string }.

Section race.
Context (iter : Annots -> list (string * Annot)) (port : Z) (members : list Peer).

Definition access (t : Task) (s : Shared) : Task * Shared :=
  match tk_todo t with
  | [] => (t, s)
  | AView id h a :: l =>
      let '(turned, recs) := annots_set_view iter id h a (sh_annots s) in
      (mkTask l (tk_entries t) turned, mkShared recs (sh_projection s) (sh_verdicts s))
  | ASync :: l => (mkTask l (tk_entries t) (tk_turned t), mkShared (annots_after iter port members (sh_annots s)) (sh_projection s) (sh_verdicts s))
  | ARead :: l => (mkTask l (project (ready_members members) (sh_annots s) port) (tk_turned t), s)
  | AStore :: l => (mkTask l (tk_entries t) (tk_turned t), mkShared (sh_annots s) (tk_entries t) (sh_verdicts s))
  | ATell id :: l =>
      (mkTask l (tk_entries t) (tk_turned t), mkShared (sh_annots s) (sh_projection s) (sh_verdicts s ++ (if tk_turned t then [id] else [])))
  end.
(** A schedule names the task that makes each access. *)
Definition run_one (st : list Task * Shared) (i : nat) : list Task * Shared :=
  match st.1 !! i with
  | Some t => let '(t, s) := access t st.2 in (<[i := t]> st.1, s)
  | None => st
  end.
Definition run_tasks (schedule : list nat) (st : list Task * Shared) : list Task * Shared := foldl run_one st schedule.
Definition shared_of (s : WorkerSet) : Shared := mkShared (ws_annots s) (ws_projection s) (ws_verdicts s).

(** Alone, the accesses are the operation. *)
Lemma recompose_alone now s :
  (run_tasks [0; 0; 0]%nat ([task_of recompose_accesses], shared_of s)).2 = shared_of (recompose iter port members now s).
Proof. done. Qed.
Lemma set_view_alone id h a now s :
  (run_tasks [0; 0; 0; 0; 0]%nat ([task_of (set_view_accesses id h a)], shared_of s)).2 = shared_of (set_view iter port id h a members now s).
Proof.
  unfold set_view. cbn. destruct (annots_set_view iter id h a (ws_annots s)) as [[] recs]; cbn; unfold shared_of; cbn; [done|by rewrite app_nil_r].
Qed.
End race.

(** Two tasks at once: the membership's follower reads the annotations, the
    probe then writes the worker dead, projects it dead and tells the verdict,
    and the follower stores what it had read.  The pool then reads the worker
    alive, its annotation reads it dead and the verdict has been told; no task
    has work left, and only a later recompose of either task repairs it. *)
Theorem stale_projection :
  let s0 := set_view ex_iter 5060 "w0" (Some Alive) None ex_members 5 ex_set in
  let tasks := [task_of recompose_accesses; task_of (set_view_accesses "w0" (Some Dead) None)] in
  let '(tasks, s) := run_tasks ex_iter 5060 ex_members [0; 0; 1; 1; 1; 1; 1; 0]%nat (tasks, shared_of s0) in
  Forall (fun t => tk_todo t = []) tasks /\
  an_health <$> sh_annots s !! "w0" = Some Dead /\ sh_verdicts s = ["w0"] /\
  we_health <$> List.find (fun w => String.eqb (we_id w) "w0") (sh_projection s) = Some Alive.
Proof. vm_compute. repeat constructor. Qed.
