(* ===== verification/LoadBalancer.v ===== *)
(** * Front proxy: the load balancer and its cookie

    [crates/sip-proxy/src/strategies/load_balancer.rs],
    [load_balancer/cookie.rs], [security/hmac.rs], [strategies/forward_all.rs]
    and the results of [strategy.rs].  HMAC-SHA256, SHA-1 and base64url are
    parameters; so is the load observer, whose buckets compute in floating
    point: what the strategy calls of it is an interface with a state.  Metrics
    are left out. *)

From S2P Require Import Prelude Texts Retransmit TxnData Rendezvous ProxyTypes Topology WorkerRegistry.
From stdpp Require Import pretty.
From Stdlib Require Import Ascii.

Open Scope Z_scope.

(** ** Interfaces *)

Class CookieEnv := {
  hmac_sha256 : list Z -> list Z -> list Z; (** key, input: 32 bytes *)
  sha1 : list Z -> list Z;
  b64_encode : list Z -> string; (** base64url, no padding *)
  b64_decode : string -> option (list Z);
}.
Definition is_byte (b : Z) : Prop := 0 <= b < 256.
Class CookieLaws (E : CookieEnv) : Prop := {
  hmac_length k i : length (hmac_sha256 k i) = 32%nat;
  hmac_bytes k i : Forall is_byte (hmac_sha256 k i);
  b64_roundtrip l : Forall is_byte l -> b64_decode (b64_encode l) = Some l;
  b64_nonempty b l : b64_encode (b :: l) <> ""%string;
}.
(** [EluBand] of [load_observer/band.rs]. *)
Inductive EluBand := BelowSoft | SoftToHard | HardToCritical | AboveCritical.
#[global] Instance EluBand_eq_dec : EqDecision EluBand.
Proof. solve_decision. Defined.
(** [WorkerLoadObserver], as the strategy calls it; a failed take carries the
    seconds to the next token. *)
Class LoadObserver := {
  observer : Type;
  band_for : string -> observer -> option EluBand;
  try_consume_for : string -> Z -> observer -> option Z * observer;
  record_own_admitted : string -> observer -> observer;
}.

(** ** Signing ([security/hmac.rs]) *)

Definition MIN_KEY_BYTES : nat := 16.
Definition TRUNCATED_MAC_BYTES : nat := 16.
Record HmacKey := mkKey { hk_id : string; hk_bytes : list Z }.
(** [is_paramchar] of [sip-message/src/char_class.rs]. *)
Definition is_alphanum (a : ascii) : bool :=
  let n := nat_of_ascii a in
  ((48 <=? n) && (n <=? 57) || (65 <=? n) && (n <=? 90) || (97 <=? n) && (n <=? 122))%nat.
Definition is_paramchar (a : ascii) : bool :=
  is_alphanum a || existsb (Ascii.eqb a) ["["%char; "]"%char; "/"%char; ":"%char; "&"%char; "+"%char; "$"%char;
                                          "-"%char; "_"%char; "."%char; "!"%char; "~"%char; "*"%char; "'"%char; "("%char; ")"%char].
Fixpoint all_chars (f : ascii -> bool) (s : string) : bool := match s with EmptyString => true | String a s => f a && all_chars f s end.
(** A configuration error, by its cause. *)
Inductive KeyError := EmptyKeyId | UnfitKeyId | ShortKey | SameKeyId.
#[global] Instance KeyError_eq_dec : EqDecision KeyError.
Proof. solve_decision. Defined.
Definition validate_key (k : HmacKey) : option KeyError :=
  match hk_id k with
  | EmptyString => Some EmptyKeyId
  | id => if negb (all_chars is_paramchar id) then Some UnfitKeyId
          else if (length (hk_bytes k) <? MIN_KEY_BYTES)%nat then Some ShortKey else None
  end.
Record StaticHmacKeyProvider := mkProvider { hp_current : HmacKey; hp_previous : option HmacKey }.
Definition new_provider (current : HmacKey) (previous : option HmacKey) : KeyError + StaticHmacKeyProvider :=
  match validate_key current with
  | Some e => inl e
  | None =>
      match previous with
      | None => inr (mkProvider current None)
      | Some p =>
          match validate_key p with
          | Some e => inl e
          | None => if String.eqb (hk_id p) (hk_id current) then inl SameKeyId else inr (mkProvider current (Some p))
          end
      end
  end.
Definition lookup_key (kid : string) (h : StaticHmacKeyProvider) : option HmacKey :=
  if String.eqb kid (hk_id (hp_current h)) then Some (hp_current h)
  else p ← hp_previous h; if String.eqb (hk_id p) kid then Some p else None.

(** ** Results ([strategy.rs]) *)

Inductive DecodeResult :=
  | Forward (target : ProxyAddr) (is_emergency : bool)
  | ForwardBackup (target : ProxyAddr) (is_emergency : bool)
  | Reject (status : Z) (reason : string)
  | DecodeUnknown (is_emergency : bool)
  | Unroutable.
#[global] Instance DecodeResult_eq_dec : EqDecision DecodeResult.
Proof. solve_decision. Defined.
Inductive SelectError := NoTarget (reason : string) | RateCapExhausted (worker_id : string) (retry_after_sec : Z).
Record SelectOpts := mkOpts { emergency_override : bool; admit_as_new : bool }.
Inductive RankPlacement := Node (a : ProxyAddr) | NoNode | Unranked.
Record StatedOwners := mkStated { so_primary : string; so_backup : string }.

(** ** What is read of a message *)

Definition EMERGENCY_RPH_TOKENS : list string := ["esnet.0"; "wps.0"; "q735.0"].
(** [is_emergency_request] of [sip-message/src/emergency.rs]. *)
Definition is_emergency_request (r : SipRequest) : bool :=
  existsb (fun h => String.eqb (lower h.1) "resource-priority" &&
             existsb (fun rv => existsb (fun tok => String.eqb (lower (trim rv)) tok) EMERGENCY_RPH_TOKENS) (split_at_char ","%char h.2))
    (rq_headers r).
Definition is_emergency_invite (m : SipMessage) : bool := match m with Request r => is_emergency_request r | Response _ => false end.
Definition is_in_dialog (m : SipMessage) : bool :=
  match m with Request r => match rq_to_tag r with Some EmptyString | None => false | Some _ => true end | Response _ => false end.
Definition call_id_of (m : SipMessage) : option string :=
  filled (Some (match m with Request r => rq_call_id r | Response r => rs_call_id r end)).

(** ** The cookie *)

Definition COOKIE_VERSION : string := "3".
Definition build_stickiness_input (primary_id backup_id emergency call_id : string) : string :=
  ("v=" +:+ COOKIE_VERSION +:+ "|w_pri=" +:+ primary_id +:+ "|w_bak=" +:+ backup_id +:+ "|e=" +:+ emergency +:+ "|c=" +:+ call_id)%string.
Definition FIELDS : list string := ["w_pri"; "w_bak"; "e"; "v"; "kid"; "sig"].
Definition DIALLING : string := "dl".
Record Checked := mkChecked { ck_w_pri : string; ck_w_bak : string; ck_is_emergency : bool }.
Inductive Fault := Missing | Unreadable (reason : string) | Mismatch.
(** A text in double quotes. *)
Definition quoted (s : string) : string := (String (ascii_of_nat 34) s +:+ String (ascii_of_nat 34) "")%string.
(** [Fault::decode_result]. *)
Definition fault_result (f : Fault) : DecodeResult :=
  match f with
  | Missing => DecodeUnknown false
  | Unreadable reason => Reject 403 reason
  | Mismatch => Reject 403 "stickiness signature mismatch"
  end.

Section balancer.
Context `{E : CookieEnv} `{O : LoadObserver}.

(** [HmacKeyProvider]. *)
Definition hmac_sign (input : string) (h : StaticHmacKeyProvider) : string * list Z :=
  (hk_id (hp_current h), hmac_sha256 (hk_bytes (hp_current h)) (bytes_of input)).
Definition verify_truncated (input kid : string) (mac_prefix : list Z) (h : StaticHmacKeyProvider) : bool :=
  match lookup_key kid h with
  | None => false
  | Some k =>
      if negb (length mac_prefix =? TRUNCATED_MAC_BYTES)%nat then false
      else bool_decide (take TRUNCATED_MAC_BYTES (hmac_sha256 (hk_bytes k) (bytes_of input)) = mac_prefix)
  end.

(** [LoadBalancerStrategy::sign]. *)
Definition sign_cookie (primary backup : string) (m : SipMessage) (call_id : string) (h : StaticHmacKeyProvider) : RouteParams :=
  let flag := if is_emergency_invite m then "1"%string else "0"%string in
  let '(kid, mac) := hmac_sign (build_stickiness_input primary backup flag call_id) h in
  let sig := b64_encode (take TRUNCATED_MAC_BYTES mac) in
  rp_insert "sig" sig (rp_insert "kid" kid (rp_insert "v" COOKIE_VERSION (rp_insert "e" flag (rp_insert "w_bak" backup (rp_insert "w_pri" primary []))))).

(** [check]. *)
Definition check (params : RouteParams) (m : SipMessage) (h : StaticHmacKeyProvider) : Fault + Checked :=
  match rp_get "w_pri" params, rp_get "w_bak" params, rp_get "e" params, rp_get "v" params, rp_get "kid" params, rp_get "sig" params with
  | Some w_pri, Some w_bak, Some e, Some v, Some kid, Some sig =>
      if negb (String.eqb e "0") && negb (String.eqb e "1") || String.eqb w_pri "" || String.eqb kid "" || String.eqb sig "" then inl Missing
      else if negb (String.eqb v COOKIE_VERSION) then inl (Unreadable ("unsupported stickiness cookie version " +:+ quoted v)%string)
      else match call_id_of m with
           | None => inl (Unreadable "missing Call-ID for stickiness verify")
           | Some call_id =>
               match b64_decode sig with
               | None => inl (Unreadable "malformed stickiness signature")
               | Some decoded =>
                   if negb (length decoded =? TRUNCATED_MAC_BYTES)%nat
                   then inl (Unreadable ("malformed stickiness signature (length=" +:+ pretty (length decoded) +:+ ")")%string)
                   else if negb (verify_truncated (build_stickiness_input w_pri w_bak e call_id) kid decoded h) then inl Mismatch
                   else inr (mkChecked w_pri w_bak (String.eqb e "1"))
               end
           end
  | _, _, _, _, _, _ => inl Missing
  end.
Definition dialling_input (sig : string) : string := ("dialling|sig=" +:+ sig)%string.
Definition mark_dialling (cookie : RouteParams) (h : StaticHmacKeyProvider) : option (string * string) :=
  kid ← rp_get "kid" cookie; sig ← rp_get "sig" cookie;
  let '(signer, mac) := hmac_sign (dialling_input sig) h in
  if String.eqb signer kid then Some (DIALLING, b64_encode (take TRUNCATED_MAC_BYTES mac)) else None.
Definition dialling_marked (params : RouteParams) (h : StaticHmacKeyProvider) : bool :=
  match rp_get "kid" params, rp_get "sig" params, rp_get DIALLING params with
  | Some kid, Some sig, Some mark =>
      match b64_decode mark with
      | None => false
      | Some decoded => (length decoded =? TRUNCATED_MAC_BYTES)%nat && verify_truncated (dialling_input sig) kid decoded h
      end
  | _, _, _ => false
  end.
Definition own_fields (params : RouteParams) (m : SipMessage) (h : StaticHmacKeyProvider) : option RouteParams :=
  match check params m h with
  | inl _ => None
  | inr _ => Some (foldl (fun acc f => match rp_get f params with Some v => rp_insert f v acc | None => acc end) [] FIELDS)
  end.

(** ** Routing *)

Definition key_of (w : WorkerEntry) : Candidate := mkCandidate (we_id w) None.
Definition placeable (ws : list WorkerEntry) : list WorkerEntry :=
  match filter (fun w => accepts_new_calls w = true) ws with
  | [] => filter (fun w => is_alive w = true) ws
  | accepting => accepting
  end.
(** [rendezvous_select] and [rendezvous_rank] over the ids. *)
Definition select_id (call_id : string) (ids : list string) : option string :=
  cd_id <$> rendezvous_select sha1 call_id (map (fun id => mkCandidate id None) ids).
Definition rank_workers (call_id : string) (candidates : list WorkerEntry) : list WorkerEntry :=
  omap (fun k => List.find (fun w => String.eqb (we_id w) (cd_id k)) candidates) (rendezvous_rank sha1 call_id (map key_of candidates)).

(** The loop of [take_token]. *)
Fixpoint token_loop (ranked : list WorkerEntry) (now_ms retry_after_sec : Z) (o : observer) : (Z + WorkerEntry) * observer :=
  match ranked with
  | [] => (inl retry_after_sec, o)
  | w :: ranked =>
      match try_consume_for (we_id w) now_ms o with
      | (None, o) => (inr w, record_own_admitted (we_id w) o)
      | (Some sec, o) => token_loop ranked now_ms (Z.min retry_after_sec sec) o
      end
  end.
Definition take_token (ranked : list WorkerEntry) (now_ms : Z) (o : observer) : (SelectError + WorkerEntry) * observer :=
  match token_loop ranked now_ms u32_MAX o with
  | (inr w, o) => (inr w, o)
  | (inl sec, o) => (inl (RateCapExhausted (match ranked with w :: _ => we_id w | [] => "" end) sec), o)
  end.

Definition candidates_for (bypass : bool) (snapshot : list WorkerEntry) (o : observer) : list WorkerEntry :=
  if bypass then placeable snapshot
  else filter (fun w => band_for (we_id w) o <> Some AboveCritical) (placeable snapshot).
Definition no_target_reason (is_emergency : bool) (snapshot alive : list WorkerEntry) : string :=
  (match snapshot with
   | [] => "registry is empty"
   | _ => if is_emergency then "no alive workers among " +:+ pretty (length snapshot) +:+ " entries"
          else "all alive workers in above_critical band (snapshot=" +:+ pretty (length snapshot) +:+ ", alive=" +:+ pretty (length alive) +:+ ")"
   end)%string.
Definition select_for_new_dialog (m : SipMessage) (opts : SelectOpts) (s : WorkerSet) (now_ms : Z) (o : observer)
    : (SelectError + ProxyAddr) * observer :=
  let call_id := default ""%string (call_id_of m) in
  let is_emergency := emergency_override opts || is_emergency_invite m in
  let in_dialog := is_in_dialog m && negb (admit_as_new opts) in
  let snapshot := snapshot_of s in
  let ranked := rank_workers call_id (candidates_for (is_emergency || in_dialog) snapshot o) in
  match ranked with
  | [] => (inl (NoTarget (no_target_reason is_emergency snapshot (placeable snapshot))), o)
  | winner :: _ =>
      if is_emergency || in_dialog then (inr (we_address winner), record_own_admitted (we_id winner) o)
      else match take_token ranked now_ms o with
           | (inr w, o) => (inr (we_address w), o)
           | (inl e, o) => (inl e, o)
           end
  end.
Definition placement_by_rank (m : SipMessage) (s : WorkerSet) : RankPlacement :=
  let alive := filter (fun w => is_alive w = true) (snapshot_of s) in
  match id ← select_id (default ""%string (call_id_of m)) (map we_id alive); List.find (fun w => String.eqb (we_id w) id) (snapshot_of s) with
  | Some w => Node (we_address w)
  | None => NoNode
  end.
Definition alive_address (id : string) (s : WorkerSet) : option ProxyAddr :=
  match id with
  | EmptyString => None
  | _ => w ← resolve id s; if is_alive w then Some (we_address w) else None
  end.
Definition decode_stickiness (params : RouteParams) (m : SipMessage) (h : StaticHmacKeyProvider) (s : WorkerSet) : DecodeResult :=
  match check params m h with
  | inl fault => fault_result fault
  | inr c =>
      match alive_address (ck_w_pri c) s with
      | Some target => Forward target (ck_is_emergency c)
      | None =>
          match alive_address (ck_w_bak c) s with
          | Some target => ForwardBackup target (ck_is_emergency c)
          | None => Unroutable
          end
      end
  end.
Definition backup_for (call_id primary : string) (members : list Peer) (now_ms : Z) (s : WorkerSet) : string :=
  let others := filter (fun w => we_id w <> primary) (snapshot_of s) in
  match select_id call_id (map we_id (placeable others)) with
  | Some winner => winner
  | None => default ""%string (select_id call_id (filter (fun id => id <> primary) (map we_id others ++ away_ordinals members now_ms s)))
  end.
Definition encode_stickiness (target : ProxyAddr) (m : SipMessage) (h : StaticHmacKeyProvider) (members : list Peer) (now_ms : Z) (s : WorkerSet)
    : option RouteParams :=
  call_id ← call_id_of m;
  primary ← lookup_by_address target now_ms s;
  Some (sign_cookie (we_id primary) (backup_for call_id (we_id primary) members now_ms s) m call_id h).
Definition encode_originated (origin : ProxyAddr) (m : SipMessage) (stated : StatedOwners) (h : StaticHmacKeyProvider) (now_ms : Z) (s : WorkerSet)
    : option RouteParams :=
  call_id ← call_id_of m;
  sender ← lookup_by_address origin now_ms s;
  let primary := match so_primary stated with EmptyString => we_id sender | p => p end in
  let backup := if String.eqb (so_backup stated) primary then ""%string else so_backup stated in
  Some (sign_cookie primary backup m call_id h).
End balancer.
Definition stickiness_primary (params : RouteParams) : option string := filled (rp_get "w_pri" params).
Definition stickiness_backup (params : RouteParams) : option string := filled (rp_get "w_bak" params).

(** ** [ForwardAllStrategy] *)

Definition TARGET_PARAM : string := "target".
Definition forward_all_select (target : ProxyAddr) : SelectError + ProxyAddr := inr target.
Definition forward_all_encode (target : ProxyAddr) : option RouteParams := Some [(TARGET_PARAM, show_addr target)].
Definition forward_all_decode (params : RouteParams) : DecodeResult :=
  match rp_get TARGET_PARAM params ≫= parse_addr with
  | Some target => Forward target false
  | None => DecodeUnknown false
  end.
