(* ===== verification/LoadBalancerProps.v ===== *)
(** * Front proxy: what the load balancer guarantees

    A cookie routes its call for life: to the primary it names while alive, else
    to the backup, else nowhere.  Only a cookie this pool's keys signed over
    those very fields and that very call verifies.  Every target is a worker
    read alive; and a new call goes to the first worker of its ranking that has
    a token. *)

From S2P Require Import Prelude Texts Retransmit TxnData Rendezvous ProxyTypes Topology WorkerRegistry WorkerRegistryProps WorkerRegistryThms LoadBalancer.
From stdpp Require Import pretty.
From Stdlib Require Import Ascii.

Open Scope Z_scope.

(** ** Reading a cookie *)

Ltac rp_simpl := repeat first [rewrite rp_get_insert_eq | rewrite rp_get_insert_ne by done].

Section cookie.
Context `{E : CookieEnv} {L : CookieLaws E}.

Lemma sign_cookie_fields p b m c h :
  let flag := (if is_emergency_invite m then "1" else "0")%string in
  let k := sign_cookie p b m c h in
  rp_get "w_pri" k = Some p /\ rp_get "w_bak" k = Some b /\ rp_get "e" k = Some flag /\ rp_get "v" k = Some COOKIE_VERSION /\
  rp_get "kid" k = Some (hk_id (hp_current h)) /\
  rp_get "sig" k = Some (b64_encode (take TRUNCATED_MAC_BYTES (hmac_sha256 (hk_bytes (hp_current h)) (bytes_of (build_stickiness_input p b flag c))))).
Proof. unfold sign_cookie, hmac_sign. split_and!; rp_simpl; done. Qed.

Lemma mac_take_length k i : length (take TRUNCATED_MAC_BYTES (hmac_sha256 k i)) = TRUNCATED_MAC_BYTES.
Proof. rewrite length_take, hmac_length. done. Qed.
Lemma sig_nonempty k i : b64_encode (take TRUNCATED_MAC_BYTES (hmac_sha256 k i)) <> ""%string.
Proof. pose proof (mac_take_length k i) as H. destruct (take _ _) as [|b l]; [done|apply b64_nonempty]. Qed.
Lemma verify_own input key h :
  lookup_key (hk_id key) h = Some key -> verify_truncated input (hk_id key) (take TRUNCATED_MAC_BYTES (hmac_sha256 (hk_bytes key) (bytes_of input))) h = true.
Proof. intros Hk. unfold verify_truncated. rewrite Hk, mac_take_length. simpl. by apply bool_decide_eq_true. Qed.

Lemma check_signed p b m c h m' h' :
  p <> ""%string -> hk_id (hp_current h) <> ""%string -> lookup_key (hk_id (hp_current h)) h' = Some (hp_current h) -> call_id_of m' = Some c ->
  check (sign_cookie p b m c h) m' h' = inr (mkChecked p b (is_emergency_invite m)).
Proof.
  intros Hp Hk Hl Hc. destruct (sign_cookie_fields p b m c h) as (F1 & F2 & F3 & F4 & F5 & F6).
  unfold check. rewrite F1, F2, F3, F4, F5, F6. apply String.eqb_neq in Hp, Hk. rewrite Hp, Hk.
  pose proof (sig_nonempty (hk_bytes (hp_current h)) (bytes_of (build_stickiness_input p b (if is_emergency_invite m then "1" else "0") c))) as Hs.
  apply String.eqb_neq in Hs. rewrite Hs, Hc, b64_roundtrip, mac_take_length, verify_own by (done || apply Forall_take, hmac_bytes). simpl.
  by destruct (is_emergency_invite m).
Qed.

(** A cookie verifies exactly when its fields are there and its signature is
    the truncated MAC, under a key held, of their text for this call. *)
Definition verifies (params : RouteParams) (m : SipMessage) (h : StaticHmacKeyProvider) (c : Checked) : Prop :=
  exists e kid sig call_id key,
    rp_get "w_pri" params = Some (ck_w_pri c) /\ rp_get "w_bak" params = Some (ck_w_bak c) /\ rp_get "e" params = Some e /\
    rp_get "v" params = Some COOKIE_VERSION /\ rp_get "kid" params = Some kid /\ rp_get "sig" params = Some sig /\
    (e = "0" \/ e = "1")%string /\ ck_is_emergency c = String.eqb e "1" /\ ck_w_pri c <> ""%string /\ kid <> ""%string /\ sig <> ""%string /\
    call_id_of m = Some call_id /\ lookup_key kid h = Some key /\
    b64_decode sig = Some (take TRUNCATED_MAC_BYTES (hmac_sha256 (hk_bytes key) (bytes_of (build_stickiness_input (ck_w_pri c) (ck_w_bak c) e call_id)))).
Lemma check_iff params m h c : check params m h = inr c <-> verifies params m h c.
Proof.
  unfold check, verifies. split.
  - destruct (rp_get "w_pri" params) as [p|], (rp_get "w_bak" params) as [b|], (rp_get "e" params) as [e|], (rp_get "v" params) as [v|],
      (rp_get "kid" params) as [kid|], (rp_get "sig" params) as [sig|]; try done.
    destruct (negb _ && negb _ || _ || _ || _) eqn:Hm; [done|]. rewrite !orb_false_iff, andb_false_iff, !negb_false_iff, !String.eqb_eq in Hm.
    destruct Hm as [[[He Hp] Hk] Hs]. destruct (String.eqb_spec v COOKIE_VERSION) as [->|]; [|done]. simpl.
    destruct (call_id_of m) as [call_id|]; [|done]. destruct (b64_decode sig) as [mac|] eqn:Hd; [|done].
    destruct (length mac =? TRUNCATED_MAC_BYTES)%nat eqn:Hl; [|done]. simpl. unfold verify_truncated. destruct (lookup_key kid h) as [key|] eqn:Hkey; [|done].
    rewrite Hl. simpl. case_bool_decide as Hmac; [|done]. simpl. intros [= <-]. apply String.eqb_neq in Hp, Hk, Hs.
    exists e, kid, sig, call_id, key. simpl. rewrite Hd, <- Hmac. split_and!; done.
  - intros (e & kid & sig & call_id & key & -> & -> & -> & -> & -> & -> & He & Hf & Hp & Hk & Hs & -> & Hkey & Hd).
    apply String.eqb_neq in Hp, Hk, Hs. rewrite Hp, Hk, Hs, Hd, mac_take_length.
    assert (negb (String.eqb e "0") && negb (String.eqb e "1") = false) as -> by (by destruct He as [-> | ->]). simpl.
    unfold verify_truncated. rewrite Hkey, mac_take_length. simpl. rewrite bool_decide_eq_true_2 by done. simpl. f_equal. destruct c. simpl in *. by rewrite Hf.
Qed.
End cookie.

(** ** The signed text *)

Lemma app_inj_pre a x y : (a +:+ x = a +:+ y)%string -> x = y.
Proof. induction a as [|c a IH]; [done|]. intros H. injection H as H. by apply IH. Qed.
(** Fields without a bar are read back from the text. *)
Lemma stickiness_input_inj p b e c p' b' e' c' :
  has_char "|"%char p = false -> has_char "|"%char b = false -> has_char "|"%char e = false ->
  has_char "|"%char p' = false -> has_char "|"%char b' = false -> has_char "|"%char e' = false ->
  build_stickiness_input p b e c = build_stickiness_input p' b' e' c' -> p = p' /\ b = b' /\ e = e' /\ c = c'.
Proof.
  intros P B F P' B' F' H. unfold build_stickiness_input in H.
  apply (app_inj_pre "v=") in H. apply (app_inj_pre COOKIE_VERSION) in H. apply (app_inj_pre "|w_pri=") in H.
  apply (split_first "|") in H as [-> H]; [|done..]. apply (app_inj_pre "w_bak=") in H.
  apply (split_first "|") in H as [-> H]; [|done..]. apply (app_inj_pre "e=") in H.
  apply (split_first "|") in H as [-> H]; [|done..]. by apply (app_inj_pre "c=") in H as ->.
Qed.

(** ** Keys *)

Lemma new_provider_ok current previous h :
  new_provider current previous = inr h ->
  hp_current h = current /\ hp_previous h = previous /\ hk_id current <> ""%string /\
  lookup_key (hk_id current) h = Some current /\ (forall p, previous = Some p -> lookup_key (hk_id p) h = Some p).
Proof.
  unfold new_provider. assert (forall k, validate_key k = None -> hk_id k <> ""%string) as Hv.
  { intros k. unfold validate_key. by destruct (hk_id k). }
  destruct (validate_key current) eqn:Hc; [done|]. apply Hv in Hc.
  assert (forall pr, lookup_key (hk_id current) (mkProvider current pr) = Some current) as Hl by (intros pr; unfold lookup_key; simpl; by rewrite String.eqb_refl).
  destruct previous as [p|]; [|intros [= <-]; simpl; split_and!; done].
  destruct (validate_key p); [done|]. destruct (String.eqb_spec (hk_id p) (hk_id current)) as [|Hne]; [done|]. intros [= <-]. simpl. split_and!; try done.
  intros q [= <-]. unfold lookup_key. simpl. apply String.eqb_neq in Hne. by rewrite Hne, String.eqb_refl.
Qed.

(** ** Targets *)

Section targets.
Context `{E : CookieEnv} `{O : LoadObserver}.

Definition routes_to (s : WorkerSet) (a : ProxyAddr) : Prop := exists w, w ∈ snapshot_of s /\ we_address w = a /\ is_alive w = true.

Lemma alive_address_alive id s a : alive_address id s = Some a -> routes_to s a.
Proof.
  unfold alive_address. destruct id as [|c id]; [done|]. destruct (resolve _ s) as [w|] eqn:Hr; [|done]. simpl.
  destruct (is_alive w) eqn:Ha; [|done]. intros [= <-]. exists w. split; [|done]. by apply find_in in Hr as [? _].
Qed.
Lemma placeable_alive ws w : w ∈ placeable ws -> w ∈ ws /\ is_alive w = true.
Proof.
  unfold placeable. destruct (filter _ ws) as [|x l] eqn:Hf.
  - intros Hw. apply list_elem_of_filter in Hw. tauto.
  - rewrite <- Hf. intros Hw. apply list_elem_of_filter in Hw as [Ha Hw]. split; [done|]. unfold accepts_new_calls in Ha. by apply andb_true_iff in Ha as [? _].
Qed.
Lemma rank_workers_in call_id cs w : w ∈ rank_workers call_id cs -> w ∈ cs.
Proof. unfold rank_workers. rewrite list_elem_of_omap. intros (k & _ & Hf). by apply find_in in Hf as [? _]. Qed.
Lemma candidates_placeable b snap o w : w ∈ candidates_for b snap o -> w ∈ placeable snap.
Proof. unfold candidates_for. destruct b; [done|]. intros H. apply list_elem_of_filter in H. tauto. Qed.
(** The ids of a ranking are the ranking of the ids. *)
Lemma rank_workers_nil call_id cs : rank_workers call_id cs = [] -> cs = [].
Proof.
  intros H. destruct cs as [|w cs]; [done|]. exfalso. unfold rank_workers in H.
  assert (key_of w ∈ rendezvous_rank sha1 call_id (map key_of (w :: cs))) as Hk by (rewrite rank_perm; simpl; by left).
  assert (exists x, List.find (fun v => String.eqb (we_id v) (cd_id (key_of w))) (w :: cs) = Some x) as [x Hx].
  { simpl. rewrite String.eqb_refl. by eexists. }
  assert (x ∈ rank_workers call_id (w :: cs)) as Hin by (apply list_elem_of_omap; by exists (key_of w)).
  unfold rank_workers in Hin. rewrite H in Hin. by apply elem_of_nil in Hin.
Qed.
Lemma rank_workers_perm call_id cs : NoDup (map we_id cs) -> rank_workers call_id cs ≡ₚ cs.
Proof.
  intros Hd. unfold rank_workers. rewrite (rank_perm sha1 call_id (map key_of cs)).
  assert (forall l, l ⊆ cs -> omap (fun k => List.find (fun w => String.eqb (we_id w) (cd_id k)) cs) (map key_of l) = l) as H; [|by rewrite H].
  induction l as [|w l IH]; intros Hl; [done|]. simpl.
  assert (List.find (fun v => String.eqb (we_id v) (we_id w)) cs = Some w) as ->.
  { clear -Hd Hl. assert (w ∈ cs) as Hw by (apply Hl; by left). clear Hl l. induction cs as [|v cs IH]; [by apply elem_of_nil in Hw|]. cbn [map] in Hd.
    apply NoDup_cons in Hd as [Hv Hd]. simpl. apply elem_of_cons in Hw as [->|Hw]; [by rewrite String.eqb_refl|].
    destruct (String.eqb_spec (we_id v) (we_id w)) as [He|]; [|by apply IH]. exfalso. apply Hv. rewrite He. apply list_elem_of_fmap. by exists w. }
  simpl. f_equal. apply IH. intros v Hv. apply Hl. by right.
Qed.

Lemma rank_workers_keys call_id cs : NoDup (map we_id cs) -> map key_of (rank_workers call_id cs) = rendezvous_rank sha1 call_id (map key_of cs).
Proof.
  intros Hd. unfold rank_workers. pose proof (rank_perm sha1 call_id (map key_of cs)) as Hp.
  assert (forall ks : list Candidate, (forall k, k ∈ ks -> k ∈ map key_of cs) ->
    map key_of (omap (fun k => List.find (fun w => String.eqb (we_id w) (cd_id k)) cs) ks) = ks) as H; [|apply H; intros k Hk; by rewrite <- Hp].
  induction ks as [|k ks IH]; intros Hk; [done|]. simpl. assert (k ∈ map key_of cs) as Hin by (apply Hk; by left). apply list_elem_of_fmap in Hin as (w & -> & Hw).
  destruct (List.find _ cs) as [v|] eqn:Hf.
  - simpl. apply find_in in Hf as [_ He]. apply String.eqb_eq in He. simpl in He. unfold key_of at 1. rewrite He. fold (key_of w). f_equal. apply IH. intros k' Hk'. apply Hk. by right.
  - exfalso. apply list_elem_of_In in Hw. pose proof (List.find_none _ _ Hf w Hw) as Hn. simpl in Hn. by rewrite String.eqb_refl in Hn.
Qed.

(** ** Spending a token *)

(** The loop: each worker in turn refused, with the state its refusal left, and
    then the first that yields. *)
Inductive takes (now : Z) : list WorkerEntry -> observer -> Z -> (Z + WorkerEntry) -> observer -> Prop :=
  | takes_none o sec : takes now [] o sec (inl sec) o
  | takes_first w ws o o' sec : try_consume_for (we_id w) now o = (None, o') -> takes now (w :: ws) o sec (inr w) (record_own_admitted (we_id w) o')
  | takes_next w ws o s1 o1 sec r o' : try_consume_for (we_id w) now o = (Some s1, o1) -> takes now ws o1 (Z.min sec s1) r o' -> takes now (w :: ws) o sec r o'.
Lemma token_loop_takes now ws o sec : takes now ws o sec (token_loop ws now sec o).1 (token_loop ws now sec o).2.
Proof.
  revert o sec. induction ws as [|w ws IH]; intros o sec; simpl; [constructor|].
  destruct (try_consume_for (we_id w) now o) as [[s1|] o1] eqn:Ht; [by eapply takes_next|by apply takes_first].
Qed.
Lemma token_loop_in now ws o sec w o' : token_loop ws now sec o = (inr w, o') -> w ∈ ws.
Proof.
  revert o sec. induction ws as [|v ws IH]; intros o sec; simpl; [done|].
  destruct (try_consume_for (we_id v) now o) as [[s1|] o1]; [intros H; right; by eapply IH|]. intros [= <- _]. by left.
Qed.
Lemma select_alive m opts s now o a o' : select_for_new_dialog m opts s now o = (inr a, o') -> routes_to s a.
Proof.
  unfold select_for_new_dialog. destruct (rank_workers _ _) as [|winner l] eqn:Hr; [done|].
  assert (forall w, w ∈ winner :: l -> routes_to s (we_address w)) as Hin.
  { intros w Hw. rewrite <- Hr in Hw. apply rank_workers_in, candidates_placeable, placeable_alive in Hw as [H1 H2]. by exists w. }
  destruct (_ || _); [intros [= <- _]; apply Hin; by left|]. unfold take_token.
  destruct (token_loop _ _ _ _) as [[sec|w] o1] eqn:Ht; [done|]. intros [= <- _]. apply Hin. by eapply token_loop_in.
Qed.
Lemma select_id_in call_id ids id : select_id call_id ids = Some id -> id ∈ ids.
Proof.
  unfold select_id. rewrite select_head. destruct (rendezvous_rank _ _ _) as [|k l] eqn:Hr; [done|]. simpl. intros [= <-].
  assert (k ∈ rendezvous_rank sha1 call_id (map (fun id => mkCandidate id None) ids)) as Hk by (rewrite Hr; by left).
  rewrite rank_perm in Hk. apply list_elem_of_fmap in Hk as (i & -> & Hi). done.
Qed.
Lemma select_id_None call_id ids : select_id call_id ids = None <-> ids = [].
Proof.
  unfold select_id. rewrite select_head. destruct ids as [|i ids]; [done|]. split; [|done]. intros H. exfalso.
  destruct (rendezvous_rank sha1 call_id (map (fun id => mkCandidate id None) (i :: ids))) as [|k l] eqn:Hr; [|done].
  pose proof (rank_perm sha1 call_id (map (fun id => mkCandidate id None) (i :: ids))) as Hp. rewrite Hr in Hp. by apply Permutation_nil_cons in Hp.
Qed.
Lemma placement_alive m s a : NoDup (map we_id (snapshot_of s)) -> placement_by_rank m s = Node a -> routes_to s a.
Proof.
  intros Hd. unfold placement_by_rank. destruct (select_id _ _) as [id|] eqn:Hs; [|done]. simpl.
  destruct (List.find _ _) as [w|] eqn:Hf; [|done]. intros [= <-]. apply select_id_in in Hs. apply list_elem_of_fmap in Hs as (v & -> & Hv).
  apply list_elem_of_filter in Hv as [Ha Hv]. apply find_in in Hf as [Hw He]. apply String.eqb_eq in He. exists w. split; [done|]. split; [done|].
  by rewrite (nodup_same_id _ w v Hd Hw Hv) by done.
Qed.

(** ** The backup *)

Lemma insert_str_perm x l : insert_str x l ≡ₚ x :: l.
Proof. induction l as [|y l IH]; simpl; [done|]. destruct (String.leb x y); [done|]. rewrite IH. apply Permutation_swap. Qed.
Lemma sort_str_perm l : foldr insert_str [] l ≡ₚ l.
Proof. induction l as [|x l IH]; simpl; [done|]. by rewrite insert_str_perm, IH. Qed.
Lemma dedup_str_elem x l : x ∈ dedup_str l <-> x ∈ l.
Proof.
  induction l as [|y l IH]; [done|]. destruct l as [|z l]; [done|]. cbn [dedup_str]. destruct (String.eqb_spec y z) as [->|Hne].
  - rewrite IH, !elem_of_cons. tauto.
  - rewrite !(elem_of_cons _ x y), IH. done.
Qed.
(** An ordinal the pool knows and does not route. *)
Definition known_away (members : list Peer) (now : Z) (s : WorkerSet) (id : string) : Prop :=
  id ∉ map we_id (snapshot_of s) /\
  ((exists p, p ∈ members /\ pr_ordinal p = id /\ pr_ready p = false) \/
   (exists a t, ws_tombs s !! a = Some t /\ tb_id t = id /\ now < tb_expires_at_ms t)).
Lemma away_elem members now s id : id ∈ away_ordinals members now s <-> known_away members now s id.
Proof.
  unfold away_ordinals, known_away, snapshot_of. rewrite dedup_str_elem, (sort_str_perm (filter _ _)), list_elem_of_filter, elem_of_app.
  apply and_iff_compat_l. split; intros [H|H]; [left|right|left|right].
  - apply list_elem_of_fmap in H as (p & -> & Hp). apply list_elem_of_filter in Hp as [Hr Hp]. by exists p.
  - unfold open_ids in H. apply list_elem_of_fmap in H as ([a t] & -> & Hp). apply list_elem_of_filter in Hp as [Ho Hp]. apply elem_of_map_to_list in Hp.
    exists a, t. split; [done|]. split; [done|]. unfold open_at in Ho. simpl in Ho. by apply Z.ltb_lt in Ho.
  - destruct H as (p & Hp & <- & Hr). apply list_elem_of_fmap. exists p. split; [done|]. by apply list_elem_of_filter.
  - destruct H as (a & t & Ht & <- & Ho). unfold open_ids. apply list_elem_of_fmap. exists (a, t). split; [done|]. apply list_elem_of_filter.
    split; [simpl; unfold open_at; by apply Z.ltb_lt|by apply elem_of_map_to_list].
Qed.
Lemma placeable_nil ws : placeable ws = [] <-> forall w, w ∈ ws -> is_alive w = false.
Proof.
  split.
  - unfold placeable. destruct (filter (fun w => accepts_new_calls w = true) ws) as [|x l]; [|done]. intros H w Hw. destruct (is_alive w) eqn:Ha; [|done].
    assert (w ∈ filter (fun w => is_alive w = true) ws) as Hin by (by apply list_elem_of_filter). rewrite H in Hin. by apply elem_of_nil in Hin.
  - intros H. destruct (placeable ws) as [|w l] eqn:Hp; [done|]. destruct (placeable_alive ws w) as [H1 H2]; [rewrite Hp; by left|]. by rewrite H in H2.
Qed.
Lemma placeable_accepting ws w : w ∈ ws -> accepts_new_calls w = true -> forall v, v ∈ placeable ws -> accepts_new_calls v = true.
Proof.
  intros Hw Ha v. unfold placeable. destruct (filter (fun w => accepts_new_calls w = true) ws) as [|x l] eqn:Hf.
  - assert (w ∈ filter (fun w => accepts_new_calls w = true) ws) as Hin by (by apply list_elem_of_filter). rewrite Hf in Hin. by apply elem_of_nil in Hin.
  - rewrite <- Hf. intros Hv. by apply list_elem_of_filter in Hv as [? _].
Qed.
Lemma backup_spec call_id primary members now s :
  let b := backup_for call_id primary members now s in
  let other := fun w => w ∈ snapshot_of s /\ we_id w <> primary in
  (b = ""%string \/ b <> primary) /\
  (forall w, other w -> is_alive w = true -> exists v, other v /\ we_id v = b /\ is_alive v = true /\ (accepts_new_calls w = true -> accepts_new_calls v = true)) /\
  ((forall w, other w -> is_alive w = false) ->
     (b = ""%string \/ (exists w, other w /\ we_id w = b) \/ known_away members now s b) /\
     (b = ""%string -> (forall w, w ∈ snapshot_of s -> we_id w <> ""%string) -> (forall id, known_away members now s id -> id <> ""%string) ->
        forall id, id <> primary -> id ∉ map we_id (snapshot_of s) /\ ~ known_away members now s id)).
Proof.
  intros b other. unfold b, backup_for. set (others := filter (fun w => we_id w <> primary) (snapshot_of s)).
  assert (forall w, w ∈ others <-> other w) as Ho by (intros w; unfold others, other; rewrite list_elem_of_filter; tauto).
  destruct (select_id call_id (map we_id (placeable others))) as [win|] eqn:Hs.
  - apply select_id_in in Hs. apply list_elem_of_fmap in Hs as (v & -> & Hv). pose proof (placeable_alive _ _ Hv) as [Hvo Hva]. apply Ho in Hvo as Hvo'.
    split; [right; apply Hvo'|]. split.
    + intros w Hw Ha. exists v. split_and!; try done. intros Hacc. apply Ho in Hw. by apply (placeable_accepting others w).
    + intros Hno. specialize (Hno v Hvo'). congruence.
  - apply select_id_None in Hs. apply map_eq_nil in Hs. rewrite placeable_nil in Hs.
    set (away := filter (fun id => id <> primary) (map we_id others ++ away_ordinals members now s)).
    assert (forall id, id ∈ away <-> id <> primary /\ ((exists w, other w /\ we_id w = id) \/ known_away members now s id)) as Haw.
    { intros id. unfold away. rewrite list_elem_of_filter, elem_of_app, away_elem, list_elem_of_fmap. apply and_iff_compat_l. split; (intros [(w & H1 & H2)|?]; [left|by right]).
      - exists w. split; [by apply Ho|done].
      - exists w. split; [done|by apply Ho]. }
    split; [|split].
    + destruct (select_id call_id away) as [id|] eqn:Hi; simpl; [|by left]. apply select_id_in, Haw in Hi as [? _]. by right.
    + intros w Hw Ha. apply Ho, Hs in Hw. congruence.
    + intros _. split.
      * destruct (select_id call_id away) as [id|] eqn:Hi; simpl; [|by left]. apply select_id_in, Haw in Hi as [_ ?]. by right.
      * intros Hb N1 N2 id Hne. assert (~ exists i, i ∈ away) as Hempty.
        { intros [i Hi]. destruct (select_id call_id away) as [x|] eqn:Hx; simpl in Hb.
          - subst x. apply select_id_in, Haw in Hx as [_ [(w & [Hw _] & Hid)|Hk]]; [by apply (N1 w)|by apply (N2 "")].
          - apply select_id_None in Hx. rewrite Hx in Hi. by apply elem_of_nil in Hi. }
        split; [intros Hin|intros Hk]; apply Hempty; exists id; apply Haw; split; try done; [left|by right].
        apply list_elem_of_fmap in Hin as (w & -> & Hw). by exists w.
Qed.
End targets.
