(* ===== verification/LoadBalancerThms.v ===== *)
(** * Front proxy: the load balancer's theorems *)

From S2P Require Import Prelude Texts Retransmit TxnData Rendezvous ProxyTypes Topology WorkerRegistry WorkerRegistryProps WorkerRegistryThms LoadBalancer LoadBalancerProps.
From stdpp Require Import pretty.
From Stdlib Require Import Ascii.

Open Scope Z_scope.

(** ** A balancer to run *)

(** Thirty-two bytes of the key and the input, and a byte per character. *)
Definition ex_cookie_env : CookieEnv := {|
  hmac_sha256 k i := map (fun n => (Z.of_nat n + foldr Z.add 0 k + 7 * foldr (fun b x => b + 3 * x) 0 i) mod 256) (seq 0 32);
  sha1 i := replicate 20 (foldr (fun b x => (b + 31 * x) mod 256) 0 i);
  b64_encode l := foldr (fun b s => String (ascii_of_N (Z.to_N b)) s) EmptyString l;
  b64_decode s := Some (bytes_of s);
|}.
Lemma ex_cookie_laws : CookieLaws ex_cookie_env.
Proof.
  split.
  - done.
  - intros k i. cbn [hmac_sha256 ex_cookie_env]. apply Forall_forall. intros b Hb. apply list_elem_of_fmap in Hb as (n & -> & _). unfold is_byte. by apply Z.mod_pos_bound.
  - intros l Hl. simpl. f_equal. induction Hl as [|b l Hb _ IH]; [done|]. simpl. unfold bytes_of in *. simpl. f_equal; [|done].
    unfold is_byte in Hb. rewrite N_ascii_embedding by lia. lia.
  - intros b l. done.
Qed.
Definition ex_observer : LoadObserver := {|
  observer := list string; (** the workers whose bucket is empty *)
  band_for _ _ := None;
  try_consume_for id _ o := (if bool_decide (id ∈ o) then Some 3 else None, o);
  record_own_admitted _ o := o;
|}.
Definition ex_key : HmacKey := mkKey "k1" (replicate 16 7).
Definition ex_provider : StaticHmacKeyProvider := mkProvider ex_key None.
Definition ex_rotated : StaticHmacKeyProvider := mkProvider (mkKey "k2" (replicate 16 9)) (Some ex_key).
Definition ex_invite : SipRequest :=
  mkRequest MInvite (mkVia "10.0.0.9" (Some 5060) (Some "z9hG4bK1") None None None) (Some "t") None "c1@h" 1 (mkUri "b" None false) None (Some []) None [] EmptyString.
Definition ex_bye : SipRequest :=
  mkRequest MBye (mkVia "10.0.0.9" (Some 5060) (Some "z9hG4bK2") None None None) (Some "t") (Some "u") "c1@h" 2 (mkUri "b" None false) None (Some []) None [] EmptyString.
(** Two workers alive, then the first one dead. *)
Definition ex_pool : WorkerSet :=
  reg_run ex_iter 5060 [(OpView "w0" (Some Alive) None ex_members, 5); (OpView "w1" (Some Alive) None ex_members, 6)] ex_set.
Definition ex_pool_down : WorkerSet := reg_run ex_iter 5060 [(OpView "w0" (Some Dead) None ex_members, 9)] ex_pool.

(** ** Theorems *)

(** C27: a cookie routes its call for life.  The cookie minted for a call placed
    on a worker routes every later message of that call, through any proxy that
    still holds the signing key and whatever the pool became: to that worker
    while it is alive, else to the backup chosen then while that one is, else
    nowhere; it is never refused and never placed afresh. *)
Theorem cookie_routes_call {E : CookieEnv} {L : CookieLaws E} h h' target m m' members now s0 s primary call_id cookie :
  hk_id (hp_current h) <> ""%string -> lookup_key (hk_id (hp_current h)) h' = Some (hp_current h) ->
  lookup_by_address target now s0 = Some primary -> we_id primary <> ""%string ->
  call_id_of m = Some call_id -> call_id_of m' = Some call_id ->
  encode_stickiness target m h members now s0 = Some cookie ->
  let backup := backup_for call_id (we_id primary) members now s0 in
  decode_stickiness cookie m' h' s =
    match alive_address (we_id primary) s, alive_address backup s with
    | Some a, _ => Forward a (is_emergency_invite m)
    | None, Some a => ForwardBackup a (is_emergency_invite m)
    | None, None => Unroutable
    end.
Proof.
  intros Hk Hl Hp Hid Hc Hc' He backup. unfold encode_stickiness in He. rewrite Hc, Hp in He. simpl in He. injection He as <-. fold backup.
  unfold decode_stickiness. rewrite check_signed by done. simpl. destruct (alive_address (we_id primary) s); [done|]. by destruct (alive_address backup s).
Qed.
Lemma cookie_routes_call_witness :
  exists cookie, encode_stickiness (E := ex_cookie_env) (mkAddr "10.0.0.1" 5060) (Request ex_invite) ex_provider ex_members 7 ex_pool = Some cookie /\
    decode_stickiness (E := ex_cookie_env) cookie (Request ex_bye) ex_rotated ex_pool = Forward (mkAddr "10.0.0.1" 5060) false /\
    decode_stickiness (E := ex_cookie_env) cookie (Request ex_bye) ex_rotated ex_pool_down = ForwardBackup (mkAddr "10.0.0.2" 5060) false.
Proof.
  destruct (encode_stickiness (E := ex_cookie_env) (mkAddr "10.0.0.1" 5060) (Request ex_invite) ex_provider ex_members 7 ex_pool) as [cookie|] eqn:He;
    [|vm_compute in He; discriminate]. exists cookie. split; [reflexivity|].
  split;
    (rewrite (cookie_routes_call (L := ex_cookie_laws) ex_provider ex_rotated (mkAddr "10.0.0.1" 5060) (Request ex_invite) (Request ex_bye) ex_members 7 ex_pool _
       (mkWorker "w0" (mkAddr "10.0.0.1" 5060) Alive Accept) "c1@h" cookie);
     [vm_compute; reflexivity|discriminate|reflexivity|vm_compute; reflexivity|discriminate|reflexivity|reflexivity|exact He]).
Defined.


(** Only a worker read alive is routed to.  Every address a new dialog, a
    placement by rank or a cookie is given is that of a worker the pool, as
    recomposed from its members, reads alive. *)
Theorem only_alive_routed {E : CookieEnv} {O : LoadObserver} iter port members now0 s0 m opts now o params h :
  NoDup (map pr_ordinal members) ->
  let s := recompose iter port members now0 s0 in
  (forall a o', select_for_new_dialog m opts s now o = (inr a, o') -> routes_to s a) /\
  (forall a, placement_by_rank m s = Node a -> routes_to s a) /\
  (forall a e, decode_stickiness params m h s = Forward a e \/ decode_stickiness params m h s = ForwardBackup a e -> routes_to s a).
Proof.
  intros Hm s. assert (NoDup (map we_id (snapshot_of s))) as Hd.
  { unfold snapshot_of, s. rewrite recompose_projection by (by apply ready_nodup). rewrite map_map. by apply ready_nodup. }
  split_and!.
  - intros a o'. apply select_alive.
  - intros a. by apply placement_alive.
  - intros a e. unfold decode_stickiness. destruct (check params m h) as [[]|c]; [by intros [?|?]..|].
    destruct (alive_address (ck_w_pri c) s) as [a1|] eqn:H1; [intros [[= <- _]|?]; [by eapply alive_address_alive|done]|].
    destruct (alive_address (ck_w_bak c) s) as [a2|] eqn:H2; [intros [?|[= <- _]]; [done|by eapply alive_address_alive]|by intros [?|?]].
Qed.
Lemma only_alive_routed_witness :
  select_for_new_dialog (E := ex_cookie_env) (O := ex_observer) (Request ex_invite) (mkOpts false false)
    (recompose ex_iter 5060 ex_members 7 ex_pool) 8 [] = (inr (mkAddr "10.0.0.2" 5060), []) /\
  routes_to (recompose ex_iter 5060 ex_members 7 ex_pool) (mkAddr "10.0.0.2" 5060).
Proof.
  split; [vm_compute; reflexivity|].
  apply (proj1 (only_alive_routed (E := ex_cookie_env) (O := ex_observer) ex_iter 5060 ex_members 7 ex_pool (Request ex_invite) (mkOpts false false) 8 [] [] ex_provider
           ltac:(apply (bool_decide_unpack _); vm_compute; exact I)) (mkAddr "10.0.0.2" 5060) []).
  vm_compute. reflexivity.
Defined.

(** A new call goes to the first worker of its ranking that has a token.
    The candidates are the workers alive and accepting, or alive where none
    accepts, less those past critical load unless the call is an emergency or
    its dialog is known; they are ranked by score, each once.  With none there is
    no target; an emergency or a known dialog takes the first and spends no
    token; any other call spends the token of the first worker that has one,
    each one before it asked and refusing, and with none is refused with the
    earliest refill. *)
Theorem new_call_placed {E : CookieEnv} {O : LoadObserver} m opts s now o :
  NoDup (map we_id (snapshot_of s)) ->
  let call_id := default ""%string (call_id_of m) in
  let bypass := (emergency_override opts || is_emergency_invite m) || (is_in_dialog m && negb (admit_as_new opts)) in
  let candidates := candidates_for bypass (snapshot_of s) o in
  let ranking := rank_workers call_id candidates in
  ranking ≡ₚ candidates /\ ranked sha1 call_id (map key_of ranking) /\
  match ranking with
  | [] => exists reason, select_for_new_dialog m opts s now o = (inl (NoTarget reason), o)
  | winner :: _ =>
      if bypass then select_for_new_dialog m opts s now o = (inr (we_address winner), record_own_admitted (we_id winner) o)
      else exists r o', takes now ranking o u32_MAX r o' /\
             select_for_new_dialog m opts s now o =
               (match r with inr w => inr (we_address w) | inl sec => inl (RateCapExhausted (we_id winner) sec) end, o')
  end.
Proof.
  intros Hd call_id bypass candidates ranking.
  assert (NoDup (map we_id candidates)) as Hc.
  { assert (sublist candidates (snapshot_of s)) as Hs.
    { unfold candidates, candidates_for, placeable. destruct bypass; destruct (filter (fun w => accepts_new_calls w = true) (snapshot_of s)) as [|x l] eqn:Hf;
        rewrite <- ?Hf; repeat (etrans; [apply sublist_filter|]); try apply sublist_filter; try done. }
    eapply sublist_NoDup; [exact Hd|]. by apply fmap_sublist. }
  split; [by apply rank_workers_perm|]. split; [unfold ranking; rewrite rank_workers_keys by done; apply rank_ranked|].
  unfold select_for_new_dialog. fold call_id bypass candidates ranking. destruct ranking as [|winner l]; [by eexists|].
  destruct bypass; [done|]. unfold take_token. pose proof (token_loop_takes now (winner :: l) o u32_MAX) as Ht.
  destruct (token_loop (winner :: l) now u32_MAX o) as [r o']. exists r, o'. split; [done|]. by destruct r.
Qed.
Lemma new_call_placed_witness :
  (exists r o', takes (O := ex_observer) 8 (rank_workers (E := ex_cookie_env) "c1@h" (snapshot_of ex_pool)) ["w1"] u32_MAX r o' /\
     select_for_new_dialog (E := ex_cookie_env) (O := ex_observer) (Request ex_invite) (mkOpts false false) ex_pool 8 ["w1"] =
       (match r with inr w => inr (we_address w) | inl sec => inl (RateCapExhausted "w1" sec) end, o')) /\
  select_for_new_dialog (E := ex_cookie_env) (O := ex_observer) (Request ex_invite) (mkOpts false false) ex_pool 8 ["w1"] = (inr (mkAddr "10.0.0.1" 5060), ["w1"]) /\
  select_for_new_dialog (E := ex_cookie_env) (O := ex_observer) (Request ex_invite) (mkOpts false false) ex_pool 8 ["w1"; "w0"] = (inl (RateCapExhausted "w1" 3), ["w1"; "w0"]).
Proof.
  split; [|split; vm_compute; reflexivity].
  destruct (new_call_placed (E := ex_cookie_env) (O := ex_observer) (Request ex_invite) (mkOpts false false) ex_pool 8 ["w1"]) as (_ & _ & H);
    [apply (bool_decide_unpack _); vm_compute; exact I|exact H].
Defined.

(** The backup of a call is another ordinal than its primary: the one alive
    and accepting where there is one, else one alive, else one the pool knows;
    and none only where the pool knows no other. *)
Theorem backup_chosen {E : CookieEnv} call_id primary members now s :
  let b := backup_for call_id primary members now s in
  let other := fun w => w ∈ snapshot_of s /\ we_id w <> primary in
  (b = ""%string \/ b <> primary) /\
  (forall w, other w -> is_alive w = true -> exists v, other v /\ we_id v = b /\ is_alive v = true /\ (accepts_new_calls w = true -> accepts_new_calls v = true)) /\
  ((forall w, other w -> is_alive w = false) ->
     (b = ""%string \/ (exists w, other w /\ we_id w = b) \/ known_away members now s b) /\
     (b = ""%string -> (forall w, w ∈ snapshot_of s -> we_id w <> ""%string) -> (forall id, known_away members now s id -> id <> ""%string) ->
        forall id, id <> primary -> id ∉ map we_id (snapshot_of s) /\ ~ known_away members now s id)).
Proof. apply backup_spec. Qed.

(** A dialling mark made for a cookie is read back beside it, under any provider
    that holds the key. *)
Lemma dialling_mark_read {E : CookieEnv} {L : CookieLaws E} cookie h h' name mark :
  lookup_key (hk_id (hp_current h)) h' = Some (hp_current h) ->
  mark_dialling cookie h = Some (name, mark) -> dialling_marked (rp_insert name mark cookie) h' = true.
Proof.
  intros Hl. unfold mark_dialling, hmac_sign. destruct (rp_get "kid" cookie) as [kid|] eqn:Hk; [|done]. destruct (rp_get "sig" cookie) as [sig|] eqn:Hs; [|done].
  simpl. destruct (String.eqb_spec (hk_id (hp_current h)) kid) as [<-|]; [|done]. intros [= <- <-].
  unfold dialling_marked. rewrite !rp_get_insert_ne by done. rewrite Hk, Hs, rp_get_insert_eq.
  rewrite b64_roundtrip, mac_take_length, verify_own by (done || apply Forall_take, hmac_bytes). done.
Qed.
(** The cookie of the forwarding strategy is read back as the address it names. *)
Lemma forward_all_roundtrip a params :
  pa_host a <> ""%string -> 0 <= pa_port a <= u16_MAX -> forward_all_encode a = Some params -> forward_all_decode params = Forward a false.
Proof.
  intros Hh Hp [= <-]. unfold forward_all_decode. change (rp_get TARGET_PARAM [(TARGET_PARAM, show_addr a)]) with (Some (show_addr a)). simpl.
  by rewrite parse_show_addr.
Qed.
