(* ===== verification/HealthProbe.v ===== *)
(** * Front proxy: the health probe

    [crates/sip-proxy/src/health/probe.rs], [health/probe/answer.rs],
    [health/probe/config.rs], [health/first_view.rs] and [health/reach.rs], and
    the fan-out of [health/dead_notice.rs].  The loop takes one event at a time:
    a tick, an answer, a timeout of the transaction layer, or the end of a reply
    window.  The branches a tick draws, the instant each of its probes was sent
    at, the members the registry recomposes from and the clock are in the event;
    what the loop asks of the transaction layer and of the load observer is an
    output, in order.  An event is one step: what the membership's follower
    writes falls between two of them. *)

From S2P Require Import Prelude Texts ProxyTypes Topology WorkerRegistry.

Open Scope Z_scope.

(** ** Answers ([probe/answer.rs]) *)

Inductive NewCalls := NewAccept | NewRefuse.
(** [AnswerReading]: health and acceptance, [None] to leave one. *)
Definition read_answer (status : Z) (readiness : option NewCalls) : option WorkerHealth * option Acceptance :=
  if status =? 200 then (Some Alive, Some (match readiness with Some NewRefuse => Refuse | Some NewAccept | None => Accept end))
  else if status =? 503 then (None, Some Refuse)
  else (Some Alive, None).

(** ** Configuration ([probe/config.rs]) *)

Record HealthProbeConfig := mkProbeConfig { hc_interval_ms : Z; hc_timeout_ms : Z; hc_threshold : Z }.
Definition default_probe_config : HealthProbeConfig := mkProbeConfig 1000 1600 2.
Definition REAP_PAST_WINDOW : Z := 1.
Definition period (c : HealthProbeConfig) : Z := Z.max 1 (hc_interval_ms c).
(** In milliseconds; a [Duration] holds every value these reach. *)
Definition verdict_after_first_miss (c : HealthProbeConfig) : Z :=
  period c * Z.max 0 (hc_threshold c - 1) + hc_timeout_ms c + REAP_PAST_WINDOW.
Definition verdict_within (c : HealthProbeConfig) : Z := period c + verdict_after_first_miss c.

(** ** State *)

Record PendingProbe := mkPending { pp_worker_id : string; pp_addr : ProxyAddr; pp_window_ends : Z }.
Record ProbeState := mkProbe {
  ps_pending : gmap string PendingProbe;
  ps_misses : gmap string Z;
  ps_last_addr : gmap string ProxyAddr;
  ps_incarnation : gmap string Z;
}.
Definition no_probe : ProbeState := mkProbe ∅ ∅ ∅ ∅.

(** What the loop asks of the transaction layer and of the observer, and that a
    worker was heard. *)
Inductive ProbeOutput :=
  | SendOptions (branch : string) (addr : ProxyAddr)
  | CancelProbe (branch : string)
  | ObserverReset (id : string)
  | ObserverRetain (ids : list string)
  | ObserverPayload (id : string)
  | ObserverMissing (id : string)
  | Answered.

Section probe.
Variable iter : Annots -> list (string * Annot).
Variable port : Z.
Variable config : HealthProbeConfig.
(** Whether an address makes an OPTIONS and a socket address. *)
Variable probeable : ProxyAddr -> bool.

(** Whether the worker is registered at the address probed. *)
Definition still_at (id : string) (addr : ProxyAddr) (s : WorkerSet) : bool :=
  match resolve id s with Some w => bool_decide (we_address w = addr) | None => false end.

(** [count_miss]: a [u32] counter. *)
Definition count_miss (members : list Peer) (now : Z) (p : PendingProbe) (misses : gmap string Z) (s : WorkerSet) : gmap string Z * WorkerSet :=
  if negb (still_at (pp_worker_id p) (pp_addr p) s) then (misses, s)
  else
    let n := (default 0 (misses !! pp_worker_id p) + 1) mod 2 ^ 32 in
    (<[pp_worker_id p := n]> misses,
     if hc_threshold config <=? n then set_health iter port (pp_worker_id p) Dead members now s else s).
Definition with_misses (m : gmap string Z) (st : ProbeState) : ProbeState := mkProbe (ps_pending st) m (ps_last_addr st) (ps_incarnation st).
Definition with_pending (p : gmap string PendingProbe) (st : ProbeState) : ProbeState := mkProbe p (ps_misses st) (ps_last_addr st) (ps_incarnation st).

(** [reap]: the expired branches in the order the map is walked. *)
Definition expired (now : Z) (st : ProbeState) : list string :=
  map fst (filter (fun p : string * PendingProbe => pp_window_ends p.2 < now) (map_to_list (ps_pending st))).
Definition reap_one (members : list Peer) (now : Z) (acc : ProbeState * WorkerSet * list ProbeOutput) (branch : string) : ProbeState * WorkerSet * list ProbeOutput :=
  let '(st, s, out) := acc in
  match ps_pending st !! branch with
  | None => acc
  | Some p =>
      let '(misses, s) := count_miss members now p (ps_misses st) s in
      (with_misses misses (with_pending (delete branch (ps_pending st)) st), s, out ++ [CancelProbe branch])
  end.
Definition reap (members : list Peer) (now : Z) (st : ProbeState) (s : WorkerSet) : ProbeState * WorkerSet * list ProbeOutput :=
  foldl (reap_one members now) (st, s, []) (expired now st).

(** [tick]: the state of departed or moved workers is dropped, then one probe is
    sent to each worker, its reply window from the instant it was sent. *)
Definition note_address (acc : ProbeState * list ProbeOutput) (w : WorkerEntry) : ProbeState * list ProbeOutput :=
  let '(st, out) := acc in
  let moved := match ps_last_addr st !! we_id w with Some prev => bool_decide (prev <> we_address w) | None => false end in
  if moved
  then (mkProbe (ps_pending st) (delete (we_id w) (ps_misses st)) (<[we_id w := we_address w]> (ps_last_addr st)) (delete (we_id w) (ps_incarnation st)),
        out ++ [ObserverReset (we_id w)])
  else (mkProbe (ps_pending st) (ps_misses st) (<[we_id w := we_address w]> (ps_last_addr st)) (ps_incarnation st), out).
Definition keep_live {A} (ids : list string) (m : gmap string A) : gmap string A := filter (fun p => p.1 ∈ ids) m.
Definition send_one (acc : ProbeState * list ProbeOutput) (wb : WorkerEntry * (string * Z)) : ProbeState * list ProbeOutput :=
  let '(st, out) := acc in
  let '(w, (branch, sent_at)) := wb in
  if probeable (we_address w)
  then (with_pending (<[branch := mkPending (we_id w) (we_address w) (sent_at + hc_timeout_ms config)]> (ps_pending st)) st,
        out ++ [SendOptions branch (we_address w)])
  else acc.
Definition tick (sends : list (string * Z)) (st : ProbeState) (s : WorkerSet) : ProbeState * list ProbeOutput :=
  let snapshot := snapshot_of s in
  let ids := map we_id snapshot in
  let '(st, out) := foldl note_address (st, []) snapshot in
  let st := mkProbe (ps_pending st) (keep_live ids (ps_misses st)) (keep_live ids (ps_last_addr st)) (keep_live ids (ps_incarnation st)) in
  foldl send_one (st, out ++ [ObserverRetain ids]) (zip snapshot sends).

(** [handle_reply]: what the loop reads of a response. *)
Record ProbeReply := mkReply { rp_status : Z; rp_branch : option string; rp_incarnation : option Z; rp_readiness : option NewCalls; rp_overload : bool }.
Definition handle_reply (r : ProbeReply) (members : list Peer) (now : Z) (st : ProbeState) (s : WorkerSet) : ProbeState * WorkerSet * list ProbeOutput :=
  if rp_status r <? 200 then (st, s, [])
  else match rp_branch r with
  | None => (st, s, [])
  | Some branch =>
      match ps_pending st !! branch with
      | None => (st, s, [])
      | Some p =>
          let id := pp_worker_id p in
          let pending := delete branch (ps_pending st) in
          let stale := map fst (filter (fun q : string * PendingProbe => pp_worker_id q.2 = id) (map_to_list pending)) in
          let st := with_pending (filter (fun q => pp_worker_id q.2 <> id) pending) st in
          let out := Answered :: map CancelProbe stale in
          if negb (still_at id (pp_addr p) s) then (st, s, out)
          else
            let previous := ps_incarnation st !! id in
            let restarted := match rp_incarnation r, previous with Some gen, Some prev => bool_decide (prev <> gen) | _, _ => false end in
            let incarnation := match rp_incarnation r with Some gen => <[id := gen]> (ps_incarnation st) | None => ps_incarnation st end in
            let out := out ++ (if restarted then [ObserverReset id] else []) ++ [if rp_overload r then ObserverPayload id else ObserverMissing id] in
            let reading := read_answer (rp_status r) (rp_readiness r) in
            let health := match reading.1 with Some h => Some h | None => if restarted then Some Unknown else None end in
            (mkProbe (ps_pending st) (<[id := 0]> (ps_misses st)) (ps_last_addr st) incarnation,
             set_view iter port id health reading.2 members now s, out)
      end
  end.

(** A [Timeout] of the transaction layer. *)
Definition txn_timeout (branch : string) (members : list Peer) (now : Z) (st : ProbeState) (s : WorkerSet) : ProbeState * WorkerSet * list ProbeOutput :=
  match ps_pending st !! branch with
  | None => (st, s, [])
  | Some p =>
      let '(misses, s) := count_miss members now p (ps_misses st) s in
      (with_misses misses (with_pending (delete branch (ps_pending st)) st), s, [])
  end.

(** ** The loop ([run]) *)

(** The first round, and the view it latches ([first_view.rs]). *)
Record Probe := mkLoop { lp_state : ProbeState; lp_first_round : option (list string); lp_first_view : bool; lp_last_answer : option Z }.
Inductive ProbeEvent :=
  | PTick (sends : list (string * Z)) (** a branch and an instant for each worker *)
  | PReply (r : ProbeReply)
  | PTimeout (branch : string)
  | PReap
  | PRoundWindow. (** the first round's reply window has run out *)
Definition settled (round : list string) (pending : gmap string PendingProbe) : bool := forallb (fun b => negb (bool_decide (is_Some (pending !! b)))) round.
(** The head of the loop: a settled round latches. *)
Definition latch_settled (l : Probe) : Probe :=
  match lp_first_round l with
  | Some round => if settled round (ps_pending (lp_state l)) then mkLoop (lp_state l) None true (lp_last_answer l) else l
  | None => l
  end.
Definition with_state (now : Z) (l : Probe) (st : ProbeState) (out : list ProbeOutput) : Probe :=
  mkLoop st (lp_first_round l) (lp_first_view l)
    (if existsb (fun o => match o with Answered => true | _ => false end) out then Some now else lp_last_answer l).
Definition probe_step (e : ProbeEvent) (members : list Peer) (now : Z) (l : Probe) (s : WorkerSet) : Probe * WorkerSet * list ProbeOutput :=
  let l := latch_settled l in
  match e with
  | PTick sends => let '(st, out) := tick sends (lp_state l) s in (with_state now l st out, s, out)
  | PReply r => let '(st, s, out) := handle_reply r members now (lp_state l) s in (with_state now l st out, s, out)
  | PTimeout branch => let '(st, s, out) := txn_timeout branch members now (lp_state l) s in (with_state now l st out, s, out)
  | PReap => let '(st, s, out) := reap members now (lp_state l) s in (with_state now l st out, s, out)
  | PRoundWindow =>
      match lp_first_round l with
      | Some _ => (mkLoop (lp_state l) None true (lp_last_answer l), s, [])
      | None => (l, s, [])
      end
  end.
(** The start: the first tick, over the first listing. *)
Definition probe_start (sends : list (string * Z)) (s : WorkerSet) : Probe * list ProbeOutput :=
  let '(st, out) := tick sends no_probe s in
  (mkLoop st (Some (map fst (map_to_list (ps_pending st)))) false None, out).

(** [WorkerReach::isolated]. *)
Definition isolated (window now : Z) (l : Probe) : bool :=
  match lp_last_answer l with None => true | Some at_ms => window <? now - at_ms end.
End probe.

(** [DeadNotifier::tell]: the workers told that one is read dead, and
    [tell_every_dead]: the workers told of after a lag. *)
Definition told_of (dead : string) (s : WorkerSet) : list WorkerEntry :=
  filter (fun w => we_id w <> dead /\ is_alive w = true) (snapshot_of s).
Definition tell_every_dead (s : WorkerSet) : list (string * list WorkerEntry) :=
  map (fun w => (we_id w, told_of (we_id w) s)) (filter (fun w => we_health w = Dead) (snapshot_of s)).
