(* ===== verification/HealthProbeProps.v ===== *)
(** * Front proxy: what the health probe guarantees

    A worker that answers none of its probes is read as not alive once its
    threshold of reply windows has ended; and a worker is read alive only on the
    answer to a probe sent to the address it is at. *)

From S2P Require Import Prelude Texts ProxyTypes Topology WorkerRegistry WorkerRegistryProps WorkerRegistryThms HealthProbe.

Open Scope Z_scope.

(** ** The probe and the registry *)

(** The probe and the membership's follower over one registry. *)
Inductive SysEvent := SProbe (e : ProbeEvent) | SFollow.
Section system_steps.
Context (iter : Annots -> list (string * Annot)) (port : Z) (config : HealthProbeConfig) (probeable : ProxyAddr -> bool).

Definition sys_step (st : Probe * WorkerSet) (ev : SysEvent * list Peer * Z) : Probe * WorkerSet :=
  match ev with
  | (SProbe e, members, now) => (probe_step iter port config probeable e members now st.1 st.2).1
  | (SFollow, members, now) => (st.1, recompose iter port members now st.2)
  end.
Definition sys_run (evs : list (SysEvent * list Peer * Z)) (st : Probe * WorkerSet) : Probe * WorkerSet := foldl sys_step st evs.
End system_steps.

(** ** The pool a probe reads *)

Section pool.
Context (iter : Annots -> list (string * Annot)) (port : Z).

Definition ported (recs : Annots) : Prop := forall i r, recs !! i = Some r -> an_port_override r = None.
(** The projection and the overlay agree: one entry a worker, each from a record
    at its host, all at the default port. *)
Record pool_fit (s : WorkerSet) : Prop := {
  pf_ids : NoDup (map we_id (snapshot_of s));
  pf_record : forall i w, resolve i s = Some w -> exists r, ws_annots s !! i = Some r /\ an_health r = we_health w;
  pf_port : ported (ws_annots s);
}.
Lemma annots_after_ported members recs : ported recs -> ported (annots_after iter port members recs).
Proof.
  intros Hp. unfold annots_after. cbn [sync_membership snd]. apply (foldl_keeps ported).
  - intros R p HR i r. unfold sync_one. destruct (R !! pr_ordinal p) as [q|] eqn:Hq; [case_bool_decide; [apply HR|]|];
      (destruct (decide (i = pr_ordinal p)) as [->|Hne]; [rewrite lookup_insert_eq; by intros [= <-]|rewrite lookup_insert_ne by done; apply HR]).
  - intros i r Hr. apply map_lookup_filter_Some in Hr as [Hr _]. by apply (Hp i).
Qed.
Lemma set_view_ported i h a recs : ported recs -> ported (annots_set_view iter i h a recs).2.
Proof.
  intros Hp. unfold annots_set_view. destruct (recs !! i) as [q|] eqn:Hq; [|done]. destruct (bool_decide _ && _); [done|]. cbn [snd].
  set (R := <[i := _]> recs). assert (ported R) as HR.
  { intros j r. unfold R. destruct (decide (j = i)) as [->|Hne]; [rewrite lookup_insert_eq; intros [= <-]; simpl; by apply (Hp i)|rewrite lookup_insert_ne by done; apply Hp]. }
  destruct (_ && _); [|done]. intros j r. rewrite map_lookup_imap. destruct (R !! j) as [x|] eqn:Hx; [|done]. simpl. intros [= <-]. destruct (_ && _); simpl; by apply (HR j).
Qed.
Lemma fit_recompose members now s : NoDup (map pr_ordinal members) -> ported (ws_annots s) -> pool_fit (recompose iter port members now s).
Proof.
  intros Hm Hp. split.
  - unfold snapshot_of. rewrite recompose_projection by (by apply ready_nodup). rewrite map_map. by apply ready_nodup.
  - intros i w Hw. destruct (in_step_resolve iter port members Hm _ _ _ _ Hw) as (p & r & _ & _ & -> & _ & Hr). by exists r.
  - rewrite recompose_annots. by apply annots_after_ported.
Qed.
Lemma set_view_fields i h a members now s :
  let s1 := recompose iter port members now (mkSet (annots_set_view iter i h a (ws_annots s)).2 (ws_tombs s) (ws_projection s) (ws_listed s) (ws_verdicts s)) in
  ws_annots (set_view iter port i h a members now s) = ws_annots s1 /\ ws_projection (set_view iter port i h a members now s) = ws_projection s1.
Proof. unfold set_view. by destruct (annots_set_view iter i h a (ws_annots s)) as [[] recs]. Qed.
Lemma fit_same s s' : ws_annots s' = ws_annots s -> ws_projection s' = ws_projection s -> pool_fit s -> pool_fit s'.
Proof. intros Ha Hp [H1 H2 H3]. split; unfold snapshot_of, resolve in *; rewrite ?Ha, ?Hp; done. Qed.
Lemma fit_set_view i h a members now s : NoDup (map pr_ordinal members) -> pool_fit s -> pool_fit (set_view iter port i h a members now s).
Proof. intros Hm Hf. destruct (set_view_fields i h a members now s) as [H1 H2]. eapply fit_same; [exact H1|exact H2|]. apply fit_recompose; [done|]. exact (set_view_ported i h a _ (pf_port s Hf)). Qed.

(** ** One worker *)

Context (id host : string).
Definition addr : ProxyAddr := mkAddr host port.
Definition at_addr (s : WorkerSet) : Prop := exists w, resolve id s = Some w /\ we_address w = addr.
Definition not_alive (s : WorkerSet) : Prop := forall r, ws_annots s !! id = Some r -> an_health r <> Alive.

Lemma at_recompose members now s : NoDup (map pr_ordinal members) -> ported (ws_annots s) -> lists_at id host members -> at_addr (recompose iter port members now s).
Proof.
  intros Hm Hp [Hin Hhost]. apply list_elem_of_fmap in Hin as (p & He & Hin). pose proof (ready_nodup members Hm) as Hd.
  assert (resolve id (recompose iter port members now s) = Some (entry_of port (ws_annots s) p)) as Hr.
  { unfold resolve. rewrite recompose_projection, find_entry_map, find_peer_map, He, peer_map_elem by done. done. }
  eexists. split; [exact Hr|]. unfold entry_of, addr. cbn [we_address]. rewrite (Hhost p Hin) by done. f_equal. unfold kept_annot. destruct (ws_annots s !! pr_ordinal p) as [r|] eqn:Hx; [|done].
  case_bool_decide; [|done]. by rewrite (Hp _ _ Hx).
Qed.
Lemma at_set_view i h a members now s : NoDup (map pr_ordinal members) -> pool_fit s -> lists_at id host members -> at_addr (set_view iter port i h a members now s).
Proof.
  intros Hm Hf Hl. destruct (set_view_fields i h a members now s) as [_ H2]. unfold at_addr, resolve. rewrite H2. apply at_recompose; [done|exact (set_view_ported i h a _ (pf_port s Hf))|done].
Qed.
Lemma not_alive_recompose members now s : not_alive s -> not_alive (recompose iter port members now s).
Proof. intros Hn r Hr Ha. rewrite recompose_annots in Hr. apply annots_after_known in Hr as (Hr & _); [|by rewrite Ha]. by apply (Hn r). Qed.
Lemma not_alive_set_view i h a members now s : i <> id \/ h <> Some Alive -> not_alive s -> not_alive (set_view iter port i h a members now s).
Proof.
  intros Hc Hn r Hr Ha. rewrite set_view_annots in Hr. apply annots_after_known in Hr as (Hr & _); [|by rewrite Ha].
  destruct (view_alive iter i h a (ws_annots s) id r Hr Ha) as [[-> ->]|(r' & H1 & H2 & _)]; [by destruct Hc|by apply (Hn r')].
Qed.
Lemma dead_set_view members now s : pool_fit s -> is_Some (resolve id s) -> not_alive (set_view iter port id (Some Dead) None members now s).
Proof.
  intros Hf [w Hw] r Hr Ha. destruct (pf_record s Hf id w Hw) as (q & Hq & _). rewrite set_view_annots in Hr. apply annots_after_known in Hr as (Hr & _); [|by rewrite Ha].
  unfold annots_set_view in Hr. rewrite Hq in Hr. change (default (an_health q) (Some Dead)) with Dead in Hr. destruct (bool_decide (Dead = an_health q) && _) eqn:Hb; cbn [snd] in Hr.
  - apply andb_true_iff in Hb as [Hb _]. apply bool_decide_eq_true in Hb. rewrite Hq in Hr. injection Hr as <-. congruence.
  - apply forget_lookup in Hr as (r1 & H1 & _ & H3). rewrite lookup_insert_eq in H1. injection H1 as <-. rewrite H3 in Ha by (by rewrite Ha). done.
Qed.
Lemma not_alive_read s w : pool_fit s -> not_alive s -> resolve id s = Some w -> is_alive w = false.
Proof. intros Hf Hn Hw. destruct (pf_record s Hf id w Hw) as (r & Hr & He). apply bool_decide_eq_false. rewrite <- He. by apply Hn. Qed.
End pool.

(** ** The probes of one worker *)

Section silent.
Context (iter : Annots -> list (string * Annot)) (port : Z) (config : HealthProbeConfig) (probeable : ProxyAddr -> bool).
Context (id host : string).
Notation addr := (addr port host).
Notation at_addr := (at_addr port id host).
Notation not_alive := (not_alive id).

(** Its probes in flight that [f] holds of. *)
Definition flying (f : PendingProbe -> bool) (p : gmap string PendingProbe) : Z :=
  Z.of_nat (size (filter (fun q => pp_worker_id q.2 = id /\ f q.2 = true) p)).
Definition its_misses (m : gmap string Z) : Z := default 0 (m !! id).
Definition any (p : PendingProbe) : bool := true.

Lemma flying_nonneg f p : 0 <= flying f p.
Proof. unfold flying. lia. Qed.
Lemma flying_insert f b q p : p !! b = None -> flying f (<[b := q]> p) = flying f p + (if decide (pp_worker_id q = id /\ f q = true) then 1 else 0).
Proof.
  intros Hb. unfold flying. rewrite map_filter_insert. simpl. destruct (decide _) as [Hq|Hq].
  - rewrite map_size_insert_None; [lia|]. apply map_lookup_filter_None. by left.
  - rewrite delete_id by done. lia.
Qed.
Lemma flying_delete f b q p : p !! b = Some q -> flying f (delete b p) = flying f p - (if decide (pp_worker_id q = id /\ f q = true) then 1 else 0).
Proof. intros Hb. rewrite <- (insert_delete_id p b q Hb) at 2. rewrite flying_insert by apply lookup_delete_eq. lia. Qed.

(** [due] holds of the probes that have to have ended by some instant, all sent
    to the address.  [n] of them went unanswered, or may still be. *)
Context (due : PendingProbe -> bool) (Hdue : forall p, due p = true -> pp_addr p = addr).
Record watched (n u : Z) (st : ProbeState) (s : WorkerSet) : Prop := {
  wt_fit : pool_fit s;
  wt_pos : 0 <= its_misses (ps_misses st);
  wt_small : its_misses (ps_misses st) + flying any (ps_pending st) <= u;
  wt_over : hc_threshold config <= its_misses (ps_misses st) -> not_alive s;
  wt_count : n <= its_misses (ps_misses st) + flying due (ps_pending st);
  wt_last : n <= 0 \/ ps_last_addr st !! id = None \/ ps_last_addr st !! id = Some addr;
}.

(** A probe that went unanswered. *)
Lemma missed n u st s b p members now :
  u < 2 ^ 32 -> NoDup (map pr_ordinal members) -> (n <= 0 \/ at_addr s) -> watched n u st s -> ps_pending st !! b = Some p ->
  let r := count_miss iter port config members now p (ps_misses st) s in
  watched n u (with_misses r.1 (with_pending (delete b (ps_pending st)) st)) r.2.
Proof.
  intros Hu Hm Hat [A1 A2 A3 A4 A5 A6] Hb r. pose proof (flying_delete any b p _ Hb) as Hall. pose proof (flying_delete due b p _ Hb) as Hd.
  pose proof (flying_nonneg due (delete b (ps_pending st))) as Hnn. pose proof (flying_nonneg any (delete b (ps_pending st))) as Hna.
  unfold r, count_miss. destruct (decide (pp_worker_id p = id)) as [Hid|Hid].
  - rewrite decide_True in Hall by done. destruct (still_at (pp_worker_id p) (pp_addr p) s) eqn:Hst; cbn [negb].
    + rewrite Hid. fold (its_misses (ps_misses st)). rewrite Z.mod_small by lia.
      assert (its_misses (<[id := its_misses (ps_misses st) + 1]> (ps_misses st)) = its_misses (ps_misses st) + 1) as Hi by (unfold its_misses at 1; by rewrite lookup_insert_eq).
      assert (is_Some (resolve id s)) as Hr by (unfold still_at in Hst; rewrite Hid in Hst; by destruct (resolve id s)).
      assert ((if decide (pp_worker_id p = id /\ due p = true) then 1 else 0) <= 1) as H1 by (destruct (decide _); lia).
      split; simpl; rewrite ?Hi; try done; try lia.
      * destruct (hc_threshold config <=? _); [by apply fit_set_view|done].
      * destruct (Z.leb_spec (hc_threshold config) (its_misses (ps_misses st) + 1)); [intros _; by apply dead_set_view|lia].
    + split; simpl; try done; try lia. destruct Hat as [|Hat]; [lia|]. rewrite decide_False in Hd; [lia|]. intros [_ Hp%Hdue]. destruct Hat as (w & Hw & Ha).
      unfold still_at in Hst. rewrite Hid, Hw, Hp, Ha, bool_decide_true in Hst by done. done.
  - rewrite decide_False in Hall by tauto. rewrite decide_False in Hd by tauto. destruct (still_at (pp_worker_id p) (pp_addr p) s); simpl.
    + set (m' := <[pp_worker_id p := _]> _). assert (its_misses m' = its_misses (ps_misses st)) as Hi by (unfold its_misses, m'; by rewrite lookup_insert_ne).
      split; simpl; rewrite ?Hi; try done; try lia.
      * destruct (hc_threshold config <=? _); [by apply fit_set_view|done].
      * intros Ho. destruct (hc_threshold config <=? _); [apply not_alive_set_view; [by left|by apply A4]|by apply A4].
    + split; simpl; try done; try lia.
Qed.
(** The worker stays where it is, in a step that lists it there. *)
Lemma missed_at members now p misses s :
  NoDup (map pr_ordinal members) -> lists_at id host members -> pool_fit s -> at_addr s -> at_addr (count_miss iter port config members now p misses s).2.
Proof. intros Hm Hl Hf Ha. unfold count_miss. destruct (still_at _ _ s); [|done]. simpl. destruct (_ <=? _); [by apply at_set_view|done]. Qed.
Lemma reaped n u st s members now out bs :
  u < 2 ^ 32 -> NoDup (map pr_ordinal members) -> (n <= 0 \/ (at_addr s /\ lists_at id host members)) -> watched n u st s ->
  let r := foldl (reap_one iter port config members now) (st, s, out) bs in
  watched n u r.1.1 r.1.2 /\ (at_addr s -> lists_at id host members -> at_addr r.1.2) /\ (forall b, ps_pending r.1.1 !! b = if decide (b ∈ bs) then None else ps_pending st !! b).
Proof.
  intros Hu Hm. revert st s out. induction bs as [|b bs IH]; intros st s out Hat Hs; cbn [foldl].
  { split; [done|]. split; [done|]. intros b. by rewrite decide_False by apply not_elem_of_nil. }
  destruct (ps_pending st !! b) as [p|] eqn:Hb.
  - pose proof (missed n u st s b p members now Hu Hm ltac:(tauto) Hs Hb) as H1.
    pose proof (fun Hl Ha => missed_at members now p (ps_misses st) s Hm Hl (wt_fit _ _ _ _ Hs) Ha) as H1a.
    assert (reap_one iter port config members now (st, s, out) b =
      (with_misses (count_miss iter port config members now p (ps_misses st) s).1 (with_pending (delete b (ps_pending st)) st),
       (count_miss iter port config members now p (ps_misses st) s).2, out ++ [CancelProbe b])) as ->.
    { unfold reap_one. rewrite Hb. by destruct (count_miss iter port config members now p (ps_misses st) s). }
    pose proof (fun H => IH _ _ (out ++ [CancelProbe b]) H H1) as IH'. destruct (IH' ltac:(tauto)) as (H2 & H2a & H3). split; [done|]. split; [tauto|]. intros b'. rewrite H3. simpl. destruct (decide (b' = b)) as [->|Hne].
    + rewrite (decide_True (P := b ∈ b :: bs)) by (by left). rewrite lookup_delete_eq. by destruct (decide _).
    + rewrite lookup_delete_ne by done. apply decide_ext. rewrite elem_of_cons. tauto.
  - assert (reap_one iter port config members now (st, s, out) b = (st, s, out)) as -> by (unfold reap_one; by rewrite Hb).
    destruct (IH st s out Hat Hs) as (H2 & H2a & H3). split; [done|]. split; [done|]. intros b'. rewrite H3. destruct (decide (b' = b)) as [->|Hne].
    + rewrite (decide_True (P := b ∈ b :: bs)) by (by left). by destruct (decide _).
    + apply decide_ext. rewrite elem_of_cons. tauto.
Qed.

(** A tick sends it one more probe. *)
Definition last_ok (st : ProbeState) : Prop := ps_last_addr st !! id = None \/ ps_last_addr st !! id = Some addr.
Definition only_at (l : list WorkerEntry) : Prop := forall w, w ∈ l -> we_id w = id -> we_address w = addr.
Lemma noted_one st out w :
  let st1 := (note_address (st, out) w).1 in
  ps_pending st1 = ps_pending st /\ (ps_misses st1 !! id = ps_misses st !! id \/ ps_misses st1 !! id = None) /\
  (we_id w <> id -> ps_last_addr st1 !! id = ps_last_addr st !! id /\ ps_misses st1 !! id = ps_misses st !! id) /\
  (we_id w = id -> we_address w = addr -> ps_last_addr st1 !! id = Some addr /\ (last_ok st -> ps_misses st1 !! id = ps_misses st !! id)).
Proof.
  cbv zeta. unfold note_address. destruct (match ps_last_addr st !! we_id w with Some prev => _ | None => _ end) eqn:Hmv; cbn [fst ps_pending ps_misses ps_last_addr].
  - split; [done|]. destruct (decide (we_id w = id)) as [He|Hne].
    + rewrite He. split; [right; apply lookup_delete_eq|]. split; [done|]. intros _ Ha. rewrite lookup_insert_eq, Ha. split; [done|]. intros Hl. exfalso. rewrite He in Hmv.
      destruct Hl as [Hl|Hl]; rewrite Hl in Hmv; [done|]. rewrite Ha in Hmv. apply bool_decide_eq_true in Hmv. by apply Hmv.
    + rewrite lookup_delete_ne, lookup_insert_ne by done. split; [by left|]. by split.
  - split; [done|]. split; [by left|]. split; [intros Hne; by rewrite lookup_insert_ne|]. intros <- Ha. rewrite lookup_insert_eq, Ha. done.
Qed.
Lemma noted l st out :
  let st' := (foldl note_address (st, out) l).1 in
  ps_pending st' = ps_pending st /\ (ps_misses st' !! id = ps_misses st !! id \/ ps_misses st' !! id = None) /\
  (only_at l -> (id ∈ map we_id l -> ps_last_addr st' !! id = Some addr) /\ (last_ok st -> ps_misses st' !! id = ps_misses st !! id /\ last_ok st')).
Proof.
  revert st out. induction l as [|w l IH]; intros st out; cbn [foldl].
  { split; [done|]. split; [by left|]. intros _. split; [by intros ?%elem_of_nil|done]. }
  pose proof (noted_one st out w) as N. cbv zeta in N. destruct (note_address (st, out) w) as [st1 out1]. cbn [fst] in N. destruct N as (P1 & P2 & P3 & P4).
  destruct (IH st1 out1) as (Q1 & Q2 & Q3). rewrite Q1, P1. split; [done|]. split; [destruct Q2 as [Q2|Q2]; [|by right]; rewrite Q2; destruct P2 as [->|P2]; auto|].
  intros Ho. assert (only_at l) as Hl by (intros v Hv; apply Ho; by right). destruct (Q3 Hl) as [Q4 Q5]. destruct (decide (we_id w = id)) as [He|Hne].
  - destruct (P4 He (Ho w ltac:(by left) He)) as [P5 P6]. destruct (Q5 ltac:(by right)) as [Q6 Q7]. split.
    + intros _. destruct (decide (id ∈ map we_id l)) as [Hin|Hn]; [by apply Q4|]. clear - P5 Hn. revert st1 out1 P5. induction l as [|v l IH]; intros st1 out1 P5; [done|]. cbn [foldl map] in *.
      apply not_elem_of_cons in Hn as [Hv Hn]. pose proof (noted_one st1 out1 v) as N. cbv zeta in N. destruct (note_address (st1, out1) v) as [st2 out2]. apply (IH Hn). destruct N as (_ & _ & N & _). cbn [fst] in N. destruct (N ltac:(congruence)) as [-> _]. done.
    + intros Hlo. rewrite Q6. split; [by apply P6|done].
  - destruct (P3 Hne) as [P5 P6]. split; [intros [Hx|Hx]%elem_of_cons; [congruence|by apply Q4]|]. intros Hlo. destruct Q5 as [Q6 Q7]; [unfold last_ok; by rewrite P5|]. rewrite Q6. by split.
Qed.

(** The probes of it a round sends that [f] holds of. *)
Definition probe_of (wb : WorkerEntry * (string * Z)) : PendingProbe := mkPending (we_id wb.1) (we_address wb.1) (wb.2.2 + hc_timeout_ms config).
Definition sent (f : PendingProbe -> bool) (l : list (WorkerEntry * (string * Z))) : Z :=
  Z.of_nat (length (filter (fun wb => we_id wb.1 = id /\ probeable (we_address wb.1) = true /\ f (probe_of wb) = true) l)).
Lemma sent_to l st out :
  NoDup (map (fun wb => wb.2.1) l) -> (forall wb, wb ∈ l -> ps_pending st !! wb.2.1 = None) ->
  let st' := (foldl (send_one config probeable) (st, out) l).1 in
  ps_misses st' = ps_misses st /\ ps_last_addr st' = ps_last_addr st /\ forall f, flying f (ps_pending st') = flying f (ps_pending st) + sent f l.
Proof.
  revert st out. induction l as [|[w [b t]] l IH]; intros st out Hb Hf; [cbn [foldl fst]; split_and!; try done; intros f; unfold sent; simpl; lia|].
  cbn [map fst snd] in Hb. apply NoDup_cons in Hb as [Hb1 Hb2]. assert (ps_pending st !! b = None) as Hnb by (apply (Hf (w, (b, t))); by left). cbn [foldl].
  set (acc := send_one config probeable (st, out) (w, (b, t))). assert (forall f, sent f ((w, (b, t)) :: l) = (if decide (we_id w = id /\ probeable (we_address w) = true /\ f (probe_of (w, (b, t))) = true) then 1 else 0) + sent f l) as Hs.
  { intros f. unfold sent. rewrite filter_cons. cbn [fst]. destruct (decide _); cbn [length]; lia. }
  assert (ps_misses acc.1 = ps_misses st /\ ps_last_addr acc.1 = ps_last_addr st /\ (forall b', b' <> b -> ps_pending acc.1 !! b' = ps_pending st !! b') /\
    forall f, flying f (ps_pending acc.1) = flying f (ps_pending st) + (if decide (we_id w = id /\ probeable (we_address w) = true /\ f (probe_of (w, (b, t))) = true) then 1 else 0)) as (P1 & P2 & P3 & P4).
  { unfold acc, send_one. destruct (probeable (we_address w)) eqn:Hp; cbn [fst with_pending ps_misses ps_last_addr ps_pending].
    - split_and!; try done; [intros b' Hne; by rewrite lookup_insert_ne|]. intros f. rewrite flying_insert by done. f_equal. apply decide_ext. unfold probe_of. cbn [pp_worker_id fst snd]. tauto.
    - split_and!; try done. intros f. rewrite decide_False by (by intros (_ & ? & _)). lia. }
  destruct acc as [st1 out1]. cbn [fst] in *. destruct (IH st1 out1 Hb2) as (Q1 & Q2 & Q3).
  - intros wb Hwb. rewrite P3; [apply Hf; by right|]. intros He. apply Hb1. rewrite <- He. apply (list_elem_of_fmap_2 (fun wb => wb.2.1)). done.
  - rewrite Q1, Q2, P1, P2. split_and!; try done. intros f. rewrite Q3, P4, Hs. lia.
Qed.
Lemma sent_nonneg f l : 0 <= sent f l.
Proof. unfold sent. lia. Qed.
Lemma sent_once f l : NoDup (map we_id (map fst l)) -> sent f l <= 1.
Proof.
  intros Hd. unfold sent. enough (length (filter (fun wb => we_id wb.1 = id /\ probeable (we_address wb.1) = true /\ f (probe_of wb) = true) l) <= 1)%nat by lia.
  induction l as [|x l IH]; [simpl; lia|]. cbn [map] in Hd. apply NoDup_cons in Hd as [Hx Hd]. rewrite filter_cons. destruct (decide _) as [(He & _ & _)|_]; [|by apply IH]. cbn [length].
  clear IH Hd. enough (filter (fun wb => we_id wb.1 = id /\ probeable (we_address wb.1) = true /\ f (probe_of wb) = true) l = []) as -> by (simpl; lia).
  induction l as [|y l IH]; [done|]. cbn [map] in Hx. apply not_elem_of_cons in Hx as [Hy Hx]. rewrite filter_cons_False; [by apply IH|]. intros (Hy1 & _). congruence.
Qed.
Lemma sent_in f l wb : wb ∈ l -> we_id wb.1 = id -> probeable (we_address wb.1) = true -> f (probe_of wb) = true -> 1 <= sent f l.
Proof.
  intros Hin H1 H2 H3. unfold sent. assert (wb ∈ filter (fun wb => we_id wb.1 = id /\ probeable (we_address wb.1) = true /\ f (probe_of wb) = true) l) as Hx by (by apply list_elem_of_filter).
  destruct (filter _ l); [by apply elem_of_nil in Hx|simpl; lia].
Qed.

(** The round, [d] more probes of it among those that have to have ended. *)
Definition round_ok (sends : list (string * Z)) (st : ProbeState) (s : WorkerSet) : Prop :=
  NoDup (map fst sends) /\ Forall (fun x => ps_pending st !! x.1 = None) sends /\ (length (snapshot_of s) <= length sends)%nat.
Lemma ticked n u st s sends (d : bool) :
  probeable addr = true -> watched n u st s -> round_ok sends st s -> (n <= 0 /\ d = false \/ at_addr s) ->
  (d = true -> forall x, x ∈ sends -> due (mkPending id addr (x.2 + hc_timeout_ms config)) = true) ->
  watched (Z.max 0 n + Z.b2z d) (u + 1) (tick config probeable sends st s).1 s.
Proof.
  intros Hpr [A1 A2 A3 A4 A5 A6] (Hnd & Hfresh & Hlen) Hat Hd. unfold tick.
  destruct (noted (snapshot_of s) st []) as (N1 & N2 & N3). destruct (foldl note_address (st, []) (snapshot_of s)) as [st1 out1]. cbn [fst] in *.
  set (ids := map we_id (snapshot_of s)). set (st2 := mkProbe _ _ _ _). set (l := zip (snapshot_of s) sends).
  assert (map fst l = snapshot_of s) as Hz by (by apply fst_zip).
  assert (forall wb, wb ∈ l -> wb.1 ∈ snapshot_of s /\ wb.2 ∈ sends) as Hzip by (intros [w x] Hp; split; [by apply elem_of_zip_l in Hp|by apply elem_of_zip_r in Hp]).
  destruct (sent_to l st2 (out1 ++ [ObserverRetain ids])) as (S1 & S2 & S3).
  - eapply sublist_NoDup; [exact Hnd|]. unfold l. clear. revert sends. induction (snapshot_of s) as [|w l IH]; intros [|b bs]; simpl; try (apply sublist_nil_l); []. apply sublist_skip, IH.
  - intros wb Hwb. unfold st2. cbn [ps_pending]. rewrite N1. rewrite Forall_forall in Hfresh. apply (Hfresh wb.2). by apply Hzip.
  - set (r := foldl _ _ _) in *. pose proof (sent_once any l) as Hone. rewrite Hz in Hone. specialize (Hone (pf_ids s A1)). pose proof (sent_nonneg due l) as Hdn.
    assert (forall f, flying f (ps_pending r.1) = flying f (ps_pending st) + sent f l) as Hfl by (intros f; rewrite S3; unfold st2; cbn [ps_pending]; by rewrite N1).
    assert (its_misses (ps_misses r.1) = its_misses (ps_misses st) \/ its_misses (ps_misses r.1) = 0) as Hmi.
    { unfold its_misses. rewrite S1. unfold st2, keep_live. cbn [ps_misses]. destruct (filter (fun p => p.1 ∈ ids) (ps_misses st1) !! id) as [x|] eqn:Hx; [|by right]. apply map_lookup_filter_Some in Hx as [Hx _].
      destruct N2 as [N2|N2]; [left|]; rewrite N2 in Hx; [by rewrite Hx|done]. }
    assert (at_addr s -> only_at (snapshot_of s) /\ id ∈ ids) as Hin.
    { intros (w & Hw & Ha). apply find_in in Hw as [Hw He]. apply String.eqb_eq in He. split; [|apply list_elem_of_fmap; by exists w].
      intros v Hv Hvid. by rewrite (nodup_same_id _ v w (pf_ids s A1) Hv Hw) by congruence. }
    assert (at_addr s -> ps_last_addr r.1 !! id = Some addr) as Hlast.
    { intros Ha. destruct (Hin Ha) as [Ho Hi]. destruct (N3 Ho) as [N4 _]. rewrite S2. unfold st2, keep_live. cbn [ps_last_addr]. apply map_lookup_filter_Some. split; [by apply N4|done]. }
    assert (at_addr s -> 0 < n -> its_misses (ps_misses r.1) = its_misses (ps_misses st)) as Hsame.
    { intros Ha Hn. destruct (Hin Ha) as [Ho Hi]. destruct (N3 Ho) as [_ N5]. destruct A6 as [|A6]; [lia|]. destruct (N5 A6) as [N6 _]. unfold its_misses. rewrite S1. unfold st2, keep_live. cbn [ps_misses].
      destruct (ps_misses st !! id) as [x|] eqn:Hx; [|].
      - assert (filter (fun p => p.1 ∈ ids) (ps_misses st1) !! id = Some x) as ->; [|done]. apply map_lookup_filter_Some. by split.
      - assert (filter (fun p => p.1 ∈ ids) (ps_misses st1) !! id = None) as ->; [|done]. apply map_lookup_filter_None. by left. }
    assert (at_addr s -> d = true -> 1 <= sent due l) as Hsent.
    { intros Ha Hdt. destruct (Hin Ha) as [Ho Hi]. apply list_elem_of_fmap in Hi as (w & Hw1 & Hw2). rewrite <- Hz in Hw2. apply list_elem_of_fmap in Hw2 as ([w' x] & -> & Hp). cbn [fst] in *.
      pose proof (Hzip _ Hp) as [Hp1 Hp2]. cbn [fst snd] in *. assert (we_address w' = addr) as Hwa by (apply Ho; [done|congruence]).
      apply (sent_in due l (w', x) Hp); cbn [fst]; [congruence|by rewrite Hwa|]. unfold probe_of. cbn [fst snd]. rewrite <- Hw1, Hwa. by apply Hd. }
    split; rewrite ?Hfl; try done.
    + destruct Hmi as [-> | ->]; lia.
    + pose proof (flying_nonneg any (ps_pending st)). destruct Hmi as [-> | ->]; lia.
    + intros Ho. apply A4. destruct Hmi as [Hmi|Hmi]; rewrite Hmi in Ho; lia.
    + pose proof (flying_nonneg due (ps_pending st)). assert (0 <= its_misses (ps_misses r.1)) by (destruct Hmi as [-> | ->]; lia). destruct Hat as [[Hn ->]|Hat]; [simpl; lia|].
      assert (Z.b2z d <= sent due l) as Hsd by (destruct d; [by apply Hsent|done]). destruct (Z.le_gt_cases n 0); [|rewrite (Hsame Hat) by lia]; lia.
    + destruct Hat as [[Hn ->]|Hat]; [left; simpl; lia|right; right; by apply Hlast].
Qed.

(** An answer that is not to one of its probes. *)
Definition not_its (r : ProbeReply) (st : ProbeState) : Prop :=
  forall b p, rp_branch r = Some b -> ps_pending st !! b = Some p -> 200 <= rp_status r -> pp_worker_id p <> id.
Lemma flying_others f i (p : gmap string PendingProbe) : i <> id -> flying f (filter (fun q => pp_worker_id q.2 <> i) p) = flying f p.
Proof.
  intros Hi. unfold flying. do 2 f_equal. apply map_eq. intros b. apply option_eq. intros q. rewrite !map_lookup_filter_Some. simpl. naive_solver.
Qed.
Lemma flying_own f (p : gmap string PendingProbe) : flying f (filter (fun q => pp_worker_id q.2 <> id) p) = 0.
Proof.
  unfold flying. assert (filter (fun q => pp_worker_id q.2 = id /\ f q.2 = true) (filter (fun q => pp_worker_id q.2 <> id) p) = ∅) as ->; [|done].
  apply map_eq. intros b. rewrite lookup_empty. apply map_lookup_filter_None. right. intros q Hq [Hx _]. apply map_lookup_filter_Some in Hq as [_ Hq]. done.
Qed.
Lemma replied n u st s r members now :
  1 <= hc_threshold config -> NoDup (map pr_ordinal members) -> (n <= 0 \/ not_its r st) -> watched n u st s ->
  let res := handle_reply iter port r members now st s in watched n u res.1.1 res.1.2 /\ (lists_at id host members -> at_addr s -> at_addr res.1.2).
Proof.
  intros Hth Hm Hn Hs. unfold handle_reply. destruct (Z.ltb_spec (rp_status r) 200) as [|Hst]; [done|]. destruct (rp_branch r) as [b|] eqn:Hb; [|done].
  destruct (ps_pending st !! b) as [p|] eqn:Hp; [|done]. destruct Hs as [A1 A2 A3 A4 A5 A6]. set (pend := filter (fun q => pp_worker_id q.2 <> pp_worker_id p) (delete b (ps_pending st))).
  pose proof (flying_nonneg any (ps_pending st)) as Hna. cbv zeta. destruct (decide (pp_worker_id p = id)) as [Hid|Hid].
  - destruct Hn as [Hn|Hn]; [|by destruct (Hn b p Hb Hp Hst)]. assert (forall f, flying f pend = 0) as Hf by (intros f; unfold pend; rewrite Hid; apply flying_own).
    destruct (still_at (pp_worker_id p) (pp_addr p) s); cbn [negb fst snd]; cycle 1.
    { split; [|done]. split; cbn [with_pending ps_misses ps_pending ps_last_addr]; fold pend; rewrite ?Hf; try done; lia. }
    assert (its_misses (<[pp_worker_id p := 0]> (ps_misses st)) = 0) as Hmi by (unfold its_misses; rewrite Hid; by rewrite lookup_insert_eq).
    split; [|intros Hl Ha; by apply at_set_view]. split; cbn [with_pending ps_misses ps_pending ps_last_addr]; fold pend; rewrite ?Hf, ?Hmi; try done; try lia; by apply fit_set_view.
  - assert (forall f, flying f pend = flying f (ps_pending st)) as Hf.
    { intros f. unfold pend. rewrite flying_others, (flying_delete f b p) by done. rewrite decide_False by tauto. lia. }
    destruct (still_at (pp_worker_id p) (pp_addr p) s); cbn [negb fst snd]; cycle 1.
    { split; [|done]. split; cbn [with_pending ps_misses ps_pending ps_last_addr]; fold pend; rewrite ?Hf; done. }
    assert (its_misses (<[pp_worker_id p := 0]> (ps_misses st)) = its_misses (ps_misses st)) as Hmi by (unfold its_misses; by rewrite lookup_insert_ne).
    split; [|intros Hl Ha; by apply at_set_view]. split; cbn [with_pending ps_misses ps_pending ps_last_addr]; fold pend; rewrite ?Hf, ?Hmi; try done; [by apply fit_set_view|].
    intros Ho. apply not_alive_set_view; [by left|by apply A4].
Qed.

(** ** Runs *)

Lemma latch_state l : lp_state (latch_settled l) = lp_state l.
Proof. unfold latch_settled. destruct (lp_first_round l); [|done]. by destruct (settled _ _). Qed.
(** What the transaction layer gives a round: a branch for each worker, none in
    use; and a listing that names a worker once. *)
Definition step_fits (ev : SysEvent * list Peer * Z) (st : Probe * WorkerSet) : Prop :=
  NoDup (map pr_ordinal ev.1.2) /\ match ev.1.1 with SProbe (PTick sends) => round_ok sends (lp_state st.1) st.2 | _ => True end.
(** A step in which the worker is listed at its host, and not heard. *)
Definition step_silent (ev : SysEvent * list Peer * Z) (st : Probe * WorkerSet) : Prop :=
  lists_at id host ev.1.2 /\ match ev.1.1 with SProbe (PReply r) => not_its r (lp_state st.1) | _ => True end.
Definition is_tick (ev : SysEvent * list Peer * Z) : bool := match ev.1.1 with SProbe (PTick _) => true | _ => false end.
(** A round all of whose probes had left by [t]. *)
Definition left_by (t : Z) (ev : SysEvent * list Peer * Z) : bool :=
  match ev.1.1 with SProbe (PTick sends) => forallb (fun x => x.2 <=? t) sends | _ => false end.
Lemma stepped n u st ev (d : bool) :
  1 <= hc_threshold config -> probeable addr = true -> 0 <= n -> u + Z.b2z (is_tick ev) < 2 ^ 32 -> step_fits ev st ->
  (n = 0 /\ d = false \/ at_addr st.2 /\ step_silent ev st) ->
  (d = true -> exists sends, ev.1.1 = SProbe (PTick sends) /\ forall x, x ∈ sends -> due (mkPending id addr (x.2 + hc_timeout_ms config)) = true) ->
  watched n u (lp_state st.1) st.2 ->
  let st' := sys_step iter port config probeable st ev in
  watched (n + Z.b2z d) (u + Z.b2z (is_tick ev)) (lp_state st'.1) st'.2 /\ (at_addr st.2 -> step_silent ev st -> at_addr st'.2).
Proof.
  destruct st as [l s], ev as [[[e|] members] now]; cbn [fst snd]; intros Hth Hpr Hn Hu [Hm Hr] Hcase Hd Hw; cbn [sys_step fst snd is_tick] in *.
  2: { assert (d = false) as -> by (destruct d; [by destruct (Hd eq_refl) as (? & ? & _)|done]). rewrite !Z.add_0_r. destruct Hw as [A1 A2 A3 A4 A5 A6]. split.
       - split; try done; [apply fit_recompose; [done|apply A1]|]. intros Ho. by apply not_alive_recompose, A4.
       - intros _ [Hl _]. apply at_recompose; [done|apply A1|done]. }
  assert (match e with PTick _ => True | _ => d = false end) as Hd0 by (destruct e; try done; destruct d; try done; by destruct (Hd eq_refl) as (? & ? & _)).
  unfold probe_step. rewrite ?latch_state. destruct e as [sends|r|b| |]; try subst d; cbn [Z.b2z] in *; rewrite ?Z.add_0_r in *.
  - pose proof (ticked n u _ s sends d Hpr Hw Hr) as Ht. rewrite Z.max_r in Ht by done. destruct (tick config probeable sends (lp_state l) s) as [st1 out] eqn:Etick. cbn [fst snd lp_state with_state] in *. split; [|done]. apply Ht.
    + destruct Hcase as [[-> ->]|[Ha _]]; [by left|by right].
    + intros Hdt. destruct (Hd Hdt) as (sends' & [= <-] & Hx). done.
  - pose proof (replied n u (lp_state l) s r members now Hth Hm) as Hx. cbv zeta in Hx. destruct (handle_reply iter port r members now (lp_state l) s) as [[st1 s1] out]. cbn [fst snd lp_state with_state] in *. destruct Hx as [H1 H2]; [|done|].
    + destruct Hcase as [[-> _]|[_ [_ Hs]]]; [left; lia|by right].
    + split; [done|]. intros Ha [Hl _]. by apply H2.
  - unfold txn_timeout. destruct (ps_pending (lp_state l) !! b) as [p|] eqn:Hb; [|by split].
    pose proof (missed n u (lp_state l) s b p members now ltac:(lia) Hm ltac:(destruct Hcase as [[-> _]|[? _]]; [left; lia|by right]) Hw Hb) as H1.
    pose proof (missed_at members now p (ps_misses (lp_state l)) s Hm) as H2. destruct (count_miss _ _ _ _ _ _ _ _) as [mi s1]. cbn [fst snd lp_state with_state] in *. split; [done|]. intros Ha [Hl _]. apply H2; [done|apply Hw|done].
  - destruct (reaped n u (lp_state l) s members now [] (expired now (lp_state l)) ltac:(lia) Hm ltac:(destruct Hcase as [[-> _]|[? [? _]]]; [left; lia|by right]) Hw) as (H1 & H2 & _). unfold reap.
    destruct (foldl _ _ _) as [[st1 s1] out]. cbn [fst snd lp_state with_state] in *. split; [done|]. intros Ha [Hl _]. by apply H2.
  - destruct (lp_first_round _); cbn [fst snd lp_state]; rewrite ?latch_state; by split.
Qed.
(** A predicate of each step, in the state it is taken in. *)
Fixpoint along (P : SysEvent * list Peer * Z -> Probe * WorkerSet -> Prop) (evs : list (SysEvent * list Peer * Z)) (st : Probe * WorkerSet) : Prop :=
  match evs with [] => True | ev :: evs => P ev st /\ along P evs (sys_step iter port config probeable st ev) end.
Definition counted (f : SysEvent * list Peer * Z -> bool) (evs : list (SysEvent * list Peer * Z)) : Z := Z.of_nat (length (List.filter f evs)).
Lemma counted_cons f ev evs : counted f (ev :: evs) = Z.b2z (f ev) + counted f evs.
Proof. unfold counted. cbn [List.filter]. destruct (f ev); cbn [length Z.b2z]; lia. Qed.
Lemma counted_app f l l' : counted f (l ++ l') = counted f l + counted f l'.
Proof. unfold counted. rewrite List.filter_app, length_app. lia. Qed.
Lemma counted_nonneg f evs : 0 <= counted f evs.
Proof. unfold counted. lia. Qed.
Lemma along_app P l l' st : along P (l ++ l') st <-> along P l st /\ along P l' (sys_run iter port config probeable l st).
Proof. revert st. induction l as [|ev l IH]; intros st; simpl; [tauto|]. rewrite IH. tauto. Qed.
(** A run in which the worker is silent, the rounds [d] holds of counted. *)
Lemma silent_run_watched n u st evs (d : SysEvent * list Peer * Z -> bool) :
  1 <= hc_threshold config -> probeable addr = true -> 0 <= n -> u + counted is_tick evs < 2 ^ 32 -> at_addr st.2 -> along step_fits evs st -> along step_silent evs st ->
  (forall ev, d ev = true -> exists sends, ev.1.1 = SProbe (PTick sends) /\ forall x, x ∈ sends -> due (mkPending id addr (x.2 + hc_timeout_ms config)) = true) ->
  watched n u (lp_state st.1) st.2 ->
  let st' := sys_run iter port config probeable evs st in
  watched (n + counted d evs) (u + counted is_tick evs) (lp_state st'.1) st'.2 /\ at_addr st'.2.
Proof.
  intros Hth Hpr. revert n u st. induction evs as [|ev evs IH]; intros n u st Hn Hu Ha Hf Hs Hd Hw; [unfold counted; simpl; by rewrite !Z.add_0_r|].
  rewrite !counted_cons in *. destruct Hf as [Hf1 Hf2], Hs as [Hs1 Hs2]. pose proof (counted_nonneg is_tick evs).
  assert (u + Z.b2z (is_tick ev) < 2 ^ 32) as Hu' by lia.
  destruct (stepped n u st ev (d ev) Hth Hpr Hn Hu' Hf1 ltac:(by right) (Hd ev) Hw) as [H1 H2]. cbv zeta in *. rewrite !Z.add_assoc.
  assert (0 <= Z.b2z (d ev)) by (destruct (d ev); simpl; lia). apply (IH (n + Z.b2z (d ev)) (u + Z.b2z (is_tick ev)) (sys_step iter port config probeable st ev)); [lia|lia|by apply H2|done..].
Qed.
(** Any run. *)
Lemma run_watched u st evs :
  1 <= hc_threshold config -> probeable addr = true -> u + counted is_tick evs < 2 ^ 32 -> along step_fits evs st ->
  watched 0 u (lp_state st.1) st.2 ->
  let st' := sys_run iter port config probeable evs st in watched 0 (u + counted is_tick evs) (lp_state st'.1) st'.2.
Proof.
  intros Hth Hpr. revert u st. induction evs as [|ev evs IH]; intros u st Hu Hf Hw; [unfold counted; simpl; by rewrite Z.add_0_r|].
  rewrite counted_cons in *. destruct Hf as [Hf1 Hf2]. pose proof (counted_nonneg is_tick evs).
  assert (u + Z.b2z (is_tick ev) < 2 ^ 32) as Hu' by lia.
  destruct (stepped 0 u st ev false Hth Hpr ltac:(lia) Hu' Hf1 ltac:(by left) ltac:(done) Hw) as [H1 _]. cbv zeta in *. rewrite !Z.add_assoc.
  apply (IH (u + Z.b2z (is_tick ev)) (sys_step iter port config probeable st ev)); [lia|done|exact H1].
Qed.
End silent.
(** ** An answer makes a worker alive *)

Section system.
Context (iter : Annots -> list (string * Annot)) (port : Z) (config : HealthProbeConfig) (probeable : ProxyAddr -> bool).
Notation sys_step := (sys_step iter port config probeable).
Notation sys_run := (sys_run iter port config probeable).

(** A final answer, not a refusal to serve, to a probe sent to the worker's
    host. *)
Definition heard_at (id host : string) (st : Probe * WorkerSet) (ev : SysEvent * list Peer * Z) : Prop :=
  exists r b p members now, ev = (SProbe (PReply r), members, now) /\ rp_branch r = Some b /\ ps_pending (lp_state st.1) !! b = Some p /\
    pp_worker_id p = id /\ pa_host (pp_addr p) = host /\ 200 <= rp_status r /\ rp_status r <> 503.
Definition listed_at (id host : string) (ev : SysEvent * list Peer * Z) : Prop :=
  match ev with (SFollow, members, _) => lists_at id host members | _ => True end.

(** What a step of the probe writes: dead verdicts, or the view of an answer. *)
Definition dead_op (members : list Peer) (now : Z) (o : RegOp * Z) : Prop := exists i, o = (OpView i (Some Dead) None members, now).
Lemma count_miss_ops members now p misses s :
  exists ops, (count_miss iter port config members now p misses s).2 = reg_run iter port ops s /\ Forall (dead_op members now) ops.
Proof.
  unfold count_miss. destruct (still_at _ _ s); [|by exists []]. simpl. destruct (hc_threshold config <=? _); [|by exists []].
  exists [(OpView (pp_worker_id p) (Some Dead) None members, now)]. split; [done|]. constructor; [by eexists|constructor].
Qed.
Lemma reg_run_app ops ops' s : reg_run iter port (ops ++ ops') s = reg_run iter port ops' (reg_run iter port ops s).
Proof. unfold reg_run. by rewrite foldl_app. Qed.
Lemma reap_ops members now st s out bs :
  exists ops, (foldl (reap_one iter port config members now) (st, s, out) bs).1.2 = reg_run iter port ops s /\ Forall (dead_op members now) ops.
Proof.
  revert st s out. induction bs as [|b bs IH]; intros st s out; [by exists []|]. cbn [foldl]. unfold reap_one at 2.
  destruct (ps_pending st !! b) as [p|]; [|apply IH]. destruct (count_miss_ops members now p (ps_misses st) s) as (ops & H1 & H2).
  destruct (count_miss iter port config members now p (ps_misses st) s) as [misses s1]. simpl in H1. subst s1.
  destruct (IH (with_misses misses (with_pending (delete b (ps_pending st)) st)) (reg_run iter port ops s) (out ++ [CancelProbe b])) as (ops' & H3 & H4).
  exists (ops ++ ops'). rewrite reg_run_app, H3. split; [done|]. by apply Forall_app.
Qed.
Lemma reply_view r members now st s :
  let res := handle_reply iter port r members now st s in
  res.1.2 = s \/
  exists b p h a, rp_branch r = Some b /\ ps_pending st !! b = Some p /\ 200 <= rp_status r /\ still_at (pp_worker_id p) (pp_addr p) s = true /\
    (h = Some Alive -> rp_status r <> 503) /\ res.1.2 = set_view iter port (pp_worker_id p) h a members now s.
Proof.
  unfold handle_reply. destruct (Z.ltb_spec (rp_status r) 200) as [|Hst]; [by left|]. destruct (rp_branch r) as [b|]; [|by left].
  destruct (ps_pending st !! b) as [p|] eqn:Hp; [|by left]. cbv zeta. destruct (still_at (pp_worker_id p) (pp_addr p) s) eqn:Hat; [|by left]. right.
  exists b, p. eexists _, _. split_and!; try done. unfold read_answer. destruct (Z.eqb_spec (rp_status r) 200); [lia|].
  destruct (Z.eqb_spec (rp_status r) 503) as [|Hn]; [|done]. simpl. destruct (match rp_incarnation r with Some _ => _ | None => _ end); done.
Qed.

(** Alive after operations that wrote no worker alive: alive before them. *)
Lemma alive_ops ops s id rec :
  Forall (fun o => ~ wrote_alive id (an_host rec) o) ops -> ws_annots (reg_run iter port ops s) !! id = Some rec -> an_health rec = Alive ->
  exists rec', ws_annots s !! id = Some rec' /\ an_health rec' = Alive /\ an_host rec' = an_host rec.
Proof.
  revert rec. induction ops as [|o ops IH] using rev_ind; intros rec Hf Hr Ha; [by exists rec|]. apply Forall_app in Hf as [Hf Ho].
  inversion Ho as [|? ? Hno _]; subst. unfold reg_run in Hr. rewrite foldl_snoc in Hr. fold (reg_run iter port ops s) in Hr.
  destruct (alive_step iter port _ _ _ _ Hr Ha) as [_ [Hw|(r & H1 & H2 & H3)]]; [done|]. rewrite <- H3 in Hf.
  destruct (IH r Hf H1 H2) as (r' & H4 & H5 & H6). exists r'. by rewrite H6, H3.
Qed.
Lemma dead_op_not_alive members now id host ops : Forall (dead_op members now) ops -> Forall (fun o => ~ wrote_alive id host o) ops.
Proof. intros H. eapply Forall_impl; [exact H|]. intros o [i ->]. by intros ?. Qed.

(** The pool's entries and its overlay agree on hosts. *)
Definition same_hosts (s : WorkerSet) : Prop := forall id w, resolve id s = Some w -> exists r, ws_annots s !! id = Some r /\ an_host r = pa_host (we_address w).
Lemma recompose_hosts members now s : NoDup (map pr_ordinal members) -> same_hosts (recompose iter port members now s).
Proof.
  intros Hm id w Hw. destruct (in_step_resolve iter port members Hm _ _ _ _ Hw) as (p & r & _ & _ & -> & Hh & Hr). exists r. split; [done|]. by rewrite Hh.
Qed.
Lemma set_view_hosts i h a members now s : NoDup (map pr_ordinal members) -> same_hosts (set_view iter port i h a members now s).
Proof.
  intros Hm. unfold set_view. destruct (annots_set_view iter i h a (ws_annots s)) as [td recs].
  pose proof (recompose_hosts members now (mkSet recs (ws_tombs s) (ws_projection s) (ws_listed s) (ws_verdicts s)) Hm) as H. by destruct td.
Qed.
Lemma dead_ops_hosts members now ops s : NoDup (map pr_ordinal members) -> Forall (dead_op members now) ops -> same_hosts s -> same_hosts (reg_run iter port ops s).
Proof.
  intros Hm Hf. revert s. induction Hf as [|o ops [i ->] _ IH]; intros s Hs; [done|]. simpl. apply IH. by apply set_view_hosts.
Qed.

(** One event: the worker was alive before it at its host, or was just heard. *)
Lemma sys_alive_step st ev id rec :
  NoDup (map pr_ordinal ev.1.2) -> same_hosts st.2 -> ws_annots (sys_step st ev).2 !! id = Some rec -> an_health rec = Alive ->
  same_hosts (sys_step st ev).2 /\
  ((heard_at id (an_host rec) st ev \/
    exists rec', ws_annots st.2 !! id = Some rec' /\ an_health rec' = Alive /\ an_host rec' = an_host rec) /\ listed_at id (an_host rec) ev).
Proof.
  destruct st as [l s], ev as [[[e|] members] now]; cbn [fst snd sys_step]; intros Hm Hh Hr Ha.
  - assert (forall ops, Forall (dead_op members now) ops -> ws_annots (reg_run iter port ops s) !! id = Some rec ->
      exists rec', ws_annots s !! id = Some rec' /\ an_health rec' = Alive /\ an_host rec' = an_host rec) as Hd.
    { intros ops Hf Hr'. apply (alive_ops ops); [by eapply dead_op_not_alive|done|done]. }
    unfold probe_step in *. rewrite latch_state in *. destruct e as [branches|r|b| |].
    + destruct (tick _ _ _ _ _) as [st' out]. simpl in *. split; [done|]. split; [right; by exists rec|done].
    + pose proof (reply_view r members now (lp_state l) s) as Hv. cbv zeta in Hv. destruct (handle_reply iter port r members now (lp_state l) s) as [[st' s'] out].
      cbn [fst snd] in *. destruct Hv as [->|(b & p & h & a & Hb & Hp & Hst & Hat & H503 & ->)]; [split; [done|]; split; [right; by exists rec|done]|].
      split; [by apply set_view_hosts|]. split; [|done]. rewrite set_view_annots in Hr. apply annots_after_known in Hr as (Hr & _); [|by rewrite Ha].
      destruct (view_alive iter (pp_worker_id p) h a (ws_annots s) id rec Hr Ha) as [[-> ->]|H]; [left|by right].
      unfold still_at in Hat. destruct (resolve (pp_worker_id p) s) as [w|] eqn:Hw; [|done]. apply bool_decide_eq_true in Hat.
      destruct (Hh _ _ Hw) as (r0 & Hr0 & Hr1).
      assert (an_host rec = an_host r0) as Hhost.
      { destruct (annots_set_view iter (pp_worker_id p) (Some Alive) a (ws_annots s)) as [td recs] eqn:Hsv. simpl in Hr.
        unfold annots_set_view in Hsv. rewrite Hr0 in Hsv. destruct (_ && _) in Hsv; injection Hsv as _ <-; [congruence|].
        apply forget_lookup in Hr as (r1 & H1 & H2 & _). rewrite lookup_insert_eq in H1. injection H1 as <-. done. }
      exists r, b, p, members, now. split_and!; try done; [by rewrite Hhost, Hr1, Hat|by apply H503].
    + unfold txn_timeout in *. destruct (ps_pending (lp_state l) !! b) as [p|]; [|split; [done|]; split; [right; by exists rec|done]].
      destruct (count_miss_ops members now p (ps_misses (lp_state l)) s) as (ops & H1 & H2).
      destruct (count_miss _ _ _ _ _ _ _ _) as [mi s']. cbn [fst snd] in *. subst s'. split; [by eapply dead_ops_hosts|]. split; [right; by apply (Hd ops)|done].
    + destruct (reap_ops members now (lp_state l) s [] (expired now (lp_state l))) as (ops & H1 & H2). unfold reap in *.
      destruct (foldl _ _ _) as [[st' s'] out]. cbn [fst snd] in *. subst s'. split; [by eapply dead_ops_hosts|]. split; [right; by apply (Hd ops)|done].
    + destruct (lp_first_round _); cbn [fst snd] in *; (split; [done|]; split; [right; by exists rec|done]).
  - split; [by apply recompose_hosts|]. destruct (alive_step iter port s (OpRecompose members, now) id rec Hr Ha) as [Hk [Hw|Hx]]; [done|].
    split; [by right|exact Hk].
Qed.
End system.

(** ** Front proxy: the health probe's theorems *)

Lemma sys_same_hosts iter port config probeable evs st :
  Forall (fun ev => NoDup (map pr_ordinal ev.1.2)) evs -> same_hosts st.2 -> same_hosts (sys_run iter port config probeable evs st).2.
Proof.
  revert st. induction evs as [|ev evs IH]; intros st Hm Hs; [done|]. inversion Hm as [|? ? H1 H2]; subst. simpl. apply IH; [done|].
  destruct st as [l s], ev as [[[e|] members] now]; simpl in *; [|by apply recompose_hosts].
  unfold probe_step. rewrite latch_state. destruct e as [branches|r|b| |].
  - by destruct (tick _ _ _ _ _).
  - pose proof (reply_view iter port r members now (lp_state l) s) as Hv. cbv zeta in Hv. destruct (handle_reply _ _ _ _ _ _ _) as [[st' s'] out]. simpl in *.
    destruct Hv as [->|(b & p & h & a & _ & _ & _ & _ & _ & ->)]; [done|by apply set_view_hosts].
  - unfold txn_timeout. destruct (ps_pending _ !! b) as [p|]; [|done].
    destruct (count_miss_ops iter port config members now p (ps_misses (lp_state l)) s) as (ops & E1 & E2).
    destruct (count_miss _ _ _ _ _ _ _ _) as [mi s']. simpl in *. subst s'. by eapply dead_ops_hosts.
  - destruct (reap_ops iter port config members now (lp_state l) s [] (expired now (lp_state l))) as (ops & E1 & E2). unfold reap.
    destruct (foldl _ _ _) as [[st' s'] out]. simpl in *. subst s'. by eapply dead_ops_hosts.
  - by destruct (lp_first_round _).
Qed.

(** ** A probe to run *)

Definition ex_alive_set : WorkerSet :=
  set_view ex_iter 5060 "w1" (Some Alive) None ex_members 6 (set_view ex_iter 5060 "w0" (Some Alive) None ex_members 5 ex_set).
Definition ex_loop : Probe := mkLoop no_probe None true None.
(** Two workers probed every second, [w1] answers and [w0] does not; the windows
    are reaped as they end, and the rounds go on. *)
Definition ex_ping (t : Z) (b1 b2 : string) : SysEvent * list Peer * Z := (SProbe (PTick [(b1, t); (b2, t)]), ex_members, t).
Definition ex_pong (t : Z) (b : string) : SysEvent * list Peer * Z := (SProbe (PReply (mkReply 200 (Some b) None None false)), ex_members, t).
Definition ex_reap (t : Z) : SysEvent * list Peer * Z := (SProbe PReap, ex_members, t).
Definition ex_before : list (SysEvent * list Peer * Z) := [ex_ping 1000 "a1" "a2"; ex_pong 1010 "a1"; ex_pong 1011 "a2"].
Definition ex_silence : list (SysEvent * list Peer * Z) := [ex_ping 2000 "b1" "b2"; ex_pong 2010 "b2"; ex_ping 3000 "c1" "c2"; ex_pong 3010 "c2"; ex_reap 3601; ex_ping 4000 "d1" "d2"].
Definition ex_later : list (SysEvent * list Peer * Z) := [(SFollow, ex_members, 4700); ex_ping 5000 "e1" "e2"].

(** ** Theorems *)

(** The worker's probes that had to be answered by [t]. *)
Definition due_by (port : Z) (host : string) (t : Z) (p : PendingProbe) : bool := bool_decide (pp_addr p = addr port host) && (pp_window_ends p <=? t).
Lemma watched_start iter port config id host due members0 now0 l0 :
  NoDup (map pr_ordinal members0) -> lp_state l0 = no_probe -> 1 <= hc_threshold config ->
  watched port config id host due 0 0 (lp_state l0) (new_set iter port members0 now0).
Proof.
  intros Hm Hl Hth. rewrite Hl. split.
  - apply fit_recompose; [done|]. intros i r Hr. cbn [ws_annots] in Hr. by rewrite lookup_empty in Hr.
  - done.
  - done.
  - unfold its_misses, no_probe. cbn [ps_misses]. rewrite lookup_empty. cbn. lia.
  - done.
  - by left.
Qed.
(** The windows that ended by a reap are counted. *)
Lemma reap_counts iter port config id host n u t st s members now :
  u < 2 ^ 32 -> NoDup (map pr_ordinal members) -> at_addr port id host s -> lists_at id host members -> t < now ->
  watched port config id host (due_by port host t) n u st s ->
  let r := reap iter port config members now st s in watched port config id host (fun _ => false) n u r.1.1 r.1.2 /\ at_addr port id host r.1.2.
Proof.
  intros Hu Hm Ha Hl Ht Hw.
  destruct (reaped iter port config id host (due_by port host t) ltac:(intros p [Hp _]%andb_true_iff; by apply bool_decide_eq_true in Hp) n u st s members now [] (expired now st) Hu Hm ltac:(by right) Hw) as (H1 & H2 & H3).
  unfold reap. set (r := foldl _ _ _) in *. split; [|by apply H2]. destruct H1 as [A1 A2 A3 A4 A5 A6]. split; try done.
  assert (flying id (due_by port host t) (ps_pending r.1.1) = 0) as Hz; [|unfold flying; rewrite Hz in A5; assert (filter (fun q => pp_worker_id q.2 = id /\ false = true) (ps_pending r.1.1) = ∅) as ->; [|simpl; lia]].
  - unfold flying. assert (filter (fun q => pp_worker_id q.2 = id /\ due_by port host t q.2 = true) (ps_pending r.1.1) = ∅) as ->; [|done]. apply map_eq. intros b. rewrite lookup_empty. apply map_lookup_filter_None. right.
    intros p Hp [_ Hdue]. rewrite H3 in Hp. destruct (decide (b ∈ expired now st)) as [|Hnot]; [done|]. apply Hnot. unfold expired. apply list_elem_of_fmap. exists (b, p). split; [done|].
    apply list_elem_of_filter. split; [|by apply elem_of_map_to_list]. simpl in *. apply andb_true_iff in Hdue as [_ Hdue]. lia.
  - apply map_eq. intros b. rewrite lookup_empty. apply map_lookup_filter_None. right. by intros p _ [_ ?].
Qed.

(** C37: a silent worker is read as not alive within the bound the configuration
    states.  In any run of the probe and of the membership's follower over one
    registry, each taking its steps whole: let a worker be registered at an
    address that can be probed, stay listed there, and answer none of its probes
    from some point on, whatever else happens: answers of other workers, their
    coming and going, timeouts, reaps and rounds at any instants.  Once the
    threshold of rounds, one at least, has left, the first at [t0] and the others
    within one interval less than that many of it, a reap at [verdict_after_first_miss] after [t0] or later
    has it read as not alive, and it is still so after any further such events.
    Over fewer than 2^32 rounds, each drawing fresh branches.  Two writes of the
    registry that overlap are outside of this: the one published last may be the
    older. *)
Theorem silent_worker_not_alive iter port config probeable members0 now0 l0 id host pre evs members now later t0 :
  NoDup (map pr_ordinal members0) -> lp_state l0 = no_probe -> 1 <= hc_threshold config -> probeable (addr port host) = true ->
  let run := sys_run iter port config probeable in
  let st0 := (l0, new_set iter port members0 now0) in
  let silence := evs ++ (SProbe PReap, members, now) :: later in
  along iter port config probeable step_fits (pre ++ silence) st0 -> counted is_tick (pre ++ silence) < 2 ^ 32 ->
  at_addr port id host (run pre st0).2 -> along iter port config probeable (step_silent id host) silence (run pre st0) ->
  hc_threshold config <= counted (left_by (t0 + period config * (hc_threshold config - 1))) evs -> t0 + verdict_after_first_miss config <= now ->
  exists w, resolve id (run (pre ++ silence) st0).2 = Some w /\ we_address w = addr port host /\ is_alive w = false.
Proof.
  intros Hm Hl0 Hth Hpr run st0 silence Hfit Hcount Hat Hsil Hrounds Hnow. subst silence. set (tmax := t0 + period config * (hc_threshold config - 1)) in *.
  apply along_app in Hfit as [Hf1 Hf2]. apply along_app in Hf2 as [Hf2 [[Hf3 _] Hf4]]. apply along_app in Hsil as [Hs1 [[Hs2 _] Hs3]]. cbn [fst snd] in Hf3, Hs2.
  rewrite counted_app, counted_app, counted_cons in Hcount. cbn [is_tick fst Z.b2z] in Hcount. pose proof (counted_nonneg is_tick pre) as C1. pose proof (counted_nonneg is_tick evs) as C2. pose proof (counted_nonneg is_tick later) as C3.
  set (due := due_by port host (tmax + hc_timeout_ms config)). assert (forall p, due p = true -> pp_addr p = addr port host) as Hdue by (intros p [Hp _]%andb_true_iff; by apply bool_decide_eq_true in Hp).
  pose proof (run_watched iter port config probeable id host due Hdue 0 st0 pre Hth Hpr ltac:(lia) Hf1 (watched_start iter port config id host due members0 now0 l0 Hm Hl0 Hth)) as W1. cbv zeta in W1. rewrite Z.add_0_l in W1.
  destruct (silent_run_watched iter port config probeable id host due Hdue 0 (counted is_tick pre) (run pre st0) evs (left_by tmax) Hth Hpr ltac:(lia) ltac:(lia) Hat Hf2 Hs1) as [W2 A2]; [|exact W1|].
  { intros [[e ms] n0] He. unfold left_by in He. cbn [fst] in *. destruct e as [[sends| | | |]|]; try done. exists sends. split; [done|]. intros x Hx. rewrite forallb_forall in He. specialize (He x (proj1 (list_elem_of_In _ _) Hx)).
    unfold due, due_by. cbn [pp_addr pp_window_ends]. rewrite bool_decide_true by done. cbn [andb]. apply Z.leb_le. apply Z.leb_le in He. lia. }
  cbv zeta in W2, A2. set (st1 := sys_run iter port config probeable evs (run pre st0)) in *. destruct (reap_counts iter port config id host (0 + counted (left_by tmax) evs) (counted is_tick pre + counted is_tick evs) (tmax + hc_timeout_ms config) (lp_state st1.1) st1.2 members now ltac:(lia) Hf3 A2 Hs2 ltac:(unfold verdict_after_first_miss, REAP_PAST_WINDOW in Hnow; rewrite (Z.max_r 0) in Hnow by lia; lia) W2) as [W3 A3].
  set (st2 := sys_step iter port config probeable st1 (SProbe PReap, members, now)) in *.
  assert (lp_state st2.1 = (reap iter port config members now (lp_state st1.1) st1.2).1.1 /\ st2.2 = (reap iter port config members now (lp_state st1.1) st1.2).1.2) as [E1 E2].
  { unfold st2. cbn [sys_step]. unfold probe_step. rewrite latch_state. by destruct (reap _ _ _ _ _ _ _) as [[x y] z]. }
  rewrite <- E1, <- E2 in W3. rewrite <- E2 in A3.
  destruct (silent_run_watched iter port config probeable id host (fun _ => false) ltac:(done) (0 + counted (left_by tmax) evs) (counted is_tick pre + counted is_tick evs) st2 later (fun _ => false) Hth Hpr ltac:(pose proof (counted_nonneg (left_by tmax) evs); lia) ltac:(lia) A3 Hf4 Hs3 ltac:(done) W3) as [W4 A4].
  cbv zeta in W4, A4. unfold run, sys_run. rewrite foldl_app, foldl_app. cbn [foldl]. fold (sys_run iter port config probeable pre st0). fold (run pre st0). fold (sys_run iter port config probeable evs (run pre st0)). fold st1. fold st2. fold (sys_run iter port config probeable later st2).
  destruct A4 as (w & Hw & Hwa). exists w. split; [done|]. split; [done|]. eapply not_alive_read; [apply W4| |exact Hw]. apply (wt_over _ _ _ _ _ _ _ _ _ W4).
  pose proof (wt_count _ _ _ _ _ _ _ _ _ W4) as Hc. pose proof (counted_nonneg (fun _ => false) later). assert (flying id (fun _ => false) (ps_pending (lp_state (sys_run iter port config probeable later st2).1)) = 0) as Hz; [|lia].
  unfold flying. assert (filter (fun q => pp_worker_id q.2 = id /\ false = true) (ps_pending (lp_state (sys_run iter port config probeable later st2).1)) = ∅) as ->; [|done]. apply map_eq. intros b. rewrite lookup_empty. apply map_lookup_filter_None. right. by intros p _ [_ ?].
Qed.
Lemma silent_worker_not_alive_witness :
  exists w, resolve "w0" (sys_run ex_iter 5060 default_probe_config (fun _ => true) (ex_before ++ ex_silence ++ ex_reap 4601 :: ex_later) (ex_loop, new_set ex_iter 5060 ex_members 0)).2 = Some w /\
    we_address w = mkAddr "10.0.0.1" 5060 /\ is_alive w = false.
Proof.
  apply (silent_worker_not_alive ex_iter 5060 default_probe_config (fun _ => true) ex_members 0 ex_loop "w0" "10.0.0.1" ex_before ex_silence ex_members 4601 ex_later 2000).
  - apply (bool_decide_unpack _). vm_compute. exact I.
  - reflexivity.
  - vm_compute. discriminate.
  - reflexivity.
  - repeat (split; [split; [apply (bool_decide_unpack _); vm_compute; exact I|]|]); try exact I; cbn [fst];
      (split; [apply (bool_decide_unpack _); vm_compute; exact I|split; [apply (bool_decide_unpack _); vm_compute; exact I|vm_compute; lia]]).
  - vm_compute. reflexivity.
  - eexists. split; vm_compute; reflexivity.
  - assert (lists_at "w0" "10.0.0.1" ex_members) as Hl by (split; [apply (bool_decide_unpack _); vm_compute; exact I|]; intros p Hp; vm_compute in Hp; repeat (apply elem_of_cons in Hp as [->|Hp]; [by vm_compute|]); by apply elem_of_nil in Hp).
    repeat (split; [split; [exact Hl|]|]); try exact I; intros b p Hb Hp _; injection Hb as <-; vm_compute in Hp; injection Hp as <-; discriminate.
  - vm_compute. discriminate.
  - vm_compute. discriminate.
Defined.

(** C35: a worker is read alive only where it was heard.  Over any events of the
    probe and of the membership's follower, from a registry just built: a worker
    the overlay reads alive answered, with a final that was no refusal to serve,
    a probe that had been sent to the host it is at, and every listing followed
    since then had it ready at that host.  An answer that came from the host it
    has left, that names no probe in flight, or that is provisional, makes it
    alive nowhere. *)
Theorem alive_was_heard iter port config probeable members0 now0 l0 evs id rec :
  NoDup (map pr_ordinal members0) -> Forall (fun ev => NoDup (map pr_ordinal ev.1.2)) evs ->
  let st0 := (l0, new_set iter port members0 now0) in
  ws_annots (sys_run iter port config probeable evs st0).2 !! id = Some rec -> an_health rec = Alive ->
  exists pre ev post, evs = pre ++ ev :: post /\ heard_at id (an_host rec) (sys_run iter port config probeable pre st0) ev /\
    Forall (listed_at id (an_host rec)) (ev :: post).
Proof.
  intros Hm0 Hm st0. assert (same_hosts st0.2) as Hh0 by (by apply recompose_hosts). revert rec.
  induction evs as [|ev evs IH] using rev_ind; intros rec Hr Ha.
  { exfalso. unfold st0, new_set in Hr. cbn [sys_run foldl snd] in Hr. rewrite recompose_annots in Hr. apply annots_after_known in Hr as (Hr & _); [|by rewrite Ha].
    simpl in Hr. by rewrite lookup_empty in Hr. }
  apply Forall_app in Hm as [Hm Hev]. inversion Hev as [|? ? Hev1 _]; subst.
  unfold sys_run in Hr. rewrite foldl_snoc in Hr. fold (sys_run iter port config probeable evs st0) in Hr.
  destruct (sys_alive_step iter port config probeable _ ev id rec Hev1 (sys_same_hosts _ _ _ _ evs st0 Hm Hh0) Hr Ha) as (_ & [Hheard|(rec' & H1 & H2 & H3)] & Hl).
  - exists evs, ev, []. split; [done|]. split; [done|by repeat constructor].
  - destruct (IH Hm rec' H1 H2) as (pre & ev' & post & -> & Hheard & HF). rewrite H3 in *. exists pre, ev', (post ++ [ev]).
    rewrite <- app_assoc. split; [done|]. split; [done|]. inversion HF; subst. constructor; [done|]. apply Forall_app. split; [done|by repeat constructor].
Qed.
Definition ex_heard : list (SysEvent * list Peer * Z) :=
  [(SProbe (PTick [("b1", 1000); ("b2", 1000)]), ex_members, 1000); (SProbe (PReply (mkReply 200 (Some "b1") None None false)), ex_members, 1010); (SFollow, ex_members, 1500)].
Lemma alive_was_heard_witness :
  exists pre ev post, ex_heard = pre ++ ev :: post /\
    heard_at "w0" "10.0.0.1" (sys_run ex_iter 5060 default_probe_config (fun _ => true) pre (ex_loop, ex_set)) ev /\
    Forall (listed_at "w0" "10.0.0.1") (ev :: post).
Proof.
  apply (alive_was_heard ex_iter 5060 default_probe_config (fun _ => true) ex_members 0 ex_loop ex_heard "w0" (mkAnnot Alive Accept "10.0.0.1" None));
    [apply (bool_decide_unpack _); vm_compute; exact I|apply (bool_decide_unpack _); vm_compute; exact I|vm_compute; reflexivity|reflexivity].
Defined.
