(* ===== verification/ProxyMsg.v ===== *)
(** * Front proxy: the messages it reads and writes

    What the core reads of a request and of a response, the entries it records
    on them ([crates/sip-proxy/src/headers.rs]) and the branch it derives
    ([branch.rs]).  SHA-256 and the rendering of a Via and of a URI are
    parameters. *)

From S2P Require Import Prelude Texts TxnData ProxyTypes BranchMemo LoadBalancer SipHops.
From stdpp Require Import pretty.
From Stdlib Require Import Ascii.

Open Scope Z_scope.

Record Req := mkReq {
  q_method : Method;
  q_uri : SipUri;
  q_via : ViaHop; (** the topmost *)
  q_vias_below : list ViaHop;
  q_from_tag : option string;
  q_to_tag : option string;
  q_call_id : string;
  q_cseq : Z;
  q_max_forwards : option Z; (** [None] when absent or unreadable *)
  q_proxy_require : list string; (** empty when absent or unreadable *)
  q_routes : option (list SipUri); (** [None] when a Route does not read *)
  q_record_routes : list SipUri;
  q_headers : list (string * string);
}.

Record Resp := mkResp {
  p_status : Z;
  p_vias : list ViaHop;
  p_method : Method; (** of its CSeq *)
  p_cseq : Z;
  p_from_tag : option string;
  p_to_tag : option string;
  p_call_id : string;
  p_record_routes : option (list SipUri);
}.

(** What the keys of the memo, the strategy and the emergency reading read. *)
Definition hop_via (h : ViaHop) : Via := mkVia (hp_host (hop_sent_by h)) (hp_port (hop_sent_by h)) (hop_branch h) None None None.
Definition as_request (q : Req) : SipRequest :=
  mkRequest (q_method q) (hop_via (q_via q)) (q_from_tag q) (q_to_tag q) (q_call_id q) (q_cseq q)
    (mkUri (hp_host (u_authority (q_uri q))) (hp_port (u_authority (q_uri q))) (is_loose_route (q_uri q)))
    None None None (q_headers q) "".
Definition as_response (p : Resp) : SipResponse :=
  mkResponse (p_status p) (match p_vias p with h :: _ => hop_via h | [] => mkVia "" None None None None None end)
    (p_method p) (p_cseq p) (p_from_tag p) (p_to_tag p) (p_call_id p) None false "".
Notation req_msg q := (Request (as_request q)).
Notation resp_msg p := (Response (as_response p)).

(** [top_via_branch] of [core/request/mod.rs]; [is_dialog_creating] of
    [core/mod.rs]. *)
Definition top_via_branch (q : Req) : option string := filled (hop_branch (q_via q)).
Definition is_dialog_creating (m : Method) : bool := bool_decide (m = MInvite) || bool_decide (m = MSubscribe).

(** ** [headers.rs] *)

Definition collect_params (l : ParamList) : RouteParams :=
  foldl (fun acc p => rp_insert (lower p.1) (default ""%string (param_text p.2)) acc) [] l.
Definition cookie_params (u : SipUri) : RouteParams := collect_params (u_params u).
Definition via_cookie_params (h : ViaHop) : RouteParams := collect_params (hop_params h).

Definition entry_params (params : RouteParams) (u : SipUri) : SipUri :=
  foldl (fun u p => uri_with_param p.1 (if String.eqb p.2 "" then PFlag else text_value p.2) u) u params.
Definition entry (advertised : ProxyAddr) (params : RouteParams) (flag : option string) : SipUri :=
  let u := entry_params params (uri_sip (pa_host advertised) (pa_port advertised)) in
  uri_with_flag "lr" (match flag with Some f => uri_with_flag f u | None => u end).
Definition record_route (advertised : ProxyAddr) (params : RouteParams) : SipUri := entry advertised params None.
Definition record_route_flagged (advertised : ProxyAddr) (params : RouteParams) (flag : string) : SipUri := entry advertised params (Some flag).

Definition via_with_cookie (h : ViaHop) (cookie : option RouteParams) : ViaHop :=
  foldl (fun h p => match hop_param p.1 h with Some _ => h | None => with_param p.1 (text_value p.2) h end) h (default [] cookie).
Definition route_target (u : SipUri) : ProxyAddr := host_port u.

Section stated.
Context `{TextEnv}.
Definition stated (worker_via : ViaHop) (name : string) : string := default ""%string (decode_param <$> params_value name (hop_params worker_via)).
Definition stated_owners (worker_via : ViaHop) : StatedOwners := mkStated (stated worker_via "pri") (stated worker_via "bak").
Definition states_primary (worker_via : ViaHop) : bool := negb (String.eqb (stated worker_via "pri") "").
End stated.

(** ** [branch.rs] *)

Class BranchEnv := {
  sha256 : string -> list Z;
  via_wire : ViaHop -> string;
  uri_text : SipUri -> string;
}.
Definition NUL : ascii := ascii_of_nat 0.
Definition field (v : string) : string := (v +:+ String NUL "")%string.
Definition hex2 (b : Z) : string := String (hex_digit (Z.to_nat (b / 16))) (String (hex_digit (Z.to_nat (b mod 16))) "").
Section branch.
Context `{BranchEnv}.
(** The text hashed. *)
Definition branch_input (q : Req) : string :=
  let top := q_via q in
  ((match hop_branch top with
    | Some b =>
        if String.prefix BRANCH_MAGIC_COOKIE b
        then field "b" +:+ field b +:+ field (write_canonical (hp_host (hop_sent_by top)) (hp_port (hop_sent_by top)))
        else field "v" +:+ field (via_wire top) +:+ field (default "" (q_to_tag q)) +:+ field (uri_text (q_uri q))
    | None => field "v" +:+ field (via_wire top) +:+ field (default "" (q_to_tag q)) +:+ field (uri_text (q_uri q))
    end) +:+ field (q_call_id q) +:+ field (default "" (q_from_tag q)) +:+ field (pretty (q_cseq q)))%string.
Definition stateless_branch (q : Req) : string :=
  (BRANCH_MAGIC_COOKIE +:+ foldr (fun b s => hex2 b +:+ s) "" (take 8 (sha256 (branch_input q))))%string.
End branch.

(** ** The transaction a request belongs to *)

(** The fields the memo keys and the branch are functions of: a retransmission,
    the CANCEL and the non-2xx ACK of a request repeat them. *)
Definition same_transaction (q r : Req) : Prop :=
  hop_branch (q_via q) = hop_branch (q_via r) /\ hop_sent_by (q_via q) = hop_sent_by (q_via r) /\
  q_call_id q = q_call_id r /\ q_from_tag q = q_from_tag r /\ q_cseq q = q_cseq r.
Definition cookied (q : Req) : Prop := exists b, hop_branch (q_via q) = Some b /\ String.prefix BRANCH_MAGIC_COOKIE b = true.

Lemma same_transaction_via q r : same_transaction q r -> hop_via (q_via q) = hop_via (q_via r).
Proof. intros (H1 & H2 & _). unfold hop_via. by rewrite H1, H2. Qed.
Lemma same_transaction_branch `{BranchEnv} q r : same_transaction q r -> cookied q -> stateless_branch q = stateless_branch r.
Proof.
  intros (H1 & H2 & H3 & H4 & H5) (b & Hb & Hp). unfold stateless_branch, branch_input.
  rewrite <- H1, <- H2, <- H3, <- H4, <- H5, Hb, Hp. done.
Qed.
