(* ===== verification/ProxyRefusals.v ===== *)
(** * Front proxy: the requests it refuses itself

    [crates/sip-proxy/src/refusals.rs], with the tag it answers under
    ([crates/sip-txn/src/stateless_tag.rs]) and the jitter of its [Retry-After]
    ([crates/load-shed/src/retry_after.rs]).  The keyed hash of a tag, the
    hasher of the memo and whether a response can echo a request are
    parameters; each stripe is locked for a whole operation. *)

From S2P Require Import Prelude Texts Retransmit TxnData ProxyTypes BranchMemo SipHops ProxyMsg.
From Stdlib Require Import Ascii.

Open Scope Z_scope.

(** ** The tag of an answer *)

Class TagEnv := {
  TagKey : Type;
  keyed_hash : TagKey -> list string -> Z; (** the first eight bytes of the HMAC, as a [u64] *)
}.
(** [u32::to_le_bytes]; [{:016x}]. *)
Fixpoint le_bytes (n : nat) (z : Z) : string :=
  match n with O => EmptyString | S n => String (ascii_of_nat (Z.to_nat (z mod 256))) (le_bytes n (z / 256)) end.
Fixpoint hex_text (n : nat) (z : Z) (acc : string) : string :=
  match n with O => acc | S n => hex_text n (z / 16) (String (hex_digit (Z.to_nat (z mod 16))) acc) end.

Section tag.
Context `{TagEnv}.
Definition derive (key : TagKey) (q : Req) (method : Method) : string * Z :=
  let k := keyed_hash key [q_call_id q; default ""%string (q_from_tag q); default ""%string (hop_branch (q_via q)); le_bytes 4 (q_cseq q); method_str method] in
  (hex_text 16 k "", k).
Definition for_request (key : TagKey) (q : Req) : string * Z := derive key q (q_method q).
Definition acknowledges_own_final (key : TagKey) (ack : Req) : bool := bool_decide (q_to_tag ack = Some (derive key ack MInvite).1).
End tag.
#[global] Arguments derive : simpl never.
#[global] Arguments for_request : simpl never.
#[global] Arguments acknowledges_own_final : simpl never.

(** ** [Retry-After] *)

Definition RETRY_MIN_SEC : Z := 1.
Definition floored (hint_sec : Z) : Z := Z.max hint_sec RETRY_MIN_SEC.
Definition jittered (base_sec jitter_sec roll : Z) : Z :=
  let base := floored base_sec in
  if jitter_sec =? 0 then base else Z.min u32_MAX (base + roll mod (jitter_sec + 1)).

#[global] Arguments jittered : simpl never.

(** ** The memo of refused requests *)

Definition REFUSED_MEMO_MAX : Z := 65536.
Definition REFUSAL_STRIPES : nat := 16.
Record Refused := mkRefused { rx_at_ms : Z; rx_retry_after_sec : Z; rx_to_tag : string }.
Record RefMemo := mkRefMemo { rm_refused : gmap Z Refused; rm_order : list (Z * Z); rm_max : Z }.
Record Refusals := mkRefusals { rs_stripes : list RefMemo; rs_remembered : Z }.

(** [expire], whose fuel is the length of the order it pops. *)
Fixpoint ref_expire_loop (fuel : nat) (now_ms : Z) (m : RefMemo) : RefMemo :=
  match fuel with
  | O => m
  | S fuel =>
      match rm_order m with
      | [] => m
      | (at_ms, key) :: order =>
          if (sat_sub now_ms at_ms <? TIMER_B) && (Z.of_nat (length (rm_order m)) <=? rm_max m) then m
          else
            ref_expire_loop fuel now_ms
              (mkRefMemo (match rm_refused m !! key with
                          | Some r => if rx_at_ms r =? at_ms then delete key (rm_refused m) else rm_refused m
                          | None => rm_refused m
                          end) order (rm_max m))
      end
  end.
Definition ref_expire (now_ms : Z) (m : RefMemo) : RefMemo * Z :=
  let m' := ref_expire_loop (length (rm_order m)) now_ms m in
  (m', Z.of_nat (size (rm_refused m)) - Z.of_nat (size (rm_refused m'))).

(** What answers a request: the proxy's own final. *)
Record OwnFinal := mkFinal { fn_status : Z; fn_to_tag : string; fn_retry_after : option Z; fn_unsupported : list string }.

Class RefusalEnv := {
  refusal_hash : string -> Z; (** of this instance's [RandomState] *)
  answerable : Req -> bool; (** whether a response can echo its lines *)
}.

Section refusals.
Context `{TagEnv} `{RefusalEnv}.

Definition refusals_keyed (max : Z) : Refusals :=
  mkRefusals (replicate REFUSAL_STRIPES (mkRefMemo ∅ [] (Z.max 1 (div_ceil max (Z.of_nat REFUSAL_STRIPES))))) 0.
Definition ref_answer (q : Req) (status : Z) (to_tag : string) (retry_after_sec : option Z) : option OwnFinal :=
  if answerable q then Some (mkFinal status to_tag retry_after_sec []) else None.
Definition ref_key (q : Req) (method : string) : Z :=
  refusal_hash (retransmit_key (hop_via (q_via q)) (q_call_id q) (q_from_tag q) method (q_cseq q)).
(** [lock]: the low byte of the key picks the stripe. *)
Definition ref_slot (key : Z) : nat := Z.to_nat (key mod 256 mod Z.of_nat REFUSAL_STRIPES).
(** [count]: an atomic of the width of a [usize]. *)
Definition ref_count (added forgotten : Z) (s : Refusals) : Refusals :=
  mkRefusals (rs_stripes s) (u64_wrap (u64_wrap (rs_remembered s + added) - forgotten)).
Definition with_stripe (i : nat) (m : RefMemo) (s : Refusals) : Refusals := mkRefusals (<[i := m]> (rs_stripes s)) (rs_remembered s).

Definition refuse_key (key : Z) (r : Refused) (now_ms : Z) (s : Refusals) : Refusals :=
  match rs_stripes s !! ref_slot key with
  | None => s
  | Some m =>
      let added := match rm_refused m !! key with Some _ => 0 | None => 1 end in
      let m := mkRefMemo (<[key := r]> (rm_refused m)) (rm_order m ++ [(now_ms, key)]) (rm_max m) in
      let '(m, forgotten) := ref_expire now_ms m in
      ref_count added forgotten (with_stripe (ref_slot key) m s)
  end.
Definition refuse (tags : TagKey) (jitter_sec : Z) (q : Req) (retry_after_sec now_ms : Z) (s : Refusals) : option OwnFinal * Refusals :=
  let '(to_tag, roll) := for_request tags q in
  let retry := jittered retry_after_sec jitter_sec roll in
  let s := if bool_decide (q_method q = MCancel) then s
           else refuse_key (ref_key q (method_str (q_method q))) (mkRefused now_ms retry to_tag) now_ms s in
  (ref_answer q 503 to_tag (Some retry), s).

Definition remembered_key (key now_ms : Z) (s : Refusals) : option Refused * Refusals :=
  if rs_remembered s =? 0 then (None, s)
  else match rs_stripes s !! ref_slot key with
       | None => (None, s)
       | Some m =>
           let '(m, forgotten) := ref_expire now_ms m in
           (rm_refused m !! key, ref_count 0 forgotten (with_stripe (ref_slot key) m s))
       end.
Definition remembered (q : Req) (method : string) : Z -> Refusals -> option Refused * Refusals := remembered_key (ref_key q method).
Definition repeat_refused (q : Req) (now_ms : Z) (s : Refusals) : option OwnFinal * Refusals :=
  let '(r, s) := remembered q (method_str (q_method q)) now_ms s in
  (r ← r; ref_answer q 503 (rx_to_tag r) (Some (rx_retry_after_sec r)), s).
Definition cancel_answer (q : Req) (now_ms : Z) (s : Refusals) : option OwnFinal * Refusals :=
  let '(r, s) := remembered q (method_str MInvite) now_ms s in
  (r ← r; ref_answer q 200 (rx_to_tag r) None, s).
End refusals.
