(* ===== verification/ProxyRefusalsProps.v ===== *)
(** * Front proxy: one answer to every copy of a refused request

    The memo of [ProxyRefusals] beside the list of refusals made: what it
    answers is the last refusal made under the key, younger than 64 T1; and
    within its capacity it answers every such refusal. *)

From S2P Require Import Prelude Texts Retransmit TxnData ProxyTypes BranchMemo SipHops ProxyMsg ProxyRefusals.
From Stdlib Require Import Ascii.

Open Scope Z_scope.

(** ** Histories *)

(** A refusal made, under its key; the last under a key. *)
Notation Made := (Z * Refused)%type.
Definition made_at (p : Made) : Z * Z := (rx_at_ms p.2, p.1).
Definition last_of (k : Z) (h : list Made) : option Refused := foldl (fun acc p => if p.1 =? k then Some p.2 else acc) None h.
Lemma last_of_snoc k h p : last_of k (h ++ [p]) = if p.1 =? k then Some p.2 else last_of k h.
Proof. unfold last_of. by rewrite foldl_app. Qed.
Lemma last_of_in k h r : last_of k h = Some r -> (k, r) ∈ h.
Proof.
  revert r. induction h as [|[k' r'] h IH] using rev_ind; intros r; [done|]. rewrite last_of_snoc. simpl.
  destruct (Z.eqb_spec k' k) as [->|]; intros Hr; [simplify_eq; set_solver|]. apply IH in Hr. set_solver.
Qed.
Lemma last_of_filter (P : Made -> Prop) `{!forall p, Decision (P p)} k h :
  (forall p, p ∈ h -> p.1 = k -> P p) -> last_of k (filter P h) = last_of k h.
Proof.
  induction h as [|p h IH] using rev_ind; intros Hp; [done|]. rewrite filter_app, last_of_snoc. specialize (IH ltac:(set_solver)).
  rewrite filter_cons, filter_nil. case_decide as Hd; [by rewrite last_of_snoc, IH|]. rewrite app_nil_r, IH.
  destruct (Z.eqb_spec p.1 k); [|done]. destruct Hd. apply Hp; [set_solver|done].
Qed.

(** ** One stripe *)

Definition ordered_until (T : Z) (l : list (Z * Z)) : Prop := StronglySorted (fun p q => p.1 <= q.1) l /\ Forall (fun p => 0 <= p.1 <= T) l.

Record stripe_inv (T : Z) (h : list Made) (m : RefMemo) : Prop := {
  si_suffix : exists dropped, map made_at h = dropped ++ rm_order m;
  si_order : ordered_until T (map made_at h);
  si_sound k r : rm_refused m !! k = Some r -> last_of k h = Some r /\ (rx_at_ms r, k) ∈ rm_order m;
  si_complete k r : Z.of_nat (length h) <= rm_max m -> last_of k h = Some r -> T - rx_at_ms r < TIMER_B -> rm_refused m !! k = Some r;
}.

Lemma stripe_inv_later T T' h m : T <= T' -> stripe_inv T h m -> stripe_inv T' h m.
Proof.
  intros HT [I1 [I2 I2'] I3 I4]. split; [done| |done|].
  - split; [done|]. eapply Forall_impl; [exact I2'|]. simpl. lia.
  - intros k r Hl Hr Hf. apply I4; [done..|lia].
Qed.
Lemma ordered_snoc T l p : ordered_until T l -> T <= p.1 -> 0 <= p.1 -> ordered_until p.1 (l ++ [p]).
Proof.
  intros [Hs Hf] Hp H0. rewrite Forall_forall in Hf. split.
  - apply StronglySorted_app. split; [|split; [done|repeat constructor]].
    intros x y Hx Hy. apply list_elem_of_singleton in Hy as ->. specialize (Hf x Hx). lia.
  - apply Forall_app. split; [|by repeat constructor]. apply Forall_forall. intros x Hx. specialize (Hf x Hx). lia.
Qed.

(** A write, before the expiry that follows it. *)
Lemma stripe_inv_write T h m k r : stripe_inv T h m -> T <= rx_at_ms r -> 0 <= rx_at_ms r ->
  stripe_inv (rx_at_ms r) (h ++ [(k, r)]) (mkRefMemo (<[k := r]> (rm_refused m)) (rm_order m ++ [(rx_at_ms r, k)]) (rm_max m)).
Proof.
  intros Hi HT H0. destruct (stripe_inv_later _ _ _ _ HT Hi) as [[d I1] [I2 I2'] I3 I4]. split; simpl.
  - exists d. by rewrite map_app, I1, <- (assoc_L (++)).
  - rewrite map_app. apply (ordered_snoc T (map made_at h) (made_at (k, r))); [apply Hi|done..].
  - intros k' r'. rewrite last_of_snoc. simpl. destruct (Z.eqb_spec k k') as [->|Hne].
    + rewrite lookup_insert_eq. intros. simplify_eq. set_solver.
    + rewrite lookup_insert_ne by done. intros Hr. destruct (I3 _ _ Hr). set_solver.
  - intros k' r'. rewrite last_of_snoc, length_app. simpl. destruct (Z.eqb_spec k k') as [->|Hne]; intros Hl Hr Hf.
    + simplify_eq. by rewrite lookup_insert_eq.
    + rewrite lookup_insert_ne by done. apply I4; [lia|done..].
Qed.

Lemma order_in_history T h m p : stripe_inv T h m -> p ∈ rm_order m -> p ∈ map made_at h.
Proof. intros [[d I1] _ _ _] Hp. rewrite I1. set_solver. Qed.

(** The expiry loop keeps the invariant and ends at its exit condition. *)
Lemma ref_expire_loop_inv T fuel h m : (length (rm_order m) <= fuel)%nat -> stripe_inv T h m ->
  let m' := ref_expire_loop fuel T m in
  stripe_inv T h m' /\ rm_max m' = rm_max m /\ rm_refused m' ⊆ rm_refused m /\ Forall (fun p => T - p.1 < TIMER_B) (rm_order m').
Proof.
  revert m. induction fuel as [|fuel IH]; intros m Hl Hi; simpl.
  { split_and!; [done..|]. destruct (rm_order m) eqn:Ho; [constructor|simpl in Hl; lia]. }
  destruct (rm_order m) as [|[t k] order] eqn:Ho; [split_and!; [done..|by rewrite Ho]|].
  assert (In_t : 0 <= t <= T).
  { pose proof (order_in_history _ _ _ (t, k) Hi ltac:(rewrite Ho; set_solver)) as Hin. destruct (si_order _ _ _ Hi) as [_ Hf].
    rewrite Forall_forall in Hf. apply (Hf _ Hin). }
  unfold sat_sub. rewrite Z.max_r by lia.
  destruct (_ && _) eqn:Hb.
  - split; [done|]. split; [done|]. split; [done|]. rewrite Ho. apply andb_true_iff in Hb as [Hb _]. apply Z.ltb_lt in Hb.
    destruct Hi as [[d I1] [I2 _] _ _]. rewrite I1, Ho in I2. apply StronglySorted_app in I2 as (_ & _ & I2). apply StronglySorted_inv in I2 as [_ Hs].
    constructor; [done|]. eapply Forall_impl; [exact Hs|]. simpl. lia.
  - set (m1 := mkRefMemo _ order (rm_max m)).
    assert (Hi1 : stripe_inv T h m1).
    { destruct Hi as [[d I1] I2 I3 I4]. rewrite Ho in I1. split; simpl; [|done| |].
      - exists (d ++ [(t, k)]). by rewrite <- (assoc_L (++)).
      - intros k' r' Hr. assert (Hr' : rm_refused m !! k' = Some r' /\ (k' = k -> rx_at_ms r' <> t)).
        { destruct (rm_refused m !! k) as [r|] eqn:Hk; [|split; [done|intros ->; congruence]]. destruct (Z.eqb_spec (rx_at_ms r) t).
          - apply lookup_delete_Some in Hr as [? ?]. split; [done|]. intros ->. done.
          - split; [done|]. intros ->. congruence. }
        destruct Hr' as [Hr1 Hr2]. destruct (I3 _ _ Hr1) as [L1 L2]. split; [done|]. rewrite Ho in L2. apply elem_of_cons in L2 as [L2|L2]; [|done].
        simplify_eq. by destruct Hr2.
      - intros k' r' Hc Hr Hf. specialize (I4 k' r' Hc Hr Hf). assert (length (rm_order m) <= length h)%nat as Hlen.
        { rewrite Ho, <- (length_map made_at h), I1, length_app. lia. }
        assert (TIMER_B <= T - t) as Ht by (rewrite Ho in Hlen; apply andb_false_iff in Hb as [Hb%Z.ltb_ge|Hb%Z.leb_gt]; [lia|cbn [rm_max] in Hc; lia]).
        destruct (rm_refused m !! k) as [r|] eqn:Hk; [|done]. destruct (Z.eqb_spec (rx_at_ms r) t); [|done].
        rewrite lookup_delete_ne; [done|]. intros ->. rewrite Hk in I4. simplify_eq. lia. }
    destruct (IH m1) as (J1 & J2 & J3 & J4); [simpl in *; lia|done|]. split; [done|]. split; [done|]. split; [|done].
    etrans; [exact J3|]. subst m1. simpl. repeat case_match; try done. apply delete_subseteq.
Qed.
Lemma ref_expire_inv T h m : stripe_inv T h m ->
  let m' := (ref_expire T m).1 in
  stripe_inv T h m' /\ rm_max m' = rm_max m /\ (forall k r, rm_refused m' !! k = Some r -> T - rx_at_ms r < TIMER_B) /\
  (ref_expire T m).2 = Z.of_nat (size (rm_refused m)) - Z.of_nat (size (rm_refused m')) /\ (size (rm_refused m') <= size (rm_refused m))%nat.
Proof.
  intros Hi m'. destruct (ref_expire_loop_inv T _ h m (le_n _) Hi) as (J1 & J2 & J3 & J4). split; [done|]. split; [done|]. split; [|split; [done|]].
  - intros k r Hr. destruct (si_sound _ _ _ J1 _ _ Hr) as [_ Hin]. rewrite Forall_forall in J4. apply (J4 _ Hin).
  - by apply map_subseteq_size.
Qed.

(** ** The whole memo *)

Section refusals.
Context `{TE : TagEnv} `{RE : RefusalEnv}.
Variable tags : TagKey.
Variable jitter : Z.

(** What the core asks of the memo. *)
Inductive RefOp := RefRefuse (q : Req) (hint : Z) | RefRepeat (q : Req) | RefCancel (q : Req).
Definition ref_step (s : Refusals) (o : RefOp * Z) : Refusals :=
  match o with
  | (RefRefuse q hint, now) => (refuse tags jitter q hint now s).2
  | (RefRepeat q, now) => (repeat_refused q now s).2
  | (RefCancel q, now) => (cancel_answer q now s).2
  end.
Definition ref_run (ops : list (RefOp * Z)) (s : Refusals) : Refusals := foldl ref_step s ops.
(** The refusals made, in order. *)
Definition refusal_of (q : Req) (hint now : Z) : Made :=
  (ref_key q (method_str (q_method q)), mkRefused now (jittered hint jitter (for_request tags q).2) (for_request tags q).1).
Definition made_by (o : RefOp * Z) : option Made :=
  match o with
  | (RefRefuse q hint, now) => if bool_decide (q_method q = MCancel) then None else Some (refusal_of q hint now)
  | _ => None
  end.
Definition made (ops : list (RefOp * Z)) : list Made := omap made_by ops.
(** Clock readings that do not go back. *)
Fixpoint ref_clocked (T : Z) (ops : list (RefOp * Z)) : Prop :=
  match ops with [] => True | o :: ops => T <= o.2 /\ ref_clocked o.2 ops end.
Definition ref_clock (T : Z) (ops : list (RefOp * Z)) : Z := foldl (fun _ o => o.2) T ops.

Definition in_slot (i : nat) (h : list Made) : list Made := filter (fun p => ref_slot p.1 = i) h.
Definition total_size (l : list RefMemo) : Z := foldr (fun m n => Z.of_nat (size (rm_refused m)) + n) 0 l.
Record refs_inv (per : Z) (T : Z) (h : list Made) (s : Refusals) : Prop := {
  ri_length : length (rs_stripes s) = REFUSAL_STRIPES;
  ri_stripes i m : rs_stripes s !! i = Some m -> stripe_inv T (in_slot i h) m /\ rm_max m = per;
  ri_total : rs_remembered s = total_size (rs_stripes s);
  ri_bound : 0 <= total_size (rs_stripes s) <= Z.of_nat (length h);
}.

Lemma ref_slot_lt k : (ref_slot k < REFUSAL_STRIPES)%nat.
Proof. unfold ref_slot. pose proof (Z.mod_pos_bound (k mod 256) (Z.of_nat REFUSAL_STRIPES) eq_refl). unfold REFUSAL_STRIPES in *. lia. Qed.
Lemma total_size_insert l i m m' : l !! i = Some m ->
  total_size (<[i := m']> l) = total_size l - Z.of_nat (size (rm_refused m)) + Z.of_nat (size (rm_refused m')).
Proof.
  unfold total_size. revert i. induction l as [|a l IH]; intros [|i] Hi; simpl in *; [done..|simplify_eq; lia|]. rewrite (IH i Hi). lia.
Qed.
Lemma total_size_ge l i m : l !! i = Some m -> Z.of_nat (size (rm_refused m)) <= total_size l.
Proof.
  unfold total_size. assert (forall l', 0 <= foldr (fun m n => Z.of_nat (size (rm_refused m)) + n) 0 l') as Hn by (intros l'; induction l'; simpl; lia).
  revert i. induction l as [|a l IH]; intros [|i] Hi; simpl in *; [done..| |].
  - simplify_eq. specialize (Hn l). lia.
  - specialize (IH i Hi). lia.
Qed.

(** One stripe replaced by one that went on from it. *)
Lemma refs_inv_stripe per T T' h p s i m m' added forgotten :
  refs_inv per T h s -> rs_stripes s !! i = Some m -> T <= T' -> Z.of_nat (length h) + 1 < 2 ^ 64 ->
  (forall q, q ∈ p -> ref_slot q.1 = i) -> stripe_inv T' (in_slot i h ++ p) m' -> rm_max m' = per ->
  0 <= added <= Z.of_nat (length p) -> (length p <= 1)%nat -> 0 <= forgotten ->
  Z.of_nat (size (rm_refused m')) = Z.of_nat (size (rm_refused m)) + added - forgotten ->
  refs_inv per T' (h ++ p) (ref_count added forgotten (with_stripe i m' s)).
Proof.
  intros [R1 R2 R3 R4] Hi HT Hw Hp Hm' Hmax Ha Hl Hf Hsz. pose proof (total_size_ge _ _ _ Hi) as Hge.
  assert (total_size (<[i := m']> (rs_stripes s)) = total_size (rs_stripes s) + added - forgotten) as Ht.
  { rewrite (total_size_insert _ _ _ _ Hi), Hsz. lia. }
  split; simpl.
  - by rewrite length_insert.
  - intros j mj Hj. unfold in_slot. rewrite filter_app. destruct (decide (i = j)) as [<-|Hne].
    + rewrite list_lookup_insert_eq in Hj by (by apply lookup_lt_Some in Hi). simplify_eq. split; [|done].
      by rewrite (filter_all _ p).
    + rewrite list_lookup_insert_ne in Hj by done. destruct (R2 _ _ Hj) as [Q1 Q2]. split; [|done].
      rewrite (filter_none _ p) by (intros q Hq ?; specialize (Hp q Hq); congruence). rewrite app_nil_r. by apply (stripe_inv_later T).
  - rewrite Ht, R3. unfold u64_wrap. rewrite Zminus_mod_idemp_l, Z.mod_small; [done|]. lia.
  - rewrite Ht, length_app. lia.
Qed.

(** A lookup, a write. *)
Lemma remembered_key_inv per T h s k now : refs_inv per T h s -> T <= now -> Z.of_nat (length h) + 1 < 2 ^ 64 ->
  let r := remembered_key k now s in
  refs_inv per now h r.2 /\
  (forall x, r.1 = Some x -> last_of k h = Some x /\ now - rx_at_ms x < TIMER_B) /\
  (forall x, Z.of_nat (length h) <= per -> last_of k h = Some x -> now - rx_at_ms x < TIMER_B -> r.1 = Some x).
Proof.
  intros Hi HT Hw. pose proof Hi as [R1 R2 R3 R4]. unfold remembered_key.
  destruct (lookup_lt_is_Some_2 (rs_stripes s) (ref_slot k)) as [m Hm]; [rewrite R1; apply ref_slot_lt|].
  destruct (R2 _ _ Hm) as [Q1 Q2]. pose proof (stripe_inv_later _ now _ _ HT Q1) as Q3.
  assert (Hlast : last_of k (in_slot (ref_slot k) h) = last_of k h) by (apply last_of_filter; intros p _ ->; done).
  assert (Hlen : Z.of_nat (length (in_slot (ref_slot k) h)) <= Z.of_nat (length h)) by (pose proof (length_filter (fun p => ref_slot p.1 = ref_slot k) h); unfold in_slot; lia).
  destruct (Z.eqb_spec (rs_remembered s) 0) as [H0|_].
  - split; [|split; [done|]].
    + split; [done| |done..]. intros i mi Hmi. destruct (R2 _ _ Hmi). split; [by apply (stripe_inv_later T)|done].
    + intros x Hc Hx Hf. rewrite <- Hlast in Hx. pose proof (si_complete _ _ _ Q3 k x ltac:(lia) Hx Hf) as Hin.
      pose proof (total_size_ge _ _ _ Hm) as Hge. assert (size (rm_refused m) <> 0%nat) by (apply map_size_non_empty_iff; intros He; by rewrite He in Hin). lia.
  - rewrite Hm. destruct (ref_expire_inv _ _ _ Q3) as (J1 & J2 & J3 & J4 & J5). destruct (ref_expire now m) as [m' f] eqn:He. simpl in *.
    split; [|split].
    + replace h with (h ++ []) at 1 by apply app_nil_r. eapply (refs_inv_stripe per T now h [] s _ m m'); [done|done|done|done|set_solver|by rewrite app_nil_r|congruence|simpl; lia|simpl; lia|lia|lia].
    + intros x Hx. rewrite <- Hlast. split; [apply (si_sound _ _ _ J1 _ _ Hx)|by apply (J3 k)].
    + intros x Hc Hx Hf. rewrite <- Hlast in Hx. apply (si_complete _ _ _ J1); [lia|done..].
Qed.
Lemma refuse_key_inv per T h s k r : refs_inv per T h s -> T <= rx_at_ms r -> 0 <= rx_at_ms r -> Z.of_nat (length h) + 1 < 2 ^ 64 ->
  refs_inv per (rx_at_ms r) (h ++ [(k, r)]) (refuse_key k r (rx_at_ms r) s).
Proof.
  intros Hi HT H0 Hw. pose proof Hi as [R1 R2 R3 R4]. unfold refuse_key.
  destruct (lookup_lt_is_Some_2 (rs_stripes s) (ref_slot k)) as [m Hm]; [rewrite R1; apply ref_slot_lt|]. rewrite Hm.
  destruct (R2 _ _ Hm) as [Q1 Q2]. pose proof (stripe_inv_write _ _ _ k r Q1 HT H0) as Q3.
  destruct (ref_expire_inv _ _ _ Q3) as (J1 & J2 & J3 & J4 & J5). destruct (ref_expire _ _) as [m' f] eqn:He. simpl in *.
  apply (refs_inv_stripe per T _ h [(k, r)] s _ m m'); [done|done|done|done|set_solver|done|congruence| |simpl; lia|lia|].
  - destruct (_ !! k); simpl; lia.
  - rewrite J4. destruct (rm_refused m !! k) eqn:Hk.
    + rewrite map_size_insert_Some by done. lia.
    + rewrite map_size_insert_None by done. lia.
Qed.

Lemma refuse_memo q hint now s : (refuse tags jitter q hint now s).2 =
  if bool_decide (q_method q = MCancel) then s else refuse_key (refusal_of q hint now).1 (refusal_of q hint now).2 now s.
Proof. unfold refuse, refusal_of. by destruct (for_request tags q). Qed.
Lemma ref_step_inv per T h s o : refs_inv per T h s -> T <= o.2 -> 0 <= T -> Z.of_nat (length h) + 1 < 2 ^ 64 ->
  refs_inv per o.2 (h ++ made [o]) (ref_step s o).
Proof.
  intros Hi HT H0 Hw. destruct o as [[q hint|q|q] now]; simpl in HT; unfold made; cbn [omap list_omap made_by ref_step snd fst].
  - rewrite refuse_memo. case_bool_decide.
    + rewrite app_nil_r. destruct Hi as [R1 R2 R3 R4]. split; [done| |done..]. intros i m Hm. destruct (R2 _ _ Hm). split; [by apply (stripe_inv_later T)|done].
    + by apply (refuse_key_inv per T h s (refusal_of q hint now).1 (refusal_of q hint now).2); [|simpl; lia..|].
  - rewrite app_nil_r. destruct (remembered_key_inv per T h s (ref_key q (method_str (q_method q))) now Hi HT Hw) as (J & _).
    unfold repeat_refused, remembered. destruct (remembered_key _ _ _) as [r s']. done.
  - rewrite app_nil_r. destruct (remembered_key_inv per T h s (ref_key q (method_str MInvite)) now Hi HT Hw) as (J & _).
    unfold cancel_answer, remembered. destruct (remembered_key _ _ _) as [r s']. done.
Qed.
Lemma ref_run_inv per ops T h s : refs_inv per T h s -> ref_clocked T ops -> 0 <= T -> Z.of_nat (length h + length ops) + 1 < 2 ^ 64 ->
  refs_inv per (ref_clock T ops) (h ++ made ops) (ref_run ops s).
Proof.
  revert T h s. induction ops as [|o ops IH]; intros T h s Hi Hc H0 Hw; [by rewrite app_nil_r|]. cbn [ref_run foldl length] in *.
  destruct Hc as [Hc1 Hc2]. pose proof (ref_step_inv per T h s o Hi Hc1 H0 ltac:(lia)) as Hs.
  replace (made (o :: ops)) with (made [o] ++ made ops) by (unfold made; simpl; by destruct (made_by o)). rewrite (assoc_L (++)).
  apply IH; [done|done|lia|]. unfold made. simpl. destruct (made_by o); rewrite length_app; simpl; lia.
Qed.
Definition per_stripe (max : Z) : Z := Z.max 1 (div_ceil max (Z.of_nat REFUSAL_STRIPES)).
Lemma refs_inv_new max : refs_inv (per_stripe max) 0 [] (refusals_keyed max).
Proof.
  split; [done| |done|split; vm_compute; discriminate]. intros i m Hm. simpl in Hm. apply (lookup_replicate_1 REFUSAL_STRIPES) in Hm as [-> _]. split; [|done].
  split; [by exists []|split; constructor|done|done].
Qed.
Lemma made_length ops : (length (made ops) <= length ops)%nat.
Proof. induction ops as [|o ops IH]; [done|]. unfold made in *. cbn [omap list_omap length]. destruct (made_by o); cbn [length]; lia. Qed.

Definition repeated (r : Refused) : OwnFinal := mkFinal 503 (rx_to_tag r) (Some (rx_retry_after_sec r)) [].

(** Every copy of a refused request draws one answer.  Over any refusals,
    repeats and cancels at clock readings that do not go back: a request is
    answered from the memo only with the 503, tag and [Retry-After] of the last
    refusal made under its transaction, less than 64 T1 earlier, which is the
    503 that refusal itself sent; within the memo's capacity every such copy is
    answered so, and the CANCEL of such an INVITE is answered 200 under the
    same tag. *)
Theorem refused_one_answer max ops q now :
  ref_clocked 0 ops -> ref_clock 0 ops <= now -> Z.of_nat (length ops) + 1 < 2 ^ 64 ->
  let s := ref_run ops (refusals_keyed max) in
  let earlier method := last_of (ref_key q (method_str method)) (made ops) in
  (forall a, (repeat_refused q now s).1 = Some a -> exists r, earlier (q_method q) = Some r /\ now - rx_at_ms r < TIMER_B /\ a = repeated r) /\
  (forall r, Z.of_nat (length (made ops)) <= per_stripe max -> earlier (q_method q) = Some r -> now - rx_at_ms r < TIMER_B -> answerable q = true ->
     (repeat_refused q now s).1 = Some (repeated r)) /\
  (forall r, Z.of_nat (length (made ops)) <= per_stripe max -> earlier MInvite = Some r -> now - rx_at_ms r < TIMER_B -> answerable q = true ->
     (cancel_answer q now s).1 = Some (mkFinal 200 (rx_to_tag r) None [])) /\
  (forall q0 hint t s0, answerable q0 = true -> (refuse tags jitter q0 hint t s0).1 = Some (repeated (refusal_of q0 hint t).2)).
Proof.
  intros Hc HT Hw s earlier. pose proof (made_length ops) as Hl.
  pose proof (ref_run_inv _ ops 0 [] _ (refs_inv_new max) Hc ltac:(lia) ltac:(simpl; lia)) as Hi. simpl in Hi. fold s in Hi.
  assert (forall m, let r := remembered_key (ref_key q m) now s in
    (forall x, r.1 = Some x -> last_of (ref_key q m) (made ops) = Some x /\ now - rx_at_ms x < TIMER_B) /\
    (forall x, Z.of_nat (length (made ops)) <= per_stripe max -> last_of (ref_key q m) (made ops) = Some x -> now - rx_at_ms x < TIMER_B -> r.1 = Some x)) as Hk.
  { intros m. apply (remembered_key_inv _ _ _ _ (ref_key q m) now Hi HT ltac:(lia)). }
  split; [|split; [|split]].
  - intros a. destruct (Hk (method_str (q_method q))) as [K1 _]. unfold repeat_refused, remembered. destruct (remembered_key _ _ _) as [[r|] s']; [|done].
    simpl. unfold ref_answer. destruct (answerable q); [|done]. intros. simplify_eq. exists r. destruct (K1 r eq_refl). done.
  - intros r Hcap He Hf Ha. destruct (Hk (method_str (q_method q))) as [_ K2]. specialize (K2 r Hcap He Hf).
    unfold repeat_refused, remembered. destruct (remembered_key _ _ _) as [r' s']. simpl in *. subst r'. simpl. unfold ref_answer. by rewrite Ha.
  - intros r Hcap He Hf Ha. destruct (Hk (method_str MInvite)) as [_ K2]. specialize (K2 r Hcap He Hf).
    unfold cancel_answer, remembered. destruct (remembered_key _ _ _) as [r' s']. simpl in *. subst r'. simpl. unfold ref_answer. by rewrite Ha.
  - intros q0 hint t s0 Ha. unfold refuse, refusal_of. destruct (for_request tags q0). simpl. unfold ref_answer. by rewrite Ha.
Qed.
End refusals.

(** ** Witness *)

Definition ex_tag_env : TagEnv := {| TagKey := Z; keyed_hash k l := k + Z.of_nat (String.length (String.concat "" l)) |}.
Definition ex_refusal_env : RefusalEnv := {| refusal_hash s := Z.of_nat (String.length s); answerable _ := true |}.
Definition ex_req (m : Method) (branch : string) (to_tag : option string) : Req :=
  mkReq m (uri_sip "example.org" 5060) (with_branch branch (requesting_rport (via_udp (mkAddr "192.0.2.1" 5060)))) [] (Some "from1"%string) to_tag "call1" 1
    (Some 70) [] (Some []) [] [].
Lemma refused_one_answer_witness :
  let E := ex_tag_env in let R := ex_refusal_env in
  let q := ex_req MInvite "z9hG4bK1" None in
  let ops := [(RefRefuse q 5, 1000); (RefRepeat q, 1500)] in
  (repeat_refused q 2000 (ref_run (TE := E) 7 0 ops (refusals_keyed 160))).1 = Some (repeated (refusal_of (TE := E) 7 0 q 5 1000).2).
Proof.
  intros E R q ops. apply (refused_one_answer (TE := E) 7 0 160 ops q 2000); try reflexivity; try (vm_compute; discriminate).
  repeat split; vm_compute; discriminate.
Defined.
