(* ===== verification/ProxyCore.v ===== *)
(** * Front proxy: the seams of the core and its state

    [crates/sip-proxy/src/core/mod.rs], [strategy.rs] (the trait), and the seams
    the core calls: the strategy with its two implementations, the branch memo,
    the self gate.  A turn reads the clock once and runs to its end; what it
    sends is a list. *)

From S2P Require Import Prelude Texts TxnData ProxyTypes SipHops BranchMemo Topology WorkerRegistry LoadBalancer ProxyMsg ProxyRefusals.
From Stdlib Require Import Ascii.

Open Scope Z_scope.

(** ** Front proxy: the two faces

    [crates/sip-proxy/src/face.rs]: the internal plane as a list of IPv4 CIDRs.
    The dotted-quad text of an address is the standard library's to read. *)

Record Ipv4Cidr := mkCidr { ci_net : Z; ci_prefix : Z }.
(** [u32::MAX << (32 - prefix)], the high bits lost. *)
Definition cidr_mask (prefix : Z) : Z := if prefix =? 0 then 0 else Z.shiftl u32_MAX (32 - prefix) mod 2 ^ 32.
Definition cidr_contains (c : Ipv4Cidr) (ip : Z) : bool := Z.land ip (cidr_mask (ci_prefix c)) =? ci_net c.
Definition contains_ip (cidrs : list Ipv4Cidr) (ip : IpAddr) : bool :=
  match ip with V4 a => existsb (fun c => cidr_contains c a) cidrs | V6 _ => false end.

Class QuadEnv := { parse_quad : string -> option Z }.
Section parse.
Context `{QuadEnv}.
(** [Ipv4Cidr::parse] and [FaceCidrs::parse]; the texts of their errors are
    left out. *)
Definition parse_cidr (s : string) : option Ipv4Cidr :=
  '(net, prefix) ← split_once "/"%char s;
  net ← parse_quad (trim net);
  prefix ← parse_uint u8_MAX (trim prefix);
  if 32 <? prefix then None else Some (mkCidr (Z.land net (cidr_mask prefix)) prefix).
Fixpoint parse_all (l : list string) : option (list Ipv4Cidr) :=
  match l with [] => Some [] | s :: l => c ← parse_cidr s; cs ← parse_all l; Some (c :: cs) end.
Definition parse_cidrs (text : string) : option (list Ipv4Cidr) :=
  cidrs ← parse_all (filter (fun s => s <> ""%string) (map trim (split_at_char ","%char text)));
  match cidrs with [] => None | _ => Some cidrs end.
End parse.

(** ** Membership is equality of the leading bits *)

Lemma cidr_mask_spec prefix : 0 <= prefix <= 32 -> cidr_mask prefix = Z.shiftl (Z.ones prefix) (32 - prefix).
Proof.
  intros Hp. unfold cidr_mask. destruct (Z.eqb_spec prefix 0) as [->|Hne]; [done|].
  unfold u32_MAX. change (2 ^ 32 - 1) with (Z.ones 32). apply Z.bits_inj'. intros n Hn. rewrite <- Z.land_ones by lia. rewrite Z.land_spec, !Z.shiftl_spec by lia.
  destruct (decide (n < 32 - prefix)).
  - rewrite !(Z.testbit_neg_r _ (n - _)) by lia. done.
  - rewrite !Z.testbit_ones by lia. destruct (decide (n < 32)).
    + replace ((0 <=? n - (32 - prefix)) && (n - (32 - prefix) <? 32)) with true by (symmetry; apply andb_true_iff; split; lia).
      replace ((0 <=? n) && (n <? 32)) with true by (symmetry; apply andb_true_iff; split; lia).
      replace ((0 <=? n - (32 - prefix)) && (n - (32 - prefix) <? prefix)) with true by (symmetry; apply andb_true_iff; split; lia). done.
    + replace ((0 <=? n) && (n <? 32)) with false by (symmetry; apply andb_false_iff; right; lia).
      replace ((0 <=? n - (32 - prefix)) && (n - (32 - prefix) <? prefix)) with false by (symmetry; apply andb_false_iff; right; lia). by rewrite andb_false_r.
Qed.
Lemma land_mask ip prefix : 0 <= prefix <= 32 -> 0 <= ip < 2 ^ 32 -> Z.land ip (cidr_mask prefix) = Z.shiftl (Z.shiftr ip (32 - prefix)) (32 - prefix).
Proof.
  intros Hp Hip. rewrite cidr_mask_spec by done. apply Z.bits_inj'. intros n Hn. rewrite Z.land_spec, !Z.shiftl_spec by lia.
  destruct (decide (n < 32 - prefix)); [rewrite !(Z.testbit_neg_r _ (n - _)) by lia; by rewrite andb_false_r|].
  rewrite Z.shiftr_spec by lia. replace (n - (32 - prefix) + (32 - prefix)) with n by lia. rewrite Z.testbit_ones by lia.
  destruct (decide (n < 32)).
  - replace ((0 <=? n - (32 - prefix)) && (n - (32 - prefix) <? prefix)) with true by (symmetry; apply andb_true_iff; split; lia). by rewrite andb_true_r.
  - assert (Z.testbit ip n = false) as ->; [|done]. destruct (decide (ip = 0)) as [->|]; [apply Z.bits_0|].
    apply Z.bits_above_log2; [lia|]. apply Z.log2_lt_pow2; [lia|]. apply Z.lt_le_trans with (2 ^ 32); [lia|]. apply Z.pow_le_mono_r; lia.
Qed.
(** An address is inside a CIDR read from text exactly when it shares the
    network's first [prefix] bits, whatever host bits the text stated. *)
Lemma cidr_leading_bits net prefix ip : 0 <= prefix <= 32 -> 0 <= net < 2 ^ 32 -> 0 <= ip < 2 ^ 32 ->
  cidr_contains (mkCidr (Z.land net (cidr_mask prefix)) prefix) ip = true <-> ip / 2 ^ (32 - prefix) = net / 2 ^ (32 - prefix).
Proof.
  intros Hp Hn Hi. unfold cidr_contains. simpl. rewrite Z.eqb_eq, !land_mask by done. rewrite !Z.shiftr_div_pow2, !Z.shiftl_mul_pow2 by lia.
  pose proof (Z.pow_pos_nonneg 2 (32 - prefix) ltac:(lia) ltac:(lia)). nia.
Qed.

(** ** The strategy seam *)

(** What a strategy reads of the registry, and when. *)
Record View := mkView { vw_set : WorkerSet; vw_members : list Peer; vw_now : Z }.

Class RoutingStrategy := {
  strategy : Type; (** what it keeps *)
  st_select : SipMessage -> SelectOpts -> View -> strategy -> (SelectError + ProxyAddr) * strategy;
  st_rank : SipMessage -> View -> RankPlacement;
  st_decode : RouteParams -> SipMessage -> View -> DecodeResult;
  st_encode : ProxyAddr -> SipMessage -> View -> option RouteParams;
  st_originated : ProxyAddr -> SipMessage -> StatedOwners -> View -> option RouteParams;
  st_primary : RouteParams -> option string;
  st_backup : RouteParams -> option string;
  st_verified : RouteParams -> SipMessage -> option RouteParams;
  st_mark : RouteParams -> option (string * string);
  st_marked : RouteParams -> bool;
}.

(** [LoadBalancerStrategy]. *)
#[local] Instance balancer `{CookieEnv} `{LoadObserver} (h : StaticHmacKeyProvider) : RoutingStrategy := {|
  strategy := observer;
  st_select m opts v o := select_for_new_dialog m opts (vw_set v) (vw_now v) o;
  st_rank m v := placement_by_rank m (vw_set v);
  st_decode p m v := decode_stickiness p m h (vw_set v);
  st_encode t m v := encode_stickiness t m h (vw_members v) (vw_now v) (vw_set v);
  st_originated t m stated v := encode_originated t m stated h (vw_now v) (vw_set v);
  st_primary := stickiness_primary;
  st_backup := stickiness_backup;
  st_verified p m := own_fields p m h;
  st_mark p := mark_dialling p h;
  st_marked p := dialling_marked p h;
|}.
(** [ForwardAllStrategy], with the trait's defaults. *)
#[local] Instance forward_all (target : ProxyAddr) : RoutingStrategy := {|
  strategy := unit;
  st_select _ _ _ o := (forward_all_select target, o);
  st_rank _ _ := Node target;
  st_decode p _ _ := forward_all_decode p;
  st_encode t _ _ := forward_all_encode t;
  st_originated t _ _ _ := forward_all_encode t;
  st_primary _ := None;
  st_backup _ := None;
  st_verified _ _ := None;
  st_mark _ := None;
  st_marked _ := false;
|}.

(** ** The branch memo and the self gate *)

Class MemoSeam := {
  memo : Type;
  memo_lookup : string -> Z -> memo -> option CancelEntry * memo;
  memo_remember : string -> CancelEntry -> Lifetime -> Z -> memo -> memo;
  memo_shorten : string -> Z -> memo -> memo;
  memo_sweep : nat -> Z -> memo -> memo; (** one stripe, by the sweeper *)
}.
#[local] Instance lru_memo `{MemoEnv} : MemoSeam := {|
  memo := CancelBranchLru;
  memo_lookup := lookup_memo;
  memo_remember := remember;
  memo_shorten k now m := (shorten k now m).2;
  memo_sweep i now m := (sweep_stripe i now m).2;
|}.

(** [ProxySelfGate]: its measures are floating point. *)
Inductive ShedReason := IntakeAge | Cps.
Inductive AdmitDecision := Admit | RejectNew (reason : ShedReason) (retry_after_sec : Z).
Inductive BypassKind := BypassInternal | BypassEmergency.
Class SelfGate := {
  gate : Type;
  try_admit_external : gate -> AdmitDecision * gate;
  note_bypass : BypassKind -> gate -> gate;
}.

(** ** Faces ([core/mod.rs]) *)

Inductive IngressFace := FaceInternal | FaceExternal.
#[global] Instance IngressFace_eq_dec : EqDecision IngressFace.
Proof. solve_decision. Defined.
Record ExternalFace := mkExternal { ef_advertised : ProxyAddr; ef_int_cidrs : list Ipv4Cidr }.
Record ProxyConfig `{TagEnv} := mkConfig {
  pc_advertised : ProxyAddr;
  pc_external : option ExternalFace;
  pc_tags : TagKey; (** of the refusals *)
  pc_parse_tags : TagKey; (** of the answers to what does not parse *)
  pc_jitter_sec : Z;
}.

Section faces.
Context `{TagEnv} `{HostEnv}.
Variable cf : ProxyConfig.
Definition egress_advertised (target : ProxyAddr) : ProxyAddr :=
  match pc_external cf with
  | Some ext =>
      match to_socket_addr target with
      | Some sa => if contains_ip (ef_int_cidrs ext) (sa_ip sa) then pc_advertised cf else ef_advertised ext
      | None => ef_advertised ext
      end
  | None => pc_advertised cf
  end.
Definition advertised_for_ip (ip : IpAddr) : ProxyAddr :=
  match pc_external cf with
  | Some ext => if contains_ip (ef_int_cidrs ext) ip then pc_advertised cf else ef_advertised ext
  | None => pc_advertised cf
  end.
Definition is_self_addr (a : ProxyAddr) : bool :=
  bool_decide (a = pc_advertised cf) || match pc_external cf with Some ext => bool_decide (a = ef_advertised ext) | None => false end.
End faces.

(** ** What a turn sends, and how it ends *)

Inductive Sent :=
  | SentRequest (q : Req) (target : ProxyAddr)
  | SentResponse (p : Resp) (target : ProxyAddr)
  | SentFinal (dst : SocketAddr) (f : OwnFinal).
(** [RoutingDecisionKind], [RouteOutcome]. *)
Inductive DecisionKind := DReject | DSelectNew | DCancel | DAckHop | DLooseRoute | DWorkerOutbound | DDecodeForward | DDecodeForwardBackup.
#[global] Instance DecisionKind_eq_dec : EqDecision DecisionKind.
Proof. solve_decision. Defined.
Record Outcome := mkOutcome { oc_decision : DecisionKind; oc_target : option ProxyAddr }.
Definition rejected : Outcome := mkOutcome DReject None.

(** ** The state, and a monad over it that may end the turn *)

Section core.
Context `{MS : MemoSeam} `{RS : RoutingStrategy} `{SG : SelfGate}.
Record PState := mkPState {
  px_memo : memo;
  px_refusals : Refusals;
  px_set : WorkerSet;
  px_strategy : strategy;
  px_gate : gate;
  px_sent : list Sent;
}.

Definition M (A : Type) : Type := PState -> (Outcome + A) * PState.
Definition done_with {A} (a : A) : M A := fun s => (inr a, s).
Definition stop {A} (o : Outcome) : M A := fun s => (inl o, s).
Definition and_then {A B} (c : M A) (k : A -> M B) : M B := fun s => match c s with (inr a, s) => k a s | (inl o, s) => (inl o, s) end.

Definition lookup_entry (now : Z) (key : string) : M (option CancelEntry) := fun s =>
  let '(e, m) := memo_lookup key now (px_memo s) in
  (inr e, mkPState m (px_refusals s) (px_set s) (px_strategy s) (px_gate s) (px_sent s)).
Definition on_memo (f : memo -> memo) : M unit := fun s =>
  (inr tt, mkPState (f (px_memo s)) (px_refusals s) (px_set s) (px_strategy s) (px_gate s) (px_sent s)).
Definition on_refusals {A} (f : Refusals -> A * Refusals) : M A := fun s =>
  let '(a, r) := f (px_refusals s) in (inr a, mkPState (px_memo s) r (px_set s) (px_strategy s) (px_gate s) (px_sent s)).
Definition on_strategy {A} (f : strategy -> A * strategy) : M A := fun s =>
  let '(a, o) := f (px_strategy s) in (inr a, mkPState (px_memo s) (px_refusals s) (px_set s) o (px_gate s) (px_sent s)).
Definition on_gate {A} (f : gate -> A * gate) : M A := fun s =>
  let '(a, g) := f (px_gate s) in (inr a, mkPState (px_memo s) (px_refusals s) (px_set s) (px_strategy s) g (px_sent s)).
Definition on_set (f : WorkerSet -> WorkerSet) : M unit := fun s =>
  (inr tt, mkPState (px_memo s) (px_refusals s) (f (px_set s)) (px_strategy s) (px_gate s) (px_sent s)).
Definition the_set : M WorkerSet := fun s => (inr (px_set s), s).
Definition send (e : Sent) : M unit := fun s =>
  (inr tt, mkPState (px_memo s) (px_refusals s) (px_set s) (px_strategy s) (px_gate s) (px_sent s ++ [e])).
End core.
#[global] Arguments PState {_ _ _}.
#[global] Arguments mkPState {_ _ _}.
#[global] Arguments M {_ _ _}.

Declare Scope proxy_scope.
Delimit Scope proxy_scope with proxy.
Notation "'let*' x := c 'in' k" := (and_then c (fun x => k)) (at level 200, x pattern, right associativity) : proxy_scope.
