(* ===== verification/ProxyRequest.v ===== *)
(** * Front proxy: the request path

    [crates/sip-proxy/src/core/request/*.rs]: route preprocessing and direction
    ([classify.rs]), admission ([admission.rs]), own finals ([reply.rs]), the
    target of a request ([target.rs]), the double Record-Route
    ([record_route.rs]), the cookie on a worker's Via ([via_cookie.rs]) and the
    ladder that composes them ([route.rs]).  Metrics and traces are left out. *)

From S2P Require Import Prelude Texts TxnData ProxyTypes Topology WorkerRegistry BranchMemo LoadBalancer SipHops ProxyMsg ProxyRefusals ProxyCore.
From Stdlib Require Import Ascii.

Open Scope Z_scope.

(** The edits of a draft that a message may refuse. *)
Class DraftEnv := {
  pops_routes : Req -> nat -> bool;
  stamps_via : Req -> bool;
  freezes : Req -> bool;
}.

(** ** [classify.rs] *)

Record Classified := mkClassified {
  c_own_routes : list SipUri;
  c_cookie : option RouteParams;
  c_worker_outbound : bool;
  c_via_worker : option ProxyAddr;
  c_loose_route_next_hop : option ProxyAddr;
}.
Definition with_routes (r : option (list SipUri)) (q : Req) : Req :=
  mkReq (q_method q) (q_uri q) (q_via q) (q_vias_below q) (q_from_tag q) (q_to_tag q) (q_call_id q) (q_cseq q) (q_max_forwards q) (q_proxy_require q)
    r (q_record_routes q) (q_headers q).
Definition has_route (q : Req) : bool := negb (bool_decide (q_routes q = Some [])).
Fixpoint leading (f : SipUri -> bool) (l : list SipUri) : nat :=
  match l with [] => O | u :: l => if f u then S (leading f l) else O end.
(** The entry the direction is read from. *)
Definition direction_route (self_routes : nat) (routes : list SipUri) : option SipUri :=
  match self_routes with
  | O => None
  | n => if Nat.even n then routes !! (n - 2)%nat else head routes
  end.
Definition known_worker (a : ProxyAddr) (now : Z) (s : WorkerSet) : bool := bool_decide (is_Some (lookup_by_address a now s)).

Section classify.
Context `{TE : TagEnv} `{HE : HostEnv} `{DE : DraftEnv}.
Variable cf : ProxyConfig.
Variable now : Z.

Definition worker_via_sent_by (q : Req) (s : WorkerSet) : option ProxyAddr :=
  let addr := hp_pair (hop_sent_by (q_via q)) in if known_worker addr now s then Some addr else None.
Definition is_self_route (u : SipUri) : bool := is_self_addr cf (host_port u).

Definition classify (q : Req) (src : SocketAddr) (face : IngressFace) (s : WorkerSet) : option (Req * Classified) :=
  let routes := default [] (q_routes q) in
  let self_routes := leading is_self_route routes in
  let external := bool_decide (face = FaceExternal) in
  let '(cookie, worker_outbound) :=
    match direction_route self_routes routes with
    | Some u =>
        let params := cookie_params u in
        if negb (bool_decide (is_Some (rp_get "outbound" params))) then (Some params, false)
        else if external then (Some params, false)
        else (None, true)
    | None => (None, false)
    end in
  if negb ((self_routes =? 0)%nat || pops_routes q self_routes) then None
  else
    let draft := match self_routes with O => q | n => with_routes (Some (drop n routes)) q end in
    let own := take self_routes routes in
    if external then
      let draft := if (self_routes <? length routes)%nat || (bool_decide (routes = []) && has_route q) then with_routes (Some []) draft else draft in
      Some (draft, mkClassified own cookie false None None)
    else
      let via_worker := if negb worker_outbound || is_dialog_creating (q_method q) then worker_via_sent_by q s else None in
      let spiral_reentry := (2 <? self_routes)%nat && Nat.even self_routes && bool_decide (is_Some cookie) in
      let '(worker_outbound, cookie) :=
        if negb worker_outbound && negb spiral_reentry && (known_worker (addr_of_sock src) now s || bool_decide (is_Some via_worker))
        then (true, None) else (worker_outbound, cookie) in
      let loose := match routes !! self_routes with
                   | Some u => if is_loose_route u then Some (route_target u) else None
                   | None => None
                   end in
      Some (draft, mkClassified own cookie worker_outbound via_worker loose).
End classify.

Section request.
Context `{TE : TagEnv} `{HE : HostEnv} `{DE : DraftEnv} `{RE : RefusalEnv} `{XE : TextEnv} `{BE : BranchEnv}.
Context `{MS : MemoSeam} `{RS : RoutingStrategy} `{SG : SelfGate}.
Variable cf : ProxyConfig.
(** One turn: the clock's reading, the membership, whether the first worker
    view is in. *)
Variable now : Z.
Variable members : list Peer.
Variable first_view : bool.
Local Open Scope proxy_scope.
Notation view s := (mkView s members now).

(** ** Own finals ([reply.rs]) *)

Definition reply (q : Req) (src : SocketAddr) (status : Z) (unsupported : list string) : M unit :=
  if answerable q then send (SentFinal src (mkFinal status (for_request (pc_tags cf) q).1 None unsupported)) else done_with tt.
Definition reply_reject {A} (q : Req) (src : SocketAddr) (status : Z) (unsupported : list string) : M A :=
  let* _ := (if bool_decide (q_method q = MAck) then done_with tt else reply q src status unsupported) in
  stop rejected.
Definition send_own_final (src : SocketAddr) (f : option OwnFinal) : M unit :=
  match f with Some f => send (SentFinal src f) | None => done_with tt end.
Definition refuse_new {A} (q : Req) (src : SocketAddr) (retry_after_sec : Z) : M A :=
  let* f := on_refusals (refuse (pc_tags cf) (pc_jitter_sec cf) q retry_after_sec now) in
  let* _ := send_own_final src f in
  stop rejected.
Definition repeat_refusal (q : Req) (src : SocketAddr) : M unit :=
  let* f := on_refusals (repeat_refused q now) in
  match f with
  | Some f => let* _ := send (SentFinal src f) in stop rejected
  | None => done_with tt
  end.
Definition cancel_refused (q : Req) (src : SocketAddr) : M unit :=
  let* f := on_refusals (cancel_answer q now) in
  match f with
  | Some f => let* _ := send (SentFinal src f) in stop (mkOutcome DCancel None)
  | None => done_with tt
  end.
(** [drop_without_target] of [target.rs]. *)
Definition drop_without_target {A} : M A := stop rejected.
Definition reply_select_failure {A} (q : Req) (src : SocketAddr) (e : SelectError) : M A :=
  let retry_after := match e with NoTarget _ => 5 | RateCapExhausted _ sec => sec end in
  if bool_decide (q_method q = MAck) then drop_without_target
  else match e with
       | NoTarget _ => if first_view then refuse_new q src retry_after else drop_without_target
       | RateCapExhausted _ _ => refuse_new q src retry_after
       end.

(** ** Admission ([admission.rs]) *)

Definition admits_as_new (q : Req) (face : IngressFace) (cookie : option RouteParams) : bool :=
  bool_decide (face = FaceExternal) && bool_decide (q_method q = MInvite) &&
  bool_decide (is_Some (filled (q_to_tag q))) &&
  match cookie with None => true | Some c => negb (bool_decide (is_Some (st_verified c (req_msg q)))) end.
Definition admit_new_call (q : Req) (src : SocketAddr) (is_emergency : bool) : M unit :=
  if is_emergency then on_gate (fun g => (tt, note_bypass BypassEmergency g))
  else
    let* d := on_gate try_admit_external in
    match d with
    | Admit => done_with tt
    | RejectNew _ retry_after_sec => refuse_new q src retry_after_sec
    end.

(** ** Targets ([target.rs]) *)

Definition invite_key (q : Req) : string := invite_txn_key (hop_via (q_via q)) (q_call_id q) (q_from_tag q) (q_cseq q).
Definition rtx_key (q : Req) : string := retransmit_key (hop_via (q_via q)) (q_call_id q) (q_from_tag q) (method_str (q_method q)) (q_cseq q).
Definition ack_key (q : Req) : string := ack_hop_key (hop_via (q_via q)) (q_call_id q) (q_from_tag q) (q_cseq q).

Definition request_uri_target (q : Req) (src : SocketAddr) : M ProxyAddr :=
  if is_opaque (q_uri q) then reply_reject q src 400 []
  else if bool_decide (is_Some (u_opaque_part (q_uri q))) then reply_reject q src 416 []
  else done_with (host_port (q_uri q)).
Definition select_target (q : Req) (src : SocketAddr) (opts : SelectOpts) : M ProxyAddr :=
  let* _ := (if admit_as_new opts then admit_new_call q src (is_emergency_request (as_request q)) else done_with tt) in
  let* s := the_set in
  let* r := on_strategy (st_select (req_msg q) opts (view s)) in
  match r with
  | inr target => done_with target
  | inl e => reply_select_failure q src e
  end.
Definition placed (d : DecodeResult) : option ProxyAddr :=
  match d with Forward t _ | ForwardBackup t _ => Some t | _ => None end.
Definition admitted_hop (q : Req) (cookie : option RouteParams) : M (option ProxyAddr) :=
  let* s := the_set in
  let by_rank :=
    match st_rank (req_msg q) (view s) with
    | Node target => done_with (Some target)
    | NoNode => done_with None
    | Unranked =>
        let* r := on_strategy (st_select (req_msg q) (mkOpts false false) (view s)) in
        done_with (match r with inr t => Some t | inl _ => None end)
    end in
  match cookie with
  | None => by_rank
  | Some c =>
      match st_decode c (req_msg q) (view s) with
      | Forward t _ | ForwardBackup t _ => done_with (Some t)
      | Unroutable => done_with None
      | Reject _ _ | DecodeUnknown _ => by_rank
      end
  end.
Definition admitted_target (q : Req) (cookie : option RouteParams) : M ProxyAddr :=
  let* t := admitted_hop q cookie in
  match t with Some t => done_with t | None => drop_without_target end.
Definition follow_live_hop (went : ProxyAddr) (cookie : option RouteParams) (q : Req) (s : WorkerSet) : option ProxyAddr :=
  match cookie with
  | None => Some went
  | Some c =>
      let live_there := existsb (fun id => match id ≫= (fun id => resolve id s) with
                                           | Some w => bool_decide (we_address w = went) && is_alive w
                                           | None => false
                                           end) [st_primary c; st_backup c] in
      if live_there then Some went
      else match st_decode c (req_msg q) (view s) with
           | Forward t _ | ForwardBackup t _ => Some t
           | Unroutable => None
           | Reject _ _ | DecodeUnknown _ => Some went
           end
  end.
Definition follow_or_drop (went : ProxyAddr) (cookie : option RouteParams) (q : Req) : M ProxyAddr :=
  let* s := the_set in
  match follow_live_hop went cookie q s with Some t => done_with t | None => drop_without_target end.
Definition cancel_target (q : Req) (src : SocketAddr) (c : Classified) : M ProxyAddr :=
  let* found := lookup_entry now (invite_key q) in
  match found with
  | None =>
      let* _ := cancel_refused q src in
      match c_loose_route_next_hop c with
      | Some next => done_with next
      | None => if c_worker_outbound c then request_uri_target q src else admitted_target q (c_cookie c)
      end
  | Some e => follow_or_drop (ce_target e) (ce_stickiness e) q
  end.
(** [None]: no entry, or no branch. *)
Definition invite_hop (q : Req) : M (option ProxyAddr) :=
  match top_via_branch q with
  | None => done_with None
  | Some _ =>
      let* found := lookup_entry now (invite_key q) in
      match found with
      | None => done_with None
      | Some e => let* t := follow_or_drop (ce_target e) (ce_stickiness e) q in done_with (Some t)
      end
  end.
Definition cookie_target (q : Req) (src : SocketAddr) (cookie : RouteParams) (rtx_hit : option CancelEntry) (face : IngressFace)
    : M (ProxyAddr * DecisionKind) :=
  let* s := the_set in
  match st_decode cookie (req_msg q) (view s) with
  | Forward target _ => done_with (target, DDecodeForward)
  | ForwardBackup target _ => done_with (target, DDecodeForwardBackup)
  | Reject status _ => reply_reject q src status []
  | Unroutable => drop_without_target
  | DecodeUnknown is_emergency =>
      match rtx_hit with
      | Some found => done_with (ce_target found, DDecodeForward)
      | None =>
          let* t := select_target q src (mkOpts is_emergency (admits_as_new q face (Some cookie))) in
          done_with (t, DDecodeForward)
      end
  end.

(** ** The double Record-Route ([record_route.rs]) *)

Definition push_record_routes (l : list SipUri) (q : Req) : Req :=
  mkReq (q_method q) (q_uri q) (q_via q) (q_vias_below q) (q_from_tag q) (q_to_tag q) (q_call_id q) (q_cseq q) (q_max_forwards q) (q_proxy_require q)
    (q_routes q) (l ++ q_record_routes q) (q_headers q).
Definition first_some_of {A} (a b : option A) : option A := match a with Some x => Some x | None => b end.
Definition insert_double_record_route (draft q : Req) (src : SocketAddr) (target : ProxyAddr) (is_worker_outbound : bool)
    (via_worker_addr : option ProxyAddr) (repeated : option RouteParams) (s : WorkerSet) : Req * option RouteParams :=
  let is_initial := negb (bool_decide (is_Some (filled (q_to_tag q)))) in
  if negb (is_dialog_creating (q_method q)) || negb is_initial then (draft, None)
  else
    let cookie_addr := if is_worker_outbound then default (addr_of_sock src) via_worker_addr else target in
    let stickiness := first_some_of repeated
      (if is_worker_outbound then st_originated cookie_addr (req_msg q) (stated_owners (q_via q)) (view s)
       else st_encode cookie_addr (req_msg q) (view s)) in
    let external_party_adv := if is_worker_outbound then egress_advertised cf target else advertised_for_ip cf (sa_ip src) in
    let worker_party_adv := if is_worker_outbound then egress_advertised cf cookie_addr else egress_advertised cf target in
    let cross_face := negb (bool_decide (external_party_adv = worker_party_adv)) in
    let cookie_rr := record_route external_party_adv (default [] stickiness) in
    let outbound_rr := record_route_flagged worker_party_adv (if cross_face then default [] stickiness else []) "outbound" in
    (push_record_routes (if is_worker_outbound then [cookie_rr; outbound_rr] else [outbound_rr; cookie_rr]) draft, stickiness).

(** ** The cookie on a worker's Via ([via_cookie.rs]) *)

Definition via_cookie (q : Req) (c : Classified) (originator : ProxyAddr) (minted : option RouteParams) : M (option RouteParams) :=
  let* invite := (if bool_decide (q_method q = MCancel) || bool_decide (q_method q = MAck) then lookup_entry now (invite_key q) else done_with None) in
  match invite with
  | Some e => done_with (ce_via_cookie e)
  | None =>
      if negb (c_worker_outbound c) then done_with None
      else
        let* s := the_set in
        let carried := first_some (fun u => st_verified (cookie_params u) (req_msg q)) (c_own_routes c) in
        let own := first_some_of minted (st_originated originator (req_msg q) (stated_owners (q_via q)) (view s)) ≫= (fun p => st_verified p (req_msg q)) in
        done_with (cookie ← first_some_of carried own;
                   Some (if states_primary (q_via q)
                         then match st_mark cookie with Some (n, v) => rp_insert n v cookie | None => cookie end
                         else cookie))
  end.

(** ** The ladder ([route.rs]) *)

Definition DEFAULT_MAX_FORWARDS : Z := 70.
Definition stamp_and_count (src : SocketAddr) (mf_next : Z) (q : Req) : Req :=
  let '(host, port) := observed_source src in
  mkReq (q_method q) (q_uri q) (stamped_from host port (q_via q)) (q_vias_below q) (q_from_tag q) (q_to_tag q) (q_call_id q) (q_cseq q) (Some mf_next)
    (q_proxy_require q) (q_routes q) (q_record_routes q) (q_headers q).
Definition push_via (h : ViaHop) (q : Req) : Req :=
  mkReq (q_method q) (q_uri q) h (q_via q :: q_vias_below q) (q_from_tag q) (q_to_tag q) (q_call_id q) (q_cseq q) (q_max_forwards q) (q_proxy_require q)
    (q_routes q) (q_record_routes q) (q_headers q).
(** The non-2xx ACK's hop; an ACK to a final of the proxy's own ends here. *)
Definition ack_hop_decision (q : Req) : M (option CancelEntry) :=
  if negb (bool_decide (q_method q = MAck)) then done_with None
  else if acknowledges_own_final (pc_tags cf) q || acknowledges_own_final (pc_parse_tags cf) q then stop (mkOutcome DSelectNew None)
  else
    let* found := lookup_entry now (ack_key q) in
    done_with (e ← found;
               let same_txn := bool_decide (is_Some (top_via_branch q)) in
               if same_txn || negb (has_route q) then Some e else None).
(** The target of the ladder's middle rungs. *)
Definition choose (q : Req) (src : SocketAddr) (face : IngressFace) (c : Classified) (ack_hop : option CancelEntry) (placed_ack : option ProxyAddr)
    (rtx_hit : option CancelEntry) : M (ProxyAddr * DecisionKind) :=
  if bool_decide (q_method q = MCancel) then let* t := cancel_target q src c in done_with (t, DCancel)
  else match ack_hop with
  | Some found => done_with (ce_target found, DAckHop)
  | None =>
  match placed_ack with
  | Some t => done_with (t, DAckHop)
  | None =>
  match c_loose_route_next_hop c with
  | Some next => done_with (next, DLooseRoute)
  | None =>
  if c_worker_outbound c then let* t := request_uri_target q src in done_with (t, DWorkerOutbound)
  else match c_cookie c with
  | Some cookie => cookie_target q src cookie rtx_hit face
  | None =>
  match rtx_hit with
  | Some found => let* t := follow_or_drop (ce_target found) (ce_minted found) q in done_with (t, DSelectNew)
  | None =>
  if bool_decide (q_method q = MAck) then let* t := admitted_target q None in done_with (t, DAckHop)
  else let* t := select_target q src (mkOpts false (admits_as_new q face None)) in done_with (t, DSelectNew)
  end end end end end.
(** What the forward leaves in the memo; the cookie a CANCEL re-resolves a dead
    worker through. *)
Definition kept_cookie (q : Req) (c : Classified) (minted : option RouteParams) : option RouteParams :=
  if c_worker_outbound c then None else first_some_of (c_cookie c ≫= (fun p => st_verified p (req_msg q))) minted.
Definition remember_forward (q : Req) (c : Classified) (has_branch : bool) (went : ProxyAddr) (branch : string) (minted via_ck : option RouteParams) : M unit :=
  let* _ := (if negb (bool_decide (q_method q = MCancel)) && has_branch
             then on_memo (memo_remember (rtx_key q) (mkCancelEntry went branch None minted via_ck) Retransmission now)
             else done_with tt) in
  if bool_decide (q_method q = MInvite)
  then on_memo (memo_remember (invite_key q) (mkCancelEntry went branch (kept_cookie q c minted) None via_ck) InviteTransaction now)
  else done_with tt.

(** The ladder down to the target, for a request past the preflight checks. *)
Record Routed := mkRouted { ro_draft : Req; ro_class : Classified; ro_target : ProxyAddr; ro_decision : DecisionKind; ro_rtx : option CancelEntry }.
Definition find_route (q : Req) (src : SocketAddr) (face : IngressFace) : M Routed :=
  let is_ack := bool_decide (q_method q = MAck) in
  let is_cancel := bool_decide (q_method q = MCancel) in
  let* ack_hop := ack_hop_decision q in
  let* rtx_hit := (if is_cancel || negb (bool_decide (is_Some (top_via_branch q))) then done_with None else lookup_entry now (rtx_key q)) in
  let first_copy := negb (bool_decide (is_Some rtx_hit)) in
  let* s := the_set in
  match classify cf now q src face s with
  | None => stop rejected
  | Some (draft, c) =>
      let* _ := (if first_copy && negb (c_worker_outbound c) && negb is_ack && negb is_cancel then repeat_refusal q src else done_with tt) in
      let is_emergency := is_emergency_request (as_request q) in
      let* _ := (if first_copy && bool_decide (q_method q = MInvite) && negb (bool_decide (is_Some (filled (q_to_tag q))))
                 then (if c_worker_outbound c && negb is_emergency then on_gate (fun g => (tt, note_bypass BypassInternal g))
                       else admit_new_call q src is_emergency)
                 else done_with tt) in
      let* placed_ack := (if is_ack && negb (bool_decide (is_Some ack_hop)) && negb (c_worker_outbound c)
                             && negb (bool_decide (is_Some (c_loose_route_next_hop c)))
                          then invite_hop q else done_with None) in
      let* chosen := choose q src face c ack_hop placed_ack rtx_hit in
      done_with (mkRouted draft c chosen.1 chosen.2 rtx_hit)
  end.
(** From the target on: the edits of the draft, the memos, the send. *)
Definition forwarded (q : Req) (src : SocketAddr) (mf : Z) (r : Routed) (s : WorkerSet) : Req * option RouteParams :=
  insert_double_record_route (stamp_and_count src (mf - 1) (ro_draft r)) q src (ro_target r) (c_worker_outbound (ro_class r)) (c_via_worker (ro_class r))
    (ro_rtx r ≫= ce_minted) s.
Definition pushed_via (q : Req) (target : ProxyAddr) (via_ck : option RouteParams) : ViaHop :=
  via_with_cookie (requesting_rport (with_branch (stateless_branch q) (via_udp (egress_advertised cf target)))) via_ck.
Definition went (r : Routed) : ProxyAddr := match ro_rtx r with Some found => ce_target found | None => ro_target r end.
Definition forward (q : Req) (src : SocketAddr) (mf : Z) (r : Routed) : M Outcome :=
  if negb (stamps_via (ro_draft r)) then stop rejected
  else
    let* s := the_set in
    let '(draft, minted) := forwarded q src mf r s in
    let originator := default (addr_of_sock src) (c_via_worker (ro_class r)) in
    let* via_ck := (match ro_rtx r with Some found => done_with (ce_via_cookie found) | None => via_cookie q (ro_class r) originator minted end) in
    let draft := push_via (pushed_via q (ro_target r) via_ck) draft in
    let* _ := remember_forward q (ro_class r) (bool_decide (is_Some (top_via_branch q))) (went r) (stateless_branch q) minted via_ck in
    if negb (freezes draft) then stop rejected
    else
      let* _ := send (SentRequest draft (ro_target r)) in
      done_with (mkOutcome (ro_decision r) (Some (ro_target r))).

Definition route_request (q : Req) (src : SocketAddr) (face : IngressFace) : M Outcome :=
  let is_ack := bool_decide (q_method q = MAck) in
  let mf := default DEFAULT_MAX_FORWARDS (q_max_forwards q) in
  if mf <? 1 then (if is_ack then stop rejected else reply_reject q src 483 [])
  else if negb (bool_decide (q_proxy_require q = [])) then (if is_ack then stop rejected else reply_reject q src 420 (q_proxy_require q))
  else let* r := find_route q src face in forward q src mf r.
End request.
