(* ===== verification/ProxyResponse.v ===== *)
(** * Front proxy: the response path

    [crates/sip-proxy/src/core/response.rs], [response/owner.rs] and
    [response/final_memo.rs]: which owner of its call a response goes to, the
    Via it follows, and what an INVITE's final leaves for its ACK.  Metrics and
    traces are left out. *)

From S2P Require Import Prelude Texts TxnData ProxyTypes Topology WorkerRegistry BranchMemo LoadBalancer SipHops ProxyMsg ProxyRefusals ProxyCore.
From Stdlib Require Import Ascii.

Open Scope Z_scope.

(** Whether a response's Via can be popped and the rest rendered. *)
Class RelayEnv := { relays : Resp -> bool }.

Inductive OwnerRoute := AlongVia | ToOwner (a : ProxyAddr) | Nowhere.
#[global] Instance OwnerRoute_eq_dec : EqDecision OwnerRoute.
Proof. solve_decision. Defined.

Definition pop_via (p : Resp) : Resp :=
  mkResp (p_status p) (tail (p_vias p)) (p_method p) (p_cseq p) (p_from_tag p) (p_to_tag p) (p_call_id p) (p_record_routes p).
Definition not_dead (w : WorkerEntry) : bool := negb (bool_decide (we_health w = Dead)).

Section response.
Context `{TE : TagEnv} `{HE : HostEnv} `{LE : RelayEnv}.
Context `{MS : MemoSeam} `{RS : RoutingStrategy} `{SG : SelfGate}.
Variable cf : ProxyConfig.
Variable now : Z.
Variable members : list Peer.
Local Open Scope proxy_scope.
Notation view s := (mkView s members now).

(** ** The owner rule ([owner.rs]) *)

Definition is_invite_response (p : Resp) : bool := bool_decide (p_method p = MInvite).
Definition record_route_cookie (p : Resp) (worker : string) : option RouteParams :=
  List.find (fun params => bool_decide (st_primary params = Some worker))
    (map cookie_params (filter (fun u => is_self_addr cf (host_port u) = true) (rev (default [] (p_record_routes p))))).
Definition worker_moved (dead : WorkerEntry) (s : WorkerSet) : option ProxyAddr :=
  w ← resolve (we_id dead) s;
  if negb (bool_decide (we_address w = we_address dead)) && not_dead w then Some (we_address w) else None.
Definition placed_on (cookie : RouteParams) (p : Resp) (s : WorkerSet) : OwnerRoute :=
  match st_decode cookie (resp_msg p) (view s) with
  | Forward t _ | ForwardBackup t _ => ToOwner t
  | Reject _ _ | DecodeUnknown _ | Unroutable => Nowhere
  end.
Definition owner_route (p : Resp) (ours : ViaHop) (sent_by : ProxyAddr) (s : WorkerSet) : OwnerRoute :=
  let named := lookup_by_address sent_by now s in
  let dead := match named with Some n => if not_dead n then None else Some n | None => None end in
  let cookie :=
    match st_verified (via_cookie_params ours) (resp_msg p) with
    | Some c => Some c
    | None => d ← dead; record_route_cookie p (we_id d)
    end in
  match cookie with
  | None =>
      match dead with
      | Some d => match worker_moved d s with Some a => ToOwner a | None => Nowhere end
      | None => AlongVia
      end
  | Some cookie =>
      let primary := default ""%string (st_primary cookie) in
      let backup := default ""%string (st_backup cookie) in
      let held_by_primary := is_invite_response p && st_marked (via_cookie_params ours) in
      if held_by_primary && negb (match named with Some n => String.eqb (we_id n) primary | None => false end) then placed_on cookie p s
      else
        let holder := match named with
                      | Some n => if String.eqb (we_id n) primary || String.eqb (we_id n) backup then we_id n else primary
                      | None => primary
                      end in
        if match named with Some n => String.eqb (we_id n) holder && not_dead n | None => false end then AlongVia
        else match resolve holder s with
             | Some w => if not_dead w then ToOwner (we_address w) else placed_on cookie p s
             | None => placed_on cookie p s
             end
  end.

(** ** What a final leaves ([final_memo.rs]) *)

Definition remember_final (p : Resp) (next ours : ViaHop) (src : SocketAddr) : M unit :=
  if (p_status p <? 200) || negb (bool_decide (p_method p = MInvite)) then done_with tt
  else
    let* _ := on_memo (memo_shorten (invite_txn_key (hop_via next) (p_call_id p) (p_from_tag p) (p_cseq p)) now) in
    if negb ((300 <=? p_status p) && (p_status p <? 700)) then done_with tt
    else on_memo (memo_remember (ack_hop_key (hop_via next) (p_call_id p) (p_from_tag p) (p_cseq p))
                    (mkCancelEntry (addr_of_sock src) (default ""%string (hop_branch ours)) None None None) Retransmission now).

(** ** The relay ([response.rs]) *)

Definition external_response_target (next : ViaHop) (s : WorkerSet) : option ProxyAddr :=
  let target := response_target next in
  if bool_decide (is_Some (lookup_by_address target now s)) then Some target
  else
    let sent_by := hp_pair (hop_sent_by next) in
    if bool_decide (is_Some (lookup_by_address sent_by now s)) then Some sent_by else None.
(** Where a response goes; [None] drops it. *)
Definition relay_target (route : OwnerRoute) (face : IngressFace) (next : ViaHop) (s : WorkerSet) : option ProxyAddr :=
  match route, face with
  | ToOwner target, _ => Some target
  | Nowhere, _ => None
  | AlongVia, FaceInternal => Some (response_target next)
  | AlongVia, FaceExternal => external_response_target next s
  end.
Definition handle_response (p : Resp) (src : SocketAddr) (face : IngressFace) : M unit :=
  match p_vias p with
  | ours :: next :: _ =>
      if negb (is_self_addr cf (hp_pair (hop_sent_by ours))) then done_with tt
      else
        let sent_by := hp_pair (hop_sent_by next) in
        let* _ := on_set (rearm_departed sent_by now) in
        let* s := the_set in
        match relay_target (owner_route p ours sent_by s) face next s with
        | None => done_with tt
        | Some target =>
            if negb (relays p) then done_with tt
            else
              let* _ := send (SentResponse (pop_via p) target) in
              remember_final p next ours src
        end
  | _ => done_with tt
  end.
End response.
