(* ===== verification/ProxyRefine.v ===== *)
(** * Front proxy: the core over the branch memo and over a map

    The core run over [CancelBranchLru] and over the trace of its memo
    operations, read as the map [spec_run] gives: while the memo evicts
    nothing, both send the same messages and keep the same state. *)

From S2P Require Import Prelude Texts TxnData ProxyTypes Topology WorkerRegistry BranchMemo BranchMemoInv BranchMemoSteps BranchMemoProps LoadBalancer SipHops ProxyMsg ProxyRefusals ProxyCore ProxyRequest ProxyResponse.

Open Scope Z_scope.

(** ** The memo as the trace of its operations *)

Definition map_of (ttl : Z) (l : list (MemoOp * Z)) : gmap string Held := spec_run ttl l ∅.
#[local] Instance trace_memo (ttl : Z) : MemoSeam := {|
  memo := list (MemoOp * Z);
  memo_lookup k now l := (live_at now (map_of ttl l !! k), l ++ [(OpLookup k, now)]);
  memo_remember k e lt now l := l ++ [(OpRemember k e lt, now)];
  memo_shorten k now l := l ++ [(OpShorten k, now)];
  memo_sweep i now l := l ++ [(OpSweep i, now)];
|}.

(** ** Runs of a core *)

(** What changes a core between its turns: the registry it reads, the sweeper. *)
Inductive ProxyEvent :=
  | EvRequest (q : Req) (src : SocketAddr) (face : IngressFace)
  | EvResponse (p : Resp) (src : SocketAddr) (face : IngressFace)
  | EvWorkers (s : WorkerSet)
  | EvSweep (stripe : nat).
Record TurnEnv := mkTurn { te_now : Z; te_members : list Peer; te_first_view : bool }.

Section run.
Context `{TE : TagEnv} `{HE : HostEnv} `{DE : DraftEnv} `{RE : RefusalEnv} `{XE : TextEnv} `{BE : BranchEnv} `{LE : RelayEnv}.
Context `{RS : RoutingStrategy} `{SG : SelfGate}.
Variable cf : ProxyConfig.

Definition proxy_turn `{MS : MemoSeam} (e : ProxyEvent) (t : TurnEnv) : M unit :=
  match e with
  | EvRequest q src face => fun s => (inr tt, (route_request cf (te_now t) (te_members t) (te_first_view t) q src face s).2)
  | EvResponse p src face => handle_response cf (te_now t) (te_members t) p src face
  | EvWorkers ws => on_set (fun _ => ws)
  | EvSweep i => on_memo (memo_sweep i (te_now t))
  end.
Definition proxy_run `{MS : MemoSeam} (evs : list (ProxyEvent * TurnEnv)) (s : PState) : PState :=
  foldl (fun s e => (proxy_turn e.1 e.2 s).2) s evs.

(** ** The simulation *)

Section sim.
Context `{ME : MemoEnv} {MW : MemoLaws ME}.
Variable b : MemoBounds.
Variable m0 : CancelBranchLru.
Hypothesis Hb : bounds_wf b.
Hypothesis Hm0 : with_bounds b = Some m0.
Notation ideal := (trace_memo (mb_invite_ttl_ms b)).
Notation real := lru_memo.

(** A trace the memo follows without evicting. *)
Definition quiet (l : list (MemoOp * Z)) : Prop :=
  Forall op_wf l /\ Z.of_nat (length l) + 1 < 2 ^ 64 /\ clocked 0 l /\ lru_evicted (memo_run l m0) = 0.
Definition same (s1 : PState (MS := real)) (s2 : PState (MS := ideal)) : Prop :=
  px_memo s1 = memo_run (px_memo s2) m0 /\ px_refusals s1 = px_refusals s2 /\ px_set s1 = px_set s2 /\
  px_strategy s1 = px_strategy s2 /\ px_gate s1 = px_gate s2 /\ px_sent s1 = px_sent s2.
Definition sim {A} (c1 : M (MS := real) A) (c2 : M (MS := ideal) A) : Prop := forall s1 s2, same s1 s2 ->
  exists d, px_memo (c2 s2).2 = px_memo s2 ++ d /\
    (quiet (px_memo (c2 s2).2) -> (c1 s1).1 = (c2 s2).1 /\ same (c1 s1).2 (c2 s2).2).

Lemma clocked_app T l1 l2 : clocked T (l1 ++ l2) <-> clocked T l1 /\ clocked (clock_after T l1) l2.
Proof. revert T. induction l1 as [|o l1 IH]; intros T; simpl; [tauto|]. rewrite IH. tauto. Qed.
Lemma evicted_mono l1 l2 : Forall op_wf (l1 ++ l2) -> Z.of_nat (length (l1 ++ l2)) + 1 < 2 ^ 64 ->
  lru_evicted (memo_run l1 m0) <= lru_evicted (memo_run (l1 ++ l2) m0).
Proof.
  destruct (with_bounds_ok b Hb) as (s0 & m & Hm & Hok & Hsh & _). rewrite Hm0 in Hm. simplify_eq.
  induction l2 as [|o l2 IH] using rev_ind; intros Hf Hl; [by rewrite app_nil_r|].
  rewrite (assoc_L (++)) in Hf, Hl |- *. rewrite length_app in Hl. simpl in Hl. apply Forall_app in Hf as [Hf Ho]. apply Forall_cons in Ho as [Ho _].
  destruct (memo_run_ok s0 (l1 ++ l2) 0 m Hok Hsh ltac:(lia) Hf) as [Hok' Hsh'].
  etrans; [apply IH; [done|lia]|]. unfold memo_run at 2. rewrite foldl_app. cbn [foldl].
  apply (memo_step_spec s0 _ (memo_run (l1 ++ l2) m) o Hok' Hsh' ltac:(lia) Ho).
Qed.
Lemma quiet_prefix l1 l2 : quiet (l1 ++ l2) -> quiet l1.
Proof.
  intros (Hf & Hl & Hc & He). pose proof (evicted_mono l1 l2 Hf Hl) as Hm. apply Forall_app in Hf as [Hf1 _]. apply clocked_app in Hc as [Hc _].
  rewrite length_app in Hl. split_and!; [done|lia|done|].
  destruct (with_bounds_ok b Hb) as (s0 & m & Hm' & Hok & Hsh & _). rewrite Hm0 in Hm'. simplify_eq.
  destruct (memo_run_ok s0 l1 0 m Hok Hsh ltac:(lia) Hf1) as [Hok' _]. pose proof (mo_evicted _ _ Hok'). lia.
Qed.

(** Combinators and primitives. *)
Lemma sim_done {A} (a : A) : sim (done_with a) (done_with a).
Proof. intros s1 s2 Hs. exists []. split; [by rewrite app_nil_r|done]. Qed.
Lemma sim_stop {A} o : sim (A := A) (stop o) (stop o).
Proof. intros s1 s2 Hs. exists []. split; [by rewrite app_nil_r|done]. Qed.
Lemma sim_then {A B} (c1 : M A) c2 (k1 : A -> M B) k2 : sim c1 c2 -> (forall a, sim (k1 a) (k2 a)) -> sim (and_then c1 k1) (and_then c2 k2).
Proof.
  intros Hc Hk s1 s2 Hs. destruct (Hc s1 s2 Hs) as (d & Hd & Hq). unfold and_then.
  destruct (c2 s2) as [[o|a] s2'] eqn:E2; simpl in *.
  - exists d. split; [done|]. intros Hl. destruct (Hq Hl) as [Hr Hs']. destruct (c1 s1) as [r1 s1']. simpl in *. by subst r1.
  - destruct (c1 s1) as [r1 s1'] eqn:E1. simpl in *.
    assert (Hg : forall t1, same t1 s2' -> exists d', px_memo (k2 a s2').2 = px_memo s2' ++ d' /\
      (quiet (px_memo (k2 a s2').2) -> (k1 a t1).1 = (k2 a s2').1 /\ same (k1 a t1).2 (k2 a s2').2)) by (intros t1 Ht; apply (Hk a t1 s2' Ht)).
    destruct (Hg (mkPState (MS := real) (memo_run (px_memo s2') m0) (px_refusals s2') (px_set s2') (px_strategy s2') (px_gate s2') (px_sent s2'))) as (d' & Hd' & _);
      [by repeat split|].
    exists (d ++ d'). split; [by rewrite Hd', Hd, (assoc_L (++))|]. intros Hl.
    destruct Hq as [Hr Hs']; [rewrite Hd' in Hl; by apply quiet_prefix in Hl|]. subst r1. destruct (Hg s1' Hs') as (d'' & _ & Hq'). by apply Hq'.
Qed.
Lemma sim_lookup now key : sim (lookup_entry now key) (lookup_entry now key).
Proof.
  intros s1 s2 (Hm & H1 & H2 & H3 & H4 & H5). unfold lookup_entry. simpl. exists [(OpLookup key, now)].
  destruct (lookup_memo key now (px_memo s1)) as [e m'] eqn:Hl. split; [done|]. intros (Qf & Ql & Qc & Qe). simpl in *.
  apply clocked_app in Qc as [Qc [Qn _]]. apply Forall_app in Qf as [Qf _]. rewrite length_app in Ql. simpl in Ql.
  assert (quiet (px_memo s2)) as (_ & _ & _ & Q0).
  { apply (quiet_prefix _ [(OpLookup key, now)]). split_and!; [apply Forall_app; by repeat constructor|rewrite length_app; simpl; lia|by apply clocked_app|done]. }
  destruct (memo_answers_map b m0 (px_memo s2) key now Hb Hm0 Qf ltac:(lia)) as [_ Ha]. specialize (Ha 0 Qc Qn Q0). rewrite <- Hm, Hl in Ha. simpl in Ha.
  split; [by rewrite Ha|]. split_and!; simpl; [|done..]. unfold memo_run. rewrite foldl_app. cbn [foldl memo_step]. fold (memo_run (px_memo s2) m0).
  by rewrite <- Hm, Hl.
Qed.
Lemma sim_remember now k e lt : sim (on_memo (memo_remember k e lt now)) (on_memo (memo_remember k e lt now)).
Proof.
  intros s1 s2 (Hm & H1 & H2 & H3 & H4 & H5). exists [(OpRemember k e lt, now)]. split; [done|]. intros _. split; [done|]. split_and!; simpl; [|done..].
  unfold memo_run. rewrite foldl_app. cbn [foldl memo_step]. fold (memo_run (px_memo s2) m0). by rewrite Hm.
Qed.
Lemma sim_shorten now k : sim (on_memo (memo_shorten k now)) (on_memo (memo_shorten k now)).
Proof.
  intros s1 s2 (Hm & H1 & H2 & H3 & H4 & H5). exists [(OpShorten k, now)]. split; [done|]. intros _. split; [done|]. split_and!; simpl; [|done..].
  unfold memo_run. rewrite foldl_app. cbn [foldl memo_step]. fold (memo_run (px_memo s2) m0). by rewrite Hm.
Qed.
Lemma sim_sweep now i : sim (on_memo (memo_sweep i now)) (on_memo (memo_sweep i now)).
Proof.
  intros s1 s2 (Hm & H1 & H2 & H3 & H4 & H5). exists [(OpSweep i, now)]. split; [done|]. intros _. split; [done|]. split_and!; simpl; [|done..].
  unfold memo_run. rewrite foldl_app. cbn [foldl memo_step]. fold (memo_run (px_memo s2) m0). by rewrite Hm.
Qed.
(** A step that leaves the memo alone. *)
Lemma sim_local {A} (c1 : M (MS := real) A) (c2 : M (MS := ideal) A) :
  (forall s1 s2, same s1 s2 -> px_memo (c2 s2).2 = px_memo s2 /\ (c1 s1).1 = (c2 s2).1 /\ same (c1 s1).2 (c2 s2).2) -> sim c1 c2.
Proof. intros H s1 s2 Hs. destruct (H s1 s2 Hs) as (E & H1 & H2). exists []. split; [by rewrite app_nil_r|done]. Qed.
Lemma sim_refusals {A} (f : Refusals -> A * Refusals) : sim (on_refusals f) (on_refusals f).
Proof.
  apply sim_local. intros s1 s2 (Hm & H1 & H2 & H3 & H4 & H5). unfold on_refusals. rewrite H1. destruct (f (px_refusals s2)). by repeat split.
Qed.
Lemma sim_strategy {A} (f : strategy -> A * strategy) : sim (on_strategy f) (on_strategy f).
Proof.
  apply sim_local. intros s1 s2 (Hm & H1 & H2 & H3 & H4 & H5). unfold on_strategy. rewrite H3. destruct (f (px_strategy s2)). by repeat split.
Qed.
Lemma sim_gate {A} (f : gate -> A * gate) : sim (on_gate f) (on_gate f).
Proof.
  apply sim_local. intros s1 s2 (Hm & H1 & H2 & H3 & H4 & H5). unfold on_gate. rewrite H4. destruct (f (px_gate s2)). by repeat split.
Qed.
Lemma sim_set f : sim (on_set f) (on_set f).
Proof. apply sim_local. intros s1 s2 (Hm & H1 & H2 & H3 & H4 & H5). unfold on_set. rewrite H2. by repeat split. Qed.
Lemma sim_the_set : sim the_set the_set.
Proof. apply sim_local. intros s1 s2 Hs. split; [done|]. split; [|done]. unfold the_set. simpl. destruct Hs as (_ & _ & H2 & _). by rewrite H2. Qed.
Lemma sim_send e : sim (send e) (send e).
Proof. apply sim_local. intros s1 s2 (Hm & H1 & H2 & H3 & H4 & H5). unfold send. rewrite H5. by repeat split. Qed.

Create HintDb sim_db.
#[local] Hint Resolve sim_done sim_stop sim_lookup sim_remember sim_shorten sim_refusals sim_strategy sim_gate sim_set sim_the_set sim_send : sim_db.
(** One step into the two computations, which are the same text. *)
Ltac sim_step :=
  match goal with
  | |- sim (and_then _ _) (and_then _ _) => apply sim_then; [|intros ?]
  | |- sim (if ?x then _ else _) _ => destruct x
  | |- sim (match ?x with _ => _ end) _ => destruct x
  | |- sim (let '(_, _) := ?x in _) _ => destruct x
  end.
Ltac sim_solve := repeat first [solve [auto with sim_db nocore] | sim_step].

Section turns.
Variable now : Z.
Variable members : list Peer.
Variable first_view : bool.

Lemma sim_reply_reject {A} q src st l : sim (A := A) (reply_reject cf q src st l) (reply_reject cf q src st l).
Proof. unfold reply_reject, reply. sim_solve. Qed.
Lemma sim_refuse_new {A} q src n : sim (A := A) (refuse_new cf now q src n) (refuse_new cf now q src n).
Proof. unfold refuse_new, send_own_final. sim_solve. Qed.
#[local] Hint Resolve sim_reply_reject sim_refuse_new : sim_db.
Lemma sim_admit q src e : sim (admit_new_call cf now q src e) (admit_new_call cf now q src e).
Proof. unfold admit_new_call. sim_solve. Qed.
Lemma sim_select_failure {A} q src e : sim (A := A) (reply_select_failure cf now first_view q src e) (reply_select_failure cf now first_view q src e).
Proof. unfold reply_select_failure, drop_without_target. sim_solve. Qed.
#[local] Hint Resolve sim_admit sim_select_failure : sim_db.
Lemma sim_select_target q src o : sim (select_target cf now members first_view q src o) (select_target cf now members first_view q src o).
Proof. unfold select_target. sim_solve. Qed.
Lemma sim_uri_target q src : sim (request_uri_target cf q src) (request_uri_target cf q src).
Proof. unfold request_uri_target. sim_solve. Qed.
Lemma sim_admitted q c : sim (admitted_target now members q c) (admitted_target now members q c).
Proof. unfold admitted_target, admitted_hop, drop_without_target. sim_solve. Qed.
Lemma sim_follow w c q : sim (follow_or_drop now members w c q) (follow_or_drop now members w c q).
Proof. unfold follow_or_drop, drop_without_target. sim_solve. Qed.
#[local] Hint Resolve sim_select_target sim_uri_target sim_admitted sim_follow : sim_db.
Lemma sim_find_route q src face : sim (find_route cf now members first_view q src face) (find_route cf now members first_view q src face).
Proof.
  unfold find_route, ack_hop_decision, repeat_refusal, invite_hop, choose, cancel_target, cancel_refused, cookie_target, drop_without_target. sim_solve.
Qed.
Lemma sim_forward q src mf r : sim (forward cf now members q src mf r) (forward cf now members q src mf r).
Proof. unfold forward, via_cookie, remember_forward. sim_solve. Qed.
#[local] Hint Resolve sim_find_route sim_forward : sim_db.
Lemma sim_request q src face : sim (route_request cf now members first_view q src face) (route_request cf now members first_view q src face).
Proof. unfold route_request. sim_solve. Qed.
Lemma sim_response p src face : sim (handle_response cf now members p src face) (handle_response cf now members p src face).
Proof. unfold handle_response, remember_final. sim_solve. Qed.
End turns.

Lemma sim_turn e t : sim (proxy_turn e t) (proxy_turn e t).
Proof.
  destruct e as [q src face|p src face|ws|i]; simpl; [|apply sim_response|apply sim_set|apply sim_sweep].
  intros s1 s2 Hs. destruct (sim_request (te_now t) (te_members t) (te_first_view t) q src face s1 s2 Hs) as (d & Hd & Hq).
  exists d. split; [done|]. simpl. intros Hl. split; [done|]. by apply Hq.
Qed.
Lemma turn_appends e t (s : PState (MS := ideal)) : exists d, px_memo (proxy_turn e t s).2 = px_memo s ++ d.
Proof.
  destruct (sim_turn e t (mkPState (MS := real) (memo_run (px_memo s) m0) (px_refusals s) (px_set s) (px_strategy s) (px_gate s) (px_sent s)) s) as (d & Hd & _);
    [by repeat split|by exists d].
Qed.
Lemma run_app `{MS : MemoSeam} l1 l2 (s : PState (MS := MS)) : proxy_run (l1 ++ l2) s = proxy_run l2 (proxy_run l1 s).
Proof. apply foldl_app. Qed.
Lemma run_appends evs (s : PState (MS := ideal)) : exists d, px_memo (proxy_run evs s) = px_memo s ++ d.
Proof.
  revert s. induction evs as [|e evs IH]; intros s; simpl; [exists []; by rewrite app_nil_r|].
  destruct (IH (proxy_turn e.1 e.2 s).2) as [d Hd]. destruct (turn_appends e.1 e.2 s) as [d' Hd']. exists (d' ++ d). by rewrite Hd, Hd', (assoc_L (++)).
Qed.
Lemma quiet_before l1 l2 (s : PState (MS := ideal)) : quiet (px_memo (proxy_run (l1 ++ l2) s)) -> quiet (px_memo (proxy_run l1 s)).
Proof. rewrite run_app. destruct (run_appends l2 (proxy_run l1 s)) as [d ->]. apply quiet_prefix. Qed.
Lemma sim_run evs s1 s2 : same s1 s2 -> quiet (px_memo (proxy_run evs s2)) -> same (proxy_run evs s1) (proxy_run evs s2).
Proof.
  revert s1 s2. induction evs as [|e evs IH] using rev_ind; intros s1 s2 Hs Hq; [done|]. pose proof (quiet_before _ _ _ Hq) as Hq'. rewrite !run_app in *.
  destruct (sim_turn e.1 e.2 _ _ (IH _ _ Hs Hq')) as (_ & _ & Hg). by apply Hg.
Qed.

(** C22: the bounded, striped memo is, to the core, a map of timed entries.
    Over any requests, responses, changes of the workers and sweeps, at clock
    readings that do not go back, the core over its [CancelBranchLru] sends the
    messages, in order, that the same core sends over the map every forward
    writes and every final shortens, and keeps the same refusals, strategy and
    gate, as long as the memo evicts nothing. *)
Theorem core_over_memo_is_over_map evs rf ws o g sent :
  quiet (px_memo (proxy_run evs (mkPState (MS := ideal) [] rf ws o g sent))) ->
  let real_end := proxy_run evs (mkPState (MS := real) m0 rf ws o g sent) in
  let ideal_end := proxy_run evs (mkPState (MS := ideal) [] rf ws o g sent) in
  px_sent real_end = px_sent ideal_end /\ px_refusals real_end = px_refusals ideal_end /\ px_set real_end = px_set ideal_end /\
  px_strategy real_end = px_strategy ideal_end /\ px_gate real_end = px_gate ideal_end /\ px_memo real_end = memo_run (px_memo ideal_end) m0.
Proof.
  intros Hq. destruct (sim_run evs (mkPState (MS := real) m0 rf ws o g sent) (mkPState (MS := ideal) [] rf ws o g sent)) as (H1 & H2 & H3 & H4 & H5 & H6); [|done..].
  by repeat split.
Qed.
End sim.
End run.
