(* ===== verification/ProxyHops.v ===== *)
(** * Front proxy: where a request may be sent

    A strategy's promise to the core, that it places only on workers read alive,
    and what the core makes of it: on the external face a request goes to such a
    worker or to a hop the memo holds for its own transaction, whatever its
    Routes, its Vias, its Request-URI and its source claim. *)

From S2P Require Import Prelude Texts TxnData ProxyTypes Topology WorkerRegistry WorkerRegistryProps BranchMemo BranchMemoInv BranchMemoSteps BranchMemoProps LoadBalancer LoadBalancerProps SipHops ProxyMsg ProxyRefusals ProxyCore ProxyRequest ProxyResponse ProxyRefine.

Open Scope Z_scope.

(** ** What a strategy promises *)

Definition distinct_workers (s : WorkerSet) : Prop := NoDup (map we_id (snapshot_of s)).
Class StrategyLaws (RS : RoutingStrategy) : Prop := {
  law_select m o v x t : distinct_workers (vw_set v) -> (st_select m o v x).1 = inr t -> routes_to (vw_set v) t;
  law_rank m v t : distinct_workers (vw_set v) -> st_rank m v = Node t -> routes_to (vw_set v) t;
  law_decode p m v t : distinct_workers (vw_set v) -> placed (st_decode p m v) = Some t -> routes_to (vw_set v) t;
}.
Lemma balancer_laws `{E : CookieEnv} `{O : LoadObserver} h : StrategyLaws (balancer h).
Proof.
  split; simpl.
  - intros m o v x t _ Hs. destruct (select_for_new_dialog m o (vw_set v) (vw_now v) x) as [r x'] eqn:Hr. simpl in Hs. subst r. by eapply select_alive.
  - intros m v t Hd Hr. by eapply placement_alive.
  - intros p m v t _. unfold decode_stickiness. destruct (check p m h) as [[]|c]; [done..|].
    destruct (alive_address (ck_w_pri c) (vw_set v)) as [a|] eqn:H1; [intros [= <-]; by eapply alive_address_alive|].
    destruct (alive_address (ck_w_bak c) (vw_set v)) as [a|] eqn:H2; [intros [= <-]; by eapply alive_address_alive|done].
Qed.

(** ** Reasoning on the turns of a core over the map *)

Definition is_request (e : Sent) : bool := match e with SentRequest _ _ => true | _ => false end.
Section hops.
Context `{TE : TagEnv} `{HE : HostEnv} `{DE : DraftEnv} `{RE : RefusalEnv} `{XE : TextEnv} `{BE : BranchEnv}.
Context `{RS : RoutingStrategy} `{SG : SelfGate}.
Variable ttl : Z.
Notation ideal := (trace_memo ttl).
Implicit Types s : PState (MS := ideal).

Definition entry_of s (now : Z) (k : string) : option CancelEntry := live_at now (map_of ttl (px_memo s) !! k).
Definition requests_of s : list Sent := filter (fun e => is_request e = true) (px_sent s).
(** Nothing the target depends on has moved, and no request was sent. *)
Definition unmoved s0 s : Prop :=
  px_set s = px_set s0 /\ map_of ttl (px_memo s) = map_of ttl (px_memo s0) /\ requests_of s = requests_of s0.
Definition triple {A} s0 (c : M (MS := ideal) A) (P : A -> Prop) : Prop := forall s, unmoved s0 s ->
  unmoved s0 (c s).2 /\ forall a, (c s).1 = inr a -> P a.

Lemma triple_done {A} s0 (a : A) (P : A -> Prop) : P a -> triple s0 (done_with a) P.
Proof. intros Ha s Hs. split; [done|]. intros a' [= <-]. done. Qed.
Lemma triple_stop {A} s0 o (P : A -> Prop) : triple s0 (stop o) P.
Proof. by intros s Hs. Qed.
Lemma triple_then {A B} s0 (c : M A) (k : A -> M B) P Q : triple s0 c P -> (forall a, P a -> triple s0 (k a) Q) -> triple s0 (and_then c k) Q.
Proof.
  intros Hc Hk s Hs. destruct (Hc s Hs) as [H1 H2]. unfold and_then. destruct (c s) as [[o|a] s']; simpl in *; [by split|]. by apply Hk; [apply H2|].
Qed.
Lemma triple_weaken {A} s0 (c : M A) (P Q : A -> Prop) : triple s0 c P -> (forall a, P a -> Q a) -> triple s0 c Q.
Proof. intros Hc Hpq s Hs. destruct (Hc s Hs) as [H1 H2]. split; [done|]. auto. Qed.
Lemma map_of_lookup l k now : map_of ttl (l ++ [(OpLookup k, now)]) = map_of ttl l.
Proof. unfold map_of, spec_run. by rewrite foldl_app. Qed.
Lemma triple_lookup s0 now k : triple s0 (lookup_entry now k) (fun e => e = entry_of s0 now k).
Proof.
  intros s (H1 & H2 & H3). simpl. split; [split_and!; simpl; [done| |done]|].
  - by rewrite map_of_lookup.
  - intros e [= <-]. unfold entry_of. by rewrite H2.
Qed.
Lemma triple_the_set s0 : triple s0 the_set (fun ws => ws = px_set s0).
Proof. intros s Hs. split; [done|]. intros ws [= <-]. apply Hs. Qed.
Lemma triple_refusals {A} s0 (f : Refusals -> A * Refusals) : triple s0 (on_refusals f) (fun _ => True).
Proof. intros s Hs. unfold on_refusals. by destruct (f (px_refusals s)). Qed.
Lemma triple_gate {A} s0 (f : gate -> A * gate) : triple s0 (on_gate f) (fun _ => True).
Proof. intros s Hs. unfold on_gate. by destruct (f (px_gate s)). Qed.
Lemma triple_strategy {A} s0 (f : strategy -> A * strategy) : triple s0 (on_strategy f) (fun a => exists x, a = (f x).1).
Proof.
  intros s Hs. unfold on_strategy. destruct (f (px_strategy s)) as [a o] eqn:Hf. split; [done|]. intros a' [= <-]. exists (px_strategy s). by rewrite Hf.
Qed.
Lemma triple_final s0 dst f : triple s0 (send (SentFinal dst f)) (fun _ => True).
Proof.
  intros s (H1 & H2 & H3). split; [|done]. split_and!; simpl; [done|done|]. unfold requests_of. simpl. rewrite filter_app. unfold requests_of in H3.
  rewrite H3. simpl. by rewrite app_nil_r.
Qed.

(** ** The rungs of the ladder *)

Section rungs.
Context {LW : StrategyLaws RS}.
Variable cf : ProxyConfig.
Variable now : Z.
Variable members : list Peer.
Variable first_view : bool.

Lemma triple_reject {A} s0 q src st l (P : A -> Prop) : triple s0 (reply_reject cf q src st l) P.
Proof.
  unfold reply_reject, reply. eapply triple_then; [|intros; apply triple_stop].
  repeat case_match; first [by apply (triple_done _ _ (fun _ => True))|apply triple_final].
Qed.
Lemma triple_refuse {A} s0 q src n (P : A -> Prop) : triple s0 (refuse_new cf now q src n) P.
Proof.
  unfold refuse_new, send_own_final. eapply triple_then; [apply triple_refusals|intros f _]. eapply triple_then; [|intros; apply triple_stop].
  destruct f; [apply triple_final|by apply (triple_done _ _ (fun _ => True))].
Qed.
Lemma triple_admit s0 q src e : triple s0 (admit_new_call cf now q src e) (fun _ => True).
Proof.
  unfold admit_new_call. destruct e; [apply triple_gate|]. eapply triple_then; [apply triple_gate|]. intros [|r n] _; [by apply triple_done|apply triple_refuse].
Qed.
Lemma triple_select s0 q src o : distinct_workers (px_set s0) ->
  triple s0 (select_target cf now members first_view q src o) (routes_to (px_set s0)).
Proof.
  intros Hd. unfold select_target. eapply (triple_then _ _ _ (fun _ => True)).
  { destruct (admit_as_new o); [apply triple_admit|by apply triple_done]. }
  intros _ _. eapply triple_then; [apply triple_the_set|]. intros ws ->. eapply triple_then; [apply triple_strategy|]. intros r [x Hr].
  destruct r as [e|target].
  - unfold reply_select_failure, drop_without_target. repeat case_match; first [apply triple_stop|apply triple_refuse].
  - apply triple_done. eapply (law_select _ _ (mkView (px_set s0) members now)); [done|]. by rewrite <- Hr.
Qed.
Lemma placed_routes s0 p m t : distinct_workers (px_set s0) -> placed (st_decode p m (mkView (px_set s0) members now)) = Some t -> routes_to (px_set s0) t.
Proof. intros Hd. by apply (law_decode p m (mkView (px_set s0) members now)). Qed.
Lemma triple_admitted s0 q ck : distinct_workers (px_set s0) -> triple s0 (admitted_target now members q ck) (routes_to (px_set s0)).
Proof.
  intros Hd. unfold admitted_target. apply (triple_then _ _ _ (fun t => forall a, t = Some a -> routes_to (px_set s0) a)).
  - unfold admitted_hop. eapply triple_then; [apply triple_the_set|]. intros ws ->.
    assert (triple s0 (match st_rank (req_msg q) (mkView (px_set s0) members now) with
      | Node target => done_with (Some target) | NoNode => done_with None
      | Unranked => and_then (on_strategy (st_select (req_msg q) (mkOpts false false) (mkView (px_set s0) members now)))
                      (fun r => done_with match r with inr t => Some t | inl _ => None end) end)
      (fun t => forall a, t = Some a -> routes_to (px_set s0) a)) as Hrank.
    { destruct (st_rank _ _) as [target| |] eqn:Hr.
      - apply triple_done. intros a [= <-]. by apply (law_rank _ (mkView (px_set s0) members now) _ Hd Hr).
      - by apply triple_done.
      - eapply triple_then; [apply triple_strategy|]. intros r [x Hx]. apply triple_done. destruct r as [|target]; [done|]. intros a [= <-].
        eapply (law_select _ _ (mkView (px_set s0) members now)); [done|]. by rewrite <- Hx. }
    destruct ck as [c|]; [|done]. pose proof (placed_routes s0 c (req_msg q)) as Hp.
    destruct (st_decode c _ _) as [a e|a e| | |]; try done; apply triple_done; [intros ? [= <-]; by apply Hp..|done].
  - intros [t|] Ht; [apply triple_done; by apply Ht|apply triple_stop].
Qed.
Lemma triple_follow s0 a ck q : distinct_workers (px_set s0) ->
  triple s0 (follow_or_drop now members a ck q) (fun t => t = a \/ routes_to (px_set s0) t).
Proof.
  intros Hd. unfold follow_or_drop. eapply triple_then; [apply triple_the_set|]. intros ws ->. destruct (follow_live_hop _ _ _ _ _ _) as [t|] eqn:Hf; [|apply triple_stop].
  apply triple_done. unfold follow_live_hop in Hf. destruct ck as [c|]; [|left; congruence]. destruct (existsb _ _); [left; congruence|].
  pose proof (placed_routes s0 c (req_msg q)) as Hp. destruct (st_decode c _ _); simplify_eq; auto.
Qed.

(** A hop of the transaction, or a worker read alive. *)
Definition transaction_keys (q : Req) : list string := [invite_key q; rtx_key q; ack_key q].
Definition hop_ok s0 (q : Req) (t : ProxyAddr) : Prop :=
  routes_to (px_set s0) t \/ exists k e, k ∈ transaction_keys q /\ entry_of s0 now k = Some e /\ ce_target e = t.
Lemma hop_entry s0 q k e : k ∈ transaction_keys q -> entry_of s0 now k = Some e -> hop_ok s0 q (ce_target e).
Proof. intros Hk He. right. by exists k, e. Qed.

Lemma classify_external q src ws d c : classify cf now q src FaceExternal ws = Some (d, c) ->
  c_worker_outbound c = false /\ c_loose_route_next_hop c = None /\ q_routes d = Some [].
Proof.
  unfold classify. rewrite bool_decide_true by done. set (routes := default [] (q_routes q)). set (n := leading _ _).
  assert (Hn : (n <= length routes)%nat).
  { unfold n. clearbody routes. clear n. induction routes as [|u l IH]; simpl; [done|]. destruct (is_self_route cf u); lia. }
  destruct (match direction_route n routes with Some u => _ | None => _ end) as [ck wo]. destruct (negb _); [done|]. intros [= <- <-]. split_and!; [done..|].
  destruct (n <? length routes)%nat eqn:Hlt; [done|]. apply Nat.ltb_ge in Hlt. assert (n = length routes) as Hl by lia. simpl.
  destruct (bool_decide (routes = []) && has_route q) eqn:Hr; [done|]. destruct n as [|n'] eqn:Hn'.
  - rewrite bool_decide_true in Hr by (by apply nil_length_inv). simpl in Hr. unfold has_route in Hr. apply negb_false_iff, bool_decide_eq_true in Hr. done.
  - simpl. by rewrite Hl, drop_all.
Qed.
Lemma triple_ack_hop s0 q : triple s0 (ack_hop_decision cf now q) (fun e => forall x, e = Some x -> entry_of s0 now (ack_key q) = Some x).
Proof.
  unfold ack_hop_decision. destruct (negb _); [by apply triple_done|]. destruct (_ || _); [apply triple_stop|]. eapply triple_then; [apply triple_lookup|].
  intros e ->. apply triple_done. intros x. destruct (entry_of s0 now (ack_key q)) as [e|]; [|done]. simpl. destruct (_ || _); [|done]. by intros [= <-].
Qed.
Lemma triple_invite_hop s0 q : distinct_workers (px_set s0) ->
  triple s0 (invite_hop now members q) (fun t => forall a, t = Some a -> hop_ok s0 q a).
Proof.
  intros Hd. unfold invite_hop. destruct (top_via_branch q); [|by apply triple_done]. eapply triple_then; [apply triple_lookup|]. intros e He.
  destruct e as [e|]; [|by apply triple_done]. eapply triple_then; [by apply triple_follow|]. intros t Ht. apply triple_done. intros a [= <-].
  destruct Ht as [->|Ht]; [|by left]. by apply (hop_entry _ _ (invite_key q)); [set_solver|].
Qed.
Lemma triple_cancel_target s0 q src c : distinct_workers (px_set s0) -> c_worker_outbound c = false -> c_loose_route_next_hop c = None ->
  triple s0 (cancel_target cf now members q src c) (hop_ok s0 q).
Proof.
  intros Hd Hw Hl. unfold cancel_target. eapply triple_then; [apply triple_lookup|]. intros e He. destruct e as [e|].
  - eapply triple_weaken; [by apply triple_follow|]. intros t [->|Ht]; [|by left]. by apply (hop_entry _ _ (invite_key q)); [set_solver|].
  - eapply (triple_then _ _ _ (fun _ => True)).
    { unfold cancel_refused. eapply triple_then; [apply triple_refusals|]. intros [f|] _; [|by apply triple_done].
      eapply triple_then; [apply triple_final|]. intros; apply triple_stop. }
    intros _ _. rewrite Hl, Hw. eapply triple_weaken; [by apply triple_admitted|]. by left.
Qed.
Lemma triple_cookie_target s0 q src ck rtx face : distinct_workers (px_set s0) ->
  triple s0 (cookie_target cf now members first_view q src ck rtx face) (fun td => routes_to (px_set s0) td.1 \/ exists e, rtx = Some e /\ td.1 = ce_target e).
Proof.
  intros Hd. unfold cookie_target. eapply triple_then; [apply triple_the_set|]. intros ws ->. pose proof (placed_routes s0 ck (req_msg q)) as Hp.
  destruct (st_decode ck _ _) as [t e|t e|st r|e|].
  - apply triple_done. left. by apply Hp.
  - apply triple_done. left. by apply Hp.
  - apply triple_reject.
  - destruct rtx as [x|]; [apply triple_done; right; by exists x|]. eapply triple_then; [by apply triple_select|]. intros t Ht. apply triple_done. by left.
  - apply triple_stop.
Qed.

Lemma triple_choose s0 q src face c ack_hop placed_ack rtx : distinct_workers (px_set s0) -> c_worker_outbound c = false -> c_loose_route_next_hop c = None ->
  (forall e, ack_hop = Some e -> entry_of s0 now (ack_key q) = Some e) -> (forall a, placed_ack = Some a -> hop_ok s0 q a) ->
  (forall e, rtx = Some e -> entry_of s0 now (rtx_key q) = Some e) ->
  triple s0 (choose cf now members first_view q src face c ack_hop placed_ack rtx) (fun td => hop_ok s0 q td.1).
Proof.
  intros Hd Hw Hl Ha Hp Hr. unfold choose. rewrite Hl, Hw.
  assert (forall e, rtx = Some e -> hop_ok s0 q (ce_target e)) as Hr' by (intros e He; apply (hop_entry _ _ (rtx_key q)); [set_solver|auto]).
  case_bool_decide; [eapply triple_then; [by apply triple_cancel_target|]; intros t Ht; by apply triple_done|].
  destruct ack_hop as [e|]; [apply triple_done; apply (hop_entry _ _ (ack_key q)); [set_solver|auto]|].
  destruct placed_ack as [a|]; [apply triple_done; auto|]. destruct (c_cookie c) as [ck|].
  { eapply triple_weaken; [by apply triple_cookie_target|]. intros [t d] [Ht|(e & He & Ht)]; simpl in *; [by left|]. subst t. auto. }
  destruct rtx as [e|].
  { eapply triple_then; [by apply triple_follow|]. intros t Ht. apply triple_done. destruct Ht as [->|Ht]; [by apply Hr'|by left]. }
  case_bool_decide; (eapply triple_then; [first [by apply triple_admitted|by apply triple_select]|]; intros t Ht; apply triple_done; by left).
Qed.
Lemma triple_find_route s0 q src : distinct_workers (px_set s0) ->
  triple s0 (find_route cf now members first_view q src FaceExternal) (fun r => hop_ok s0 q (ro_target r) /\ q_routes (ro_draft r) = Some []).
Proof.
  intros Hd. unfold find_route. eapply triple_then; [apply triple_ack_hop|]. intros ack_hop Ha.
  eapply (triple_then _ _ _ (fun e => forall x, e = Some x -> entry_of s0 now (rtx_key q) = Some x)).
  { destruct (_ || _); [by apply triple_done|]. eapply triple_weaken; [apply triple_lookup|]. intros e -> x. done. }
  intros rtx Hr. eapply triple_then; [apply triple_the_set|]. intros ws ->.
  destruct (classify cf now q src FaceExternal (px_set s0)) as [[draft c]|] eqn:Hc; [|apply triple_stop]. apply classify_external in Hc as (Hw & Hl & Hq).
  eapply (triple_then _ _ _ (fun _ => True)).
  { destruct (_ && _); [|by apply triple_done]. unfold repeat_refusal. eapply triple_then; [apply triple_refusals|]. intros [f|] _; [|by apply triple_done].
    eapply triple_then; [apply triple_final|]. intros; apply triple_stop. }
  intros _ _. eapply (triple_then _ _ _ (fun _ => True)).
  { destruct (_ && _); [|by apply triple_done]. destruct (_ && _); [apply triple_gate|apply triple_admit]. }
  intros _ _. eapply (triple_then _ _ _ (fun t => forall a, t = Some a -> hop_ok s0 q a)).
  { destruct (_ && _); [by apply triple_invite_hop|by apply triple_done]. }
  intros placed_ack Hp. eapply triple_then; [by apply triple_choose|]. intros td Ht. by apply triple_done.
Qed.
Lemma unmoved_refl s : unmoved s s.
Proof. done. Qed.
(** Past the target the ladder writes the memo and sends one request. *)
Lemma remember_forward_keeps q c hb went branch minted via_ck s :
  exists s', remember_forward now q c hb went branch minted via_ck s = (inr tt, s') /\ px_sent s' = px_sent s /\ px_set s' = px_set s.
Proof. unfold remember_forward, and_then, on_memo, done_with. repeat case_match; simplify_eq; by eexists. Qed.
Lemma via_cookie_keeps q c o minted s :
  exists ck s', via_cookie now members q c o minted s = (inr ck, s') /\ px_sent s' = px_sent s /\ px_set s' = px_set s /\ map_of ttl (px_memo s') = map_of ttl (px_memo s).
Proof.
  unfold via_cookie, and_then, the_set, lookup_entry, done_with. simpl. destruct (_ || _); simpl.
  - destruct (live_at now (map_of ttl (px_memo s) !! invite_key q)); [|destruct (c_worker_outbound c)];
      (eexists _, _; split; [reflexivity|]; simpl; by rewrite map_of_lookup).
  - destruct (c_worker_outbound c); by eexists _, _.
Qed.
Lemma forward_sends q src mf r s d t : SentRequest d t ∈ px_sent (forward cf now members q src mf r s).2 ->
  SentRequest d t ∈ px_sent s \/ t = ro_target r /\ q_routes d = q_routes (ro_draft r).
Proof.
  unfold forward. destruct (negb (stamps_via _)); [by left|]. unfold and_then at 1. simpl.
  destruct (forwarded _ _ _ _ _ _ _ _) as [draft minted] eqn:Hd.
  assert (q_routes draft = q_routes (ro_draft r)) as Hq.
  { unfold forwarded, insert_double_record_route, stamp_and_count in Hd. destruct (observed_source src). repeat case_match; by simplify_eq. }
  unfold and_then at 1.
  assert (exists ck s', (match ro_rtx r with Some found => done_with (ce_via_cookie found)
    | None => via_cookie now members q (ro_class r) (default (addr_of_sock src) (c_via_worker (ro_class r))) minted end) s = (inr ck, s') /\ px_sent s' = px_sent s) as (ck & s1 & -> & H1).
  { destruct (ro_rtx r); [by eexists _, _|]. destruct (via_cookie_keeps q (ro_class r) (default (addr_of_sock src) (c_via_worker (ro_class r))) minted s) as (ck & s' & H & ? & _). by eauto. }
  unfold and_then at 1. edestruct remember_forward_keeps as (s2 & -> & H2 & _). destruct (negb _); simpl; [rewrite H2, H1; by left|].
  rewrite H2, H1, elem_of_app. intros [Hs|Hs]; [by left|]. apply list_elem_of_singleton in Hs. simplify_eq. by right.
Qed.
End rungs.

(** C40: the external face is not an open relay.  Over a strategy that places
    only on workers read alive, each request a turn on the external face sends
    goes to a worker read alive, or to the hop the memo holds, at that moment,
    for the request's own transaction, and carries no Route: no Route, Via,
    Request-URI, source or marker of a client names a next hop. *)
Theorem external_face_closed cf now members first_view q src s d t : StrategyLaws RS -> distinct_workers (px_set s) ->
  SentRequest d t ∈ px_sent (route_request cf now members first_view q src FaceExternal s).2 ->
  SentRequest d t ∈ px_sent s \/ hop_ok now s q t /\ q_routes d = Some [].
Proof.
  intros LW Hd. unfold route_request.
  assert (forall s', requests_of s' = requests_of s -> SentRequest d t ∈ px_sent s' -> SentRequest d t ∈ px_sent s) as Hold.
  { intros s' He Hi. assert (SentRequest d t ∈ requests_of s) as H; [rewrite <- He|]; unfold requests_of in *; rewrite list_elem_of_filter in *; [done|tauto]. }
  assert (forall st l, SentRequest d t ∈ px_sent (reply_reject (A := Outcome) cf q src st l s).2 -> SentRequest d t ∈ px_sent s) as Hrej.
  { intros st l. apply Hold. destruct (triple_reject (A := Outcome) cf s q src st l (fun _ => True) s (unmoved_refl s)) as [(_ & _ & H) _]. done. }
  destruct (_ <? 1); [destruct (bool_decide _); [by left|intros H; left; by eapply Hrej]|].
  destruct (negb _); [destruct (bool_decide _); [by left|intros H; left; by eapply Hrej]|].
  unfold and_then. destruct (triple_find_route cf now members first_view s q src Hd s (unmoved_refl s)) as [(_ & _ & Hu) Hr].
  destruct (find_route cf now members first_view q src FaceExternal s) as [[o|r] s'] eqn:Hf; simpl in *; [intros Hi; left; by eapply Hold|].
  intros Hi. apply forward_sends in Hi as [Hi|[-> Hq]]; [left; by eapply Hold|]. destruct (Hr r eq_refl) as [Ht Hq']. right. split; [done|]. by rewrite Hq.
Qed.
End hops.
