(* ===== verification/ProxyTurns.v ===== *)
(** * Front proxy: what a turn leaves for the next

    The keys a turn writes in the memo, what a forward leaves under them, and
    the turns of one transaction composed: an INVITE and its CANCEL, an INVITE
    and its retransmissions, a final and its ACK. *)

From S2P Require Import Prelude Texts TxnData ProxyTypes Topology WorkerRegistry WorkerRegistryProps BranchMemo BranchMemoInv BranchMemoSteps BranchMemoProps LoadBalancer LoadBalancerProps SipHops ProxyMsg ProxyRefusals ProxyCore ProxyRequest ProxyResponse ProxyRefine ProxyHops.

Open Scope Z_scope.

(** ** The proxy's own Via *)

Lemma via_with_cookie_get n h ck : is_Some (hop_param n h) -> hop_param n (via_with_cookie h ck) = hop_param n h.
Proof.
  unfold via_with_cookie. generalize (default [] ck). intros l. revert h. induction l as [|[k v] l IH]; intros h Hn; simpl; [done|].
  destruct (hop_param k h) eqn:Hk; [by apply IH|]. assert (hop_param n (with_param k (text_value v) h) = hop_param n h) as He.
  { unfold hop_param, with_param. cbn [hop_params]. rewrite get_set. destruct (same_name k n) eqn:Hs; [|done]. apply same_name_true in Hs.
    exfalso. unfold hop_param, params_get in Hk, Hn. revert Hk Hn. replace (fun p : string * ParamValue => same_name p.1 k) with (fun p : string * ParamValue => same_name p.1 n).
    - intros ->. by intros [].
    - unfold same_name. by rewrite Hs. }
  rewrite IH; [done|by rewrite He].
Qed.

(** ** The keys a turn writes *)

Definition written (o : MemoOp) : option string := match o with OpRemember k _ _ | OpShorten k => Some k | _ => None end.
Definition only (K : list string) (d : list (MemoOp * Z)) : Prop := Forall (fun o => forall k, written o.1 = Some k -> k ∈ K) d.
Definition turn_keys (e : ProxyEvent) : list string :=
  match e with
  | EvRequest q _ _ => [rtx_key q; invite_key q]
  | EvResponse p _ _ =>
      match p_vias p with
      | _ :: next :: _ => [invite_txn_key (hop_via next) (p_call_id p) (p_from_tag p) (p_cseq p); ack_hop_key (hop_via next) (p_call_id p) (p_from_tag p) (p_cseq p)]
      | _ => []
      end
  | _ => []
  end.

Section turns.
Context `{TE : TagEnv} `{HE : HostEnv} `{DE : DraftEnv} `{RE : RefusalEnv} `{XE : TextEnv} `{BE : BranchEnv} `{LE : RelayEnv}.
Context `{RS : RoutingStrategy} `{SG : SelfGate}.
Variable ttl : Z.
Notation ideal := (trace_memo ttl).
Implicit Types s : PState (MS := ideal).

Lemma map_of_only K d l k : only K d -> k ∉ K -> map_of ttl (l ++ d) !! k = map_of ttl l !! k.
Proof.
  intros Hd Hk. unfold map_of, spec_run. rewrite foldl_app. generalize (foldl (spec_step ttl) ∅ l). induction Hd as [|[o n] d Ho _ IH]; intros m; simpl; [done|].
  rewrite IH. clear IH. destruct o as [k' e lt|k'|k'|i]; simpl in *; [|done| |done].
  - rewrite lookup_insert_ne; [done|]. intros ->. by apply Hk, Ho.
  - destruct (m !! k') as [[[[] e] x]|]; [|done..]. destruct (n <? x); [|done]. rewrite lookup_insert_ne; [done|]. intros ->. by apply Hk, Ho.
Qed.

(** ** Computations that stay within a relation *)

Definition within (R : PState (MS := ideal) -> PState (MS := ideal) -> Prop) {A} (c : M (MS := ideal) A) : Prop := forall s, R s (c s).2.
Section within.
Context (R : PState (MS := ideal) -> PState (MS := ideal) -> Prop) `{!PreOrder R}.
Lemma within_done {A} (a : A) : within R (done_with a).
Proof. intros s. reflexivity. Qed.
Lemma within_stop {A} o : within R (A := A) (stop o).
Proof. intros s. reflexivity. Qed.
Lemma within_the_set : within R the_set.
Proof. intros s. reflexivity. Qed.
Lemma within_then {A B} (c : M A) (k : A -> M B) : within R c -> (forall a, within R (k a)) -> within R (and_then c k).
Proof.
  intros Hc Hk s. unfold and_then. specialize (Hc s). destruct (c s) as [[o|a] s']; simpl in *; [done|]. etransitivity; [done|apply Hk].
Qed.
End within.
Create HintDb within_db.
#[local] Hint Resolve within_done within_stop within_the_set : within_db.
#[local] Hint Extern 1 (_ ∈ _) => set_solver : within_db.
Ltac within_step :=
  match goal with
  | |- within _ (and_then _ _) => apply within_then; [apply _| |intros ?]
  | |- within _ (if ?x then _ else _) => destruct x
  | |- within _ (match ?x with _ => _ end) => destruct x
  end.
Ltac within_solve := repeat first [solve [auto with within_db typeclass_instances] | within_step].

Definition wrote (K : list string) s s' : Prop := exists d, px_memo s' = px_memo s ++ d /\ only K d.
#[local] Instance wrote_preorder K : PreOrder (wrote K).
Proof.
  split.
  - intros s. exists []. rewrite app_nil_r. split; [done|by constructor].
  - intros s1 s2 s3 (d & Hd & Ho) (d' & Hd' & Ho'). exists (d ++ d'). rewrite Hd', Hd, (assoc_L (++)). split; [done|]. by apply Forall_app.
Qed.
Section writes.
Variable K : list string.
Lemma wrote_none s s' : px_memo s' = px_memo s -> wrote K s s'.
Proof. intros H. exists []. rewrite H, app_nil_r. split; [done|by constructor]. Qed.
Lemma wrote_one s s' o n : px_memo s' = px_memo s ++ [(o, n)] -> (forall k, written o = Some k -> k ∈ K) -> wrote K s s'.
Proof. intros H Ho. exists [(o, n)]. split; [done|]. by repeat constructor. Qed.
Lemma writes_lookup now k : within (wrote K) (lookup_entry now k).
Proof. intros s. by apply (wrote_one _ _ (OpLookup k) now). Qed.
Lemma writes_remember k e lt now : k ∈ K -> within (wrote K) (on_memo (memo_remember k e lt now)).
Proof. intros Hk s. apply (wrote_one _ _ (OpRemember k e lt) now); [done|]. by intros ? [= <-]. Qed.
Lemma writes_shorten k now : k ∈ K -> within (wrote K) (on_memo (memo_shorten k now)).
Proof. intros Hk s. apply (wrote_one _ _ (OpShorten k) now); [done|]. by intros ? [= <-]. Qed.
Lemma writes_sweep i now : within (wrote K) (on_memo (memo_sweep i now)).
Proof. intros s. by apply (wrote_one _ _ (OpSweep i) now). Qed.
Lemma writes_refusals {A} (f : Refusals -> A * Refusals) : within (wrote K) (on_refusals f).
Proof. intros s. apply wrote_none. unfold on_refusals. by destruct (f _). Qed.
Lemma writes_strategy {A} (f : strategy -> A * strategy) : within (wrote K) (on_strategy f).
Proof. intros s. apply wrote_none. unfold on_strategy. by destruct (f _). Qed.
Lemma writes_gate {A} (f : gate -> A * gate) : within (wrote K) (on_gate f).
Proof. intros s. apply wrote_none. unfold on_gate. by destruct (f _). Qed.
Lemma writes_set f : within (wrote K) (on_set f).
Proof. intros s. by apply wrote_none. Qed.
Lemma writes_send e : within (wrote K) (send e).
Proof. intros s. by apply wrote_none. Qed.
End writes.
#[local] Hint Resolve writes_lookup writes_remember writes_shorten writes_refusals writes_strategy writes_gate writes_set writes_send : within_db.

Section keys.
Variable cf : ProxyConfig.
Variable now : Z.
Variable members : list Peer.
Variable first_view : bool.

Lemma writes_request q src face : within (wrote [rtx_key q; invite_key q]) (route_request cf now members first_view q src face).
Proof.
  unfold route_request, find_route, ack_hop_decision, repeat_refusal, invite_hop, choose, cancel_target, cancel_refused, cookie_target, follow_or_drop, admitted_target,
    admitted_hop, select_target, reply_select_failure, request_uri_target, admit_new_call, refuse_new, reply_reject, reply, send_own_final, drop_without_target, forward,
    via_cookie, remember_forward. within_solve.
Qed.
Lemma writes_response p src face : within (wrote (turn_keys (EvResponse p src face))) (handle_response cf now members p src face).
Proof. unfold handle_response, remember_final. cbn [turn_keys]. destruct (p_vias p) as [|ours [|next below]]; within_solve. Qed.
End keys.

Variable cf : ProxyConfig.
Lemma run_keeps k evs s : Forall (fun e => k ∉ turn_keys e.1) evs -> map_of ttl (px_memo (proxy_run cf evs s)) !! k = map_of ttl (px_memo s) !! k.
Proof.
  intros Hk. revert s. induction Hk as [|[e t] evs He _ IH]; intros s; [done|]. simpl. rewrite IH. simpl in He.
  assert (within (wrote (turn_keys e)) (proxy_turn cf e t)) as Hw.
  { destruct e as [q src face|p src face|ws|i]; [|apply writes_response|apply writes_set|apply writes_sweep].
    intros s'. apply (writes_request cf (te_now t) (te_members t) (te_first_view t) q src face). }
  destruct (Hw s) as (d & -> & Ho). by apply (map_of_only (turn_keys e)).
Qed.

(** ** What a forward leaves *)

(** What becomes of a draft that is to go to a hop: dropped when its Via does not
    stamp; else edited, and sent unless it does not freeze. *)
Definition goes_to (draft : Req) (P : Req -> Prop) (t : ProxyAddr) (sent sent' : list Sent) : Prop :=
  if stamps_via draft then exists d, P d /\ sent' = sent ++ (if freezes d then [SentRequest d t] else []) else sent' = sent.

Section forward.
Variable now : Z.
Variable members : list Peer.
Variable first_view : bool.

Definition after_forward (q : Req) (r : Routed) (minted via_ck : option RouteParams) (m : gmap string Held) : gmap string Held :=
  let m := if negb (bool_decide (q_method q = MCancel)) && bool_decide (is_Some (top_via_branch q))
           then <[rtx_key q := (Retransmission, mkCancelEntry (went r) (stateless_branch q) None minted via_ck, sat_add now RTX_ENTRY_TTL_MS)]> m else m in
  if bool_decide (q_method q = MInvite)
  then <[invite_key q := (InviteTransaction, mkCancelEntry (went r) (stateless_branch q) (kept_cookie q (ro_class r) minted) None via_ck, sat_add now ttl)]> m else m.
(** The cookie the worker's Via carries, as the memo alone settles it. *)
Definition settled_cookie (q : Req) (r : Routed) (s : PState (MS := ideal)) : option (option RouteParams) :=
  match ro_rtx r with
  | Some found => Some (ce_via_cookie found)
  | None => if bool_decide (q_method q = MCancel) || bool_decide (q_method q = MAck) then ce_via_cookie <$> entry_of ttl s now (invite_key q) else None
  end.
Lemma map_of_remember l k e lt n : map_of ttl (l ++ [(OpRemember k e lt, n)]) =
  <[k := (lt, e, sat_add n (match lt with InviteTransaction => ttl | Retransmission => RTX_ENTRY_TTL_MS end))]> (map_of ttl l).
Proof. unfold map_of, spec_run. by rewrite foldl_app. Qed.
Lemma forwarded_vias q src mf r ws : let d := (forwarded cf now members q src mf r ws).1 in
  q_via d = stamped_from (observed_source src).1 (observed_source src).2 (q_via (ro_draft r)) /\ q_vias_below d = q_vias_below (ro_draft r).
Proof. unfold forwarded, insert_double_record_route, stamp_and_count. destruct (observed_source src). by repeat case_match. Qed.
Lemma forward_unstamped q src mf r s : stamps_via (ro_draft r) = false -> forward cf now members q src mf r s = (inl rejected, s).
Proof. intros Hst. unfold forward. by rewrite Hst. Qed.
Lemma forward_exact q src mf r s : stamps_via (ro_draft r) = true -> exists d via_ck s',
  forward cf now members q src mf r s = (if freezes d then inr (mkOutcome (ro_decision r) (Some (ro_target r))) else inl rejected, s') /\
  px_sent s' = px_sent s ++ (if freezes d then [SentRequest d (ro_target r)] else []) /\
  q_via d = pushed_via cf q (ro_target r) via_ck /\ (forall ck, settled_cookie q r s = Some ck -> via_ck = ck) /\
  q_vias_below d = stamped_from (observed_source src).1 (observed_source src).2 (q_via (ro_draft r)) :: q_vias_below (ro_draft r) /\
  map_of ttl (px_memo s') = after_forward q r (forwarded cf now members q src mf r (px_set s)).2 via_ck (map_of ttl (px_memo s)) /\
  px_set s' = px_set s /\ px_gate s' = px_gate s /\ px_strategy s' = px_strategy s /\ px_refusals s' = px_refusals s.
Proof.
  intros Hst. unfold forward. rewrite Hst. cbn [negb]. unfold and_then at 1. cbn [the_set]. destruct (forwarded_vias q src mf r (px_set s)) as [Hvia Hbelow].
  destruct (forwarded cf now members q src mf r (px_set s)) as [draft minted].
  cbn [fst snd]. set (o := default _ _). unfold and_then at 1.
  assert (exists ck s1, (match ro_rtx r with Some found => done_with (ce_via_cookie found) | None => via_cookie now members q (ro_class r) o minted end) s = (inr ck, s1) /\
    (forall c, settled_cookie q r s = Some c -> ck = c) /\ map_of ttl (px_memo s1) = map_of ttl (px_memo s) /\
    px_set s1 = px_set s /\ px_gate s1 = px_gate s /\ px_strategy s1 = px_strategy s /\ px_refusals s1 = px_refusals s /\ px_sent s1 = px_sent s)
    as (ck & s1 & -> & Hck & Hm & H1 & H2 & H3 & H4 & H5).
  { unfold settled_cookie. destruct (ro_rtx r) as [e|]; [eexists _, s; split; [done|]; split; [congruence|done]|].
    unfold via_cookie, and_then, the_set, lookup_entry, entry_of. simpl. destruct (_ || _); simpl.
    - destruct (live_at now (map_of ttl (px_memo s) !! invite_key q)) as [e|]; simpl; [|destruct (c_worker_outbound (ro_class r))];
        (eexists _, _; split; [reflexivity|]; simpl; rewrite map_of_lookup; split; [congruence|done]).
    - destruct (c_worker_outbound (ro_class r)); by eexists _, _. }
  unfold and_then at 1. set (dd := push_via _ draft).
  assert (exists s2, remember_forward now q (ro_class r) (bool_decide (is_Some (top_via_branch q))) (went r) (stateless_branch q) minted ck s1 = (inr tt, s2) /\
    map_of ttl (px_memo s2) = after_forward q r minted ck (map_of ttl (px_memo s)) /\
    px_set s2 = px_set s /\ px_gate s2 = px_gate s /\ px_strategy s2 = px_strategy s /\ px_refusals s2 = px_refusals s /\ px_sent s2 = px_sent s)
    as (s2 & -> & Hm2 & G1 & G2 & G3 & G4 & G5).
  { unfold remember_forward, after_forward, and_then, on_memo. rewrite <- Hm. destruct (negb _ && _); destruct (bool_decide (q_method q = MInvite)); simpl;
      (eexists; split; [reflexivity|]; simpl; rewrite ?map_of_remember; done). }
  exists dd, ck. assert (q_vias_below dd = stamped_from (observed_source src).1 (observed_source src).2 (q_via (ro_draft r)) :: q_vias_below (ro_draft r)) as Hdd by (simpl in *; by rewrite Hvia, Hbelow).
  destruct (freezes dd); cbn [negb]; eexists; (split; [reflexivity|]); simpl; rewrite ?G5, ?app_nil_r; split_and!; try done.
Qed.

(** ** The ladder down to the target moves nothing *)

#[local] Instance unmoved_preorder : PreOrder (unmoved ttl).
Proof. split; [done|]. intros s1 s2 s3 (H1 & H2 & H3) (G1 & G2 & G3). split_and!; congruence. Qed.
Lemma still_triple {A} s0 (c : M A) : within (unmoved ttl) c -> triple ttl s0 c (fun _ => True).
Proof. intros Hc s Hs. split; [|done]. etransitivity; [done|apply Hc]. Qed.
Lemma triple_still {A} (c : M A) P : (forall s0, triple ttl s0 c (P s0)) -> within (unmoved ttl) c.
Proof. intros Hc s. by apply (Hc s). Qed.
Lemma still_lookup k n : within (unmoved ttl) (lookup_entry n k).
Proof. eapply triple_still. intros s0. apply triple_lookup. Qed.
Lemma still_refusals {A} (f : Refusals -> A * Refusals) : within (unmoved ttl) (on_refusals f).
Proof. eapply triple_still. intros s0. apply triple_refusals. Qed.
Lemma still_strategy {A} (f : strategy -> A * strategy) : within (unmoved ttl) (on_strategy f).
Proof. eapply triple_still. intros s0. apply triple_strategy. Qed.
Lemma still_gate {A} (f : gate -> A * gate) : within (unmoved ttl) (on_gate f).
Proof. eapply triple_still. intros s0. apply triple_gate. Qed.
Lemma still_final dst f : within (unmoved ttl) (send (SentFinal dst f)).
Proof. eapply triple_still. intros s0. apply triple_final. Qed.
#[local] Hint Resolve still_lookup still_refusals still_strategy still_gate still_final : within_db.

(** The retransmission entry a request finds. *)
Definition rtx_of (q : Req) s : option CancelEntry :=
  if bool_decide (q_method q = MCancel) || negb (bool_decide (is_Some (top_via_branch q))) then None else entry_of ttl s now (rtx_key q).
Lemma classify_vias q src face ws d c : classify cf now q src face ws = Some (d, c) -> q_via d = q_via q /\ q_vias_below d = q_vias_below q.
Proof. unfold classify. intros H. repeat case_match; by simplify_eq. Qed.
Lemma find_route_facts q src face s r s' : find_route cf now members first_view q src face s = (inr r, s') ->
  unmoved ttl s s' /\ ro_rtx r = rtx_of q s /\ q_via (ro_draft r) = q_via q /\ q_vias_below (ro_draft r) = q_vias_below q.
Proof.
  intros Hf. assert (triple ttl s (find_route cf now members first_view q src face) 
    (fun r => ro_rtx r = rtx_of q s /\ q_via (ro_draft r) = q_via q /\ q_vias_below (ro_draft r) = q_vias_below q)) as Ht.
  { unfold find_route. eapply triple_then; [apply still_triple; unfold ack_hop_decision; within_solve|]. intros ack _.
    eapply (triple_then _ _ _ _ (fun e => e = rtx_of q s)).
    { unfold rtx_of. destruct (_ || _); [by apply triple_done|apply triple_lookup]. }
    intros rtx ->. eapply triple_then; [apply still_triple, within_the_set; apply _|]. intros ws _. destruct (classify cf now q src face ws) as [[draft c]|] eqn:Hc; [|apply triple_stop].
    apply classify_vias in Hc.
    eapply triple_then; [apply still_triple; unfold repeat_refusal; within_solve|]. intros _ _.
    eapply triple_then; [apply still_triple; unfold admit_new_call, refuse_new, send_own_final; within_solve|]. intros _ _.
    eapply triple_then; [apply still_triple; unfold invite_hop, follow_or_drop, drop_without_target; within_solve|]. intros pa _.
    eapply triple_then; [apply still_triple; unfold choose, cancel_target, cancel_refused, cookie_target, follow_or_drop, admitted_target, admitted_hop, select_target,
      reply_select_failure, request_uri_target, admit_new_call, refuse_new, reply_reject, reply, send_own_final, drop_without_target; within_solve|].
    intros td _. by apply triple_done. }
  destruct (Ht s (unmoved_refl _ s)) as [H1 H2]. rewrite Hf in H1, H2. simpl in *. auto.
Qed.

Lemma still_find_route q src face : within (unmoved ttl) (find_route cf now members first_view q src face).
Proof.
  unfold find_route, ack_hop_decision, repeat_refusal, invite_hop, choose, cancel_target, cancel_refused, cookie_target, follow_or_drop, admitted_target, admitted_hop,
    select_target, reply_select_failure, request_uri_target, admit_new_call, refuse_new, reply_reject, reply, send_own_final, drop_without_target. within_solve.
Qed.
Definition passes (q : Req) : Prop := 1 <= default DEFAULT_MAX_FORWARDS (q_max_forwards q) /\ q_proxy_require q = [].
Lemma route_request_passes q src face s : passes q -> route_request cf now members first_view q src face s =
  and_then (find_route cf now members first_view q src face) (fun r => forward cf now members q src (default DEFAULT_MAX_FORWARDS (q_max_forwards q)) r) s.
Proof. intros [H1 H2]. unfold route_request. rewrite (proj2 (Z.ltb_ge _ _)) by done. by rewrite H2. Qed.
Lemma route_request_cases q src face s :
  passes q \/ route_request cf now members first_view q src face s = (inl rejected, s) \/
  (exists st l, route_request cf now members first_view q src face s = reply_reject cf q src st l s).
Proof.
  unfold route_request, passes. destruct (Z.ltb_spec (default DEFAULT_MAX_FORWARDS (q_max_forwards q)) 1); [right; destruct (bool_decide _); eauto|].
  destruct (decide (q_proxy_require q = [])) as [He|He]; [by left|]. right. rewrite bool_decide_false by done. destruct (bool_decide _); simpl; eauto.
Qed.
Lemma reject_rejects {A} q src st l s : (reply_reject (A := A) cf q src st l s).1 = inl rejected.
Proof. unfold reply_reject, reply, and_then. by repeat case_match; simplify_eq/=. Qed.

(** ** An INVITE and its CANCEL *)

Lemma request_leaves q src face s o s1 : route_request cf now members first_view q src face s = (inr o, s1) ->
  exists r d minted via_ck, ro_rtx r = rtx_of q s /\ oc_target o = Some (ro_target r) /\ last (px_sent s1) = Some (SentRequest d (ro_target r)) /\
    q_via d = pushed_via cf q (ro_target r) via_ck /\
    q_vias_below d = stamped_from (observed_source src).1 (observed_source src).2 (q_via q) :: q_vias_below q /\
    map_of ttl (px_memo s1) = after_forward q r minted via_ck (map_of ttl (px_memo s)).
Proof.
  intros Ho. destruct (route_request_cases q src face s) as [Hp|[Hx|(st & l & Hx)]];
    [|congruence|pose proof (reject_rejects (A := Outcome) q src st l s); rewrite <- Hx, Ho in *; done].
  rewrite route_request_passes in Ho by done. unfold and_then in Ho. destruct (find_route _ _ _ _ _ _ _ s) as [[x|r] s'] eqn:Hf; [done|].
  apply find_route_facts in Hf as ((_ & Hm & _) & Hrr & Hv0 & Hb0).
  destruct (stamps_via (ro_draft r)) eqn:Hst; [|by rewrite forward_unstamped in Ho].
  destruct (forward_exact q src (default DEFAULT_MAX_FORWARDS (q_max_forwards q)) r s' Hst) as (d & ck & s2 & He & Hs & Hv & _ & Hb & Hmap & _).
  rewrite He in Ho. destruct (freezes d); [|done]. simplify_eq. exists r, d, (forwarded cf now members q src (default DEFAULT_MAX_FORWARDS (q_max_forwards q)) r (px_set s')).2, ck.
  split_and!; [done|done|by rewrite Hs, last_snoc|done|by rewrite Hb, Hv0, Hb0|by rewrite Hmap, Hm].
Qed.
Lemma invite_leaves q src face s o s1 : q_method q = MInvite -> rtx_of q s = None ->
  route_request cf now members first_view q src face s = (inr o, s1) ->
  exists d t ck via_ck, oc_target o = Some t /\ last (px_sent s1) = Some (SentRequest d t) /\ q_via d = pushed_via cf q t via_ck /\
    q_vias_below d = stamped_from (observed_source src).1 (observed_source src).2 (q_via q) :: q_vias_below q /\
    map_of ttl (px_memo s1) !! invite_key q = Some (InviteTransaction, mkCancelEntry t (stateless_branch q) ck None via_ck, sat_add now ttl).
Proof.
  intros Hm Hr (r & d & minted & ck & Hrr & H1 & H2 & H3 & H4 & H5)%request_leaves. exists d, (ro_target r). eexists _, ck. split_and!; [done..|].
  rewrite H5. unfold after_forward, went. rewrite Hrr, Hr, (bool_decide_true (q_method q = MInvite)) by done. by rewrite lookup_insert_eq.
Qed.
Lemma invite_rtx_apart q : invite_key q <> rtx_key q.
Proof. done. Qed.
Lemma copy_leaves q src face s o s1 : q_method q <> MCancel -> is_Some (top_via_branch q) -> rtx_of q s = None ->
  route_request cf now members first_view q src face s = (inr o, s1) ->
  exists d t minted via_ck, oc_target o = Some t /\ last (px_sent s1) = Some (SentRequest d t) /\ q_via d = pushed_via cf q t via_ck /\
    map_of ttl (px_memo s1) !! rtx_key q = Some (Retransmission, mkCancelEntry t (stateless_branch q) None minted via_ck, sat_add now RTX_ENTRY_TTL_MS).
Proof.
  intros Hm Hb Hr (r & d & minted & ck & Hrr & H1 & H2 & H3 & H4 & H5)%request_leaves. exists d, (ro_target r), minted, ck. split_and!; [done..|].
  rewrite H5. unfold after_forward, went. rewrite Hrr, Hr, (bool_decide_false (q_method q = MCancel)), (bool_decide_true (is_Some _)) by done. cbn [negb andb].
  destruct (bool_decide _); [rewrite lookup_insert_ne by apply invite_rtx_apart|]; by rewrite lookup_insert_eq.
Qed.
Lemma find_route_cancel q src face s e draft c : q_method q = MCancel -> entry_of ttl s now (invite_key q) = Some e -> classify cf now q src face (px_set s) = Some (draft, c) ->
  exists s', unmoved ttl s s' /\ px_sent s' = px_sent s /\ find_route cf now members first_view q src face s =
    match follow_live_hop now members (ce_target e) (ce_stickiness e) q (px_set s) with
    | Some t => (inr (mkRouted draft c t DCancel None), s')
    | None => (inl rejected, s')
    end.
Proof.
  intros Hm He Hc. unfold find_route. unfold and_then at 1. unfold ack_hop_decision. rewrite Hm. cbn [bool_decide decide_rel Method_eq_dec negb]. simpl.
  unfold and_then. simpl. rewrite Hc. rewrite !andb_false_r. simpl. unfold choose. rewrite bool_decide_true by done. unfold cancel_target, and_then, lookup_entry. simpl.
  unfold entry_of in He. rewrite He. unfold follow_or_drop, and_then, the_set. simpl.
  eexists. split; [|split]; [| |by destruct (follow_live_hop _ _ _ _ _ _)]; [|done]. split_and!; simpl; [done|by rewrite map_of_lookup|done].
Qed.
Lemma cancel_unpopped q src face s : q_method q = MCancel -> classify cf now q src face (px_set s) = None -> find_route cf now members first_view q src face s = (inl rejected, s).
Proof.
  intros Hm Hc. unfold find_route. unfold and_then at 1. unfold ack_hop_decision. rewrite Hm. cbn [bool_decide decide_rel Method_eq_dec negb]. simpl. unfold and_then. simpl. by rewrite Hc.
Qed.
(** Where a turn sends a request it holds a hop for: to where the hop leads, if
    the request's Routes pop. *)
Definition follows (q : Req) (src : SocketAddr) (face : IngressFace) (ws : WorkerSet) (t : option ProxyAddr) (P : Req -> Prop) (sent sent' : list Sent) : Prop :=
  match classify cf now q src face ws, t with
  | Some (draft, _), Some t => goes_to draft P t sent sent'
  | _, _ => sent' = sent
  end.
Lemma follows_impl q src face ws t (P Q : Req -> Prop) sent sent' : (forall d, P d -> Q d) -> follows q src face ws t P sent sent' -> follows q src face ws t Q sent sent'.
Proof.
  intros HPQ. unfold follows, goes_to. destruct (classify _ _ _ _ _ _) as [[draft c]|]; [|done]. destruct t; [|done]. destruct (stamps_via draft); [|done]. intros (d & H1 & H2). exists d. auto.
Qed.
Lemma forward_goes q src mf r s (P : Req -> Prop) :
  (forall d ck, q_via d = pushed_via cf q (ro_target r) ck -> (forall c, settled_cookie q r s = Some c -> ck = c) -> P d) ->
  goes_to (ro_draft r) P (ro_target r) (px_sent s) (px_sent (forward cf now members q src mf r s).2).
Proof.
  intros HP. unfold goes_to. destruct (stamps_via (ro_draft r)) eqn:Hst; [|by rewrite forward_unstamped].
  destruct (forward_exact q src mf r s Hst) as (d & ck & s2 & -> & Hs2 & Hv & Hck & _). exists d. split; [by eapply HP|exact Hs2].
Qed.
Lemma cancel_turn q src face s e : q_method q = MCancel -> passes q -> entry_of ttl s now (invite_key q) = Some e ->
  let t := follow_live_hop now members (ce_target e) (ce_stickiness e) q (px_set s) in
  follows q src face (px_set s) t (fun d => exists hop, t = Some hop /\ q_via d = pushed_via cf q hop (ce_via_cookie e)) (px_sent s)
    (px_sent (route_request cf now members first_view q src face s).2).
Proof.
  intros Hm Hp He. cbv zeta. unfold follows. rewrite route_request_passes by done. unfold and_then. destruct (classify cf now q src face (px_set s)) as [[draft c]|] eqn:Hc; [|by rewrite cancel_unpopped].
  destruct (find_route_cancel q src face s e draft c Hm He Hc) as (s' & (Hset & Hmap & _) & Hs & ->).
  destruct (follow_live_hop _ _ _ _ _ _) as [t|]; [|done]. rewrite <- Hs.
  apply (forward_goes q src (default DEFAULT_MAX_FORWARDS (q_max_forwards q)) (mkRouted draft c t DCancel None) s'). intros d ck Hv Hck. exists t. split; [done|]. rewrite Hv. f_equal. apply Hck.
  unfold settled_cookie, entry_of. simpl. rewrite bool_decide_true by done. simpl. rewrite Hmap. unfold entry_of in He. by rewrite He.
Qed.

(** ** A retransmission *)

Definition spared s s' : Prop := px_gate s' = px_gate s /\ px_strategy s' = px_strategy s /\ px_refusals s' = px_refusals s.
#[local] Instance spared_preorder : PreOrder spared.
Proof. split; [done|]. intros s1 s2 s3 (H1 & H2 & H3) (G1 & G2 & G3). split_and!; congruence. Qed.
Lemma spares_lookup n k : within spared (lookup_entry n k).
Proof. done. Qed.
Lemma spares_memo f : within spared (on_memo f).
Proof. done. Qed.
Lemma spares_send e : within spared (send e).
Proof. done. Qed.
#[local] Hint Resolve spares_lookup spares_memo spares_send : within_db.
Lemma find_route_spares q src face s : is_Some (rtx_of q s) -> spared s (find_route cf now members first_view q src face s).2.
Proof.
  intros [e He]. unfold rtx_of in He. destruct (_ || _) eqn:Hb in He; [done|]. unfold find_route. rewrite Hb. unfold and_then at 1.
  destruct (ack_hop_decision cf now q s) as [r s1] eqn:Ha.
  assert (spared s s1 /\ unmoved ttl s s1) as [Hs Hu].
  { split.
    - replace s1 with (ack_hop_decision cf now q s).2 by (by rewrite Ha). revert s He Ha. assert (within spared (ack_hop_decision cf now q)) as H by (unfold ack_hop_decision; within_solve). intros s _ _. apply H.
    - replace s1 with (ack_hop_decision cf now q s).2 by (by rewrite Ha). assert (within (unmoved ttl) (ack_hop_decision cf now q)) as H by (unfold ack_hop_decision; within_solve). apply H. }
  destruct r as [o|ack]; [done|]. etransitivity; [exact Hs|]. unfold and_then at 1. cbn [lookup_entry memo_lookup trace_memo].
  replace (live_at now (map_of ttl (px_memo s1) !! rtx_key q)) with (Some e) by (unfold entry_of in He; destruct Hu as (_ & -> & _); done).
  cbn [bool_decide]. rewrite (bool_decide_true (is_Some (Some e))) by done. cbn [negb andb].
  match goal with |- spared _ (?c ?s0).2 => assert (within spared c) as H; [|exact (H s0)] end.
  unfold invite_hop, choose, cancel_target, cancel_refused, cookie_target, follow_or_drop, drop_without_target, request_uri_target, reply_reject, reply.
  apply orb_false_iff in Hb as [-> _]. within_solve.
Qed.
Lemma requests_snoc s s' d t : px_sent s' = px_sent s ++ [SentRequest d t] -> requests_of ttl s' = requests_of ttl s ++ [SentRequest d t].
Proof. intros H. unfold requests_of. by rewrite H, filter_app. Qed.
Lemma reject_spares q src st l s : spared s (reply_reject (A := Outcome) cf q src st l s).2 /\ requests_of ttl (reply_reject (A := Outcome) cf q src st l s).2 = requests_of ttl s.
Proof.
  split.
  - assert (within spared (reply_reject (A := Outcome) cf q src st l)) as H by (unfold reply_reject, reply; within_solve). apply H.
  - destruct (triple_reject ttl (A := Outcome) cf s q src st l (fun _ => True) s (unmoved_refl _ s)) as [(_ & _ & H) _]. done.
Qed.
Lemma repeat_turn q src face s e : rtx_of q s = Some e ->
  let s' := (route_request cf now members first_view q src face s).2 in
  spared s s' /\ (requests_of ttl s' = requests_of ttl s \/
    exists d t, requests_of ttl s' = requests_of ttl s ++ [SentRequest d t] /\ q_via d = pushed_via cf q t (ce_via_cookie e)).
Proof.
  intros He. cbn zeta. destruct (route_request_cases q src face s) as [Hp|[->|(st & l & ->)]]; [|by split; [|left]|destruct (reject_spares q src st l s); by split; [|left]].
  rewrite route_request_passes by done. unfold and_then. pose proof (find_route_spares q src face s ltac:(eauto)) as Hs.
  destruct (find_route cf now members first_view q src face s) as [[o|r] s1] eqn:Hf; simpl in Hs.
  - split; [done|]. left. cut (within (unmoved ttl) (find_route cf now members first_view q src face)); [intros H; specialize (H s); rewrite Hf in H; apply H|apply still_find_route].
  - apply find_route_facts in Hf as ((_ & _ & Hu) & Hr & _). rewrite He in Hr.
    destruct (stamps_via (ro_draft r)) eqn:Hst; [|rewrite forward_unstamped by done; split; [exact Hs|left; exact Hu]].
    destruct (forward_exact q src (default DEFAULT_MAX_FORWARDS (q_max_forwards q)) r s1 Hst) as (d & ck & s2 & -> & Hs2 & Hv & Hck & _ & _ & _ & G1 & G2 & G3).
    split; [etransitivity; [exact Hs|by split_and!]|]. destruct (freezes d); [|left; cbn [snd]; unfold requests_of; rewrite Hs2, app_nil_r; exact Hu]. right. exists d, (ro_target r). cbn [snd]. rewrite (requests_snoc s1 s2 _ _ Hs2), Hu. split; [done|].
    rewrite Hv. f_equal. apply Hck. unfold settled_cookie. by rewrite Hr.
Qed.
(** A copy that neither a cookie nor a Route nor its sender places. *)
Lemma find_route_repeat q src face s e draft c : q_method q <> MCancel -> q_method q <> MAck -> rtx_of q s = Some e ->
  classify cf now q src face (px_set s) = Some (draft, c) -> c_cookie c = None -> c_worker_outbound c = false -> c_loose_route_next_hop c = None ->
  exists s', unmoved ttl s s' /\ px_sent s' = px_sent s /\ find_route cf now members first_view q src face s =
    match follow_live_hop now members (ce_target e) (ce_minted e) q (px_set s) with
    | Some t => (inr (mkRouted draft c t DSelectNew (Some e)), s')
    | None => (inl rejected, s')
    end.
Proof.
  intros Hm Ha He Hc H1 H2 H3. unfold rtx_of in He. destruct (_ || _) eqn:Hb in He; [done|]. unfold find_route. rewrite Hb. unfold and_then at 1. unfold ack_hop_decision.
  rewrite (bool_decide_false (q_method q = MAck)) by done. cbn [negb done_with]. unfold and_then at 1. cbn [lookup_entry memo_lookup trace_memo]. fold (entry_of ttl s now (rtx_key q)). rewrite He.
  rewrite (bool_decide_true (is_Some (Some e))) by done. unfold and_then at 1. cbn [the_set px_set negb andb]. rewrite Hc. unfold choose, and_then.
  rewrite (bool_decide_false (q_method q = MCancel)), H1, H2, H3 by done. unfold follow_or_drop, and_then. simpl.
  eexists. split; [|split]; [| |by destruct (follow_live_hop _ _ _ _ _ _)]; [|done]. split_and!; simpl; [done|by rewrite map_of_lookup|done].
Qed.

(** ** A final and its ACK *)

Lemma find_route_ack q src face s e : q_method q = MAck -> acknowledges_own_final (pc_tags cf) q = false -> acknowledges_own_final (pc_parse_tags cf) q = false ->
  is_Some (top_via_branch q) -> entry_of ttl s now (ack_key q) = Some e ->
  exists s', unmoved ttl s s' /\ px_sent s' = px_sent s /\ find_route cf now members first_view q src face s =
    match classify cf now q src face (px_set s) with
    | Some (draft, c) => (inr (mkRouted draft c (ce_target e) DAckHop (entry_of ttl s now (rtx_key q))), s')
    | None => (inl rejected, s')
    end.
Proof.
  intros Hm H1 H2 Hb He. unfold find_route. unfold and_then at 1. unfold ack_hop_decision.
  rewrite H1, H2, !(bool_decide_true (q_method q = MAck)), !(bool_decide_false (q_method q = MCancel)) by congruence. rewrite (bool_decide_true (is_Some (top_via_branch q))) by done.
  cbn [negb orb]. unfold and_then at 1. cbn [lookup_entry memo_lookup trace_memo]. fold (entry_of ttl s now (ack_key q)). rewrite He. cbn [done_with mbind option_bind].
  unfold and_then at 1. cbn [lookup_entry memo_lookup trace_memo px_memo]. rewrite map_of_lookup. fold (entry_of ttl s now (rtx_key q)). unfold and_then at 1. cbn [the_set px_set].
  destruct (classify cf now q src face (px_set s)) as [[draft c]|].
  - rewrite !andb_false_r. cbn [andb]. rewrite (bool_decide_false (q_method q = MInvite)) by congruence. rewrite !andb_false_r. cbn [andb]. unfold and_then, choose.
    rewrite (bool_decide_false (q_method q = MCancel)) by congruence. simpl.
    eexists. split; [|by split; [|reflexivity]]. split_and!; simpl; [done|by rewrite !map_of_lookup|done].
  - eexists. split; [|by split; [|reflexivity]]. split_and!; simpl; [done|by rewrite !map_of_lookup|done].
Qed.
Lemma ack_turn q src face s e : q_method q = MAck -> passes q -> acknowledges_own_final (pc_tags cf) q = false -> acknowledges_own_final (pc_parse_tags cf) q = false ->
  is_Some (top_via_branch q) -> entry_of ttl s now (ack_key q) = Some e ->
  follows q src face (px_set s) (Some (ce_target e)) (fun d => exists ck, q_via d = pushed_via cf q (ce_target e) ck) (px_sent s) (px_sent (route_request cf now members first_view q src face s).2).
Proof.
  intros Hm Hp H1 H2 Hb He. rewrite route_request_passes by done. unfold and_then, follows. destruct (find_route_ack q src face s e Hm H1 H2 Hb He) as (s' & _ & Hs & ->).
  destruct (classify cf now q src face (px_set s)) as [[draft c]|]; [|done]. rewrite <- Hs.
  apply (forward_goes q src (default DEFAULT_MAX_FORWARDS (q_max_forwards q)) (mkRouted draft c (ce_target e) DAckHop (entry_of ttl s now (rtx_key q))) s'). intros d ck Hv _. by exists ck.
Qed.
End forward.
End turns.
