(* ===== verification/ProxyReplies.v ===== *)
(** * Front proxy: where a response may go

    A response leaves on the external face for an address the registry knows,
    and on either face never for a worker read Dead its topmost Via names; what
    it follows is the Via the request left with. *)

From S2P Require Import Prelude Texts TxnData ProxyTypes Topology WorkerRegistry WorkerRegistryProps BranchMemo BranchMemoInv BranchMemoSteps BranchMemoProps LoadBalancer LoadBalancerProps SipHops ProxyMsg ProxyRefusals ProxyCore ProxyRequest ProxyResponse ProxyRefine ProxyHops ProxyTurns.

Open Scope Z_scope.

Lemma rearmed_projection a now ws : snapshot_of (rearm_departed a now ws) = snapshot_of ws.
Proof. done. Qed.
Lemma snapshot_known w now ws : w ∈ snapshot_of ws -> is_Some (lookup_by_address (we_address w) now ws).
Proof.
  intros Hw. unfold lookup_by_address. destruct (List.find _ _) eqn:Hf; [done|]. exfalso. eapply List.find_none in Hf; [|by apply list_elem_of_In].
  by apply bool_decide_eq_false in Hf.
Qed.

Section replies.
Context `{TE : TagEnv} `{HE : HostEnv} `{LE : RelayEnv}.
Context `{RS : RoutingStrategy} `{SG : SelfGate}.
Variable cf : ProxyConfig.

(** One turn: either nothing leaves and the memo is kept, or the response does,
    and a final is remembered. *)
Lemma response_cases `{MS : MemoSeam} now members p src face (s : PState (MS := MS)) :
  let s' := (handle_response cf now members p src face s).2 in
  (px_sent s' = px_sent s /\ px_memo s' = px_memo s) \/
  exists ours next below target, p_vias p = ours :: next :: below /\ is_self_addr cf (hp_pair (hop_sent_by ours)) = true /\ relays p = true /\
    let ws := rearm_departed (hp_pair (hop_sent_by next)) now (px_set s) in
    relay_target now (owner_route cf now members p ours (hp_pair (hop_sent_by next)) ws) face next ws = Some target /\
    s' = (remember_final now p next ours src
            (mkPState (px_memo s) (px_refusals s) ws (px_strategy s) (px_gate s) (px_sent s ++ [SentResponse (pop_via p) target]))).2.
Proof.
  unfold handle_response. cbn zeta. destruct (p_vias p) as [|ours [|next below]]; [by left|by left|]. destruct (is_self_addr _ _) eqn:Hself; cbn [negb]; [|by left].
  unfold and_then, on_set, the_set, send. cbn [px_set].
  set (ws := rearm_departed (hp_pair (hop_sent_by next)) now (px_set s)).
  destruct (relay_target now (owner_route cf now members p ours (hp_pair (hop_sent_by next)) ws) face next ws) as [target|] eqn:Ht; [|by left].
  destruct (relays p) eqn:Hr; cbn [negb]; [|by left]. right. by exists ours, next, below, target.
Qed.
Lemma remember_final_sent `{MS : MemoSeam} now p next ours src (s : PState (MS := MS)) : px_sent (remember_final now p next ours src s).2 = px_sent s.
Proof. unfold remember_final, and_then, on_memo. by repeat case_match; simplify_eq/=. Qed.
Lemma response_sent `{MS : MemoSeam} now members p src face (s : PState (MS := MS)) d t :
  SentResponse d t ∈ px_sent (handle_response cf now members p src face s).2 -> SentResponse d t ∈ px_sent s \/
  d = pop_via p /\ exists ours next below, p_vias p = ours :: next :: below /\
    let ws := rearm_departed (hp_pair (hop_sent_by next)) now (px_set s) in
    relay_target now (owner_route cf now members p ours (hp_pair (hop_sent_by next)) ws) face next ws = Some t.
Proof.
  destruct (response_cases now members p src face s) as [[-> _]|(ours & next & below & target & Hv & _ & _ & Ht & ->)]; [by left|].
  rewrite remember_final_sent. cbn [px_sent]. rewrite elem_of_app. intros [H|H]; [by left|]. apply list_elem_of_singleton in H. simplify_eq. right. split; [done|].
  by exists ours, next, below.
Qed.

Section owner.
Context {LW : StrategyLaws RS}.
(** A worker of the projection, not read Dead. *)
Definition up_at (ws : WorkerSet) (t : ProxyAddr) : Prop := exists w, w ∈ snapshot_of ws /\ we_address w = t /\ not_dead w = true.
Lemma routes_up ws t : routes_to ws t -> up_at ws t.
Proof.
  intros (w & Hw & Ha & Hl). exists w. split_and!; [done..|]. unfold not_dead. apply negb_true_iff, bool_decide_eq_false. intros Hd. unfold is_alive in Hl. by rewrite Hd in Hl.
Qed.
Lemma resolve_up id ws w : resolve id ws = Some w -> not_dead w = true -> up_at ws (we_address w).
Proof. intros Hr Hn. exists w. split_and!; [|done..]. by apply find_in in Hr as [? _]. Qed.
Lemma placed_up now members ck p ws t : distinct_workers ws -> placed_on now members ck p ws = ToOwner t -> up_at ws t.
Proof.
  intros Hd. unfold placed_on. pose proof (law_decode ck (resp_msg p) (mkView ws members now)) as Hl. simpl in Hl.
  destruct (st_decode _ _ _) as [a e|a e| | |]; intros [= <-] || intros [=]; apply routes_up, Hl; done.
Qed.
Lemma owner_up now members p ours sent_by ws t : distinct_workers ws -> owner_route cf now members p ours sent_by ws = ToOwner t -> up_at ws t.
Proof.
  intros Hd. unfold owner_route. set (named := lookup_by_address sent_by now ws). set (dead := match named with Some n => _ | None => None end).
  destruct (match st_verified _ _ with Some c => Some c | None => _ end) as [ck|].
  - assert (forall h, match resolve h ws with Some w => if not_dead w then ToOwner (we_address w) else placed_on now members ck p ws | None => placed_on now members ck p ws end = ToOwner t -> up_at ws t) as Hh.
    { intros h. destruct (resolve h ws) as [w|] eqn:Hr; [|by apply placed_up]. destruct (not_dead w) eqn:Hn; [|by apply placed_up]. intros [= <-]. by eapply resolve_up. }
    clearbody named. destruct named as [n|]; [|destruct (_ && negb _); [by apply placed_up|apply Hh]].
    destruct (_ && negb _); [by apply placed_up|]. destruct (_ && not_dead n); [done|apply Hh].
  - destruct dead as [d|]; [|done]. destruct (worker_moved d ws) as [a|] eqn:Hm; [|done]. intros [= <-]. unfold worker_moved in Hm.
    destruct (resolve (we_id d) ws) as [w|] eqn:Hr; [|done]. simpl in Hm. destruct (_ && _) eqn:Hb; [|done]. simplify_eq. apply andb_true_iff in Hb as [_ Hb]. by eapply resolve_up.
Qed.
(** The Via is followed only past a worker that is not read Dead. *)
Lemma along_via_not_dead now members p ours sent_by ws w : owner_route cf now members p ours sent_by ws = AlongVia ->
  lookup_by_address sent_by now ws = Some w -> not_dead w = true.
Proof.
  intros Ho Hw. unfold owner_route in Ho. rewrite Hw in Ho. destruct (not_dead w) eqn:Hn; [done|]. exfalso.
  assert (forall ck, placed_on now members ck p ws <> AlongVia) as Hp by (intros ck; unfold placed_on; by destruct (st_decode _ _ _)).
  destruct (match st_verified _ _ with Some c => Some c | None => _ end) as [ck|].
  - destruct (_ && negb _); [by eapply Hp|]. rewrite andb_false_r in Ho. destruct (resolve _ _) as [v|]; [destruct (not_dead v); [done|]|]; by eapply Hp.
  - by destruct (worker_moved w ws).
Qed.
End owner.

(** C32: no response is sent to a worker read Dead that its Via names, and the
    external face answers only workers.  Each response a turn relays is the
    received one less its topmost Via.  When the next Via's sent-by is a worker
    read Dead, it goes to a worker that is not; and on the external face it goes
    to an address the registry knows, a worker's or a departed one's, whatever
    [received] and [rport] the Via carries. *)
Theorem responses_to_workers `{MS : MemoSeam} now members p src face (s : PState (MS := MS)) d t :
  StrategyLaws RS -> distinct_workers (px_set s) ->
  SentResponse d t ∈ px_sent (handle_response cf now members p src face s).2 -> SentResponse d t ∈ px_sent s \/
  exists ours next below, p_vias p = ours :: next :: below /\ d = pop_via p /\
    let ws := rearm_departed (hp_pair (hop_sent_by next)) now (px_set s) in
    (forall w, lookup_by_address (hp_pair (hop_sent_by next)) now ws = Some w -> we_health w = Dead -> up_at ws t) /\
    (face = FaceExternal -> is_Some (lookup_by_address t now ws)).
Proof.
  intros LW Hd Hin. apply response_sent in Hin as [Hin|(-> & ours & next & below & Hv & Ht)]; [by left|]. right. exists ours, next, below. split_and!; [done..|].
  set (ws := rearm_departed _ now (px_set s)) in *. cbn zeta in *.
  assert (distinct_workers ws) as Hd' by done. destruct (owner_route cf now members p ours (hp_pair (hop_sent_by next)) ws) as [|a|] eqn:Ho; [| |done].
  - split.
    + intros w Hw Hdead. apply along_via_not_dead with (w := w) in Ho; [|done]. unfold not_dead in Ho. by rewrite Hdead in Ho.
    + intros ->. cbn [relay_target] in Ht. unfold external_response_target in Ht. repeat case_bool_decide; by simplify_eq.
  - cbn [relay_target] in Ht. assert (a = t) as -> by (by destruct face; simplify_eq). apply owner_up in Ho; [|done]. split; [done|].
    intros _. destruct Ho as (w & Hw & <- & _). by apply snapshot_known.
Qed.
End replies.
