(* ===== verification/ProxyTxn.v ===== *)
(** * Front proxy: the turns of a transaction, over the bounded memo

    Runs of the core over its [CancelBranchLru]: between the turns of one
    transaction any other traffic, changes of the workers and sweeps.  What the
    memo holds is read off the map that refines it. *)

From S2P Require Import Prelude Texts TxnData ProxyTypes Topology WorkerRegistry WorkerRegistryProps BranchMemo BranchMemoInv BranchMemoSteps BranchMemoProps LoadBalancer LoadBalancerProps SipHops ProxyMsg ProxyRefusals ProxyCore ProxyRequest ProxyResponse ProxyRefine ProxyHops ProxyTurns ProxyReplies.

Open Scope Z_scope.

(** ** Keys and Vias of one transaction *)

Lemma same_ack_key q r : same_transaction q r -> ack_key q = ack_key r.
Proof. intros H. unfold ack_key. rewrite (same_transaction_via q r H). destruct H as (_ & _ & -> & -> & ->). done. Qed.
Lemma stamped_hop_via `{HE : HostEnv} host port h : hop_via (stamped_from host port h) = hop_via h.
Proof.
  unfold hop_via. rewrite stamped_sent_by. f_equal. unfold hop_branch, params_value. f_equal. by apply (stamped_param "branch").
Qed.
Section via.
Context `{TE : TagEnv} `{HE : HostEnv} `{BE : BranchEnv}.
Variable cf : ProxyConfig.
Lemma pushed_branch q t ck : hop_branch (pushed_via cf q t ck) = Some (stateless_branch q).
Proof.
  unfold hop_branch, params_value, pushed_via. set (h := requesting_rport _).
  assert (hop_param "branch" h = Some (PToken (stateless_branch q))) as Hb by (unfold h, hop_param, requesting_rport, with_branch, with_param; cbn [hop_params]; by rewrite !get_set).
  fold (hop_param "branch" (via_with_cookie h ck)). rewrite via_with_cookie_get by (by rewrite Hb). by rewrite Hb.
Qed.
Lemma pushed_sent_by q t ck : hp_pair (hop_sent_by (pushed_via cf q t ck)) = egress_advertised cf t.
Proof.
  unfold pushed_via, via_with_cookie. set (h := requesting_rport _). assert (hp_pair (hop_sent_by h) = egress_advertised cf t) as Hh by (by destruct (egress_advertised cf t)).
  generalize dependent h. generalize (default [] ck). intros l. induction l as [|[k v] l IH]; intros h Hh; [done|]. simpl. apply IH. by destruct (hop_param k h).
Qed.
(** The proxy knows its own Via again. *)
Lemma pushed_self q t ck : is_self_addr cf (hp_pair (hop_sent_by (pushed_via cf q t ck))) = true.
Proof.
  rewrite pushed_sent_by. unfold is_self_addr. apply orb_true_iff. unfold egress_advertised. destruct (pc_external cf) as [ext|]; [|left; by rewrite bool_decide_true].
  destruct (to_socket_addr t) as [sa|]; [destruct (contains_ip _ _); [left|right]|right]; by rewrite bool_decide_true.
Qed.
End via.

Section txn.
Context `{TE : TagEnv} `{HE : HostEnv} `{DE : DraftEnv} `{RE : RefusalEnv} `{XE : TextEnv} `{BE : BranchEnv} `{LE : RelayEnv}.
Context `{RS : RoutingStrategy} `{SG : SelfGate}.
Variable cf : ProxyConfig.

(** ** Over the map *)

Section ideal.
Variable ttl : Z.
Notation ideal := (trace_memo ttl).
Implicit Types s : PState (MS := ideal).

Lemma request_sends now members fv q src face s d t :
  px_sent (route_request cf now members fv q src face s).2 = px_sent s ++ [SentRequest d t] ->
  exists o, route_request cf now members fv q src face s = (inr o, (route_request cf now members fv q src face s).2).
Proof.
  intros Hs. destruct (route_request cf now members fv q src face s) as [[o|o] s1] eqn:Hr; [|by exists o]. exfalso. simpl in Hs.
  assert (requests_of ttl s1 = requests_of ttl s) as Hq.
  { replace s1 with (route_request cf now members fv q src face s).2 by (by rewrite Hr).
    destruct (route_request_cases ttl cf now members fv q src face s) as [Hp|[->|(st & l & ->)]]; [|done|by apply reject_spares].
    rewrite route_request_passes in Hr |- * by done. unfold and_then in *.
    pose proof (still_find_route ttl cf now members fv q src face s) as (_ & _ & Hf). destruct (find_route _ _ _ _ _ _ _ s) as [[x|r] s']; [done|].
    destruct (stamps_via (ro_draft r)) eqn:Hst; [|rewrite forward_unstamped by done; exact Hf].
    destruct (forward_exact ttl cf now members q src (default DEFAULT_MAX_FORWARDS (q_max_forwards q)) r s' Hst) as (d' & ck & s2 & He & Hs2 & _). rewrite He in Hr |- *. destruct (freezes d'); [done|].
    cbn [snd]. unfold requests_of in *. rewrite Hs2, app_nil_r. exact Hf. }
  apply requests_snoc in Hs. rewrite Hs in Hq. apply (f_equal length) in Hq. rewrite length_app in Hq. simpl in Hq. lia.
Qed.
Lemma final_leaves now members p src face s ours next below : p_vias p = ours :: next :: below -> p_method p = MInvite -> 300 <= p_status p < 700 ->
  px_sent (handle_response cf now members p src face s).2 <> px_sent s ->
  map_of ttl (px_memo (handle_response cf now members p src face s).2) !! ack_hop_key (hop_via next) (p_call_id p) (p_from_tag p) (p_cseq p) =
    Some (Retransmission, mkCancelEntry (addr_of_sock src) (default ""%string (hop_branch ours)) None None None, sat_add now RTX_ENTRY_TTL_MS).
Proof.
  intros Hv Hm Hst Hs. destruct (response_cases cf now members p src face s) as [[? _]|(ours' & next' & below' & target & Hv' & _ & _ & _ & ->)]; [done|]. simplify_eq.
  rewrite Hv in Hv'. simplify_eq. unfold remember_final. rewrite (proj2 (Z.ltb_ge _ _)), (bool_decide_true (p_method p = MInvite)) by (done || lia). cbn [orb negb].
  unfold and_then, on_memo. rewrite (proj2 (Z.leb_le _ _)), (proj2 (Z.ltb_lt _ _)) by lia. cbn [andb negb px_memo snd memo_remember trace_memo]. rewrite map_of_remember. by rewrite lookup_insert_eq.
Qed.
End ideal.

(** ** Over the bounded memo *)

Section real.
Context `{ME : MemoEnv} {MW : MemoLaws ME}.
Variable b : MemoBounds.
Variable m0 : CancelBranchLru.
Hypothesis Hb : bounds_wf b.
Hypothesis Hm0 : with_bounds b = Some m0.
Notation ttl := (mb_invite_ttl_ms b).
Notation ideal := (trace_memo ttl).
Variable rf : Refusals.
Variable ws0 : WorkerSet.
Variable o0 : strategy.
Variable g0 : gate.

Definition core_run (evs : list (ProxyEvent * TurnEnv)) : PState := proxy_run (MS := lru_memo) cf evs (mkPState (MS := lru_memo) m0 rf ws0 o0 g0 []).
Definition map_run (evs : list (ProxyEvent * TurnEnv)) : PState := proxy_run (MS := ideal) cf evs (mkPState (MS := ideal) [] rf ws0 o0 g0 []).
Definition unevicted (evs : list (ProxyEvent * TurnEnv)) : Prop := quiet m0 (px_memo (map_run evs)).
(** What the memo answers under a key after a run. *)
Definition remembered_at (evs : list (ProxyEvent * TurnEnv)) (now : Z) (k : string) : option CancelEntry := entry_of ttl (map_run evs) now k.

Lemma run_same l1 l2 : unevicted (l1 ++ l2) -> same b m0 (core_run l1) (map_run l1).
Proof. intros Hq. apply (sim_run cf b m0 Hb Hm0); [by repeat split|]. by eapply (quiet_before cf b m0 Hb Hm0). Qed.
Lemma run_sent l1 l2 : unevicted (l1 ++ l2) -> px_sent (core_run l1) = px_sent (map_run l1).
Proof. intros Hq. by apply (run_same l1 l2 Hq). Qed.
Lemma run_set l1 l2 : unevicted (l1 ++ l2) -> px_set (core_run l1) = px_set (map_run l1).
Proof. intros Hq. by apply (run_same l1 l2 Hq). Qed.
Lemma map_run_snoc l q src face t : map_run (l ++ [(EvRequest q src face, t)]) = (route_request cf (te_now t) (te_members t) (te_first_view t) q src face (map_run l)).2.
Proof. unfold map_run, proxy_run. by rewrite foldl_app. Qed.
Lemma map_run_response l p src face t : map_run (l ++ [(EvResponse p src face, t)]) = (handle_response cf (te_now t) (te_members t) p src face (map_run l)).2.
Proof. unfold map_run, proxy_run. by rewrite foldl_app. Qed.
(** A run that writes none of a transaction's keys leaves its entry. *)
Lemma run_entry l evs k lt e x now : map_of ttl (px_memo (map_run l)) !! k = Some (lt, e, x) -> Forall (fun e => k ∉ turn_keys e.1) evs -> now < x ->
  remembered_at (l ++ evs) now k = Some e.
Proof.
  intros Hk Hf Hx. unfold remembered_at, entry_of, map_run. unfold proxy_run at 1. rewrite foldl_app. fold (proxy_run (MS := ideal) cf l (mkPState (MS := ideal) [] rf ws0 o0 g0 [])).
  fold (map_run l). fold (proxy_run (MS := ideal) cf evs (map_run l)). rewrite run_keeps by done. rewrite Hk. unfold live_at. cbn [fst snd]. by rewrite (proj2 (Z.ltb_lt _ _)) by done.
Qed.

(** The turn of a request the core sent on. *)
Lemma sent_request evs0 q src face t1 rest d t : unevicted ((evs0 ++ [(EvRequest q src face, t1)]) ++ rest) ->
  px_sent (core_run (evs0 ++ [(EvRequest q src face, t1)])) = px_sent (core_run evs0) ++ [SentRequest d t] ->
  last (px_sent (map_run (evs0 ++ [(EvRequest q src face, t1)]))) = Some (SentRequest d t) /\
  exists o, route_request cf (te_now t1) (te_members t1) (te_first_view t1) q src face (map_run evs0) = (inr o, map_run (evs0 ++ [(EvRequest q src face, t1)])).
Proof.
  intros Hq Hsent. rewrite (run_sent _ rest Hq), (run_sent evs0 ((EvRequest q src face, t1) :: rest)) in Hsent by (rewrite <- (assoc_L (++)) in Hq; exact Hq).
  rewrite map_run_snoc in *. split; [by rewrite Hsent, last_snoc|]. by apply request_sends in Hsent.
Qed.
Lemma regroup {A} (l1 : list A) x l2 : l1 ++ x :: l2 = (l1 ++ [x]) ++ l2.
Proof. by rewrite <- (assoc_L (++)). Qed.
Lemma unevicted_before l1 l2 : unevicted (l1 ++ l2) -> unevicted l1.
Proof. apply (quiet_before cf b m0 Hb Hm0). Qed.



(** C11: the ACK to a failure goes where the failure came from.  Over any run in
    which the bounded memo evicts nothing: a worker answers an INVITE the core
    sent, its branch an RFC 3261 one, with a final from 300 to 699 that the core
    relays, and the answer carries the Vias the request left with.  The ACK of
    that transaction, hops left in it and no extension required of a proxy, not
    one to a final of the proxy's own, through any turns that write none of the
    entry the final left and within the retransmission lifetime, is sent to the
    address the final came from, whatever its Routes and however the workers
    changed, and leaves under the INVITE's branch; it is dropped only when it
    does not take the proxy's edits: its own Routes do not pop, its Via does not
    stamp or its draft does not freeze. *)
Theorem failure_acknowledged evs0 q src face t1 evs1 p srcp facep t2 evs2 qa srca facea t3 d t :
  let invited := evs0 ++ (EvRequest q src face, t1) :: evs1 in
  let answered := invited ++ [(EvResponse p srcp facep, t2)] in
  let before := answered ++ evs2 in
  let after := before ++ [(EvRequest qa srca facea, t3)] in
  unevicted after -> cookied q ->
  px_sent (core_run (evs0 ++ [(EvRequest q src face, t1)])) = px_sent (core_run evs0) ++ [SentRequest d t] ->
  p_vias p = q_via d :: q_vias_below d -> p_call_id p = q_call_id q -> p_from_tag p = q_from_tag q -> p_cseq p = q_cseq q -> p_method p = MInvite ->
  300 <= p_status p < 700 -> px_sent (core_run answered) <> px_sent (core_run invited) ->
  Forall (fun e => ack_key q ∉ turn_keys e.1) evs2 -> te_now t3 < sat_add (te_now t2) RTX_ENTRY_TTL_MS ->
  q_method qa = MAck -> same_transaction q qa -> passes qa ->
  acknowledges_own_final (pc_tags cf) qa = false -> acknowledges_own_final (pc_parse_tags cf) qa = false ->
  follows cf (te_now t3) qa srca facea (px_set (core_run before)) (Some (addr_of_sock srcp)) (fun da => hop_branch (q_via da) = hop_branch (q_via d))
    (px_sent (core_run before)) (px_sent (core_run after)).
Proof.
  intros invited answered before after Hq Hck Hsent Hv Hcid Hft Hcs Hm Hst Hrel Hevs Hlive Hma Hsame Hp Hn1 Hn2. subst invited answered before after.
  rewrite (regroup evs0 _ evs1) in *. pose proof (unevicted_before _ _ Hq) as Hqb. pose proof (unevicted_before _ _ Hqb) as Hqa. pose proof (unevicted_before _ _ Hqa) as Hqi.
  destruct (sent_request _ _ _ _ _ _ _ _ Hqi Hsent) as (Hs & o & Ho). destruct (request_leaves ttl cf _ _ _ _ _ _ _ _ _ Ho) as (r & d' & minted & ck & _ & _ & Hl & Hvd & Hbelow & _).
  rewrite Hs in Hl. injection Hl as <- Ht. rewrite Hbelow in Hv.
  rewrite (run_sent _ _ Hqa), (run_sent _ _ Hqb), map_run_response in Hrel.
  pose proof (final_leaves ttl (te_now t2) (te_members t2) p srcp facep _ _ _ _ Hv Hm Hst Hrel) as Hmap. rewrite <- map_run_response, stamped_hop_via, Hcid, Hft, Hcs in Hmap. fold (ack_key q) in Hmap.
  pose proof (run_entry _ evs2 _ _ _ _ (te_now t3) Hmap Hevs Hlive) as He. rewrite (same_ack_key q qa Hsame) in He.
  assert (is_Some (top_via_branch qa)) as Hbr.
  { destruct Hck as (br & Hbr & Hpre), Hsame as (Hsb & _). unfold top_via_branch. rewrite <- Hsb, Hbr. by destruct br. }
  pose proof (ack_turn ttl cf (te_now t3) (te_members t3) (te_first_view t3) qa srca facea _ _ Hma Hp Hn1 Hn2 Hbr He) as Ha. cbn [ce_target] in Ha.
  rewrite (run_set _ _ Hq), (run_sent _ _ Hq), (run_sent _ []) by (by rewrite app_nil_r). rewrite map_run_snoc. eapply follows_impl; [|exact Ha]. intros da (ck' & H2).
  rewrite H2, Hvd, !pushed_branch. by rewrite (same_transaction_branch q qa Hsame Hck).
Qed.

(** C23: a response retraces its request.  Over any run in which the bounded
    memo evicts nothing: a request the core sent, whose Via asks for [rport], is
    answered at the address and port it came from, a port a socket has, with the
    Vias it arrived with, the topmost stamped, when the answer carries the Vias
    the request left with, comes from anywhere on the internal face and takes the
    proxy's edit of it (its Via popped, the message frozen); unless the next Via
    names a worker the owner rule moves. *)
Theorem response_retraces {HL : HostLaws HE} evs0 q src face t1 evs p srcp t2 d t :
  let before := evs0 ++ (EvRequest q src face, t1) :: evs in
  let after := before ++ [(EvResponse p srcp FaceInternal, t2)] in
  let sent_by := hp_pair (hop_sent_by (q_via q)) in
  unevicted after ->
  px_sent (core_run (evs0 ++ [(EvRequest q src face, t1)])) = px_sent (core_run evs0) ++ [SentRequest d t] ->
  is_Some (hop_param "rport" (q_via q)) -> 0 <= sa_port src <= u16_MAX ->
  p_vias p = q_via d :: q_vias_below d -> relays p = true ->
  owner_route cf (te_now t2) (te_members t2) p (q_via d) sent_by (rearm_departed sent_by (te_now t2) (px_set (core_run before))) = AlongVia ->
  px_sent (core_run after) = px_sent (core_run before) ++ [SentResponse (pop_via p) (mkAddr (show_ip (to_canonical (sa_ip src))) (sa_port src))] /\
  exists top, p_vias (pop_via p) = top :: q_vias_below q /\ hop_via top = hop_via (q_via q).
Proof.
  intros before after sent_by Hq Hsent Hrp Hport Hv Hrel Howner. subst before after. rewrite (regroup evs0 _ evs) in *. pose proof (unevicted_before _ _ Hq) as Hqb.
  destruct (sent_request _ _ _ _ _ _ _ _ Hqb Hsent) as (Hs & o & Ho). destruct (request_leaves ttl cf _ _ _ _ _ _ _ _ _ Ho) as (r & d' & minted & ck & _ & _ & Hl & Hvd & Hbelow & _).
  rewrite Hs in Hl. injection Hl as <- Ht. rewrite Hbelow in Hv.
  rewrite (run_set _ _ Hq) in Howner. rewrite (run_sent _ _ Hq), (run_sent _ []) by (by rewrite app_nil_r). rewrite map_run_response.
  split; [|exists (stamped_from (observed_source src).1 (observed_source src).2 (q_via q)); split; [unfold pop_via; cbn [p_vias]; by rewrite Hv|apply stamped_hop_via]].
  assert (is_self_addr cf (hp_pair (hop_sent_by (q_via d))) = true) as Hself by (rewrite Hvd; apply pushed_self).
  unfold handle_response. rewrite Hv, Hself. cbn [negb]. unfold and_then, on_set, the_set, send. cbn [px_set]. rewrite stamped_sent_by. fold sent_by.
  rewrite Howner. cbn [relay_target]. rewrite Hrel. cbn [negb]. rewrite remember_final_sent. cbn [px_sent]. do 3 f_equal.
  unfold observed_source. cbn [fst snd]. apply stamped_target; [by rewrite ip_show|done|done].
Qed.
End real.
End txn.
