(* ===== verification/ProxyEx.v ===== *)
(** * Front proxy: a core to run

    Concrete seams, two workers behind the load balancer, and the transactions
    of one call run through it: the theorems on the core at those inputs. *)

From S2P Require Import Prelude Texts TxnData Rendezvous ProxyTypes Topology WorkerRegistry WorkerRegistryProps WorkerRegistryThms BranchMemo BranchMemoInv BranchMemoSteps BranchMemoProps LoadBalancer LoadBalancerProps LoadBalancerThms SipHops ProxyMsg ProxyRefusals ProxyRefusalsProps ProxyCore ProxyRequest ProxyResponse ProxyRefine ProxyHops ProxyTurns ProxyReplies ProxyTxn.
From Stdlib Require Import Ascii.

Open Scope Z_scope.

(** ** The seams *)

(** An address as its binary digits. *)
Fixpoint pos_text (p : positive) : string :=
  match p with xH => "" | xO p => String "0" (pos_text p) | xI p => String "1" (pos_text p) end.
Fixpoint text_pos (s : string) : option positive :=
  match s with
  | EmptyString => Some xH
  | String a s => p ← text_pos s; if Ascii.eqb a "0" then Some (xO p) else if Ascii.eqb a "1" then Some (xI p) else None
  end.
Lemma pos_text_read p : text_pos (pos_text p) = Some p.
Proof. induction p as [p IH|p IH|]; simpl; rewrite ?IH; done. Qed.
Definition z_text (z : Z) : string := match z with Z0 => "z" | Zpos p => String "p" (pos_text p) | Zneg p => String "n" (pos_text p) end.
Definition text_z (s : string) : option Z :=
  match s with
  | String a s =>
      if Ascii.eqb a "z" then (if String.eqb s "" then Some 0 else None)
      else if Ascii.eqb a "p" then Zpos <$> text_pos s else if Ascii.eqb a "n" then Zneg <$> text_pos s else None
  | EmptyString => None
  end.
#[local] Instance ex_host_env : HostEnv := {|
  show_ip a := match a with V4 z => String "4" (z_text z) | V6 z => String "6" (z_text z) end;
  ip_host s := match s with
               | String a s => if Ascii.eqb a "4" then V4 <$> text_z s else if Ascii.eqb a "6" then V6 <$> text_z s else None
               | EmptyString => None
               end;
|}.
Lemma ex_host_laws : HostLaws ex_host_env.
Proof. split. intros [[]|[]]; cbn -[text_pos pos_text]; rewrite ?pos_text_read; done. Qed.
#[local] Instance ex_draft_env : DraftEnv := {| pops_routes _ _ := true; stamps_via _ := true; freezes _ := true |}.
#[local] Instance ex_text_env : TextEnv := {| utf8_lossy s := s |}.
#[local] Instance ex_branch_env : BranchEnv := {|
  sha256 s := [Z.of_nat (String.length s) mod 256; 17];
  via_wire h := hp_host (hop_sent_by h);
  uri_text u := hp_host (u_authority u);
|}.
#[local] Instance ex_relay_env : RelayEnv := {| relays _ := true |}.
(** A gate that counts what it admits. *)
#[local] Instance ex_gate : SelfGate := {| gate := Z; try_admit_external g := (Admit, g + 1); note_bypass _ g := g |}.
#[local] Existing Instances ex_tag_env ex_refusal_env ex_memo_env ex_memo_laws ex_cookie_env ex_observer ex_host_laws.
#[local] Instance ex_strategy : RoutingStrategy := balancer ex_provider.
#[local] Instance ex_strategy_laws : StrategyLaws ex_strategy.
Proof. apply balancer_laws. Qed.

Definition ex_config : ProxyConfig := mkConfig _ (mkAddr "proxy.int" 5060) (Some (mkExternal (mkAddr "proxy.ext" 5060) [])) 7 8 2.
Definition px_bounds : MemoBounds := mkMemoBounds 64 400000 2 INVITE_ENTRY_TTL_MS DEFAULT_MEAN_RING_MS DEFAULT_INVITES_PER_CALL_MILLI.
Lemma px_bounds_wf : bounds_wf px_bounds.
Proof. repeat split; vm_compute; discriminate. Qed.
Definition px_lru : CancelBranchLru := default (mkLru [] 0 0 0) (with_bounds px_bounds).
Definition ex_obs : strategy (RoutingStrategy := ex_strategy) := [].
Definition ex_gate0 : gate (SelfGate := ex_gate) := 0.
Definition ex_core : list (ProxyEvent * TurnEnv) -> PState (MS := lru_memo) := core_run ex_config px_lru (refusals_keyed 160) ex_pool ex_obs ex_gate0.
Definition ex_map : list (ProxyEvent * TurnEnv) -> PState (MS := trace_memo INVITE_ENTRY_TTL_MS) := map_run ex_config px_bounds (refusals_keyed 160) ex_pool ex_obs ex_gate0.
Definition ex_start : PState (MS := trace_memo INVITE_ENTRY_TTL_MS) (RS := ex_strategy) (SG := ex_gate) :=
  mkPState (MS := trace_memo INVITE_ENTRY_TTL_MS) (RS := ex_strategy) (SG := ex_gate) [] (refusals_keyed 160) ex_pool ex_obs ex_gate0 [].

(** ** A call *)

Definition ex_turn (now : Z) : TurnEnv := mkTurn now ex_members true.
Definition ex_client : SocketAddr := mkSock (V4 3221225985) 5066.
Definition ex_worker_src : SocketAddr := mkSock (V4 167772161) 5060.
Definition ex_inv : Req := ex_req MInvite "z9hG4bK1" None.
Definition ev_invite (now : Z) : ProxyEvent * TurnEnv := (EvRequest ex_inv ex_client FaceExternal, ex_turn now).
Definition ev_other (now : Z) : ProxyEvent * TurnEnv := (EvRequest (ex_req MOptions "z9hG4bK77" None) ex_client FaceExternal, ex_turn now).
Definition ex_can : Req := ex_req MCancel "z9hG4bK1" None.
Definition ex_ack : Req := ex_req MAck "z9hG4bK1" (Some "to1"%string).
Definition ex_sent_invite : Req := match last (px_sent (ex_core [ev_invite 1000])) with Some (SentRequest d _) => d | _ => ex_inv end.
Definition ex_hop : ProxyAddr := match last (px_sent (ex_core [ev_invite 1000])) with Some (SentRequest _ t) => t | _ => mkAddr "" 0 end.
Example ex_invite_goes : (ex_hop, px_gate (ex_core [ev_invite 1000])) = (mkAddr "10.0.0.1" 5060, 1).
Proof. vm_compute. reflexivity. Qed.

(** ** Runs that evict nothing *)

Definition op_wfb (o : MemoOp * Z) : bool := match o.1 with OpRemember key e _ => footprint key e <=? LIMIT | _ => true end.
Fixpoint clockedb (T : Z) (ops : list (MemoOp * Z)) : bool := match ops with [] => true | o :: ops => (T <=? o.2) && clockedb o.2 ops end.
Lemma quiet_check m0 l : forallb op_wfb l && (Z.of_nat (length l) + 1 <? 2 ^ 64) && clockedb 0 l && (lru_evicted (memo_run l m0) =? 0) = true -> quiet m0 l.
Proof.
  rewrite !andb_true_iff, Z.ltb_lt, Z.eqb_eq. intros [[[Hw Hl] Hc] He]. split; [|split; [exact Hl|split; [|exact He]]].
  - apply Forall_forall. intros [o n] Ho. rewrite forallb_forall in Hw. apply list_elem_of_In, Hw in Ho. unfold op_wfb, op_wf in *. cbn [fst] in *.
    destruct o; [by apply Z.leb_le|exact I..].
  - clear -Hc. revert Hc. generalize 0. induction l as [|o l IH]; intros T Hc; [exact I|]. cbn [clockedb] in Hc. apply andb_true_iff in Hc as [H1 H2]. apply Z.leb_le in H1.
    split; [exact H1|by apply IH].
Qed.
Ltac quiet_run := apply quiet_check; vm_compute; reflexivity.
Ltac keys_apart := repeat constructor; vm_compute; set_solver.

(** ** The theorems at this call *)

Lemma core_over_memo_is_over_map_witness :
  px_sent (ex_core [ev_invite 1000; ev_other 1500; (EvSweep 0, ex_turn 1600); (EvRequest ex_can ex_client FaceExternal, ex_turn 2000)]) =
  px_sent (ex_map [ev_invite 1000; ev_other 1500; (EvSweep 0, ex_turn 1600); (EvRequest ex_can ex_client FaceExternal, ex_turn 2000)]).
Proof.
  refine (proj1 (core_over_memo_is_over_map ex_config px_bounds px_lru px_bounds_wf eq_refl _ (refusals_keyed 160) ex_pool ex_obs ex_gate0 [] _)). quiet_run.
Defined.
Lemma external_face_closed_witness : hop_ok INVITE_ENTRY_TTL_MS 1000 ex_start ex_inv ex_hop.
Proof.
  destruct (external_face_closed INVITE_ENTRY_TTL_MS ex_config 1000 ex_members true ex_inv ex_client
    ex_start ex_sent_invite ex_hop ex_strategy_laws) as [H|[H _]]; [..|exact H].
  - apply (bool_decide_unpack _). vm_compute. exact I.
  - vm_compute. by left.
  - by apply not_elem_of_nil in H.
Defined.

(** The worker refuses the call. *)
Definition ex_busy : Resp := mkResp 486 (q_via ex_sent_invite :: q_vias_below ex_sent_invite) MInvite 1 (Some "from1"%string) (Some "to1"%string) "call1" None.
Definition ev_busy (now : Z) : ProxyEvent * TurnEnv := (EvResponse ex_busy ex_worker_src FaceInternal, ex_turn now).
Lemma failure_acknowledged_witness :
  exists da, px_sent (ex_core [ev_invite 1000; ev_other 1500; ev_busy 2000; ev_other 2100; (EvRequest ex_ack ex_client FaceExternal, ex_turn 2200)]) =
    px_sent (ex_core [ev_invite 1000; ev_other 1500; ev_busy 2000; ev_other 2100]) ++ [SentRequest da (addr_of_sock ex_worker_src)] /\
    hop_branch (q_via da) = hop_branch (q_via ex_sent_invite).
Proof.
  assert (exists c, classify ex_config 2200 ex_ack ex_client FaceExternal (px_set (ex_core [ev_invite 1000; ev_other 1500; ev_busy 2000; ev_other 2100])) = Some c) as [[draft c] Hc] by (eexists; vm_compute; reflexivity).
  cut (follows ex_config 2200 ex_ack ex_client FaceExternal (px_set (ex_core [ev_invite 1000; ev_other 1500; ev_busy 2000; ev_other 2100])) (Some (addr_of_sock ex_worker_src))
    (fun da => hop_branch (q_via da) = hop_branch (q_via ex_sent_invite)) (px_sent (ex_core [ev_invite 1000; ev_other 1500; ev_busy 2000; ev_other 2100]))
    (px_sent (ex_core [ev_invite 1000; ev_other 1500; ev_busy 2000; ev_other 2100; (EvRequest ex_ack ex_client FaceExternal, ex_turn 2200)]))).
  { unfold follows. rewrite Hc. intros (da & H1 & H2). exists da. split; [exact H2|exact H1]. }
  clear Hc draft c. refine (failure_acknowledged ex_config px_bounds px_lru px_bounds_wf eq_refl (refusals_keyed 160) ex_pool ex_obs ex_gate0 []
    ex_inv ex_client FaceExternal (ex_turn 1000) [ev_other 1500] ex_busy ex_worker_src FaceInternal (ex_turn 2000) [ev_other 2100]
    ex_ack ex_client FaceExternal (ex_turn 2200) ex_sent_invite ex_hop _ _ _ eq_refl eq_refl eq_refl eq_refl eq_refl _ _ _ _ eq_refl _ _ _ _).
  - quiet_run.
  - by exists "z9hG4bK1"%string.
  - vm_compute. reflexivity.
  - split; vm_compute; congruence.
  - vm_compute. discriminate.
  - keys_apart.
  - vm_compute. reflexivity.
  - by split.
  - by split.
  - vm_compute. reflexivity.
  - vm_compute. reflexivity.
Defined.
Lemma response_retraces_witness :
  px_sent (ex_core [ev_invite 1000; ev_other 1500; ev_busy 2000]) =
    px_sent (ex_core [ev_invite 1000; ev_other 1500]) ++ [SentResponse (pop_via ex_busy) (mkAddr (show_ip (V4 3221225985)) 5066)].
Proof.
  refine (proj1 (response_retraces (HL := ex_host_laws) ex_config px_bounds px_lru px_bounds_wf eq_refl (refusals_keyed 160) ex_pool ex_obs ex_gate0 []
    ex_inv ex_client FaceExternal (ex_turn 1000) [ev_other 1500] ex_busy ex_worker_src (ex_turn 2000) ex_sent_invite ex_hop _ _ _ _ _ _ _)).
  - quiet_run.
  - vm_compute. reflexivity.
  - by eexists.
  - split; vm_compute; discriminate.
  - reflexivity.
  - reflexivity.
  - vm_compute. reflexivity.
Defined.

(** An answer to a request of the first worker, which has died since; the call's
    Record-Route names its backup. *)
Definition ex_from_worker : Resp :=
  mkResp 200 [via_udp (mkAddr "proxy.ext" 5060); with_branch "z9hG4bKw" (via_udp (mkAddr "10.0.0.1" 5060))] MBye 2 (Some "from1"%string) (Some "to1"%string) "call1"
    (Some (q_record_routes ex_sent_invite)).
Definition ex_down : PState (MS := trace_memo INVITE_ENTRY_TTL_MS) (RS := ex_strategy) (SG := ex_gate) :=
  mkPState (MS := trace_memo INVITE_ENTRY_TTL_MS) (RS := ex_strategy) (SG := ex_gate) [] (refusals_keyed 160) ex_pool_down ex_obs ex_gate0 [].
Lemma responses_to_workers_witness : up_at (rearm_departed (mkAddr "10.0.0.1" 5060) 2000 ex_pool_down) (mkAddr "10.0.0.2" 5060).
Proof.
  destruct (responses_to_workers ex_config 2000 ex_members ex_from_worker ex_worker_src FaceExternal ex_down (pop_via ex_from_worker) (mkAddr "10.0.0.2" 5060) ex_strategy_laws)
    as [H|(ours & next & below & Hv & _ & Hup & _)].
  - apply (bool_decide_unpack _). vm_compute. exact I.
  - vm_compute. by left.
  - by apply not_elem_of_nil in H.
  - assert (next = with_branch "z9hG4bKw" (via_udp (mkAddr "10.0.0.1" 5060))) as -> by (injection Hv; congruence).
    eapply (Hup (mkWorker "w0" (mkAddr "10.0.0.1" 5060) Dead Accept)); vm_compute; reflexivity.
Defined.
