(* ===== verification/SipViaText.v ===== *)
(** * SIP text: the Via reader

    [crates/sip-message/src/header/via.rs]: reading and rendering one hop.  The
    hop a reader returns is well formed, and a well-formed hop reads back from
    its rendering; so does the hop the proxy pushes, cookie included. *)

From stdpp Require Import pretty.
From Stdlib Require Import Ascii.
From S2P Require Import Prelude Texts TxnData ProxyTypes BranchMemo Topology WorkerRegistry WorkerRegistryProps WorkerRegistryThms LoadBalancer LoadBalancerThms SipHops SipText SipUriText ProxyMsg ProxyRefusals ProxyCore ProxyRequest.

Open Scope Z_scope.

(** A hop with the protocol and the version it was sent over. *)
Record ViaValue := mkViaValue { via_protocol : string; via_version : string; via_hop : ViaHop }.
Definition via_new (h : ViaHop) : ViaValue := mkViaValue "SIP" "2.0" h.
Definition VIA_TRANSPORT_ENDS : string := " " +:+ String tab ";,".
(** [u16::try_from] of a port. *)
Definition u16_port (p : option Z) : option (option Z) :=
  match p with None => Some None | Some p => if p <=? u16_MAX then Some (Some p) else None end.

Section via.
Context `{IP : StdIp}.
Definition read_via (value : string) : option ViaValue :=
  let i := skip_ws value 0 in
  let proto_end := scan_until value i "/" in
  if (String.length value <=? proto_end)%nat then None
  else
    let protocol := trim (clamped value i proto_end) in
    let ver_end := scan_until value (S proto_end) "/" in
    if (String.length value <=? ver_end)%nat then None
    else
      let version := trim (clamped value (S proto_end) ver_end) in
      let i := skip_ws value (S ver_end) in
      let trans_end := scan_until value i VIA_TRANSPORT_ENDS in
      let transport := clamped value i trans_end in
      if String.eqb transport "" then None
      else
        '(host, port, after_host) ← read_sent_by value (skip_ws value trans_end);
        port ← u16_port port;
        '(params, _) ← parse_semicolon_params value after_host HEADER_PARAMS;
        Some (mkViaValue protocol version (mkHop transport (mkHP host port) params)).
Definition parse_via (raw : string) : option ViaValue := read_via (trim raw).
Definition render_via (v : ViaValue) : string :=
  via_protocol v +:+ String "/" (via_version v +:+ String "/" (hop_transport (via_hop v) +:+
    String " " (render_hostport (hop_sent_by (via_hop v)) +:+ render_params (hop_params (via_hop v))))).
End via.

(** ** Well-formed hops *)

Section via_wf.
Context `{L : StdIpLaws}.
Record via_ok (v : ViaValue) : Prop := {
  vo_protocol : trim (via_protocol v) = via_protocol v /\ has_char "/" (via_protocol v) = false;
  vo_version : trim (via_version v) = via_version v /\ has_char "/" (via_version v) = false;
  vo_transport : hop_transport (via_hop v) <> "" /\ every (avoids VIA_TRANSPORT_ENDS) (hop_transport (via_hop v)) = true;
  vo_host : host_refused (hp_host (hop_sent_by (via_hop v))) Target = false;
  vo_port : match hp_port (hop_sent_by (via_hop v)) with Some p => 0 <= p <= u16_MAX | None => True end;
  vo_params : Forall (fun q => param_ok HEADER_PARAMS q = true) (hop_params (via_hop v));
}.

(** A decimal is the number its digits fold to. *)
Lemma read_digits_ge s : forall acc n, 0 <= acc -> read_digits acc s = Some n -> acc <= n.
Proof.
  induction s as [|a s IH]; intros acc n Ha; simpl; [by intros [= ->]|]. destruct (digit_value a) as [d|] eqn:Hd; [|done]. cbn [mbind option_bind]. intros H.
  assert (0 <= d) as Hd0 by (unfold digit_value in Hd; destruct (_ && _) eqn:Eb; [injection Hd as <-; apply andb_true_iff in Eb as [Eb _]; lia|done]). apply IH in H; lia.
Qed.
Lemma digits_value_read s : forall acc n, 0 <= acc -> read_digits acc s = Some n -> n <= u64_MAX -> digits_value acc s = n.
Proof.
  induction s as [|a s IH]; intros acc n Ha; simpl; [by intros [= ->]|]. destruct (digit_value a) as [d|] eqn:Hd; [|done]. cbn [mbind option_bind]. intros H Hn.
  assert (0 <= d /\ Z.of_nat (nat_of_ascii a) - 48 = d) as [Hd0 Hd1].
  { unfold digit_value in Hd. unfold nat_of_ascii. destruct (_ && _) eqn:Eb; [|done]. injection Hd as <-. apply andb_true_iff in Eb as [Eb _]. rewrite N_nat_Z. lia. }
  pose proof (read_digits_ge _ (acc * 10 + d) n ltac:(lia) H) as Hle. rewrite Hd1. rewrite (Z.min_r u64_MAX (acc * 10)), (Z.max_r 0 d), Z.min_r by lia. apply IH; [lia|done|done].
Qed.
Lemma digits_value_pretty p : 0 <= p <= u16_MAX -> digits_value 0 (pretty p) = p.
Proof.
  intros Hp. apply digits_value_read; [lia| |unfold u16_MAX, u64_MAX in *; lia]. destruct p as [|q|q]; [done| |lia].
  change (pretty (Z.pos q)) with (pretty_N_go (N.pos q) ""). by rewrite read_digits_pretty.
Qed.

Lemma header_params_follow l : stops (avoids SENT_BY_ENDS) (render_params l) /\ stops is_ws (render_params l).
Proof. destruct l as [|[n v] l]; done. Qed.
Lemma params_first l : first_char (render_params l) = None \/ first_char (render_params l) = Some ";"%char.
Proof. destruct l as [|[n v] l]; [by left|by right]. Qed.
Lemma read_sent_by_render p h l : host_refused (hp_host h) Target = false -> match hp_port h with Some z => 0 <= z <= u16_MAX | None => True end ->
  read_sent_by (p +:+ render_hostport h +:+ render_params l) (String.length p) = Some (hp_host h, hp_port h, String.length (p +:+ render_hostport h)).
Proof.
  intros Hh Hp. destruct h as [host port]. unfold render_hostport, read_sent_by. cbn [hp_host hp_port] in *. destruct (header_params_follow l) as [Hl1 Hl2].
  rewrite str_app_assoc. rewrite read_host_render; [|done|done|].
  2: { destruct port as [z|]; [|by left]. right. exists (pretty z), (render_params l). str_norm. split; [done|]. split; [|done]. apply digits_avoid; [done|]. apply pretty_digits. lia. }
  cbn [mbind option_bind]. rewrite <- (str_app_assoc p). set (q := p +:+ render_host host). destruct port as [z|].
  - str_norm. rewrite skip_ws_app by done. rewrite byte_at_app, bool_decide_true by done. rewrite (str_snoc q ":"), <- (len_snoc q ":"). set (q2 := q +:+ ":").
    assert (every is_ascii_digit (pretty z) = true) as Hd by (apply pretty_digits; lia).
    rewrite skip_ws_app.
    2: { pose proof (pretty_nonempty z ltac:(lia)) as Hne. destruct (pretty z) as [|a t]; [done|]. str_norm. unfold stops. cbn [first_char every] in *. apply andb_true_iff in Hd as [Ha _].
         by apply (class_not_ws is_ascii_digit). }
    rewrite scan_until_app; [|by destruct (avoids_weaken ":" SENT_BY_ENDS _ (digits_avoid _ SENT_BY_ENDS eq_refl Hd))|done].
    rewrite clamped_app, Hd, pretty_nonempty by lia. cbn [orb negb mbind option_bind]. rewrite digits_value_pretty by lia.
    rewrite <- str_app_assoc, <- str_len_app. rewrite skip_ws_app by done. rewrite byte_at_app. unfold q2, q. destruct (params_first l) as [-> | ->]; do 2 f_equal; by str_norm.
  - rewrite str_app_nil, string_app_nil. rewrite !skip_ws_app by done. rewrite !byte_at_app. rewrite bool_decide_false by (by destruct (params_first l) as [-> | ->]). cbn [mbind option_bind].
    rewrite skip_ws_app by done. rewrite byte_at_app. by destruct (params_first l) as [-> | ->].
Qed.
Lemma scan_single p x c r d : has_char c d = true -> every (avoids d) x = true -> scan_until (p +:+ x +:+ String c r) (String.length p) d = String.length (p +:+ x).
Proof. intros Hc Hx. rewrite scan_until_app; [by rewrite str_len_app|done|]. unfold stops, avoids. cbn [first_char]. by rewrite Hc. Qed.
Lemma no_slash x : has_char "/" x = false -> every (avoids "/") x = true.
Proof. intros H%no_char_every. revert H. apply every_impl. by_class. Qed.
Lemma read_via_render v : via_ok v -> read_via (render_via v) = Some v.
Proof.
  intros [[Hp1 Hp2] [Hv1 Hv2] [Ht1 Ht2] Hh Hpt Hps]. destruct v as [proto ver [tr hp ps]]. unfold render_via, read_via.
  cbn [via_protocol via_version via_hop hop_transport hop_sent_by hop_params] in *. set (tail := render_hostport hp +:+ render_params ps).
  pose proof (skip_ws_app "" (proto +:+ String "/" (ver +:+ String "/" (tr +:+ String " " tail)))) as Hws. rewrite str_app_nil in Hws. change (String.length "") with 0%nat in Hws. rewrite Hws.
  2: { destruct proto as [|a proto]; [done|]. by apply (trimmed_not_ws _ Hp1). }
  pose proof (scan_single "" proto "/" (ver +:+ String "/" (tr +:+ String " " tail)) "/" eq_refl (no_slash _ Hp2)) as Hsc. rewrite !str_app_nil in Hsc. change (String.length "") with 0%nat in Hsc. rewrite Hsc.
  rewrite (proj2 (Nat.leb_gt _ _)) by (rewrite str_len_app; simpl; lia). rewrite clamped_front, Hp1. rewrite (str_snoc proto "/"), <- (len_snoc proto "/"). set (q := proto +:+ "/").
  rewrite scan_single; [|done|by apply no_slash]. rewrite (proj2 (Nat.leb_gt _ _)) by (rewrite !str_len_app; simpl; lia). rewrite (clamped_between q ver _ (String.length q) _ eq_refl eq_refl). rewrite Hv1.
  rewrite <- (str_app_assoc q ver), (str_snoc (q +:+ ver) "/"), <- (len_snoc (q +:+ ver) "/"). set (q2 := (q +:+ ver) +:+ "/").
  rewrite skip_ws_app.
  2: { destruct tr as [|a tr]; [done|]. str_norm. unfold stops. cbn [first_char every] in *. apply andb_true_iff in Ht2 as [Ha _]. by apply (class_not_ws (avoids VIA_TRANSPORT_ENDS)). }
  rewrite scan_single by done. rewrite (clamped_between q2 tr _ (String.length q2) _ eq_refl eq_refl). rewrite (proj2 (String.eqb_neq _ _) Ht1).
  rewrite <- (str_app_assoc q2 tr). set (q3 := q2 +:+ tr).
  assert (skip_ws (q3 +:+ String " " tail) (String.length q3) = String.length (q3 +:+ " ")) as ->.
  { unfold skip_ws. rewrite SipText.suffix_app. change (String " " tail) with (" " +:+ tail). rewrite run_len_app; [by rewrite str_len_app|done|].
    unfold tail, render_hostport, render_host. destruct (has_char ":" (hp_host hp)) eqn:Hc; [done|]. pose proof (host_plain _ _ Hh Hc) as Hpl.
    destruct (hp_host hp) as [|a hst]; [done|]. str_norm. unfold stops. cbn [first_char every] in *. apply andb_true_iff in Hpl as [Ha _]. by apply (class_not_ws host_char). }
  rewrite (str_snoc q3 " "). unfold tail. rewrite read_sent_by_render by done. cbn [mbind option_bind].
  rewrite <- str_app_assoc. pose proof (params_read_back HEADER_PARAMS ((q3 +:+ " ") +:+ render_hostport hp) ps "" eq_refl Hps eq_refl) as Hread. rewrite string_app_nil in Hread. rewrite Hread.
  destruct hp as [host port]. cbn [hp_host hp_port] in *. destruct port as [z|]; unfold u16_port; [rewrite (proj2 (Z.leb_le _ _)) by lia|]; done.
Qed.

(** ** What the reader returns is well formed *)

Lemma run_len_le f t : (run_len f t <= String.length t)%nat.
Proof. induction t as [|a t IH]; simpl; [lia|]. destruct (f a); lia. Qed.
Lemma take_run f t : every f (str_take (run_len f t) t) = true.
Proof. induction t as [|a t IH]; [done|]. cbn [run_len]. destruct (f a) eqn:Ha; [|done]. cbn [str_take every]. by rewrite Ha, IH. Qed.
Lemma suffix_len i s : String.length (suffix i s) = (String.length s - i)%nat.
Proof. revert s. induction i as [|i IH]; intros [|a s]; simpl; done. Qed.
Lemma clamped_scan s i d : every (avoids d) (clamped s i (scan_until s i d)) = true /\ (forall a, first_char (clamped s i (scan_until s i d)) = Some a -> byte_at s i = Some a).
Proof.
  unfold clamped, scan_until. set (n := run_len _ _). assert (n <= String.length s - i)%nat as Hn by (unfold n; rewrite <- suffix_len; apply run_len_le).
  destruct (Nat.le_gt_cases i (String.length s)) as [Hi|Hi].
  - rewrite (Nat.min_l i), (Nat.min_l (i + n)) by lia. replace (i + n - i)%nat with n by lia. split; [apply take_run|]. intros a. unfold byte_at. rewrite get_suffix. by destruct n, (suffix i s).
  - rewrite !Nat.min_r by lia. rewrite Nat.sub_diag. destruct (suffix _ _); split; done.
Qed.
Lemma read_one_ok st s i acc j l : style_ok st = true -> Forall (fun q => param_ok st q = true) acc -> read_one s i st acc = (j, l) -> Forall (fun q => param_ok st q = true) l.
Proof.
  intros Hst Hacc. unfold read_one. destruct (clamped_scan s i (name_delims st)) as [Hn _]. set (n := clamped s i _) in *.
  set (k := skip_ws s (scan_until s i (name_delims st))). case_bool_decide.
  - set (k2 := skip_ws s (S k)). case_bool_decide as Hq.
    + destruct (read_quoted s k2) as [t e]. intros [= <- <-]. apply Forall_app. split; [done|]. constructor; [|constructor]. unfold param_ok. cbn [fst snd value_ok]. by rewrite Hn.
    + intros [= <- <-]. apply Forall_app. split; [done|]. constructor; [|constructor]. destruct (clamped_scan s k2 (value_delims st)) as [Hv Hf]. unfold param_ok. cbn [fst snd value_ok].
      rewrite Hn, Hv. rewrite (bool_decide_false (first_char _ = _)); [done|]. intros Hd. by apply Hf in Hd.
  - intros [= <- <-]. destruct (String.eqb n "") eqn:Hne; [done|]. apply Forall_app. split; [done|]. constructor; [|constructor]. unfold param_ok. cbn [fst snd value_ok]. by rewrite Hn, Hne, bool_decide_true.
Qed.
Lemma collect_ok st fuel s : forall i acc l j, style_ok st = true -> Forall (fun q => param_ok st q = true) acc ->
  collect_semicolon_params fuel s i st acc = Some (l, j) -> Forall (fun q => param_ok st q = true) l.
Proof.
  induction fuel as [|fuel IH]; intros i acc l j Hst Hacc; [done|]. cbn [collect_semicolon_params]. destruct (negb _); [by intros [= <- <-]|].
  destruct (read_one _ _ _ _) as [i' acc'] eqn:Hr. apply read_one_ok in Hr; [|done|done]. by apply IH.
Qed.
Lemma skip_split p t : exists w r, t = w +:+ r /\ skip_ws (p +:+ t) (String.length p) = String.length (p +:+ w).
Proof.
  destruct (run_split is_ws t) as (w & r & -> & Hw & Hr). exists w, r. split; [done|]. unfold skip_ws. rewrite SipText.suffix_app, run_len_app by done. by rewrite str_len_app.
Qed.
Lemma digits_value_pos s : forall acc, 0 <= acc -> 0 <= digits_value acc s.
Proof. induction s as [|a s IH]; intros acc Ha; simpl; [done|]. apply IH. unfold u64_MAX. lia. Qed.
Lemma read_sent_by_inv p t host port j : read_sent_by (p +:+ t) (String.length p) = Some (host, port, j) ->
  host_refused host Target = false /\ match port with Some z => 0 <= z | None => True end.
Proof.
  unfold read_sent_by. destruct (read_host _ _ _ _) as [[h k]|] eqn:Hh; [|done]. apply read_host_inv in Hh as [Hh _]. cbn [mbind option_bind].
  destruct (bool_decide _).
  - destruct (_ || _); [done|]. cbn [mbind option_bind]. set (z := digits_value 0 _). assert (0 <= z) as Hz by (by apply digits_value_pos). intros H. assert (host = h /\ port = Some z) as [-> ->]; [|done].
    destruct (byte_at _ _) as [[[] [] [] [] [] [] [] []]|]; try done; by injection H as <- <-.
  - cbn [mbind option_bind]. intros H. assert (host = h /\ port = None) as [-> ->]; [|done]. destruct (byte_at _ _) as [[[] [] [] [] [] [] [] []]|]; try done; by injection H.
Qed.
Lemma trim_no_char c s : has_char c s = false -> has_char c (trim s) = false.
Proof.
  assert (forall x, has_char c (rev_text x "") = has_char c x) as Hrev.
  { intros x. induction x as [|a x IH]; [done|]. cbn [rev_text]. rewrite rev_text_app, has_char_app, IH. simpl. rewrite orb_false_r. apply orb_comm. }
  assert (forall ws fuel x, has_char c x = false -> has_char c (strip_all ws fuel x) = false) as Hst.
  { intros ws fuel. induction fuel as [|fuel IH]; intros x Hx; simpl; [done|]. destruct (first_some _ ws) as [t|] eqn:Ht; [|done]. apply IH.
    apply first_some_some in Ht as (w & _ & ->%strip_prefix_some). rewrite has_char_app, orb_false_iff in Hx. tauto. }
  intros H. unfold trim, trim_end, trim_start. rewrite Hrev. apply Hst. rewrite Hrev. by apply Hst.
Qed.
Lemma read_via_ok s v : read_via s = Some v -> via_ok v.
Proof.
  unfold read_via. destruct (skip_split "" s) as (w & t & -> & Hw). rewrite str_app_nil in Hw. change (String.length "") with 0%nat in Hw. rewrite Hw, str_app_nil. clear Hw.
  destruct (scan_split w t "/") as (proto & r & -> & Hp & Hr & ->). destruct (_ <=? _)%nat eqn:Hl1; [done|]. rewrite (clamped_between w proto _ (String.length w) _ eq_refl eq_refl).
  apply stops_cases in Hr as [->|(a & r' & -> & Ha)]; [rewrite string_app_nil, Nat.leb_refl in Hl1; done|]. simpl in Ha. rewrite orb_false_r in Ha. apply bool_decide_eq_true in Ha as ->.
  rewrite <- (str_app_assoc w), (str_snoc (w +:+ proto) "/"), <- (len_snoc (w +:+ proto) "/"). clear Hl1. set (q := (w +:+ proto) +:+ "/").
  destruct (scan_split q r' "/") as (ver & r & -> & Hv & Hr & ->). destruct (_ <=? _)%nat eqn:Hl1; [done|]. rewrite (clamped_between q ver _ (String.length q) _ eq_refl eq_refl).
  apply stops_cases in Hr as [->|(a & r' & -> & Ha)]; [rewrite string_app_nil, Nat.leb_refl in Hl1; done|]. simpl in Ha. rewrite orb_false_r in Ha. apply bool_decide_eq_true in Ha as ->.
  rewrite <- (str_app_assoc q), (str_snoc (q +:+ ver) "/"), <- (len_snoc (q +:+ ver) "/"). clear Hl1. set (q2 := (q +:+ ver) +:+ "/").
  destruct (skip_split q2 r') as (w2 & r & -> & ->). rewrite <- (str_app_assoc q2). set (q3 := q2 +:+ w2).
  destruct (scan_split q3 r VIA_TRANSPORT_ENDS) as (tr & r' & -> & Ht & _ & ->). rewrite (clamped_between q3 tr _ (String.length q3) _ eq_refl eq_refl). destruct (String.eqb tr "") eqn:Hne; [done|].
  rewrite <- (str_app_assoc q3). destruct (skip_split (q3 +:+ tr) r') as (w3 & r & -> & ->). rewrite <- (str_app_assoc (q3 +:+ tr)).
  destruct (read_sent_by _ _) as [[[host port] j]|] eqn:Hs; [|done]. apply read_sent_by_inv in Hs as [Hh Hport]. cbn [mbind option_bind].
  destruct (u16_port port) as [port'|] eqn:Hu; [|done]. cbn [mbind option_bind]. destruct (parse_semicolon_params _ _ _) as [[l k]|] eqn:Hps; [|done]. cbn [mbind option_bind].
  intros [= <-]. assert (forall x, every (avoids "/") x = true -> has_char "/" x = false) as Hns by (intros x; by apply every_no_char).
  constructor; cbn [via_protocol via_version via_hop hop_transport hop_sent_by hop_params hp_host hp_port].
  - split; [apply trim_idem|by apply trim_no_char, Hns].
  - split; [apply trim_idem|by apply trim_no_char, Hns].
  - split; [by apply String.eqb_neq|done].
  - done.
  - unfold u16_port in Hu. destruct port as [z|]; [|by injection Hu as <-]. destruct (Z.leb_spec z u16_MAX); [|done]. by injection Hu as <-.
  - by eapply collect_ok.
Qed.

(** A hop that was read reads back from its rendering. *)
Theorem via_read_back raw v : parse_via raw = Some v -> via_ok v /\ read_via (render_via v) = Some v.
Proof. intros H%read_via_ok. split; [done|by apply read_via_render]. Qed.
End via_wf.

(** ** What the proxy writes *)

Lemma set_fresh n v l : params_get n l = None -> params_set n v l = l ++ [(n, v)].
Proof. induction l as [|[k w] l IH]; [done|]. rewrite get_cons. cbn [params_set]. destruct (same_name k n); [done|]. intros H. by rewrite IH. Qed.
Lemma set_forall (P : string * ParamValue -> Prop) n v l : Forall P l -> (forall k, lower k = lower n -> (k = n \/ exists w, (k, w) ∈ l) -> P (k, v)) -> Forall P (params_set n v l).
Proof.
  intros Hl Hv. induction Hl as [|[k w] l Hk Hl IH]; cbn [params_set]; [constructor; [|constructor]; apply Hv; auto|].
  destruct (same_name k n) eqn:Hs.
  - constructor; [|done]. apply Hv; [by apply same_name_true|]. right. exists w. apply elem_of_cons. by left.
  - constructor; [done|]. apply IH. intros k' Hk' [->|[w' Hw]]; apply Hv; auto. right. exists w'. apply elem_of_cons. by right.
Qed.
Lemma text_value_ok v : value_ok HEADER_PARAMS (text_value v) = true.
Proof.
  unfold text_value. destruct (String.eqb v "" || any_char needs_quotes v) eqn:Hq; [done|]. apply orb_false_iff in Hq as [_ Hq]. unfold value_ok.
  assert (every (fun a => negb (needs_quotes a)) v = true) as He.
  { clear -Hq. induction v as [|a v IH]; [done|]. simpl in *. apply orb_false_iff in Hq as [-> Hq]. by rewrite IH. }
  apply andb_true_iff. split; [revert He; apply every_impl; by_class|]. apply negb_true_iff, bool_decide_eq_false. destruct v as [|a v]; [done|]. cbn [first_char every] in *. intros [= ->]. done.
Qed.
(** A cookie whose names are tokens, its values the bytes of a line. *)
Definition cookie_texts (ck : RouteParams) : bool :=
  forallb (fun p => negb (String.eqb p.1 "") && every (avoids (name_delims HEADER_PARAMS)) p.1 && every visible p.1 && every visible p.2) ck.
Definition ends_visible (s : string) : bool := match last_char s with Some a => visible a | None => false end.
Lemma last_char_app x y : y <> "" -> last_char (x +:+ y) = last_char y.
Proof. intros Hy. induction x as [|a x IH]; [done|]. str_norm. destruct (x +:+ y) eqn:Exy; [by destruct x|]. done. Qed.
Lemma every_ends s : every visible s = true -> s <> "" -> ends_visible s = true.
Proof.
  unfold ends_visible. induction s as [|a s IH]; [done|]. intros H _. cbn [every] in H. apply andb_true_iff in H as [Ha Hs]. destruct s as [|b s]; [done|]. by apply IH.
Qed.
(** The last parameter ends its list. *)
Definition param_ends (q : string * ParamValue) : bool := ends_visible (String ";" (q.1 +:+ render_value q.2)).
Lemma ends_app x y : y <> "" -> ends_visible (x +:+ y) = ends_visible y.
Proof. intros Hy. unfold ends_visible. by rewrite last_char_app. Qed.
Lemma render_params_last l : l <> [] -> Forall (fun q => param_ends q = true) l -> ends_visible (render_params l) = true.
Proof.
  intros Hne Hl. induction Hl as [|[n v] l Hq Hl IH]; [done|]. rewrite render_cons. destruct l as [|q l].
  - change (render_params []) with "". rewrite string_app_nil. exact Hq.
  - replace (String ";" (n +:+ render_value v +:+ render_params (q :: l))) with (String ";" (n +:+ render_value v) +:+ render_params (q :: l)) by (by str_norm).
    rewrite ends_app; [by apply IH|]. destruct q. by rewrite render_cons.
Qed.
Lemma text_value_ends n v : every visible v = true -> param_ends (n, text_value v) = true.
Proof.
  intros Hv. unfold param_ends. cbn [fst snd]. rewrite <- str_app_cons, ends_app by (unfold text_value; by destruct (_ || _)). unfold text_value.
  destruct (String.eqb v "" || any_char needs_quotes v) eqn:Hq; cbn [render_value].
  - unfold wire_quoted. rewrite <- !str_app_cons. by rewrite ends_app.
  - apply orb_false_iff in Hq as [Hne _]. apply String.eqb_neq in Hne. change (String "=" v) with ("=" +:+ v). rewrite ends_app by done. by apply every_ends.
Qed.
Section pushed.
Context `{L : StdIpLaws}.
(** Read off the wire, a hop of this proxy: well formed, its last byte visible. *)
Lemma parse_new h : via_ok (via_new h) -> (hop_params h <> []) -> Forall (fun q => param_ends q = true) (hop_params h) -> parse_via (render_via (via_new h)) = Some (via_new h).
Proof.
  intros Hok Hne He. unfold parse_via. pose proof (render_params_last _ Hne He) as Hl. rewrite <- (read_via_render _ Hok). f_equal.
  assert (ends_visible (render_via (via_new h)) = true) as Hend.
  { unfold render_via. cbn [via_hop via_new via_protocol via_version]. assert (render_params (hop_params h) <> "") as Hp by (destruct (hop_params h) as [|[n v] l]; [done|by rewrite render_cons]).
    replace ("SIP" +:+ _) with (("SIP/2.0/" +:+ hop_transport h +:+ String " " (render_hostport (hop_sent_by h))) +:+ render_params (hop_params h)) by (by str_norm). by rewrite ends_app. }
  unfold ends_visible in Hend. destruct (last_char _) as [z|] eqn:Hz; [|done]. by eapply trim_visible.
Qed.
Record hop_ready (h : ViaHop) : Prop := {
  hr_ok : via_ok (via_new h);
  hr_some : hop_params h <> [];
  hr_ends : Forall (fun q => param_ends q = true) (hop_params h);
}.
Lemma with_cookie_ready ck h : forallb (fun p => negb (String.eqb p.1 "") && every (avoids (name_delims HEADER_PARAMS)) p.1 && every visible p.1 && every visible p.2) ck = true ->
  hop_ready h -> hop_ready (via_with_cookie h (Some ck)).
Proof.
  unfold via_with_cookie. cbn [default]. revert h. induction ck as [|[n v] ck IH]; intros h Hck Hh; [done|]. cbn [forallb fst snd] in Hck. apply andb_true_iff in Hck as [Hnv Hck].
  rewrite !andb_true_iff in Hnv. destruct Hnv as [[[Hne Hn] Hvn] Hvv]. cbn [foldl]. apply IH; [done|]. cbn [fst snd]. destruct (hop_param n h) eqn:Hget; [done|]. destruct Hh as [[H1 H2 H3 H4 H5 H6] Hs He].
  unfold with_param. unfold hop_param in Hget. rewrite set_fresh by done. cbn [via_hop via_new hop_transport hop_sent_by hop_params] in *. constructor; [constructor|..]; cbn [via_hop via_new hop_transport hop_sent_by hop_params]; try done.
  - apply Forall_app. split; [done|]. constructor; [|constructor]. unfold param_ok. cbn [fst snd]. rewrite Hn, text_value_ok. rewrite bool_decide_false; [done|]. unfold text_value. by destruct (_ || _).
  - by destruct (hop_params h).
  - apply Forall_app. split; [done|]. constructor; [|constructor]. by apply text_value_ends.
Qed.

Context `{BE : BranchEnv} (Hsha : forall x, Forall is_byte (sha256 x)).
Lemma hex_digit_char n : (n < 16)%nat -> is_alphanum (hex_digit n) = true.
Proof. intros Hn. do 16 (destruct n as [|n]; [done|]). lia. Qed.
Lemma branch_alphanum q : every is_alphanum (stateless_branch q) = true.
Proof.
  unfold stateless_branch. rewrite every_app. apply andb_true_iff. split; [done|]. assert (Forall is_byte (take 8 (sha256 (branch_input q)))) as Hb by (by apply Forall_take).
  induction Hb as [|b l Hb _ IH]; [done|]. cbn [foldr]. rewrite every_app, IH, andb_true_r. unfold is_byte in Hb. unfold hex2. cbn [every].
  rewrite !hex_digit_char; [done|..].
  - pose proof (Z.mod_pos_bound b 16 ltac:(lia)). lia.
  - pose proof (Z.div_le_lower_bound b 16 0 ltac:(lia)). pose proof (Z.div_lt_upper_bound b 16 16 ltac:(lia)). lia.
Qed.
Lemma branch_ready q a : host_refused (pa_host a) Target = false -> 0 <= pa_port a <= u16_MAX -> hop_ready (requesting_rport (with_branch (stateless_branch q) (via_udp a))).
Proof.
  intros Hh Hp. pose proof (branch_alphanum q) as Hb. constructor; [constructor|..]; try done.
  - constructor; [|constructor; [done|constructor]]. unfold param_ok. cbn [fst snd value_ok].
    rewrite (every_avoids is_alphanum (value_delims HEADER_PARAMS) (stateless_branch q)) by done. done.
  - constructor; [|constructor; [done|constructor]]. unfold param_ends. cbn [fst snd render_value]. rewrite <- str_app_cons, ends_app by done.
    change (String "=" (stateless_branch q)) with ("=" +:+ stateless_branch q). rewrite ends_app by done. apply every_ends; [|done]. revert Hb. apply every_impl. by_class.
Qed.
End pushed.

(** The hop a request leaves with is read back whole by the next reader, its
    cookie whatever its values. *)
Theorem pushed_via_read_back `{L : StdIpLaws} {HE : HostEnv} {BE : BranchEnv} {TE : TagEnv} cf q t ck :
  (forall x, Forall is_byte (sha256 x)) ->
  host_refused (pa_host (egress_advertised cf t)) Target = false -> 0 <= pa_port (egress_advertised cf t) <= u16_MAX ->
  cookie_texts (default [] ck) = true ->
  parse_via (render_via (via_new (pushed_via cf q t ck))) = Some (via_new (pushed_via cf q t ck)).
Proof.
  intros Hsha Hh Hp Hck. unfold pushed_via. assert (hop_ready (via_with_cookie (requesting_rport (with_branch (stateless_branch q) (via_udp (egress_advertised cf t)))) ck)) as [H1 H2 H3].
  { pose proof (branch_ready Hsha q _ Hh Hp) as Hr. destruct ck as [ck|]; [by apply with_cookie_ready|done]. }
  by apply parse_new.
Qed.

(** ** The Record-Route the proxy inserts *)

Definition uri_parts (u : SipUri) : UriParts := mkParts (u_scheme u) (u_user u) (u_authority u) (u_params u) [] (u_opaque_part u).
Definition param_text_ok (v : string) : bool := negb (paramchar_refused v).
(** Distinct lower-case names, none of them a flag of the entry. *)
Definition wire_cookie (ck : RouteParams) : Prop :=
  Forall (fun p => param_text_ok p.1 = true /\ lower p.1 = p.1 /\ (p.2 = "" \/ param_text_ok p.2 = true)) ck /\ NoDup (map fst ck).
Definition entry_value (v : string) : ParamValue := if String.eqb v "" then PFlag else text_value v.
Lemma text_value_token v : param_text_ok v = true -> text_value v = PToken v.
Proof.
  unfold param_text_ok, paramchar_refused. rewrite negb_true_iff, orb_false_iff. intros [Hne Hv%run_ok]. unfold text_value. rewrite Hne. cbn [orb].
  destruct (any_char needs_quotes v) eqn:Hq; [|done]. exfalso. clear Hne. induction v as [|a v IH]; [done|]. cbn [every any_char] in *. apply andb_true_iff in Hv as [Ha Hv].
  apply orb_true_iff in Hq as [Hq|Hq]; [|by apply IH]. assert (negb (needs_quotes a) = true) as Hn; [|by rewrite Hq in Hn]. revert a Ha Hq. intros a Ha _. revert a Ha. by_class.
Qed.
Lemma entry_value_ok p : param_text_ok p.1 = true -> p.2 = "" \/ param_text_ok p.2 = true -> forall k, param_text_ok k = true -> sip_param_ok (k, entry_value p.2) = true.
Proof.
  intros _ Hv k Hk. unfold sip_param_ok, entry_value. cbn [fst snd]. change (negb (paramchar_refused k)) with (param_text_ok k). rewrite Hk. destruct Hv as [->|Hv]; [done|].
  assert (String.eqb p.2 "" = false) as -> by (unfold param_text_ok, paramchar_refused in Hv; by destruct (String.eqb p.2 "")). by rewrite text_value_token.
Qed.
Lemma sip_set_ok n v l : Forall (fun q => sip_param_ok q = true) l -> param_text_ok n = true -> (forall k, param_text_ok k = true -> sip_param_ok (k, v) = true) ->
  Forall (fun q => sip_param_ok q = true) (params_set n v l).
Proof.
  intros Hl Hn Hv. apply set_forall; [done|]. intros k _ [->|[w Hw]]; [by apply Hv|]. apply Hv. rewrite Forall_forall in Hl. apply Hl in Hw. by apply andb_true_iff in Hw as [? _].
Qed.
Definition params_unique (l : ParamList) : Prop := NoDup (map (fun p => lower p.1) l).
Lemma set_names n v l : map (fun p => lower p.1) (params_set n v l) = if bool_decide (lower n ∈ map (fun p => lower p.1) l) then map (fun p => lower p.1) l else map (fun p => lower p.1) l ++ [lower n].
Proof.
  induction l as [|[k w] l IH]; cbn [params_set map fst]; [done|]. destruct (same_name k n) eqn:Hs; cbn [map fst].
  - apply same_name_true in Hs. rewrite bool_decide_eq_true_2; [done|]. apply elem_of_cons. left. done.
  - rewrite IH. assert (lower n <> lower k) as Hne by (intros He; unfold same_name in Hs; apply String.eqb_neq in Hs; congruence). destruct (decide (lower n ∈ map (fun p => lower p.1) l)) as [Hin|Hin].
    + rewrite !bool_decide_eq_true_2; [done|apply elem_of_cons; by right|done].
    + rewrite !bool_decide_eq_false_2; [done| |done]. rewrite elem_of_cons. tauto.
Qed.
Lemma set_unique n v l : params_unique l -> params_unique (params_set n v l).
Proof.
  unfold params_unique. rewrite set_names. case_bool_decide as Hin; [done|]. intros H. apply NoDup_app. split; [done|]. split; [|apply NoDup_singleton].
  intros x Hx ->%list_elem_of_singleton. done.
Qed.

(** What a cookie reader finds in a list of distinct names. *)
Lemma params_get_none n l : params_get n l = None <-> lower n ∉ map (fun p => lower p.1) l.
Proof.
  induction l as [|[k w] l IH]; [split; [intros _; apply not_elem_of_nil|done]|]. rewrite get_cons. cbn [map fst]. rewrite not_elem_of_cons.
  unfold same_name. destruct (String.eqb_spec (lower k) (lower n)) as [He|He]; [split; [done|intros [H _]; congruence]|]. rewrite IH. split; [intros H; split; [congruence|done]|tauto].
Qed.
Lemma collect_get n l : params_unique l -> lower n = n -> rp_get n (collect_params l) = (fun v => default "" (param_text v)) <$> params_get n l.
Proof.
  unfold collect_params. assert (forall acc, params_unique l -> lower n = n ->
    rp_get n (foldl (fun acc p => rp_insert (lower p.1) (default "" (param_text p.2)) acc) acc l) =
      match params_get n l with Some v => Some (default "" (param_text v)) | None => rp_get n acc end) as H.
  2: { intros Hu Hn. rewrite H by done. by destruct (params_get n l). }
  induction l as [|[k w] l IH]; intros acc Hu Hn; [done|]. cbn [foldl fst snd]. apply NoDup_cons in Hu as [Hk Hu]. cbn [fst] in Hk. rewrite IH by done. rewrite get_cons. unfold same_name.
  rewrite Hn. destruct (String.eqb_spec (lower k) n) as [He|He].
  - assert (params_get n l = None) as -> by (apply params_get_none; rewrite Hn, <- He; done). rewrite He. apply rp_get_insert_eq.
  - destruct (params_get n l); [done|]. apply rp_get_insert_ne. congruence.
Qed.
Lemma entry_params_get n ck u : Forall (fun p => lower p.1 = p.1) ck -> NoDup (map fst ck) -> lower n = n ->
  params_get n (u_params (entry_params ck u)) = match rp_get n ck with Some v => Some (entry_value v) | None => params_get n (u_params u) end.
Proof.
  unfold entry_params. intros Hl. revert u. induction Hl as [|[k v] ck Hk _ IH]; intros u Hnd Hn; [done|]. cbn [foldl fst snd] in *. apply NoDup_cons in Hnd as [Hin Hnd]. rewrite IH by done.
  unfold rp_get at 2. cbn [List.find fst]. destruct (String.eqb_spec k n) as [->|Hne]; cbn [fmap option_fmap option_map snd].
  - assert (rp_get n ck = None) as ->.
    { unfold rp_get. destruct (List.find _ ck) as [[k' v']|] eqn:Hf; [|done]. apply List.find_some in Hf as [Hf He]. apply String.eqb_eq in He as He'. cbn [fst] in He'. subst k'.
      exfalso. apply Hin. by apply (List.in_map fst), list_elem_of_In in Hf. }
    cbn [uri_with_param u_params]. rewrite get_set. by rewrite same_name_refl.
  - fold (rp_get n ck). destruct (rp_get n ck); [done|]. cbn [uri_with_param u_params]. rewrite get_set. unfold same_name. rewrite Hk, Hn. by destruct (String.eqb_spec k n).
Qed.
Lemma entry_params_ok ck u : Forall (fun p => param_text_ok p.1 = true /\ lower p.1 = p.1 /\ (p.2 = "" \/ param_text_ok p.2 = true)) ck ->
  Forall (fun q => sip_param_ok q = true) (u_params u) /\ params_unique (u_params u) ->
  let u' := entry_params ck u in
  Forall (fun q => sip_param_ok q = true) (u_params u') /\ params_unique (u_params u') /\ u_scheme u' = u_scheme u /\ u_user u' = u_user u /\ u_authority u' = u_authority u /\ u_opaque_part u' = u_opaque_part u.
Proof.
  unfold entry_params. intros Hl. revert u. induction Hl as [|[k v] ck (Hk & _ & Hv) _ IH]; intros u [Hp Hu]; [done|]. cbn [foldl fst snd] in *.
  destruct (IH (uri_with_param k (entry_value v) u)) as (H1 & H2 & H3 & H4 & H5 & H6); [|by repeat split].
  cbn [uri_with_param u_params]. split; [|by apply set_unique]. apply sip_set_ok; [done|done|]. intros k' Hk'. by apply (entry_value_ok (k, v)).
Qed.
Lemma flag_ok n : param_text_ok n = true -> sip_param_ok (n, PFlag) = true.
Proof. unfold sip_param_ok, param_text_ok. cbn [fst snd]. by intros ->. Qed.

Section record_route.
Context `{L : StdIpLaws}.
(** The entry, with or without its flag: what it is made of. *)
Lemma entry_ok a ck flag : host_refused (pa_host a) Target = false -> 0 < pa_port a <= u16_MAX -> wire_cookie ck -> match flag with Some f => param_text_ok f = true | None => True end ->
  sip_ok (uri_parts (entry a ck flag)) Target /\ params_unique (u_params (entry a ck flag)) /\ u_scheme (entry a ck flag) = "sip".
Proof.
  intros Hh Hp [Hck Hnd] Hf. unfold entry. destruct (entry_params_ok ck (uri_sip (pa_host a) (pa_port a)) Hck) as (H1 & H2 & H3 & H4 & H5 & H6); [by split; constructor|].
  set (u := entry_params ck _) in *. assert (forall n w, param_text_ok n = true -> Forall (fun q => sip_param_ok q = true) (u_params w) -> Forall (fun q => sip_param_ok q = true) (u_params (uri_with_flag n w))) as Hflag.
  { intros n w Hn Hw. cbn [uri_with_flag uri_with_param u_params]. apply sip_set_ok; [done|done|]. intros k. apply flag_ok. }
  split; [constructor|split]; destruct flag as [f|]; cbn [uri_parts up_user up_authority up_params up_headers up_opaque uri_with_flag uri_with_param u_user u_authority u_opaque_part u_scheme]; rewrite ?H3, ?H4, ?H5, ?H6;
    try done; try (by split); repeat first [apply Hflag|apply set_unique|done].
Qed.
(** Written in a Record-Route, rendered and read again, it is the same entry. *)
Lemma entry_read_back a ck flag : host_refused (pa_host a) Target = false -> 0 < pa_port a <= u16_MAX -> wire_cookie ck -> match flag with Some f => param_text_ok f = true | None => True end ->
  read_uri (render_uri (uri_parts (entry a ck flag))) Target = Some (uri_parts (entry a ck flag)).
Proof.
  intros Hh Hp Hck Hf. destruct (entry_ok a ck flag Hh Hp Hck Hf) as (Hok & _ & Hs). pose proof (so_opaque _ _ Hok) as Ho.
  rewrite render_sip; [|cbn [uri_parts up_scheme]; by rewrite Hs|done]. assert (up_scheme (uri_parts (entry a ck flag)) = "sip") as Hs' by done. rewrite Hs', read_uri_scheme by done. unfold read_rest. cbn [lower String.eqb].
  change (String.eqb (lower "sip") "sip" || _) with true. cbn [orb]. rewrite read_sip_render; [|done|by eapply pretty_port_text, so_host]. cbn [uri_parts up_user up_authority up_params up_headers up_opaque] in *.
  unfold uri_parts. by rewrite Hs, Ho.
Qed.
End record_route.

(** ** The cookie over the wire *)

Lemma entry_value_text v : default "" (param_text (entry_value v)) = v.
Proof. unfold entry_value, text_value. destruct (String.eqb_spec v "") as [->|_]; [done|]. by destruct (_ || _). Qed.
Lemma entry_cookie_get a ck flag n : wire_cookie ck -> params_unique (u_params (entry a ck flag)) -> lower n = n -> n <> "lr" -> match flag with Some f => lower f <> n | None => True end ->
  rp_get n (cookie_params (entry a ck flag)) = rp_get n ck.
Proof.
  intros [Hck Hnd] Hu Hn Hlr Hf. unfold cookie_params. rewrite collect_get by done. unfold entry. cbn [uri_with_flag uri_with_param u_params]. rewrite get_set.
  assert (same_name "lr" n = false) as -> by (unfold same_name; rewrite Hn; change (lower "lr") with "lr"; apply String.eqb_neq; congruence).
  assert (Forall (fun p => lower p.1 = p.1) ck) as Hlow by (eapply Forall_impl; [exact Hck|]; by intros p (_ & ? & _)).
  assert (params_get n (u_params (match flag with Some f => uri_with_flag f (entry_params ck (uri_sip (pa_host a) (pa_port a))) | None => entry_params ck (uri_sip (pa_host a) (pa_port a)) end)) =
    params_get n (u_params (entry_params ck (uri_sip (pa_host a) (pa_port a))))) as ->.
  { destruct flag as [f|]; [|done]. cbn [uri_with_flag uri_with_param u_params]. rewrite get_set. unfold same_name. rewrite Hn. by rewrite (proj2 (String.eqb_neq _ _) Hf). }
  rewrite entry_params_get by done. destruct (rp_get n ck) as [v|]; [|done]. simpl. by rewrite entry_value_text.
Qed.
Section cookie_wire.
Context `{L : StdIpLaws} `{CE : CookieEnv}.
Lemma check_fields p p' m h : (forall n, n ∈ FIELDS -> rp_get n p = rp_get n p') -> check p m h = check p' m h.
Proof. intros H. unfold check. rewrite !H; [done|..]; unfold FIELDS; set_solver. Qed.
Lemma sign_cookie_wire primary backup m call_id h : (forall l, every is_unreserved (b64_encode l) = true) ->
  primary = "" \/ param_text_ok primary = true -> backup = "" \/ param_text_ok backup = true -> hk_id (hp_current h) = "" \/ param_text_ok (hk_id (hp_current h)) = true ->
  wire_cookie (sign_cookie primary backup m call_id h).
Proof.
  intros Hb64 Hp Hb Hk. assert (forall l, b64_encode l = "" \/ param_text_ok (b64_encode l) = true) as Hsig.
  { intros l. pose proof (Hb64 l) as He. destruct (String.eqb_spec (b64_encode l) "") as [->|Hne]; [by left|right]. unfold param_text_ok, paramchar_refused. apply String.eqb_neq in Hne. rewrite Hne. cbn [orb].
    apply negb_true_iff. revert He. generalize (b64_encode l). intros s. clear. induction s as [|a s IH]; [done|]. cbn [every run_refused andb]. rewrite andb_true_iff. intros [Ha Hs].
    assert (Ascii.eqb a "%" = false) as -> by (apply negb_true_iff; revert a Ha; apply (class_sub is_unreserved (fun a => negb (Ascii.eqb a "%"))); by vm_compute).
    assert (is_paramchar a = true) as -> by (revert a Ha; by_class). by apply IH. }
  unfold sign_cookie, hmac_sign. set (flag := if is_emergency_invite m then _ else _). set (sig := b64_encode _). assert (sig = "" \/ param_text_ok sig = true) as Hs by apply Hsig. clearbody sig.
  assert (param_text_ok flag = true) as Hfl by (unfold flag; by destruct (is_emergency_invite m)). clearbody flag. set (kid := hk_id _) in *. clearbody kid. cbn [rp_insert]. 
  split.
  - simpl. repeat (constructor; [split_and!; cbn [fst snd]; auto|]). constructor.
  - by apply (bool_decide_unpack _).
Qed.

(** C8: stickiness survives the wire.  The cookie minted for a call, written in
    the Record-Route entry the proxy inserts (plain, or flagged for a call a
    worker places), rendered to text and read by the URI reader, is the entry
    that was written: a loose route at the advertised address, whose parameters
    read as a cookie are decided, for every later message, key set and pool, as
    the cookie that was minted is.  The worker ids and the key id are texts a
    URI parameter can carry. *)
Theorem sticky_route_over_the_wire a flag target m h members now s cookie :
  (forall l, every is_unreserved (b64_encode l) = true) ->
  host_refused (pa_host a) Target = false -> 0 < pa_port a <= u16_MAX ->
  flag = None \/ flag = Some "outbound" ->
  encode_stickiness target m h members now s = Some cookie ->
  (forall p, p ∈ cookie -> p.1 = "w_pri" \/ p.1 = "w_bak" \/ p.1 = "kid" -> p.2 = "" \/ param_text_ok p.2 = true) ->
  let u := entry a cookie flag in
  read_uri (render_uri (uri_parts u)) Target = Some (uri_parts u) /\ host_port u = a /\ is_loose_route u = true /\
  forall m' h' s', decode_stickiness (cookie_params u) m' h' s' = decode_stickiness cookie m' h' s'.
Proof.
  intros Hb64 Hh Hp Hflag He Hids u. assert (wire_cookie cookie) as Hw.
  { unfold encode_stickiness in He. destruct (call_id_of m) as [c|]; [|done]. destruct (lookup_by_address target now s) as [w|]; [|done]. cbn [mbind option_bind] in He. injection He as <-.
    apply sign_cookie_wire; [done|..].
    - apply (Hids ("w_pri", we_id w)); [|by left]. unfold sign_cookie, hmac_sign. simpl. set_solver.
    - apply (Hids ("w_bak", backup_for c (we_id w) members now s)); [|by right; left]. unfold sign_cookie, hmac_sign. simpl. set_solver.
    - apply (Hids ("kid", hk_id (hp_current h))); [|by right; right]. unfold sign_cookie, hmac_sign. simpl. set_solver. }
  assert (match flag with Some f => param_text_ok f = true | None => True end) as Hf by (by destruct Hflag as [->| ->]).
  destruct (entry_ok a cookie flag Hh Hp Hw Hf) as (Hok & Hu & _). split; [by apply entry_read_back|]. split; [|split].
  - unfold u, entry, host_port. destruct (entry_params_ok cookie (uri_sip (pa_host a) (pa_port a)) (proj1 Hw)) as (_ & _ & _ & _ & Ha & _); [by split; constructor|].
    destruct flag; cbn [uri_with_flag uri_with_param u_authority]; rewrite Ha; by destruct a.
  - unfold u, entry, is_loose_route, params_has. cbn [uri_with_flag uri_with_param u_params]. rewrite get_set. by rewrite same_name_refl.
  - intros m' h' s'. unfold decode_stickiness. rewrite (check_fields (cookie_params u) cookie); [done|]. intros n Hn. apply entry_cookie_get; [done|done|..].
    + unfold FIELDS in Hn. rewrite !elem_of_cons in Hn. destruct Hn as [->|[->|[->|[->|[->|[->|Hn]]]]]]; try done. by apply not_elem_of_nil in Hn.
    + intros ->. unfold FIELDS in Hn. by apply (bool_decide_pack _) in Hn.
    + destruct Hflag as [->| ->]; [done|]. intros <-. by apply (bool_decide_pack _) in Hn.
Qed.
End cookie_wire.

(** ** A cookie to run *)

(** The digest of [ex_cookie_env], written in hexadecimal. *)
Fixpoint ex_unhex (s : string) : option (list Z) :=
  match s with
  | EmptyString => Some []
  | String h (String l s) => a ← hex_val h; b ← hex_val l; r ← ex_unhex s; Some (Z.of_nat (a * 16 + b) :: r)
  | String _ EmptyString => None
  end.
Definition ex_hex_env : CookieEnv := {|
  hmac_sha256 := @hmac_sha256 ex_cookie_env; sha1 := @sha1 ex_cookie_env;
  b64_encode l := foldr (fun b s => String (hex_digit (Z.to_nat ((b / 16) mod 16))) (String (hex_digit (Z.to_nat (b mod 16))) s)) "" l;
  b64_decode := ex_unhex;
|}.
Lemma ex_hex_text l : every is_unreserved (@b64_encode ex_hex_env l) = true.
Proof.
  induction l as [|b l IH]; [done|]. cbn [b64_encode ex_hex_env foldr every] in *. unfold is_unreserved at 1 2.
  pose proof (Z.mod_pos_bound b 16 ltac:(lia)). pose proof (Z.mod_pos_bound (b / 16) 16 ltac:(lia)). rewrite !hex_digit_char by lia. exact IH.
Qed.
Definition ex_advertised : ProxyAddr := mkAddr "10.0.0.1" 5060.
Definition ex_wire_cookie : RouteParams := default [] (encode_stickiness (E := ex_hex_env) (mkAddr "10.0.0.1" 5060) (Request ex_invite) ex_provider ex_members 7 ex_pool).
Lemma sticky_route_over_the_wire_witness :
  let u := entry ex_advertised ex_wire_cookie (Some "outbound") in
  read_uri (IP := ex_ip) (render_uri (uri_parts u)) Target = Some (uri_parts u) /\
  decode_stickiness (E := ex_hex_env) (cookie_params u) (Request ex_bye) ex_rotated ex_pool = Forward (mkAddr "10.0.0.1" 5060) false.
Proof.
  assert (encode_stickiness (E := ex_hex_env) (mkAddr "10.0.0.1" 5060) (Request ex_invite) ex_provider ex_members 7 ex_pool = Some ex_wire_cookie) as He by (vm_compute; reflexivity).
  assert (forallb (fun p => String.eqb p.2 "" || param_text_ok p.2) ex_wire_cookie = true) as Hids by (vm_compute; reflexivity).
  assert (decode_stickiness (E := ex_hex_env) ex_wire_cookie (Request ex_bye) ex_rotated ex_pool = Forward (mkAddr "10.0.0.1" 5060) false) as Hd by (vm_compute; reflexivity).
  generalize He Hids Hd. generalize ex_wire_cookie. intros ck He' Hids' Hd' u.
  destruct (sticky_route_over_the_wire (L := ex_ip_laws) (CE := ex_hex_env) ex_advertised (Some "outbound") (mkAddr "10.0.0.1" 5060) (Request ex_invite) ex_provider ex_members 7 ex_pool ck) as (H1 & _ & _ & H2).
  - exact ex_hex_text.
  - vm_compute. reflexivity.
  - split; vm_compute; [reflexivity|discriminate].
  - right. reflexivity.
  - exact He'.
  - intros p Hp _. rewrite forallb_forall in Hids'. apply list_elem_of_In in Hp. specialize (Hids' p Hp). apply orb_true_iff in Hids' as [Hx|Hx]; [left; by apply String.eqb_eq|by right].
  - split; [exact H1|]. rewrite H2. exact Hd'.
Defined.
